(* ===== verification/_CoqProject ===== *)
-Q . S2P
Prelude.v
GraphqlAst.v
Scalars.v
ScalarModels.v
ScalarProps.v
RuntimeValue.v
Values.v
StoreTypes.v
StoreProps.v
Gas.v
ProofOfIndexing.v
PoiProps.v
PoiExamples.v
Names.v
Schema.v
SchemaProps.v
SchemaValid.v
EntityValidate.v
QueryAst.v
Coercion.v
QueryPrep.v
QueryMerge.v
QueryExpand.v
QueryReturns.v
QueryBlocks.v
QueryExamples.v
CacheInterface.v
LfuCache.v
LfuProps.v
EntityCache.v
EntityCacheProps.v
EntityCacheExamples.v
BlockState.v
HostExports.v
SubgraphInstance.v
HandlerProps.v
InstanceProps.v
BlockRange.v
Relational.v
VersionProps.v
RowProps.v
DeploymentStore.v
RevertProps.v
LayoutProps.v
FindManyProps.v
DeploymentProps.v
ApplyTotal.v
DeploymentExamples.v
BoundedQueue.v
VersionedStore.v
DeploymentVersions.v
Backoff.v
Runner.v
RunnerProps.v
RunnerRetry.v
RunnerExamples.v
Float64.v
PollingStream.v
PollingProps.v
PollingExamples.v
ChainStore.v
ChainStoreProps.v
Ingestor.v
ChainStoreExamples.v
EthTypes.v
EthDataSource.v
EthFilters.v
EthFilterProps.v
EthAdapter.v
EthTriggerProps.v
EthStarts.v
EthStreams.v
EthScanProps.v
EthExamples.v
EthScanExamples.v
Writable.v
WritableReads.v
WritableMany.v
WritableSystem.v
WritableExamples.v
