(* ===== verification/Prelude.v ===== *)
(** * Verification of graph-node

    graph-node indexes blockchain data for subgraphs: for each block, the
    mappings of a subgraph read and write entities, and the node stores every
    version of every entity in Postgres so that it can answer queries about any
    block and go back when blocks are reverted.  This development follows an
    entity on that way and verifies the code that it passes through.

    ** The parts and how they interact

    - A _schema_ says which entities a subgraph has.  It is a GraphQL document
      ([GraphqlAst.v] for [graph/src/data/graphql/ext.rs] and
      [object_or_interface.rs]) that is completed, linked to the schemas it
      imports and validated ([Schema.v], [SchemaProps.v], [SchemaValid.v] for
      [graph/src/data/schema.rs]).
    - _Values_ are scalars ([Scalars.v] for [graph/src/data/store/scalar.rs]),
      attributes and entities ([Values.v] and [EntityValidate.v] for
      [graph/src/data/store/mod.rs]) and the values of queries
      ([RuntimeValue.v] for [graph/src/data/value.rs]); names are checked when
      they are made ([Names.v] for [graph/src/data/subgraph/mod.rs]).
    - _Keys, operations, modifications, queries and events_ of the store
      interface are in [StoreTypes.v], their properties in [StoreProps.v]
      ([graph/src/components/store/mod.rs]).
    - While a block is processed, mappings work on an _entity cache_
      ([EntityCache.v] for [graph/src/components/store/cache.rs]), which keeps
      entities of the store in an LFU cache ([LfuCache.v] for
      [graph/src/util/lfu_cache.rs]) behind the interface of
      [CacheInterface.v], and collects the updates of the handlers; a _block
      state_ ([BlockState.v] for [graph/src/components/subgraph/instance.rs])
      adds errors and created data sources.  At the end of the block the cache
      turns the updates into modifications.
    - Mappings are WebAssembly code that calls _host exports_ ([HostExports.v]
      for [runtime/wasm/src/host_exports.rs], [module/mod.rs] and [host.rs]) to
      read, write and remove entities and to create data sources.  A handler
      pays for them with _gas_ ([Gas.v] for [graph/src/runtime/gas/]), and what
      it writes goes into a _proof of indexing_ ([ProofOfIndexing.v] for
      [graph/src/components/subgraph/proof_of_indexing/]).
    - A _subgraph instance_ ([SubgraphInstance.v] for
      [core/src/subgraph/instance.rs]) has a host per data source and runs the
      handlers that match a trigger.  The _runner_ ([Runner.v] for
      [core/src/subgraph/runner.rs], [inputs.rs], [state.rs] and [error.rs])
      drives it with the events of a block stream, writes each block to the
      store, reverts blocks, and decides whether it continues, restarts or stops.
    - The events come from a _polling block stream_ ([PollingStream.v] for
      [graph/src/blockchain/polling_block_stream.rs], with the floating point
      numbers of [Float64.v]), which compares the block of the subgraph with the
      head of the chain and goes forward or back.
    - The head of a chain and its recent blocks are in a _chain store_
      ([ChainStore.v] for [store/postgres/src/chain_store.rs], with the cache of
      [graph/src/util/timed_cache.rs]).  The _block ingestor_ ([Ingestor.v] for
      [chain/ethereum/src/ingestor.rs]) fills it from an Ethereum node.
    - What the stream hands to the runner are the _triggers_ of a block: its logs,
      calls and the block itself ([EthTypes.v] for
      [graph/src/components/ethereum/types.rs] and
      [chain/ethereum/src/trigger.rs]).  A _data source_ ([EthDataSource.v] for
      [chain/ethereum/src/data_source.rs]) has the handlers for triggers of a
      contract and decodes them.  The data sources of a subgraph make up a
      _filter_ ([EthFilters.v] for [chain/ethereum/src/adapter.rs]), with which the
      _adapter_ ([EthAdapter.v] for [chain/ethereum/src/ethereum_adapter.rs] and
      [chain.rs]) looks for triggers: in a block that it has with receipts and
      calls, or in a range of final blocks with queries to an Ethereum node.
    - The modifications go through a _write queue_ ([Writable.v] for
      [store/postgres/src/writable.rs]) on a bounded queue ([BoundedQueue.v] for
      [graph/src/util/bounded_queue.rs]); a background task executes the queued
      requests, and repeats them while the database is away ([Backoff.v] for
      [graph/src/util/backoff.rs]).  Reads of the cache go through the queue.
    - The queue uses a _deployment store_ through the interface of
      [VersionedStore.v].  The deployment store ([DeploymentStore.v] for
      [store/postgres/src/deployment_store.rs], [deployment.rs] and [dynds.rs])
      groups modifications, applies them to the entity tables and keeps the
      block pointer, the entity count, data sources, errors and health.
    - The _entity tables_ ([Relational.v] for [store/postgres/src/relational.rs],
      [relational_queries.rs] and [relational/ddl.rs]) hold a row per version of
      an entity, with the blocks at which it is valid ([BlockRange.v] for
      [block_range.rs]).
    - Clients read entities with GraphQL queries.  A query ([QueryAst.v] for
      [graphql/src/execution/ast.rs] and [query/ast.rs]) is _prepared_ for an API
      schema ([QueryPrep.v] for [graphql/src/execution/query.rs], [query/ext.rs]
      and [ApiSchema] of [graph/src/data/schema.rs]): variables and arguments are
      coerced to their types ([Coercion.v] for [graphql/src/values/coercion.rs]),
      its complexity is checked, its fields are validated, and fragments are
      expanded into a selection set for each object type, which is split by the
      blocks at which it is to be executed.

    ** How the code is modelled

    Code is a function of the state it works on.  A fallible function returns a
    [result]: [Ok], [Err] with the error, or [Panic] for [panic!], [unwrap] of
    nothing, a failed [assert!] and the like; [let?] is the [?] operator and
    [assert!] an assertion.  Errors are constructors with the values that the
    messages of the code are made of.  A call that waits is [None].  Integers
    are [Z], with their width written out where the code depends on it
    ([wrap_i32], [to_i32], [usize_sub]).  A [HashMap] is a [gmap], and where the
    order of its iteration could matter it is a parameter; a [BTreeMap] is a
    [gmap] that is iterated in the order of its keys ([btree_iter]).

    Code from other crates and Postgres enters as a class with the operations
    that are used and their documented behaviour as laws: [Hex], [NumBigint] and
    [BigDecimalLib] in [Scalars.v], [PriorityQueue] in [LfuCache.v],
    [Semaphore] in [BoundedQueue.v], [Int4Range] in [BlockRange.v] and
    [PgValues] in [Relational.v], [NumBits] in [Gas.v], [StableHash] in
    [ProofOfIndexing.v].  Each has an instance ([ScalarModels.v],
    [LfuProps.v], [BoundedQueue.v], [BlockRange.v], [DeploymentExamples.v],
    [PoiExamples.v]), so the laws can be met, and the witnesses of the theorems
    compute with it.  Between components the same is done with
    [CacheOps]/[CacheLaws] and [VersionedStore]/[VersionedStoreLaws], whose laws
    are proved for the components that implement them ([LfuCache.v],
    [DeploymentVersions.v]), and with [RunnerStore]/[RunnerStoreLaws], the store
    that the runner writes to ([RunnerExamples.v] has an instance).  The block
    stream asks a [TriggersAdapter] in worlds that may change from call to call
    ([PollingExamples.v] has an instance); the content of stored blocks is behind
    [BlockJson] and [ChainBlock], and the Ethereum node is a record [EthNode]
    ([ChainStoreExamples.v]).  For Ethereum, the graph of [petgraph] is
    [GraphMap], [ethabi] is [AbiCodec], the hash of signatures is [Keccak] and the
    JSON of contexts [ContextJson], with instances in [EthExamples.v] and a node for any chain in [EthScanExamples.v]; the JSON-RPC
    calls of the adapter and the blocks in the chain store are the records
    [EthRpc] and [BlockCache], and the settings from the environment
    [AdapterEnv].  The chain
    that a runner works for, which the code has as a type parameter, is a record
    of functions ([Chain]).

    The WebAssembly code of a mapping is a [Program]: a tree of calls of host
    exports, each with a continuation for the answer, that ends by returning or
    with a trap.  The engine that runs it is [run_program].

    SQL statements are functions on the rows of a table that do what the
    generated text asks for; constraints of a table ([relational/ddl.rs]) make a
    statement fail.  A transaction that fails leaves no state.

    Concurrency is interleaving: the calls on a bounded queue ([sys_step]), and
    the front of the write queue with its background writer ([wsys_step]), are
    step relations whose steps are the actions of the code between the points
    where another task can run.

    ** What the theorems show

    - Schemas: interfaces are collected exactly; importing ends, also on cycles,
      and finds exactly what is reachable; fulltext definitions that pass
      validation convert without panic ([SchemaProps.v]); validation accepts
      exactly the schemas that meet a condition for each of its checks
      ([SchemaValid.v]).
    - Values: round trips, exact or reported conversions, unique normal forms
      ([ScalarProps.v], [RuntimeValue.v]); validation accepts exactly the
      entities that conform ([EntityValidate.v]); names are exactly the words of
      their grammar ([Names.v]).
    - Store types: accumulating operations equals applying them in turn, events
      match exactly the filters of what changed and none is lost when they are
      throttled ([StoreProps.v]).
    - Caches: the LFU cache is a map that only forgets when it evicts, within
      its bound and in its order ([LfuProps.v]); the entity cache is a pair of
      maps with handlers as transactions, and its modifications bring the store
      to what the readers saw ([EntityCacheProps.v]).  Both are for all calls but
      [extend], which leaves the weight of the LFU cache wrong.
    - Handlers and blocks: a handler is a transaction on a plain database, with
      the calls of its code answered from the database and the gas that is left
      ([HandlerProps.v]); processing a block has the effect of its handlers, run
      one after the other, on the entities and data sources of the store, or none,
      and each kind of failure is accounted for ([InstanceProps.v],
      [RunnerProps.v]); every event leaves the runner consistent, but for the
      hosts that a failed block or a long revert leaves behind ([RunnerRetry.v]); the gas counter bounds what a handler can do ([Gas.v]); the
      proof of indexing that is computed block by block equals the reference
      definition over the whole history ([PoiProps.v]).
    - Chains: the polling block stream loses no block with triggers whatever the
      chain does, asks for ranges within its bounds, and catches up when the
      chain is at rest ([PollingProps.v]); the chain store keeps the ancestors of
      its head ([ChainStoreProps.v]), which the stream needs near the head; a poll
      of the ingestor ends and catches up with the node ([Ingestor.v]).
    - Triggers: the filter of a subgraph wants exactly what its data sources and
      templates handle ([EthFilterProps.v]), so that a block with receipts and calls
      has exactly the triggers that have a handler, and the queries for logs cover
      the logs that are wanted and no others ([EthTriggerProps.v]); a scan of final
      blocks on a node that answers truly ends and finds every trigger that a data
      source processes ([EthStarts.v], [EthStreams.v], [EthScanProps.v]); triggers are
      processed in the order of the chain ([EthTypes.v]); a data source that was
      created from a template is read back as it was ([EthDataSource.v]).
    - Queries: the selection set of a prepared query has exactly the paths that the
      query of the client asks for, with unique response keys at any depth
      ([QueryMerge.v], [QueryExpand.v]); a query whose
      complexity is known is prepared without a panic, within the depth that is
      allowed ([QueryReturns.v]); coercion returns values of the type
      ([Coercion.v]); block constraints partition the fields of a query
      ([QueryBlocks.v]).
    - Tables: applying the modifications of a block succeeds where it should,
      leaves all earlier blocks alone and makes the new state visible from the
      block on; reverting never fails and restores the earlier state; writing
      and reverting a block is the identity ([VersionProps.v], [RowProps.v],
      [RevertProps.v], [LayoutProps.v], [FindManyProps.v],
      [DeploymentProps.v], [ApplyTotal.v]).
    - Writing: the bounded queue never panics and is first-in first-out under
      every interleaving; requests are executed once and in order and none after
      an error; the queue gets empty; and reads through the queue see what the
      store will hold when the queue has been executed, as long as an id is
      always spelled in the same way ([BoundedQueue.v],
      [WritableReads.v], [WritableMany.v], [WritableSystem.v]).
    - A few theorems show runs in which the code departs from its documentation
      or does what it can not mean to do; they are in [LfuProps.v],
      [SchemaValid.v], [EntityValidate.v], [EntityCacheExamples.v],
      [LayoutProps.v], [DeploymentExamples.v], [Backoff.v],
      [RunnerRetry.v], [ChainStoreExamples.v], [EthScanProps.v],
      [WritableExamples.v] and [QueryReturns.v].

    ** Bounds and fuel

    Recursion of the code that is not structural takes fuel.  The theorems give
    the fuel that is enough: [resolve_import_graph] needs one more than the
    number of schemas that can be resolved, [evict_loop] and [clear_loop] one
    more than the number of entries, [chunks] the length of the list,
    [scalar_value_type] (in [entity_validate]) two levels, since an id is a
    scalar.  [retry_loop] ends when its fuel reaches an attempt at which the
    database is there; without one the code does not return either.  The
    rounds of created data sources in [process_block] are bounded by the limit
    on their number, as each round adds a host; the streams of [run] take the
    events that they are given.  The recursive query of
    [storage_missing_parent] takes one step more than the number of ancestors
    that are kept, and [ingest_missing] as many rounds as that number.
    [cover_graph] needs as many rounds as the graph has edges.  The streams of
    logs and traces take a step for each request: one for each block of the range
    is enough for traces, and twice as many for logs, where the number of blocks
    that are asked for is reduced when a request is too heavy.
    Validation and expansion of a query need one more than the maximal depth;
    [resolve_types] recurses only through unions, which the schemas of the theorems
    do not have.
    [next_blocks] repeats a step while the chain store lacks a block; it is
    [None] when its retries do not suffice.  Block
    numbers are below [BLOCK_NUMBER_MAX] where the theorems say so, as the code
    uses it for "no block".

    ** What is not modelled

    The JSON-RPC requests of the Ethereum adapter with their retries and contract
    calls, the other chains, the firehose streams, the execution of prepared
    GraphQL queries, the servers
    and the node itself are network and I/O code around the parts above.  The
    files of a manifest are resolved by I/O, too.  Of the WebAssembly runtime the
    conversion of values in the memory of a module, and the exports for JSON,
    IPFS, ENS and cryptography, are left out.  Of the
    stores, the primary database, the creation of schemas for chains, transaction
    receipts, block stores, copying, grafting and
    the building of the SQL text are left out: the statements that matter for
    entities are modelled by their effect.  Building a layout from a schema
    ([Layout::new]), the SQL for GraphQL filters and the derivation of the API schema are
    not modelled yet.  Logging, metrics and timing have no effect on the
    results.

    ** This file

    The [result] monad, machine integers, strings, and the lemmas on lists,
    options, maps and sorting that the components share. *)

From Stdlib Require Export ZArith Lia Ascii.
From stdpp Require Export prelude strings gmap fin_maps sorting.

(** Rocq's [string] notation is used throughout; the code scope holds the
    development's own notations. *)
Declare Scope code_scope.
Delimit Scope code_scope with code.
#[global] Open Scope code_scope.
#[global] Open Scope string_scope.
#[global] Open Scope list_scope.

(** ** Outcomes of Rust code

    A Rust function that returns [Result<A, E>] either returns [Ok], returns
    [Err], or panics (a failed [assert!], [unwrap], [expect] or
    [unreachable!]). *)
Inductive result (E A : Type) : Type :=
| Ok (a : A)
| Err (e : E)
| Panic.
Arguments Ok {E A} a.
Arguments Err {E A} e.
Arguments Panic {E A}.

Definition bind_result {E A B} (f : A -> result E B) (r : result E A) : result E B :=
  match r with
  | Ok a => f a
  | Err e => Err e
  | Panic => Panic
  end.

Definition map_result {E A B} (f : A -> B) (r : result E A) : result E B :=
  bind_result (fun a => Ok (f a)) r.

Definition map_err {E F A} (f : E -> F) (r : result E A) : result F A :=
  match r with
  | Ok a => Ok a
  | Err e => Err (f e)
  | Panic => Panic
  end.

Definition is_ok {E A} (r : result E A) : bool :=
  match r with Ok _ => true | _ => false end.

Definition is_err {E A} (r : result E A) : bool :=
  match r with Err _ => true | _ => false end.

(** [r.ok()] for code that swallows errors, [ok_or] and [expect]. *)
Definition result_ok {E A} (r : result E A) : option A :=
  match r with Ok a => Some a | _ => None end.

Definition ok_or {E A} (e : E) (o : option A) : result E A :=
  match o with Some a => Ok a | None => Err e end.

Definition expect {E A} (o : option A) : result E A :=
  match o with Some a => Ok a | None => Panic end.

Notation "'let?' x := e 'in' k" := (bind_result (fun x => k) e)
  (at level 200, x pattern, e at level 200, k at level 200,
   format "'[v' 'let?'  x  :=  e  'in' '//' k ']'") : code_scope.

Notation "'assert!' b ';;' k" := (if (b : bool) then k else Panic)
  (at level 200, b at level 99, k at level 200) : code_scope.

(** [iter().try_for_each] and [collect::<Result<Vec<_>, _>>()] stop at the
    first element that is not [Ok]. *)
Fixpoint try_map {E A B} (f : A -> result E B) (l : list A) : result E (list B) :=
  match l with
  | [] => Ok []
  | x :: l =>
      let? y := f x in
      let? ys := try_map f l in
      Ok (y :: ys)
  end.

Fixpoint try_fold {E A S} (f : S -> A -> result E S) (s : S) (l : list A) : result E S :=
  match l with
  | [] => Ok s
  | x :: l => let? s' := f s x in try_fold f s' l
  end.

Definition try_iter {E A} (f : A -> result E unit) (l : list A) : result E unit :=
  try_fold (fun _ x => f x) tt l.

(** Computations that can run out of fuel *)
Definition bind_fuel {E A B} (f : A -> option (result E B)) (r : option (result E A)) : option (result E B) :=
  match r with
  | None => None
  | Some (Ok a) => f a
  | Some (Err e) => Some (Err e)
  | Some Panic => Some Panic
  end.
Notation "'let*' x := e 'in' k" := (bind_fuel (fun x => k) e)
  (at level 200, x pattern, e at level 100, k at level 200, right associativity) : code_scope.

Section BindFacts.
  Context {E A B : Type}.

Lemma bind_ok (f : A -> result E B) r b :
  bind_result f r = Ok b <-> exists a, r = Ok a /\ f a = Ok b.
Proof. destruct r; naive_solver. Qed.

Lemma bind_err (f : A -> result E B) r e :
  bind_result f r = Err e <-> r = Err e \/ exists a, r = Ok a /\ f a = Err e.
Proof. destruct r; naive_solver. Qed.

Lemma bind_panic (f : A -> result E B) r :
  bind_result f r = Panic <-> r = Panic \/ exists a, r = Ok a /\ f a = Panic.
Proof. destruct r; naive_solver. Qed.

End BindFacts.

Section ResultFacts.
  Context {E A B S : Type}.

Lemma ok_or_ok (e : E) (o : option A) a : ok_or e o = Ok a <-> o = Some a.
Proof. destruct o; naive_solver. Qed.

Lemma expect_ok (o : option A) a : @expect E A o = Ok a <-> o = Some a.
Proof. destruct o; naive_solver. Qed.

Lemma try_fold_app (f : S -> A -> result E S) s l1 l2 :
  try_fold f s (l1 ++ l2) = let? s' := try_fold f s l1 in try_fold f s' l2.
Proof.
  revert s. induction l1 as [|x l1 IH]; intros s; simpl; [done|].
  destruct (f s x); simpl; auto.
Qed.

(** Reasoning about a fold by an invariant over the part already read *)
Lemma try_fold_inv (f : S -> A -> result E S) (P : list A -> S -> Prop) l s s' :
  P [] s ->
  (forall pre x s1 s2, P pre s1 -> f s1 x = Ok s2 -> P (pre ++ [x]) s2) ->
  try_fold f s l = Ok s' -> P l s'.
Proof.
  intros Hs Hstep. revert s'. induction l as [|x l IH] using rev_ind; intros s'.
  - by intros [= <-].
  - rewrite try_fold_app. intros (s1 & Hs1 & Hx)%bind_ok. simpl in Hx.
    apply bind_ok in Hx as (s2 & Hx & [= <-]). eauto.
Qed.

Lemma try_fold_no_panic (f : S -> A -> result E S) (P : S -> Prop) l s :
  P s ->
  (forall x s1, x ∈ l -> P s1 -> f s1 x <> Panic /\ forall s2, f s1 x = Ok s2 -> P s2) ->
  try_fold f s l <> Panic.
Proof.
  revert s. induction l as [|x l IH]; intros s Hs Hf; simpl; [done|].
  destruct (Hf x s) as [Hnp Hok]; [left|done|]. destruct (f s x) as [s2|e|]; simpl; [|done|done].
  apply IH; [by apply Hok|]. intros y s1 Hy. apply Hf. by right.
Qed.

Lemma try_iter_cons (f : A -> result E unit) x l :
  try_iter f (x :: l) = let? _ := f x in try_iter f l.
Proof. unfold try_iter. simpl. destruct (f x) as [[]| |]; done. Qed.

Lemma try_iter_ok (f : A -> result E unit) l :
  try_iter f l = Ok tt <-> Forall (fun x => f x = Ok tt) l.
Proof.
  induction l as [|x l IH]; [split; [constructor|done]|].
  rewrite try_iter_cons, Forall_cons.
  destruct (f x) as [[]| |]; simpl; naive_solver.
Qed.

Lemma try_iter_no_panic (f : A -> result E unit) l :
  (forall x, f x <> Panic) -> try_iter f l <> Panic.
Proof.
  intros Hf. induction l as [|x l IH]; [done|]. rewrite try_iter_cons.
  pose proof (Hf x). by destruct (f x) as [[]| |].
Qed.

Lemma try_iter_err (f : A -> result E unit) l e :
  try_iter f l = Err e ->
  exists l1 x l2, l = l1 ++ x :: l2 /\ Forall (fun y => f y = Ok tt) l1 /\ f x = Err e.
Proof.
  induction l as [|x l IH]; [done|].
  rewrite try_iter_cons. destruct (f x) as [[]|e'|] eqn:Hx; simpl; intros H.
  - destruct (IH H) as (l1 & y & l2 & -> & Hl & Hy).
    exists (x :: l1), y, l2. naive_solver.
  - simplify_eq. exists [], x, l. naive_solver.
  - done.
Qed.

Lemma try_map_ok (f : A -> result E B) l ys :
  try_map f l = Ok ys <-> Forall2 (fun x y => f x = Ok y) l ys.
Proof.
  revert ys. induction l as [|x l IH]; intros ys; simpl.
  - split; [intros [= <-]; constructor | by inversion 1].
  - rewrite bind_ok. setoid_rewrite bind_ok. split.
    + intros (y & Hy & zs & Hzs & [= <-]). constructor; [done|]. by apply IH.
    + inversion 1 as [|? y ? zs]; simplify_eq.
      exists y. split; [done|]. exists zs. split; [by apply IH|done].
Qed.
End ResultFacts.

(** ** Machine integers *)

Definition i32_min : Z := - 2 ^ 31.
Definition i32_max : Z := 2 ^ 31 - 1.
Definition in_i32 (z : Z) : Prop := (i32_min <= z <= i32_max)%Z.
Definition u32_mod : Z := 2 ^ 32.
Definition u64_mod : Z := 2 ^ 64.

(** [z as i32], [z as u64] (also [usize] on 64-bit targets) in release builds:
    two's complement wrap-around. *)
Definition wrap_i32 (z : Z) : Z := ((z + 2 ^ 31) mod 2 ^ 32 - 2 ^ 31)%Z.
Definition i64_min : Z := - 2 ^ 63.
Definition i64_max : Z := 2 ^ 63 - 1.
Definition in_i64 (z : Z) : Prop := (i64_min <= z <= i64_max)%Z.
Definition wrap_i64 (z : Z) : Z := ((z + 2 ^ 63) mod 2 ^ 64 - 2 ^ 63)%Z.
Definition wrap_u32 (z : Z) : Z := (z mod u32_mod)%Z.
Definition wrap_u64 (z : Z) : Z := (z mod u64_mod)%Z.

Lemma wrap_i32_id z : in_i32 z -> wrap_i32 z = z.
Proof. unfold in_i32, i32_min, i32_max, wrap_i32. intros. rewrite Z.mod_small; lia. Qed.

Lemma wrap_i64_id z : in_i64 z -> wrap_i64 z = z.
Proof. unfold in_i64, i64_min, i64_max, wrap_i64. intros. rewrite Z.mod_small; lia. Qed.

Lemma wrap_u64_id z : (0 <= z < u64_mod)%Z -> wrap_u64 z = z.
Proof. intros. by apply Z.mod_small. Qed.

(** ** Lists *)

(** [iter().position(p)] *)
Fixpoint position {A} (p : A -> bool) (l : list A) : option nat :=
  match l with
  | [] => None
  | x :: l => if p x then Some 0 else S <$> position p l
  end.

(** [iter().find_map(f)] *)
Fixpoint find_map {A B} (f : A -> option B) (l : list A) : option B :=
  match l with
  | [] => None
  | x :: l => match f x with Some b => Some b | None => find_map f l end
  end.

Fixpoint take_while {A} (p : A -> bool) (l : list A) : list A :=
  match l with
  | [] => []
  | x :: l => if p x then x :: take_while p l else []
  end.

Section ListFacts.
  Context {A B : Type}.

Lemma take_while_split (p : A -> bool) l :
  exists l' : list A, l = take_while p l ++ l' /\
    Forall (fun x => p x = true) (take_while p l) /\
    match l' with [] => True | x :: _ => p x = false end.
Proof.
  induction l as [|x l (l' & IH1 & IH2 & IH3)]; simpl; [by exists []|].
  destruct (p x) eqn:Hx; [|by exists (x :: l)].
  exists l'. simpl. rewrite <- IH1. auto.
Qed.

Lemma find_map_app (f : A -> option B) l1 l2 :
  find_map f (l1 ++ l2) =
  match find_map f l1 with Some b => Some b | None => find_map f l2 end.
Proof. induction l1 as [|x l1 IH]; simpl; [done|]. by destruct (f x). Qed.

Lemma find_map_None (f : A -> option B) l :
  find_map f l = None <-> Forall (fun x => f x = None) l.
Proof.
  induction l as [|x l IH]; simpl; [naive_solver|].
  rewrite Forall_cons. destruct (f x); naive_solver.
Qed.

Lemma find_Some_elem (p : A -> bool) l x :
  List.find p l = Some x -> x ∈ l /\ p x = true.
Proof. intros [H ?]%List.find_some. split; [by apply list_elem_of_In|done]. Qed.

Lemma find_None_forall (p : A -> bool) l :
  List.find p l = None <-> Forall (fun x => p x = false) l.
Proof.
  induction l as [|x l IH]; simpl; [naive_solver|].
  rewrite Forall_cons. destruct (p x); naive_solver.
Qed.

Lemma existsb_elem (p : A -> bool) l :
  List.existsb p l = true <-> exists x, x ∈ l /\ p x = true.
Proof. rewrite List.existsb_exists. setoid_rewrite list_elem_of_In. done. Qed.

Lemma existsb_false_forall (p : A -> bool) l :
  List.existsb p l = false <-> Forall (fun x => p x = false) l.
Proof.
  induction l as [|x l IH]; simpl; [naive_solver|].
  rewrite orb_false_iff, Forall_cons. naive_solver.
Qed.

Lemma forallb_elem (p : A -> bool) l :
  List.forallb p l = true <-> Forall (fun x => p x = true) l.
Proof.
  induction l as [|x l IH]; simpl; [naive_solver|].
  rewrite andb_true_iff, Forall_cons. naive_solver.
Qed.
End ListFacts.

Lemma filter_id {A} (P : A -> Prop) `{forall x, Decision (P x)} (l : list A) :
  (forall x, x ∈ l -> P x) -> filter P l = l.
Proof.
  induction l as [|x l IH]; intros Hl; [done|].
  rewrite filter_cons_True by (apply Hl; set_solver). f_equal. apply IH. set_solver.
Qed.

(** A fold of pairwise commuting updates does not depend on the order of the
    list; this is how iteration over a Rust [HashMap], whose order is
    unspecified, is shown to be harmless. *)
Lemma foldl_perm {A S} (f : S -> A -> S) (P : A -> A -> Prop) l1 l2 s :
  (forall s x y, P x y -> f (f s x) y = f (f s y) x) ->
  (forall x y, P x y -> P y x) ->
  ForallOrdPairs P l1 ->
  l1 ≡ₚ l2 -> foldl f s l1 = foldl f s l2.
Proof.
  intros Hcomm Hsym HP Hperm. revert s.
  induction Hperm as [|x l1 l2 Hp IH|x y l|l1 l2 l3 H12 IH1 H23 IH2]; intros s; simpl.
  - done.
  - inversion HP; simplify_eq. auto.
  - inversion HP as [|? ? Hy]; simplify_eq. inversion Hy; simplify_eq. by rewrite Hcomm.
  - rewrite IH1 by done. apply IH2.
    clear -HP H12 Hsym. induction H12 as [|x l1 l2 Hp IH|x y l|l1 l2 l3 H12 IH1 H23 IH2].
    + done.
    + inversion HP as [|? ? Hf]; simplify_eq. constructor; [by rewrite <- Hp|auto].
    + inversion HP as [|? ? Hf Hr]; simplify_eq. inversion Hr as [|? ? Hf' Hr']; simplify_eq.
      inversion Hf as [|? ? Hxy Hfl]; simplify_eq. repeat constructor; auto.
    + auto.
Qed.

(** ** Maps *)

(** [iter().collect::<HashMap<_, _>>()] and [BTreeMap::from_iter]: entries are
    inserted one after the other, so the last one for a key stays. *)
Definition collect_map `{Countable K} {V} (l : list (K * V)) : gmap K V :=
  foldl (fun m kv => <[kv.1 := kv.2]> m) ∅ l.

Section MapFacts.
  Context `{Countable K} {V : Type}.
  Implicit Types (m : gmap K V) (l : list (K * V)).

Lemma foldl_insert_lookup l m k :
  foldl (fun m kv => <[kv.1 := kv.2]> m) m l !! k =
  match last (filter (fun kv => kv.1 = k) l) with
  | Some kv => Some kv.2
  | None => m !! k
  end.
Proof.
  induction l as [|[k' v] l IH] using rev_ind; [done|].
  rewrite foldl_app, filter_app, last_app. simpl. rewrite filter_cons. simpl.
  destruct (decide (k' = k)) as [->|Hne]; simpl.
  - by rewrite lookup_insert_eq.
  - by rewrite lookup_insert_ne.
Qed.

Lemma collect_map_is_Some l k :
  is_Some (collect_map l !! k) <-> exists v, (k, v) ∈ l.
Proof.
  unfold collect_map. rewrite foldl_insert_lookup, lookup_empty. split.
  - intros [v Hv]. destruct (last _) as [[k' v']|] eqn:Hl; [|done].
    apply last_Some_elem_of, list_elem_of_filter in Hl as [Hk Hin]. simpl in Hk.
    subst. eauto.
  - intros [v Hin]. destruct (last _) as [[k' v']|] eqn:Hl; [eauto|].
    apply last_None in Hl. exfalso. apply (not_elem_of_nil (k, v)).
    rewrite <- Hl. by apply list_elem_of_filter.
Qed.

Lemma collect_map_Some l k v :
  collect_map l !! k = Some v -> (k, v) ∈ l.
Proof.
  unfold collect_map. rewrite foldl_insert_lookup, lookup_empty.
  destruct (last _) as [[k' v']|] eqn:Hl; [|done].
  apply last_Some_elem_of, list_elem_of_filter in Hl as [Hk Hin]. simpl in *.
  intros. by simplify_eq.
Qed.
End MapFacts.

(** ** Strings *)

Fixpoint join (sep : string) (l : list string) : string :=
  match l with
  | [] => ""
  | [s] => s
  | s :: l => s ++ sep ++ join sep l
  end.

(** [str::contains] *)
Definition str_contains (pat s : string) : bool :=
  match String.index 0 pat s with Some _ => true | None => false end.

(** [replace] of line ends by tabs *)
Definition replace_newlines (s : string) : string :=
  String.string_of_list_ascii (map (fun c => if Ascii.eqb c (Ascii.ascii_of_nat 10) then Ascii.ascii_of_nat 9 else c)
    (String.list_ascii_of_string s)).

Definition starts_with (p s : string) : bool := String.prefix p s.

(** [&s[n..]] for an [n] that is not beyond the end. *)
Definition drop_str (n : nat) (s : string) : string :=
  String.substring n (String.length s - n) s.

(** [s.trim_start_matches(p)] removes [p] from the front as often as it is
    there; a string of [n] bytes starts with at most [n] copies of a non-empty
    [p]. *)
Fixpoint trim_start_fuel (fuel : nat) (p s : string) : string :=
  match fuel with
  | 0 => s
  | S fuel =>
      if starts_with p s then trim_start_fuel fuel p (drop_str (String.length p) s) else s
  end.
Definition trim_start_matches (p s : string) : string :=
  trim_start_fuel (String.length s) p s.

Lemma prefix_append p s : String.prefix p (p +:+ s) = true.
Proof.
  induction p as [|c p IH]; simpl; [by destruct s|].
  destruct (Ascii.ascii_dec c c); [done|congruence].
Qed.

Lemma string_length_append s1 s2 :
  String.length (s1 +:+ s2) = String.length s1 + String.length s2.
Proof. induction s1; simpl; auto. Qed.

Lemma substring_full s : String.substring 0 (String.length s) s = s.
Proof. induction s as [|c s IH]; simpl; [done|by rewrite IH]. Qed.

Lemma drop_str_append p s : drop_str (String.length p) (p +:+ s) = s.
Proof.
  unfold drop_str. rewrite string_length_append.
  replace (_ + _ - _) with (String.length s) by lia.
  induction p as [|c p IH]; simpl; [apply substring_full|done].
Qed.

Lemma trim_start_fuel_stop n p s :
  starts_with p s = false -> trim_start_fuel n p s = s.
Proof. intros Hp. destruct n; simpl; [done|]. by rewrite Hp. Qed.

Lemma trim_start_fuel_step n p s :
  trim_start_fuel (S n) p (p +:+ s) = trim_start_fuel n p s.
Proof. simpl. unfold starts_with. by rewrite prefix_append, drop_str_append. Qed.

Lemma trim_start_matches_once p s :
  p <> "" -> starts_with p s = false -> trim_start_matches p (p +:+ s) = s.
Proof.
  intros Hne Hp. unfold trim_start_matches. rewrite string_length_append.
  destruct p as [|c p]; [done|]. change (String.length (String c p)) with (S (String.length p)).
  simpl plus. rewrite trim_start_fuel_step. by apply trim_start_fuel_stop.
Qed.

Definition ascii_in (lo hi : nat) (c : Ascii.ascii) : bool :=
  (lo <=? Ascii.nat_of_ascii c)%nat && (Ascii.nat_of_ascii c <=? hi)%nat.

(** A [String] is its UTF-8 bytes: [len] counts bytes, and a test that only
    ASCII characters pass can be made byte by byte. *)
Definition is_ascii_digit (c : Ascii.ascii) : bool := ascii_in 48 57 c.
Definition is_ascii_alphabetic (c : Ascii.ascii) : bool := ascii_in 65 90 c || ascii_in 97 122 c.
Definition is_ascii_alphanumeric (c : Ascii.ascii) : bool :=
  is_ascii_alphabetic c || is_ascii_digit c.

Definition chars (s : string) : list Ascii.ascii := String.list_ascii_of_string s.

(** [s.split(sep)] for a one-byte separator: always at least one part. *)
Fixpoint split_on (sep : Ascii.ascii) (s : list Ascii.ascii) : list (list Ascii.ascii) :=
  match s with
  | [] => [[]]
  | c :: s =>
      if Ascii.ascii_dec c sep then [] :: split_on sep s
      else match split_on sep s with
           | [] => [[c]]
           | part :: parts => (c :: part) :: parts
           end
  end.

(** ** [BTreeMap] with string keys

    Where the order of the entries matters a [BTreeMap<String, V>] is the list
    of its entries in key order. *)

Definition str_lt (s1 s2 : string) : Prop := String.le s1 s2 /\ s1 <> s2.

#[export] Instance str_lt_dec s1 s2 : Decision (str_lt s1 s2).
Proof. unfold str_lt. apply _. Defined.

Lemma str_lt_trans s1 s2 s3 : str_lt s1 s2 -> str_lt s2 s3 -> str_lt s1 s3.
Proof.
  intros [H1 N1] [H2 N2]. split; [by etrans|]. intros ->. apply N2.
  by apply (anti_symm String.le).
Qed.

Lemma str_lt_total s1 s2 : str_lt s1 s2 \/ s1 = s2 \/ str_lt s2 s1.
Proof.
  unfold str_lt. destruct (decide (s1 = s2)) as [|Hne]; [auto|].
  destruct (total String.le s1 s2); auto.
Qed.

Lemma str_lt_irrefl s : ~ str_lt s s.
Proof. by intros [_ ?]. Qed.

Lemma str_lt_asym s1 s2 : str_lt s1 s2 -> ~ str_lt s2 s1.
Proof. intros H1 H2. apply (str_lt_irrefl s1). by eapply str_lt_trans. Qed.

Fixpoint btree_insert {V} (k : string) (v : V) (l : list (string * V)) : list (string * V) :=
  match l with
  | [] => [(k, v)]
  | (k', v') :: l' =>
      if decide (k = k') then (k, v) :: l'
      else if decide (str_lt k k') then (k, v) :: l
      else (k', v') :: btree_insert k v l'
  end.

Definition btree_from_list {V} (l : list (string * V)) : list (string * V) :=
  foldl (fun m kv => btree_insert kv.1 kv.2 m) [] l.

(** The entries of a [BTreeMap]: strictly increasing keys. *)
Definition sorted_keys {V} (l : list (string * V)) : Prop :=
  StronglySorted str_lt l.*1.

Lemma btree_insert_append {V} k (v : V) l :
  Forall (fun kv => str_lt kv.1 k) l -> btree_insert k v l = l ++ [(k, v)].
Proof.
  induction l as [|[k' v'] l IH]; intros Hl; simpl; [done|].
  apply Forall_cons in Hl as [Hk Hl]. simpl in Hk.
  rewrite decide_False by (intros ->; by apply (str_lt_irrefl k')).
  rewrite decide_False by by apply str_lt_asym.
  by rewrite IH.
Qed.

Lemma StronglySorted_snoc {A} (R : A -> A -> Prop) l x :
  StronglySorted R (l ++ [x]) -> StronglySorted R l /\ Forall (fun y => R y x) l.
Proof.
  induction l as [|y l IH]; simpl; [split; constructor|].
  inversion 1 as [|? ? Hs Hf]; simplify_eq. destruct (IH Hs) as [Hl Hr].
  apply Forall_app in Hf as [Hf Hx]. inversion Hx; simplify_eq.
  split; constructor; done.
Qed.

Lemma btree_from_list_sorted {V} (l : list (string * V)) :
  sorted_keys l -> btree_from_list l = l.
Proof.
  unfold sorted_keys, btree_from_list.
  induction l as [|[k v] l IH] using rev_ind; [done|].
  rewrite fmap_app, foldl_app. simpl. intros [Hs Hf]%StronglySorted_snoc.
  rewrite IH by done. apply btree_insert_append. by apply Forall_fmap in Hf.
Qed.

Lemma btree_insert_elem {V} k (v : V) l k' v' : (k', v') ∈ btree_insert k v l -> (k', v') = (k, v) \/ (k', v') ∈ l.
Proof.
  induction l as [|[k0 v0] l IH]; simpl; [set_solver|]. repeat case_decide; rewrite ?elem_of_cons; [tauto..|].
  intros [Hin|Hin]; [tauto|]. destruct (IH Hin); tauto.
Qed.

Lemma btree_insert_keys {V} k (v : V) l : sorted_keys l -> sorted_keys (btree_insert k v l).
Proof.
  unfold sorted_keys. induction l as [|[k0 v0] l IH]; [intros _; repeat constructor|]. intros [Hs Hk]%StronglySorted_inv. simpl.
  destruct (decide (k = k0)) as [->|Hne]; [by constructor|]. destruct (decide (str_lt k k0)) as [Hlt|Hge].
  - constructor; [by constructor|]. simpl. constructor; [done|]. eapply Forall_impl; [exact Hk|]. intros x Hx. by eapply str_lt_trans.
  - simpl. constructor; [by apply IH|]. apply Forall_forall. intros k' Hk'. apply list_elem_of_fmap in Hk' as ([k1 v1] & -> & Hin). simpl.
    apply btree_insert_elem in Hin as [[= -> ->]|Hin]; [destruct (str_lt_total k k0) as [|[|]]; done|].
    rewrite Forall_forall in Hk. apply Hk. apply list_elem_of_fmap. by exists (k1, v1).
Qed.

Lemma btree_from_list_keys {V} (l : list (string * V)) : sorted_keys (btree_from_list l).
Proof.
  unfold btree_from_list. assert (Hgen : forall m, sorted_keys m -> sorted_keys (foldl (fun m kv => btree_insert kv.1 kv.2 m) m l)).
  { induction l as [|x l IH]; intros m Hm; [done|]. simpl. by apply IH, btree_insert_keys. }
  apply Hgen. constructor.
Qed.

Lemma btree_from_list_elem {V} (l : list (string * V)) k v : (k, v) ∈ btree_from_list l -> (k, v) ∈ l.
Proof.
  unfold btree_from_list. assert (Hgen : forall m, (k, v) ∈ foldl (fun m kv => btree_insert kv.1 kv.2 m) m l -> (k, v) ∈ m \/ (k, v) ∈ l).
  { induction l as [|[k' v'] l IH]; intros m Hm; [by left|]. simpl in Hm. rewrite elem_of_cons. apply IH in Hm as [Hm|Hm]; [|tauto].
    apply btree_insert_elem in Hm as [|]; tauto. }
  intros [H%not_elem_of_nil|H]%Hgen; done.
Qed.

(** Iteration over a [BTreeMap] kept as a finite map: by increasing key. *)
Definition btree_iter {V} (m : gmap string V) : list (string * V) :=
  merge_sort (fun kv1 kv2 => String.le kv1.1 kv2.1) (map_to_list m).

Lemma btree_iter_perm {V} (m : gmap string V) : btree_iter m ≡ₚ map_to_list m.
Proof. apply merge_sort_Permutation. Qed.

Lemma elem_of_btree_iter {V} (m : gmap string V) k v : (k, v) ∈ btree_iter m <-> m !! k = Some v.
Proof. by rewrite btree_iter_perm, elem_of_map_to_list. Qed.

(** ** Sums over the values of a finite map *)

Section MapSum.
  Context `{Countable K}.
  Implicit Types m : gmap K Z.

Definition map_sum (m : gmap K Z) : Z := map_fold (fun _ w acc => (w + acc)%Z) 0%Z m.

Lemma map_sum_empty : map_sum ∅ = 0%Z.
Proof. apply map_fold_empty. Qed.

Lemma map_sum_insert m k w :
  m !! k = None -> map_sum (<[k := w]> m) = (w + map_sum m)%Z.
Proof.
  intros Hk. unfold map_sum. rewrite map_fold_insert_L; [done| |done]. intros. lia.
Qed.

Lemma map_sum_delete m k w :
  m !! k = Some w -> map_sum m = (w + map_sum (delete k m))%Z.
Proof.
  intros Hk. rewrite <-(insert_delete_id m k w Hk) at 1.
  apply map_sum_insert, lookup_delete_eq.
Qed.

Lemma map_sum_override m k w w' :
  m !! k = Some w -> map_sum (<[k := w']> m) = (map_sum m - w + w')%Z.
Proof.
  intros Hk. rewrite <-insert_delete_eq, map_sum_insert by apply lookup_delete_eq.
  rewrite (map_sum_delete m k w Hk). lia.
Qed.

Lemma map_sum_nonneg m : map_Forall (fun _ w => 0 <= w)%Z m -> (0 <= map_sum m)%Z.
Proof.
  unfold map_sum. revert m.
  apply (map_fold_weak_ind (fun r m => map_Forall (fun _ w => 0 <= w)%Z m -> (0 <= r)%Z)).
  - lia.
  - intros k w m r Hk IH [Hw Hm]%map_Forall_insert; [|done]. specialize (IH Hm). lia.
Qed.
End MapSum.

(** ** Automation *)

Create HintDb graph.

(** Reduces goals about a [result] computation known to end in a given
    outcome. *)
Ltac inv_result :=
  repeat match goal with
  | H : bind_result _ _ = Ok _ |- _ => apply bind_ok in H as (? & ? & ?)
  | H : ok_or _ _ = Ok _ |- _ => apply ok_or_ok in H
  | H : expect _ = Ok _ |- _ => apply expect_ok in H
  | H : Ok _ = Ok _ |- _ => injection H as H
  | H : Ok _ = Err _ |- _ => discriminate H
  | H : Err _ = Ok _ |- _ => discriminate H
  | H : Panic = Ok _ |- _ => discriminate H
  | H : (if ?b then _ else Panic) = Ok _ |- _ => destruct b eqn:?; [|discriminate H]
  end; simplify_eq/=.

(** ** [slice::chunks]

    A chunk size of [0] panics. *)

Fixpoint chunks_fuel {A} (fuel n : nat) (l : list A) : list (list A) :=
  match fuel, l with
  | S fuel, _ :: _ => take n l :: chunks_fuel fuel n (drop n l)
  | _, _ => []
  end.

Definition chunks {E A} (n : nat) (l : list A) : result E (list (list A)) :=
  match n with 0 => Panic | _ => Ok (chunks_fuel (length l) n l) end.

Lemma chunks_fuel_concat {A} fuel n (l : list A) :
  (0 < n)%nat -> (length l <= fuel)%nat -> concat (chunks_fuel fuel n l) = l.
Proof.
  intros Hn. revert l. induction fuel as [|fuel IH]; intros l Hl.
  - destruct l; [done|simpl in Hl; lia].
  - destruct l as [|x l]; [done|]. cbn [chunks_fuel]. rewrite concat_cons, IH.
    + apply take_drop.
    + rewrite length_drop. simpl in *. lia.
Qed.

Lemma chunks_ok {E A} n (l : list A) :
  (0 < n)%nat -> exists cs, chunks (E:=E) n l = Ok cs /\ concat cs = l.
Proof.
  intros Hn. exists (chunks_fuel (length l) n l). split; [by destruct n; [lia|]|].
  by apply chunks_fuel_concat.
Qed.

(** ** Stable sorting: [slice::sort_by_key], [order by] *)

Fixpoint sort_insert {A} (leb : A -> A -> bool) (x : A) (l : list A) : list A :=
  match l with
  | [] => [x]
  | y :: l' => if leb x y then x :: y :: l' else y :: sort_insert leb x l'
  end.

Definition sort_by {A} (leb : A -> A -> bool) (l : list A) : list A :=
  foldr (sort_insert leb) [] l.

Lemma sort_insert_perm {A} leb (x : A) l : sort_insert leb x l ≡ₚ x :: l.
Proof.
  induction l as [|y l IH]; simpl; [done|]. destruct (leb x y); [done|].
  rewrite IH. constructor.
Qed.

Lemma sort_by_perm {A} leb (l : list A) : sort_by leb l ≡ₚ l.
Proof.
  induction l as [|x l IH]; simpl; [done|]. by rewrite sort_insert_perm, IH.
Qed.

(** A sorted list stays as it is. *)
Lemma sort_by_sorted {A} (leb : A -> A -> bool) l :
  StronglySorted (fun x y => leb x y = true) l -> sort_by leb l = l.
Proof.
  induction 1 as [|x l _ IH Hx]; simpl; [done|]. fold (sort_by leb l). rewrite IH.
  destruct l as [|y l]; [done|]. simpl. apply Forall_cons in Hx as [Hx _]. by rewrite Hx.
Qed.

(** Elements that belong in front are moved there as a block. *)
Lemma sort_insert_past {A} (leb : A -> A -> bool) x l k :
  Forall (fun y => leb x y = false) l -> sort_insert leb x (l ++ k) = l ++ sort_insert leb x k.
Proof. induction 1 as [|y l Hy _ IH]; simpl; [done|]. by rewrite Hy, IH. Qed.

Lemma sort_by_swap {A} (leb : A -> A -> bool) l k :
  (forall x y, x ∈ l -> y ∈ k -> leb x y = false) ->
  sort_by leb (l ++ k) = sort_by leb k ++ sort_by leb l.
Proof.
  induction l as [|x l IH]; intros Hk; simpl; [by rewrite app_nil_r|].
  fold (sort_by leb (l ++ k)). rewrite IH by (intros; apply Hk; [by right|done]).
  apply sort_insert_past, Forall_forall. intros y Hy. apply Hk; [by left|by rewrite sort_by_perm in Hy].
Qed.

(** ** Comparison of options: [None] is least *)

Definition option_ltb (a b : option Z) : bool :=
  match a, b with
  | Some x, Some y => (x <? y)%Z
  | None, Some _ => true
  | _, None => false
  end.

Definition option_leb (a b : option Z) : bool := negb (option_ltb b a).

Definition to_i32 (z : Z) : option Z :=
  if (i32_min <=? z)%Z && (z <=? i32_max)%Z then Some z else None.

(** ** Pairs of a list *)

Section OrdPairs.
Context {A : Type}.
Implicit Types (C : A -> A -> Prop) (P : A -> A -> Prop).

Lemma ord_pairs_filter C (p : A -> bool) l :
  ForallOrdPairs C l -> ForallOrdPairs C (List.filter p l).
Proof.
  induction 1 as [|x l Hx Hl IH]; simpl; [constructor|]. destruct (p x); [|done].
  constructor; [|done]. apply List.Forall_forall. intros y [Hy _]%filter_In.
  by eapply (proj1 (List.Forall_forall _ _) Hx).
Qed.

Lemma ord_pairs_forall2 C C' P l l' :
  ForallOrdPairs C l -> Forall2 P l l' ->
  (forall x y x' y', P x x' -> P y y' -> C x y -> C' x' y') -> ForallOrdPairs C' l'.
Proof.
  intros Hl Hp Himp. revert Hl. induction Hp as [|x x' l l' Hx Hl' IH]; intros Hl; [constructor|].
  inversion Hl as [|? ? Hx' Hl'']; subst. constructor; [|by apply IH].
  clear IH Hl'' Hl. induction Hl' as [|y y' l l' Hy Hl' IH]; [constructor|].
  inversion Hx'; subst. constructor; [by eapply Himp|by apply IH].
Qed.

Lemma ord_pairs_app C l1 l2 :
  ForallOrdPairs C (l1 ++ l2) ->
  ForallOrdPairs C l1 /\ ForallOrdPairs C l2 /\ Forall (fun x => Forall (C x) l2) l1.
Proof.
  induction l1 as [|x l1 IH]; simpl; [intros H; split_and!; [constructor|done|constructor]|].
  intros H. inversion H as [|? ? Hx Hl]; subst. destruct (IH Hl) as (H1 & H2 & H3).
  apply Forall_app in Hx as [Hx1 Hx2]. split_and!; [by constructor|done|by constructor].
Qed.

Lemma ord_pairs_app_2 C l1 l2 :
  ForallOrdPairs C l1 -> ForallOrdPairs C l2 -> Forall (fun x => Forall (C x) l2) l1 ->
  ForallOrdPairs C (l1 ++ l2).
Proof.
  intros H1 H2. induction H1 as [|x l1 Hx H1 IH]; simpl; [done|].
  intros [Hc Hcs]%Forall_cons. constructor; [by apply Forall_app|by apply IH].
Qed.

End OrdPairs.

(** ** Filters *)

Section Filters.
Context {A B : Type}.

Lemma filter_map_forall2 (p q : A -> bool) (f : A -> B) (P : A -> A -> Prop) l l' :
  Forall2 P l l' ->
  (forall x y, x ∈ l -> P x y -> f x = f y /\ p x = q y) ->
  map f (List.filter p l) = map f (List.filter q l').
Proof.
  induction 1 as [|x y l l' Hxy Hl IH]; intros H; [done|]. simpl.
  destruct (H x y) as [Hf Hp]; [by left|done|]. rewrite <- Hp.
  assert (Hmap : map f (List.filter p l) = map f (List.filter q l'))
    by (apply IH; intros ?? Hin; apply H; by right).
  destruct (p x); simpl; by rewrite ?Hf, ?Hmap.
Qed.

Lemma filter_none (p : A -> bool) l : (forall x, x ∈ l -> p x = false) -> List.filter p l = [].
Proof.
  induction l as [|x l IH]; intros H; [done|]. simpl. rewrite H by (by left).
  apply IH. intros y Hy. apply H. by right.
Qed.

Lemma filter_all l : List.filter (fun _ : A => true) l = l.
Proof. induction l as [|x l IH]; simpl; by rewrite ?IH. Qed.

Lemma filter_filter (p q : A -> bool) l :
  List.filter p (List.filter q l) = List.filter (fun x => q x && p x) l.
Proof.
  induction l as [|x l IH]; [done|]. simpl. destruct (q x); simpl; [|done].
  destruct (p x); by rewrite IH.
Qed.

Lemma Forall_filter_bool (P : A -> Prop) (p : A -> bool) l : Forall P l -> Forall P (List.filter p l).
Proof. induction 1; simpl; [done|]. case_match; [by constructor|done]. Qed.

Lemma StronglySorted_filter_bool (R : A -> A -> Prop) (p : A -> bool) l :
  StronglySorted R l -> StronglySorted R (List.filter p l).
Proof.
  induction 1 as [|x l _ IH Hx]; simpl; [constructor|]. case_match; [|done].
  constructor; [done|]. by apply Forall_filter_bool.
Qed.

Lemma filter_same (p q : A -> bool) l :
  (forall x, x ∈ l -> p x = q x) -> List.filter p l = List.filter q l.
Proof.
  induction l as [|x l IH]; intros H; [done|]. simpl. rewrite (H x) by (by left).
  rewrite IH; [done|]. intros y Hy. apply H. by right.
Qed.

End Filters.

Lemma try_map_forall2 {E A B} (f : A -> result E B) l l' :
  try_map f l = Ok l' -> Forall2 (fun x y => f x = Ok y) l l'.
Proof.
  revert l'. induction l as [|x l IH]; intros l'; simpl; [intros [= <-]; constructor|].
  destruct (f x) as [y| |] eqn:Hx; simpl; [|done..].
  destruct (try_map f l) as [ys| |]; simpl; [|done..]. intros [= <-]. constructor; [done|by apply IH].
Qed.

Lemma forall2_impl_in {A B} (P Q : A -> B -> Prop) l l' :
  Forall2 P l l' -> (forall x y, x ∈ l -> P x y -> Q x y) -> Forall2 Q l l'.
Proof.
  induction 1 as [|x y l l' Hxy Hl IH]; intros H; constructor.
  - apply H; [by left|done].
  - apply IH. intros ?? Hin. apply H. by right.
Qed.

Lemma forall2_elem_r {A B} (P : A -> B -> Prop) l l' :
  Forall2 P l l' -> forall y, y ∈ l' -> exists x, x ∈ l /\ P x y.
Proof.
  induction 1 as [|x y l l' Hxy Hl IH]; [by intros ? ?%not_elem_of_nil|].
  intros z [->|Hz]%elem_of_cons; [exists x; split; [left|done]|].
  destruct (IH z Hz) as (w & ? & ?). exists w. split; [by right|done].
Qed.

Lemma forall2_elem_l {A B} (P : A -> B -> Prop) l l' :
  Forall2 P l l' -> forall x, x ∈ l -> exists y, y ∈ l' /\ P x y.
Proof.
  induction 1 as [|x y l l' Hxy Hl IH]; [by intros ? ?%not_elem_of_nil|].
  intros z [->|Hz]%elem_of_cons; [exists y; split; [left|done]|].
  destruct (IH z Hz) as (w & ? & ?). exists w. split; [by right|done].
Qed.

Lemma try_map_total {E A B} (f : A -> result E B) l :
  (forall x, x ∈ l -> exists y, f x = Ok y) -> exists l', try_map f l = Ok l'.
Proof.
  induction l as [|x l IH]; intros H; [by exists []|]. simpl.
  destruct (H x) as [y Hy]; [by left|]. rewrite Hy. simpl.
  destruct IH as [l' Hl']; [intros z Hz; apply H; by right|]. rewrite Hl'. by eexists.
Qed.
