(* ===== verification/GraphqlAst.v ===== *)
(** * GraphQL schema documents and their accessors

    The abstract syntax of a GraphQL schema as [graphql_parser] hands it to the
    node (only the components graph-node reads: source positions and
    descriptions are dropped), and the extension traits of
    [graph/src/data/graphql/ext.rs] and
    [graph/src/data/graphql/object_or_interface.rs] on it: looking up types,
    fields, directives and arguments by name. *)

From S2P Require Import Prelude.

(** ** The syntax tree *)

(** [s::Value] / [q::Value]. A float is kept as its 64-bit pattern, an object
    (a [BTreeMap]) as the list of its entries in key order. *)
Inductive qValue : Type :=
| QVariable (name : string)
| QInt (n : Z)
| QFloat (bits : Z)
| QString (s : string)
| QBoolean (b : bool)
| QNull
| QEnum (e : string)
| QList (l : list qValue)
| QObject (o : list (string * qValue)).

(** [BTreeMap::get] on the entries of an object. *)
Definition assoc_get {V} (key : string) (o : list (string * V)) : option V :=
  snd <$> List.find (fun kv => bool_decide (kv.1 = key)) o.

Inductive sType : Type :=
| NamedType (name : string)
| ListType (inner : sType)
| NonNullType (inner : sType).

#[export] Instance sType_eq_dec : EqDecision sType.
Proof. solve_decision. Defined.

Record Directive := { dir_name : string; dir_arguments : list (string * qValue) }.

Record InputValue := {
  iv_name : string;
  iv_value_type : sType;
  iv_default_value : option qValue;
  iv_directives : list Directive
}.

Record Field := {
  field_name : string;
  field_arguments : list InputValue;
  field_type : sType;
  field_directives : list Directive
}.

Record ObjectType := {
  obj_name : string;
  obj_implements_interfaces : list string;
  obj_directives : list Directive;
  obj_fields : list Field
}.

Record InterfaceType := {
  intf_name : string;
  intf_directives : list Directive;
  intf_fields : list Field
}.

Record EnumValue := { ev_name : string; ev_directives : list Directive }.
Record EnumType := {
  enum_name : string;
  enum_directives : list Directive;
  enum_values : list EnumValue
}.
Record ScalarType := { scalar_name : string; scalar_directives : list Directive }.
Record UnionType := {
  union_name : string;
  union_directives : list Directive;
  union_types : list string
}.
Record InputObjectType := {
  io_name : string;
  io_directives : list Directive;
  io_fields : list InputValue
}.

Inductive TypeDefinition : Type :=
| TScalar (t : ScalarType)
| TObject (t : ObjectType)
| TInterface (t : InterfaceType)
| TUnion (t : UnionType)
| TEnum (t : EnumType)
| TInputObject (t : InputObjectType).

(** Definitions other than type definitions are never looked into. *)
Inductive Definition_ : Type :=
| DSchemaDefinition
| DTypeDefinition (t : TypeDefinition)
| DTypeExtension
| DDirectiveDefinition.

Record Document := { definitions : list Definition_ }.

(** ** [data/schema.rs]: names with a meaning to graph-node *)

Definition SCHEMA_TYPE_NAME : string := "_Schema_".
Definition META_FIELD_TYPE : string := "_Meta_".
Definition META_FIELD_NAME : string := "_meta".
Definition BLOCK_FIELD_TYPE : string := "_Block_".

(** ** [DirectiveExt], [DirectiveFinder] *)

Definition argument (d : Directive) (name : string) : option qValue :=
  assoc_get name (dir_arguments d).

Class DirectiveFinder (T : Type) := directives_of : T -> list Directive.
#[export] Instance directives_of_object : DirectiveFinder ObjectType := obj_directives.
#[export] Instance directives_of_field : DirectiveFinder Field := field_directives.
#[export] Instance directives_of_vec : DirectiveFinder (list Directive) := fun l => l.

Definition find_directive {T} `{DirectiveFinder T} (t : T) (name : string) : option Directive :=
  List.find (fun d => bool_decide (dir_name d = name)) (directives_of t).

Definition is_derived {T} `{DirectiveFinder T} (t : T) : bool :=
  List.existsb (fun d => bool_decide (dir_name d = "derivedFrom")) (directives_of t).

(** ** [ValueExt] *)

Definition as_object (v : qValue) : option (list (string * qValue)) :=
  match v with QObject o => Some o | _ => None end.
Definition as_list (v : qValue) : option (list qValue) :=
  match v with QList l => Some l | _ => None end.
Definition as_str (v : qValue) : option string :=
  match v with QString s => Some s | _ => None end.
Definition as_enum (v : qValue) : option string :=
  match v with QEnum e => Some e | _ => None end.

(** ** [ObjectTypeExt] *)

Definition find_field (fields : list Field) (name : string) : option Field :=
  List.find (fun f => bool_decide (field_name f = name)) fields.

Definition obj_field (t : ObjectType) (name : string) : option Field :=
  find_field (obj_fields t) name.
Definition obj_is_meta (t : ObjectType) : bool := bool_decide (obj_name t = META_FIELD_TYPE).
Definition obj_is_immutable (t : ObjectType) : bool :=
  match find_directive t "entity" ≫= (fun dir => argument dir "immutable") with
  | Some (QBoolean b) => b
  | Some _ => false
  | None => false
  end.

Definition intf_field (t : InterfaceType) (name : string) : option Field :=
  find_field (intf_fields t) name.
Definition intf_is_meta (t : InterfaceType) : bool := false.
Definition intf_is_immutable (t : InterfaceType) : bool := false.

(** ** [TypeExt] *)

Fixpoint get_base_type (t : sType) : string :=
  match t with
  | NamedType name => name
  | NonNullType inner => get_base_type inner
  | ListType inner => get_base_type inner
  end.

Fixpoint is_list (t : sType) : bool :=
  match t with
  | NamedType _ => false
  | NonNullType inner => is_list inner
  | ListType _ => true
  end.

Definition is_non_null (t : sType) : bool :=
  match t with NonNullType _ => true | _ => false end.

(** ** [TypeDefinitionExt], [FieldExt] *)

Definition typedef_name (t : TypeDefinition) : string :=
  match t with
  | TScalar t => scalar_name t
  | TObject t => obj_name t
  | TInterface t => intf_name t
  | TUnion t => union_name t
  | TEnum t => enum_name t
  | TInputObject t => io_name t
  end.

Definition typedef_is_introspection (t : TypeDefinition) : bool :=
  starts_with "__" (typedef_name t).

Definition field_is_introspection (f : Field) : bool :=
  bool_decide (field_name f = "__schema") || bool_decide (field_name f = "__type").

(** ** [DocumentExt] *)

Definition as_object_def (d : Definition_) : option ObjectType :=
  match d with DTypeDefinition (TObject t) => Some t | _ => None end.
Definition as_interface_def (d : Definition_) : option InterfaceType :=
  match d with DTypeDefinition (TInterface t) => Some t | _ => None end.

Definition get_object_type_definitions (doc : Document) : list ObjectType :=
  omap as_object_def (definitions doc).

Definition get_interface_type_definitions (doc : Document) : list InterfaceType :=
  omap as_interface_def (definitions doc).

Definition get_object_type_definition (doc : Document) (name : string) : option ObjectType :=
  List.find (fun t => bool_decide (obj_name t = name)) (get_object_type_definitions doc).

(** [collect] into a [HashMap]: a later entry replaces an earlier one with the
    same key. *)
Definition get_object_and_interface_type_fields (doc : Document) : gmap string (list Field) :=
  collect_map
    (omap (fun d => match d with
                    | DTypeDefinition (TObject t) => Some (obj_name t, obj_fields t)
                    | DTypeDefinition (TInterface t) => Some (intf_name t, intf_fields t)
                    | _ => None
                    end) (definitions doc)).

Definition get_enum_definitions (doc : Document) : list EnumType :=
  omap (fun d => match d with DTypeDefinition (TEnum e) => Some e | _ => None end)
       (definitions doc).

Definition find_interface (doc : Document) (name : string) : option InterfaceType :=
  find_map (fun d => match d with
                     | DTypeDefinition (TInterface t) =>
                         if bool_decide (intf_name t = name) then Some t else None
                     | _ => None
                     end) (definitions doc).

Inductive FulltextError := FulltextNotDeterministic.

(** [allow] is [ENV_VARS.allow_non_deterministic_fulltext_search]. *)
Definition get_fulltext_directives (allow : bool) (doc : Document)
  : result FulltextError (list Directive) :=
  let dirs :=
    match get_object_type_definition doc SCHEMA_TYPE_NAME with
    | None => []
    | Some t => List.filter (fun d => bool_decide (dir_name d = "fulltext")) (obj_directives t)
    end in
  if negb allow && negb (bool_decide (dirs = [])) then Err FulltextNotDeterministic
  else Ok dirs.

Definition get_root_type (root : string) (doc : Document) : option ObjectType :=
  List.hd_error
    (omap (fun d => match d with
                    | DTypeDefinition (TObject t) =>
                        if bool_decide (obj_name t = root) then Some t else None
                    | _ => None
                    end) (definitions doc)).
Definition get_root_query_type (doc : Document) : option ObjectType :=
  get_root_type "Query" doc.
Definition get_root_subscription_type (doc : Document) : option ObjectType :=
  get_root_type "Subscription" doc.

Definition get_named_type (doc : Document) (name : string) : option TypeDefinition :=
  List.find (fun t => bool_decide (typedef_name t = name))
    (omap (fun d => match d with DTypeDefinition t => Some t | _ => None end)
          (definitions doc)).

(** [expect]s the name of the type to be known. *)
Definition is_leaf_type {E} (doc : Document) (t : sType) : result E bool :=
  let? def := expect (get_named_type doc (get_base_type t)) in
  Ok match def with
     | TEnum _ | TScalar _ => true
     | TObject _ | TInterface _ | TUnion _ | TInputObject _ => false
     end.

(** ** [ObjectOrInterface] *)

Inductive ObjectOrInterface : Type :=
| OObject (t : ObjectType)
| OInterface (t : InterfaceType).

Definition object_or_interface (doc : Document) (name : string) : option ObjectOrInterface :=
  match get_named_type doc name with
  | Some (TObject t) => Some (OObject t)
  | Some (TInterface t) => Some (OInterface t)
  | _ => None
  end.

Definition ooi_eq (a b : ObjectOrInterface) : bool :=
  match a, b with
  | OObject a, OObject b => bool_decide (obj_name a = obj_name b)
  | OInterface a, OInterface b => bool_decide (intf_name a = intf_name b)
  | OInterface _, OObject _ | OObject _, OInterface _ => false
  end.

Definition ooi_cmp (a b : ObjectOrInterface) : comparison :=
  match a, b with
  | OObject a, OObject b => String.compare (obj_name a) (obj_name b)
  | OInterface a, OInterface b => String.compare (intf_name a) (intf_name b)
  | OInterface _, OObject _ => Lt
  | OObject _, OInterface _ => Gt
  end.

Definition ooi_is_object (o : ObjectOrInterface) : bool :=
  match o with OObject _ => true | OInterface _ => false end.
Definition ooi_is_interface (o : ObjectOrInterface) : bool :=
  match o with OObject _ => false | OInterface _ => true end.
Definition ooi_name (o : ObjectOrInterface) : string :=
  match o with OObject t => obj_name t | OInterface t => intf_name t end.
Definition ooi_directives (o : ObjectOrInterface) : list Directive :=
  match o with OObject t => obj_directives t | OInterface t => intf_directives t end.
Definition ooi_fields (o : ObjectOrInterface) : list Field :=
  match o with OObject t => obj_fields t | OInterface t => intf_fields t end.
Definition ooi_field (o : ObjectOrInterface) (nm : string) : option Field :=
  find_field (ooi_fields o) nm.
Definition ooi_is_meta (o : ObjectOrInterface) : bool :=
  match o with OObject t => obj_is_meta t | OInterface t => intf_is_meta t end.

(** Indexing the map panics when the interface is unknown. *)
Definition ooi_matches {E} (o : ObjectOrInterface) (typename : string)
    (types_for_interface : gmap string (list ObjectType)) : result E bool :=
  match o with
  | OObject t => Ok (bool_decide (obj_name t = typename))
  | OInterface i =>
      let? ts := expect (types_for_interface !! intf_name i) in
      Ok (List.existsb (fun t => bool_decide (obj_name t = typename)) ts)
  end.

Definition ooi_object_types (o : ObjectOrInterface)
    (types_for_interface : gmap string (list ObjectType)) : option (list ObjectType) :=
  match o with
  | OObject t => Some [t]
  | OInterface i => types_for_interface !! intf_name i
  end.
