(* ===== verification/Scalars.v ===== *)
(** * Scalar values: bytes, big integers, big decimals

    [graph/src/data/store/scalar.rs]. The crates [hex], [num_bigint] and
    [bigdecimal] are interfaces: classes that hold the functions graph-node
    calls together with their documented behaviour. Big integers are values of
    [Z]; [u64] and 256-bit results keep their width. *)

From Stdlib Require Import Strings.Byte.
From S2P Require Import Prelude.

#[export] Instance byte_eq_dec : EqDecision byte := Byte.byte_eq_dec.

Definition byte_val (b : byte) : Z := Z.of_N (Byte.to_N b).

Lemma byte_val_range b : (0 <= byte_val b < 256)%Z.
Proof. unfold byte_val. pose proof (Byte.to_N_bounded b). lia. Qed.

(** The number a little-endian byte string stands for. *)
Fixpoint le_value (bs : list byte) : Z :=
  match bs with
  | [] => 0
  | b :: bs => byte_val b + 256 * le_value bs
  end%Z.

Lemma le_value_range bs : (0 <= le_value bs < 256 ^ Z.of_nat (length bs))%Z.
Proof.
  induction bs as [|b bs IH]; simpl; [lia|].
  pose proof (byte_val_range b).
  rewrite Nat2Z.inj_succ, Z.pow_succ_r by lia. lia.
Qed.

(** ** Interface: the [hex] crate *)

Inductive FromHexError := InvalidHexCharacter | OddLength.

Definition is_hex_digit (c : Ascii.ascii) : bool := is_ascii_digit c || ascii_in 97 102 c.

(** [hex::encode] gives lower-case digits, two for each byte, and
    [hex::decode] reads back what [hex::encode] wrote. *)
Class Hex := {
  hex_encode : list byte -> string;
  hex_decode : string -> result FromHexError (list byte);
  hex_decode_encode bs : hex_decode (hex_encode bs) = Ok bs;
  hex_encode_digits bs : Forall (fun c => is_hex_digit c = true) (chars (hex_encode bs))
}.

(** ** Interface: the [num_bigint] crate *)

Inductive BigIntSign := Minus | NoSign | Plus.
#[export] Instance BigIntSign_eq_dec : EqDecision BigIntSign.
Proof. solve_decision. Defined.

Definition sign_of (z : Z) : BigIntSign :=
  match z with Z0 => NoSign | Zpos _ => Plus | Zneg _ => Minus end.
Definition sign_val (s : BigIntSign) : Z :=
  match s with Minus => -1 | NoSign => 0 | Plus => 1 end.

(** The number a list of decimal digits, most significant first, stands for. *)
Definition radix_value (ds : list Z) : Z := foldl (fun acc d => acc * 10 + d)%Z 0%Z ds.

Class NumBigint := {
  (** sign and magnitude, least significant byte first, no superfluous byte *)
  num_to_bytes_le : Z -> BigIntSign * list byte;
  num_to_bytes_le_sign z : (num_to_bytes_le z).1 = sign_of z;
  num_to_bytes_le_value z : le_value (num_to_bytes_le z).2 = Z.abs z;
  num_to_bytes_le_length z k :
    (0 < k)%nat -> (Z.abs z < 256 ^ Z.of_nat k)%Z -> (length (num_to_bytes_le z).2 <= k)%nat;
  (** sign and decimal digits of the magnitude, most significant first *)
  num_to_radix_be : Z -> BigIntSign * list Z;
  num_to_radix_be_sign z : (num_to_radix_be z).1 = sign_of z;
  num_to_radix_be_value z : radix_value (num_to_radix_be z).2 = Z.abs z;
  num_to_radix_be_digits z : Forall (fun d => 0 <= d < 10)%Z (num_to_radix_be z).2;
  (** [None] for a digit that is not below the radix *)
  num_from_radix_be : BigIntSign -> list Z -> option Z;
  num_from_radix_be_value s ds :
    Forall (fun d => 0 <= d < 10)%Z ds ->
    num_from_radix_be s ds = Some (sign_val s * radix_value ds)%Z
}.

(** ** Interface: the [bigdecimal] crate

    A [bigdecimal::BigDecimal] is an integer and a scale, the negated power of
    ten; equality compares the numbers. *)
Record bigdecimal := { int_val : Z; scale : Z }.

(** [d1] and [d2] are the same number. *)
Definition bigdecimal_eq (d1 d2 : bigdecimal) : Prop :=
  (int_val d1 * 10 ^ Z.max 0 (scale d2 - scale d1)
   = int_val d2 * 10 ^ Z.max 0 (scale d1 - scale d2))%Z.

(** [with_prec(prec)] rounds to [prec] significant digits. *)
Class BigDecimalLib := {
  bd_with_prec : Z -> bigdecimal -> bigdecimal;
  bd_with_prec_digits p d : (0 < p)%Z -> (Z.abs (int_val (bd_with_prec p d)) < 10 ^ p)%Z;
  bd_with_prec_small p d :
    (0 < p)%Z -> (Z.abs (int_val d) < 10 ^ p)%Z ->
    bigdecimal_eq (bd_with_prec p d) d;
  bd_with_prec_zero p d : (0 < p)%Z -> int_val d <> 0%Z -> int_val (bd_with_prec p d) <> 0%Z
}.

(** ** [Bytes] *)

Abbreviation Bytes := (list byte).

Section Bytes.
  Context `{Hex}.

Definition bytes_to_string (b : Bytes) : string := "0x" +:+ hex_encode b.

Definition bytes_from_str (s : string) : result FromHexError Bytes :=
  hex_decode (trim_start_matches "0x" s).

Lemma hex_encode_no_0x b : starts_with "0x" (hex_encode b) = false.
Proof.
  pose proof (hex_encode_digits b) as Hd. unfold starts_with.
  destruct (hex_encode b) as [|c1 [|c2 s]]; [done|..]; cbn [String.prefix] in *.
  - by case_match.
  - case_match; [|done]. case_match; [|done]. subst.
    inversion Hd as [|? ? ? Hd']; simplify_eq. by inversion Hd'.
Qed.

Lemma bytes_from_to_string b : bytes_from_str (bytes_to_string b) = Ok b.
Proof.
  unfold bytes_from_str, bytes_to_string.
  rewrite trim_start_matches_once; [|done|apply hex_encode_no_0x].
  apply hex_decode_encode.
Qed.

Lemma bytes_to_string_inj b1 b2 : bytes_to_string b1 = bytes_to_string b2 -> b1 = b2.
Proof.
  intros E. pose proof (bytes_from_to_string b1) as H1. rewrite E in H1.
  rewrite bytes_from_to_string in H1. by injection H1.
Qed.
End Bytes.

(** ** [BigInt] *)

Inductive BigIntOutOfRangeError := Negative | Overflow.

(** The loop of [TryFrom<&BigInt> for u64]: [n |= (b as u64) << shift_dist]. *)
Fixpoint u64_from_le_loop (n shift_dist : Z) (bytes : list byte) : Z :=
  match bytes with
  | [] => n
  | b :: bytes =>
      u64_from_le_loop (Z.lor n (wrap_u64 (Z.shiftl (byte_val b) shift_dist)))
                       (shift_dist + 8) bytes
  end.

Section BigInt.
  Context `{NumBigint}.

Definition bigint_try_into_u64 (value : Z) : result BigIntOutOfRangeError Z :=
  let '(sign, bytes) := num_to_bytes_le value in
  if bool_decide (sign = Minus) then Err Negative
  else if (8 <? length bytes)%nat then Err Overflow
  else Ok (u64_from_le_loop 0 0 bytes).

(** [to_u64]: [try_into().unwrap()]. *)
Definition bigint_to_u64 {E} (value : Z) : result E Z :=
  match bigint_try_into_u64 value with Ok n => Ok n | _ => Panic end.

(** [to_unsigned_u256] on the magnitude's bytes; [U256::from_little_endian]
    panics for more than 32 bytes. *)
Definition u256_from_little_endian {E} (bytes : list byte) : result E Z :=
  if (32 <? length bytes)%nat then Panic else Ok (le_value bytes).

Definition bigint_to_unsigned_u256 {E} (value : Z) : result E Z :=
  let '(sign, bytes) := num_to_bytes_le value in
  assert! (bool_decide (sign = NoSign) || bool_decide (sign = Plus)) ;;
  u256_from_little_endian bytes.

Definition bigint_div {E} (a b : Z) : result E Z :=
  if (b =? 0)%Z then Panic else Ok (Z.quot a b).

Lemma u64_from_le_loop_spec n k bytes :
  (0 <= k)%Z -> (0 <= n < 2 ^ k)%Z -> (k + 8 * Z.of_nat (length bytes) <= 64)%Z ->
  u64_from_le_loop n k bytes = (n + 2 ^ k * le_value bytes)%Z.
Proof.
  revert n k. induction bytes as [|b bytes IH]; intros n k Hk Hn Hlen; simpl in *; [lia|].
  pose proof (byte_val_range b) as Hb.
  assert (Hpow : (2 ^ k * 256 <= u64_mod)%Z).
  { change 256%Z with (2 ^ 8)%Z. rewrite <- Z.pow_add_r by lia. unfold u64_mod.
    apply Z.pow_le_mono_r; lia. }
  assert (Hsh : wrap_u64 (Z.shiftl (byte_val b) k) = (byte_val b * 2 ^ k)%Z).
  { rewrite Z.shiftl_mul_pow2 by done. apply wrap_u64_id. nia. }
  assert (Hor : Z.lor n (byte_val b * 2 ^ k) = (n + byte_val b * 2 ^ k)%Z).
  { rewrite <- Z.shiftl_mul_pow2 by done. symmetry. apply Z.add_nocarry_lor.
    apply Z.bits_inj'. intros i Hi. rewrite Z.land_spec, Z.bits_0.
    destruct (decide (i < k)%Z).
    - rewrite Z.shiftl_spec_low by done. by rewrite andb_false_r.
    - destruct (decide (n = 0)%Z) as [->|]; [by rewrite Z.bits_0|].
      assert (Z.log2 n < k)%Z by (apply Z.log2_lt_pow2; lia).
      by rewrite (Z.bits_above_log2 n) by lia. }
  rewrite Hsh, Hor, IH.
  - rewrite Z.pow_add_r by lia. change (2 ^ 8)%Z with 256%Z. ring.
  - lia.
  - rewrite Z.pow_add_r by lia. change (2 ^ 8)%Z with 256%Z. nia.
  - lia.
Qed.

Lemma bigint_try_into_u64_ok value :
  (0 <= value < u64_mod)%Z -> bigint_try_into_u64 value = Ok value.
Proof.
  intros Hv. unfold bigint_try_into_u64.
  pose proof (num_to_bytes_le_sign value) as Hs.
  pose proof (num_to_bytes_le_value value) as Hval.
  pose proof (num_to_bytes_le_length value 8 ltac:(lia)) as Hlen.
  destruct (num_to_bytes_le value) as [sign bytes]. simpl in *.
  rewrite bool_decide_eq_false_2 by (destruct value; simpl in *; subst; lia || done).
  rewrite Z.abs_eq in Hval, Hlen by lia.
  specialize (Hlen ltac:(unfold u64_mod in *; lia)).
  rewrite (proj2 (Nat.ltb_ge 8 (length bytes))) by lia.
  rewrite u64_from_le_loop_spec by lia. f_equal. lia.
Qed.

Lemma bigint_try_into_u64_large value :
  (u64_mod <= value)%Z -> bigint_try_into_u64 value = Err Overflow.
Proof.
  intros Hv. unfold bigint_try_into_u64.
  pose proof (num_to_bytes_le_sign value) as Hs.
  pose proof (num_to_bytes_le_value value) as Hval.
  destruct (num_to_bytes_le value) as [sign bytes]. simpl in *.
  assert (u64_mod = 256 ^ Z.of_nat 8)%Z as Hm by reflexivity.
  rewrite bool_decide_eq_false_2
    by (destruct value; simpl in *; subst; try done; unfold u64_mod in *; lia).
  destruct (Nat.ltb_spec 8 (length bytes)); [done|].
  pose proof (le_value_range bytes) as Hr.
  assert (256 ^ Z.of_nat (length bytes) <= 256 ^ Z.of_nat 8)%Z
    by (apply Z.pow_le_mono_r; lia). lia.
Qed.

Lemma bigint_try_into_u64_negative value :
  (value < 0)%Z -> bigint_try_into_u64 value = Err Negative.
Proof.
  intros Hv. unfold bigint_try_into_u64.
  pose proof (num_to_bytes_le_sign value) as Hs.
  destruct (num_to_bytes_le value) as [sign bytes]. simpl in *.
  rewrite bool_decide_eq_true_2; [done|]. destruct value; simpl in *; lia || done.
Qed.
End BigInt.

(** ** [BigDecimal] *)

Definition MAX_SIGNFICANT_DIGITS : Z := 34.

Definition bigdecimal_zero : bigdecimal := {| int_val := 0; scale := 0 |}.

Section BigDecimal.
  Context `{NumBigint} `{BigDecimalLib}.

(** [BigDecimal::normalized]; [from_radix_be(..).unwrap()] is [expect]. *)
Definition bigdecimal_normalized {E} (d : bigdecimal) : result E bigdecimal :=
  if (int_val d =? 0)%Z then Ok bigdecimal_zero
  else
    let big_decimal := bd_with_prec MAX_SIGNFICANT_DIGITS d in
    let bigint := int_val big_decimal in
    let exp := scale big_decimal in
    let '(sign, digits) := num_to_radix_be bigint in
    let trailing_count := length (take_while (fun i => i =? 0)%Z (rev digits)) in
    let digits := take (length digits - trailing_count) digits in
    let? iv := expect (num_from_radix_be sign digits) in
    Ok {| int_val := iv; scale := wrap_i64 (exp - Z.of_nat trailing_count) |}.

(** [BigDecimal::new(digits, exp)] and the arithmetic operators all end in
    [Self::from], that is in [normalized]. *)
Definition bigdecimal_new {E} (digits exp : Z) : result E bigdecimal :=
  bigdecimal_normalized {| int_val := digits; scale := wrap_i64 (- exp) |}.

Lemma radix_value_foldl acc ds :
  foldl (fun acc d => acc * 10 + d)%Z acc ds
  = (acc * 10 ^ Z.of_nat (length ds) + radix_value ds)%Z.
Proof.
  unfold radix_value. revert acc. induction ds as [|d ds IH]; intros acc; [simpl; lia|].
  cbn [foldl length]. rewrite IH, (IH (0 * 10 + d)%Z), Nat2Z.inj_succ, Z.pow_succ_r by lia.
  lia.
Qed.

Lemma radix_value_app ds1 ds2 :
  radix_value (ds1 ++ ds2)
  = (radix_value ds1 * 10 ^ Z.of_nat (length ds2) + radix_value ds2)%Z.
Proof. unfold radix_value at 1. rewrite foldl_app. apply radix_value_foldl. Qed.

Lemma radix_value_zeros ds : Forall (fun d => (d =? 0)%Z = true) ds -> radix_value ds = 0%Z.
Proof.
  induction ds as [|d ds IH] using rev_ind; [done|].
  rewrite Forall_app, Forall_singleton. intros [Hds Hd%Z.eqb_eq].
  rewrite radix_value_app, IH by done. unfold radix_value. simpl. lia.
Qed.

(** What [normalized] removes are exactly the trailing zeros. *)
Lemma truncate_trailing ds n :
  n = length (take_while (fun i => i =? 0)%Z (rev ds)) ->
  let kept := take (length ds - n) ds in
  radix_value ds = (radix_value kept * 10 ^ Z.of_nat n)%Z /\
  (kept = [] \/ exists init d, kept = init ++ [d] /\ d <> 0%Z) /\
  n <= length ds.
Proof.
  intros Hn kept.
  destruct (take_while_split (fun i => i =? 0)%Z (rev ds)) as (l' & Hl & Hz & Hhd).
  set (zs := take_while _ _) in *.
  assert (Hds : ds = rev l' ++ rev zs)
    by (rewrite <- rev_app_distr, <- Hl; symmetry; apply rev_involutive).
  assert (Hlen : length ds = length l' + n)
    by (rewrite Hds, length_app, !length_rev; lia).
  assert (Hkept : kept = rev l').
  { unfold kept. rewrite Hds at 2. apply take_app_length'. rewrite length_rev. lia. }
  rewrite Hkept. split_and!.
  - rewrite Hds at 1. rewrite radix_value_app, length_rev, <- Hn.
    rewrite (radix_value_zeros (rev zs)); [lia|by apply Forall_rev].
  - destruct l' as [|d l']; [by left|right]. exists (rev l'), d. simpl.
    split; [done|]. apply Z.eqb_neq, Hhd.
  - lia.
Qed.

(** The shape of every normalized number: not a multiple of ten, unless it is
    zero with scale zero. *)
Definition canonical (d : bigdecimal) : Prop :=
  d = bigdecimal_zero \/ (int_val d mod 10 <> 0)%Z.

(** Equal numbers are equal integers at every scale fine enough for both. *)
Lemma bigdecimal_eq_at d1 d2 s :
  (scale d1 <= s)%Z -> (scale d2 <= s)%Z ->
  bigdecimal_eq d1 d2 <->
  (int_val d1 * 10 ^ (s - scale d1) = int_val d2 * 10 ^ (s - scale d2))%Z.
Proof.
  intros H1 H2. unfold bigdecimal_eq.
  set (m := Z.max (scale d1) (scale d2)).
  replace (Z.max 0 (scale d2 - scale d1)) with (m - scale d1)%Z by lia.
  replace (Z.max 0 (scale d1 - scale d2)) with (m - scale d2)%Z by lia.
  replace (s - scale d1)%Z with ((m - scale d1) + (s - m))%Z by lia.
  replace (s - scale d2)%Z with ((m - scale d2) + (s - m))%Z by lia.
  rewrite !Z.pow_add_r, !Z.mul_assoc by lia.
  assert (0 < 10 ^ (s - m))%Z by (apply Z.pow_pos_nonneg; lia).
  split; [by intros ->|]. apply Z.mul_reg_r. lia.
Qed.

#[export] Instance bigdecimal_eq_equiv : Equivalence bigdecimal_eq.
Proof.
  split.
  - intros d. by apply (bigdecimal_eq_at d d (scale d)).
  - intros d1 d2 H12. set (s := Z.max (scale d1) (scale d2)).
    apply (bigdecimal_eq_at d2 d1 s); [lia|lia|].
    apply (bigdecimal_eq_at d1 d2 s) in H12; lia.
  - intros d1 d2 d3 H12 H23. set (s := Z.max (scale d1) (Z.max (scale d2) (scale d3))).
    apply (bigdecimal_eq_at d1 d3 s); [lia|lia|].
    apply (bigdecimal_eq_at d1 d2 s) in H12; [|lia..].
    apply (bigdecimal_eq_at d2 d3 s) in H23; [|lia..]. congruence.
Qed.

Lemma bigdecimal_eq_zero d1 d2 : bigdecimal_eq d1 d2 -> int_val d1 = 0%Z -> int_val d2 = 0%Z.
Proof.
  unfold bigdecimal_eq. intros Heq Hz. rewrite Hz in Heq.
  assert (0 < 10 ^ Z.max 0 (scale d1 - scale d2))%Z by (apply Z.pow_pos_nonneg; lia). nia.
Qed.

Lemma canonical_unique d1 d2 :
  canonical d1 -> canonical d2 -> bigdecimal_eq d1 d2 -> d1 = d2.
Proof.
  unfold canonical, bigdecimal_eq. intros H1 H2 Heq.
  destruct d1 as [v1 s1], d2 as [v2 s2]. simpl in *.
  assert (Hz : v1 = 0%Z <-> v2 = 0%Z).
  { assert (0 < 10 ^ Z.max 0 (s2 - s1) /\ 0 < 10 ^ Z.max 0 (s1 - s2))%Z
      by (split; apply Z.pow_pos_nonneg; lia). nia. }
  destruct H1 as [[= -> ->]|H1], H2 as [[= -> ->]|H2]; try (exfalso; naive_solver); [done|].
  destruct (Z.lt_trichotomy s1 s2) as [Hs|[->|Hs]].
  - rewrite (Z.max_r 0 (s2 - s1)), (Z.max_l 0 (s1 - s2)), Z.pow_0_r in Heq by lia.
    replace (s2 - s1)%Z with (Z.succ (s2 - s1 - 1)) in Heq by lia.
    rewrite Z.pow_succ_r in Heq by lia. exfalso. apply H2.
    rewrite Z.mul_1_r in Heq. rewrite <- Heq, (Z.mul_comm 10), Z.mul_assoc. apply Z.mod_mul. lia.
  - rewrite Z.sub_diag, Z.max_id, Z.pow_0_r in Heq. f_equal. lia.
  - rewrite (Z.max_l 0 (s2 - s1)), (Z.max_r 0 (s1 - s2)), Z.pow_0_r in Heq by lia.
    replace (s1 - s2)%Z with (Z.succ (s1 - s2 - 1)) in Heq by lia.
    rewrite Z.pow_succ_r in Heq by lia. exfalso. apply H1.
    rewrite Z.mul_1_r in Heq. rewrite Heq, (Z.mul_comm 10), Z.mul_assoc. apply Z.mod_mul. lia.
Qed.

Lemma pow10_pos n : (0 < 10 ^ Z.of_nat n)%Z.
Proof. apply Z.pow_pos_nonneg; lia. Qed.

(** The scale that [normalized] computes does not leave [i64]. *)
Definition scale_fits (d : bigdecimal) : Prop :=
  (i64_min + 34 <= scale (bd_with_prec MAX_SIGNFICANT_DIGITS d) <= i64_max)%Z.

Lemma normalized_nonzero {E} d :
  int_val d <> 0%Z ->
  exists n : nat, exists r,
    @bigdecimal_normalized E d = Ok r /\
    (int_val (bd_with_prec MAX_SIGNFICANT_DIGITS d) = int_val r * 10 ^ Z.of_nat n)%Z /\
    scale r = wrap_i64 (scale (bd_with_prec MAX_SIGNFICANT_DIGITS d) - Z.of_nat n) /\
    (int_val r mod 10 <> 0)%Z.
Proof.
  intros Hd. unfold bigdecimal_normalized. rewrite (proj2 (Z.eqb_neq _ _) Hd).
  set (b := bd_with_prec _ d).
  assert (Hb : int_val b <> 0%Z) by (apply bd_with_prec_zero; done).
  pose proof (num_to_radix_be_sign (int_val b)) as Hs.
  pose proof (num_to_radix_be_value (int_val b)) as Hv.
  pose proof (num_to_radix_be_digits (int_val b)) as Hdig.
  destruct (num_to_radix_be (int_val b)) as [sign ds]. simpl in *.
  set (n := length (take_while _ _)).
  destruct (truncate_trailing ds n eq_refl) as (Hval & Hlast & _).
  rewrite num_from_radix_be_value by by apply Forall_take.
  set (kept := take (length ds - n) ds) in *.
  pose proof (pow10_pos n) as Hp.
  assert (Hsg : (sign_val sign * Z.abs (int_val b) = int_val b)%Z)
    by (subst sign; destruct (int_val b); simpl; lia).
  exists n, {| int_val := (sign_val sign * radix_value kept)%Z;
               scale := wrap_i64 (scale b - Z.of_nat n) |}.
  split; [done|]. simpl. split_and!; [rewrite <- Hsg, <- Hv, Hval; lia|done|].
  destruct Hlast as [->|(init & d' & Hk & Hd')]; [exfalso; rewrite Hval in Hv; cbn in Hv; lia|].
  assert (Hrange : (0 <= d' < 10)%Z).
  { apply (Forall_take _ (length ds - n)) in Hdig. fold kept in Hdig. rewrite Hk in Hdig.
    apply Forall_app in Hdig as [_ Hdig]. by inversion Hdig. }
  assert (Hrv : radix_value kept = (radix_value init * 10 + d')%Z)
    by (rewrite Hk; unfold radix_value; by rewrite foldl_app).
  rewrite Hrv.
  assert (Hmod : ((radix_value init * 10 + d') mod 10 = d')%Z)
    by (rewrite Z.add_comm, Z.mod_add by lia; apply Z.mod_small; lia).
  destruct sign; cbn [sign_val].
  - change (-1)%Z with (- (1))%Z. rewrite Z.mul_opp_l, Z.mul_1_l. intros Hm. apply Hd'. rewrite <- Hmod.
    apply Z.mod_opp_l_z in Hm; [|lia]. by rewrite Z.opp_involutive in Hm.
  - subst. destruct (int_val b); simpl in *; lia || done.
  - by rewrite Z.mul_1_l, Hmod.
Qed.

Lemma normalized_total {E} d : exists r, @bigdecimal_normalized E d = Ok r.
Proof.
  destruct (Z.eq_dec (int_val d) 0%Z) as [Hz|Hz].
  - unfold bigdecimal_normalized. rewrite Hz. simpl. eauto.
  - destruct (@normalized_nonzero E d Hz) as (n & r & Hr & _). eauto.
Qed.

Lemma normalized_canonical {E} d r : @bigdecimal_normalized E d = Ok r -> canonical r.
Proof.
  destruct (Z.eq_dec (int_val d) 0%Z) as [Hz|Hz].
  - unfold bigdecimal_normalized. rewrite Hz. simpl. intros [= <-]. by left.
  - destruct (@normalized_nonzero E d Hz) as (n & r' & Hr' & _ & _ & Hm).
    rewrite Hr'. intros [= <-]. by right.
Qed.

Lemma normalized_value {E} d r :
  scale_fits d -> int_val d <> 0%Z -> @bigdecimal_normalized E d = Ok r ->
  bigdecimal_eq r (bd_with_prec MAX_SIGNFICANT_DIGITS d) /\
  (Z.abs (int_val r) < 10 ^ MAX_SIGNFICANT_DIGITS)%Z.
Proof.
  intros Hfit Hd Hr.
  destruct (@normalized_nonzero E d Hd) as (n & r' & Hr' & Hv & Hsc & Hm).
  rewrite Hr' in Hr. injection Hr as ->.
  pose proof (bd_with_prec_digits MAX_SIGNFICANT_DIGITS d ltac:(done)) as Hdig.
  set (b := bd_with_prec _ d) in *. unfold scale_fits in Hfit. fold b in Hfit.
  pose proof (pow10_pos n) as Hp.
  assert (Hr0 : int_val r <> 0%Z) by (intros Hz; rewrite Hz in Hm; done).
  assert (Hn : (Z.of_nat n < 34)%Z).
  { destruct (Z.lt_ge_cases (Z.of_nat n) 34) as [|Hge]; [done|exfalso].
    assert (10 ^ 34 <= 10 ^ Z.of_nat n)%Z by (apply Z.pow_le_mono_r; lia).
    unfold MAX_SIGNFICANT_DIGITS in Hdig. rewrite Hv, Z.abs_mul in Hdig. nia. }
  rewrite wrap_i64_id in Hsc by (unfold in_i64, i64_max in *; lia).
  split; [|rewrite Hv, Z.abs_mul in Hdig; nia].
  unfold bigdecimal_eq. rewrite Hv, Hsc.
  rewrite (Z.max_r 0), (Z.max_l 0 (scale b - Z.of_nat n - scale b)) by lia.
  replace (scale b - (scale b - Z.of_nat n))%Z with (Z.of_nat n) by lia. lia.
Qed.
End BigDecimal.
