(* ===== verification/ScalarModels.v ===== *)
(** * Implementations of the scalar interfaces

    One executable implementation of each interface of [Scalars]: it shows that
    the laws the development relies on can hold together, and the witnesses of
    the theorems compute with it. *)

From Stdlib Require Import Strings.Byte.
From S2P Require Import Prelude Scalars.

Definition byte_of (z : Z) : byte := default x00 (Byte.of_N (Z.to_N (z mod 256))).

Lemma byte_val_of z : byte_val (byte_of z) = (z mod 256)%Z.
Proof.
  unfold byte_of, byte_val. pose proof (Z.mod_pos_bound z 256 ltac:(lia)) as Hb.
  destruct (Byte.of_N (Z.to_N (z mod 256))) as [b|] eqn:E; simpl.
  - apply Byte.to_of_N in E. rewrite E. lia.
  - apply Byte.of_N_None_iff in E. lia.
Qed.

Lemma byte_of_val b : byte_of (byte_val b) = b.
Proof.
  unfold byte_of, byte_val. pose proof (Byte.to_N_bounded b).
  rewrite Z.mod_small by lia. by rewrite N2Z.id, Byte.of_to_N.
Qed.

(** ** Hexadecimal digits *)

Definition hex_char (n : Z) : ascii :=
  ascii_of_nat (Z.to_nat (if (n <? 10)%Z then 48 + n else 87 + n)).
Definition hex_digit_val (c : ascii) : option Z :=
  let n := Z.of_nat (nat_of_ascii c) in
  if is_ascii_digit c then Some (n - 48)%Z
  else if ascii_in 97 102 c then Some (n - 87)%Z
  else if ascii_in 65 70 c then Some (n - 55)%Z
  else None.

Fixpoint hex_encode_bytes (bs : list byte) : string :=
  match bs with
  | [] => ""
  | b :: bs => String (hex_char (byte_val b / 16))
                 (String (hex_char (byte_val b mod 16)) (hex_encode_bytes bs))
  end.

Fixpoint hex_decode_string (s : string) : result FromHexError (list byte) :=
  match s with
  | "" => Ok []
  | String _ "" => Err OddLength
  | String c1 (String c2 s) =>
      match hex_digit_val c1, hex_digit_val c2 with
      | Some d1, Some d2 => let? bs := hex_decode_string s in Ok (byte_of (d1 * 16 + d2) :: bs)
      | _, _ => Err InvalidHexCharacter
      end
  end.

Lemma hex_char_spec n : (0 <= n < 16)%Z ->
  hex_digit_val (hex_char n) = Some n /\ is_hex_digit (hex_char n) = true.
Proof.
  intros Hn. assert (exists k, n = Z.of_nat k /\ (k < 16)%nat) as (k & -> & Hk)
    by (exists (Z.to_nat n); lia).
  do 16 (destruct k as [|k]; [done|]). lia.
Qed.

#[refine, export] Instance hex_model : Hex := {|
  hex_encode := hex_encode_bytes;
  hex_decode := hex_decode_string
|}.
Proof.
  - induction bs as [|b bs IH]; [done|].
    pose proof (byte_val_range b) as Hb.
    destruct (hex_char_spec (byte_val b / 16)) as [H1 _];
      [split; [apply Z.div_pos; lia|apply Z.div_lt_upper_bound; lia]|].
    destruct (hex_char_spec (byte_val b mod 16)) as [H2 _]; [apply Z.mod_pos_bound; lia|].
    cbn [hex_encode_bytes hex_decode_string]. rewrite H1, H2, IH. simpl.
    rewrite (Z.mul_comm _ 16), <- Z.div_mod by lia. by rewrite byte_of_val.
  - induction bs as [|b bs IH]; [constructor|].
    pose proof (byte_val_range b) as Hb. cbn. repeat constructor; [..|done];
      apply hex_char_spec.
    + split; [apply Z.div_pos; lia|apply Z.div_lt_upper_bound; lia].
    + apply Z.mod_pos_bound; lia.
Defined.

(** ** Bytes and digits of integers *)

Fixpoint le_bytes (fuel : nat) (z : Z) : list byte :=
  match fuel with
  | 0%nat => [byte_of z]
  | S fuel => if (z <? 256)%Z then [byte_of z] else byte_of z :: le_bytes fuel (z / 256)
  end.

Fixpoint dec_digits (fuel : nat) (z : Z) : list Z :=
  match fuel with
  | 0%nat => [z mod 10]%Z
  | S fuel => if (z <? 10)%Z then [z] else dec_digits fuel (z / 10) ++ [z mod 10]%Z
  end.

(** Enough for every division loop: the number of bits. *)
Definition bits_fuel (z : Z) : nat := Z.to_nat (Z.log2_up (z + 1)).

Lemma bits_fuel_spec b z : (2 <= b)%Z -> (0 <= z)%Z -> (z < b ^ Z.of_nat (S (bits_fuel z)))%Z.
Proof.
  intros Hb Hz. unfold bits_fuel.
  pose proof (Z.log2_up_nonneg (z + 1)) as Hl.
  assert (z + 1 <= 2 ^ Z.log2_up (z + 1))%Z.
  { destruct (Z.eq_dec z 0%Z) as [->|]; [done|]. apply Z.log2_up_spec. lia. }
  assert (2 ^ Z.log2_up (z + 1) <= b ^ Z.log2_up (z + 1))%Z by (apply Z.pow_le_mono_l; lia).
  assert (b ^ Z.log2_up (z + 1) <= b ^ Z.of_nat (S (Z.to_nat (Z.log2_up (z + 1)))))%Z
    by (apply Z.pow_le_mono_r; lia). lia.
Qed.

Lemma div_lt_pow b z n :
  (0 < b)%Z -> (z < b ^ Z.of_nat (S n))%Z -> (z / b < b ^ Z.of_nat n)%Z.
Proof.
  intros. apply Z.div_lt_upper_bound; [done|].
  rewrite <- Z.pow_succ_r, <- Nat2Z.inj_succ by lia. done.
Qed.

Lemma le_bytes_value fuel z :
  (0 <= z < 256 ^ Z.of_nat (S fuel))%Z -> le_value (le_bytes fuel z) = z.
Proof.
  revert z. induction fuel as [|fuel IH]; intros z Hz; cbn [le_bytes].
  - simpl. rewrite byte_val_of, Z.mod_small by (simpl in Hz; lia). lia.
  - destruct (Z.ltb_spec z 256); cbn [le_value].
    + rewrite byte_val_of, Z.mod_small by lia. lia.
    + rewrite byte_val_of, IH.
      * pose proof (Z.div_mod z 256 ltac:(lia)). lia.
      * split; [apply Z.div_pos; lia|]. apply div_lt_pow; lia.
Qed.

Lemma le_bytes_length fuel z k :
  (0 < k)%nat -> (0 <= z < 256 ^ Z.of_nat k)%Z -> (length (le_bytes fuel z) <= k)%nat.
Proof.
  revert z k. induction fuel as [|fuel IH]; intros z k Hk Hz; cbn [le_bytes]; [simpl; lia|].
  destruct (Z.ltb_spec z 256); simpl; [lia|].
  destruct k as [|[|k]]; [lia|simpl in Hz; lia|].
  apply le_n_S, IH; [lia|]. split; [apply Z.div_pos; lia|]. apply div_lt_pow; lia.
Qed.

Lemma dec_digits_value fuel z :
  (0 <= z < 10 ^ Z.of_nat (S fuel))%Z -> radix_value (dec_digits fuel z) = z.
Proof.
  revert z. induction fuel as [|fuel IH]; intros z Hz; cbn [dec_digits].
  - unfold radix_value. cbn [foldl]. rewrite Z.mod_small by (simpl in Hz; lia). lia.
  - destruct (Z.ltb_spec z 10); [unfold radix_value; cbn [foldl]; lia|].
    unfold radix_value. rewrite foldl_app. cbn [foldl]. fold (radix_value (dec_digits fuel (z / 10))).
    rewrite IH.
    + pose proof (Z.div_mod z 10 ltac:(lia)). lia.
    + split; [apply Z.div_pos; lia|]. apply div_lt_pow; lia.
Qed.

Lemma dec_digits_range fuel z :
  (0 <= z)%Z -> Forall (fun d => 0 <= d < 10)%Z (dec_digits fuel z).
Proof.
  revert z. induction fuel as [|fuel IH]; intros z Hz; cbn [dec_digits].
  - repeat constructor; apply Z.mod_pos_bound; lia.
  - destruct (Z.ltb_spec z 10); [repeat constructor; lia|].
    apply Forall_app. split; [apply IH, Z.div_pos; lia|].
    repeat constructor; apply Z.mod_pos_bound; lia.
Qed.

Definition digit_ok (d : Z) : bool := ((0 <=? d) && (d <? 10))%Z.

#[refine, export] Instance num_model : NumBigint := {|
  num_to_bytes_le z := (sign_of z, le_bytes (bits_fuel (Z.abs z)) (Z.abs z));
  num_to_radix_be z := (sign_of z, dec_digits (bits_fuel (Z.abs z)) (Z.abs z));
  num_from_radix_be s ds :=
    if List.forallb digit_ok ds then Some (sign_val s * radix_value ds)%Z else None
|}.
Proof.
  - done.
  - intros z. simpl. apply le_bytes_value. split; [lia|]. apply bits_fuel_spec; lia.
  - intros z k Hk Hz. simpl. apply le_bytes_length; [done|lia].
  - done.
  - intros z. simpl. apply dec_digits_value. split; [lia|]. apply bits_fuel_spec; lia.
  - intros z. simpl. apply dec_digits_range. lia.
  - intros s ds Hds. rewrite (proj2 (forallb_elem digit_ok ds)); [done|].
    eapply Forall_impl; [exact Hds|]. intros d Hd. unfold digit_ok.
    apply andb_true_iff. rewrite Z.leb_le, Z.ltb_lt. exact Hd.
Defined.

(** ** Rounding by dropping digits *)

Fixpoint drop_digits (fuel : nat) (p : Z) (d : bigdecimal) : bigdecimal :=
  match fuel with
  | 0%nat => d
  | S fuel =>
      if (Z.abs (int_val d) <? 10 ^ p)%Z then d
      else drop_digits fuel p {| int_val := Z.quot (int_val d) 10; scale := scale d - 1 |}
  end.

Lemma quot_abs z : Z.abs (Z.quot z 10) = (Z.abs z / 10)%Z.
Proof. rewrite <- Z.quot_abs, Z.quot_div_nonneg by lia. done. Qed.

Lemma drop_digits_small fuel p d :
  (Z.abs (int_val d) < 10 ^ p)%Z -> drop_digits fuel p d = d.
Proof. intros Hd. destruct fuel; simpl; [done|]. by rewrite (proj2 (Z.ltb_lt _ _) Hd). Qed.

Lemma drop_digits_bound fuel p d :
  (0 < p)%Z -> (Z.abs (int_val d) < 10 ^ Z.of_nat fuel)%Z ->
  (Z.abs (int_val (drop_digits fuel p d)) < 10 ^ p)%Z.
Proof.
  intros Hp. revert d. induction fuel as [|fuel IH]; intros d Hd; simpl.
  - simpl in Hd. pose proof (Z.pow_pos_nonneg 10 p). lia.
  - destruct (Z.ltb_spec (Z.abs (int_val d)) (10 ^ p)); [done|].
    apply IH. cbn [int_val]. rewrite quot_abs. apply div_lt_pow; lia.
Qed.

Lemma drop_digits_nonzero fuel p d :
  (0 < p)%Z -> int_val d <> 0%Z -> int_val (drop_digits fuel p d) <> 0%Z.
Proof.
  intros Hp. revert d. induction fuel as [|fuel IH]; intros d Hd; simpl; [done|].
  destruct (Z.ltb_spec (Z.abs (int_val d)) (10 ^ p)) as [|Hge]; [done|].
  apply IH. cbn [int_val]. intros Hz. apply (f_equal Z.abs) in Hz. rewrite quot_abs in Hz.
  assert (10 ^ 1 <= 10 ^ p)%Z by (apply Z.pow_le_mono_r; lia).
  assert (1 <= Z.abs (int_val d) / 10)%Z by (apply Z.div_le_lower_bound; lia).
  simpl in Hz. lia.
Qed.

#[refine, export] Instance bigdecimal_model : BigDecimalLib := {|
  bd_with_prec p d := drop_digits (S (bits_fuel (Z.abs (int_val d)))) p d
|}.
Proof.
  - intros p d Hp. apply drop_digits_bound; [done|]. apply bits_fuel_spec; lia.
  - intros p d Hp Hd. rewrite drop_digits_small by done. done.
  - intros p d Hp Hd. by apply drop_digits_nonzero.
Defined.
