(* ===== verification/ScalarProps.v ===== *)
(** * Properties of the scalar types *)

From S2P Require Import Prelude Scalars ScalarModels.

Section ScalarProps.
  Context `{Hex} `{NumBigint} `{BigDecimalLib}.

(** [Bytes::from_str] reads back exactly the bytes that [Display for Bytes]
    wrote: the [0x] prefix is stripped once and no digit is lost. *)
Theorem bytes_roundtrip (b : Bytes) : bytes_from_str (bytes_to_string b) = Ok b.
Proof. apply bytes_from_to_string. Qed.

(** [TryFrom<&BigInt> for u64] returns the integer itself exactly when it
    fits into 64 bits, and otherwise the error that says in which direction it
    does not fit. *)
Theorem bigint_to_u64_exact (z : Z) :
  bigint_try_into_u64 z =
  if (z <? 0)%Z then Err Negative
  else if (z <? u64_mod)%Z then Ok z
  else Err Overflow.
Proof.
  destruct (Z.ltb_spec z 0); [by apply bigint_try_into_u64_negative|].
  destruct (Z.ltb_spec z u64_mod).
  - apply bigint_try_into_u64_ok. lia.
  - by apply bigint_try_into_u64_large.
Qed.

(** Two decimals of at most 34 significant digits that denote the same
    number have one and the same normalized representation (so comparing
    normalized values field by field compares numbers), and [normalized] never
    panics on them. *)
Theorem normalized_unique (d1 d2 : bigdecimal) :
  scale_fits d1 -> scale_fits d2 ->
  (Z.abs (int_val d1) < 10 ^ MAX_SIGNFICANT_DIGITS)%Z ->
  (Z.abs (int_val d2) < 10 ^ MAX_SIGNFICANT_DIGITS)%Z ->
  bigdecimal_eq d1 d2 ->
  exists r, bigdecimal_normalized (E:=Empty_set) d1 = Ok r /\
            bigdecimal_normalized (E:=Empty_set) d2 = Ok r /\ bigdecimal_eq r d1.
Proof.
  intros F1 F2 S1 S2 Heq.
  destruct (normalized_total (E:=Empty_set) d1) as [r1 R1].
  destruct (normalized_total (E:=Empty_set) d2) as [r2 R2].
  destruct (Z.eq_dec (int_val d1) 0%Z) as [Z1|Z1].
  - pose proof (bigdecimal_eq_zero _ _ Heq Z1) as Z2.
    exists bigdecimal_zero. unfold bigdecimal_normalized. rewrite Z1, Z2. simpl.
    split_and!; [done|done|]. unfold bigdecimal_eq. by rewrite Z1.
  - assert (Z2 : int_val d2 <> 0%Z) by (intros Z2; by apply Z1, (bigdecimal_eq_zero d2)).
    destruct (normalized_value _ _ F1 Z1 R1) as [V1 _].
    destruct (normalized_value _ _ F2 Z2 R2) as [V2 _].
    rewrite (bd_with_prec_small _ d1) in V1 by done.
    rewrite (bd_with_prec_small _ d2) in V2 by done.
    assert (r1 = r2) as ->; [|eauto].
    apply canonical_unique; [by eapply normalized_canonical..|].
    by rewrite V1, V2.
Qed.
End ScalarProps.

Example normalized_unique_witness :
  exists r, bigdecimal_normalized (E:=Empty_set) {| int_val := 1200; scale := 2 |} = Ok r /\
            bigdecimal_normalized (E:=Empty_set) {| int_val := 120; scale := 1 |} = Ok r /\
            bigdecimal_eq r {| int_val := 1200; scale := 2 |}.
Proof.
  apply (normalized_unique {| int_val := 1200; scale := 2 |} {| int_val := 120; scale := 1 |});
    unfold scale_fits; vm_compute; intuition congruence.
Defined.
