(* ===== verification/RuntimeValue.v ===== *)
(** * Query result values

    [graph/src/data/value.rs]: [r::Value], the values that queries and their
    arguments are made of, the insertion-ordered [Object] whose [remove] leaves
    a tombstone behind, the coercion of values to enum and scalar types, and the
    conversions from and to parsed query values. *)

From stdpp Require Import pretty.
From S2P Require Import Prelude GraphqlAst.

(** An [Object] is the vector of its [Entry]s; a float is its bit pattern. *)
Inductive rValue : Type :=
| RInt (n : Z)
| RFloat (bits : Z)
| RString (s : string)
| RBoolean (b : bool)
| RNull
| REnum (e : string)
| RList (l : list rValue)
| RObject (o : list (string * rValue)).

Abbreviation Object := (list (string * rValue)).

(** Induction with a hypothesis for every element of a list or an object. *)
Lemma rValue_nested_ind (P : rValue -> Prop) :
  (forall n, P (RInt n)) -> (forall b, P (RFloat b)) -> (forall s, P (RString s)) ->
  (forall b, P (RBoolean b)) -> P RNull -> (forall e, P (REnum e)) ->
  (forall l, Forall P l -> P (RList l)) ->
  (forall o, Forall (fun kv => P kv.2) o -> P (RObject o)) ->
  forall v, P v.
Proof.
  intros HI HF HS HB HN HE HL HO. fix IH 1.
  intros [n|b|s|b| |e|l|o];
    [apply HI|apply HF|apply HS|apply HB|apply HN|apply HE| |].
  - apply HL. induction l; constructor; auto.
  - apply HO. induction o as [|[k v] o IHo]; constructor; auto.
Qed.

Lemma qValue_nested_ind (P : qValue -> Prop) :
  (forall x, P (QVariable x)) ->
  (forall n, P (QInt n)) -> (forall b, P (QFloat b)) -> (forall s, P (QString s)) ->
  (forall b, P (QBoolean b)) -> P QNull -> (forall e, P (QEnum e)) ->
  (forall l, Forall P l -> P (QList l)) ->
  (forall o, Forall (fun kv => P kv.2) o -> P (QObject o)) ->
  forall v, P v.
Proof.
  intros HV HI HF HS HB HN HE HL HO. fix IH 1.
  intros [x|n|b|s|b| |e|l|o];
    [apply HV|apply HI|apply HF|apply HS|apply HB|apply HN|apply HE| |].
  - apply HL. induction l; constructor; auto.
  - apply HO. induction o as [|[k v] o IHo]; constructor; auto.
Qed.

(** ** [Object] *)

Definition TOMBSTONE_KEY : string := "*dead*".

Definition object_new : Object := [].

Definition object_get (o : Object) (key : string) : option rValue :=
  snd <$> List.find (fun entry => bool_decide (entry.1 = key)) o.

(** [remove] overwrites the first entry with that key. *)
Fixpoint object_remove (o : Object) (key : string) : option rValue * Object :=
  match o with
  | [] => (None, [])
  | (k, v) :: o =>
      if bool_decide (k = key) then (Some v, (TOMBSTONE_KEY, RNull) :: o)
      else let '(r, o') := object_remove o key in (r, (k, v) :: o')
  end.

(** [ObjectIter] and [ObjectOwningIter] skip tombstones. *)
Definition object_iter (o : Object) : list (string * rValue) :=
  List.filter (fun entry => negb (bool_decide (entry.1 = TOMBSTONE_KEY))) o.

Definition object_len (o : Object) : nat := length o.

Definition object_extend (o other : Object) : Object := o ++ other.

Fixpoint object_insert (o : Object) (key : string) (value : rValue) : option rValue * Object :=
  match o with
  | [] => (None, [(key, value)])
  | (k, v) :: o =>
      if bool_decide (k = key) then (Some v, (k, value) :: o)
      else let '(r, o') := object_insert o key value in (r, (k, v) :: o')
  end.

Definition object_from_iter (l : list (string * rValue)) : Object := l.

(** ** [Value] *)

(** [Value::object] of a [BTreeMap] keeps its key order. *)
Definition value_object (map : list (string * rValue)) : rValue := RObject map.

Definition is_null (v : rValue) : bool := match v with RNull => true | _ => false end.

Definition coerce_enum (v : rValue) (using_type : EnumType) : result rValue rValue :=
  let known name :=
    List.existsb (fun value => bool_decide (ev_name value = name)) (enum_values using_type) in
  match v with
  | RNull => Ok RNull
  | RString name | REnum name => if known name then Ok (REnum name) else Err v
  | _ => Err v
  end.

Section CoerceScalar.
  (** [f64]'s [Display] *)
  Variable float_to_string : Z -> string.

Definition coerce_scalar (v : rValue) (using_type : ScalarType) : result rValue rValue :=
  let ty := scalar_name using_type in
  match v with
  | RNull => Ok RNull
  | RBoolean b => if decide (ty = "Boolean") then Ok (RBoolean b) else Err v
  | RFloat f => if decide (ty = "BigDecimal") then Ok (RString (float_to_string f)) else Err v
  | RInt n =>
      if decide (ty = "BigDecimal") then Ok (RString (pretty n))
      else if decide (ty = "Int") then
        if bool_decide (i32_min <= n)%Z && bool_decide (n <= i32_max)%Z
        then Ok (RInt n) else Err (RInt n)
      else if decide (ty = "ID") then Ok (RString (pretty n))
      else if decide (ty = "BigInt") then Ok (RString (pretty n))
      else Err v
  | RString s =>
      if decide (ty ∈ ["BigDecimal"; "String"; "ID"; "Bytes"; "BigInt"; "Date"])
      then Ok (RString s) else Err v
  | RObject o => if decide (ty = "JSONObject") then Ok (RObject o) else Err v
  | REnum _ | RList _ => Err v
  end.

(** ** [Display for Value] *)

Definition quote : string := String (ascii_of_nat 34) "".
Definition backslash : string := String (ascii_of_nat 92) "".

(** [val.replace('"', "\\\"")] *)
Fixpoint escape_quotes (s : string) : string :=
  match s with
  | "" => ""
  | String c s =>
      if ascii_dec c (ascii_of_nat 34) then backslash +:+ quote +:+ escape_quotes s
      else String c (escape_quotes s)
  end.

Fixpoint rvalue_to_string (v : rValue) : string :=
  match v with
  | RInt num => pretty num
  | RFloat val => float_to_string val
  | RString val => quote +:+ escape_quotes val +:+ quote
  | RBoolean true => "true"
  | RBoolean false => "false"
  | RNull => "null"
  | REnum name => name
  | RList items => "[" +:+ join ", " (map rvalue_to_string items) +:+ "]"
  | RObject items =>
      "{" +:+
      join ", "
        (omap (fun kv : string * rValue =>
                 let '(k, v) := kv in
                 let s := k +:+ ": " +:+ rvalue_to_string v in
                 if bool_decide (k = TOMBSTONE_KEY) then None else Some s) items)
      +:+ "}"
  end.
End CoerceScalar.

(** ** [TryFrom<q::Value> for r::Value], [From<r::Value> for q::Value] *)

Fixpoint rvalue_try_from (value : qValue) : result qValue rValue :=
  match value with
  | QVariable _ => Err value
  | QInt num =>
      if bool_decide (i64_min <= num)%Z && bool_decide (num <= i64_max)%Z
      then Ok (RInt num) else Err value
  | QFloat f => Ok (RFloat f)
  | QString s => Ok (RString s)
  | QBoolean b => Ok (RBoolean b)
  | QNull => Ok RNull
  | QEnum s => Ok (REnum s)
  | QList vals =>
      let? vals := try_map rvalue_try_from vals in
      Ok (RList vals)
  | QObject map =>
      let? rmap := try_map (fun kv : string * qValue =>
                              let '(key, value) := kv in
                              let? value := rvalue_try_from value in Ok (key, value)) map in
      Ok (value_object (btree_from_list rmap))
  end.

Fixpoint qvalue_from (value : rValue) : qValue :=
  match value with
  | RInt i => QInt (wrap_i32 i)
  | RFloat f => QFloat f
  | RString s => QString s
  | RBoolean b => QBoolean b
  | RNull => QNull
  | REnum s => QEnum s
  | RList vals => QList (map qvalue_from vals)
  | RObject map =>
      QObject (btree_from_list
        (omap (fun kv : string * rValue =>
                 let '(key, value) := kv in
                 let value := qvalue_from value in
                 if bool_decide (key = TOMBSTONE_KEY) then None else Some (key, value)) map))
  end.

(** ** Objects refine finite maps *)

(** What an object stands for: its live entries. *)
Definition object_view (o : Object) : gmap string rValue := list_to_map (object_iter o).

(** No key is live twice. *)
Definition object_wf (o : Object) : Prop := NoDup (object_iter o).*1.

Lemma object_iter_cons k v o :
  object_iter ((k, v) :: o)
  = if decide (k = TOMBSTONE_KEY) then object_iter o else (k, v) :: object_iter o.
Proof. unfold object_iter. simpl. case_bool_decide; by case_decide. Qed.

#[local] Arguments object_iter : simpl never.

Lemma object_get_view o k : k <> TOMBSTONE_KEY -> object_get o k = object_view o !! k.
Proof.
  intros Hk. unfold object_get, object_view.
  induction o as [|[k' v] o IH]; [done|]. rewrite object_iter_cons. simpl.
  case_bool_decide as E; simpl in *.
  - subst. rewrite decide_False by done. simpl. by rewrite lookup_insert_eq.
  - case_decide; [done|]. simpl. by rewrite lookup_insert_ne.
Qed.

Lemma object_insert_spec o k v :
  k <> TOMBSTONE_KEY ->
  (object_insert o k v).1 = object_view o !! k /\
  object_view (object_insert o k v).2 = <[k := v]> (object_view o).
Proof.
  intros Hk. unfold object_view. induction o as [|[k' v'] o IH]; simpl.
  - rewrite object_iter_cons, decide_False by done. done.
  - case_bool_decide as E; simpl.
    + subst. rewrite !object_iter_cons, !decide_False by done. simpl.
      by rewrite lookup_insert_eq, insert_insert_eq.
    + destruct (object_insert o k v) as [r o'] eqn:Ho. simpl in *.
      rewrite !object_iter_cons. case_decide; [done|]. simpl. destruct IH as [-> ->].
      rewrite lookup_insert_ne by done. split; [done|]. by rewrite insert_insert_ne.
Qed.

Lemma object_insert_keys o k v :
  k <> TOMBSTONE_KEY ->
  (object_iter (object_insert o k v).2).*1
  = if decide (k ∈ (object_iter o).*1) then (object_iter o).*1 else (object_iter o).*1 ++ [k].
Proof.
  intros Hk. induction o as [|[k' v'] o IH]; csimpl.
  - rewrite object_iter_cons. change (object_iter []) with (@nil (string * rValue)).
    repeat case_decide; set_solver.
  - case_bool_decide as E; csimpl.
    + subst. rewrite !object_iter_cons. repeat case_decide; set_solver.
    + destruct (object_insert o k v) as [r o'] eqn:Ho. csimpl in *.
      rewrite !object_iter_cons. destruct (decide (k' = TOMBSTONE_KEY)); [done|].
      csimpl. rewrite IH. repeat case_decide; set_solver.
Qed.

Lemma object_insert_wf o k v :
  k <> TOMBSTONE_KEY -> object_wf o -> object_wf (object_insert o k v).2.
Proof.
  intros Hk Hwf. unfold object_wf. rewrite object_insert_keys by done.
  case_decide; [done|]. apply NoDup_app. split_and!; [done|set_solver|apply NoDup_singleton].
Qed.

Lemma object_remove_spec o k :
  k <> TOMBSTONE_KEY -> object_wf o ->
  (object_remove o k).1 = object_view o !! k /\
  object_view (object_remove o k).2 = delete k (object_view o) /\
  (object_iter (object_remove o k).2).*1 = filter (fun k' => k' <> k) (object_iter o).*1.
Proof.
  intros Hk. unfold object_view, object_wf.
  induction o as [|[k' v'] o IH]; csimpl.
  { intros _. change (object_iter []) with (@nil (string * rValue)).
    cbn [list_to_map foldr]. by rewrite lookup_empty, delete_empty. }
  case_bool_decide as E; csimpl.
  - subst. rewrite !object_iter_cons.
    destruct (decide (TOMBSTONE_KEY = TOMBSTONE_KEY)); [|done].
    destruct (decide (k = TOMBSTONE_KEY)); [done|]. csimpl. intros [Hn Hd]%NoDup_cons.
    rewrite lookup_insert_eq, delete_insert_id
      by (apply not_elem_of_list_to_map_1; done).
    rewrite filter_cons_False by auto. split_and!; [done..|].
    symmetry. apply filter_id. by intros x Hx ->.
  - destruct (object_remove o k) as [r o'] eqn:Ho. csimpl in *.
    rewrite !object_iter_cons. destruct (decide (k' = TOMBSTONE_KEY)); [done|].
    csimpl. intros [Hn Hd]%NoDup_cons. destruct (IH Hd) as (-> & -> & ->).
    rewrite lookup_insert_ne, delete_insert_ne by done.
    by rewrite filter_cons_True.
Qed.

(** An [Object] without duplicate keys behaves like a finite map under
    [get], [insert] and [remove] for every key other than the tombstone's:
    both operations return the previous value, keep keys unique, and change
    exactly that key, although [remove] leaves a dead entry behind. *)
Theorem object_refines_map (o : Object) (k : string) (v : rValue) :
  k <> TOMBSTONE_KEY -> object_wf o ->
  object_get o k = object_view o !! k /\
  ((object_insert o k v).1 = object_view o !! k /\
   object_view (object_insert o k v).2 = <[k := v]> (object_view o) /\
   object_wf (object_insert o k v).2) /\
  ((object_remove o k).1 = object_view o !! k /\
   object_view (object_remove o k).2 = delete k (object_view o) /\
   object_wf (object_remove o k).2).
Proof.
  intros Hk Hwf. split; [by apply object_get_view|].
  destruct (object_insert_spec o k v Hk) as [-> ->].
  destruct (object_remove_spec o k Hk Hwf) as (-> & -> & Hkeys).
  split_and!; try done; [by apply object_insert_wf|].
  unfold object_wf. rewrite Hkeys. by apply NoDup_filter.
Qed.

Example object_refines_map_witness :
  object_get [("a", RInt 1); ("b", RNull)] "b"
    = object_view [("a", RInt 1); ("b", RNull)] !! "b" /\
  (object_remove [("a", RInt 1); ("b", RNull)] "a").2 = [("*dead*", RNull); ("b", RNull)].
Proof.
  split; [|reflexivity].
  apply (object_refines_map [("a", RInt 1); ("b", RNull)] "b" RNull);
    [discriminate|unfold object_wf; apply (bool_decide_unpack _); vm_compute; exact I].
Defined.

(** ** Literals survive the conversion to runtime values and back *)

(** A query value without variables whose integers fit into the store's
    [Int] and whose objects are [BTreeMap]s without the tombstone as a key. *)
Inductive literal : qValue -> Prop :=
| lit_int n : in_i32 n -> literal (QInt n)
| lit_float b : literal (QFloat b)
| lit_string s : literal (QString s)
| lit_boolean b : literal (QBoolean b)
| lit_null : literal QNull
| lit_enum e : literal (QEnum e)
| lit_list l : Forall literal l -> literal (QList l)
| lit_object o :
    Forall (fun kv => kv.1 <> TOMBSTONE_KEY /\ literal kv.2) o -> sorted_keys o ->
    literal (QObject o).

Lemma in_i32_i64 n :
  in_i32 n -> bool_decide (i64_min <= n)%Z && bool_decide (n <= i64_max)%Z = true.
Proof.
  unfold in_i32, i32_min, i32_max. intros. unfold i64_min, i64_max.
  rewrite !bool_decide_true by lia. done.
Qed.

Lemma literal_roundtrip q : literal q -> exists r, rvalue_try_from q = Ok r /\ qvalue_from r = q.
Proof.
  induction q as [x|n|b|s|b| |e|l IH|o IH] using qValue_nested_ind;
    inversion 1 as [? Hn| | | | | |? Hl|? Ho Hs]; simplify_eq; try (eexists; split; reflexivity).
  - exists (RInt n). simpl. rewrite in_i32_i64, wrap_i32_id; done.
  - assert (exists rs, try_map rvalue_try_from l = Ok rs /\ map qvalue_from rs = l)
      as (rs & Hrs & Hq).
    { induction l as [|q l IHl]; [by exists []|].
      apply Forall_cons in IH as [IHq IH]. apply Forall_cons in Hl as [Hq Hl].
      destruct (IHq Hq) as (r & Hr & Hrq), (IHl IH (lit_list _ Hl) Hl) as (rs & Hrs & Hrsq).
      exists (r :: rs). simpl. rewrite Hr. simpl. rewrite Hrs. simpl. by rewrite Hrq, Hrsq. }
    exists (RList rs). simpl. rewrite Hrs. simpl. by rewrite Hq.
  - set (f := fun kv : string * qValue =>
                let '(key, value) := kv in
                let? value := rvalue_try_from value in Ok (key, value)).
    set (g := fun kv : string * rValue =>
                let '(key, value) := kv in
                let value := qvalue_from value in
                if bool_decide (key = TOMBSTONE_KEY) then None else Some (key, value)).
    assert (exists rs, try_map f o = Ok rs /\ rs.*1 = o.*1 /\ omap g rs = o)
      as (rs & Hrs & Hk & Hq).
    { clear Hs. induction o as [|[k q] o IHo]; [by exists []|].
      apply Forall_cons in IH as [IHq IH]. apply Forall_cons in Ho as [[Hk Hq] Ho].
      destruct (IHq Hq) as (r & Hr & Hrq). clear IHq. simpl in Hr, Hrq.
      destruct (IHo IH) as (rs & Hrs & Hks & Hrsq); [|done|].
      { constructor; [done|]. inversion H as [| | | | | | |? _ Hs]; simplify_eq.
        unfold sorted_keys in *. by inversion Hs. }
      assert (Hf : f (k, q) = Ok (k, r)) by (unfold f; by rewrite Hr).
      assert (Hg : g (k, r) = Some (k, q))
        by (unfold g; rewrite Hrq; by rewrite bool_decide_false).
      exists ((k, r) :: rs). cbn [try_map]. rewrite Hf. cbn [bind_result]. rewrite Hrs.
      cbn [bind_result omap list_omap]. rewrite Hg. csimpl. by rewrite Hks, Hrsq. }
    exists (RObject rs). simpl. fold f. rewrite Hrs. simpl.
    unfold value_object. rewrite btree_from_list_sorted by (unfold sorted_keys; by rewrite Hk).
    split; [done|]. simpl. fold g. by rewrite Hq, btree_from_list_sorted.
Qed.

(** A literal query value is converted to a runtime value without error,
    and converting it back gives the same value: lists and objects keep their
    order and integers are not truncated. *)
Theorem literal_value_roundtrip (q : qValue) :
  literal q -> exists r, rvalue_try_from q = Ok r /\ qvalue_from r = q.
Proof. apply literal_roundtrip. Qed.

Example literal_value_roundtrip_witness :
  exists r, rvalue_try_from (QObject [("a", QInt 7); ("b", QList [QString "x"])]) = Ok r /\
            qvalue_from r = QObject [("a", QInt 7); ("b", QList [QString "x"])].
Proof.
  apply (literal_value_roundtrip (QObject [("a", QInt 7); ("b", QList [QString "x"])])).
  constructor.
  - repeat constructor; try discriminate; vm_compute; discriminate.
  - repeat constructor; discriminate.
Defined.
