(* ===== verification/Values.v ===== *)
(** * Entity attribute values and entities

    [graph/src/data/store/mod.rs]: [Value], [ValueType], the conversion of query
    arguments to attribute values, assignability to schema types, and [Entity],
    a map from attribute names to values, with its two ways of merging an
    update. *)

From stdpp Require Import pretty.
From S2P Require Import Prelude GraphqlAst Scalars RuntimeValue.

Definition ID_SCALAR : string := "ID".
Definition BYTES_SCALAR : string := "Bytes".
Definition BIG_INT_SCALAR : string := "BigInt".
Definition BIG_DECIMAL_SCALAR : string := "BigDecimal".

(** ** [ValueType] *)

Inductive ValueType := TBoolean | TBigInt | TBytes | TBigDecimal | TInt | TString.

#[export] Instance ValueType_eq_dec : EqDecision ValueType.
Proof. solve_decision. Defined.

Inductive TypeNotAvailable := TypeNotAvailableInContext (s : string).

Definition value_type_from_str (s : string) : result TypeNotAvailable ValueType :=
  if decide (s = "Boolean") then Ok TBoolean
  else if decide (s = "BigInt") then Ok TBigInt
  else if decide (s = "Bytes") then Ok TBytes
  else if decide (s = "BigDecimal") then Ok TBigDecimal
  else if decide (s = "Int") then Ok TInt
  else if decide (s = "String") then Ok TString
  else if decide (s = "ID") then Ok TString
  else Err (TypeNotAvailableInContext s).

Definition is_scalar (s : string) : bool := is_ok (value_type_from_str s).

(** ** [Value] *)

Inductive Value : Type :=
| VString (s : string)
| VInt (i : Z)
| VBigDecimal (d : bigdecimal)
| VBool (b : bool)
| VList (l : list Value)
| VNull
| VBytes (b : Bytes)
| VBigInt (n : Z).

#[export] Instance bigdecimal_eq_dec : EqDecision bigdecimal.
Proof. solve_decision. Defined.

#[export] Instance Value_eq_dec : EqDecision Value.
Proof.
  refine (fix go (v1 v2 : Value) : Decision (v1 = v2) :=
    match v1, v2 with
    | VString a, VString b => cast_if (decide (a = b))
    | VInt a, VInt b => cast_if (decide (a = b))
    | VBigDecimal a, VBigDecimal b => cast_if (decide (a = b))
    | VBool a, VBool b => cast_if (decide (a = b))
    | VList a, VList b => cast_if (@list_eq_dec _ go a b)
    | VNull, VNull => left _
    | VBytes a, VBytes b => cast_if (decide (a = b))
    | VBigInt a, VBigInt b => cast_if (decide (a = b))
    | _, _ => right _
    end); clear go; abstract congruence.
Defined.

Lemma Value_nested_ind (P : Value -> Prop) :
  (forall s, P (VString s)) -> (forall i, P (VInt i)) -> (forall d, P (VBigDecimal d)) ->
  (forall b, P (VBool b)) -> (forall l, Forall P l -> P (VList l)) -> P VNull ->
  (forall b, P (VBytes b)) -> (forall n, P (VBigInt n)) -> forall v, P v.
Proof.
  intros HS HI HD HB HL HN HY HG. fix IH 1.
  intros [s|i|d|b|l| |b|n];
    [apply HS|apply HI|apply HD|apply HB| |apply HN|apply HY|apply HG].
  apply HL. induction l; constructor; auto.
Qed.

Definition as_string (v : Value) : option string :=
  match v with VString s => Some s | _ => None end.
Definition is_string (v : Value) : bool := match v with VString _ => true | _ => false end.
Definition as_int (v : Value) : option Z := match v with VInt i => Some i | _ => None end.
Definition as_big_decimal (v : Value) : option bigdecimal :=
  match v with VBigDecimal d => Some d | _ => None end.
Definition as_bool (v : Value) : option bool := match v with VBool b => Some b | _ => None end.
Definition as_value_list (v : Value) : option (list Value) :=
  match v with VList l => Some l | _ => None end.
Definition as_bytes (v : Value) : option Bytes := match v with VBytes b => Some b | _ => None end.
Definition as_bigint (v : Value) : option Z := match v with VBigInt n => Some n | _ => None end.

Fixpoint type_name (v : Value) : string :=
  match v with
  | VBigDecimal _ => "BigDecimal"
  | VBigInt _ => "BigInt"
  | VBool _ => "Boolean"
  | VBytes _ => "Bytes"
  | VInt _ => "Int"
  | VList values =>
      match values with
      | v :: _ => "[" +:+ type_name v +:+ "]"
      | [] => "[Any]"
      end
  | VNull => "Null"
  | VString _ => "String"
  end.

Fixpoint is_assignable (v : Value) (scalar_type : ValueType) (is_list : bool) : bool :=
  match v, scalar_type with
  | VString _, TString
  | VBigDecimal _, TBigDecimal
  | VBigInt _, TBigInt
  | VBool _, TBoolean
  | VBytes _, TBytes
  | VInt _, TInt
  | VNull, _ => true
  | VList values, _ =>
      if is_list then List.forallb (fun value => is_assignable value scalar_type false) values
      else false
  | _, _ => false
  end.

Inductive BigIntConversionError := ValueIsNotBigInt.

(** [TryFrom<Value> for Option<BigInt>] *)
Definition value_to_opt_bigint (v : Value) : result BigIntConversionError (option Z) :=
  match v with
  | VBigInt n => Ok (Some n)
  | VNull => Ok None
  | _ => Err ValueIsNotBigInt
  end.

Section Conversions.
  Context `{Hex} `{NumBigint} `{BigDecimalLib}.
  (** Printing and parsing of numbers by [num_bigint] and [bigdecimal]. *)
  Variable bigdecimal_to_string : bigdecimal -> string.
  Variable bigdecimal_parse : string -> option bigdecimal.
  Variable bigint_parse : string -> option Z.

(** [Display for Value] *)
Fixpoint value_to_string (v : Value) : string :=
  match v with
  | VString s => s
  | VInt i => pretty i
  | VBigDecimal d => bigdecimal_to_string d
  | VBool b => if b then "true" else "false"
  | VNull => "null"
  | VList values => "[" +:+ join ", " (map value_to_string values) +:+ "]"
  | VBytes bytes => bytes_to_string bytes
  | VBigInt number => pretty number
  end.

(** [From<Value> for q::Value] *)
Fixpoint value_to_q (v : Value) : qValue :=
  match v with
  | VString s => QString s
  | VInt i => QInt i
  | VBigDecimal d => QString (bigdecimal_to_string d)
  | VBool b => QBoolean b
  | VNull => QNull
  | VList values => QList (map value_to_q values)
  | VBytes bytes => QString (bytes_to_string bytes)
  | VBigInt number => QString (pretty number)
  end.

(** [From<Value> for r::Value] *)
Fixpoint value_to_r (v : Value) : rValue :=
  match v with
  | VString s => RString s
  | VInt i => RInt i
  | VBigDecimal d => RString (bigdecimal_to_string d)
  | VBool b => RBoolean b
  | VNull => RNull
  | VList values => RList (map value_to_r values)
  | VBytes bytes => RString (bytes_to_string bytes)
  | VBigInt number => RString (pretty number)
  end.

Inductive QueryValueError :=
| HexError (e : FromHexError)
| BigIntParseError (s : string)
| BigDecimalParseError (s : string)
| AttributeTypeError (value : rValue) (ty : sType).

Definition from_query_scalar (s n : string) : result QueryValueError Value :=
  if decide (n = BYTES_SCALAR) then
    let? b := map_err HexError (bytes_from_str s) in Ok (VBytes b)
  else if decide (n = BIG_INT_SCALAR) then
    let? z := ok_or (BigIntParseError s) (bigint_parse s) in Ok (VBigInt z)
  else if decide (n = BIG_DECIMAL_SCALAR) then
    let? d := ok_or (BigDecimalParseError s) (bigdecimal_parse s) in
    let? d := bigdecimal_normalized d in
    Ok (VBigDecimal d)
  else Ok (VString s).

(** [Value::from_query_value]: recursion follows the type under [NonNullType]
    and the value under lists. *)
Fixpoint from_query_value (value : rValue) (ty : sType) {struct value}
  : result QueryValueError Value :=
  let fix at_type (ty : sType) : result QueryValueError Value :=
    match ty with
    | NonNullType t => at_type t
    | ListType ty' =>
        match value with
        | RList values =>
            let? vs := try_map (fun v => from_query_value v ty') values in Ok (VList vs)
        | RInt i => Ok (VInt (wrap_i32 i))
        | RBoolean b => Ok (VBool b)
        | RNull => Ok VNull
        | _ => Err (AttributeTypeError value ty)
        end
    | NamedType n =>
        match value with
        | RList values =>
            let? vs := try_map (fun v => from_query_value v (NamedType n)) values in Ok (VList vs)
        | REnum e => Ok (VString e)
        | RString s => from_query_scalar s n
        | RInt i => Ok (VInt (wrap_i32 i))
        | RBoolean b => Ok (VBool b)
        | RNull => Ok VNull
        | _ => Err (AttributeTypeError value ty)
        end
    end in
  at_type ty.
End Conversions.

(** ** [Entity] *)

Abbreviation Entity := (gmap string Value).

Definition entity_new : Entity := ∅.
Definition entity_get (e : Entity) (key : string) : option Value := e !! key.
Definition entity_insert (e : Entity) (key : string) (v : Value) : Entity := <[key := v]> e.
Definition entity_remove (e : Entity) (key : string) : Entity := delete key e.
Definition entity_contains_key (e : Entity) (key : string) : bool :=
  bool_decide (is_Some (e !! key)).
Definition entity_set (e : Entity) (name : string) (v : Value) : Entity := <[name := v]> e.

(** [sorted]: the entries by attribute name. *)
Definition entity_sorted (e : Entity) : list (string * Value) :=
  merge_sort (fun kv1 kv2 => String.le kv1.1 kv2.1) (map_to_list e).

Inductive EntityIdError := MissingId | NonStringId.

Definition entity_id `{Hex} (e : Entity) : result EntityIdError string :=
  match entity_get e "id" with
  | None => Err MissingId
  | Some (VString s) => Ok s
  | Some (VBytes b) => Ok (bytes_to_string b)
  | Some _ => Err NonStringId
  end.

(** The loops of [merge] and [merge_remove_null_fields] run over a [HashMap],
    in an order the language leaves open; here it is that of [map_fold]. *)
Definition merge (e update : Entity) : Entity :=
  map_fold (fun key value e => entity_insert e key value) e update.

Definition merge_null_step (key : string) (value : Value) (e : Entity) : Entity :=
  match value with
  | VNull => entity_remove e key
  | _ => entity_insert e key value
  end.

Definition merge_remove_null_fields (e update : Entity) : Entity :=
  map_fold merge_null_step e update.

(** ** Equality of values

    [PartialEq for Value] compares decimals as numbers, so it is coarser than
    the equality of representations. *)

#[export] Instance bigdecimal_eq_decision d1 d2 : Decision (bigdecimal_eq d1 d2).
Proof. unfold bigdecimal_eq. apply _. Defined.

Fixpoint value_eqb (v1 v2 : Value) {struct v1} : bool :=
  let fix list_eqb (l1 l2 : list Value) {struct l1} : bool :=
    match l1, l2 with
    | [], [] => true
    | x1 :: l1, x2 :: l2 => value_eqb x1 x2 && list_eqb l1 l2
    | _, _ => false
    end in
  match v1, v2 with
  | VString a, VString b => bool_decide (a = b)
  | VInt a, VInt b => bool_decide (a = b)
  | VBigDecimal a, VBigDecimal b => bool_decide (bigdecimal_eq a b)
  | VBool a, VBool b => bool_decide (a = b)
  | VList a, VList b => list_eqb a b
  | VNull, VNull => true
  | VBytes a, VBytes b => bool_decide (a = b)
  | VBigInt a, VBigInt b => bool_decide (a = b)
  | _, _ => false
  end.

#[export] Instance value_equiv : Equiv Value := fun v1 v2 => value_eqb v1 v2 = true.

#[export] Instance value_equiv_dec (v1 v2 : Value) : Decision (v1 ≡ v2).
Proof. unfold equiv, value_equiv. apply _. Defined.

Lemma value_equiv_list (l1 l2 : list Value) : VList l1 ≡ VList l2 <-> Forall2 (≡) l1 l2.
Proof.
  unfold equiv, value_equiv at 1. cbn [value_eqb]. revert l2.
  induction l1 as [|x l1 IH]; intros [|y l2]; split; intros H; try done; try (by inversion H).
  - apply andb_true_iff in H as [? ?]. constructor; [done|]. by apply IH.
  - inversion H; subst. apply andb_true_iff. split; [done|]. by apply IH.
Qed.

(** Equality of everything but lists is by cases. *)
Lemma value_equiv_inv v1 v2 :
  v1 ≡ v2 <->
  match v1, v2 with
  | VList l1, VList l2 => Forall2 (≡) l1 l2
  | VBigDecimal a, VBigDecimal b => bigdecimal_eq a b
  | VList _, _ | VBigDecimal _, _ => False
  | _, _ => v1 = v2
  end.
Proof.
  destruct v1, v2; try apply value_equiv_list;
    unfold equiv, value_equiv; cbn [value_eqb]; rewrite ?bool_decide_eq_true;
    (split; [|by intros [=] || done]); try congruence; by intros.
Qed.

#[export] Instance value_equivalence : Equivalence (≡@{Value}).
Proof.
  split.
  - intros v. induction v as [| | | |l IH| | |] using Value_nested_ind; apply value_equiv_inv;
      try done. by apply Forall_Forall2_diag.
  - intros v. induction v as [| | | |l IH| | |] using Value_nested_ind; intros v2 H;
      apply value_equiv_inv in H; destruct v2 as [| | | |l2| | |]; try (by inversion H); try done;
      apply value_equiv_inv; try done.
    apply Forall2_flip. revert IH.
    induction H as [|a b la lb Hab H IHl]; intros IH; constructor;
      inversion IH; subst; [naive_solver|]. by apply IHl.
  - intros v. induction v as [| | | |l IH| | |] using Value_nested_ind; intros v2 v3 H12 H23;
      apply value_equiv_inv in H12; destruct v2 as [| | | |l2| | |]; try (by inversion H12);
      apply value_equiv_inv in H23; destruct v3 as [| | | |l3| | |]; try (by inversion H23);
      apply value_equiv_inv; try congruence.
    + by etrans.
    + revert l3 H23. revert IH. induction H12 as [|a b la lb Hab H IHl]; intros IH l3 H3;
        inversion H3; subst; constructor; inversion IH; subst; [naive_solver|]. by eapply IHl.
Qed.

(** A value other than a list or a decimal equals only itself; in particular
    equality preserves being null. *)
Lemma value_equiv_null v : v ≡ VNull <-> v = VNull.
Proof. rewrite value_equiv_inv. by destruct v. Qed.

Definition entity_eqb (e1 e2 : Entity) : bool :=
  bool_decide (map_relation (M:=gmap string) (fun _ v1 v2 => v1 ≡ v2) (fun _ _ => False)
                 (fun _ _ => False) e1 e2).

Lemma entity_eqb_true e1 e2 : entity_eqb e1 e2 = true <-> e1 ≡ e2.
Proof.
  unfold entity_eqb. rewrite bool_decide_eq_true, map_equiv_iff. unfold map_relation, option_relation.
  split; intros H i; specialize (H i); destruct (e1 !! i), (e2 !! i); try done;
    try by constructor. all: by inversion H.
Qed.

Lemma entity_eqb_false e1 e2 : entity_eqb e1 e2 = false <-> ~ e1 ≡ e2.
Proof. rewrite <-entity_eqb_true. by destruct (entity_eqb e1 e2). Qed.

Lemma entity_eqb_refl e : entity_eqb e e = true.
Proof. by apply entity_eqb_true. Qed.

(** ** Merging *)

Lemma merge_lookup e u k :
  merge e u !! k = match u !! k with Some v => Some v | None => e !! k end.
Proof.
  unfold merge, entity_insert. revert k.
  apply (map_fold_weak_ind (fun (r : Entity) (u : gmap string Value) =>
    forall k, r !! k = match u !! k with Some v => Some v | None => e !! k end)).
  - intros k. by rewrite lookup_empty.
  - intros i v m r Hi IH k. destruct (decide (i = k)) as [->|];
      [by rewrite !lookup_insert_eq|by rewrite !lookup_insert_ne, IH].
Qed.

Lemma merge_union e u : merge e u = u ∪ e.
Proof.
  apply map_eq. intros k. rewrite merge_lookup, lookup_union.
  by destruct (u !! k), (e !! k).
Qed.

Definition null_override (upd old : option Value) : option Value :=
  match upd with
  | Some VNull => None
  | Some v => Some v
  | None => old
  end.

Lemma merge_null_step_lookup i v r k :
  merge_null_step i v r !! k = if decide (i = k) then null_override (Some v) (r !! k) else r !! k.
Proof.
  unfold merge_null_step, entity_remove, entity_insert.
  case_decide as Hi; [subst|]; destruct v; simpl;
    by rewrite ?lookup_insert_eq, ?lookup_delete_eq, ?lookup_insert_ne, ?lookup_delete_ne by done.
Qed.

Lemma merge_remove_null_fields_lookup e u k :
  merge_remove_null_fields e u !! k = null_override (u !! k) (e !! k).
Proof.
  unfold merge_remove_null_fields. revert k.
  apply (map_fold_weak_ind (fun (r : Entity) (u : gmap string Value) =>
    forall k, r !! k = null_override (u !! k) (e !! k))).
  - intros k. by rewrite lookup_empty.
  - intros i v m r Hi IH k. rewrite merge_null_step_lookup. destruct (decide (i = k)) as [->|].
    + rewrite lookup_insert_eq, IH, Hi. by destruct v.
    + by rewrite lookup_insert_ne.
Qed.

#[export] Hint Rewrite merge_lookup merge_remove_null_fields_lookup : entity.

(** [e] with its null attributes dropped, and equality of entities up to such
    attributes. *)
Definition drop_nulls (e : Entity) : Entity := merge_remove_null_fields entity_new e.

Lemma drop_nulls_lookup e k : drop_nulls e !! k = null_override (e !! k) None.
Proof. unfold drop_nulls, entity_new. by rewrite merge_remove_null_fields_lookup, lookup_empty. Qed.

Lemma drop_nulls_merge e u :
  drop_nulls (merge e u) = drop_nulls (merge_remove_null_fields e u).
Proof.
  apply map_eq. intros k.
  rewrite !drop_nulls_lookup, merge_lookup, merge_remove_null_fields_lookup.
  by destruct (u !! k) as [[]|].
Qed.
