(* ===== verification/StoreTypes.v ===== *)
(** * Keys, queries, operations and events of the store interface

    [graph/src/components/store/mod.rs], with [SubscriptionFilter] and the
    assignment events of [graph/src/data/store/mod.rs]. *)

From S2P Require Import Prelude GraphqlAst Scalars RuntimeValue Values.

(** ** Keys *)

Abbreviation DeploymentHash := string (only parsing).
Abbreviation EntityType := string (only parsing).
Abbreviation Attribute := string (only parsing).
Abbreviation BlockNumber := Z (only parsing).

Definition is_poi (t : EntityType) : bool := bool_decide (t = "Poi$").

Definition BLOCK_NUMBER_MAX : BlockNumber := i32_max.

Record BlockPtr := mkPtr { bp_hash : Bytes; bp_number : BlockNumber }.

#[export] Instance BlockPtr_eq_dec : EqDecision BlockPtr.
Proof. solve_decision. Defined.

Record SubgraphError := mkError {
  err_subgraph_id : DeploymentHash;
  err_message : string;
  err_block_ptr : option BlockPtr;
  err_handler : option string;
  err_deterministic : bool
}.

Record EntityKey := mkKey {
  subgraph_id : DeploymentHash; entity_type : EntityType; key_entity_id : string
}.

Definition entity_key_data (subgraph_id : DeploymentHash) (ty id : string) : EntityKey :=
  mkKey subgraph_id ty id.

#[export] Instance EntityKey_eq_dec : EqDecision EntityKey.
Proof. solve_decision. Defined.

#[export, refine] Instance EntityKey_countable : Countable EntityKey :=
  inj_countable' (fun k => (subgraph_id k, entity_type k, key_entity_id k))
    (fun '(s, t, i) => mkKey s t i) _.
Proof. by intros []. Defined.

(** ** Filters *)

Inductive EntityFilter :=
| FAnd (fs : list EntityFilter)
| FOr (fs : list EntityFilter)
| FEqual (a : Attribute) (v : Value)
| FNot (a : Attribute) (v : Value)
| FGreaterThan (a : Attribute) (v : Value)
| FLessThan (a : Attribute) (v : Value)
| FGreaterOrEqual (a : Attribute) (v : Value)
| FLessOrEqual (a : Attribute) (v : Value)
| FIn (a : Attribute) (vs : list Value)
| FNotIn (a : Attribute) (vs : list Value)
| FContains (a : Attribute) (v : Value)
| FContainsNoCase (a : Attribute) (v : Value)
| FNotContains (a : Attribute) (v : Value)
| FNotContainsNoCase (a : Attribute) (v : Value)
| FStartsWith (a : Attribute) (v : Value)
| FStartsWithNoCase (a : Attribute) (v : Value)
| FNotStartsWith (a : Attribute) (v : Value)
| FNotStartsWithNoCase (a : Attribute) (v : Value)
| FEndsWith (a : Attribute) (v : Value)
| FEndsWithNoCase (a : Attribute) (v : Value)
| FNotEndsWith (a : Attribute) (v : Value)
| FNotEndsWithNoCase (a : Attribute) (v : Value)
| FChangeBlockGte (b : BlockNumber).

Definition new_equal (name : Attribute) (value : Value) : EntityFilter := FEqual name value.
Definition new_in (name : Attribute) (values : list Value) : EntityFilter := FIn name values.

Definition and_maybe (self : EntityFilter) (other : option EntityFilter) : EntityFilter :=
  match other with
  | Some other =>
      match self, other with
      | FAnd fs1, FAnd fs2 => FAnd (fs1 ++ fs2)
      | FAnd fs1, f2 => FAnd (fs1 ++ [f2])
      | f1, FAnd fs2 => FAnd (fs2 ++ [f1])
      | f1, f2 => FAnd [f1; f2]
      end
  | None => self
  end.

(** ** Attribute names *)

Inductive AttributeNames :=
| AttrAll
| AttrSelect (names : gset string).

Definition is_meta_field (field_name : string) : bool := starts_with "__" field_name.

Definition attr_insert (self : AttributeNames) (column_name : string) : AttributeNames :=
  match self with
  | AttrAll => AttrSelect {[column_name]}
  | AttrSelect set => AttrSelect ({[column_name]} ∪ set)
  end.

Definition attr_update (self : AttributeNames) (field_name : string) : AttributeNames :=
  if is_meta_field field_name then self else attr_insert self field_name.
Definition attr_add_str (self : AttributeNames) (field_name : string) : AttributeNames :=
  if is_meta_field field_name then self else attr_insert self field_name.

Definition attr_extend {E} (self other : AttributeNames) : result E AttributeNames :=
  match self, other with
  | AttrAll, AttrAll => Ok self
  | AttrAll, AttrSelect _ => Ok other
  | AttrSelect _, AttrAll => Panic
  | AttrSelect a, AttrSelect b => Ok (AttrSelect (a ∪ b))
  end.

(** ** Queries *)

Inductive EntityOrder :=
| Ascending (a : string) (t : ValueType)
| Descending (a : string) (t : ValueType)
| DefaultOrder
| Unordered.

Record EntityRange := mkRange { range_first : option Z; range_skip : Z }.

Definition entity_range_first (n : Z) : EntityRange := mkRange (Some n) 0.

Inductive WindowAttribute :=
| WScalar (name : string)
| WList (name : string).

Definition window_attribute_name (w : WindowAttribute) : string :=
  match w with WScalar name => name | WList name => name end.

Inductive ParentLink :=
| PLList (ids : list (list string))
| PLScalar (ids : list string).

Inductive ChildMultiplicity := Single | Many.

Inductive EntityLink :=
| Direct (a : WindowAttribute) (m : ChildMultiplicity)
| Parent (l : ParentLink).

Record EntityWindow := mkWindow {
  child_type : EntityType; ids : list string; link : EntityLink; column_names : AttributeNames
}.

Inductive EntityCollection :=
| CAll (pairs : list (EntityType * AttributeNames))
| CWindow (windows : list EntityWindow).

(** [entity_types_and_column_names]; extending a selection with [All] is
    unreachable in the source and panics. *)
Definition entity_types_and_column_names {E} (c : EntityCollection)
  : result E (gmap EntityType AttributeNames) :=
  match c with
  | CAll pairs => Ok (foldl (fun m '(t, names) => <[t := names]> m) ∅ pairs)
  | CWindow windows =>
      try_fold (fun m w =>
        match m !! child_type w with
        | Some names =>
            let? names := attr_extend names (column_names w) in
            Ok (<[child_type w := names]> m)
        | None => Ok (<[child_type w := column_names w]> m)
        end) ∅ windows
  end.

Record EntityQuery := mkQuery {
  q_subgraph_id : DeploymentHash; q_block : BlockNumber; q_collection : EntityCollection;
  q_filter : option EntityFilter; q_order : EntityOrder; q_range : EntityRange;
  q_query_id : option string
}.

Definition query_new (subgraph_id : DeploymentHash) (block : BlockNumber)
    (collection : EntityCollection) : EntityQuery :=
  mkQuery subgraph_id block collection None DefaultOrder (entity_range_first 100) None.

Definition query_filter (q : EntityQuery) (f : EntityFilter) : EntityQuery :=
  mkQuery (q_subgraph_id q) (q_block q) (q_collection q) (Some f) (q_order q) (q_range q)
    (q_query_id q).
Definition query_order (q : EntityQuery) (o : EntityOrder) : EntityQuery :=
  mkQuery (q_subgraph_id q) (q_block q) (q_collection q) (q_filter q) o (q_range q) (q_query_id q).
Definition query_range (q : EntityQuery) (r : EntityRange) : EntityQuery :=
  mkQuery (q_subgraph_id q) (q_block q) (q_collection q) (q_filter q) (q_order q) r (q_query_id q).
Definition query_first (q : EntityQuery) (n : Z) : EntityQuery :=
  query_range q (mkRange (Some n) (range_skip (q_range q))).
Definition query_skip (q : EntityQuery) (n : Z) : EntityQuery :=
  query_range q (mkRange (range_first (q_range q)) n).

Definition simplify (q : EntityQuery) : EntityQuery :=
  match q_collection q with
  | CWindow [window] =>
      match ids window, link window with
      | [id], Direct attribute _ =>
          let filter :=
            match attribute with
            | WScalar name => FEqual name (VString id)
            | WList name => FContains name (VList [VString id])
            end in
          mkQuery (q_subgraph_id q) (q_block q)
            (CAll [(child_type window, column_names window)])
            (Some (and_maybe filter (q_filter q))) (q_order q) (q_range q) (q_query_id q)
      | _, _ => q
      end
  | _ => q
  end.

(** ** Changes and events *)

Inductive EntityChangeOperation := OpSet | OpRemoved.

Record DeploymentLocator := mkLocator { loc_id : Z; loc_hash : DeploymentHash }.

Inductive EntityChange :=
| ChangeData (subgraph_id : DeploymentHash) (entity_type : EntityType)
| ChangeAssignment (deployment : DeploymentLocator) (operation : EntityChangeOperation).

#[export] Instance EntityChangeOperation_eq_dec : EqDecision EntityChangeOperation.
Proof. solve_decision. Defined.
#[export] Instance DeploymentLocator_eq_dec : EqDecision DeploymentLocator.
Proof. solve_decision. Defined.
#[export] Instance EntityChange_eq_dec : EqDecision EntityChange.
Proof. solve_decision. Defined.

#[export, refine] Instance EntityChange_countable : Countable EntityChange :=
  inj_countable' (fun c => match c with
    | ChangeData s t => inl (s, t)
    | ChangeAssignment d o =>
        inr (loc_id d, loc_hash d, match o with OpSet => true | OpRemoved => false end)
    end)
    (fun x => match x with
    | inl (s, t) => ChangeData s t
    | inr (i, h, b) => ChangeAssignment (mkLocator i h) (if b : bool then OpSet else OpRemoved)
    end) _.
Proof. by intros [s t|[i h] []]. Defined.

Inductive SubscriptionFilter :=
| SubEntities (eid : DeploymentHash) (etype : EntityType)
| SubAssignment.

Definition subscription_matches (self : SubscriptionFilter) (change : EntityChange) : bool :=
  match self, change with
  | SubEntities eid etype, ChangeData subgraph_id entity_type =>
      bool_decide (subgraph_id = eid) && bool_decide (entity_type = etype)
  | SubAssignment, ChangeAssignment _ _ => true
  | _, _ => false
  end.

Definition change_for_data (key : EntityKey) : EntityChange :=
  ChangeData (subgraph_id key) (entity_type key).
Definition change_for_assignment (d : DeploymentLocator) (op : EntityChangeOperation)
  : EntityChange := ChangeAssignment d op.

Definition change_as_filter (c : EntityChange) : SubscriptionFilter :=
  match c with
  | ChangeData subgraph_id entity_type => SubEntities subgraph_id entity_type
  | ChangeAssignment _ _ => SubAssignment
  end.

Inductive AssignmentEvent :=
| AssignAdd (deployment : DeploymentLocator) (node_id : string)
| AssignRemove (deployment : DeploymentLocator) (node_id : string).

Definition assignment_node_id (e : AssignmentEvent) : string :=
  match e with AssignAdd _ n => n | AssignRemove _ n => n end.

Inductive EntityOperation :=
| OperationSet (key : EntityKey) (data : Entity)
| OperationRemove (key : EntityKey).

Inductive EntityModification :=
| ModInsert (key : EntityKey) (data : Entity)
| ModOverwrite (key : EntityKey) (data : Entity)
| ModRemove (key : EntityKey).

Definition mod_entity_key (m : EntityModification) : EntityKey :=
  match m with ModInsert key _ | ModOverwrite key _ | ModRemove key => key end.
Definition mod_entity (m : EntityModification) : option Entity :=
  match m with ModInsert _ data | ModOverwrite _ data => Some data | ModRemove _ => None end.
Definition mod_is_remove (m : EntityModification) : bool :=
  match m with ModRemove _ => true | _ => false end.

(** [tag] is drawn from a global counter that plays no role in equality; the
    functions that create events take it as an argument. *)
Record StoreEvent := mkEvent { ev_tag : Z; ev_changes : gset EntityChange }.

Definition store_event_new (tag : Z) (changes : list EntityChange) : StoreEvent :=
  mkEvent tag (list_to_set changes).

Definition store_event_from_mods (tag : Z) (mods : list EntityModification) : StoreEvent :=
  store_event_new tag (map (fun op => change_for_data (mod_entity_key op)) mods).

Definition event_accumulate (ev1 : option StoreEvent) (ev2 : StoreEvent) : option StoreEvent :=
  match ev1 with
  | Some e => Some (mkEvent (ev_tag e) (ev_changes e ∪ ev_changes ev2))
  | None => Some ev2
  end.

Definition event_extend (self other : StoreEvent) : StoreEvent :=
  mkEvent (ev_tag self) (ev_changes self ∪ ev_changes other).

Definition event_matches (self : StoreEvent) (filters : list SubscriptionFilter) : bool :=
  existsb (fun change => existsb (fun filter => subscription_matches filter change) filters)
    (elements (ev_changes self)).

Definition event_eqb (e1 e2 : StoreEvent) : bool := bool_decide (ev_changes e1 = ev_changes e2).

Definition filter_by_entities (source : list StoreEvent) (filters : list SubscriptionFilter)
  : list StoreEvent :=
  List.filter (fun event => event_matches event filters) source.

(** ** Throttled event streams *)

(** What polling the source stream gives *)
Inductive SourcePoll :=
| NotReady
| Done
| Event (e : StoreEvent)
| SourceErr.

Record Throttle := mkThrottle { pending_event : option StoreEvent; had_err : bool }.

(** The answer of one poll of the throttled stream *)
Inductive ThrottlePoll := PollNotReady | PollReady (e : option StoreEvent) | PollErr.

(** The loop over the source; [source] lists what its next polls give, and a
    source with nothing left to give is not ready. *)
Fixpoint throttle_loop (should_send : bool) (pending : option StoreEvent)
    (source : list SourcePoll) : ThrottlePoll * Throttle * list SourcePoll :=
  match source with
  | [] | NotReady :: _ =>
      let rest := tail source in
      match pending with
      | Some e =>
          if should_send then (PollReady (Some e), mkThrottle None false, rest)
          else (PollNotReady, mkThrottle pending false, rest)
      | None => (PollNotReady, mkThrottle None false, rest)
      end
  | Done :: _ => (PollReady pending, mkThrottle None false, source)
  | Event e :: rest => throttle_loop should_send (event_accumulate pending e) rest
  | SourceErr :: rest =>
      match pending with
      | Some e => (PollReady (Some e), mkThrottle None true, rest)
      | None => (PollErr, mkThrottle None false, rest)
      end
  end.

(** The poll function of [throttle_while_syncing]; [delay_ready] says whether
    the interval has passed. *)
Definition throttle_poll (synced delay_ready : bool) (st : Throttle) (source : list SourcePoll)
  : ThrottlePoll * Throttle * list SourcePoll :=
  if had_err st then (PollErr, mkThrottle (pending_event st) false, source)
  else if synced then
    match source with
    | [] => (PollNotReady, st, source)
    | NotReady :: rest => (PollNotReady, st, rest)
    | Done :: _ => (PollReady None, st, source)
    | Event e :: rest => (PollReady (Some e), st, rest)
    | SourceErr :: rest => (PollErr, st, rest)
    end
  else throttle_loop delay_ready (pending_event st) source.

(** ** Accumulated operations *)

Inductive EntityOp :=
| OpRemove
| OpUpdate (e : Entity)
| OpOverwrite (e : Entity).

Definition apply_to (op : EntityOp) (entity : option Entity) : option Entity :=
  match op, entity with
  | OpRemove, _ => None
  | OpOverwrite new, _ | OpUpdate new, None => Some new
  | OpUpdate updates, Some entity => Some (merge_remove_null_fields entity updates)
  end.

Definition op_accumulate (self next : EntityOp) : EntityOp :=
  match next with
  | OpRemove | OpOverwrite _ => next
  | OpUpdate update =>
      match self with
      | OpRemove => OpOverwrite update
      | OpUpdate current => OpUpdate (merge current update)
      | OpOverwrite current => OpOverwrite (merge current update)
      end
  end.
