(* ===== verification/StoreProps.v ===== *)
(** * Properties of the store's query and event types

    Meaning-preserving rewriting of queries ([and_maybe], [simplify]), events
    derived from modifications, the throttled event stream, and the algebra of
    accumulated operations. *)

From S2P Require Import Prelude GraphqlAst Scalars RuntimeValue Values StoreTypes.

(** ** Entities up to null attributes

    A null attribute and a missing one are the same to a reader of an entity,
    and [__typename] is no attribute at all. *)

Definition attr (e : Entity) (k : string) : option Value :=
  if decide (k = "__typename") then None else null_override (e !! k) None.

Definition same_attrs : relation Entity := fun e1 e2 => forall k, attr e1 k ≡ attr e2 k.

#[export] Instance same_attrs_equivalence : Equivalence same_attrs.
Proof.
  split.
  - intros e k. done.
  - intros e1 e2 H k. symmetry. apply H.
  - intros e1 e2 e3 H12 H23 k. etrans; [apply H12|apply H23].
Qed.

Lemma attr_merge_nulls e u k :
  attr (merge_remove_null_fields e u) k =
  match u !! k with Some v => attr u k | None => attr e k end.
Proof.
  unfold attr. case_decide; [by destruct (u !! k)|].
  rewrite merge_remove_null_fields_lookup. by destruct (u !! k) as [[]|].
Qed.

Lemma attr_merge e u k :
  attr (merge e u) k = match u !! k with Some v => attr u k | None => attr e k end.
Proof.
  unfold attr. case_decide; [by destruct (u !! k)|].
  rewrite merge_lookup. by destruct (u !! k) as [[]|].
Qed.

Lemma merge_nulls_sim e u : same_attrs (merge_remove_null_fields e u) (merge e u).
Proof. intros k. by rewrite attr_merge_nulls, attr_merge. Qed.

#[export] Instance merge_nulls_proper :
  Proper (same_attrs ==> eq ==> same_attrs) merge_remove_null_fields.
Proof.
  intros e1 e2 He u ? <- k. rewrite !attr_merge_nulls. by destruct (u !! k).
Qed.

Lemma drop_nulls_sim e : same_attrs (drop_nulls e) e.
Proof.
  intros k. unfold attr. case_decide; [done|]. rewrite drop_nulls_lookup.
  by destruct (e !! k) as [[]|].
Qed.

Lemma entity_eqb_sim e1 e2 : entity_eqb e1 e2 = true -> same_attrs e1 e2.
Proof.
  rewrite entity_eqb_true, map_equiv_iff. intros H k. unfold attr. case_decide; [done|].
  specialize (H k). inversion H as [x y Hxy Hx Hy|]; [|done].
  destruct (decide (x = VNull)) as [->|Hne].
  - symmetry in Hxy. apply value_equiv_null in Hxy as ->. done.
  - assert (y <> VNull) by (intros ->; by apply value_equiv_null in Hxy).
    destruct x, y; try done; by constructor.
Qed.

(** Optional entities, as the store and the caches give them *)
Definition osim : relation (option Entity) := option_Forall2 same_attrs.

#[export] Instance osim_equivalence : Equivalence osim.
Proof. unfold osim. split; apply _. Qed.

#[export] Instance Some_sim : Proper (same_attrs ==> osim) Some.
Proof. intros e1 e2 He. by constructor. Qed.

#[export] Instance apply_to_proper : Proper (eq ==> osim ==> osim) apply_to.
Proof.
  intros op ? <- o1 o2 Ho. destruct op as [|u|u], Ho as [e1 e2 He|]; simpl; try done.
  by constructor; apply merge_nulls_proper.
Qed.

(** ** Accumulation *)

Lemma op_accumulate_apply a b e :
  osim (apply_to (op_accumulate a b) e) (apply_to b (apply_to a e)).
Proof.
  destruct b as [|u|u]; [done| |done].
  destruct a as [|c|c], e as [x|]; simpl; constructor; try done; intros k;
    rewrite ?attr_merge_nulls, ?attr_merge; try (by destruct (u !! k)).
  rewrite merge_lookup. by destruct (u !! k); [|destruct (c !! k)].
Qed.

Lemma op_accumulate_assoc a b c :
  op_accumulate (op_accumulate a b) c = op_accumulate a (op_accumulate b c).
Proof.
  destruct c as [|u|u]; [done| |done].
  destruct b as [|v|v]; [done| |done]. destruct a; simpl; f_equal; rewrite !merge_union;
    by rewrite map_union_assoc.
Qed.

(** C35: accumulating operations into one and applying it once gives the entity
    that applying them one after the other gives, up to null attributes. *)
Theorem accumulate_sequence (op : EntityOp) (ops : list EntityOp) (e : option Entity) :
  osim (apply_to (foldl op_accumulate op ops) e)
       (foldl (fun e op => apply_to op e) (apply_to op e) ops).
Proof.
  assert (Hfold : forall ops o1 o2, osim o1 o2 ->
    osim (foldl (fun e op => apply_to op e) o1 ops) (foldl (fun e op => apply_to op e) o2 ops)).
  { intros l. induction l as [|b l IH]; intros o1 o2 Ho; [done|]. simpl.
    apply IH. by apply apply_to_proper. }
  revert op. induction ops as [|b ops IH]; intros op; simpl; [done|].
  etrans; [apply IH|]. apply Hfold, op_accumulate_apply.
Qed.

(** ** Filters and windows *)

Section Meaning.
  (** What the database makes of a comparison *)
  Context (atom_holds : EntityFilter -> Entity -> bool).

Fixpoint filter_holds (f : EntityFilter) (e : Entity) : bool :=
  match f with
  | FAnd fs => forallb (fun f => filter_holds f e) fs
  | FOr fs => existsb (fun f => filter_holds f e) fs
  | _ => atom_holds f e
  end.

Definition opt_filter_holds (f : option EntityFilter) (e : Entity) : bool :=
  match f with Some f => filter_holds f e | None => true end.

Lemma and_maybe_holds f other e :
  filter_holds (and_maybe f other) e = filter_holds f e && opt_filter_holds other e.
Proof.
  destruct other as [g|]; [|by rewrite andb_true_r]. cbn [and_maybe opt_filter_holds].
  destruct f; destruct g; cbn [filter_holds forallb];
    rewrite ?forallb_app; cbn [forallb]; rewrite ?andb_true_r; try done; apply andb_comm.
Qed.

(** A window takes the children of each parent id; [child_of w id e] says that
    [e] is a child of [id] under the attribute of [w]. *)
Definition child_of (a : WindowAttribute) (id : string) (e : Entity) : bool :=
  match a with
  | WScalar name => atom_holds (FEqual name (VString id)) e
  | WList name => atom_holds (FContains name (VList [VString id])) e
  end.

(** The groups of entities to which order and range of a query apply, for
    collections of entity types and windows with direct links. *)
Definition query_groups (entities : EntityType -> list Entity) (q : EntityQuery)
  : list (list Entity) :=
  match q_collection q with
  | CAll pairs =>
      [List.filter (opt_filter_holds (q_filter q)) (concat (map (fun p => entities p.1) pairs))]
  | CWindow windows =>
      concat (map (fun w => map (fun id =>
        List.filter (fun e => match link w with
                              | Direct a _ => child_of a id e
                              | Parent _ => false
                              end && opt_filter_holds (q_filter q) e)
          (entities (child_type w))) (ids w)) windows)
  end.

(** [simplify] turns a window with one parent id into a filter without
    changing the entities a query selects, how they are grouped, their order
    or the range. *)
Theorem simplify_same_groups entities q :
  query_groups entities (simplify q) = query_groups entities q /\
  q_order (simplify q) = q_order q /\ q_range (simplify q) = q_range q /\
  q_block (simplify q) = q_block q /\ q_subgraph_id (simplify q) = q_subgraph_id q.
Proof.
  unfold simplify. destruct (q_collection q) as [pairs|[|w [|]]] eqn:Hc; try done.
  destruct (ids w) as [|id [|]] eqn:Hids; try done.
  destruct (link w) as [a m|] eqn:Hl; try done.
  split; [|done]. unfold query_groups. rewrite Hc. cbn [q_collection q_filter map concat].
  rewrite Hids, Hl. cbn [map concat]. rewrite !app_nil_r. f_equal.
  apply List.filter_ext. intros e. cbn [opt_filter_holds fst]. rewrite and_maybe_holds.
  by destruct a.
Qed.
End Meaning.

(** ** Events *)

(** The event made from a block's modifications matches a set of filters
    exactly when one of the modifications touches the deployment and entity
    type of one of the filters. *)
Theorem event_from_mods_matches tag mods filters :
  event_matches (store_event_from_mods tag mods) filters = true <->
  exists m, m ∈ mods /\
    SubEntities (subgraph_id (mod_entity_key m)) (entity_type (mod_entity_key m)) ∈ filters.
Proof.
  unfold event_matches. rewrite existsb_exists. split.
  - intros (ch & Hch & Hf). rewrite existsb_exists in Hf. destruct Hf as (f & Hf & Hm).
    apply list_elem_of_In, elem_of_elements in Hch. cbn [ev_changes store_event_from_mods store_event_new] in Hch.
    apply elem_of_list_to_set, list_elem_of_fmap in Hch as (m & -> & Hmods).
    exists m. split; [done|]. destruct f as [eid et|]; [|done]. simpl in Hm.
    apply andb_true_iff in Hm as [H1%bool_decide_eq_true H2%bool_decide_eq_true].
    subst. by apply list_elem_of_In.
  - intros (m & Hm & Hf). exists (change_for_data (mod_entity_key m)). split.
    + apply list_elem_of_In, elem_of_elements, elem_of_list_to_set.
      by apply (list_elem_of_fmap_2 (fun op => change_for_data (mod_entity_key op))).
    + apply existsb_exists. eexists. split; [by apply list_elem_of_In|].
      simpl. by rewrite !bool_decide_true.
Qed.

(** *** The throttled stream *)

Definition opt_changes (e : option StoreEvent) : gset EntityChange :=
  match e with Some e => ev_changes e | None => ∅ end.

Definition source_changes (source : list SourcePoll) : gset EntityChange :=
  ⋃ (map (fun p => match p with Event e => ev_changes e | _ => ∅ end) source).

Definition poll_changes (p : ThrottlePoll) : gset EntityChange :=
  match p with PollReady e => opt_changes e | _ => ∅ end.

(** A number of polls, each told whether the interval has passed *)
Fixpoint throttle_run (synced : bool) (ready : list bool) (st : Throttle)
    (source : list SourcePoll) : list ThrottlePoll * Throttle * list SourcePoll :=
  match ready with
  | [] => ([], st, source)
  | r :: ready =>
      let '(p, st, source) := throttle_poll synced r st source in
      let '(ps, st, source) := throttle_run synced ready st source in
      (p :: ps, st, source)
  end.

Lemma event_accumulate_changes o e :
  opt_changes (event_accumulate o e) = opt_changes o ∪ ev_changes e.
Proof. destruct o; simpl; set_solver. Qed.

Lemma throttle_loop_changes should_send source pending :
  let '(p, st, rest) := throttle_loop should_send pending source in
  poll_changes p ∪ opt_changes (pending_event st) ∪ source_changes rest
  = opt_changes pending ∪ source_changes source.
Proof.
  revert pending. induction source as [|[| |e|] source IH]; intros pending; simpl.
  - destruct pending, should_send; unfold source_changes; simpl; set_solver.
  - destruct pending, should_send; unfold source_changes; simpl; set_solver.
  - unfold source_changes. simpl. set_solver.
  - specialize (IH (event_accumulate pending e)).
    destruct (throttle_loop _ _ _) as [[p st] rest]. rewrite IH, event_accumulate_changes.
    unfold source_changes. simpl. set_solver.
  - destruct pending; unfold source_changes; simpl; set_solver.
Qed.

Lemma throttle_poll_changes synced r st source :
  let '(p, st', rest) := throttle_poll synced r st source in
  poll_changes p ∪ opt_changes (pending_event st') ∪ source_changes rest
  = opt_changes (pending_event st) ∪ source_changes source.
Proof.
  unfold throttle_poll. destruct (had_err st); [simpl; set_solver|].
  destruct synced; [|apply throttle_loop_changes].
  destruct source as [|[| |e|] source]; unfold source_changes; simpl; set_solver.
Qed.

(** Throttling loses no change and invents none: after any number of polls
    the changes delivered, those pending and those still in the source are the
    changes the source had to give. *)
Theorem throttle_preserves_changes synced ready st source :
  let '(ps, st', rest) := throttle_run synced ready st source in
  ⋃ (map poll_changes ps) ∪ opt_changes (pending_event st') ∪ source_changes rest
  = opt_changes (pending_event st) ∪ source_changes source.
Proof.
  revert st source. induction ready as [|r ready IH]; intros st source; simpl; [set_solver|].
  pose proof (throttle_poll_changes synced r st source) as Hp.
  destruct (throttle_poll synced r st source) as [[p st1] rest1].
  specialize (IH st1 rest1). destruct (throttle_run synced ready st1 rest1) as [[ps st'] rest].
  simpl. set_solver.
Qed.
