(* ===== verification/Gas.v ===== *)
(** * Gas

    [graph/src/runtime/gas]: the cost of host functions, from the sizes of their
    arguments, and the counter that limits what one handler may use.

    A gas amount is a [u64] and all arithmetic on it saturates. [bits] of
    [num_bigint] is an interface. *)

From S2P Require Import Prelude Scalars Values StoreTypes.

(** ** Amounts *)

Definition u64_max : Z := u64_mod - 1.

Definition u64_saturating_add (a b : Z) : Z := Z.min u64_max (a + b).
Definition u64_saturating_mul (a b : Z) : Z := Z.min u64_max (a * b).
Definition u64_saturating_pow (a b : Z) : Z := Z.min u64_max (a ^ b).

Abbreviation GasAmount := Z.

Definition in_gas (g : GasAmount) : Prop := (0 <= g <= u64_max)%Z.

Definition gas_add (a b : GasAmount) : GasAmount := u64_saturating_add a b.
Definition gas_mul (a : GasAmount) (b : Z) : GasAmount := u64_saturating_mul a b.
Definition gas_add_assign (a b : GasAmount) : GasAmount := u64_saturating_add a b.
Definition gas_mul_assign (a : GasAmount) (b : Z) : GasAmount := u64_saturating_add a b.

Definition gas_sum (l : list GasAmount) : GasAmount := foldl gas_add_assign 0%Z l.

(** [SaturatingFrom<usize>], where [usize] has 64 bits *)
Definition gas_saturating_from (n : nat) : GasAmount := Z.min u64_max (Z.of_nat n).

(** ** How the sizes of two arguments combine *)

Inductive Complexity := Linear | Mul | Min | Max.

Definition gas_combine (c : Complexity) (lhs rhs : GasAmount) : GasAmount :=
  match c with
  | Linear => gas_add lhs rhs
  | Mul => u64_saturating_mul lhs rhs
  | Min => Z.min lhs rhs
  | Max => Z.max lhs rhs
  end.

Definition gas_combine3 (c : Complexity) (a b d : GasAmount) : GasAmount :=
  gas_combine c (gas_combine c a b) d.

Definition gas_exponential (a : GasAmount) (b : Z) : GasAmount := u64_saturating_pow a b.

Record GasOp := mkGasOp { base_cost : Z; size_mult : Z }.

Definition gas_with_args (op : GasOp) (size : GasAmount) : GasAmount :=
  gas_add (base_cost op) (gas_mul size (size_mult op)).

(** ** Costs *)

Definition GAS_PER_SECOND : Z := 10000000000.
Definition CONST_MAX_GAS_PER_HANDLER : Z := 1000 * GAS_PER_SECOND.
Definition HOST_EXPORT_GAS : GasAmount := 10000%Z.
Definition DEFAULT_BYTE_PER_SECOND : Z := 10000000.
Definition DEFAULT_GAS_PER_BYTE : Z := GAS_PER_SECOND / DEFAULT_BYTE_PER_SECOND.
Definition DEFAULT_BASE_COST : Z := 100000.
Definition DEFAULT_GAS_OP : GasOp := mkGasOp DEFAULT_BASE_COST DEFAULT_GAS_PER_BYTE.
Definition BIG_MATH_BYTE_PER_SECOND : Z := 100000000.
Definition BIG_MATH_GAS_PER_BYTE : Z := GAS_PER_SECOND / BIG_MATH_BYTE_PER_SECOND.
Definition BIG_MATH_GAS_OP : GasOp := mkGasOp DEFAULT_BASE_COST BIG_MATH_GAS_PER_BYTE.
Definition CREATE_DATA_SOURCE : GasAmount := (CONST_MAX_GAS_PER_HANDLER / 100000)%Z.
Definition LOG_OP : GasOp := mkGasOp (CONST_MAX_GAS_PER_HANDLER / 100000) DEFAULT_GAS_PER_BYTE.
Definition STORE_SET : GasOp :=
  mkGasOp (CONST_MAX_GAS_PER_HANDLER / 250000) (CONST_MAX_GAS_PER_HANDLER / 1000000000).
Definition STORE_GET : GasOp :=
  mkGasOp (CONST_MAX_GAS_PER_HANDLER / 10000000) (CONST_MAX_GAS_PER_HANDLER / 10000000000).
Definition STORE_REMOVE : GasOp := STORE_SET.

(** ** Sizes *)

(** The fewest bits that express the number, without the sign. *)
Class NumBits := {
  num_bits : Z -> Z;
  num_bits_bound z : (0 <= num_bits z)%Z /\ (Z.abs z < 2 ^ num_bits z)%Z;
  num_bits_least z b : (0 <= b)%Z -> (Z.abs z < 2 ^ b)%Z -> (num_bits z <= b)%Z
}.

Section Sizes.
Context `{HB : !NumBits}.

Definition gas_size_of_str (s : string) : GasAmount := gas_saturating_from (String.length s).

Definition gas_size_of_bytes (b : Bytes) : GasAmount := gas_mul 1 (gas_saturating_from (length b)).

Definition gas_size_of_bigint (n : Z) : GasAmount := Z.min u64_max (num_bits n / 8 + 1).

Definition gas_size_of_bigdecimal (d : bigdecimal) : GasAmount := gas_size_of_bigint (int_val d).

Definition gas_size_of_option {A} (size : A -> GasAmount) (o : option A) : GasAmount :=
  match o with Some v => gas_add 1 (size v) | None => 1%Z end.

(** [Vec<T>] where the elements have no constant size *)
Definition gas_size_of_vec (sizes : list GasAmount) : GasAmount :=
  gas_add (gas_add (gas_sum sizes) 16) (gas_saturating_from (length sizes)).

Fixpoint gas_size_of_value (v : Value) : GasAmount :=
  gas_add 4
    match v with
    | VBigDecimal d => gas_size_of_bigdecimal d
    | VString s => gas_size_of_str s
    | VNull => 1%Z
    | VList l => gas_size_of_vec (map gas_size_of_value l)
    | VInt _ => 4%Z
    | VBytes b => gas_size_of_bytes b
    | VBool _ => 1%Z
    | VBigInt n => gas_size_of_bigint n
    end.

(** [HashMap<String, Value>], in the order in which it is iterated *)
Definition gas_size_of_entries (entries : list (string * Value)) : GasAmount :=
  let members := gas_sum (map (fun kv => gas_add (gas_size_of_str kv.1) (gas_size_of_value kv.2)) entries) in
  gas_add (gas_add members 32) (gas_mul 8 (gas_saturating_from (length entries))).

Definition gas_size_of_entity (e : Entity) : GasAmount := gas_size_of_entries (map_to_list e).

Definition gas_size_of_key (key : EntityKey) : GasAmount :=
  gas_add (gas_add (gas_size_of_str (subgraph_id key)) (gas_size_of_str (entity_type key)))
    (gas_size_of_str (key_entity_id key)).

End Sizes.

(** ** The counter *)

(** [DeterministicHostError]: running out of gas, or another failure. *)
Inductive DeterministicHostError (E : Type) :=
| GasError (used : GasAmount)
| OtherError (e : E).
Arguments GasError {E}.
Arguments OtherError {E}.

Section Counter.
Context (max_gas_per_handler : Z).

(** The counter keeps the amount also when the limit is exceeded. *)
Definition consume_host_fn {E} (counter amount : GasAmount)
    : result (DeterministicHostError E) unit * GasAmount :=
  let amount := gas_add_assign amount HOST_EXPORT_GAS in
  let new := u64_saturating_add counter amount in
  (if (max_gas_per_handler <=? new)%Z then Err (GasError new) else Ok tt, new).

End Counter.

(** ** Properties *)

Lemma u64_max_pos : (0 < u64_max)%Z.
Proof. unfold u64_max, u64_mod. lia. Qed.

(** Saturating addition is exact up to the maximum. *)
Definition gas_total (l : list GasAmount) : Z := foldr Z.add 0%Z l.

Lemma gas_total_nonneg l : Forall (fun g => 0 <= g)%Z l -> (0 <= gas_total l)%Z.
Proof. induction 1; simpl; lia. Qed.

Lemma gas_sum_total l : Forall (fun g => 0 <= g)%Z l -> gas_sum l = Z.min u64_max (gas_total l).
Proof.
  intros Hl. unfold gas_sum.
  assert (Hgen : forall s, (0 <= s)%Z ->
    foldl gas_add_assign (Z.min u64_max s) l = Z.min u64_max (s + gas_total l)).
  { induction Hl as [|g l Hg Hl IH]; intros s Hs; simpl; [f_equal; lia|].
    pose proof (gas_total_nonneg l Hl). pose proof u64_max_pos.
    replace (gas_add_assign (Z.min u64_max s) g) with (Z.min u64_max (s + g))
      by (unfold gas_add_assign, u64_saturating_add; lia).
    rewrite IH by lia. f_equal. lia. }
  specialize (Hgen 0%Z ltac:(lia)). rewrite Z.min_r in Hgen; [done|]. pose proof u64_max_pos. lia.
Qed.

Lemma gas_sum_perm l1 l2 :
  Forall (fun g => 0 <= g)%Z l1 -> l1 ≡ₚ l2 -> gas_sum l1 = gas_sum l2.
Proof.
  intros Hl Hp. rewrite (gas_sum_total l1 Hl), (gas_sum_total l2) by (by rewrite <- Hp). f_equal.
  unfold gas_total. clear Hl. induction Hp; simpl; lia.
Qed.

Section SizeProps.
Context `{HB : !NumBits}.

Lemma saturating_from_nonneg n : (0 <= gas_saturating_from n)%Z.
Proof. unfold gas_saturating_from. pose proof u64_max_pos. lia. Qed.

Lemma gas_add_nonneg a b : (0 <= a)%Z -> (0 <= b)%Z -> (0 <= gas_add a b)%Z.
Proof. unfold gas_add, u64_saturating_add. pose proof u64_max_pos. lia. Qed.

Lemma bigint_size_nonneg n : (0 <= gas_size_of_bigint n)%Z.
Proof.
  unfold gas_size_of_bigint. destruct (num_bits_bound n) as [Hn _].
  pose proof (Z.div_pos (num_bits n) 8 Hn ltac:(lia)). pose proof u64_max_pos. lia.
Qed.

Lemma value_size_nonneg v : (0 <= gas_size_of_value v)%Z.
Proof.
  induction v as [s|i|d|b|l IH| |b|n] using Value_nested_ind; apply gas_add_nonneg; try lia;
    try apply saturating_from_nonneg; try apply bigint_size_nonneg.
  - unfold gas_size_of_vec. apply gas_add_nonneg; [apply gas_add_nonneg; [|lia]|apply saturating_from_nonneg].
    assert (Hl : Forall (fun g => 0 <= g)%Z (map gas_size_of_value l)) by (by rewrite Forall_map).
    change (0 <= gas_sum (map gas_size_of_value l))%Z.
    rewrite gas_sum_total by done. pose proof (gas_total_nonneg _ Hl). pose proof u64_max_pos. lia.
  - unfold gas_size_of_bytes, gas_mul, u64_saturating_mul. pose proof (saturating_from_nonneg (length b)).
    pose proof u64_max_pos. lia.
Qed.

(** The size of a map does not depend on the order in which it is iterated. *)
Lemma gas_size_of_entries_perm l1 l2 : l1 ≡ₚ l2 -> gas_size_of_entries l1 = gas_size_of_entries l2.
Proof.
  intros Hp. unfold gas_size_of_entries. rewrite (Permutation_length Hp). do 2 f_equal.
  apply gas_sum_perm; [|by apply Permutation_map]. rewrite Forall_map. apply Forall_forall. intros kv _.
  apply gas_add_nonneg; [apply saturating_from_nonneg|apply value_size_nonneg].
Qed.

End SizeProps.

(** The host functions of one handler, until one runs out of gas. *)
Fixpoint gas_run (max_gas_per_handler : Z) (counter : GasAmount) (amounts : list GasAmount)
    : result (DeterministicHostError Empty_set) unit * GasAmount :=
  match amounts with
  | [] => (Ok tt, counter)
  | amount :: amounts =>
      let (r, counter) := consume_host_fn max_gas_per_handler counter amount in
      match r with Ok _ => gas_run max_gas_per_handler counter amounts | _ => (r, counter) end
  end.

Lemma consume_bound max counter amount :
  (0 <= counter)%Z -> (0 <= amount)%Z -> (max <= u64_max)%Z ->
  match consume_host_fn (E:=Empty_set) max counter amount with
  | (Ok _, new) => (new = counter + (amount + HOST_EXPORT_GAS))%Z /\ (new < max)%Z
  | (Err (GasError used), new) => used = new /\ (max <= new)%Z
  | _ => False
  end.
Proof.
  intros Hc Ha Hm. unfold consume_host_fn, gas_add_assign, u64_saturating_add, HOST_EXPORT_GAS.
  destruct (Z.leb_spec max (Z.min u64_max (counter + Z.min u64_max (amount + 10000)))); lia.
Qed.

Lemma gas_run_spec max counter amounts :
  (0 <= counter)%Z -> Forall (fun g => 0 <= g)%Z amounts -> (max <= u64_max)%Z ->
  match gas_run max counter amounts with
  | (Ok _, new) => new = (counter + gas_total amounts + HOST_EXPORT_GAS * Z.of_nat (length amounts))%Z /\
      (amounts = [] \/ new < max)%Z
  | (Err (GasError used), new) => used = new /\ (max <= new)%Z
  | _ => False
  end.
Proof.
  intros Hc Hl Hm. revert counter Hc. induction Hl as [|a l Ha Hl IH]; intros counter Hc; cbn [gas_run].
  { simpl. split; [lia|by left]. }
  pose proof (consume_bound max counter a Hc Ha Hm) as Hcons.
  destruct (consume_host_fn max counter a) as [[[]|[used|[]]|] new]; [|done|done].
  destruct Hcons as [-> Hlt]. specialize (IH (counter + (a + HOST_EXPORT_GAS))%Z).
  unfold HOST_EXPORT_GAS in *. specialize (IH ltac:(lia)).
  destruct (gas_run max _ l) as [[[]|[used|[]]|] new]; [|done|done].
  destruct IH as [-> Hlast]. simpl gas_total. simpl length. split; [lia|]. right.
  destruct Hlast as [->|]; [simpl; lia|lia].
Qed.

(** C26: Gas limits every handler: the counter is exactly what the host functions
    cost together with the fixed cost of each call, so fewer than
    [max_gas / HOST_EXPORT_GAS] calls succeed, and once a call has run out of
    gas every later call does too, however cheap it is; the counter never
    overflows. *)
Theorem gas_limits_handler max amounts :
  (0 < max <= u64_max)%Z -> Forall (fun g => 0 <= g)%Z amounts ->
  match gas_run max 0 amounts with
  | (Ok _, used) =>
      used = (gas_total amounts + HOST_EXPORT_GAS * Z.of_nat (length amounts))%Z /\ (used < max)%Z /\
      (HOST_EXPORT_GAS * Z.of_nat (length amounts) < max)%Z
  | (Err (GasError reported), used) =>
      reported = used /\ (max <= used)%Z /\
      forall amount, (0 <= amount)%Z -> is_err (consume_host_fn (E:=Empty_set) max used amount).1 = true
  | _ => False
  end.
Proof.
  intros Hm Hl. pose proof (gas_run_spec max 0 amounts ltac:(lia) Hl ltac:(lia)) as Hrun.
  destruct (gas_run max 0 amounts) as [[[]|[used|[]]|] new]; [| |done].
  - destruct Hrun as [-> Hlt]. pose proof (gas_total_nonneg amounts Hl).
    destruct Hlt as [->|Hlt]; [simpl; unfold HOST_EXPORT_GAS in *; lia|].
    unfold HOST_EXPORT_GAS in *. lia.
  - destruct Hrun as [-> Hge]. split_and!; [done|done|]. intros amount Ha.
    pose proof (consume_bound max new amount ltac:(lia) Ha ltac:(lia)) as Hcons.
    destruct (consume_host_fn max new amount) as [[[]|[u|[]]|] new']; [|done|done].
    unfold HOST_EXPORT_GAS in *. lia.
Qed.

Lemma gas_limits_handler_witness :
  (gas_run CONST_MAX_GAS_PER_HANDLER 0 [base_cost STORE_SET; base_cost LOG_OP]).2 = 140020000%Z.
Proof.
  pose proof (gas_limits_handler CONST_MAX_GAS_PER_HANDLER [base_cost STORE_SET; base_cost LOG_OP]
    ltac:(vm_compute; split; [reflexivity|discriminate]) ltac:(repeat constructor; vm_compute; discriminate)) as H.
  vm_compute in H. destruct H as [H _]. vm_compute. exact H.
Defined.

(** [*=] adds: the assigning multiplication of gas is a second addition. *)
Lemma gas_mul_assign_adds : gas_mul_assign 7 3 = 10%Z /\ gas_mul 7 3 = 21%Z.
Proof. done. Qed.
