(* ===== verification/ProofOfIndexing.v ===== *)
(** * Proofs of indexing

    [graph/src/components/subgraph/proof_of_indexing]: the hash that is updated
    with every change of an entity ([online.rs]), and the structure whose hash it
    is meant to be ([reference.rs]).

    The crate [stable_hash] is an interface: [StableHash] holds the functions that
    graph-node calls, [StableHashLaws] what is documented of them. *)

From S2P Require Import Prelude Scalars Values StoreTypes.

(** ** Interface: the [stable_hash] crate *)

(** A sequence number stands for a place in the tree of fields that is hashed;
    [next_child] gives the next field below it, and the advanced number.  The
    [StableHash] instances of the types that occur are [sh_*]; the ones of generic
    types take what is hashed for each element. *)
Class StableHash := {
  Seq : Type;
  seq_root : Seq;
  seq_next_child : Seq -> Seq * Seq;
  seq_skip : Seq -> nat -> Seq;
  Hasher : Type;
  hs_new : Hasher;
  hs_write : Hasher -> Seq -> Bytes -> Hasher;
  hs_finish : Hasher -> Bytes;
  hs_finish_unordered : Hasher -> Hasher -> Seq -> Hasher;
  hs_to_bytes : Hasher -> Bytes;
  hs_from_bytes : Bytes -> Hasher;
  sh_int : Z -> Seq -> Hasher -> Hasher;
  sh_bool : bool -> Seq -> Hasher -> Hasher;
  sh_str : string -> Seq -> Hasher -> Hasher;
  sh_bytes : Bytes -> Seq -> Hasher -> Hasher;
  sh_option : option (Seq -> Hasher -> Hasher) -> Seq -> Hasher -> Hasher;
  sh_vec : list (Seq -> Hasher -> Hasher) -> Seq -> Hasher -> Hasher;
  sh_map : gmap string (Seq -> Hasher -> Hasher) -> Seq -> Hasher -> Hasher
}.

Section PoI.
Context `{HS : !StableHash}.

(** The child with the given index. *)
Definition seq_child (s : Seq) (i : nat) : Seq := (seq_next_child (seq_skip s i)).1.

(** ** Values and events *)

Definition value_as_static (v : Value) : string :=
  match v with
  | VString _ => "String" | VInt _ => "Int" | VBigDecimal _ => "BigDecimal" | VBool _ => "Bool"
  | VList _ => "List" | VNull => "Null" | VBytes _ => "Bytes" | VBigInt _ => "BigInt"
  end.

Definition bigint_stable_hash (n : Z) (s : Seq) (h : Hasher) : Hasher := sh_int n s h.

Definition bigdecimal_stable_hash (d : bigdecimal) (s : Seq) (h : Hasher) : Hasher :=
  let (c, s) := seq_next_child s in
  bigint_stable_hash (int_val d) s (sh_int (scale d) c h).

Fixpoint value_stable_hash (v : Value) (s : Seq) (h : Hasher) : Hasher :=
  match v with
  | VNull => h
  | _ =>
      let (c, s) := seq_next_child s in
      let h := sh_str (value_as_static v) c h in
      match v with
      | VNull => h
      | VString inner => sh_str inner s h
      | VInt inner => sh_int inner s h
      | VBigDecimal inner => bigdecimal_stable_hash inner s h
      | VBool inner => sh_bool inner s h
      | VList inner => sh_vec (map value_stable_hash inner) s h
      | VBytes inner => sh_bytes inner s h
      | VBigInt inner => bigint_stable_hash inner s h
      end
  end.

Inductive ProofOfIndexingEvent :=
| RemoveEntity (entity_type id : string)
| SetEntity (entity_type id : string) (data : gmap string Value)
| DeterministicError (redacted_events : Z).

Definition event_as_static (e : ProofOfIndexingEvent) : string :=
  match e with
  | RemoveEntity _ _ => "RemoveEntity"
  | SetEntity _ _ _ => "SetEntity"
  | DeterministicError _ => "DeterministicError"
  end.

Definition event_stable_hash (e : ProofOfIndexingEvent) (s : Seq) (h : Hasher) : Hasher :=
  let (c, s) := seq_next_child s in
  let h := sh_str (event_as_static e) c h in
  match e with
  | RemoveEntity entity_type id =>
      let (c, s) := seq_next_child s in
      let h := sh_str entity_type c h in
      let (c, s) := seq_next_child s in
      sh_str id c h
  | SetEntity entity_type id data =>
      let (c, s) := seq_next_child s in
      let h := sh_str entity_type c h in
      let (c, s) := seq_next_child s in
      let h := sh_str id c h in
      let (c, s) := seq_next_child s in
      sh_map (value_stable_hash <$> data) c h
  | DeterministicError redacted_events =>
      let (c, s) := seq_next_child s in
      sh_int redacted_events c h
  end.

(** ** The reference *)

Record PoiBlock := mkPoiBlock { pb_events : list ProofOfIndexingEvent }.
Record CausalityRegion := mkRegion { cr_blocks : list PoiBlock }.

Record PoI := mkPoI {
  poi_causality_regions : gmap string CausalityRegion;
  poi_subgraph_id : DeploymentHash;
  poi_block_hash : Bytes;
  poi_indexer : option Bytes
}.

Definition block_stable_hash (b : PoiBlock) (s : Seq) (h : Hasher) : Hasher :=
  let (c, s) := seq_next_child s in sh_vec (map event_stable_hash (pb_events b)) c h.

Definition region_stable_hash (r : CausalityRegion) (s : Seq) (h : Hasher) : Hasher :=
  let (c, s) := seq_next_child s in sh_vec (map block_stable_hash (cr_blocks r)) c h.

Definition deployment_hash_stable_hash (d : DeploymentHash) (s : Seq) (h : Hasher) : Hasher :=
  let (c, s) := seq_next_child s in sh_str d c h.

Definition poi_stable_hash (p : PoI) (s : Seq) (h : Hasher) : Hasher :=
  let (c, s) := seq_next_child s in
  let h := sh_map (region_stable_hash <$> poi_causality_regions p) c h in
  let (c, s) := seq_next_child s in
  let h := deployment_hash_stable_hash (poi_subgraph_id p) c h in
  let (c, s) := seq_next_child s in
  let h := sh_bytes (poi_block_hash p) c h in
  let (c, s) := seq_next_child s in
  sh_option (sh_bytes <$> poi_indexer p) c h.

Definition from_network (network : string) : string := "ethereum/" +:+ network.

(** ** The stream of events of a block *)

Definition traverse_seq_no (counts : list nat) : Seq :=
  foldl (fun s i => (seq_next_child (seq_skip s i)).1) seq_root counts.

Record BlockEventStream := mkStream {
  vec_length : Z;
  handler_start : Z;
  seq_no : Seq;
  digest : Hasher
}.

Definition stream_new {E} (block_number : BlockNumber) : result E BlockEventStream :=
  assert! (0 <=? block_number)%Z ;;
  Ok (mkStream 0 0 (traverse_seq_no [1%nat; 0%nat; Z.to_nat block_number; 0%nat]) hs_new).

Definition stream_pause (st : BlockEventStream) (prev : option Bytes) : Bytes :=
  let state := sh_int (vec_length st) (seq_no st) (digest st) in
  let state := match prev with
               | Some prev => hs_finish_unordered state (hs_from_bytes prev) seq_root
               | None => state
               end in
  hs_to_bytes state.

Definition stream_write (st : BlockEventStream) (event : ProofOfIndexingEvent) : BlockEventStream :=
  let (c, s) := seq_next_child (seq_no st) in
  mkStream (vec_length st + 1) (handler_start st) s (event_stable_hash event c (digest st)).

Definition stream_start_handler (st : BlockEventStream) : BlockEventStream :=
  mkStream (vec_length st) (vec_length st) (seq_no st) (digest st).

(** ** [ProofOfIndexing] *)

Record ProofOfIndexing := mkProof {
  pi_block_number : BlockNumber;
  per_causality_region : gmap string BlockEventStream
}.

Definition poi_new (block_number : BlockNumber) : ProofOfIndexing := mkProof block_number ∅.

Definition with_causality_region {E T} (p : ProofOfIndexing) (region : string)
    (f : BlockEventStream -> T * BlockEventStream) : result E (T * ProofOfIndexing) :=
  let? entry := match per_causality_region p !! region with
                | Some entry => Ok entry
                | None => stream_new (pi_block_number p)
                end in
  let (result, entry) := f entry in
  Ok (result, mkProof (pi_block_number p) (<[region := entry]> (per_causality_region p))).

Definition poi_write {E} (p : ProofOfIndexing) (region : string) (event : ProofOfIndexingEvent)
    : result E ProofOfIndexing :=
  map_result snd (with_causality_region p region (fun entry => (tt, stream_write entry event))).

Definition write_deterministic_error {E} (p : ProofOfIndexing) (region : string)
    : result E ProofOfIndexing :=
  let? r := with_causality_region p region (fun entry => (vec_length entry - handler_start entry, entry)%Z) in
  poi_write r.2 region (DeterministicError r.1).

Definition poi_start_handler {E} (p : ProofOfIndexing) (region : string) : result E ProofOfIndexing :=
  map_result snd (with_causality_region p region (fun entry => (tt, stream_start_handler entry))).

Definition poi_take (p : ProofOfIndexing) : gmap string BlockEventStream := per_causality_region p.

(** ** [ProofOfIndexingFinisher] *)

Record ProofOfIndexingFinisher := mkFinisher {
  pf_block_number : BlockNumber;
  pf_state : Hasher;
  causality_count : nat
}.

Definition finisher_new (block : BlockPtr) (subgraph_id : DeploymentHash) (indexer : option Bytes)
    : ProofOfIndexingFinisher :=
  let state := deployment_hash_stable_hash subgraph_id (traverse_seq_no [1%nat]) hs_new in
  let state := sh_bytes (bp_hash block) (traverse_seq_no [2%nat]) state in
  let state := sh_option (sh_bytes <$> indexer) (traverse_seq_no [3%nat]) state in
  mkFinisher (bp_number block) state 0.

Definition add_causality_region (f : ProofOfIndexingFinisher) (name : string) (region : Bytes)
    : ProofOfIndexingFinisher :=
  let state := hs_from_bytes region in
  let state := sh_int (wrap_i32 (pf_block_number f + 1)) (traverse_seq_no [1%nat; 0%nat]) state in
  let state := sh_str name (traverse_seq_no [0%nat]) state in
  let state := hs_finish state in
  mkFinisher (pf_block_number f)
    (hs_write (pf_state f) (traverse_seq_no [0%nat; 1%nat]) state) (S (causality_count f)).

Definition finisher_finish (f : ProofOfIndexingFinisher) : Bytes :=
  hs_finish (sh_int (Z.of_nat (causality_count f)) (traverse_seq_no [0%nat; 2%nat]) (pf_state f)).

End PoI.
