(* ===== verification/PoiProps.v ===== *)
(** * The online proof of indexing is the reference

    Whatever events the handlers of a sequence of blocks write, and however they
    are spread over causality regions, the proof of indexing that is updated block
    by block is the hash of the reference structure over all events. *)

From S2P Require Import Prelude Scalars Values StoreTypes ProofOfIndexing.

(** ** What is documented of the [stable_hash] crate *)

Section Laws.
Context `{HS : !StableHash}.

(** A [SetHasher] only collects what is written to it. *)
Definition hs_combine (a b : Hasher) : Hasher := hs_finish_unordered a b seq_root.

Definition adds (f : Seq -> Hasher -> Hasher) : Prop :=
  forall q h, f q h = hs_combine h (f q hs_new).

Fixpoint hash_elements (l : list (Seq -> Hasher -> Hasher)) (q : Seq) (h : Hasher) : Seq * Hasher :=
  match l with
  | [] => (q, h)
  | f :: l => let (c, q) := seq_next_child q in hash_elements l q (f c h)
  end.

(** An entry of a map is hashed on its own. *)
Definition hash_entry (k : string) (f : Seq -> Hasher -> Hasher) : Hasher :=
  let (c, q) := seq_next_child seq_root in
  let h := sh_str k c hs_new in
  let (c, q) := seq_next_child q in
  f c h.

Class StableHashLaws : Prop := {
  seq_skip_0 q : seq_skip q 0 = q;
  seq_skip_skip q m n : seq_skip (seq_skip q m) n = seq_skip q (m + n);
  seq_next_child_rest q : (seq_next_child q).2 = seq_skip q 1;
  (** the hash of a set: order does not matter *)
  hs_combine_comm a b : hs_combine a b = hs_combine b a;
  hs_combine_assoc a b c : hs_combine a (hs_combine b c) = hs_combine (hs_combine a b) c;
  hs_combine_new a : hs_combine hs_new a = a;
  hs_write_adds b : adds (fun q h => hs_write h q b);
  hs_from_to_bytes h : hs_from_bytes (hs_to_bytes h) = h;
  sh_int_adds n : adds (sh_int n);
  sh_bool_adds b : adds (sh_bool b);
  sh_str_adds s : adds (sh_str s);
  sh_bytes_adds b : adds (sh_bytes b);
  sh_option_adds o : (forall f, o = Some f -> adds f) -> adds (sh_option o);
  (** default values are not written, so that fields can be added *)
  sh_int_default q h : sh_int 0 q h = h;
  (** an integer that is not negative only uses the place, not its children *)
  sh_int_skip n k q h : (0 <= n)%Z -> sh_int n (seq_skip q k) h = sh_int n q h;
  (** the elements, then their number *)
  sh_vec_spec l q h :
    sh_vec l q h = let (q', h') := hash_elements l q h in sh_int (Z.of_nat (length l)) q' h';
  (** the hashes of the entries in any order below the second child, then their
      number below the third *)
  sh_map_spec m q h :
    sh_map m q h = sh_int (Z.of_nat (size m)) (seq_child q 2)
      (foldl (fun h e => hs_write h (seq_child q 1) (hs_finish (hash_entry e.1 e.2))) h (map_to_list m))
}.

End Laws.

Section PoiProps.
Context `{HS : !StableHash} `{HL : !StableHashLaws}.
Local Infix "⊕" := hs_combine (at level 50, left associativity).
Implicit Types (q : Seq) (h a b c : Hasher) (f : Seq -> Hasher -> Hasher).

(** ** Everything adds to the hash *)

Lemma hs_combine_new_r a : a ⊕ hs_new = a.
Proof. by rewrite hs_combine_comm, hs_combine_new. Qed.

Lemma hs_combine_swap a b c : a ⊕ b ⊕ c = a ⊕ c ⊕ b.
Proof. by rewrite <- !hs_combine_assoc, (hs_combine_comm b). Qed.

Lemma adds_compose f1 f2 (s1 s2 : Seq -> Seq) :
  adds f1 -> adds f2 -> adds (fun q h => f2 (s2 q) (f1 (s1 q) h)).
Proof.
  intros H1 H2 q h. rewrite (H2 (s2 q)), (H1 (s1 q)), (H2 (s2 q) (f1 (s1 q) hs_new)).
  by rewrite hs_combine_assoc.
Qed.

Lemma adds_at f (s : Seq -> Seq) : adds f -> adds (fun q h => f (s q) h).
Proof. intros H q h. apply H. Qed.

Lemma adds_id : adds (fun _ h => h).
Proof. intros q h. by rewrite hs_combine_new_r. Qed.

(** What the elements of a sequence add, where [i] is the index of the first. *)
Fixpoint elements_sum (i : nat) (l : list (Seq -> Hasher -> Hasher)) q : Hasher :=
  match l with
  | [] => hs_new
  | f :: l => f (seq_child q i) hs_new ⊕ elements_sum (S i) l q
  end.

Lemma seq_child_eq q i : seq_next_child (seq_skip q i) = (seq_child q i, seq_skip q (S i)).
Proof.
  unfold seq_child. rewrite (surjective_pairing (seq_next_child _)). f_equal.
  rewrite seq_next_child_rest, seq_skip_skip. f_equal. lia.
Qed.

Lemma seq_child_eq0 q : seq_next_child q = (seq_child q 0, seq_skip q 1).
Proof. rewrite <- (seq_skip_0 q) at 1. apply seq_child_eq. Qed.

Lemma hash_elements_sum l i q h :
  Forall adds l -> hash_elements l (seq_skip q i) h = (seq_skip q (i + length l), h ⊕ elements_sum i l q).
Proof.
  intros Hl. revert i h. induction Hl as [|f l Hf Hl IH]; intros i h; simpl.
  - by rewrite Nat.add_0_r, hs_combine_new_r.
  - rewrite seq_child_eq, IH. f_equal; [f_equal; lia|]. rewrite (Hf _ h). by rewrite hs_combine_assoc.
Qed.

Lemma sh_vec_sum l q h :
  Forall adds l ->
  sh_vec l q h = sh_int (Z.of_nat (length l)) q (h ⊕ elements_sum 0 l q).
Proof.
  intros Hl. rewrite sh_vec_spec. rewrite <- (seq_skip_0 q) at 1. rewrite hash_elements_sum by done. simpl.
  apply sh_int_skip. lia.
Qed.

Lemma sh_vec_adds l : Forall adds l -> adds (sh_vec l).
Proof.
  intros Hl q h. rewrite !(sh_vec_sum l) by done. rewrite (sh_int_adds _ q (h ⊕ _)).
  rewrite (sh_int_adds _ q (hs_new ⊕ _)), hs_combine_new. by rewrite hs_combine_assoc.
Qed.

(** What the entries of a map add. *)
Definition entries_sum q (l : list (string * (Seq -> Hasher -> Hasher))) : Hasher :=
  foldr (fun e h => hs_write hs_new (seq_child q 1) (hs_finish (hash_entry e.1 e.2)) ⊕ h) hs_new l.

Lemma entries_fold q l h :
  foldl (fun h e => hs_write h (seq_child q 1) (hs_finish (hash_entry e.1 e.2))) h l = h ⊕ entries_sum q l.
Proof.
  revert h. induction l as [|e l IH]; intros h; simpl; [by rewrite hs_combine_new_r|].
  rewrite IH, (hs_write_adds _ _ h). by rewrite hs_combine_assoc.
Qed.

Lemma sh_map_adds m : adds (sh_map m).
Proof.
  intros q h. rewrite !sh_map_spec, !entries_fold. rewrite (sh_int_adds _ _ (h ⊕ _)).
  rewrite (sh_int_adds _ _ (hs_new ⊕ _)), hs_combine_new. by rewrite hs_combine_assoc.
Qed.

Hint Resolve sh_int_adds sh_bool_adds sh_str_adds sh_bytes_adds sh_map_adds adds_id : adds.

(** Hashing into the next child, and then the rest. *)
Lemma adds_then f g :
  adds f -> adds g -> adds (fun q h => let (c, q') := seq_next_child q in g q' (f c h)).
Proof.
  intros Hf Hg q h. rewrite seq_child_eq0.
  by apply (adds_compose f g (fun q => seq_child q 0) (fun q => seq_skip q 1)).
Qed.

Lemma adds_last f : adds f -> adds (fun q h => let (c, q') := seq_next_child q in f c h).
Proof. intros Hf q h. rewrite seq_child_eq0. apply Hf. Qed.

Lemma value_adds v : adds (value_stable_hash v).
Proof.
  induction v as [s|i|d|b|l IH| |b|n] using Value_nested_ind; cbn [value_stable_hash]; auto with adds.
  all: apply (adds_then (sh_str _)); auto with adds.
  - apply (adds_then (sh_int (scale d)) (sh_int (int_val d))); auto with adds.
  - apply sh_vec_adds. by rewrite Forall_map.
Qed.

Lemma event_adds e : adds (event_stable_hash e).
Proof.
  destruct e as [ty id|ty id data|n].
  - exact (adds_then _ _ (sh_str_adds _) (adds_then _ _ (sh_str_adds ty) (adds_last _ (sh_str_adds id)))).
  - exact (adds_then _ _ (sh_str_adds _) (adds_then _ _ (sh_str_adds ty)
      (adds_then _ _ (sh_str_adds id) (adds_last _ (sh_map_adds (value_stable_hash <$> data)))))).
  - exact (adds_then _ _ (sh_str_adds _) (adds_last _ (sh_int_adds n))).
Qed.

Lemma events_add evs : Forall adds (map event_stable_hash evs).
Proof. rewrite Forall_map. apply Forall_forall. intros e _. apply event_adds. Qed.

Lemma block_adds (bl : PoiBlock) : adds (block_stable_hash bl).
Proof. apply (adds_last (sh_vec _)), sh_vec_adds, events_add. Qed.

Lemma blocks_add (bls : list PoiBlock) : Forall adds (map block_stable_hash bls).
Proof. rewrite Forall_map. apply Forall_forall. intros bl _. apply block_adds. Qed.

(** ** The events of a block *)

(** What handlers do to the proof of indexing. *)
Inductive PoiOp := PoiStart | PoiWrite (e : ProofOfIndexingEvent) | PoiError.

Definition poi_do {E} (p : ProofOfIndexing) (op : string * PoiOp) : result E ProofOfIndexing :=
  match op.2 with
  | PoiStart => poi_start_handler p op.1
  | PoiWrite e => poi_write p op.1 e
  | PoiError => write_deterministic_error p op.1
  end.

Definition poi_run {E} (block : BlockNumber) (ops : list (string * PoiOp)) : result E ProofOfIndexing :=
  try_fold poi_do (poi_new block) ops.

(** The events of one region, and how many there were when its last handler
    started. *)
Definition region_step (st : list ProofOfIndexingEvent * nat) (op : PoiOp)
    : list ProofOfIndexingEvent * nat :=
  match op with
  | PoiStart => (st.1, length st.1)
  | PoiWrite e => (st.1 ++ [e], st.2)
  | PoiError => (st.1 ++ [DeterministicError (Z.of_nat (length st.1) - Z.of_nat st.2)], st.2)
  end.

Definition region_state (ops : list PoiOp) : list ProofOfIndexingEvent * nat :=
  foldl region_step ([], 0%nat) ops.

Definition ops_for (region : string) (ops : list (string * PoiOp)) : list PoiOp :=
  omap (fun op => if bool_decide (op.1 = region) then Some op.2 else None) ops.

Definition events_of (ops : list (string * PoiOp)) (region : string) : list ProofOfIndexingEvent :=
  (region_state (ops_for region ops)).1.

(** The place of the blocks of a region, and of the events of a block. *)
Definition blocks_seq : Seq := seq_child (seq_child seq_root 1) 0.
Definition events_seq (i : nat) : Seq := seq_child (seq_child blocks_seq i) 0.

Lemma traverse_events i : traverse_seq_no [1; 0; i; 0]%nat = events_seq i.
Proof. done. Qed.

Lemma elements_sum_app i l1 l2 q :
  elements_sum i (l1 ++ l2) q = elements_sum i l1 q ⊕ elements_sum (i + length l1) l2 q.
Proof.
  revert i. induction l1 as [|f l1 IH]; intros i; simpl.
  - by rewrite Nat.add_0_r, hs_combine_new.
  - rewrite IH, hs_combine_assoc. do 2 f_equal. lia.
Qed.

Definition stream_of (block : BlockNumber) (st : list ProofOfIndexingEvent * nat) : BlockEventStream :=
  let q := events_seq (Z.to_nat block) in
  mkStream (Z.of_nat (length st.1)) (Z.of_nat st.2) (seq_skip q (length st.1))
    (elements_sum 0 (map event_stable_hash st.1) q).

Lemma stream_new_of {E} block : (0 <= block)%Z -> stream_new (E:=E) block = Ok (stream_of block ([], 0%nat)).
Proof.
  intros Hb. unfold stream_new. rewrite (proj2 (Z.leb_le 0 block)) by done. unfold stream_of. simpl.
  rewrite seq_skip_0. done.
Qed.

Lemma stream_write_of block st e :
  stream_write (stream_of block st) e = stream_of block (st.1 ++ [e], st.2).
Proof.
  unfold stream_write, stream_of. cbn [seq_no vec_length handler_start digest fst snd].
  rewrite seq_child_eq, length_app, map_app, elements_sum_app. simpl. f_equal.
  - lia.
  - f_equal. lia.
  - rewrite (event_adds e _ (elements_sum _ _ _)), hs_combine_new_r, length_map. done.
Qed.

(** The streams after the operations of a block. *)
Definition streams_ok block (ops : list (string * PoiOp)) (p : ProofOfIndexing) : Prop :=
  pi_block_number p = block /\
  forall region, per_causality_region p !! region =
    match ops_for region ops with
    | [] => None
    | rops => Some (stream_of block (region_state rops))
    end.

Lemma ops_for_snoc region ops op :
  ops_for region (ops ++ [op]) = ops_for region ops ++ (if bool_decide (op.1 = region) then [op.2] else []).
Proof. unfold ops_for. rewrite omap_app. simpl. by case_bool_decide. Qed.

Lemma region_state_snoc rops op : region_state (rops ++ [op]) = region_step (region_state rops) op.
Proof. unfold region_state. by rewrite foldl_app. Qed.

Lemma with_region_ok {E T} block ops p region (f : BlockEventStream -> T * BlockEventStream) :
  (0 <= block)%Z -> streams_ok block ops p ->
  with_causality_region (E:=E) p region f =
    let st := stream_of block (region_state (ops_for region ops)) in
    Ok ((f st).1, mkProof block (<[region := (f st).2]> (per_causality_region p))).
Proof.
  intros Hb [Hn Hp]. unfold with_causality_region. rewrite Hp, Hn.
  destruct (ops_for region ops) as [|op rops]; rewrite ?stream_new_of by done; cbn [bind_result];
    by destruct (f _).
Qed.

Lemma streams_step block ops p region op :
  streams_ok block ops p ->
  streams_ok block (ops ++ [(region, op)])
    (mkProof block (<[region := stream_of block (region_step (region_state (ops_for region ops)) op)]>
                      (per_causality_region p))).
Proof.
  intros [Hn Hp]. split; [done|]. intros region'. cbn [per_causality_region]. rewrite ops_for_snoc. cbn [fst snd].
  destruct (decide (region = region')) as [<-|Hne].
  - rewrite lookup_insert_eq, bool_decide_true by done. rewrite <- region_state_snoc.
    by destruct (ops_for region ops).
  - rewrite lookup_insert_ne, bool_decide_false, app_nil_r by done. apply Hp.
Qed.

Lemma poi_run_streams {E} block ops :
  (0 <= block)%Z -> exists p, poi_run (E:=E) block ops = Ok p /\ streams_ok block ops p.
Proof.
  intros Hb. unfold poi_run. induction ops as [|[region op] ops IH] using rev_ind.
  - exists (poi_new block). split; [done|]. split; [done|]. intros region. apply lookup_empty.
  - destruct IH as (p & Hrun & Hp). rewrite try_fold_app, Hrun. cbn [bind_result try_fold].
    pose proof (streams_step block ops p region op Hp) as Hstep. destruct op as [|e|]; unfold poi_do; cbn [fst snd].
    + unfold poi_start_handler. rewrite (with_region_ok block ops) by done. cbn. eexists. split; [done|]. exact Hstep.
    + unfold poi_write. rewrite (with_region_ok block ops) by done. cbn. eexists. split; [done|].
      rewrite stream_write_of. exact Hstep.
    + unfold write_deterministic_error. rewrite (with_region_ok block ops) by done. cbn [fst snd bind_result].
      unfold poi_write, with_causality_region. cbn [per_causality_region pi_block_number].
      rewrite lookup_insert_eq. cbn. rewrite stream_write_of, insert_insert_eq. eexists. split; [done|]. exact Hstep.
Qed.

(** ** The database *)

(** The proofs of indexing that are stored at the end of a block. *)
Definition poi_store (db : gmap string Bytes) (p : ProofOfIndexing) : gmap string Bytes :=
  foldl (fun db e => <[e.1 := stream_pause e.2 (db !! e.1)]> db) db (map_to_list (poi_take p)).

Definition poi_block {E} (st : gmap string Bytes * BlockNumber) (ops : list (string * PoiOp))
    : result E (gmap string Bytes * BlockNumber) :=
  let? p := poi_run st.2 ops in
  Ok (poi_store st.1 p, (st.2 + 1)%Z).

(** The reference over the events of a sequence of blocks: one region for each
    that occurs, with all the blocks. *)
Definition regions_in (blocks : list (list (string * PoiOp))) : gset string :=
  list_to_set (map fst (concat blocks)).

Definition region_of (blocks : list (list (string * PoiOp))) (region : string) : CausalityRegion :=
  mkRegion (map (fun ops => mkPoiBlock (events_of ops region)) blocks).

Definition reference_regions (blocks : list (list (string * PoiOp))) : gmap string CausalityRegion :=
  set_to_map (fun region => (region, region_of blocks region)) (regions_in blocks).

(** What the blocks of a region add. *)
Definition blocks_sum (r : CausalityRegion) : Hasher :=
  elements_sum 0 (map block_stable_hash (cr_blocks r)) blocks_seq.

Definition db_of (blocks : list (list (string * PoiOp))) : gmap string Bytes :=
  (fun r => hs_to_bytes (blocks_sum r)) <$> reference_regions blocks.

Lemma reference_regions_lookup blocks region :
  reference_regions blocks !! region =
    if bool_decide (region ∈ regions_in blocks) then Some (region_of blocks region) else None.
Proof.
  unfold reference_regions. case_bool_decide as Hin.
  - apply lookup_set_to_map; [by intros ? ? ? ? [= ->]|]. exists region. done.
  - apply eq_None_not_Some. intros [r Hr]. apply lookup_set_to_map in Hr as (x & Hx & [= -> _]); [done|].
    by intros ? ? ? ? [= ->].
Qed.

Lemma block_hash_empty i : block_stable_hash (mkPoiBlock []) (seq_child blocks_seq i) hs_new = hs_new.
Proof.
  unfold block_stable_hash. rewrite seq_child_eq0. cbn [pb_events map]. rewrite sh_vec_sum by constructor. simpl.
  rewrite sh_int_default. apply hs_combine_new.
Qed.

Lemma ops_for_nil region ops : ops_for region ops = [] <-> region ∉ map fst ops.
Proof.
  unfold ops_for. induction ops as [|[r op] ops IH]; simpl; [set_solver|].
  rewrite not_elem_of_cons. case_bool_decide; naive_solver.
Qed.

Lemma events_none ops region : region ∉ map fst ops -> events_of ops region = [].
Proof. intros Hn%ops_for_nil. unfold events_of. by rewrite Hn. Qed.

(** The sum over one more block. *)
Lemma blocks_sum_snoc blocks ops region :
  blocks_sum (region_of (blocks ++ [ops]) region) =
    blocks_sum (region_of blocks region) ⊕
    block_stable_hash (mkPoiBlock (events_of ops region)) (seq_child blocks_seq (length blocks)) hs_new.
Proof.
  unfold blocks_sum, region_of. cbn [cr_blocks]. rewrite !map_app, elements_sum_app. simpl.
  by rewrite hs_combine_new_r, !length_map.
Qed.

Lemma blocks_sum_absent blocks region :
  region ∉ regions_in blocks -> blocks_sum (region_of blocks region) = hs_new.
Proof.
  induction blocks as [|ops blocks IH] using rev_ind; intros Hn; [done|].
  rewrite blocks_sum_snoc. unfold regions_in in *. rewrite concat_app, map_app in Hn. simpl in Hn.
  rewrite app_nil_r in Hn. rewrite IH by set_solver. rewrite events_none by set_solver.
  by rewrite block_hash_empty, hs_combine_new.
Qed.

(** What is stored for a region at the end of a block. *)
Lemma stream_pause_of block st prev :
  stream_pause (stream_of block st) (hs_to_bytes <$> prev) =
    hs_to_bytes (default hs_new prev ⊕
      block_stable_hash (mkPoiBlock st.1) (seq_child blocks_seq (Z.to_nat block)) hs_new).
Proof.
  unfold stream_pause, stream_of. cbn [vec_length seq_no digest]. rewrite sh_int_skip by lia.
  assert (Hblock : block_stable_hash (mkPoiBlock st.1) (seq_child blocks_seq (Z.to_nat block)) hs_new =
    sh_int (Z.of_nat (length st.1)) (events_seq (Z.to_nat block))
      (elements_sum 0 (map event_stable_hash st.1) (events_seq (Z.to_nat block)))).
  { unfold block_stable_hash. rewrite seq_child_eq0. cbn [pb_events]. rewrite sh_vec_sum by apply events_add.
    by rewrite length_map, hs_combine_new. }
  rewrite Hblock. destruct prev as [prev|]; simpl.
  - by rewrite hs_from_to_bytes, (hs_combine_comm prev).
  - by rewrite hs_combine_new.
Qed.

Lemma fold_store_lookup (l : list (string * BlockEventStream)) (db : gmap string Bytes) region :
  NoDup (l.*1) ->
  foldl (fun db e => <[e.1 := stream_pause e.2 (db !! e.1)]> db) db l !! region =
    match (list_to_map l : gmap string BlockEventStream) !! region with
    | Some st => Some (stream_pause st (db !! region))
    | None => db !! region
    end.
Proof.
  revert db. induction l as [|[r st] l IH]; intros db; cbn [fmap list_fmap foldl fst snd].
  { simpl. by rewrite lookup_empty. }
  intros [Hr Hnd]%NoDup_cons. rewrite IH by done. cbn [list_to_map foldr fst snd uncurry].
  destruct (decide (r = region)) as [<-|Hne].
  - rewrite lookup_insert_eq. rewrite not_elem_of_list_to_map_1 by done. by rewrite lookup_insert_eq.
  - by rewrite !lookup_insert_ne.
Qed.

Lemma poi_store_lookup db p region :
  poi_store db p !! region =
    match per_causality_region p !! region with
    | Some st => Some (stream_pause st (db !! region))
    | None => db !! region
    end.
Proof.
  unfold poi_store, poi_take. rewrite fold_store_lookup by apply NoDup_fst_map_to_list.
  by rewrite list_to_map_to_list.
Qed.

Lemma db_of_lookup blocks region :
  db_of blocks !! region = hs_to_bytes <$>
    (if bool_decide (region ∈ regions_in blocks) then Some (blocks_sum (region_of blocks region)) else None).
Proof. unfold db_of. rewrite lookup_fmap, reference_regions_lookup. by case_bool_decide. Qed.

Lemma poi_store_block blocks ops p :
  streams_ok (Z.of_nat (length blocks)) ops p -> poi_store (db_of blocks) p = db_of (blocks ++ [ops]).
Proof.
  intros [_ Hp]. apply map_eq. intros region. rewrite poi_store_lookup, Hp, !db_of_lookup.
  assert (Hin : region ∈ regions_in (blocks ++ [ops]) <-> region ∈ regions_in blocks \/ ops_for region ops <> []).
  { rewrite ops_for_nil. unfold regions_in. rewrite concat_app, map_app. simpl. rewrite app_nil_r.
    rewrite !elem_of_list_to_set, elem_of_app. destruct (decide (region ∈ map fst ops)); tauto. }
  rewrite blocks_sum_snoc. destruct (ops_for region ops) as [|op rops] eqn:Hops.
  - rewrite events_none by (by apply ops_for_nil). rewrite block_hash_empty, hs_combine_new_r.
    f_equal. by rewrite (bool_decide_ext (region ∈ regions_in (blocks ++ [ops])) (region ∈ regions_in blocks)) by tauto.
  - rewrite stream_pause_of, Nat2Z.id, (bool_decide_true (region ∈ regions_in (blocks ++ [ops]))) by (apply Hin; by right).
    cbn [fmap option_fmap option_map]. do 3 f_equal; [|by unfold events_of; rewrite Hops].
    case_bool_decide; [done|]. by rewrite blocks_sum_absent.
Qed.

Lemma poi_blocks_db {E} blocks :
  try_fold (poi_block (E:=E)) (∅, 0%Z) blocks = Ok (db_of blocks, Z.of_nat (length blocks)).
Proof.
  induction blocks as [|ops blocks IH] using rev_ind.
  - done.
  - rewrite try_fold_app, IH. cbn [bind_result try_fold]. unfold poi_block. cbn [fst snd].
    destruct (poi_run_streams (E:=E) (Z.of_nat (length blocks)) ops) as (p & Hrun & Hp); [lia|].
    rewrite Hrun. cbn [bind_result]. rewrite (poi_store_block blocks ops p Hp), length_app. simpl. do 2 f_equal. lia.
Qed.

(** ** The finished proof *)

Definition add_regions (fin : ProofOfIndexingFinisher) (db : list (string * Bytes)) : ProofOfIndexingFinisher :=
  foldl (fun fin e => add_causality_region fin e.1 e.2) fin db.

Lemma region_entry_hash n name (r : CausalityRegion) :
  length (cr_blocks r) = n ->
  sh_str name (traverse_seq_no [0%nat])
    (sh_int (Z.of_nat n) (traverse_seq_no [1%nat; 0%nat]) (blocks_sum r)) = hash_entry name (region_stable_hash r).
Proof.
  intros <-. unfold hash_entry, region_stable_hash, blocks_sum. rewrite seq_child_eq0. rewrite seq_child_eq.
  rewrite seq_child_eq0. rewrite sh_vec_sum by apply blocks_add. rewrite length_map.
  change (traverse_seq_no [0%nat]) with (seq_child seq_root 0).
  change (traverse_seq_no [1%nat; 0%nat]) with blocks_seq. fold blocks_seq.
  rewrite (sh_str_adds name (seq_child seq_root 0) (sh_int _ _ _)), (sh_int_adds _ blocks_seq (_ ⊕ _)).
  rewrite (sh_int_adds _ blocks_seq (elements_sum _ _ _)).
  set (a := sh_str name _ hs_new). set (i := sh_int _ _ hs_new). set (e := elements_sum _ _ _).
  by rewrite hs_combine_comm, hs_combine_assoc.
Qed.

Lemma add_regions_sum (fin : ProofOfIndexingFinisher) (l : list (string * CausalityRegion)) n :
  Forall (fun e => length (cr_blocks e.2) = n) l -> wrap_i32 (pf_block_number fin + 1) = Z.of_nat n ->
  add_regions fin (map (fun e => (e.1, hs_to_bytes (blocks_sum e.2))) l) =
    mkFinisher (pf_block_number fin)
      (pf_state fin ⊕ entries_sum (seq_child seq_root 0) (map (fun e => (e.1, region_stable_hash e.2)) l))
      (causality_count fin + length l).
Proof.
  unfold add_regions. intros Hl. revert fin. induction Hl as [|[name r] l Hr Hl IH]; intros fin Hn; simpl.
  - rewrite hs_combine_new_r, Nat.add_0_r. by destruct fin.
  - rewrite IH by done. unfold add_causality_region. cbn [pf_block_number pf_state causality_count fst snd].
    rewrite hs_from_to_bytes, Hn, (region_entry_hash n) by done. f_equal; [|lia].
    change (traverse_seq_no [0%nat; 1%nat]) with (seq_child (seq_child seq_root 0) 1).
    rewrite (hs_write_adds _ _ (pf_state fin)). by rewrite hs_combine_assoc.
Qed.

Lemma entries_sum_perm q l1 l2 : l1 ≡ₚ l2 -> entries_sum q l1 = entries_sum q l2.
Proof.
  induction 1 as [|e l1 l2 _ IH|e1 e2 l|l1 l2 l3 _ IH1 _ IH2]; simpl; [done|by rewrite IH| |congruence].
  by rewrite !hs_combine_assoc, (hs_combine_comm (hs_write hs_new _ (hs_finish (hash_entry e2.1 _)))).
Qed.

Lemma deployment_hash_adds d : adds (deployment_hash_stable_hash d).
Proof. exact (adds_last _ (sh_str_adds d)). Qed.

Lemma option_bytes_adds (o : option Bytes) : adds (sh_option (sh_bytes <$> o)).
Proof. apply sh_option_adds. intros f. destruct o; [|done]. intros [= <-]. apply sh_bytes_adds. Qed.

(** The parts of the reference hash. *)
Lemma poi_hash_parts (p : PoI) :
  poi_stable_hash p seq_root hs_new =
    sh_map (region_stable_hash <$> poi_causality_regions p) (seq_child seq_root 0) hs_new ⊕
    deployment_hash_stable_hash (poi_subgraph_id p) (seq_child seq_root 1) hs_new ⊕
    sh_bytes (poi_block_hash p) (seq_child seq_root 2) hs_new ⊕
    sh_option (sh_bytes <$> poi_indexer p) (seq_child seq_root 3) hs_new.
Proof.
  unfold poi_stable_hash. rewrite seq_child_eq0, !seq_child_eq.
  by rewrite option_bytes_adds, sh_bytes_adds, deployment_hash_adds.
Qed.

Lemma finisher_new_parts ptr subgraph_id indexer :
  pf_state (finisher_new ptr subgraph_id indexer) =
    deployment_hash_stable_hash subgraph_id (seq_child seq_root 1) hs_new ⊕
    sh_bytes (bp_hash ptr) (seq_child seq_root 2) hs_new ⊕
    sh_option (sh_bytes <$> indexer) (seq_child seq_root 3) hs_new.
Proof. unfold finisher_new. simpl. by rewrite option_bytes_adds, sh_bytes_adds. Qed.

(** The hash of a map, from the list of its entries in any order. *)
Lemma sh_map_list (m : gmap string CausalityRegion) l q :
  l ≡ₚ map_to_list m ->
  sh_map (region_stable_hash <$> m) q hs_new =
    sh_int (Z.of_nat (length l)) (seq_child q 2) hs_new ⊕
    entries_sum q (map (fun e => (e.1, region_stable_hash e.2)) l).
Proof.
  intros Hl. rewrite sh_map_spec, entries_fold, map_to_list_fmap, map_size_fmap.
  change (prod_map id region_stable_hash <$> map_to_list m)
    with (map (fun e => (e.1, region_stable_hash e.2)) (map_to_list m)).
  rewrite (entries_sum_perm _ _ _ (Permutation_map _ Hl)), (Permutation_length Hl), length_map_to_list.
  by rewrite sh_int_adds, hs_combine_new, hs_combine_comm.
Qed.

(** C18: The proof of indexing that is kept up to date event by event is the hash
    of the reference: whatever the handlers of the blocks [0..n-1] write, for any
    causality regions, finishing the stored digests, in any order, gives the hash
    of the structure that holds every event of every block, where the event of a
    failed handler says how many events it takes back. *)
Theorem online_matches_reference {E} blocks ptr subgraph_id indexer :
  (bp_number ptr + 1 = Z.of_nat (length blocks))%Z -> (Z.of_nat (length blocks) <= i32_max)%Z ->
  exists db, try_fold (poi_block (E:=E)) (∅, 0%Z) blocks = Ok (db, Z.of_nat (length blocks)) /\
    forall regions, regions ≡ₚ map_to_list db ->
      finisher_finish (add_regions (finisher_new ptr subgraph_id indexer) regions) =
      hs_finish (poi_stable_hash
        (mkPoI (reference_regions blocks) subgraph_id (bp_hash ptr) indexer) seq_root hs_new).
Proof.
  intros Hn Hmax. exists (db_of blocks). split; [apply poi_blocks_db|]. intros regions Hperm.
  unfold db_of in Hperm. rewrite map_to_list_fmap in Hperm. apply Permutation_map_inv in Hperm as (l & -> & Hl).
  symmetry in Hl.
  change (map (prod_map id _) l) with (map (fun e => (e.1, hs_to_bytes (blocks_sum e.2))) l).
  rewrite (add_regions_sum _ l (length blocks)).
  2:{ rewrite Hl. apply Forall_forall. intros [name r] Hr%elem_of_map_to_list.
      rewrite reference_regions_lookup in Hr. case_bool_decide; [|done]. injection Hr as <-.
      unfold region_of. simpl. by rewrite length_map. }
  2:{ cbn [pf_block_number finisher_new]. rewrite wrap_i32_id; [done|].
      unfold in_i32, i32_min, i32_max in *. lia. }
  unfold finisher_finish. cbn [causality_count pf_state]. rewrite finisher_new_parts, poi_hash_parts.
  cbn [poi_causality_regions poi_subgraph_id poi_block_hash poi_indexer causality_count finisher_new].
  rewrite (sh_map_list _ l) by done. change (traverse_seq_no [0; 2]%nat) with (seq_child (seq_child seq_root 0) 2).
  rewrite (sh_int_adds _ _ (_ ⊕ entries_sum _ _)), Nat.add_0_l. f_equal.
  set (i := sh_int _ _ hs_new). set (en := entries_sum _ _). set (d := deployment_hash_stable_hash _ _ _ ).
  set (by_ := sh_bytes _ _ _). set (o := sh_option _ _ _).
  rewrite <- (hs_combine_assoc _ en i), (hs_combine_comm _ (en ⊕ i)), (hs_combine_comm en i).
  by rewrite !hs_combine_assoc.
Qed.

End PoiProps.
