(* ===== verification/PoiExamples.v ===== *)
(** * A model of the hash functions

    An instance of the interface to the [stable_hash] crate, with a sum as the
    hash of a set, and the proof of indexing of two blocks with it. *)

From Stdlib Require Import Strings.Byte.
From S2P Require Import Prelude Scalars Values StoreTypes ProofOfIndexing PoiProps.

(** The number that stands for data at a place. *)
Definition place_hash (path : list nat) (data : list Z) : Z :=
  foldl (fun a x => a * 31 + x + 2)%Z 7%Z (map Z.of_nat path ++ (-1)%Z :: data).

Fixpoint positive_bytes (p : positive) : Bytes :=
  match p with
  | xH => []
  | xO p => x00 :: positive_bytes p
  | xI p => x01 :: positive_bytes p
  end.

Fixpoint bytes_positive (b : Bytes) : positive :=
  match b with
  | [] => xH
  | x00 :: b => xO (bytes_positive b)
  | _ :: b => xI (bytes_positive b)
  end.

Definition sum_to_bytes (z : Z) : Bytes :=
  match z with Z0 => [] | Zpos p => x02 :: positive_bytes p | Zneg p => x03 :: positive_bytes p end.

Definition sum_from_bytes (b : Bytes) : Z :=
  match b with [] => 0 | x02 :: b => Zpos (bytes_positive b) | _ :: b => Zneg (bytes_positive b) end.

Lemma sum_from_to_bytes z : sum_from_bytes (sum_to_bytes z) = z.
Proof.
  assert (Hp : forall p, bytes_positive (positive_bytes p) = p) by (induction p; simpl; congruence).
  destruct z; simpl; by rewrite ?Hp.
Qed.

(** A place is the path to it and the number of children that were used. *)
Definition place : Type := list nat * nat.

Definition place_next (q : place) : place * place := ((q.1 ++ [q.2], 0%nat), (q.1, S q.2)).

Definition sum_int (n : Z) (q : place) (h : Z) : Z := if (n =? 0)%Z then h else (h + place_hash q.1 [n])%Z.

Definition sum_str (s : string) (q : place) (h : Z) : Z :=
  (h + place_hash q.1 (map (fun c => Z.of_nat (Ascii.nat_of_ascii c)) (String.list_ascii_of_string s)))%Z.

Fixpoint sum_elements (l : list (place -> Z -> Z)) (q : place) (h : Z) : place * Z :=
  match l with
  | [] => (q, h)
  | f :: l => let (c, q) := place_next q in sum_elements l q (f c h)
  end.

Definition sum_entry (k : string) (f : place -> Z -> Z) : Z :=
  let (c, q) := place_next ([], 0%nat) in
  let h := sum_str k c 0 in
  let (c, q) := place_next q in f c h.

#[export] Instance sum_hash : StableHash := {
  Seq := place;
  seq_root := ([], 0%nat);
  seq_next_child := place_next;
  seq_skip q n := (q.1, (q.2 + n)%nat);
  Hasher := Z;
  hs_new := 0%Z;
  hs_write h q b := (h + place_hash q.1 (map byte_val b))%Z;
  hs_finish := sum_to_bytes;
  hs_finish_unordered a b _ := (a + b)%Z;
  hs_to_bytes := sum_to_bytes;
  hs_from_bytes := sum_from_bytes;
  sh_int := sum_int;
  sh_bool b q h := if b then (h + place_hash q.1 [1%Z])%Z else h;
  sh_str := sum_str;
  sh_bytes b q h := (h + place_hash q.1 (map byte_val b))%Z;
  sh_option o q h := match o with Some f => f q h | None => h end;
  sh_vec l q h := let (q', h') := sum_elements l q h in sum_int (Z.of_nat (length l)) q' h';
  sh_map m q h :=
    sum_int (Z.of_nat (size m)) (q.1 ++ [(q.2 + 2)%nat], 0%nat)
      (foldl (fun h e => h + place_hash (q.1 ++ [(q.2 + 1)%nat]) (map byte_val (sum_to_bytes (sum_entry e.1 e.2))))%Z
         h (map_to_list m))
}.

#[export] Instance sum_hash_laws : StableHashLaws.
Proof.
  assert (Hint : forall n, adds (sh_int n)).
  { intros n q h. unfold hs_combine. simpl. unfold sum_int. destruct (n =? 0)%Z; lia. }
  split; try done; unfold adds, hs_combine; simpl; intros; try lia.
  - by rewrite Nat.add_0_r, <- surjective_pairing.
  - f_equal. lia.
  - f_equal. lia.
  - apply sum_from_to_bytes.
  - destruct b; lia.
  - destruct o as [f|]; [by apply H|lia].
Qed.

(** ** Two blocks with two regions *)

Definition poi_blocks : list (list (string * PoiOp)) :=
  [[("ethereum/mainnet", PoiStart);
    ("ethereum/mainnet", PoiWrite (SetEntity "Band" "beatles" {["name" := VString "The Beatles"]}));
    ("ethereum/mainnet", PoiStart);
    ("ethereum/mainnet", PoiWrite (RemoveEntity "Band" "beatles"));
    ("ethereum/mainnet", PoiError)];
   [];
   [("ethereum/goerli", PoiStart);
    ("ethereum/mainnet", PoiWrite (RemoveEntity "Band" "beatles"))]].

Lemma online_matches_reference_witness :
  exists db, try_fold (poi_block (E:=Empty_set)) (∅, 0%Z) poi_blocks = Ok (db, 3%Z) /\
    finisher_finish (add_regions (finisher_new (mkPtr [x05] 2) "QmMusic" None) (map_to_list db)) =
    hs_finish (poi_stable_hash
      (mkPoI (reference_regions poi_blocks) "QmMusic" [x05] None) seq_root hs_new).
Proof.
  destruct (online_matches_reference (E:=Empty_set) poi_blocks (mkPtr [x05] 2) "QmMusic" None
    eq_refl ltac:(vm_compute; discriminate)) as (db & Hrun & Hfin).
  exists db. split; [exact Hrun|]. by apply Hfin.
Defined.

(** The digests tell the events of the second block apart. *)
Lemma poi_events_matter :
  events_of (poi_blocks !!! 0%nat) "ethereum/mainnet" =
    [SetEntity "Band" "beatles" {["name" := VString "The Beatles"]};
     RemoveEntity "Band" "beatles"; DeterministicError 1].
Proof. reflexivity. Qed.
