(* ===== verification/Names.v ===== *)
(** * Validated identifiers

    [DeploymentHash::new] and [SubgraphName::new] of
    [graph/src/data/subgraph/mod.rs], and [NodeId::new] of
    [graph/src/data/store/mod.rs].  The constructors accept exactly the words of
    a small grammar; their restrictions are what keeps identifiers harmless in
    SQL statements and URLs. *)

From S2P Require Import Prelude.

Definition deployment_hash_new (s : string) : result string string :=
  if (46 <? String.length s)%nat then Err s
  else if negb (forallb (fun c => is_ascii_alphanumeric c || bool_decide (c = "_"%char)) (chars s))
  then Err s
  else if bool_decide (s = "subgraphs") then Err s
  else Ok s.

Definition to_ipfs_link (h : string) : string := "/ipfs/" +:+ h.

Definition node_id_new (s : string) : result unit string :=
  if (63 <? String.length s)%nat then Err ()
  else if negb (forallb (fun c => is_ascii_alphanumeric c || bool_decide (c = "_"%char)) (chars s))
  then Err ()
  else Ok s.

(** One round of the loop over the parts of a subgraph name *)
Definition check_part (part : list Ascii.ascii) : result unit unit :=
  if bool_decide (part = []) then Err ()
  else if bool_decide (part = chars "graphql") then Err ()
  else
    let? first_char := expect (List.hd_error part) in
    let? last_char := expect (last part) in
    if negb (is_ascii_alphanumeric first_char) || negb (is_ascii_alphanumeric last_char)
       || negb (existsb is_ascii_alphabetic part)
    then Err ()
    else Ok ().

Definition subgraph_name_new (s : string) : result unit string :=
  if bool_decide (s = EmptyString) || (255 <? String.length s)%nat then Err ()
  else if negb (forallb (fun c => is_ascii_alphanumeric c || bool_decide (c = "-"%char)
                          || bool_decide (c = "_"%char) || bool_decide (c = "/"%char)) (chars s))
  then Err ()
  else
    let? _ := try_iter check_part (split_on "/"%char (chars s)) in
    Ok s.

(** ** The grammar of subgraph names *)

Definition part_char (c : Ascii.ascii) : bool :=
  is_ascii_alphanumeric c || bool_decide (c = "-"%char) || bool_decide (c = "_"%char).

(** A part: letters, digits, dashes and underscores with at least one letter,
    starting and ending with a letter or digit, and not [graphql]. *)
Definition good_part (part : list Ascii.ascii) : Prop :=
  Forall (fun c => part_char c = true) part /\
  (exists c l, part = c :: l /\ is_ascii_alphanumeric c = true) /\
  (exists l c, part = l ++ [c] /\ is_ascii_alphanumeric c = true) /\
  (exists c, c ∈ part /\ is_ascii_alphabetic c = true) /\
  part <> chars "graphql".

(** Parts joined by slashes *)
Fixpoint join_parts (sep : Ascii.ascii) (parts : list (list Ascii.ascii)) : list Ascii.ascii :=
  match parts with
  | [] => []
  | [p] => p
  | p :: parts => p ++ sep :: join_parts sep parts
  end.

Lemma split_on_nonempty sep l : split_on sep l <> [].
Proof. destruct l; simpl; repeat case_match; done. Qed.

Lemma split_on_join sep l : join_parts sep (split_on sep l) = l.
Proof.
  induction l as [|c l IH]; [done|]. simpl. pose proof (split_on_nonempty sep l) as Hne.
  destruct (split_on sep l) as [|p ps]; [done|].
  destruct (Ascii.ascii_dec c sep) as [->|]; [by simpl in *; rewrite IH|].
  destruct ps; simpl in *; by rewrite <-IH.
Qed.

Lemma split_on_single sep p : sep ∉ p -> split_on sep p = [p].
Proof.
  induction p as [|c p IH]; [done|]. intros [Hc Hp]%not_elem_of_cons. simpl.
  rewrite IH by done. by destruct (Ascii.ascii_dec c sep); [congruence|].
Qed.

Lemma split_on_app sep p l : sep ∉ p -> split_on sep (p ++ sep :: l) = p :: split_on sep l.
Proof.
  induction p as [|c p IH]; simpl.
  - by destruct (Ascii.ascii_dec sep sep).
  - intros [Hc Hp]%not_elem_of_cons. rewrite IH by done.
    by destruct (Ascii.ascii_dec c sep); [congruence|].
Qed.

Lemma join_parts_split sep parts :
  parts <> [] -> Forall (fun p => sep ∉ p) parts -> split_on sep (join_parts sep parts) = parts.
Proof.
  induction parts as [|p [|q parts] IH]; intros Hne Hf; [done| |];
    apply Forall_cons in Hf as [Hp Hf]; cbn [join_parts].
  - by apply split_on_single.
  - rewrite split_on_app by done. f_equal. by apply IH.
Qed.

Lemma join_parts_Forall (P : Ascii.ascii -> Prop) sep parts :
  P sep -> (Forall P (join_parts sep parts) <-> Forall (Forall P) parts).
Proof.
  intros Hsep. induction parts as [|p [|q parts] IH]; cbn [join_parts] in *.
  - by rewrite !Forall_nil.
  - rewrite Forall_singleton. done.
  - rewrite Forall_app, !Forall_cons in *. naive_solver.
Qed.

Lemma split_on_no_sep sep l : Forall (fun p => sep ∉ p) (split_on sep l).
Proof.
  induction l as [|c l IH]; simpl; [repeat constructor; apply not_elem_of_nil|].
  destruct (Ascii.ascii_dec c sep) as [->|Hc]; [constructor; [apply not_elem_of_nil|done]|].
  destruct (split_on sep l) as [|p ps]; [repeat constructor; set_solver|].
  apply Forall_cons in IH as [Hp Hps]. constructor; [set_solver|done].
Qed.

Lemma check_part_ok part :
  check_part part = Ok () <->
  (exists c l, part = c :: l /\ is_ascii_alphanumeric c = true) /\
  (exists l c, part = l ++ [c] /\ is_ascii_alphanumeric c = true) /\
  (exists c, c ∈ part /\ is_ascii_alphabetic c = true) /\
  part <> chars "graphql".
Proof.
  unfold check_part. case_bool_decide as He; [subst; naive_solver|].
  case_bool_decide as Hg; [naive_solver|].
  destruct part as [|c l]; [done|]. destruct (exists_last He) as (l' & c' & Hl).
  assert (Hlast : last (c :: l) = Some c') by by rewrite Hl, last_snoc.
  rewrite Hlast. cbn [hd_error expect bind_result].
  rewrite <-(existsb_elem is_ascii_alphabetic (c :: l)).
  destruct (is_ascii_alphanumeric c) eqn:Hc; simpl.
  2:{ split; [done|]. intros ((c0 & l0 & [= <- <-] & ?) & _). congruence. }
  destruct (is_ascii_alphanumeric c') eqn:Hc'; simpl.
  - destruct (existsb is_ascii_alphabetic (c :: l)) eqn:Hx; simpl in Hx; rewrite Hx; simpl;
      [|naive_solver]. split; [|done]. intros _. split_and!; eauto.
  - split; [done|]. intros (_ & (l'' & c'' & Heq & Halnum) & _).
    rewrite Hl in Heq. apply app_inj_tail in Heq as [_ <-]. congruence.
Qed.

Lemma name_char_split c :
  is_ascii_alphanumeric c || bool_decide (c = "-"%char) || bool_decide (c = "_"%char)
    || bool_decide (c = "/"%char) = true <-> part_char c = true \/ c = "/"%char.
Proof. unfold part_char. rewrite orb_true_iff, bool_decide_eq_true. done. Qed.

Lemma chars_length s : length (chars s) = String.length s.
Proof. induction s; simpl; congruence. Qed.

(** [SubgraphName::new] accepts exactly the words of the documented grammar:
    one to 255 characters that read as slash-separated parts, where each part
    consists of letters, digits, dashes and underscores, begins and ends with a
    letter or digit, has a letter, and is not the reserved word [graphql]. *)
Theorem subgraph_name_grammar s t :
  subgraph_name_new s = Ok t <->
  t = s /\ String.length s <= 255 /\
  exists parts, parts <> [] /\ chars s = join_parts "/"%char parts /\ Forall good_part parts.
Proof.
  unfold subgraph_name_new. split.
  - intros H. case_bool_decide as He; [done|]. cbn [orb] in H.
    destruct (255 <? String.length s)%nat eqn:Hlen; [done|]. apply Nat.ltb_ge in Hlen.
    destruct (forallb _ _) eqn:Hch; [|done]. cbn [negb] in H. inv_result.
    match goal with H : try_iter _ _ = Ok ?u |- _ => destruct u; rename H into Hit end.
    split_and!; [done|done|]. exists (split_on "/"%char (chars t)).
    split_and!; [apply split_on_nonempty|by rewrite split_on_join|].
    apply try_iter_ok in Hit. rewrite forallb_elem in Hch.
    assert (Hall : Forall (fun c => part_char c = true \/ c = "/"%char) (chars t)).
    { eapply Forall_impl; [exact Hch|]. intros c Hc. by apply name_char_split. }
    rewrite <-(split_on_join "/"%char (chars t)), join_parts_Forall in Hall by by right.
    pose proof (split_on_no_sep "/"%char (chars t)) as Hns.
    rewrite !Forall_forall in *. intros p Hp. specialize (Hall p Hp). specialize (Hns p Hp).
    split; [|by apply check_part_ok, Hit].
    apply Forall_forall. intros c Hc. rewrite Forall_forall in Hall.
    destruct (Hall c Hc) as [?|Heq]; [done|]. subst c. by destruct Hns.
  - intros (-> & Hlen & parts & Hne & Hjoin & Hgood).
    assert (Hns : Forall (fun p => "/"%char ∉ p) parts).
    { eapply Forall_impl; [exact Hgood|]. intros p (Hp & _) Hin.
      rewrite Forall_forall in Hp. by specialize (Hp _ Hin). }
    assert (Hs : s <> EmptyString).
    { intros ->. destruct parts as [|p ps]; [done|]. apply Forall_cons in Hgood as [Hp _].
      destruct Hp as (_ & (c & l & -> & _) & _). by destruct ps. }
    rewrite bool_decide_false by done. rewrite (proj2 (Nat.ltb_ge _ _) Hlen). cbn [orb].
    assert (Hch : Forall (fun c => part_char c = true \/ c = "/"%char) (chars s)).
    { rewrite Hjoin, join_parts_Forall by by right. eapply Forall_impl; [exact Hgood|].
      intros p (Hp & _). eapply Forall_impl; [exact Hp|]. auto. }
    rewrite (proj2 (forallb_elem _ _)).
    2:{ eapply Forall_impl; [exact Hch|]. intros c Hc. by apply name_char_split. }
    cbn [negb]. rewrite Hjoin, join_parts_split by done.
    rewrite (proj2 (try_iter_ok check_part parts)); [done|].
    eapply Forall_impl; [exact Hgood|]. intros p (_ & Hp). by apply check_part_ok.
Qed.
