(* ===== verification/Schema.v ===== *)
(** * Subgraph schemas

    [graph/src/data/schema.rs]: construction of a [Schema] from a parsed
    document ([collect_interfaces], [collect_immutable_types],
    [add_subgraph_id_directives]), the import graph, and the checks of
    [Schema::validate].

    The case conversions of the [inflector] crate, the printing of syntax trees
    by [graphql_parser] and the subgraph store are parameters. *)

From S2P Require Import Prelude GraphqlAst Scalars RuntimeValue Values Names StoreTypes.

(** ** Errors and fulltext definitions *)

Inductive SchemaValidationError :=
| InterfaceUndefined (i : string)
| EntityDirectivesMissing (types : list string)
| InterfaceFieldsMissing (ty interface : string) (missing_fields : list string)
| InterfaceImplementorsMixId (interface id_types : string)
| InvalidDerivedFrom (ty field reason : string)
| UsageOfReservedTypes (types : list string)
| SchemaTypeWithFields
| ImportedSubgraphNameInvalid (name : string)
| ImportedSubgraphIdInvalid (id : string)
| InvalidSchemaTypeDirectives
| ImportDirectiveInvalid
| FieldTypeUnknown (type_name field_name field_type : string)
| ImportedTypeUndefined (type_name schema : string)
| FulltextNameUndefined
| FulltextNameConflict (name : string)
| FulltextNameCollision (name : string)
| FulltextLanguageUndefined
| FulltextLanguageInvalid (language : string)
| FulltextAlgorithmUndefined
| FulltextAlgorithmInvalid (algorithm : string)
| FulltextIncludeInvalid
| FulltextIncludeUndefined
| FulltextIncludeObjectMissing
| FulltextIncludeEntityMissingOrIncorrectAttributes
| FulltextIncludedEntityNotFound
| FulltextIncludedFieldMissingRequiredProperty
| FulltextIncludedFieldInvalid (field : string).

Inductive FulltextLanguage :=
| Simple | Danish | Dutch | English | Finnish | French | German | Hungarian
| Italian | Norwegian | Portugese | Romanian | Russian | Spanish | Swedish | Turkish.

Inductive FulltextInvalid := InvalidLanguage (s : string) | InvalidAlgorithm (s : string).

Definition language_try_from (language : string) : result FulltextInvalid FulltextLanguage :=
  if decide (language = "simple") then Ok Simple
  else if decide (language = "da") then Ok Danish
  else if decide (language = "nl") then Ok Dutch
  else if decide (language = "en") then Ok English
  else if decide (language = "fi") then Ok Finnish
  else if decide (language = "fr") then Ok French
  else if decide (language = "de") then Ok German
  else if decide (language = "hu") then Ok Hungarian
  else if decide (language = "it") then Ok Italian
  else if decide (language = "no") then Ok Norwegian
  else if decide (language = "pt") then Ok Portugese
  else if decide (language = "ro") then Ok Romanian
  else if decide (language = "ru") then Ok Russian
  else if decide (language = "es") then Ok Spanish
  else if decide (language = "sv") then Ok Swedish
  else if decide (language = "tr") then Ok Turkish
  else Err (InvalidLanguage language).

Definition language_as_str (l : FulltextLanguage) : string :=
  match l with
  | Simple => "simple" | Danish => "danish" | Dutch => "dutch" | English => "english"
  | Finnish => "finnish" | French => "french" | German => "german"
  | Hungarian => "hungarian" | Italian => "italian" | Norwegian => "norwegian"
  | Portugese => "portugese" | Romanian => "romanian" | Russian => "russian"
  | Spanish => "spanish" | Swedish => "swedish" | Turkish => "turkish"
  end.

Inductive FulltextAlgorithm := Rank | ProximityRank.

Definition algorithm_try_from (algorithm : string) : result FulltextInvalid FulltextAlgorithm :=
  if decide (algorithm = "rank") then Ok Rank
  else if decide (algorithm = "proximityRank") then Ok ProximityRank
  else Err (InvalidAlgorithm algorithm).

Record FulltextDefinition := {
  ft_language : FulltextLanguage; ft_algorithm : FulltextAlgorithm;
  ft_included_fields : gset string; ft_name : string
}.

(** [directive.argument(name).unwrap()] *)
Definition unwrap_argument {E} (d : Directive) (name : string) : result E qValue :=
  expect (argument d name).

(** [FulltextDefinition::from] unwraps at every step. *)
Definition fulltext_from {E} (directive : Directive) : result E FulltextDefinition :=
  let? v := unwrap_argument directive "name" in
  let? name := expect (as_str v) in
  let? v := unwrap_argument directive "algorithm" in
  let? v := expect (as_enum v) in
  let? algorithm := expect (result_ok (algorithm_try_from v)) in
  let? v := unwrap_argument directive "language" in
  let? v := expect (as_enum v) in
  let? language := expect (result_ok (language_try_from v)) in
  let? v := unwrap_argument directive "include" in
  let? included_entity_list := expect (as_list v) in
  let? v := expect (List.hd_error included_entity_list) in
  let? included_entity := expect (as_object v) in
  let? v := expect (assoc_get "fields" included_entity) in
  let? included_field_values := expect (as_list v) in
  let? included_fields := try_map (fun field =>
    let? o := expect (as_object field) in
    let? v := expect (assoc_get "name" o) in
    expect (as_str v)) included_field_values in
  Ok {| ft_language := language; ft_algorithm := algorithm;
        ft_included_fields := list_to_set included_fields; ft_name := name |}.

(** ** Imports *)

Record ImportedType := { it_name : string; it_alias : string; it_explicit : bool }.

#[export] Instance ImportedType_eq_dec : EqDecision ImportedType.
Proof. solve_decision. Defined.
#[export, refine] Instance ImportedType_countable : Countable ImportedType :=
  inj_countable' (fun t => (it_name t, it_alias t, it_explicit t))
    (fun '(n, a, e) => {| it_name := n; it_alias := a; it_explicit := e |}) _.
Proof. by intros []. Defined.

Section Imports.
  (** [Display] of a GraphQL value *)
  Variable qvalue_display : qValue -> string.

Definition imported_type_parse (type_import : qValue) : option ImportedType :=
  match type_import with
  | QString type_name =>
      Some {| it_name := type_name; it_alias := type_name; it_explicit := false |}
  | QObject type_name_as =>
      match assoc_get "name" type_name_as, assoc_get "as" type_name_as with
      | Some name, Some az =>
          Some {| it_name := qvalue_display name; it_alias := qvalue_display az;
                  it_explicit := true |}
      | _, _ => None
      end
  | _ => None
  end.

(** A [SchemaReference] is a deployment hash. *)
Definition schema_reference_parse (value : qValue) : option DeploymentHash :=
  match value with
  | QObject map =>
      match assoc_get "id" map with
      | Some (QString id) => result_ok (deployment_hash_new id)
      | _ => None
      end
  | _ => None
  end.

(** ** Schemas *)

Record Schema := mkSchema {
  sch_id : DeploymentHash;
  sch_document : Document;
  sch_interfaces_for_type : gmap EntityType (list InterfaceType);
  sch_types_for_interface : gmap EntityType (list ObjectType);
  sch_immutable_types : gset EntityType
}.

Definition subgraph_schema_object_type (doc : Document) : option ObjectType :=
  List.find (fun t => bool_decide (obj_name t = SCHEMA_TYPE_NAME))
    (get_object_type_definitions doc).

Definition schema_type_directives (name : string) (doc : Document) : list Directive :=
  match subgraph_schema_object_type doc with
  | None => []
  | Some object => List.filter (fun d => bool_decide (dir_name d = name)) (obj_directives object)
  end.

(** [parse_types] in [imported_types] *)
Definition parse_types (import : Directive) : list ImportedType :=
  match argument import "types" with
  | Some (QList types) => omap imported_type_parse types
  | _ => []
  end.

Definition imported_types (doc : Document) : gmap ImportedType DeploymentHash :=
  collect_map (concat (map (fun import =>
    match argument import "from" with
    | None => []
    | Some from =>
        match schema_reference_parse from with
        | None => []
        | Some schema_ref => map (fun t => (t, schema_ref)) (parse_types import)
        end
    end) (schema_type_directives "import" doc))).

Definition imported_schemas (doc : Document) : list DeploymentHash :=
  omap schema_reference_parse
    (omap (fun d => argument d "from") (schema_type_directives "import" doc)).

Inductive SchemaImportError :=
| ImportedSchemaNotFound (schema_ref : DeploymentHash)
| ImportedSubgraphNotFound (schema_ref : DeploymentHash).

Section Resolve.
  (** [SubgraphStore::input_schema]; [None] stands for its error, which
      [resolve] replaces. *)
  Context (input_schema : DeploymentHash -> option Schema).

Definition reference_resolve (schema_ref : DeploymentHash) : result SchemaImportError Schema :=
  ok_or (ImportedSchemaNotFound schema_ref) (input_schema schema_ref).

Abbreviation import_state :=
  (list SchemaImportError * gmap DeploymentHash Schema * gset DeploymentHash)%type.

(** One round of the fold over the imported schemas; [recurse] is the recursive
    call. *)
Definition import_step
    (recurse : Document -> gmap DeploymentHash Schema -> gset DeploymentHash -> option import_state)
    (acc : option import_state) (schema_ref : DeploymentHash) : option import_state :=
  match acc with
  | None => None
  | Some (errors, schemas, visit_log) =>
      match reference_resolve schema_ref with
      | Ok schema =>
          let schemas := <[schema_ref := schema]> schemas in
          if decide (sch_id schema ∈ visit_log) then Some (errors, schemas, visit_log)
          else
            match recurse (sch_document schema) schemas ({[sch_id schema]} ∪ visit_log) with
            | Some (errs, schemas, visit_log) => Some (errors ++ errs, schemas, visit_log)
            | None => None
            end
      | Err err => Some (errors ++ [err], schemas, visit_log)
      | Panic => None
      end
  end.

(** [None] when the fuel runs out; every level of the recursion adds a new
    schema to the visit log. *)
Fixpoint resolve_import_graph (fuel : nat) (doc : Document)
    (schemas : gmap DeploymentHash Schema) (visit_log : gset DeploymentHash)
  : option import_state :=
  match fuel with
  | O => None
  | S fuel =>
      foldl (import_step (resolve_import_graph fuel)) (Some ([], schemas, visit_log))
        (imported_schemas doc)
  end.

Definition resolve_schema_references (fuel : nat) (self : Schema)
  : option (gmap DeploymentHash Schema * list SchemaImportError) :=
  match resolve_import_graph fuel (sch_document self) ∅ ∅ with
  | Some (errors, schemas, _) => Some (schemas, errors)
  | None => None
  end.
End Resolve.
End Imports.

(** ** Construction *)

Section Construction.
  (** [field.to_string().trim()] *)
  Variable field_display : Field -> string.

Definition validate_interface_implementation (object : ObjectType) (interface : InterfaceType)
  : result SchemaValidationError unit :=
  let missing_fields :=
    map field_display
      (List.filter (fun i =>
        negb (existsb (fun o => bool_decide (field_name o = field_name i)
                                && bool_decide (field_type o = field_type i))
                (obj_fields object))) (intf_fields interface)) in
  match missing_fields with
  | [] => Ok ()
  | _ => Err (InterfaceFieldsMissing (obj_name object) (intf_name interface) missing_fields)
  end.

Abbreviation interface_maps :=
  (gmap EntityType (list InterfaceType) * gmap EntityType (list ObjectType))%type.

(** [entry(key).or_default().push(x)] *)
Definition push_entry {A} (key : string) (x : A) (m : gmap string (list A))
  : gmap string (list A) :=
  <[key := default [] (m !! key) ++ [x]]> m.

(** The body of the inner loop of [collect_interfaces] *)
Definition collect_interface (doc : Document) (object_type : ObjectType) (maps : interface_maps)
    (implemented_interface : string) : result SchemaValidationError interface_maps :=
  let '(interfaces_for_type, types_for_interface) := maps in
  let? interface_type := ok_or (InterfaceUndefined implemented_interface)
                           (find_interface doc implemented_interface) in
  let? _ := validate_interface_implementation object_type interface_type in
  let? types := expect (types_for_interface !! implemented_interface) in
  Ok (push_entry (obj_name object_type) interface_type interfaces_for_type,
      <[implemented_interface := types ++ [object_type]]> types_for_interface).

Definition collect_interfaces (doc : Document) : result SchemaValidationError interface_maps :=
  let types_for_interface :=
    collect_map (map (fun t => (intf_name t, [])) (get_interface_type_definitions doc)) in
  try_fold (fun maps object_type =>
      try_fold (collect_interface doc object_type) maps (obj_implements_interfaces object_type))
    (∅, types_for_interface) (get_object_type_definitions doc).

Definition collect_immutable_types (doc : Document) : gset EntityType :=
  list_to_set (map obj_name (List.filter obj_is_immutable (get_object_type_definitions doc))).

Definition subgraph_id_directive (id : DeploymentHash) : Directive :=
  {| dir_name := "subgraphId"; dir_arguments := [("id", QString id)] |}.

Definition add_directive (id : DeploymentHash) (name : string) (directives : list Directive)
  : list Directive :=
  if negb (bool_decide (name = SCHEMA_TYPE_NAME))
     && negb (existsb (fun d => bool_decide (dir_name d = "subgraphId")) directives)
  then directives ++ [subgraph_id_directive id]
  else directives.

Definition add_to_definition (id : DeploymentHash) (d : Definition_) : Definition_ :=
  match d with
  | DTypeDefinition (TObject t) =>
      DTypeDefinition (TObject {|
        obj_name := obj_name t; obj_implements_interfaces := obj_implements_interfaces t;
        obj_directives := add_directive id (obj_name t) (obj_directives t);
        obj_fields := obj_fields t |})
  | DTypeDefinition (TInterface t) =>
      DTypeDefinition (TInterface {|
        intf_name := intf_name t;
        intf_directives := add_directive id (intf_name t) (intf_directives t);
        intf_fields := intf_fields t |})
  | DTypeDefinition (TEnum t) =>
      DTypeDefinition (TEnum {|
        enum_name := enum_name t;
        enum_directives := add_directive id (enum_name t) (enum_directives t);
        enum_values := enum_values t |})
  | DTypeDefinition (TScalar t) =>
      DTypeDefinition (TScalar {|
        scalar_name := scalar_name t;
        scalar_directives := add_directive id (scalar_name t) (scalar_directives t) |})
  | DTypeDefinition (TInputObject t) =>
      DTypeDefinition (TInputObject {|
        io_name := io_name t;
        io_directives := add_directive id (io_name t) (io_directives t);
        io_fields := io_fields t |})
  | DTypeDefinition (TUnion t) =>
      DTypeDefinition (TUnion {|
        union_name := union_name t;
        union_directives := add_directive id (union_name t) (union_directives t);
        union_types := union_types t |})
  | d => d
  end.

Definition add_subgraph_id_directives (id : DeploymentHash) (doc : Document) : Document :=
  {| definitions := map (add_to_definition id) (definitions doc) |}.

Definition schema_new (id : DeploymentHash) (document : Document)
  : result SchemaValidationError Schema :=
  let? maps := collect_interfaces document in
  let '(interfaces_for_type, types_for_interface) := maps in
  let immutable_types := collect_immutable_types document in
  Ok (mkSchema id (add_subgraph_id_directives id document) interfaces_for_type
        types_for_interface immutable_types).

Definition is_immutable (self : Schema) (t : EntityType) : bool :=
  bool_decide (t ∈ sch_immutable_types self).

Inductive IdValueError :=
| UnknownEntityType (key : EntityKey)
| IdHexError (e : FromHexError)
| IllegalIdType (entity_type ty : string).

Definition id_value `{Hex} (self : Schema) (key : EntityKey) : result IdValueError Value :=
  let? ty := ok_or (UnknownEntityType key)
               (get_object_type_definition (sch_document self) (entity_type key)) in
  let? id := expect (obj_field ty "id") in
  let base_type := get_base_type (field_type id) in
  if decide (base_type = "ID" \/ base_type = "String") then Ok (VString (key_entity_id key))
  else if decide (base_type = "Bytes") then
    let? b := map_err IdHexError (bytes_from_str (key_entity_id key)) in Ok (VBytes b)
  else Err (IllegalIdType (entity_type key) base_type).
End Construction.

(** ** Validation *)

Section Validation.
  Variable qvalue_display : qValue -> string.
  (** [to_camel_case] and [to_plural] of [inflector] *)
  Variables to_camel_case to_plural : string -> string.

Definition validate_schema_type_has_no_fields (doc : Document)
  : result SchemaValidationError unit :=
  match subgraph_schema_object_type doc with
  | Some t => if bool_decide (length (obj_fields t) = 0) then Ok () else Err SchemaTypeWithFields
  | None => Ok ()
  end.

Definition validate_directives_on_schema_type (doc : Document)
  : result SchemaValidationError unit :=
  match subgraph_schema_object_type doc with
  | Some t =>
      match List.find (fun d => negb (bool_decide (dir_name d = "import"))
                                && negb (bool_decide (dir_name d = "fulltext")))
              (obj_directives t) with
      | Some _ => Err InvalidSchemaTypeDirectives
      | None => Ok ()
      end
  | None => Ok ()
  end.

Definition validate_import_type (typ : qValue) : result unit unit :=
  match typ with
  | QString _ => Ok ()
  | QObject typ =>
      match assoc_get "name" typ, assoc_get "as" typ with
      | Some (QString _), Some (QString _) => Ok ()
      | _, _ => Err ()
      end
  | _ => Err ()
  end.

Definition types_are_valid (types : option qValue) : bool :=
  match types with
  | Some (QList types) => negb (is_err (try_iter validate_import_type types))
  | _ => false
  end.

Definition is_qstring (v : option qValue) : bool :=
  match v with Some (QString _) => true | _ => false end.

Definition from_is_valid (from : option qValue) : bool :=
  match from with
  | Some (QObject from) =>
      xorb (is_qstring (assoc_get "id" from)) (is_qstring (assoc_get "name" from))
  | _ => false
  end.

Definition validate_import_directive_arguments (import : Directive)
  : option SchemaValidationError :=
  if from_is_valid (argument import "from") && types_are_valid (argument import "types")
  then None else Some ImportDirectiveInvalid.

Definition validate_import_directive_schema_reference_parses (directive : Directive)
  : option SchemaValidationError :=
  match argument directive "from" with
  | Some (QObject from) =>
      let id_parse_error :=
        match assoc_get "id" from with
        | Some (QString id) =>
            if is_err (deployment_hash_new id) then Some (ImportedSubgraphIdInvalid id) else None
        | _ => None
        end in
      let name_parse_error :=
        match assoc_get "name" from with
        | Some (QString name) =>
            if is_err (subgraph_name_new name) then Some (ImportedSubgraphNameInvalid name)
            else None
        | _ => None
        end in
      match id_parse_error with Some e => Some e | None => name_parse_error end
  | _ => None
  end.

Definition opt_list {A} (o : option A) : list A := match o with Some a => [a] | None => [] end.

Definition validate_import_directives (doc : Document) : list SchemaValidationError :=
  foldl (fun errors import =>
      errors ++ opt_list (validate_import_directive_arguments import)
             ++ opt_list (validate_import_directive_schema_reference_parses import))
    [] (schema_type_directives "import" doc).

Definition validate_fulltext_directive_name {E} (doc : Document) (fulltext : Directive)
  : result E (list SchemaValidationError) :=
  match argument fulltext "name" with
  | Some (QString name) =>
      if existsb (fun typ =>
           existsb (fun field =>
             bool_decide (name = to_camel_case (field_name field))
             || bool_decide (name = to_camel_case (to_plural (field_name field)))
             || bool_decide (field_name field = name)) (obj_fields typ))
         (get_object_type_definitions doc)
      then Ok [FulltextNameCollision name]
      else
        let? schema_type := expect (subgraph_schema_object_type doc) in
        let same :=
          List.filter (fun d =>
            match argument d "name" with
            | Some (QString n) => bool_decide (name = n)
            | _ => false
            end)
            (List.filter (fun d => bool_decide (dir_name d = "fulltext"))
               (obj_directives schema_type)) in
        Ok (if (1 <? length same)%nat then [FulltextNameConflict name] else [])
  | _ => Ok [FulltextNameUndefined]
  end.

Definition validate_fulltext_directive_language (fulltext : Directive)
  : list SchemaValidationError :=
  match argument fulltext "language" with
  | Some (QEnum language) =>
      if is_ok (language_try_from language) then [] else [FulltextLanguageInvalid language]
  | _ => [FulltextLanguageUndefined]
  end.

Definition validate_fulltext_directive_algorithm (fulltext : Directive)
  : list SchemaValidationError :=
  match argument fulltext "algorithm" with
  | Some (QEnum algorithm) =>
      if is_ok (algorithm_try_from algorithm) then [] else [FulltextAlgorithmInvalid algorithm]
  | _ => [FulltextAlgorithmUndefined]
  end.

(** The early returns of [validate_fulltext_directive_includes] are errors of
    the loops. *)
Definition check_included_field (entity_type : ObjectType) (field_value : qValue)
  : result SchemaValidationError unit :=
  let? field_name_ :=
    match field_value with
    | QObject field_map =>
        match assoc_get "name" field_map with
        | Some (QString name) => Ok name
        | _ => Err FulltextIncludedFieldMissingRequiredProperty
        end
    | _ => Err FulltextIncludeEntityMissingOrIncorrectAttributes
    end in
  if existsb (fun field =>
       match value_type_from_str (get_base_type (field_type field)) with
       | Ok TString => bool_decide (field_name field = field_name_)
       | _ => false
       end) (obj_fields entity_type)
  then Ok ()
  else Err (FulltextIncludedFieldInvalid field_name_).

Definition check_include (doc : Document) (include : qValue) : result SchemaValidationError unit :=
  match as_object include with
  | None => Err FulltextIncludeObjectMissing
  | Some include_entity =>
      match assoc_get "entity" include_entity, assoc_get "fields" include_entity with
      | Some (QString entity), Some (QList fields) =>
          match List.find (fun typ => bool_decide (obj_name typ = entity))
                  (get_object_type_definitions doc) with
          | None => Err FulltextIncludedEntityNotFound
          | Some entity_type => try_iter (check_included_field entity_type) fields
          end
      | _, _ => Err FulltextIncludeEntityMissingOrIncorrectAttributes
      end
  end.

Definition validate_fulltext_directive_includes (doc : Document) (fulltext : Directive)
  : list SchemaValidationError :=
  match argument fulltext "include" with
  | Some (QList (i :: rest)) =>
      match try_iter (check_include doc) (i :: rest) with
      | Err e => [e]
      | _ => []
      end
  | _ => [FulltextIncludeUndefined]
  end.

Definition validate_fulltext_directives {E} (doc : Document)
  : result E (list SchemaValidationError) :=
  try_fold (fun errors fulltext =>
      let? name_errors := validate_fulltext_directive_name doc fulltext in
      Ok (errors ++ name_errors
            ++ validate_fulltext_directive_language fulltext
            ++ validate_fulltext_directive_algorithm fulltext
            ++ validate_fulltext_directive_includes doc fulltext))
    [] (schema_type_directives "fulltext" doc).

Definition validate_imported_type (schemas : gmap DeploymentHash Schema)
    (imported_type : ImportedType) (schema_ref : DeploymentHash) : option SchemaValidationError :=
  match schemas !! schema_ref with
  | None => None
  | Some schema =>
      let name := it_name imported_type in
      let is_local :=
        existsb (fun object => bool_decide (obj_name object = name))
          (get_object_type_definitions (sch_document schema)) in
      let is_imported :=
        existsb (fun import => bool_decide (name = it_alias import.1))
          (map_to_list (imported_types qvalue_display (sch_document schema))) in
      if negb is_local && negb is_imported then Some (ImportedTypeUndefined name schema_ref)
      else None
  end.

Definition validate_imported_types (doc : Document) (schemas : gmap DeploymentHash Schema)
  : list SchemaValidationError :=
  foldl (fun errors '(imported_type, schema_ref) =>
      errors ++ opt_list (validate_imported_type schemas imported_type schema_ref))
    [] (map_to_list (imported_types qvalue_display doc)).

(** Whether the base type of a field is known *)
Definition field_type_known (doc : Document) (base : string) : bool :=
  is_scalar base
  || bool_decide (is_Some (get_object_and_interface_type_fields doc !! base))
  || existsb (fun import => bool_decide (it_alias import.1 = base))
       (map_to_list (imported_types qvalue_display doc))
  || existsb (fun enu => bool_decide (enum_name enu = base)) (get_enum_definitions doc).

Definition validate_fields (doc : Document) : list SchemaValidationError :=
  foldl (fun errors '(type_name, fields) =>
      foldl (fun errors field =>
          let base := get_base_type (field_type field) in
          if field_type_known doc base then errors
          else errors ++ [FieldTypeUnknown type_name (field_name field) base])
        errors fields)
    [] (map_to_list (get_object_and_interface_type_fields doc)).

Definition builtin_types : list string :=
  ["Boolean"; "ID"; "Int"; "BigDecimal"; "String"; "Bytes"; "BigInt"; "Query"; "Subscription"].

Definition validate_reserved_types_usage (doc : Document) : result SchemaValidationError unit :=
  let object_types := map obj_name (get_object_type_definitions doc) in
  let interface_types := map intf_name (get_interface_type_definitions doc) in
  let filter_types := map (fun n => n +:+ "_filter") (object_types ++ interface_types) in
  let order_by_types := map (fun n => n +:+ "_orderBy") (object_types ++ interface_types) in
  let reserved_types := builtin_types ++ filter_types ++ order_by_types in
  let used :=
    List.filter (fun n => match get_named_type doc n with Some _ => true | None => false end)
      reserved_types in
  match used with
  | [] => Ok ()
  | _ => Err (UsageOfReservedTypes used)
  end.

Definition validate_schema_types (doc : Document) : result SchemaValidationError unit :=
  let types_without_entity_directive :=
    map obj_name
      (List.filter (fun t => match find_directive t "entity" with None => true | _ => false end
                             && negb (bool_decide (obj_name t = SCHEMA_TYPE_NAME)))
         (get_object_type_definitions doc)) in
  match types_without_entity_directive with
  | [] => Ok ()
  | _ => Err (EntityDirectivesMissing types_without_entity_directive)
  end.

Definition type_signatures (name : string) : list string :=
  [name; name +:+ "!"; "[" +:+ name +:+ "!]"; "[" +:+ name +:+ "!]!"].

(** The interfaces of [object_type] that have [field] *)
Definition interfaces_with_field (doc : Document) (object_type : ObjectType) (field : Field)
  : list string :=
  List.filter (fun iface =>
    match find_interface doc iface with
    | Some iface =>
        existsb (fun ifield => bool_decide (field_name ifield = field_name field))
          (intf_fields iface)
    | None => false
    end) (obj_implements_interfaces object_type).

(** The body of the loop of [validate_derived_from] for one derived field *)
Definition check_derived_from (doc : Document) (object_type : ObjectType) (field : Field)
    (directive : Directive) : result SchemaValidationError unit :=
  let invalid reason := InvalidDerivedFrom (obj_name object_type) (field_name field) reason in
  let interface_types := interfaces_with_field doc object_type field in
  let? target_field :=
    ok_or (invalid "the @derivedFrom directive must have a `field` argument")
      (argument directive "field") in
  let? target_field :=
    match target_field with
    | QString s => Ok s
    | _ => Err (invalid "the @derivedFrom `field` argument must be a string")
    end in
  let target_type_name := get_base_type (field_type field) in
  let? target_fields :=
    ok_or (invalid "type must be an existing entity or interface")
      (get_object_and_interface_type_fields doc !! target_type_name) in
  let? target_field :=
    ok_or (invalid ("field `" +:+ target_field +:+ "` does not exist on type `"
                    +:+ target_type_name +:+ "`"))
      (find_field target_fields target_field) in
  let target_field_type := get_base_type (field_type target_field) in
  if negb (bool_decide (target_field_type = obj_name object_type))
     && negb (bool_decide (target_field_type = "ID"))
     && negb (existsb (fun iface => bool_decide (target_field_type = iface)) interface_types)
  then
    let valid_types :=
      join ", " (type_signatures (obj_name object_type)
                 ++ concat (map type_signatures interface_types)) in
    Err (invalid ("field `" +:+ field_name target_field +:+ "` on type `" +:+ target_type_name
                  +:+ "` must have one of the following types: " +:+ valid_types))
  else Ok ().

(** The derived fields of all object types, with their directive *)
Definition derived_fields (doc : Document) : list (ObjectType * Field * Directive) :=
  omap (fun '(object_type, field) =>
      match find_directive field "derivedFrom" with
      | Some directive => Some (object_type, field, directive)
      | None => None
      end)
    (concat (map (fun object_type =>
       map (fun field => (object_type, field)) (obj_fields object_type))
       (get_object_type_definitions doc))).

Definition validate_derived_from (doc : Document) : result SchemaValidationError unit :=
  try_iter (fun '(object_type, field, directive) =>
    check_derived_from doc object_type field directive) (derived_fields doc).

(** The name of the type of an id, with [ID] read as [String] *)
Definition id_type_name (f : Field) : string :=
  let name := get_base_type (field_type f) in
  if decide (name = "ID") then "String" else name.

Definition validate_interface_id_type (self : Schema) : result SchemaValidationError unit :=
  try_iter (fun '(intf, obj_types) =>
      let id_types : gset string :=
        list_to_set (map id_type_name (omap (fun t => obj_field t "id") obj_types)) in
      if (1 <? size id_types)%nat
      then Err (InterfaceImplementorsMixId intf (join ", " (elements id_types)))
      else Ok ())
    (btree_iter (sch_types_for_interface self)).

Definition unwrap_errs (rs : list (result SchemaValidationError unit))
  : list SchemaValidationError :=
  omap (fun r => match r with Err e => Some e | _ => None end) rs.

Definition schema_validate (self : Schema) (schemas : gmap DeploymentHash Schema)
  : result (list SchemaValidationError) unit :=
  let doc := sch_document self in
  let errors :=
    unwrap_errs [validate_schema_types doc; validate_derived_from doc;
                 validate_schema_type_has_no_fields doc; validate_directives_on_schema_type doc;
                 validate_reserved_types_usage doc; validate_interface_id_type self] in
  let errors := errors ++ validate_fields doc in
  let errors := errors ++ validate_import_directives doc in
  let? fulltext_errors := validate_fulltext_directives doc in
  let errors := errors ++ fulltext_errors in
  let errors := errors ++ validate_imported_types doc schemas in
  match errors with
  | [] => Ok ()
  | _ => Err errors
  end.

Definition includes_entity (entity : string) (directive : Directive) : bool :=
  match argument directive "include" with
  | Some (QList includes) =>
      existsb (fun include =>
        match include with
        | QObject include =>
            match assoc_get "entity" include with
            | Some (QString fulltext_entity) => bool_decide (fulltext_entity = entity)
            | _ => false
            end
        | _ => false
        end) includes
  | _ => false
  end.

(** [allow] is the setting that permits fulltext search. *)
Definition entity_fulltext_definitions (allow : bool) (entity : string) (doc : Document)
  : result FulltextError (list FulltextDefinition) :=
  let? dirs := get_fulltext_directives allow doc in
  try_map fulltext_from (List.filter (includes_entity entity) dirs).
End Validation.
