(* ===== verification/SchemaProps.v ===== *)
(** * Correctness of schema construction and validation *)

From S2P Require Import Prelude GraphqlAst Scalars RuntimeValue Values Names StoreTypes Schema.

(** ** Interfaces *)

Section Interfaces.
  Variable field_display : Field -> string.
  Implicit Types doc : Document.

(** The object has the fields of the interface, with the same types. *)
Definition satisfies (o : ObjectType) (i : InterfaceType) : Prop :=
  forall f, f ∈ intf_fields i ->
  exists g, g ∈ obj_fields o /\ field_name g = field_name f /\ field_type g = field_type f.

Lemma validate_interface_implementation_ok o i :
  validate_interface_implementation field_display o i = Ok () <-> satisfies o i.
Proof.
  unfold validate_interface_implementation, satisfies.
  assert (Hiff : forall f, negb (existsb (fun o => bool_decide (field_name o = field_name f)
      && bool_decide (field_type o = field_type f)) (obj_fields o)) = false <->
    exists g, g ∈ obj_fields o /\ field_name g = field_name f /\ field_type g = field_type f).
  { intros f. rewrite negb_false_iff, existsb_elem. setoid_rewrite andb_true_iff.
    by setoid_rewrite bool_decide_eq_true. }
  setoid_rewrite <-Hiff. clear Hiff.
  induction (intf_fields i) as [|f fs IH]; simpl; [set_solver|].
  setoid_rewrite elem_of_cons. destruct (negb _) eqn:Hf; simpl.
  - split; [done|]. intros Hall. specialize (Hall f (or_introl eq_refl)). congruence.
  - rewrite IH. split; [|by auto]. intros Hall g [->|]; auto.
Qed.

Lemma validate_interface_implementation_total o i :
  validate_interface_implementation field_display o i <> Panic.
Proof. unfold validate_interface_implementation. by destruct (map _ _). Qed.

(** The objects that implement [i], in document order *)
Definition implements_count (o : ObjectType) (i : string) : list ObjectType :=
  map (fun _ => o) (List.filter (fun j => bool_decide (j = i)) (obj_implements_interfaces o)).
Definition implementors (objs : list ObjectType) (i : string) : list ObjectType :=
  concat (map (fun o => implements_count o i) objs).

(** The interfaces of the objects called [t] *)
Definition interfaces_of doc (objs : list ObjectType) (t : string) : list InterfaceType :=
  concat (map (fun o => if decide (obj_name o = t)
                        then omap (find_interface doc) (obj_implements_interfaces o) else []) objs).

Definition declared doc (i : string) : Prop := exists t,
  t ∈ get_interface_type_definitions doc /\ intf_name t = i.

Lemma find_interface_declared doc i t : find_interface doc i = Some t -> declared doc i /\ intf_name t = i.
Proof.
  unfold find_interface, declared, get_interface_type_definitions.
  induction (definitions doc) as [|d ds IH]; simpl; [done|].
  destruct d as [|[| |u| | |]| |]; simpl; try done.
  case_bool_decide as Hn.
  - intros [= <-]. split; [|done]. exists u. split; [left|done].
  - intros H. apply IH in H as [(w & Hw & Hi) Ht]. split; [|done]. exists w. split; [by right|done].
Qed.

Record collected doc (objs : list ObjectType) (maps : gmap string (list InterfaceType) * gmap string (list ObjectType))
  : Prop := {
  col_types i : declared doc i -> maps.2 !! i = Some (implementors objs i);
  col_undeclared i : ~ declared doc i -> maps.2 !! i = None;
  col_interfaces t : default [] (maps.1 !! t) = interfaces_of doc objs t;
  col_satisfies i o : o ∈ implementors objs i ->
    exists intf, find_interface doc i = Some intf /\ satisfies o intf
}.

(** The same for an object of which only some interfaces were read *)
Definition with_interfaces (o : ObjectType) (js : list string) : ObjectType :=
  {| obj_name := obj_name o; obj_implements_interfaces := js;
     obj_directives := obj_directives o; obj_fields := obj_fields o |}.

Record collecting doc objs o js (maps : gmap string (list InterfaceType) * gmap string (list ObjectType))
  : Prop := {
  cin_types i : declared doc i -> maps.2 !! i =
    Some (implementors objs i ++ map (fun _ => o) (List.filter (fun j => bool_decide (j = i)) js));
  cin_undeclared i : ~ declared doc i -> maps.2 !! i = None;
  cin_interfaces t : default [] (maps.1 !! t) =
    interfaces_of doc objs t ++ (if decide (obj_name o = t) then omap (find_interface doc) js else []);
  cin_satisfies j : j ∈ js -> exists intf, find_interface doc j = Some intf /\ satisfies o intf
}.

Lemma collect_interface_step doc objs o js maps j maps' :
  collecting doc objs o js maps ->
  collect_interface field_display doc o maps j = Ok maps' ->
  collecting doc objs o (js ++ [j]) maps'.
Proof.
  intros [Ht Hu Hi Hs]. destruct maps as [ift tfi]. unfold collect_interface. intros. inv_result.
  match goal with H : validate_interface_implementation _ _ _ = Ok ?u |- _ =>
    destruct u; apply validate_interface_implementation_ok in H as Hsat end.
  match goal with H : find_interface _ _ = Some ?x |- _ =>
    rename x into intf; rename H into Hf; destruct (find_interface_declared _ _ _ Hf) as [Hd _] end.
  match goal with H : tfi !! j = Some ?x |- _ => rename x into types; rename H into Hj end.
  split; simpl in *.
  - intros i Hdi. rewrite List.filter_app, map_app. simpl. destruct (decide (j = i)) as [->|Hne].
    + rewrite lookup_insert_eq, bool_decide_true by done. rewrite Ht in Hj by done.
      simplify_eq. simpl. by rewrite app_assoc.
    + rewrite lookup_insert_ne, bool_decide_false by done. simpl. rewrite app_nil_r. by apply Ht.
  - intros i Hdi. rewrite lookup_insert_ne by (intros ->; done). by apply Hu.
  - intros t. unfold push_entry. rewrite omap_app. simpl. rewrite Hf.
    destruct (decide (obj_name o = t)) as [Hot|Hne].
    + rewrite <-Hot, lookup_insert_eq. simpl. rewrite Hi, decide_True by done. by rewrite app_assoc.
    + rewrite lookup_insert_ne by done. rewrite Hi. by rewrite decide_False by done.
  - intros i [Hin|Hin%list_elem_of_singleton]%elem_of_app; [by apply Hs|]. subst. eauto.
Qed.

Lemma collected_step doc objs o maps maps' :
  collected doc objs maps ->
  try_fold (collect_interface field_display doc o) maps (obj_implements_interfaces o) = Ok maps' ->
  collected doc (objs ++ [o]) maps'.
Proof.
  intros [Ht Hu Hi Hs] Hfold.
  assert (Hc : collecting doc objs o (obj_implements_interfaces o) maps').
  { eapply (try_fold_inv _ (collecting doc objs o)); [|intros; by eapply collect_interface_step|exact Hfold].
    split; simpl; [intros i Hd; rewrite app_nil_r; by apply Ht|done| |set_solver].
    intros t. rewrite Hi. case_decide; by rewrite app_nil_r. }
  destruct Hc as [Ht' Hu' Hi' Hs']. split; unfold implementors, interfaces_of in *.
  - intros i Hd. rewrite map_app, concat_app. simpl. rewrite app_nil_r. by apply Ht'.
  - done.
  - intros t. rewrite map_app, concat_app. simpl. rewrite app_nil_r. apply Hi'.
  - intros i x. rewrite map_app, concat_app, elem_of_app. intros [Hx|Hx]; [by apply Hs|].
    simpl in Hx. rewrite app_nil_r in Hx. apply list_elem_of_fmap in Hx as (j & -> & Hj).
    apply list_elem_of_In, List.filter_In in Hj as [Hj Heq%bool_decide_eq_true]. subst j.
    apply Hs'. by apply list_elem_of_In.
Qed.

Lemma collected_init doc :
  collected doc [] (∅, collect_map (map (fun t => (intf_name t, [])) (get_interface_type_definitions doc))).
Proof.
  set (l := map _ _). assert (Hl : forall i, declared doc i <-> exists v, (i, v) ∈ l).
  { intros i. unfold l, declared. setoid_rewrite list_elem_of_fmap.
    split; [intros (t & Ht & <-); eauto|]. intros (v & t & [= -> ->] & Ht). eauto. }
  split; simpl; try set_solver.
  - intros i Hd%Hl. apply collect_map_is_Some in Hd as [v Hv]. rewrite Hv. f_equal.
    apply collect_map_Some, list_elem_of_fmap in Hv as (t & [= _ ->] & _). done.
  - intros i Hd. apply eq_None_not_Some. rewrite collect_map_is_Some. by rewrite <-Hl.
Qed.

Lemma collect_interfaces_total doc : collect_interfaces field_display doc <> Panic.
Proof.
  unfold collect_interfaces.
  apply (try_fold_no_panic _ (fun maps => forall i, declared doc i -> is_Some (maps.2 !! i))).
  { intros i Hd. simpl. rewrite (col_types _ _ _ (collected_init doc)) by done. done. }
  intros o maps _ Hmaps. split.
  - apply (try_fold_no_panic _ (fun maps => forall i, declared doc i -> is_Some (maps.2 !! i))); [done|].
    intros j [ift tfi] _ Htfi. simpl in Htfi. unfold collect_interface.
    destruct (find_interface doc j) as [intf|] eqn:Hf; simpl; [|done].
    pose proof (validate_interface_implementation_total o intf) as Htot.
    destruct (validate_interface_implementation _ _ _) as [[]| |]; simpl; [|done|done].
    destruct (find_interface_declared _ _ _ Hf) as [[types Htypes]%Htfi _]. rewrite Htypes. simpl.
    split; [done|]. intros maps2 [= <-] i Hd. simpl.
    destruct (decide (j = i)) as [->|]; [by rewrite lookup_insert_eq|].
    rewrite lookup_insert_ne by done. by apply Htfi.
  - intros maps2 Hrun i Hd. revert i Hd.
    eapply (try_fold_inv _ (fun _ maps => forall i, declared doc i -> is_Some (maps.2 !! i)));
      [done| |exact Hrun].
    intros pre j [ift tfi] maps3 Htfi Hstep i Hd. unfold collect_interface in Hstep. inv_result.
    destruct (decide (j = i)) as [->|]; [by rewrite lookup_insert_eq|].
    rewrite lookup_insert_ne by done. by apply Htfi.
Qed.

(** [collect_interfaces] never panics on the entry it unwraps, and when it
    succeeds the maps are exact: every declared interface, and nothing else, has
    an entry with the object types that implement it in document order; the
    entry of a type lists the interfaces it names; and every implementor has
    the fields of the interface with the same types. *)
Theorem collect_interfaces_correct doc :
  collect_interfaces field_display doc <> Panic /\
  forall maps, collect_interfaces field_display doc = Ok maps ->
               collected doc (get_object_type_definitions doc) maps.
Proof.
  split; [apply collect_interfaces_total|]. intros maps Hrun.
  eapply (try_fold_inv _ (collected doc)); [apply collected_init| |exact Hrun].
  intros pre o m1 m2. apply collected_step.
Qed.
End Interfaces.

(** ** Fulltext definitions *)

Section Fulltext.
  Variables to_camel_case to_plural : string -> string.
  Implicit Types doc : Document.

Lemma check_included_field_total t v : check_included_field t v <> Panic.
Proof.
  unfold check_included_field. destruct v as [| | | | | | | |o]; simpl; try done.
  destruct (assoc_get "name" o) as [[]|]; simpl; try done. by destruct (existsb _ _).
Qed.

Lemma check_include_total doc i : check_include doc i <> Panic.
Proof.
  unfold check_include. destruct (as_object i) as [o|]; [|done].
  destruct (assoc_get "entity" o) as [[]|]; try done.
  destruct (assoc_get "fields" o) as [[]|]; try done.
  destruct (List.find _ _) as [t|]; [|done].
  apply try_iter_no_panic, check_included_field_total.
Qed.

Lemma includes_valid doc d :
  validate_fulltext_directive_includes doc d = [] ->
  exists i rest, argument d "include" = Some (QList (i :: rest)) /\ check_include doc i = Ok ().
Proof.
  unfold validate_fulltext_directive_includes.
  destruct (argument d "include") as [[| | | | | | |[|i rest]|]|] eqn:Ha; try done.
  pose proof (try_iter_no_panic (check_include doc) (i :: rest) (check_include_total doc)) as Hnp.
  destruct (try_iter _ _) as [[]|e|] eqn:Hit; try done.
  intros _. apply try_iter_ok, Forall_cons in Hit as [Hi _]. eauto.
Qed.

Lemma included_field_name t v :
  check_included_field t v = Ok () ->
  exists o name, as_object v = Some o /\ assoc_get "name" o = Some (QString name).
Proof.
  unfold check_included_field. destruct v as [| | | | | | | |o]; simpl; try done.
  destruct (assoc_get "name" o) as [[]|] eqn:Hn; simpl; try done. eauto.
Qed.

Lemma included_entity doc i :
  check_include doc i = Ok () ->
  exists o fields t, as_object i = Some o /\ assoc_get "fields" o = Some (QList fields) /\
    Forall (fun f => check_included_field t f = Ok ()) fields.
Proof.
  unfold check_include. destruct (as_object i) as [o|]; [|done].
  destruct (assoc_get "entity" o) as [[]|]; try done.
  destruct (assoc_get "fields" o) as [[| | | | | | |fields|]|] eqn:Hf; try done.
  destruct (List.find _ _) as [t|]; [|done]. intros Hit%try_iter_ok. by exists o, fields, t.
Qed.

Lemma fulltext_from_valid {E} doc d name :
  argument d "name" = Some (QString name) ->
  validate_fulltext_directive_language d = [] ->
  validate_fulltext_directive_algorithm d = [] ->
  validate_fulltext_directive_includes doc d = [] ->
  exists ft, fulltext_from (E:=E) d = Ok ft /\ ft_name ft = name.
Proof.
  intros Hn Hl Ha Hi. unfold fulltext_from, unwrap_argument. rewrite Hn. simpl.
  unfold validate_fulltext_directive_language in Hl.
  unfold validate_fulltext_directive_algorithm in Ha.
  destruct (argument d "algorithm") as [[]|]; try done. simpl.
  destruct (algorithm_try_from e) as [alg| |]; try done. simpl.
  destruct (argument d "language") as [[]|]; try done. simpl.
  destruct (language_try_from e0) as [lang| |]; try done. simpl.
  destruct (includes_valid _ _ Hi) as (i & rest & -> & Hci). simpl.
  destruct (included_entity _ _ Hci) as (o & fields & t & -> & Hf & Hall). simpl. rewrite Hf. simpl.
  assert (Hm : exists names, try_map (E:=E) (fun field =>
    let? o := expect (as_object field) in
    let? v := expect (assoc_get "name" o) in
    expect (as_str v)) fields = Ok names).
  { clear Hf. induction Hall as [|f fs Hfd Hall IH]; [by eexists|].
    destruct IH as [names IH]. destruct (included_field_name _ _ Hfd) as (fo & n & Ho & Hname).
    simpl. rewrite Ho. simpl. rewrite Hname. simpl. rewrite IH. by eexists. }
  destruct Hm as [names ->]. simpl. eauto.
Qed.

Lemma validate_fulltext_each doc d :
  validate_fulltext_directives (E:=Empty_set) to_camel_case to_plural doc = Ok [] ->
  d ∈ schema_type_directives "fulltext" doc ->
  validate_fulltext_directive_name (E:=Empty_set) to_camel_case to_plural doc d = Ok [] /\
  validate_fulltext_directive_language d = [] /\
  validate_fulltext_directive_algorithm d = [] /\
  validate_fulltext_directive_includes doc d = [].
Proof.
  unfold validate_fulltext_directives. set (f := fun errors fulltext => _).
  intros Hrun. revert d.
  assert (Hinv : forall l s, try_fold f s l = Ok [] -> s = [] /\ forall d, d ∈ l ->
    validate_fulltext_directive_name (E:=Empty_set) to_camel_case to_plural doc d = Ok [] /\
    validate_fulltext_directive_language d = [] /\
    validate_fulltext_directive_algorithm d = [] /\
    validate_fulltext_directive_includes doc d = []).
  { intros l. induction l as [|x l IH]; intros s; simpl; [intros [= ->]; set_solver|].
    intros (s1 & Hs1 & Hl)%bind_ok. apply IH in Hl as [-> Hl].
    unfold f in Hs1. apply bind_ok in Hs1 as (ne & Hne & Heq). injection Heq as Heq.
    apply app_nil in Heq as [-> Heq]. apply app_nil in Heq as [-> Heq].
    apply app_nil in Heq as [? Heq]. apply app_nil in Heq as [? ?].
    split; [done|]. intros d [->|Hd]%elem_of_cons; auto. }
  by apply Hinv in Hrun as [_ Hall].
Qed.

(** Turning a fulltext directive into a definition unwraps every part of it;
    on a schema whose fulltext directives pass validation none of these unwraps
    panics, and the definition has the name of the directive. *)
Theorem validated_fulltext_converts doc d :
  validate_fulltext_directives (E:=Empty_set) to_camel_case to_plural doc = Ok [] ->
  d ∈ schema_type_directives "fulltext" doc ->
  exists ft, fulltext_from (E:=Empty_set) d = Ok ft /\
             argument d "name" = Some (QString (ft_name ft)).
Proof.
  intros Hv Hd. destruct (validate_fulltext_each _ _ Hv Hd) as (Hname & Hl & Ha & Hi).
  unfold validate_fulltext_directive_name in Hname.
  destruct (argument d "name") as [[]|] eqn:Hn; try done.
  destruct (fulltext_from_valid (E:=Empty_set) doc d s Hn Hl Ha Hi) as (ft & Hft & Hnm).
  exists ft. by rewrite Hnm.
Qed.
End Fulltext.

(** ** The import graph *)

Section ImportGraph.
  Variable input_schema : DeploymentHash -> option Schema.
  (** The deployments of the store, and that schemas are known by their id *)
  Variable deployments : gset DeploymentHash.

Definition store_wf : Prop :=
  (forall r s, input_schema r = Some s -> sch_id s ∈ deployments) /\
  (forall r r' s s', input_schema r = Some s -> input_schema r' = Some s' ->
                     sch_id s = sch_id s' -> s = s').

(** References that can be reached from the references [l] *)
Inductive reachable (l : list DeploymentHash) : DeploymentHash -> Prop :=
| reach_here r : r ∈ l -> reachable l r
| reach_import r s r' :
    reachable l r -> input_schema r = Some s -> r' ∈ imported_schemas (sch_document s) ->
    reachable l r'.

Abbreviation state := (list SchemaImportError * gmap DeploymentHash Schema * gset DeploymentHash)%type.

(** The reference was dealt with: its schema is there and visited, or the error
    that it is missing. *)
Definition handled (st : state) (r : DeploymentHash) : Prop :=
  match input_schema r with
  | Some s => st.1.2 !! r = Some s /\ sch_id s ∈ st.2
  | None => ImportedSchemaNotFound r ∈ st.1.1
  end.

Definition good_schemas (m : gmap DeploymentHash Schema) : Prop :=
  forall r s, m !! r = Some s -> input_schema r = Some s.

(** What following the references [l] from [schemas0] and [log0] has done *)
Record explored (l : list DeploymentHash) (schemas0 : gmap DeploymentHash Schema)
    (log0 : gset DeploymentHash) (st : state) : Prop := {
  ex_good : good_schemas st.1.2;
  ex_schemas : schemas0 ⊆ st.1.2;
  ex_log : log0 ⊆ st.2;
  ex_handled r : r ∈ l -> handled st r;
  ex_new r s r' : input_schema r = Some s -> sch_id s ∈ st.2 -> sch_id s ∉ log0 ->
    r' ∈ imported_schemas (sch_document s) -> handled st r';
  ex_sound r : is_Some (st.1.2 !! r) -> is_Some (schemas0 !! r) \/ reachable l r;
  ex_errors e : e ∈ st.1.1 ->
    exists r, e = ImportedSchemaNotFound r /\ reachable l r /\ input_schema r = None
}.

Lemma handled_mono errs schemas log errs' schemas' log' r :
  schemas ⊆ schemas' -> log ⊆ log' -> handled (errs, schemas, log) r ->
  handled (errs ++ errs', schemas', log') r.
Proof.
  unfold handled. destruct (input_schema r) as [s|]; simpl; intros Hs Hl.
  - intros [Hr Hid]. split; [by eapply lookup_weaken|set_solver].
  - rewrite elem_of_app. auto.
Qed.

Lemma reachable_mono l l' r : (forall x, x ∈ l -> reachable l' x) -> reachable l r -> reachable l' r.
Proof. intros Hl. induction 1; [auto|]. by eapply reach_import. Qed.

Lemma reachable_snoc l r x : reachable l x -> reachable (l ++ [r]) x.
Proof. apply reachable_mono. intros y Hy. apply reach_here, elem_of_app. auto. Qed.

Lemma good_insert schemas r s :
  good_schemas schemas -> input_schema r = Some s ->
  good_schemas (<[r := s]> schemas) /\ schemas ⊆ <[r := s]> schemas.
Proof.
  intros Hg Hr. split.
  - intros r' s'. destruct (decide (r = r')) as [->|]; [|rewrite lookup_insert_ne by done; apply Hg].
    rewrite lookup_insert_eq. by intros [= ->].
  - apply map_subseteq_spec. intros r' s' Hs'. destruct (decide (r = r')) as [->|];
      [|by rewrite lookup_insert_ne]. rewrite lookup_insert_eq. apply Hg in Hs'. congruence.
Qed.

Lemma explored_init schemas log : good_schemas schemas -> explored [] schemas log ([], schemas, log).
Proof. intros Hg. split; simpl; set_solver. Qed.

(** A missing schema *)
Lemma explored_missing l schemas0 log0 errs schemas log r :
  explored l schemas0 log0 (errs, schemas, log) -> input_schema r = None ->
  explored (l ++ [r]) schemas0 log0 (errs ++ [ImportedSchemaNotFound r], schemas, log).
Proof.
  intros [Hg Hs Hl Hh Hn Hso He] Hr. simpl in *.
  assert (Hmono : forall x, handled (errs, schemas, log) x ->
    handled (errs ++ [ImportedSchemaNotFound r], schemas, log) x) by (intros x; by apply handled_mono).
  split; simpl; try done.
  - intros x [Hx|Hx%list_elem_of_singleton]%elem_of_app; [by apply Hmono, Hh|].
    subst. unfold handled. rewrite Hr. simpl. set_solver.
  - intros x s x' Hx Hid Hnew Hx'. by eapply Hmono, Hn.
  - intros x Hx. apply Hso in Hx as [|]; [by left|right; by apply reachable_snoc].
  - intros e [Hx|Hx%list_elem_of_singleton]%elem_of_app.
    + destruct (He _ Hx) as (x & -> & Hreach & Hnone). exists x. auto using reachable_snoc.
    + subst. exists r. split_and!; [done| |done]. apply reach_here. set_solver.
Qed.

(** A schema that was visited before *)
Lemma explored_visited l schemas0 log0 errs schemas log r s :
  explored l schemas0 log0 (errs, schemas, log) -> input_schema r = Some s -> sch_id s ∈ log ->
  explored (l ++ [r]) schemas0 log0 (errs, <[r := s]> schemas, log).
Proof.
  intros [Hg Hs Hl Hh Hn Hso He] Hr Hid. simpl in *.
  destruct (good_insert schemas r s Hg Hr) as [Hg' Hsub].
  assert (Hmono : forall x, handled (errs, schemas, log) x -> handled (errs, <[r:=s]> schemas, log) x).
  { intros x Hx. rewrite <-(app_nil_r errs). by apply (handled_mono errs schemas log). }
  split; simpl; try done; [by etrans|..].
  - intros x [Hx|Hx%list_elem_of_singleton]%elem_of_app; [auto|].
    subst. unfold handled. rewrite Hr. simpl. by rewrite lookup_insert_eq.
  - intros x s' x' Hx Hid' Hnew Hx'. by eapply Hmono, Hn.
  - intros x. destruct (decide (r = x)) as [->|].
    + intros _. right. apply reach_here. set_solver.
    + rewrite lookup_insert_ne by done. intros Hx. apply Hso in Hx as [|]; auto using reachable_snoc.
  - intros e Hx. destruct (He _ Hx) as (x & -> & Hreach & Hnone). exists x. auto using reachable_snoc.
Qed.

(** A new schema, whose own imports were then explored *)
Lemma explored_recurse l schemas0 log0 errs schemas log r s errs' schemas' log' :
  store_wf ->
  explored l schemas0 log0 (errs, schemas, log) -> input_schema r = Some s ->
  explored (imported_schemas (sch_document s)) (<[r := s]> schemas) ({[sch_id s]} ∪ log)
    (errs', schemas', log') ->
  explored (l ++ [r]) schemas0 log0 (errs ++ errs', schemas', log').
Proof.
  intros [_ Hinj] [Hg Hs Hl Hh Hn Hso He] Hr [Hg' Hs' Hl' Hh' Hn' Hso' He']. simpl in *.
  destruct (good_insert schemas r s Hg Hr) as [_ Hsub].
  assert (Hm1 : forall x, handled (errs, schemas, log) x -> handled (errs ++ errs', schemas', log') x).
  { intros x. apply handled_mono; [by etrans|set_solver]. }
  assert (Hm2 : forall x, handled (errs', schemas', log') x -> handled (errs ++ errs', schemas', log') x).
  { intros x. unfold handled. destruct (input_schema x); simpl; [done|]. set_solver. }
  assert (Hreach : forall x, reachable (imported_schemas (sch_document s)) x -> reachable (l ++ [r]) x).
  { intros x. apply reachable_mono. intros y Hy. eapply reach_import; [|done..]. apply reach_here. set_solver. }
  split; simpl; try done; [by etrans; [|etrans]|set_solver|..].
  - intros x [Hx|Hx%list_elem_of_singleton]%elem_of_app; [by apply Hm1, Hh|].
    subst. unfold handled. rewrite Hr. simpl. split; [|set_solver].
    eapply lookup_weaken; [|done]. apply lookup_insert_eq.
  - intros x s' x' Hx Hid' Hnew Hx'. destruct (decide (sch_id s' = sch_id s)) as [Heq|Hne].
    + assert (s' = s) as -> by by eapply Hinj. by apply Hm2, Hh'.
    + destruct (decide (sch_id s' ∈ log)); [by eapply Hm1, Hn|]. eapply Hm2, Hn'; [done..| |done].
      set_solver.
  - intros x Hx. apply Hso' in Hx as [Hx|Hx]; [|auto]. destruct (decide (r = x)) as [->|].
    + right. apply reach_here. set_solver.
    + rewrite lookup_insert_ne in Hx by done. apply Hso in Hx as [|]; auto using reachable_snoc.
  - intros e [Hx|Hx]%elem_of_app.
    + destruct (He _ Hx) as (x & -> & Hx' & Hnone). exists x. auto using reachable_snoc.
    + destruct (He' _ Hx) as (x & -> & Hx' & Hnone). exists x. auto.
Qed.

Lemma resolve_explores fuel doc schemas log :
  store_wf -> good_schemas schemas -> size (deployments ∖ log) < fuel ->
  exists st, resolve_import_graph input_schema fuel doc schemas log = Some st /\
             explored (imported_schemas doc) schemas log st.
Proof.
  intros Hwf. revert doc schemas log. induction fuel as [|fuel IH]; intros doc schemas log Hg Hsize; [lia|].
  cbn [resolve_import_graph]. set (step := import_step _ _).
  induction (imported_schemas doc) as [|r l IHl] using rev_ind.
  { eexists. split; [done|]. by apply explored_init. }
  destruct IHl as ([[errs schemas1] log1] & Hfold & Hex). rewrite foldl_app, Hfold. simpl.
  unfold reference_resolve. destruct (input_schema r) as [s|] eqn:Hr; simpl.
  2:{ eexists. split; [done|]. by apply explored_missing. }
  destruct (decide (sch_id s ∈ log1)) as [Hv|Hv].
  { eexists. split; [done|]. by apply explored_visited. }
  pose proof Hex as [Hg1 _ Hl1 _ _ _ _]. simpl in Hg1, Hl1.
  destruct (IH (sch_document s) (<[r := s]> schemas1) ({[sch_id s]} ∪ log1))
    as ([[errs' schemas'] log'] & Hrec & Hex').
  - by apply good_insert.
  - assert (sch_id s ∈ deployments) by by eapply Hwf.
    assert (size (deployments ∖ ({[sch_id s]} ∪ log1)) < size (deployments ∖ log)); [|lia].
    apply subset_size. set_solver.
  - rewrite Hrec. eexists. split; [done|]. by eapply explored_recurse.
Qed.

(** C28: [resolve_schema_references] ends, also when schemas import each other in
    cycles, and it is exact: the returned map has precisely the references
    reachable from the schema through imports whose schema the store has, and
    the errors name precisely the reachable references it does not have.  One
    more step than there are deployments is enough. *)
Theorem resolve_schema_references_correct (self : Schema) :
  store_wf ->
  exists schemas errors,
    resolve_schema_references input_schema (S (size deployments)) self = Some (schemas, errors) /\
    (forall r s, schemas !! r = Some s <->
       reachable (imported_schemas (sch_document self)) r /\ input_schema r = Some s) /\
    (forall e, e ∈ errors <->
       exists r, e = ImportedSchemaNotFound r /\
         reachable (imported_schemas (sch_document self)) r /\ input_schema r = None).
Proof.
  intros Hwf. unfold resolve_schema_references.
  destruct (resolve_explores (S (size deployments)) (sch_document self) ∅ ∅ Hwf)
    as ([[errors schemas] log] & Hrun & Hex); [done| |].
  { rewrite difference_empty_L. lia. }
  rewrite Hrun. exists schemas, errors. split; [done|].
  destruct Hex as [Hg _ _ Hh Hn Hso He]. simpl in *.
  assert (Hall : forall r, reachable (imported_schemas (sch_document self)) r ->
    handled (errors, schemas, log) r).
  { induction 1 as [r Hr|r s r' Hr IH Hs Hr']; [by apply Hh|].
    unfold handled in IH. rewrite Hs in IH. simpl in IH. eapply Hn; [done|apply IH|set_solver|done]. }
  split.
  - intros r s. split.
    + intros Hr. split; [|by apply Hg]. destruct (Hso r) as [[x Hx]|]; [done| |done].
      by rewrite lookup_empty in Hx.
    + intros [Hr Hs]. specialize (Hall r Hr). unfold handled in Hall. rewrite Hs in Hall. apply Hall.
  - intros e. split; [apply He|]. intros (r & -> & Hr & Hs). specialize (Hall r Hr).
    unfold handled in Hall. by rewrite Hs in Hall.
Qed.
End ImportGraph.

(** ** Witnesses *)

Definition example_display (v : qValue) : string :=
  match v with QString s => String "034" (s +:+ String "034" EmptyString) | _ => EmptyString end.

Definition entity_directive : Directive := {| dir_name := "entity"; dir_arguments := [] |}.

Definition mk_field (name : string) (ty : sType) (dirs : list Directive) : Field :=
  {| field_name := name; field_arguments := []; field_type := ty; field_directives := dirs |}.

Definition mk_object (name : string) (intfs : list string) (dirs : list Directive)
    (fields : list Field) : Definition_ :=
  DTypeDefinition (TObject {| obj_name := name; obj_implements_interfaces := intfs;
                              obj_directives := dirs; obj_fields := fields |}).

Definition example_fulltext : Directive :=
  {| dir_name := "fulltext"; dir_arguments := [
     ("name", QString "search"); ("language", QEnum "en"); ("algorithm", QEnum "rank");
     ("include", QList [QObject [("entity", QString "Band");
        ("fields", QList [QObject [("name", QString "name")]])]])] |}.

Definition example_document : Document := {| definitions := [
  mk_object SCHEMA_TYPE_NAME [] [example_fulltext] [];
  DTypeDefinition (TInterface {| intf_name := "Named"; intf_directives := [];
    intf_fields := [mk_field "id" (NonNullType (NamedType "ID")) []] |});
  mk_object "Band" ["Named"] [entity_directive]
    [mk_field "id" (NonNullType (NamedType "ID")) [];
     mk_field "name" (NonNullType (NamedType "String")) [];
     mk_field "albums" (NonNullType (ListType (NonNullType (NamedType "Album"))))
       [{| dir_name := "derivedFrom"; dir_arguments := [("field", QString "band")] |}]];
  mk_object "Album" [] [entity_directive]
    [mk_field "id" (NonNullType (NamedType "Bytes")) [];
     mk_field "band" (NonNullType (NamedType "Band")) []]] |}.

Definition example_schema : Schema :=
  match schema_new field_name "QmMusic" example_document with
  | Ok s => s
  | _ => mkSchema "QmMusic" example_document ∅ ∅ ∅
  end.

Lemma validated_fulltext_converts_witness :
  exists ft, fulltext_from (E:=Empty_set) example_fulltext = Ok ft /\
             argument example_fulltext "name" = Some (QString (ft_name ft)).
Proof.
  apply (validated_fulltext_converts (fun s => s) (fun s => s +:+ "s") example_document);
    [by vm_compute|left].
Defined.

(** Two schemas that import each other, one of which also imports a missing one *)
Definition import_from (id : string) : Directive :=
  {| dir_name := "import"; dir_arguments := [("from", QObject [("id", QString id)])] |}.

Definition cyclic_store (h : DeploymentHash) : option Schema :=
  if decide (h = "QmA")
  then Some (mkSchema "QmA" {| definitions := [mk_object SCHEMA_TYPE_NAME []
               [import_from "QmB"; import_from "QmMissing"] []] |} ∅ ∅ ∅)
  else if decide (h = "QmB")
  then Some (mkSchema "QmB" {| definitions := [mk_object SCHEMA_TYPE_NAME []
               [import_from "QmA"] []] |} ∅ ∅ ∅)
  else None.

Lemma cyclic_store_wf : store_wf cyclic_store {["QmA"; "QmB"]}.
Proof.
  unfold store_wf, cyclic_store. split.
  - intros r s. repeat case_decide; intros; simplify_eq; simpl; set_solver.
  - intros r r' s s'. repeat case_decide; intros; simplify_eq; simpl in *; done.
Qed.

Lemma resolve_schema_references_correct_witness :
  exists schemas errors,
    resolve_schema_references cyclic_store 3
      (mkSchema "QmC" {| definitions := [mk_object SCHEMA_TYPE_NAME [] [import_from "QmA"] []] |} ∅ ∅ ∅)
    = Some (schemas, errors).
Proof.
  destruct (resolve_schema_references_correct cyclic_store {["QmA"; "QmB"]}
    (mkSchema "QmC" {| definitions := [mk_object SCHEMA_TYPE_NAME [] [import_from "QmA"] []] |} ∅ ∅ ∅)
    cyclic_store_wf) as (schemas & errors & Hrun & _).
  by exists schemas, errors.
Defined.
