(* ===== verification/SchemaValid.v ===== *)
(** * The schemas that pass validation

    [Schema::validate] accepts exactly the schemas that are valid, where
    validity is said in terms of the definitions of the document: one condition
    for each thing that can be wrong. *)

From S2P Require Import Prelude GraphqlAst Scalars RuntimeValue Values Names StoreTypes Schema.
From S2P Require Import SchemaProps.

Section SchemaValid.
  Variable qvalue_display : qValue -> string.
  Variables to_camel_case to_plural : string -> string.
  Implicit Types (doc : Document) (o : ObjectType) (f : Field) (d : Directive).

(** ** Validity *)

Definition object_in doc o : Prop := DTypeDefinition (TObject o) ∈ definitions doc.
Definition interface_in doc (i : InterfaceType) : Prop := DTypeDefinition (TInterface i) ∈ definitions doc.

(** Every object type but [_Schema_] is an entity. *)
Definition types_are_entities doc : Prop :=
  forall o, object_in doc o -> obj_name o <> SCHEMA_TYPE_NAME ->
    exists d, d ∈ obj_directives o /\ dir_name d = "entity".

(** The target of a derived field is a field of the type of the derived field.
    The type of the target is the type that has the derived field, or an
    interface of that type that has the derived field too, or [ID]. *)
Definition derived_valid doc o f d : Prop :=
  exists name fields target,
    argument d "field" = Some (QString name) /\
    get_object_and_interface_type_fields doc !! get_base_type (field_type f) = Some fields /\
    find_field fields name = Some target /\
    let ty := get_base_type (field_type target) in
    ty = obj_name o \/ ty = "ID" \/
    (ty ∈ obj_implements_interfaces o /\
     exists i g, find_interface doc ty = Some i /\ g ∈ intf_fields i /\ field_name g = field_name f).

Definition derivations_valid doc : Prop :=
  forall o f d, object_in doc o -> f ∈ obj_fields o -> find_directive f "derivedFrom" = Some d ->
    derived_valid doc o f d.

(** The type [_Schema_] has no fields, and only directives that import types or
    define a fulltext search. *)
Definition schema_type_valid doc : Prop :=
  forall o, subgraph_schema_object_type doc = Some o ->
    obj_fields o = [] /\
    forall d, d ∈ obj_directives o -> dir_name d = "import" \/ dir_name d = "fulltext".

(** No type takes the name of a built in type, or of a type that is generated for
    an object or interface type. *)
Definition reserved doc (n : string) : Prop :=
  n ∈ ["Boolean"; "ID"; "Int"; "BigDecimal"; "String"; "Bytes"; "BigInt"; "Query"; "Subscription"] \/
  exists t, ((exists o, object_in doc o /\ obj_name o = t) \/ (exists i, interface_in doc i /\ intf_name i = t)) /\
    (n = t +:+ "_filter" \/ n = t +:+ "_orderBy").

Definition names_free doc : Prop :=
  forall t, DTypeDefinition t ∈ definitions doc -> ~ reserved doc (typedef_name t).

(** The ids of the types that implement an interface have the same type, where
    [ID] is a [String]. *)
Definition ids_agree (self : Schema) : Prop :=
  forall i types o o' f f', sch_types_for_interface self !! i = Some types ->
    o ∈ types -> o' ∈ types -> obj_field o "id" = Some f -> obj_field o' "id" = Some f' ->
    id_type_name f = id_type_name f'.

(** The type of each field is a scalar, an object type, an interface, an enum, or
    a type that is imported under this name. *)
Definition type_known doc (base : string) : Prop :=
  base ∈ ["Boolean"; "BigInt"; "Bytes"; "BigDecimal"; "Int"; "String"; "ID"] \/
  (exists o, object_in doc o /\ obj_name o = base) \/
  (exists i, interface_in doc i /\ intf_name i = base) \/
  (exists e, DTypeDefinition (TEnum e) ∈ definitions doc /\ enum_name e = base) \/
  (exists t h, imported_types qvalue_display doc !! t = Some h /\ it_alias t = base).

Definition field_types_known doc : Prop :=
  forall t fields f, get_object_and_interface_type_fields doc !! t = Some fields -> f ∈ fields ->
    type_known doc (get_base_type (field_type f)).

(** An import names a schema, by an id or by a name but not by both, and lists
    types, each by its name or with an alias. *)
Definition import_type_valid (v : qValue) : Prop :=
  (exists s, v = QString s) \/
  exists m name az, v = QObject m /\ assoc_get "name" m = Some (QString name) /\
    assoc_get "as" m = Some (QString az).

Definition import_valid d : Prop :=
  exists from types,
    argument d "from" = Some (QObject from) /\ argument d "types" = Some (QList types) /\
    Forall import_type_valid types /\
    ((exists id, assoc_get "id" from = Some (QString id) /\ deployment_hash_new id = Ok id /\
        forall name, assoc_get "name" from <> Some (QString name)) \/
     (exists name, assoc_get "name" from = Some (QString name) /\ subgraph_name_new name = Ok name /\
        forall id, assoc_get "id" from <> Some (QString id))).

(** A fulltext search has a name that can not be mistaken for a field or its
    plural, and that no other one has; a language and an algorithm; and a list
    of entities with text fields. *)
Definition fulltext_named (name : string) d : Prop :=
  dir_name d = "fulltext" /\ argument d "name" = Some (QString name).

Definition included_field_valid o (v : qValue) : Prop :=
  exists m f, v = QObject m /\ assoc_get "name" m = Some (QString (field_name f)) /\
    f ∈ obj_fields o /\ (get_base_type (field_type f) = "String" \/ get_base_type (field_type f) = "ID").

Definition include_valid doc (v : qValue) : Prop :=
  exists m entity fields o, v = QObject m /\
    assoc_get "entity" m = Some (QString entity) /\ assoc_get "fields" m = Some (QList fields) /\
    get_object_type_definition doc entity = Some o /\ Forall (included_field_valid o) fields.

Definition fulltext_name_valid doc d : Prop :=
  exists name, argument d "name" = Some (QString name) /\
    (forall o f, object_in doc o -> f ∈ obj_fields o ->
       name <> field_name f /\ name <> to_camel_case (field_name f) /\
       name <> to_camel_case (to_plural (field_name f))) /\
    (forall o i j d1 d2, subgraph_schema_object_type doc = Some o ->
       obj_directives o !! i = Some d1 -> obj_directives o !! j = Some d2 ->
       fulltext_named name d1 -> fulltext_named name d2 -> i = j).

Definition fulltext_valid doc d : Prop :=
  fulltext_name_valid doc d /\
  (exists l, argument d "language" = Some (QEnum l) /\
     l ∈ ["simple"; "da"; "nl"; "en"; "fi"; "fr"; "de"; "hu"; "it"; "no"; "pt"; "ro"; "ru"; "es"; "sv"; "tr"]) /\
  (exists a, argument d "algorithm" = Some (QEnum a) /\ a ∈ ["rank"; "proximityRank"]) /\
  (exists l, argument d "include" = Some (QList l) /\ l <> [] /\ Forall (include_valid doc) l).

(** The imported types exist where the schemas they are imported from are known:
    they are object types there, or imported there themselves. *)
Definition imports_exist doc (schemas : gmap DeploymentHash Schema) : Prop :=
  forall t h s, imported_types qvalue_display doc !! t = Some h -> schemas !! h = Some s ->
    (exists o, object_in (sch_document s) o /\ obj_name o = it_name t) \/
    (exists t' h', imported_types qvalue_display (sch_document s) !! t' = Some h' /\ it_alias t' = it_name t).

Record valid_schema (self : Schema) (schemas : gmap DeploymentHash Schema) : Prop := {
  va_entities : types_are_entities (sch_document self);
  va_derived : derivations_valid (sch_document self);
  va_schema_type : schema_type_valid (sch_document self);
  va_names : names_free (sch_document self);
  va_ids : ids_agree self;
  va_fields : field_types_known (sch_document self);
  va_imports : Forall import_valid (schema_type_directives "import" (sch_document self));
  va_fulltext : Forall (fulltext_valid (sch_document self)) (schema_type_directives "fulltext" (sch_document self));
  va_imported : imports_exist (sch_document self) schemas
}.

(** ** The checks *)

Lemma object_in_iff doc o : object_in doc o <-> o ∈ get_object_type_definitions doc.
Proof.
  unfold object_in, get_object_type_definitions. rewrite list_elem_of_omap. split.
  - intros Hin. by eexists (DTypeDefinition (TObject o)).
  - intros (def & Hin & Hdef). destruct def as [|[]| |]; simpl in Hdef; try done. by injection Hdef as ->.
Qed.

Lemma interface_in_iff doc i : interface_in doc i <-> i ∈ get_interface_type_definitions doc.
Proof.
  unfold interface_in, get_interface_type_definitions. rewrite list_elem_of_omap. split.
  - intros Hin. by eexists (DTypeDefinition (TInterface i)).
  - intros (def & Hin & Hdef). destruct def as [|[]| |]; simpl in Hdef; try done. by injection Hdef as ->.
Qed.

Lemma filter_none_iff {A} (p : A -> bool) l : List.filter p l = [] <-> forall x, x ∈ l -> p x = false.
Proof.
  induction l as [|x l IH]; simpl; [set_solver|]. setoid_rewrite elem_of_cons.
  destruct (p x) eqn:Hx; [|naive_solver]. split; [done|]. intros H. rewrite (H x) in Hx by by left. done.
Qed.

Lemma filter_none_match {A B} (p : A -> bool) l (r : list A -> result B unit) :
  (forall x l, exists e, r (x :: l) = Err e) -> r [] = Ok () ->
  r (List.filter p l) = Ok () <-> forall x, x ∈ l -> p x = false.
Proof.
  intros He H0. rewrite <- filter_none_iff. destruct (List.filter p l) as [|x l']; [done|].
  destruct (He x l') as [e ->]. done.
Qed.

Lemma find_directive_named {T} `{DirectiveFinder T} (t : T) n :
  is_Some (find_directive t n) <-> exists d, d ∈ directives_of t /\ dir_name d = n.
Proof.
  unfold find_directive. split.
  - intros [d [Hin Hn%bool_decide_eq_true]%find_Some_elem]. eauto.
  - intros (d & Hin & Hn). destruct (List.find _ _) eqn:Hf; [by eexists|].
    apply list_elem_of_In in Hin. pose proof (List.find_none _ _ Hf d Hin) as Hx.
    by apply bool_decide_eq_false in Hx.
Qed.

Lemma validate_schema_types_iff doc : validate_schema_types doc = Ok () <-> types_are_entities doc.
Proof.
  unfold validate_schema_types, types_are_entities.
  rewrite (filter_none_match _ _ (fun l => match map obj_name l with [] => Ok () | _ => Err (EntityDirectivesMissing (map obj_name l)) end));
    [|by eexists|done].
  setoid_rewrite object_in_iff. split; intros H o Ho.
  - intros Hn. apply (find_directive_named o). specialize (H o Ho). destruct (find_directive o "entity"); [by eexists|].
    by rewrite bool_decide_false in H.
  - destruct (find_directive o "entity") eqn:Hf; [done|]. case_bool_decide as Hn; [done|].
    assert (is_Some (find_directive o "entity")) as [d Hd] by (apply find_directive_named; by apply H). congruence.
Qed.

Lemma interfaces_with_field_iff doc o f i :
  i ∈ interfaces_with_field doc o f <->
  i ∈ obj_implements_interfaces o /\
  exists t g, find_interface doc i = Some t /\ g ∈ intf_fields t /\ field_name g = field_name f.
Proof.
  unfold interfaces_with_field. rewrite list_elem_of_In, filter_In, <- list_elem_of_In.
  destruct (find_interface doc i) as [t|]; [|naive_solver]. rewrite existsb_elem.
  setoid_rewrite bool_decide_eq_true. naive_solver.
Qed.

Lemma check_derived_from_iff doc o f d : check_derived_from doc o f d = Ok () <-> derived_valid doc o f d.
Proof.
  unfold check_derived_from, derived_valid. destruct (argument d "field") as [v|]; simpl; [|naive_solver].
  destruct v as [| | |name| | | | |]; simpl; try naive_solver.
  destruct (_ !! _) as [fields|]; simpl; [|naive_solver].
  destruct (find_field fields name) as [target|] eqn:Hf; simpl; [|naive_solver].
  set (ty := get_base_type (field_type target)). split.
  - intros H. exists name, fields, target. split_and!; [done..|]. fold ty.
    case_bool_decide as H1; [by left|]. case_bool_decide as H2; [by right; left|].
    destruct (existsb _ _) eqn:Hx in H; [|done]. right; right.
    apply existsb_elem in Hx as (i & Hi & ->%bool_decide_eq_true). by apply interfaces_with_field_iff.
  - intros (n & fs & t & [= <-] & [= <-] & Ht & H). rewrite Hf in Ht. injection Ht as <-. fold ty in H.
    case_bool_decide as H1; [done|]. case_bool_decide as H2; [done|].
    destruct H as [|[|Hi%interfaces_with_field_iff]]; [done..|].
    rewrite (proj2 (existsb_elem _ _)); [done|]. exists ty. split; [done|by apply bool_decide_eq_true].
Qed.

Lemma elem_of_derived doc o f d :
  (o, f, d) ∈ derived_fields doc <->
  object_in doc o /\ f ∈ obj_fields o /\ find_directive f "derivedFrom" = Some d.
Proof.
  unfold derived_fields. rewrite list_elem_of_omap, object_in_iff. split.
  - intros ([o' f'] & Hin & Hd). destruct (find_directive f' "derivedFrom") as [d'|] eqn:Hd'; [|done].
    injection Hd as -> -> ->. apply list_elem_of_In, in_concat in Hin as (l & Hl & Hin).
    apply in_map_iff in Hl as (o1 & <- & Ho%list_elem_of_In).
    apply in_map_iff in Hin as (f1 & [= -> ->] & Hf%list_elem_of_In). done.
  - intros (Ho & Hf & Hd). exists (o, f). rewrite Hd. split; [|done]. apply list_elem_of_In, in_concat.
    exists (map (fun field => (o, field)) (obj_fields o)).
    split; apply in_map_iff; eexists; (split; [done|]); by apply list_elem_of_In.
Qed.

Lemma validate_derived_from_iff doc : validate_derived_from doc = Ok () <-> derivations_valid doc.
Proof.
  unfold validate_derived_from, derivations_valid. rewrite try_iter_ok, Forall_forall. split.
  - intros H o f d Ho Hf Hd. apply check_derived_from_iff. apply (H (o, f, d)). by apply elem_of_derived.
  - intros H [[o f] d] (Ho & Hf & Hd)%elem_of_derived. apply check_derived_from_iff. by apply H.
Qed.

Lemma validate_schema_type_iff doc :
  validate_schema_type_has_no_fields doc = Ok () /\ validate_directives_on_schema_type doc = Ok () <->
  schema_type_valid doc.
Proof.
  unfold validate_schema_type_has_no_fields, validate_directives_on_schema_type, schema_type_valid.
  destruct (subgraph_schema_object_type doc) as [o|]; [|naive_solver].
  assert (Hf : (if bool_decide (length (obj_fields o) = 0) then Ok () else Err SchemaTypeWithFields) = Ok ()
    <-> obj_fields o = []).
  { case_bool_decide as H; [|by destruct (obj_fields o)]. split; [|done]. by intros _; apply nil_length_inv. }
  rewrite Hf. clear Hf. destruct (List.find _ _) as [d|] eqn:Hd.
  - apply find_Some_elem in Hd as [Hin Hd]. split; [by intros []|]. intros H.
    destruct (H o eq_refl) as [_ Hall]. destruct (Hall d Hin) as [Hn|Hn]; by rewrite Hn in Hd.
  - split; [intros [Hf _] ? [= <-]; split; [done|]|intros H; split; [by apply H|done]].
    intros d Hin%list_elem_of_In. pose proof (List.find_none _ _ Hd d Hin) as Hx. simpl in Hx.
    case_bool_decide; [by left|]. case_bool_decide; [by right|done].
Qed.

Lemma reserved_iff doc n :
  n ∈ builtin_types ++ map (fun n => n +:+ "_filter") (map obj_name (get_object_type_definitions doc)
        ++ map intf_name (get_interface_type_definitions doc))
      ++ map (fun n => n +:+ "_orderBy") (map obj_name (get_object_type_definitions doc)
        ++ map intf_name (get_interface_type_definitions doc)) <-> reserved doc n.
Proof.
  unfold reserved. setoid_rewrite object_in_iff. setoid_rewrite interface_in_iff.
  rewrite !elem_of_app, !list_elem_of_fmap. setoid_rewrite elem_of_app. setoid_rewrite list_elem_of_fmap.
  unfold builtin_types. naive_solver.
Qed.

Lemma get_named_type_none doc n :
  get_named_type doc n = None <-> forall t, DTypeDefinition t ∈ definitions doc -> typedef_name t <> n.
Proof.
  unfold get_named_type. rewrite find_None_forall. split.
  - intros H t Ht. rewrite Forall_forall in H.
    specialize (H t). rewrite bool_decide_eq_false in H. apply H, list_elem_of_omap. by eexists (DTypeDefinition t).
  - intros H. apply Forall_forall. intros t (def & Hin & Hdef)%list_elem_of_omap. destruct def; try done.
    injection Hdef as ->. apply bool_decide_eq_false. by apply H.
Qed.

Lemma validate_reserved_iff doc : validate_reserved_types_usage doc = Ok () <-> names_free doc.
Proof.
  unfold validate_reserved_types_usage, names_free.
  rewrite (filter_none_match _ _ (fun l => match l with [] => Ok () | _ => Err (UsageOfReservedTypes l) end));
    [|by eexists|done].
  setoid_rewrite reserved_iff. split.
  - intros H t Ht Hr. specialize (H _ Hr). simpl in H.
    destruct (get_named_type doc (typedef_name t)) eqn:Hn; [done|]. by apply (proj1 (get_named_type_none _ _) Hn t).
  - intros H n Hn. rewrite (proj2 (get_named_type_none doc n)); [done|]. intros t Ht <-. by apply (H t).
Qed.

Lemma size_one_iff (X : gset string) : size X <= 1 <-> forall x y, x ∈ X -> y ∈ X -> x = y.
Proof.
  split.
  - intros Hs x y Hx Hy. destruct (decide (x = y)) as [|Hne]; [done|].
    assert (Hsub : ({[x; y]} : gset string) ⊆ X) by set_solver. apply subseteq_size in Hsub.
    rewrite size_union, !size_singleton in Hsub by set_solver. lia.
  - intros H. destruct (set_choose_or_empty X) as [[x Hx]|He].
    + assert (Hsub : X ⊆ {[x]}) by (intros y Hy; rewrite (H x y Hx Hy); set_solver).
      apply subseteq_size in Hsub. by rewrite size_singleton in Hsub.
    + apply leibniz_equiv in He. subst. rewrite size_empty. lia.
Qed.

Lemma validate_interface_id_iff (self : Schema) :
  validate_interface_id_type self = Ok () <-> ids_agree self.
Proof.
  unfold validate_interface_id_type, ids_agree. rewrite try_iter_ok, Forall_forall.
  assert (Hone : forall (types : list ObjectType) (e : SchemaValidationError),
    (if (1 <? size (list_to_set (map id_type_name (omap (fun t => obj_field t "id") types)) : gset string))%nat
     then Err e else Ok ()) = Ok () <->
    forall o o' f f', o ∈ types -> o' ∈ types -> obj_field o "id" = Some f -> obj_field o' "id" = Some f' ->
      id_type_name f = id_type_name f').
  { intros types e. transitivity (size (list_to_set (map id_type_name (omap (fun t => obj_field t "id") types)) : gset string) <= 1).
    { destruct (Nat.ltb_spec 1 (size (list_to_set (map id_type_name (omap (fun t => obj_field t "id") types)) : gset string)));
        split; intros; done || lia. }
    rewrite size_one_iff. setoid_rewrite elem_of_list_to_set. setoid_rewrite list_elem_of_fmap.
    setoid_rewrite list_elem_of_omap. split.
    - intros H o o' f f' Ho Ho' Hf Hf'. apply H; eauto.
    - intros H x y (f & -> & o & Ho & Hf) (f' & -> & o' & Ho' & Hf'). eauto. }
  split.
  - intros H i types o o' f f' Hi. specialize (H (i, types)). rewrite elem_of_btree_iter in H.
    specialize (H Hi). exact (proj1 (Hone types _) H o o' f f').
  - intros H [i types] Hi%elem_of_btree_iter. apply (proj2 (Hone types _)). intros o o' f f'. by apply (H i).
Qed.

Lemma is_scalar_iff (n : string) :
  is_scalar n = true <-> n ∈ ["Boolean"; "BigInt"; "Bytes"; "BigDecimal"; "Int"; "String"; "ID"].
Proof.
  unfold is_scalar, value_type_from_str. split.
  - intros H. repeat (case_decide; [subst; set_solver|]). done.
  - intros H. repeat (apply elem_of_cons in H as [->|H]; [done|]). by apply not_elem_of_nil in H.
Qed.

Lemma type_fields_some doc n :
  is_Some (get_object_and_interface_type_fields doc !! n) <->
  (exists o, object_in doc o /\ obj_name o = n) \/ (exists i, interface_in doc i /\ intf_name i = n).
Proof.
  unfold get_object_and_interface_type_fields. rewrite collect_map_is_Some. setoid_rewrite list_elem_of_omap. split.
  - intros (v & def & Hin & Hdef). destruct def as [|[]| |]; try done; injection Hdef as <- <-;
      [left|right]; by eexists.
  - intros [(o & Hin & <-)|(i & Hin & <-)]; eexists _, _; (split; [exact Hin|done]).
Qed.

Lemma imported_alias_iff doc n :
  existsb (fun import => bool_decide (it_alias import.1 = n)) (map_to_list (imported_types qvalue_display doc)) = true
  <-> exists t h, imported_types qvalue_display doc !! t = Some h /\ it_alias t = n.
Proof.
  rewrite existsb_elem. setoid_rewrite bool_decide_eq_true. split.
  - intros ([t h] & Hin%elem_of_map_to_list & Ha). by exists t, h.
  - intros (t & h & Hin & Ha). exists (t, h). by rewrite elem_of_map_to_list.
Qed.

Lemma field_type_known_iff doc n : field_type_known qvalue_display doc n = true <-> type_known doc n.
Proof.
  unfold field_type_known, type_known.
  rewrite !orb_true_iff, is_scalar_iff, bool_decide_eq_true, type_fields_some, imported_alias_iff, existsb_elem.
  assert (He : (exists e, e ∈ get_enum_definitions doc /\ bool_decide (enum_name e = n) = true) <->
    exists e, DTypeDefinition (TEnum e) ∈ definitions doc /\ enum_name e = n).
  { setoid_rewrite bool_decide_eq_true. unfold get_enum_definitions. setoid_rewrite list_elem_of_omap. split.
    - intros (e & (def & Hin & Hdef) & Hn). destruct def as [|[]| |]; try done. injection Hdef as ->. eauto.
    - intros (e & Hin & Hn). exists e. split; [by eexists|done]. }
  rewrite He. tauto.
Qed.

(** Errors that are collected one after the other *)
Lemma collect_nil {A B} (g : A -> list B) (h : list B -> A -> list B) l :
  (forall errors x, h errors x = errors ++ g x) ->
  foldl h [] l = [] <-> forall x, x ∈ l -> g x = [].
Proof.
  intros Hh.
  assert (Hgen : forall l s, foldl h s l = s ++ concat (map g l)).
  { clear l. intros l. induction l as [|x l IH]; intros s; simpl; [by rewrite app_nil_r|].
    by rewrite IH, Hh, app_assoc. }
  rewrite Hgen. simpl. clear. induction l as [|x l IH]; simpl; [set_solver|].
  setoid_rewrite elem_of_cons. split.
  - intros [Hx Hl]%app_nil. rewrite IH in Hl. naive_solver.
  - intros H. rewrite (H x), (proj2 IH) by naive_solver. done.
Qed.

Lemma validate_fields_iff doc : validate_fields qvalue_display doc = [] <-> field_types_known doc.
Proof.
  unfold validate_fields, field_types_known.
  set (one := fun (t : string) f => if field_type_known qvalue_display doc (get_base_type (field_type f)) then []
    else [FieldTypeUnknown t (field_name f) (get_base_type (field_type f))]).
  assert (Hin : forall t fields errors, foldl (fun errors field =>
      let base := get_base_type (field_type field) in
      if field_type_known qvalue_display doc base then errors
      else errors ++ [FieldTypeUnknown t (field_name field) base]) errors fields
    = errors ++ concat (map (one t) fields)).
  { intros t fields. induction fields as [|f fields IH]; intros errors; simpl; [by rewrite app_nil_r|].
    rewrite IH. unfold one at 2. destruct (field_type_known _ _ _); simpl; [done|by rewrite <- app_assoc]. }
  rewrite (collect_nil (fun p => concat (map (one p.1) p.2))) by (intros errors [t fields]; apply Hin).
  assert (Hone : forall t fields, concat (map (one t) fields) = [] <->
    forall f, f ∈ fields -> type_known doc (get_base_type (field_type f))).
  { intros t fields. setoid_rewrite <- field_type_known_iff. unfold one.
    induction fields as [|f fields IH]; simpl; [set_solver|]. setoid_rewrite elem_of_cons.
    destruct (field_type_known _ _ _) eqn:Hk; simpl; [rewrite IH; naive_solver|].
    split; [done|]. intros H. rewrite (H f) in Hk by by left. done. }
  split.
  - intros H t fields f Ht. apply (Hone t fields), (H (t, fields)). by apply elem_of_map_to_list.
  - intros H [t fields] Ht%elem_of_map_to_list. apply Hone. intros f. by apply (H t).
Qed.

(** ** Imports *)

Lemma opt_list_nil {A} (x : option A) : opt_list x = [] <-> x = None.
Proof. by destruct x. Qed.

Lemma hash_new_iff s : is_err (deployment_hash_new s) = false <-> deployment_hash_new s = Ok s.
Proof. unfold deployment_hash_new. repeat case_match; done. Qed.

Lemma subgraph_name_new_iff s : is_err (subgraph_name_new s) = false <-> subgraph_name_new s = Ok s.
Proof.
  unfold subgraph_name_new. repeat case_match; try done.
  destruct (try_iter _ _) as [u|e|] eqn:Hp; simpl; try done. exfalso. revert Hp. apply try_iter_no_panic.
  intros part. unfold check_part. destruct part as [|c part]; [done|]. cbn [List.hd_error expect bind_result].
  destruct (last (c :: part)) eqn:Hl; [|by apply last_None in Hl].
  cbn [expect bind_result].
  repeat match goal with |- (if ?b then _ else _) <> _ => destruct b; [done|] end. done.
Qed.

Lemma validate_import_type_iff v : validate_import_type v = Ok () <-> import_type_valid v.
Proof.
  unfold validate_import_type, import_type_valid. split.
  - destruct v as [| | |s| | | | |m]; try done; [intros _; left; by exists s|].
    destruct (assoc_get "name" m) as [[]|] eqn:Hn; try done.
    destruct (assoc_get "as" m) as [[]|] eqn:Ha; try done. intros _. right. by eexists _, _, _.
  - intros [[s ->]|(m & name & az & -> & -> & ->)]; done.
Qed.

Lemma types_are_valid_iff v :
  types_are_valid v = true <-> exists types, v = Some (QList types) /\ Forall import_type_valid types.
Proof.
  assert (Hl : forall l, is_err (try_iter validate_import_type l) = false <-> Forall import_type_valid l).
  { intros l. transitivity (try_iter validate_import_type l = Ok ()).
    - assert (Hp : try_iter validate_import_type l <> Panic).
      { apply try_iter_no_panic. intros x. unfold validate_import_type. repeat case_match; done. }
      by destruct (try_iter validate_import_type l) as [[]| |].
    - rewrite try_iter_ok, !Forall_forall. by setoid_rewrite validate_import_type_iff. }
  unfold types_are_valid. split.
  - destruct v as [[]|]; try done. rewrite negb_true_iff, Hl. eauto.
  - intros (l & -> & Hall). by rewrite negb_true_iff, Hl.
Qed.

Lemma is_qstring_iff v : is_qstring v = true <-> exists s, v = Some (QString s).
Proof. destruct v as [[]|]; naive_solver. Qed.

Lemma import_arguments_iff d :
  validate_import_directive_arguments d = None <->
  exists from types, argument d "from" = Some (QObject from) /\ argument d "types" = Some (QList types) /\
    Forall import_type_valid types /\
    xorb (is_qstring (assoc_get "id" from)) (is_qstring (assoc_get "name" from)) = true.
Proof.
  unfold validate_import_directive_arguments. split.
  - destruct (from_is_valid (argument d "from")) eqn:Hf; [|done].
    destruct (types_are_valid (argument d "types")) eqn:Ht; [|done].
    apply types_are_valid_iff in Ht as (types & Ht & Hall). unfold from_is_valid in Hf.
    destruct (argument d "from") as [[]|]; try done. intros _. by eexists _, types.
  - intros (from & types & Hf & Ht & Hall & Hx). unfold from_is_valid. rewrite Hf, Hx.
    rewrite (proj2 (types_are_valid_iff _)); [done|by eexists].
Qed.

(** The id or the name can be parsed. *)
Lemma import_reference_iff d from :
  argument d "from" = Some (QObject from) ->
  validate_import_directive_schema_reference_parses d = None <->
  (forall id, assoc_get "id" from = Some (QString id) -> deployment_hash_new id = Ok id) /\
  (forall name, assoc_get "name" from = Some (QString name) -> subgraph_name_new name = Ok name).
Proof.
  intros Hf. unfold validate_import_directive_schema_reference_parses. rewrite Hf.
  setoid_rewrite <- hash_new_iff. setoid_rewrite <- subgraph_name_new_iff.
  assert (Hor : forall x y : option SchemaValidationError,
    match x with Some e => Some e | None => y end = None <-> x = None /\ y = None)
    by (intros [] []; naive_solver).
  rewrite Hor. clear Hor.
  match goal with |- ?a /\ ?b <-> ?c /\ ?d => cut ((a <-> c) /\ (b <-> d)); [tauto|] end. split.
  - destruct (assoc_get "id" from) as [[| | |id| | | | |]|]; try (by split). split.
    + destruct (is_err (deployment_hash_new id)) eqn:He; [done|]. by intros _ ? [= <-].
    + intros H. by rewrite (H id).
  - destruct (assoc_get "name" from) as [[| | |name| | | | |]|]; try (by split). split.
    + destruct (is_err (subgraph_name_new name)) eqn:He; [done|]. by intros _ ? [= <-].
    + intros H. by rewrite (H name).
Qed.

Lemma import_checks_iff d :
  opt_list (validate_import_directive_arguments d)
    ++ opt_list (validate_import_directive_schema_reference_parses d) = [] <-> import_valid d.
Proof.
  rewrite app_nil, !opt_list_nil, import_arguments_iff. unfold import_valid. split.
  - intros [(from & types & Hf & Ht & Hall & Hx) Href]. apply (import_reference_iff d from Hf) in Href as [Hid Hname].
    exists from, types. split_and!; [done..|]. destruct (is_qstring (assoc_get "id" from)) eqn:Hi.
    + left. apply is_qstring_iff in Hi as [id Hi]. exists id. split_and!; [done|by apply Hid|].
      intros name Hn. by rewrite Hn in Hx.
    + right. apply is_qstring_iff in Hx as [name Hn]. exists name. split_and!; [done|by apply Hname|].
      intros id Hd. by rewrite Hd in Hi.
  - intros (from & types & Hf & Ht & Hall & Hor). split.
    + exists from, types. split_and!; [done..|].
      destruct Hor as [(s & Hs & _ & Hno)|(s & Hs & _ & Hno)]; rewrite Hs; simpl.
      * destruct (is_qstring _) eqn:Hq; [|done]. apply is_qstring_iff in Hq as [s' Hs']. by destruct (Hno s').
      * destruct (is_qstring _) eqn:Hq; [|done]. apply is_qstring_iff in Hq as [s' Hs']. by destruct (Hno s').
    + apply (import_reference_iff d from Hf).
      destruct Hor as [(s & Hs & Hok & Hno)|(s & Hs & Hok & Hno)]; split; intros s' Hs';
        first [by destruct (Hno s')|rewrite Hs in Hs'; by injection Hs' as <-].
Qed.

Lemma validate_imports_iff doc :
  validate_import_directives doc = [] <-> Forall import_valid (schema_type_directives "import" doc).
Proof.
  unfold validate_import_directives. rewrite (collect_nil (fun import =>
    opt_list (validate_import_directive_arguments import)
      ++ opt_list (validate_import_directive_schema_reference_parses import))) by done.
  setoid_rewrite import_checks_iff. by rewrite Forall_forall.
Qed.

Lemma imported_local_iff doc n :
  existsb (fun object => bool_decide (obj_name object = n)) (get_object_type_definitions doc) = true <->
  exists o, object_in doc o /\ obj_name o = n.
Proof. rewrite existsb_elem. setoid_rewrite bool_decide_eq_true. by setoid_rewrite object_in_iff. Qed.

Lemma validate_imported_types_iff doc schemas :
  validate_imported_types qvalue_display doc schemas = [] <-> imports_exist doc schemas.
Proof.
  unfold validate_imported_types.
  rewrite (collect_nil (fun p => opt_list (validate_imported_type qvalue_display schemas p.1 p.2)))
    by by intros errors [].
  setoid_rewrite opt_list_nil.
  assert (Hone : forall t h, validate_imported_type qvalue_display schemas t h = None <->
    forall s, schemas !! h = Some s ->
      (exists o, object_in (sch_document s) o /\ obj_name o = it_name t) \/
      (exists t' h', imported_types qvalue_display (sch_document s) !! t' = Some h' /\ it_alias t' = it_name t)).
  { intros t h. unfold validate_imported_type. destruct (schemas !! h) as [s|]; [|naive_solver].
    transitivity (existsb (fun object => bool_decide (obj_name object = it_name t)) (get_object_type_definitions (sch_document s)) = true
      \/ existsb (fun import => bool_decide (it_name t = it_alias import.1)) (map_to_list (imported_types qvalue_display (sch_document s))) = true).
    { rewrite <- orb_true_iff. by destruct (existsb _ _), (existsb _ _). }
    rewrite imported_local_iff.
    assert (Heq : existsb (fun import => bool_decide (it_name t = it_alias import.1)) (map_to_list (imported_types qvalue_display (sch_document s)))
      = existsb (fun import => bool_decide (it_alias import.1 = it_name t)) (map_to_list (imported_types qvalue_display (sch_document s)))).
    { induction (map_to_list _) as [|x l IH]; simpl; [done|]. rewrite IH. f_equal. apply bool_decide_ext. done. }
    rewrite Heq, imported_alias_iff. naive_solver. }
  split.
  - intros H t h s Ht. apply Hone. apply (H (t, h)). by apply elem_of_map_to_list.
  - intros H [t h] Ht%elem_of_map_to_list. apply Hone. intros s. by apply H.
Qed.

(** ** Fulltext searches *)

Lemma language_iff l :
  is_ok (language_try_from l) = true <->
  l ∈ ["simple"; "da"; "nl"; "en"; "fi"; "fr"; "de"; "hu"; "it"; "no"; "pt"; "ro"; "ru"; "es"; "sv"; "tr"].
Proof.
  unfold language_try_from. split.
  - intros H. repeat (case_decide; [subst; by repeat first [left|right]|]). done.
  - intros H. repeat (apply elem_of_cons in H as [->|H]; [done|]). by apply not_elem_of_nil in H.
Qed.

Lemma algorithm_iff a : is_ok (algorithm_try_from a) = true <-> a ∈ ["rank"; "proximityRank"].
Proof.
  unfold algorithm_try_from. split.
  - intros H. repeat (case_decide; [subst; by repeat first [left|right]|]). done.
  - intros H. repeat (apply elem_of_cons in H as [->|H]; [done|]). by apply not_elem_of_nil in H.
Qed.

Lemma fulltext_language_iff d :
  validate_fulltext_directive_language d = [] <->
  exists l, argument d "language" = Some (QEnum l) /\
    l ∈ ["simple"; "da"; "nl"; "en"; "fi"; "fr"; "de"; "hu"; "it"; "no"; "pt"; "ro"; "ru"; "es"; "sv"; "tr"].
Proof.
  setoid_rewrite <- language_iff. unfold validate_fulltext_directive_language. split.
  - destruct (argument d "language") as [[| | | | | |l| |]|]; try done.
    destruct (is_ok (language_try_from l)) eqn:Hl; [|done]. eauto.
  - by intros (l & -> & ->).
Qed.

Lemma fulltext_algorithm_iff d :
  validate_fulltext_directive_algorithm d = [] <->
  exists a, argument d "algorithm" = Some (QEnum a) /\ a ∈ ["rank"; "proximityRank"].
Proof.
  setoid_rewrite <- algorithm_iff. unfold validate_fulltext_directive_algorithm. split.
  - destruct (argument d "algorithm") as [[| | | | | |a| |]|]; try done.
    destruct (is_ok (algorithm_try_from a)) eqn:Ha; [|done]. eauto.
  - by intros (a & -> & ->).
Qed.

Lemma text_type_iff (n : string) :
  match value_type_from_str n with Ok TString => true | _ => false end = true <-> n = "String" \/ n = "ID".
Proof.
  unfold value_type_from_str. split.
  - intros H. repeat (case_decide; [by subst; auto|]). done.
  - by intros [-> | ->].
Qed.

Lemma check_included_field_iff o v : check_included_field o v = Ok () <-> included_field_valid o v.
Proof.
  unfold check_included_field, included_field_valid. split.
  - destruct v as [| | | | | | | |m]; try done. destruct (assoc_get "name" m) as [[| | |name| | | | |]|] eqn:Hn; try done.
    simpl. destruct (existsb _ _) eqn:Hx; [|done]. apply existsb_elem in Hx as (f & Hf & Hm). intros _.
    exists m, f. rewrite Hn. rewrite <- text_type_iff.
    destruct (value_type_from_str _) as [[]| |]; try done. apply bool_decide_eq_true in Hm. by subst.
  - intros (m & f & -> & -> & Hf & Ht%text_type_iff). simpl. rewrite (proj2 (existsb_elem _ _)); [done|].
    exists f. split; [done|]. destruct (value_type_from_str _) as [[]| |]; try done. by apply bool_decide_eq_true.
Qed.

Lemma check_include_iff doc v : check_include doc v = Ok () <-> include_valid doc v.
Proof.
  unfold check_include, include_valid, get_object_type_definition. split.
  - destruct v as [| | | | | | | |m]; try done. simpl.
    destruct (assoc_get "entity" m) as [[| | |entity| | | | |]|] eqn:He; try done.
    destruct (assoc_get "fields" m) as [[| | | | | | |fields|]|] eqn:Hf; try done.
    destruct (List.find _ _) as [o|] eqn:Ho; [|done]. rewrite try_iter_ok. intros Hall.
    exists m, entity, fields, o. split_and!; [done..|]. eapply Forall_impl; [exact Hall|]. intros x.
    apply check_included_field_iff.
  - intros (m & entity & fields & o & -> & He & Hf & Ho & Hall). simpl. rewrite He, Hf, Ho. apply try_iter_ok.
    eapply Forall_impl; [exact Hall|]. intros x. apply check_included_field_iff.
Qed.

Lemma fulltext_includes_iff doc d :
  validate_fulltext_directive_includes doc d = [] <->
  exists l, argument d "include" = Some (QList l) /\ l <> [] /\ Forall (include_valid doc) l.
Proof.
  assert (Hl : forall l, match try_iter (check_include doc) l with Err e => [e] | _ => [] end = [] <->
    Forall (include_valid doc) l).
  { intros l. transitivity (try_iter (check_include doc) l = Ok ()).
    - pose proof (try_iter_no_panic _ l (check_include_total doc)).
      by destruct (try_iter (check_include doc) l) as [[]| |].
    - rewrite try_iter_ok, !Forall_forall. by setoid_rewrite check_include_iff. }
  unfold validate_fulltext_directive_includes. split.
  - destruct (argument d "include") as [[| | | | | | |[|i l]|]|]; try done. rewrite Hl. eauto.
  - intros (l & -> & Hne & Hall). destruct l as [|i l]; [done|]. by apply Hl.
Qed.

Lemma filter_unique {A} (p : A -> bool) l :
  length (List.filter p l) <= 1 <->
  forall i j x y, l !! i = Some x -> l !! j = Some y -> p x = true -> p y = true -> i = j.
Proof.
  induction l as [|a l IH]; simpl; [split; [by intros|lia]|]. destruct (p a) eqn:Ha; simpl.
  - transitivity (List.filter p l = []); [destruct (List.filter p l); simpl; split; done || lia|].
    rewrite filter_none_iff. split.
    + intros Hnone i j x y Hi Hj Hx Hy.
      destruct i as [|i], j as [|j]; simpl in Hi, Hj; [done|..].
      1,3: apply list_elem_of_lookup_2 in Hj; by rewrite (Hnone _ Hj) in Hy.
      apply list_elem_of_lookup_2 in Hi. by rewrite (Hnone _ Hi) in Hx.
    + intros H x [i Hi]%list_elem_of_lookup. destruct (p x) eqn:Hx; [|done].
      discriminate (H 0 (S i) a x eq_refl Hi Ha Hx).
  - rewrite IH. split.
    + intros H i j x y Hi Hj Hx Hy. destruct i as [|i], j as [|j]; simpl in Hi, Hj; try congruence.
      f_equal. by apply (H i j x y).
    + intros H i j x y Hi Hj Hx Hy. by injection (H (S i) (S j) x y Hi Hj Hx Hy).
Qed.

Lemma name_collides_iff doc name :
  existsb (fun typ => existsb (fun field =>
      bool_decide (name = to_camel_case (field_name field))
      || bool_decide (name = to_camel_case (to_plural (field_name field)))
      || bool_decide (field_name field = name)) (obj_fields typ)) (get_object_type_definitions doc) = false <->
  forall o f, object_in doc o -> f ∈ obj_fields o ->
    name <> field_name f /\ name <> to_camel_case (field_name f) /\ name <> to_camel_case (to_plural (field_name f)).
Proof.
  rewrite existsb_false_forall, Forall_forall. setoid_rewrite existsb_false_forall. setoid_rewrite Forall_forall.
  setoid_rewrite object_in_iff. setoid_rewrite orb_false_iff. setoid_rewrite orb_false_iff.
  setoid_rewrite bool_decide_eq_false. split.
  - intros H o f Ho Hf. destruct (H o Ho f Hf) as [[H1 H2] H3]. split_and!; congruence.
  - intros H o Ho f Hf. destruct (H o f Ho Hf) as (H1 & H2 & H3). split_and!; congruence.
Qed.

(** The checks of the name of a fulltext search end without a panic if there is a
    type [_Schema_]. *)
Lemma fulltext_name_iff {E} doc d o :
  subgraph_schema_object_type doc = Some o ->
  exists errors, validate_fulltext_directive_name (E:=E) to_camel_case to_plural doc d = Ok errors /\
    (errors = [] <-> fulltext_name_valid doc d).
Proof.
  intros Ho. unfold validate_fulltext_directive_name, fulltext_name_valid. rewrite Ho.
  destruct (argument d "name") as [[| | |name| | | | |]|]; try (eexists; split; [done|]; split; [done|by intros (? & ? & _)]).
  destruct (existsb _ _) eqn:Hc.
  { eexists. split; [done|]. split; [done|]. intros (n & [= <-] & Hno & _). pose proof (proj2 (name_collides_iff doc name) Hno). congruence. }
  pose proof (proj1 (name_collides_iff doc name) Hc) as Hfree. clear Hc. simpl. eexists. split; [done|].
  set (named := fun d => bool_decide (dir_name d = "fulltext") &&
    match argument d "name" with Some (QString n) => bool_decide (name = n) | _ => false end).
  assert (Hnamed : forall d, named d = true <-> fulltext_named name d).
  { intros d'. unfold named, fulltext_named. rewrite andb_true_iff, bool_decide_eq_true. split; intros [-> H]; (split; [done|]).
    - destruct (argument d' "name") as [[]|]; try done. apply bool_decide_eq_true in H. by subst.
    - rewrite H. by apply bool_decide_eq_true. }
  match goal with |- context [List.filter ?p (List.filter ?q ?l)] =>
    assert (Hf : List.filter p (List.filter q l) = List.filter named l) end.
  { induction (obj_directives o) as [|x l IH]; simpl; [done|]. unfold named at 1.
    destruct (bool_decide (dir_name x = "fulltext")); simpl; [|done]. by rewrite IH. }
  rewrite Hf. clear Hf. transitivity (length (List.filter named (obj_directives o)) <= 1).
  { destruct (Nat.ltb_spec 1 (length (List.filter named (obj_directives o)))); split; intros; done || lia. }
  rewrite filter_unique. setoid_rewrite Hnamed. split.
  - intros H. exists name. split_and!; [done..|]. intros o' i j d1 d2 [= <-]. apply H.
  - intros (n & [= <-] & _ & H) i j d1 d2. by apply (H o).
Qed.

Lemma validate_fulltext_iff {E} doc :
  exists errors, validate_fulltext_directives (E:=E) to_camel_case to_plural doc = Ok errors /\
    (errors = [] <-> Forall (fulltext_valid doc) (schema_type_directives "fulltext" doc)).
Proof.
  unfold validate_fulltext_directives, schema_type_directives.
  destruct (subgraph_schema_object_type doc) as [o|] eqn:Ho; [|by exists []].
  set (step := fun errors fulltext => _).
  assert (Hgen : forall l s, exists errors, try_fold step s l = Ok (s ++ errors) /\
    (errors = [] <-> Forall (fulltext_valid doc) l)).
  { intros l. induction l as [|d l IH]; intros s; [exists []; by rewrite app_nil_r|].
    destruct (fulltext_name_iff (E:=E) doc d o Ho) as (ne & Hne & Hname). cbn [try_fold].
    set (new := ne ++ validate_fulltext_directive_language d
      ++ validate_fulltext_directive_algorithm d ++ validate_fulltext_directive_includes doc d).
    assert (Hstep : step s d = Ok (s ++ new)) by (unfold step; by rewrite Hne). rewrite Hstep. cbn [bind_result].
    destruct (IH (s ++ new)) as (errors & Hrun & Hiff).
    rewrite Hrun, <- app_assoc. eexists. split; [done|].
    unfold new. rewrite !app_nil, Hiff, Forall_cons, Hname, fulltext_language_iff, fulltext_algorithm_iff, fulltext_includes_iff.
    unfold fulltext_valid. tauto. }
  destruct (Hgen (List.filter (fun d => bool_decide (dir_name d = "fulltext")) (obj_directives o)) [])
    as (errors & Hrun & Hiff). by exists errors.
Qed.

(** ** All checks *)

Lemma unwrap_errs_nil_iff rs : Forall (fun r => r <> Panic) rs -> unwrap_errs rs = [] <-> Forall (fun r => r = Ok ()) rs.
Proof.
  induction 1 as [|r rs Hr _ IH]; [done|]. rewrite Forall_cons, <- IH.
  destruct r as [[]|e|]; [naive_solver|naive_solver|done].
Qed.

Lemma checks_no_panic (self : Schema) :
  Forall (fun r => r <> Panic)
    [validate_schema_types (sch_document self); validate_derived_from (sch_document self);
     validate_schema_type_has_no_fields (sch_document self); validate_directives_on_schema_type (sch_document self);
     validate_reserved_types_usage (sch_document self); validate_interface_id_type self].
Proof.
  repeat constructor.
  - unfold validate_schema_types. by destruct (map _ _).
  - apply try_iter_no_panic. intros [[o f] d]. unfold check_derived_from.
    destruct (argument d "field") as [[]|]; try done. simpl.
    destruct (_ !! _) as [fields|]; simpl; [|done]. destruct (find_field _ _); simpl; [|done]. by destruct (_ && _).
  - unfold validate_schema_type_has_no_fields. by repeat case_match.
  - unfold validate_directives_on_schema_type. by repeat case_match.
  - unfold validate_reserved_types_usage. by destruct (List.filter _ _).
  - apply try_iter_no_panic. intros [i types]. cbn beta iota zeta. by case_match.
Qed.

(** The errors, of which there are none if the schema is valid *)
Lemma schema_validate_errors (self : Schema) schemas :
  exists errors, (errors = [] <-> valid_schema self schemas) /\
    schema_validate qvalue_display to_camel_case to_plural self schemas =
      match errors with [] => Ok () | _ => Err errors end.
Proof.
  destruct (validate_fulltext_iff (E:=list SchemaValidationError) (sch_document self)) as (fe & Hfe & Hft).
  unfold schema_validate. rewrite Hfe. cbn [bind_result]. eexists. split; [|done].
  rewrite !app_nil, (unwrap_errs_nil_iff _ (checks_no_panic self)), !Forall_cons, Forall_nil.
  rewrite validate_schema_types_iff, validate_derived_from_iff, validate_reserved_iff, validate_interface_id_iff.
  rewrite validate_fields_iff, validate_imports_iff, validate_imported_types_iff, Hft.
  pose proof (validate_schema_type_iff (sch_document self)). split; [|intros []; tauto].
  intros H'. split; tauto.
Qed.


(** ** Explicit aliases *)

(** A schema that imports type [name] of subgraph [id] under the alias [az] and
    has a field of that type:
    [type _Schema_ @import(types: [{ name: $name, as: $az }], from: { id: $id })],
    [type T @entity { id: ID!, f: $az }]. *)
Definition alias_document (id name az : string) : Document := {| definitions := [
  DTypeDefinition (TObject {|
    obj_name := SCHEMA_TYPE_NAME; obj_implements_interfaces := []; obj_fields := [];
    obj_directives := [{| dir_name := "import"; dir_arguments := [
      ("types", QList [QObject [("as", QString az); ("name", QString name)]]);
      ("from", QObject [("id", QString id)])] |}] |});
  DTypeDefinition (TObject {|
    obj_name := "T"; obj_implements_interfaces := []; obj_directives := [entity_directive];
    obj_fields := [
      {| field_name := "id"; field_arguments := []; field_type := NonNullType (NamedType "ID");
         field_directives := [] |};
      {| field_name := "f"; field_arguments := []; field_type := NamedType az;
         field_directives := [] |}] |})] |}.

Lemma alias_fields id name az :
  get_object_and_interface_type_fields (alias_document id name az) !! "T" = Some [
    {| field_name := "id"; field_arguments := []; field_type := NonNullType (NamedType "ID");
       field_directives := [] |};
    {| field_name := "f"; field_arguments := []; field_type := NamedType az;
       field_directives := [] |}].
Proof. by vm_compute. Qed.

Lemma alias_imports id name az h :
  deployment_hash_new id = Ok h ->
  imported_types qvalue_display (alias_document id name az) =
  {[ {| it_name := qvalue_display (QString name); it_alias := qvalue_display (QString az);
        it_explicit := true |} := h ]}.
Proof.
  intros Hid. unfold imported_types, schema_type_directives, parse_types. simpl.
  rewrite Hid. simpl. done.
Qed.

(** A type imported under an explicit alias can not be used.  The alias is
    stored in its printed form, with quotes around it, so a field whose type is
    the alias as written is reported as unknown and the schema is rejected. *)
Theorem explicit_alias_rejected id h name az schemas :
  (forall s, exists r, qvalue_display (QString s) = String "034" r) ->
  deployment_hash_new id = Ok h ->
  is_scalar az = false -> az <> "T" -> az <> SCHEMA_TYPE_NAME ->
  (forall r, az <> String "034" r) ->
  schema_validate qvalue_display to_camel_case to_plural
    (mkSchema h (alias_document id name az) ∅ ∅ ∅) schemas <> Ok ().
Proof.
  intros Hq Hid Hsc HT HS Haz Hok. set (self := mkSchema _ _ _ _ _) in Hok.
  destruct (schema_validate_errors self schemas) as (errors & Hiff & Hrun). rewrite Hok in Hrun.
  destruct errors as [|]; [|done]. destruct (proj1 Hiff eq_refl) as [_ _ _ _ _ Hfields _ _ _].
  pose proof (Hfields "T" _ (Build_Field "f" [] (NamedType az) []) (alias_fields id name az) ltac:(right; left)) as Hk.
  clear Hiff Hrun Hok. destruct Hk as [Hk%is_scalar_iff|[(o & Ho & Hn)|[(i & Hi & _)|[(e & He & _)|(t & h' & Ht & Ha)]]]].
  - simpl in Hk. congruence.
  - unfold object_in in Ho. cbn in Ho, Hn. repeat (apply elem_of_cons in Ho as [Ho|Ho]; [injection Ho as ->; cbn in Hn; congruence|]).
    by apply not_elem_of_nil in Ho.
  - unfold interface_in in Hi. cbn in Hi. repeat (apply elem_of_cons in Hi as [Hi|Hi]; [done|]). by apply not_elem_of_nil in Hi.
  - cbn in He. repeat (apply elem_of_cons in He as [He|He]; [done|]). by apply not_elem_of_nil in He.
  - cbn [sch_document self] in Ht. rewrite (alias_imports id name az h Hid) in Ht.
    apply lookup_singleton_Some in Ht as [<- _]. cbn in Ha. destruct (Hq az) as [r Hr]. rewrite Ha in Hr. by apply (Haz r).
Qed.

End SchemaValid.

(** ** Witnesses *)

(** A schema with an interface, a derived field and a fulltext search is valid. *)
Example example_schema_valid :
  valid_schema example_display (fun s => s) (fun s => s +:+ "s") example_schema ∅.
Proof.
  destruct (schema_validate_errors example_display (fun s => s) (fun s => s +:+ "s") example_schema ∅)
    as (errors & Hiff & Hrun). apply Hiff.
  assert (Hok : schema_validate example_display (fun s => s) (fun s => s +:+ "s") example_schema ∅ = Ok ())
    by (vm_compute; reflexivity).
  rewrite Hok in Hrun. destruct errors; [reflexivity|discriminate Hrun].
Qed.

Lemma explicit_alias_rejected_witness :
  schema_validate example_display (fun s => s) (fun s => s +:+ "s")
    (mkSchema "QmFrom" (alias_document "QmFrom" "B" "C") ∅ ∅ ∅) ∅ <> Ok ().
Proof.
  apply (explicit_alias_rejected example_display _ _ "QmFrom" "QmFrom" "B" "C");
    [by eexists|done..].
Defined.
