(* ===== verification/EntityValidate.v ===== *)
(** * Checking entities against the schema

    [Entity::validate] of [graph/src/data/store/mod.rs]. *)

From S2P Require Import Prelude GraphqlAst Scalars RuntimeValue Values Names StoreTypes Schema.
From S2P Require Import SchemaProps.

(** The errors carry what their messages interpolate. *)
Inductive EntityValidationError :=
| EntityUnknownType (key : EntityKey)
| EntityListElement (key : EntityKey) (field : string) (ty : sType) (value : Value)
    (elt_type : string) (index : nat)
| EntityFieldType (key : EntityKey) (value : Value) (field : string) (ty : sType)
    (value_type : string)
| EntityFieldMissing (key : EntityKey) (field : string)
| EntityFieldDerived (key : EntityKey) (field : string).

(** The scalar type of the values of a field; references to entities have the
    type of the id of the entity.  Every step through an object type takes fuel;
    the source recurses without bound when the id of a type refers back to the
    type, and so panics here. *)
Fixpoint scalar_value_type {E} (fuel : nat) (schema : Schema) (field_ty : sType) {struct fuel}
  : result E ValueType :=
  let via_id fuel (obj_type : ObjectType) : result E ValueType :=
    match fuel with
    | O => Panic
    | S fuel =>
        let? id := expect (obj_field obj_type "id") in
        scalar_value_type fuel schema (field_type id)
    end in
  let fix at_type (field_ty : sType) : result E ValueType :=
    match field_ty with
    | NamedType name =>
        match value_type_from_str name with
        | Ok t => Ok t
        | _ =>
            match get_named_type (sch_document schema) name with
            | Some (TObject obj_type) => via_id fuel obj_type
            | Some (TInterface intf) =>
                let? types := expect (sch_types_for_interface schema !! intf_name intf) in
                match types with
                | [] => Ok TString
                | obj_type :: _ => via_id fuel obj_type
                end
            | Some (TEnum _) => Ok TString
            | Some (TScalar _) => Panic
            | Some (TUnion _) => Panic
            | Some (TInputObject _) => Panic
            | None => Panic
            end
        end
    | NonNullType inner => at_type inner
    | ListType inner => at_type inner
    end in
  at_type field_ty.

(** The loop over the elements of a list *)
Fixpoint check_elements (key : EntityKey) (field : Field) (value : Value) (scalar_type : ValueType)
    (index : nat) (elts : list Value) : result EntityValidationError unit :=
  match elts with
  | [] => Ok ()
  | elt :: elts =>
      if is_assignable elt scalar_type false
      then check_elements key field value scalar_type (S index) elts
      else Err (EntityListElement key (field_name field) (field_type field) value
                  (type_name elt) index)
  end.

Definition validate_field (fuel : nat) (e : Entity) (schema : Schema) (key : EntityKey)
    (field : Field) : result EntityValidationError unit :=
  match entity_get e (field_name field), is_derived field with
  | Some value, false =>
      let? scalar_type := scalar_value_type fuel schema (field_type field) in
      let? _ :=
        if is_list (field_type field) then
          match value with
          | VList elts => check_elements key field value scalar_type 0 elts
          | _ => Ok ()
          end
        else Ok () in
      if negb (is_assignable value scalar_type (is_list (field_type field)))
      then Err (EntityFieldType key value (field_name field) (field_type field) (type_name value))
      else Ok ()
  | None, false =>
      if is_non_null (field_type field) then Err (EntityFieldMissing key (field_name field))
      else Ok ()
  | Some _, true => Err (EntityFieldDerived key (field_name field))
  | None, true => Ok ()
  end.

Definition entity_validate (fuel : nat) (e : Entity) (schema : Schema) (key : EntityKey)
  : result EntityValidationError unit :=
  if is_poi (entity_type key) then Ok ()
  else
    let? object_type :=
      ok_or (EntityUnknownType key)
        (List.find (fun t => bool_decide (entity_type key = obj_name t))
           (get_object_type_definitions (sch_document schema))) in
    try_iter (validate_field fuel e schema key) (obj_fields object_type).

(** ** Conforming entities *)

(** The ids of the object types are scalars, and the type of the field leads to
    a scalar, an enum, an object or a known interface. *)
Definition id_scalar (o : ObjectType) : Prop :=
  exists f t, obj_field o "id" = Some f /\ value_type_from_str (get_base_type (field_type f)) = Ok t.

Definition schema_ids_ok (schema : Schema) : Prop :=
  (forall o, o ∈ get_object_type_definitions (sch_document schema) ->
     obj_name o <> SCHEMA_TYPE_NAME -> id_scalar o) /\
  (forall i types o, sch_types_for_interface schema !! i = Some types -> o ∈ types -> id_scalar o).

Definition base_known (schema : Schema) (base : string) : Prop :=
  match value_type_from_str base with
  | Ok _ => True
  | _ => match get_named_type (sch_document schema) base with
         | Some (TObject o) => obj_name o <> SCHEMA_TYPE_NAME
         | Some (TInterface i) => is_Some (sch_types_for_interface schema !! intf_name i)
         | Some (TEnum _) => True
         | _ => False
         end
  end.

Lemma scalar_value_type_base {E} fuel schema ty :
  scalar_value_type (E:=E) fuel schema ty
  = scalar_value_type fuel schema (NamedType (get_base_type ty)).
Proof. destruct fuel; induction ty; simpl in *; auto. Qed.

Lemma scalar_value_type_id {E} fuel schema f t :
  value_type_from_str (get_base_type (field_type f)) = Ok t ->
  scalar_value_type (E:=E) fuel schema (field_type f) = Ok t.
Proof. intros Ht. rewrite scalar_value_type_base. destruct fuel; simpl; by rewrite Ht. Qed.

Lemma get_named_type_object doc name o :
  get_named_type doc name = Some (TObject o) -> o ∈ get_object_type_definitions doc /\ obj_name o = name.
Proof.
  unfold get_named_type. intros [Hin Hn%bool_decide_eq_true]%find_Some_elem. split; [|done].
  apply list_elem_of_omap in Hin as (d & Hd & Heq). destruct d; simplify_eq.
  apply list_elem_of_omap. by exists (DTypeDefinition (TObject o)).
Qed.

(** Every known type has a scalar type, found in one step through an object. *)
Lemma scalar_value_type_total {E} fuel schema ty :
  schema_ids_ok schema -> base_known schema (get_base_type ty) ->
  exists t, scalar_value_type (E:=E) (S fuel) schema ty = Ok t.
Proof.
  intros [Hobj Hintf] Hb. rewrite scalar_value_type_base. unfold base_known in Hb. simpl.
  destruct (value_type_from_str _) as [t| |]; [by exists t| |].
  all: destruct (get_named_type _ _) as [[|o|i| | |]|] eqn:Hn; try done; try (by eexists).
  all: try (destruct (get_named_type_object _ _ _ Hn) as [Hin _];
            destruct (Hobj o Hin Hb) as (f & t & Hf & Ht); rewrite Hf; simpl;
            exists t; by apply scalar_value_type_id).
  all: destruct Hb as [types Htypes]; rewrite Htypes; simpl; destruct types as [|o types];
    [by eexists|]; destruct (Hintf _ _ o Htypes) as (f & t & Hf & Ht); [left|];
    rewrite Hf; simpl; exists t; by apply scalar_value_type_id.
Qed.

(** The values of a type: those of the scalars, strings for the values of an enum, and
    for references to entities the values of the type of their id; an interface that no
    type implements is taken to have strings as ids. *)
Inductive belongs (schema : Schema) : string -> Value -> Prop :=
| belongs_boolean b : belongs schema "Boolean" (VBool b)
| belongs_int i : belongs schema "Int" (VInt i)
| belongs_big_int n : belongs schema "BigInt" (VBigInt n)
| belongs_big_decimal d : belongs schema "BigDecimal" (VBigDecimal d)
| belongs_bytes b : belongs schema "Bytes" (VBytes b)
| belongs_string s : belongs schema "String" (VString s)
| belongs_id s : belongs schema "ID" (VString s)
| belongs_enum name en s :
    is_scalar name = false -> get_named_type (sch_document schema) name = Some (TEnum en) -> belongs schema name (VString s)
| belongs_object name o id v :
    is_scalar name = false -> get_named_type (sch_document schema) name = Some (TObject o) ->
    obj_field o "id" = Some id -> belongs schema (get_base_type (field_type id)) v -> belongs schema name v
| belongs_interface name i o types id v :
    is_scalar name = false -> get_named_type (sch_document schema) name = Some (TInterface i) ->
    sch_types_for_interface schema !! intf_name i = Some (o :: types) ->
    obj_field o "id" = Some id -> belongs schema (get_base_type (field_type id)) v -> belongs schema name v
| belongs_unimplemented name i s :
    is_scalar name = false -> get_named_type (sch_document schema) name = Some (TInterface i) ->
    sch_types_for_interface schema !! intf_name i = Some [] -> belongs schema name (VString s).

(** What can be assigned to a field: a value of its type or null, and if the field is a
    list also a list of these. *)
Definition fits (schema : Schema) (ty : sType) (v : Value) : Prop :=
  let single v := v = VNull \/ belongs schema (get_base_type ty) v in
  single v \/ (is_list ty = true /\ exists l, v = VList l /\ Forall single l).

(** What it means for an entity to conform to the fields of its type *)
Definition field_conforms (e : Entity) (schema : Schema) (field : Field) : Prop :=
  if is_derived field then e !! field_name field = None
  else
    match e !! field_name field with
    | Some v => fits schema (field_type field) v
    | None => is_non_null (field_type field) = false
    end.

(** The values of a scalar type *)
Definition has_type (t : ValueType) (v : Value) : bool :=
  match t, v with
  | TBoolean, VBool _ | TBigInt, VBigInt _ | TBytes, VBytes _ | TBigDecimal, VBigDecimal _ | TInt, VInt _
  | TString, VString _ => true
  | _, _ => false
  end.

Lemma value_type_name name t :
  value_type_from_str name = Ok t ->
  match t with
  | TBoolean => name = "Boolean" | TBigInt => name = "BigInt" | TBytes => name = "Bytes"
  | TBigDecimal => name = "BigDecimal" | TInt => name = "Int" | TString => name = "String" \/ name = "ID"
  end.
Proof. unfold value_type_from_str. repeat case_decide; intros [= <-]; auto. Qed.

Lemma belongs_scalar schema name t v : value_type_from_str name = Ok t -> belongs schema name v <-> has_type t v = true.
Proof.
  intros Ht. assert (Hs : is_scalar name = true) by (unfold is_scalar; by rewrite Ht).
  pose proof (value_type_name _ _ Ht) as Hname. split.
  - intros Hb. destruct Hb; try congruence; by injection Ht as <-.
  - destruct t, v; try done; intros _; [| | | | |destruct Hname as [Hname|Hname]]; rewrite Hname; constructor.
Qed.

(** The type that [scalar_value_type] finds has the values of the field. *)
Lemma scalar_value_type_belongs {E} fuel schema ty t v :
  schema_ids_ok schema -> base_known schema (get_base_type ty) -> scalar_value_type (E:=E) (S fuel) schema ty = Ok t ->
  belongs schema (get_base_type ty) v <-> has_type t v = true.
Proof.
  intros [Hobj Hintf] Hb. rewrite scalar_value_type_base. generalize dependent (get_base_type ty). intros name Hb Ht.
  destruct (value_type_from_str name) as [t0|e|] eqn:Hv.
  { cbn in Ht. rewrite Hv in Ht. injection Ht as <-. by apply belongs_scalar. }
  2:{ unfold value_type_from_str in Hv. by repeat case_decide. }
  assert (Hs : is_scalar name = false) by (unfold is_scalar; by rewrite Hv).
  assert (Hid : forall o, id_scalar o -> exists f t0, obj_field o "id" = Some f /\
    value_type_from_str (get_base_type (field_type f)) = Ok t0 /\ scalar_value_type (E:=E) fuel schema (field_type f) = Ok t0).
  { intros o (f & t0 & Hf & Ht0). exists f, t0. split_and!; [done..|]. by apply scalar_value_type_id. }
  unfold base_known in Hb. rewrite Hv in Hb. cbn in Ht. rewrite Hv in Ht.
  assert (Hinv : forall P : Prop, (forall en s, get_named_type (sch_document schema) name = Some (TEnum en) -> v = VString s -> P) ->
    (forall o id, get_named_type (sch_document schema) name = Some (TObject o) -> obj_field o "id" = Some id ->
       belongs schema (get_base_type (field_type id)) v -> P) ->
    (forall i o types id, get_named_type (sch_document schema) name = Some (TInterface i) ->
       sch_types_for_interface schema !! intf_name i = Some (o :: types) -> obj_field o "id" = Some id ->
       belongs schema (get_base_type (field_type id)) v -> P) ->
    (forall i s, get_named_type (sch_document schema) name = Some (TInterface i) ->
       sch_types_for_interface schema !! intf_name i = Some [] -> v = VString s -> P) -> belongs schema name v -> P).
  { intros P H1 H2 H3 H4 Hb'. inversion Hb'; subst; try done; eauto. }
  destruct (get_named_type (sch_document schema) name) as [[|o|i| |en|]|] eqn:Hn; try done.
  - destruct (get_named_type_object _ _ _ Hn) as [Hin _]. destruct (Hid o (Hobj o Hin Hb)) as (f & t0 & Hf & Hv0 & Ht0).
    rewrite Hf in Ht. cbn in Ht. rewrite Ht0 in Ht. injection Ht as <-. rewrite <-(belongs_scalar schema _ _ _ Hv0). split.
    + apply Hinv; intros; simplify_eq; done.
    + intros. by eapply belongs_object.
  - destruct Hb as [types Htypes]. rewrite Htypes in Ht. cbn in Ht. destruct types as [|o types].
    + injection Ht as <-. split; [apply Hinv; intros; simplify_eq; done|]. destruct v; try done. intros _. by eapply belongs_unimplemented.
    + destruct (Hid o) as (f & t0 & Hf & Hv0 & Ht0); [apply (Hintf _ _ o Htypes); by left|].
      rewrite Hf in Ht. cbn in Ht. rewrite Ht0 in Ht. injection Ht as <-. rewrite <-(belongs_scalar schema _ _ _ Hv0). split.
      * apply Hinv; intros; simplify_eq; done.
      * intros. by eapply belongs_interface.
  - injection Ht as <-. split; [apply Hinv; intros; simplify_eq; done|]. destruct v; try done. intros _. by eapply belongs_enum.
Qed.

Lemma assignable_single t v : is_assignable v t false = true <-> v = VNull \/ has_type t v = true.
Proof. destruct v, t; cbn; naive_solver. Qed.

Lemma assignable_fits {E} fuel schema ty t v :
  schema_ids_ok schema -> base_known schema (get_base_type ty) -> scalar_value_type (E:=E) (S fuel) schema ty = Ok t ->
  is_assignable v t (is_list ty) = true <-> fits schema ty v.
Proof.
  intros Hids Hb Ht. unfold fits. pose proof (fun v => scalar_value_type_belongs fuel schema ty t v Hids Hb Ht) as Hbel.
  assert (Hsingle : forall v, v = VNull \/ belongs schema (get_base_type ty) v <-> is_assignable v t false = true).
  { intros w. by rewrite assignable_single, Hbel. }
  rewrite Hsingle. destruct (is_list ty).
  - assert (Hall : forall l, Forall (fun v => v = VNull \/ belongs schema (get_base_type ty) v) l <->
      List.forallb (fun value => is_assignable value t false) l = true).
    { intros l. rewrite forallb_forall, Forall_forall. setoid_rewrite Hsingle. by setoid_rewrite list_elem_of_In. }
    destruct v as [| | | |l| | |]; try (by split; [by left|intros [|(_ & ? & ? & _)]]). cbn. rewrite <-Hall. split.
    + intros H. right. split; [done|]. by exists l.
    + by intros [|(_ & ? & [= <-] & H)].
  - split; [by left|]. by intros [|[]].
Qed.

Lemma check_elements_spec key field value t elts i :
  check_elements key field value t i elts <> Panic /\
  (check_elements key field value t i elts = Ok () <->
   forallb (fun v => is_assignable v t false) elts = true).
Proof.
  revert i. induction elts as [|v elts IH]; intros i; simpl; [done|].
  destruct (is_assignable v t false); simpl; [apply IH|]. split; [done|]. split; done.
Qed.

Lemma validate_field_ok fuel e schema key field :
  schema_ids_ok schema -> base_known schema (get_base_type (field_type field)) ->
  validate_field (S fuel) e schema key field = Ok () <-> field_conforms e schema field.
Proof.
  intros Hids Hb. unfold validate_field, field_conforms, entity_get.
  destruct (is_derived field), (e !! field_name field) as [v|]; try done.
  2:{ by destruct (is_non_null _). }
  destruct (scalar_value_type_total (E:=EntityValidationError) fuel schema _ Hids Hb) as [t Ht].
  rewrite Ht, <-(assignable_fits _ _ _ _ v Hids Hb Ht). cbn [bind_result]. split.
  - intros (u & _ & H)%bind_ok. by destruct (is_assignable _ _ _).
  - intros Ha. rewrite Ha. destruct (is_list (field_type field)); [|done]. destruct v; try done.
    simpl in Ha. by rewrite (proj2 (proj2 (check_elements_spec _ _ _ _ _ _)) Ha).
Qed.

Lemma validate_field_total fuel e schema key field :
  schema_ids_ok schema -> base_known schema (get_base_type (field_type field)) ->
  validate_field (S fuel) e schema key field <> Panic.
Proof.
  intros Hids Hb. unfold validate_field.
  destruct (scalar_value_type_total (E:=EntityValidationError) fuel schema _ Hids Hb) as [t Ht].
  destruct (entity_get _ _) as [v|], (is_derived field); [done| |done|by destruct (is_non_null _)].
  rewrite Ht. cbn [bind_result].
  assert (Hfinal : (if negb (is_assignable v t (is_list (field_type field)))
    then Err (EntityFieldType key v (field_name field) (field_type field) (type_name v))
    else Ok ()) <> Panic) by by destruct (negb _).
  destruct (is_list (field_type field)); [|done]. destruct v; try done.
  pose proof (proj1 (check_elements_spec key field (VList l) t l 0)) as Hnp.
  by destruct (check_elements _ _ _ _ _ _).
Qed.

(** Entities of types that are not known do not panic either. *)
Lemma entity_validate_known fuel (e : Entity) (schema : Schema) (key : EntityKey) :
  schema_ids_ok schema ->
  (forall o f, List.find (fun t => bool_decide (entity_type key = obj_name t))
     (get_object_type_definitions (sch_document schema)) = Some o ->
     f ∈ obj_fields o -> base_known schema (get_base_type (field_type f))) ->
  entity_validate (S fuel) e schema key <> Panic.
Proof.
  intros Hids Hknown. unfold entity_validate. destruct (is_poi _); [done|].
  destruct (List.find _ _) as [o|]; [|done]. cbn [ok_or bind_result]. specialize (Hknown o).
  assert (Hstep : forall f, f ∈ obj_fields o -> validate_field (S fuel) e schema key f <> Panic).
  { intros f Hf. by apply validate_field_total, Hknown. }
  revert Hstep. clear. induction (obj_fields o) as [|f fs IH]; intros Hstep; [done|]. rewrite try_iter_cons.
  pose proof (Hstep f (list_elem_of_here f fs)) as Hnp.
  destruct (validate_field (S fuel) e schema key f); [|done|done]. apply IH. intros g Hg. apply Hstep. by right.
Qed.

(** C32: on a schema whose entity ids are scalars, [Entity::validate] never runs
    into one of its [unreachable!]s or [expect]s for an entity type whose fields
    have known types, and it accepts an entity exactly when every derived field
    is absent, every field that must not be null is there, and every value that is
    there is null, or of the type of its field, or for a list a list of such values:
    the values of a scalar for a scalar, strings for an enum, and for a reference the
    values of the type of the id.  Null is accepted for any field, and a single value
    for a list. *)
Theorem entity_validate_correct fuel (e : Entity) (schema : Schema) (key : EntityKey) o :
  schema_ids_ok schema -> is_poi (entity_type key) = false ->
  List.find (fun t => bool_decide (entity_type key = obj_name t))
    (get_object_type_definitions (sch_document schema)) = Some o ->
  (forall f, f ∈ obj_fields o -> base_known schema (get_base_type (field_type f))) ->
  entity_validate (S fuel) e schema key <> Panic /\
  (entity_validate (S fuel) e schema key = Ok () <->
   forall f, f ∈ obj_fields o -> field_conforms e schema f).
Proof.
  intros Hids Hpoi Hfind Hknown. split.
  { apply entity_validate_known; [done|]. intros o' f Ho'. rewrite Hfind in Ho'. injection Ho' as <-. apply Hknown. }
  unfold entity_validate. rewrite Hpoi, Hfind. cbn [ok_or bind_result].
  assert (Hok : forall f, f ∈ obj_fields o -> (validate_field (S fuel) e schema key f = Ok () <-> field_conforms e schema f)).
  { intros f Hf. by apply validate_field_ok, Hknown. }
  revert Hok. clear. induction (obj_fields o) as [|f fs IH]; intros Hok.
  { split; [set_solver|done]. }
  rewrite try_iter_cons. setoid_rewrite elem_of_cons. rewrite bind_ok.
  assert (Hf : validate_field (S fuel) e schema key f = Ok () <-> field_conforms e schema f) by (apply Hok; by left).
  split.
  - intros ([] & Hv & Hrest) g [->|Hg]; [by apply Hf|]. apply IH; [intros h Hh; apply Hok; by right|done|done].
  - intros Hall. exists tt. split; [apply Hf, Hall; by left|]. apply IH; [intros h Hh; apply Hok; by right|]. auto.
Qed.

Definition band_key : EntityKey := mkKey "QmMusic" "Band" "beatles".
Definition band : Entity := {["id" := VString "beatles"; "name" := VString "The Beatles"]}.

Lemma example_ids_ok : schema_ids_ok example_schema.
Proof.
  split.
  - intros o Ho Hn. vm_compute in Ho. unfold id_scalar.
    repeat (apply elem_of_cons in Ho as [Ho|Ho]; [subst o; try done; eexists _, _; by split|]).
    by apply not_elem_of_nil in Ho.
  - intros i types o Hi Ho. apply elem_of_map_to_list in Hi. vm_compute in Hi.
    apply elem_of_cons in Hi as [Hi|Hi]; [|by apply not_elem_of_nil in Hi]. simplify_eq.
    apply elem_of_cons in Ho as [Ho|Ho]; [|by apply not_elem_of_nil in Ho]. subst o.
    eexists _, _. by split.
Qed.

Lemma entity_validate_correct_witness :
  entity_validate 1 band example_schema band_key <> Panic /\
  (entity_validate 1 band example_schema band_key = Ok () <->
   forall f, f ∈ [mk_field "id" (NonNullType (NamedType "ID")) [];
     mk_field "name" (NonNullType (NamedType "String")) [];
     mk_field "albums" (NonNullType (ListType (NonNullType (NamedType "Album"))))
       [{| dir_name := "derivedFrom"; dir_arguments := [("field", QString "band")] |}]] ->
   field_conforms band example_schema f).
Proof.
  refine (entity_validate_correct 0 band example_schema band_key
    {| obj_name := "Band"; obj_implements_interfaces := ["Named"];
       obj_directives := [entity_directive; subgraph_id_directive "QmMusic"];
       obj_fields := _ |} example_ids_ok _ _ _); [by vm_compute|by vm_compute|].
  intros f Hf.
  repeat (apply elem_of_cons in Hf as [Hf|Hf]; [subst f; by vm_compute|]).
  by apply not_elem_of_nil in Hf.
Defined.

(** A schema that imports a type and uses it:
    [type _Schema_ @import(types: ["B"], from: { id: "QmB" })],
    [type A @entity { id: ID!, b: B }]. *)
Definition import_document : Document := {| definitions := [
  mk_object SCHEMA_TYPE_NAME []
    [{| dir_name := "import"; dir_arguments := [("types", QList [QString "B"]);
        ("from", QObject [("id", QString "QmB")])] |}] [];
  mk_object "A" [] [entity_directive]
    [mk_field "id" (NonNullType (NamedType "ID")) []; mk_field "b" (NamedType "B") []]] |}.

(** A type with a list: [type Song @entity { id: ID!, tags: [String!]! }] *)
Definition list_document : Document := {| definitions := [
  mk_object "Song" [] [entity_directive]
    [mk_field "id" (NonNullType (NamedType "ID")) [];
     mk_field "tags" (NonNullType (ListType (NonNullType (NamedType "String")))) []]] |}.

(** Three things get past validation.  Null is let through for a field that
    must not be null: the entity [{id, name: null}] passes for
    [type Band { id: ID!, name: String! }], although the same entity without the
    null attribute, which is what is stored, is rejected for missing [name].  And
    a schema may use an imported type for a field and pass validation, but
    validating an entity that sets such a field hits the [unreachable!] for
    names that are not defined in the schema itself.  And a string passes for a list
    of strings, which the comment in the loop says is caught. *)
Theorem entity_validate_gaps :
  (let e : Entity := {["id" := VString "beatles"; "name" := VNull]} in
   entity_validate 1 e example_schema band_key = Ok () /\
   entity_validate 1 (drop_nulls e) example_schema band_key
   = Err (EntityFieldMissing band_key "name")) /\
  (let schema := mkSchema "QmA" import_document ∅ ∅ ∅ in
   schema_validate example_display (fun s => s) (fun s => s) schema ∅ = Ok () /\
   entity_validate 1 {["id" := VString "a"; "b" := VString "b"]} schema (mkKey "QmA" "A" "a") = Panic) /\
  entity_validate 1 {["id" := VString "s"; "tags" := VString "pop"]} (mkSchema "QmA" list_document ∅ ∅ ∅)
    (mkKey "QmA" "Song" "s") = Ok ().
Proof. by vm_compute. Qed.
