(* ===== verification/QueryAst.v ===== *)
(** * Queries as they are parsed and as they are executed

    The abstract syntax of GraphQL queries as [graphql_parser] hands it to the node
    (positions and the names of operations, which only appear in messages, are dropped),
    with the accessors of [graphql/src/query/ast.rs], and the selection sets of
    [graphql/src/execution/ast.rs], in which fragments are resolved and each object type
    has its own list of fields. *)

From S2P Require Import Prelude GraphqlAst RuntimeValue.

(** ** Parsed queries *)

(** [q::Selection]; a type condition is the name of a type. *)
Inductive qSelection : Type :=
| QField (alias : option string) (name : string) (arguments : list (string * qValue)) (directives : list Directive)
    (selection_set : list qSelection)
| QFragmentSpread (fragment_name : string) (directives : list Directive)
| QInlineFragment (type_condition : option string) (directives : list Directive) (selection_set : list qSelection).

Record FragmentDefinition := mkFragment {
  fd_name : string;
  fd_type_condition : string;
  fd_directives : list Directive;
  fd_selection_set : list qSelection
}.

Record VariableDefinition := mkVariableDefinition {
  vd_name : string;
  vd_var_type : sType;
  vd_default_value : option qValue
}.

Inductive OperationDefinition :=
| OpSelectionSet (selection_set : list qSelection)
| OpQuery (variable_definitions : list VariableDefinition) (selection_set : list qSelection)
| OpMutation (variable_definitions : list VariableDefinition) (selection_set : list qSelection)
| OpSubscription (variable_definitions : list VariableDefinition) (selection_set : list qSelection).

Inductive qDefinition :=
| QOperation (op : OperationDefinition)
| QFragment (frag : FragmentDefinition).

Abbreviation QueryDocument := (list qDefinition).

Definition get_argument_value {V} (arguments : list (string * V)) (name : string) : option V :=
  snd <$> List.find (fun x => bool_decide (x.1 = name)) arguments.

Definition get_variable_definitions (operation : OperationDefinition) : option (list VariableDefinition) :=
  match operation with
  | OpQuery vars _ | OpSubscription vars _ | OpMutation vars _ => Some vars
  | OpSelectionSet _ => None
  end.

Definition operation_selection_set (operation : OperationDefinition) : list qSelection :=
  match operation with OpSelectionSet s | OpQuery _ s | OpMutation _ s | OpSubscription _ s => s end.

(** ** Errors *)

Inductive QueryExecutionError :=
| OperationNameRequired
| NotSupported (msg : string)
| ValidationError (msg : string)
| InvalidVariableTypeError (name : string)
| MissingVariableError (name : string)
| MissingArgumentError (name : string)
| InvalidArgumentError (name : string) (value : qValue)
| TooComplex (complexity max_complexity : Z)
| TooDeep (max_depth : Z)
| CyclicalFragment (name : string)
| NamedTypeError (name : string)
| AbstractTypeError (name : string)
| UnknownField (type_name field : string)
| UndefinedFragment (name : string)
| PanicError (msg : string).

(** ** Executable queries *)

Record aDirective := mkDirective { ad_name : string; ad_arguments : list (string * rValue) }.

(** [a::Field]; its [SelectionSet] maps object types to fields. *)
Inductive aField : Type :=
| mkAField (alias : option string) (name : string) (arguments : list (string * rValue)) (directives : list aDirective)
    (selection_set : list (ObjectType * list aField)).

Abbreviation SelectionSet := (list (ObjectType * list aField)).

Definition af_name (f : aField) : string := let 'mkAField _ name _ _ _ := f in name.
Definition af_arguments (f : aField) : list (string * rValue) := let 'mkAField _ _ args _ _ := f in args.
Definition af_directives (f : aField) : list aDirective := let 'mkAField _ _ _ dirs _ := f in dirs.
Definition af_selection_set (f : aField) : SelectionSet := let 'mkAField _ _ _ _ set := f in set.

Definition response_key (f : aField) : string := let 'mkAField alias name _ _ _ := f in default name alias.

Definition field_argument_value (f : aField) (name : string) : option rValue := get_argument_value (af_arguments f) name.

(** [Directive] *)
Definition eval_if (d : aDirective) : bool :=
  match get_argument_value (ad_arguments d) "if" with
  | None => true
  | Some (RBoolean b) => b
  | Some _ => false
  end.

Definition directive_skip (d : aDirective) : bool :=
  if decide (ad_name d = "include") then negb (eval_if d)
  else if decide (ad_name d = "skip") then eval_if d
  else false.

(** [SelectionSet]; object types are equal when their names are. *)
Definition same_type (a b : ObjectType) : bool := bool_decide (obj_name a = obj_name b).

Definition selection_new (types : list ObjectType) : SelectionSet := map (fun t => (t, [])) types.
Definition selection_empty_from (other : SelectionSet) : SelectionSet := map (fun x => (x.1, [])) other.
Definition selection_is_empty (set : SelectionSet) : bool :=
  forallb (fun x => bool_decide (length x.2 = 0)) set.

Definition fields_for (set : SelectionSet) (obj_type : ObjectType) : result QueryExecutionError (list aField) :=
  match List.find (fun x => same_type x.1 obj_type) set with
  | Some x => Ok x.2
  | None => Err (ValidationError ("invalid query: no fields for type `" +:+ obj_name obj_type +:+ "`"))
  end.

(** [iter_mut().find(p)], when it finds something *)
Fixpoint update_first {E A} (p : A -> bool) (f : A -> result E A) (l : list A) : option (result E (list A)) :=
  match l with
  | [] => None
  | x :: l =>
      if p x then Some (let? y := f x in Ok (y :: l))
      else map_result (cons x) <$> update_first p f l
  end.

Definition with_selection_set (f : aField) (set : SelectionSet) : aField :=
  let 'mkAField alias name args dirs _ := f in mkAField alias name args dirs set.

Definition prepend_directives (directives : list aDirective) (f : aField) : aField :=
  let 'mkAField alias name args dirs set := f in mkAField alias name args (directives ++ dirs) set.

Definition merge_error (t : ObjectType) : QueryExecutionError :=
  ValidationError ("invalid query: can not merge fields because type `" +:+ obj_name t +:+ "` showed up unexpectedly").

(** [merge_field]; the selection sets of fields with the same response key are merged,
    without further directives. *)
Fixpoint merge_field (new_field : aField) (fields : list aField) {struct new_field} : result QueryExecutionError (list aField) :=
  let 'mkAField _ _ _ _ new_set := new_field in
  match update_first (fun field => bool_decide (response_key field = response_key new_field))
          (fun field =>
             let? set := try_fold (fun set (other : ObjectType * list aField) =>
                 let (other_type, other_fields) := other in
                 match update_first (fun item => same_type other_type item.1)
                         (fun item : ObjectType * list aField =>
                            let? fields := try_fold (fun fields f => merge_field f fields) item.2 other_fields in
                            Ok (item.1, fields)) set with
                 | Some r => r
                 | None => Err (merge_error other_type)
                 end) (af_selection_set field) new_set in
             Ok (with_selection_set field set)) fields with
  | Some r => r
  | None => Ok (fields ++ [new_field])
  end.

(** [SelectionSet::merge] *)
Definition merge_item (directives : list aDirective) (set : SelectionSet) (other : ObjectType * list aField)
    : result QueryExecutionError SelectionSet :=
  let (other_type, other_fields) := other in
  match update_first (fun item => same_type other_type item.1)
          (fun item : ObjectType * list aField =>
             let? fields := try_fold (fun fields f => merge_field (prepend_directives directives f) fields) item.2 other_fields in
             Ok (item.1, fields)) set with
  | Some r => r
  | None => Err (merge_error other_type)
  end.

Definition selection_merge (set other : SelectionSet) (directives : list aDirective) : result QueryExecutionError SelectionSet :=
  try_fold (merge_item directives) set other.

(** [SelectionSet::push] *)
Definition selection_push (set : SelectionSet) (new_field : aField) : result QueryExecutionError SelectionSet :=
  try_map (fun x : ObjectType * list aField =>
             let? fields := merge_field new_field x.2 in Ok (x.1, fields)) set.
