(* ===== verification/Coercion.v ===== *)
(** * Coercion of query values

    [graphql/src/values/coercion.rs]: arguments and variables of a query are brought into
    the form that their type in the schema asks for, or rejected. *)

From stdpp Require Import pretty.
From S2P Require Import Prelude GraphqlAst RuntimeValue QueryAst.

Section Coercion.
(** [f64]'s [Display], and the types of the schema *)
Context (float_to_string : Z -> string) (resolver : string -> option TypeDefinition).

Definition find_input (t : InputObjectType) (name : string) : option InputValue :=
  List.find (fun f => bool_decide (iv_name f = name)) (io_fields t).

(** [coerce_to_definition], with [coerce] for the coercion of nested values.  The
    iteration over an object skips removed entries; any error of an entry becomes one of
    the object. *)
Definition coerce_to_definition (coerce : rValue -> sType -> result rValue rValue) (value : rValue) (definition : string)
    : result rValue rValue :=
  match resolver definition with
  | None => Err value
  | Some (TEnum t) => coerce_enum value t
  | Some (TScalar t) => coerce_scalar float_to_string value t
  | Some (TInputObject t) =>
      match value with
      | RObject object =>
          let? coerced := try_map (fun kv : string * rValue =>
              let (name, v) := kv in
              if bool_decide (name = TOMBSTONE_KEY) then Ok None else
              match find_input t name with
              | None => Err value
              | Some def =>
                  match coerce v (iv_value_type def) with
                  | Ok v => Ok (Some (name, v))
                  | Err _ => Err value
                  | Panic => Panic
                  end
              end) object in
          Ok (value_object (btree_from_list (omap (fun x => x) coerced)))
      | _ => Err value
      end
  | Some _ => Err value
  end.

Fixpoint coerce_value (value : rValue) : sType -> result rValue rValue :=
  fix coerce_as (ty : sType) : result rValue rValue :=
    match ty with
    | NonNullType t =>
        match value with
        | RNull => Err RNull
        | _ => coerce_as t
        end
    | NamedType name =>
        match value with
        | RNull => Ok RNull
        | _ => coerce_to_definition coerce_value value name
        end
    | ListType t =>
        match value with
        | RNull => Ok RNull
        | RList values =>
            let? coerced_values := try_map (fun v => coerce_value v t) values in
            Ok (RList coerced_values)
        | _ => Err value
        end
    end.

Definition coerce_input_value (value : option rValue) (def : InputValue) : result QueryExecutionError (option rValue) :=
  let? value :=
    match value with
    | Some value => Ok (Some value)
    | None =>
        match iv_default_value def with
        | Some d => map_result Some (map_err (fun _ => PanicError "internal error: failed to convert default value") (rvalue_try_from d))
        | None => Ok None
        end
    end in
  match value with
  | None => if is_non_null (iv_value_type def) then Err (MissingArgumentError (iv_name def)) else Ok None
  | Some value =>
      map_result Some
        (map_err (fun val => InvalidArgumentError (iv_name def) (qvalue_from val)) (coerce_value value (iv_value_type def)))
  end.

(** ** What values of a type look like *)

Definition scalar_conforms (ty : string) (v : rValue) : Prop :=
  match v with
  | RBoolean _ => ty = "Boolean"
  | RInt n => ty = "Int" /\ in_i32 n
  | RString _ => ty ∈ ["BigDecimal"; "String"; "ID"; "Bytes"; "BigInt"; "Date"]
  | RObject _ => ty = "JSONObject"
  | _ => False
  end.

Inductive conforms : rValue -> sType -> Prop :=
| conforms_non_null v t : v <> RNull -> conforms v t -> conforms v (NonNullType t)
| conforms_null t : is_non_null t = false -> conforms RNull t
| conforms_list l t : (forall v, v ∈ l -> conforms v t) -> conforms (RList l) (ListType t)
| conforms_enum name t e :
    resolver name = Some (TEnum t) -> e ∈ map ev_name (enum_values t) -> conforms (REnum e) (NamedType name)
| conforms_scalar name t v : resolver name = Some (TScalar t) -> scalar_conforms (scalar_name t) v -> conforms v (NamedType name)
| conforms_input name t o :
    resolver name = Some (TInputObject t) -> sorted_keys o -> TOMBSTONE_KEY ∉ o.*1 ->
    (forall k v, (k, v) ∈ o -> exists def, find_input t k = Some def /\ conforms v (iv_value_type def)) ->
    conforms (RObject o) (NamedType name).

(** ** Coercion is correct *)

Lemma coerce_enum_ok v t : coerce_enum v t <> Panic /\
  (forall v', coerce_enum v t = Ok v' -> v <> RNull -> exists e, v' = REnum e /\ e ∈ map ev_name (enum_values t)) /\
  (forall e, e ∈ map ev_name (enum_values t) -> coerce_enum (REnum e) t = Ok (REnum e)).
Proof.
  assert (Hknown : forall e, List.existsb (fun value => bool_decide (ev_name value = e)) (enum_values t) = true <->
    e ∈ map ev_name (enum_values t)).
  { intros e. rewrite existsb_elem, list_elem_of_fmap. setoid_rewrite bool_decide_eq_true. naive_solver. }
  unfold coerce_enum. split_and!.
  - by destruct v; try done; destruct (List.existsb _ _).
  - intros v' Hv Hnull. destruct v; try done; destruct (List.existsb _ _) eqn:He; simplify_eq; eexists; (split; [done|by apply Hknown]).
  - intros e He. apply Hknown in He. by rewrite He.
Qed.

Lemma coerce_scalar_ok v t : coerce_scalar float_to_string v t <> Panic /\
  (forall v', coerce_scalar float_to_string v t = Ok v' -> v <> RNull -> scalar_conforms (scalar_name t) v') /\
  (scalar_conforms (scalar_name t) v -> coerce_scalar float_to_string v t = Ok v).
Proof.
  unfold coerce_scalar, scalar_conforms, in_i32. split_and!.
  - destruct v; repeat case_decide; try done; by destruct (bool_decide _ && bool_decide _).
  - intros v' Hv Hnull. destruct v; repeat case_decide; simplify_eq; try done; try set_solver.
  - destruct v; try done; intros H.
    + destruct H as [-> [H1 H2]]. rewrite decide_False, decide_True by done. by rewrite !bool_decide_true.
    + by rewrite decide_True.
    + by rewrite decide_True.
    + by rewrite decide_True.
Qed.

(** What the theorem says of a value and a type *)
Definition coerces (v : rValue) (ty : sType) : Prop :=
  coerce_value v ty <> Panic /\ (forall v', coerce_value v ty = Ok v' -> conforms v' ty /\ (v <> RNull -> v' <> RNull)) /\
  (conforms v ty -> coerce_value v ty = Ok v).

(** The coercion of an entry of an object *)
Definition coerce_entry (value : rValue) (t : InputObjectType) (kv : string * rValue) : result rValue (option (string * rValue)) :=
  let (name, v) := kv in
  if bool_decide (name = TOMBSTONE_KEY) then Ok None else
  match find_input t name with
  | None => Err value
  | Some def =>
      match coerce_value v (iv_value_type def) with
      | Ok v => Ok (Some (name, v))
      | Err _ => Err value
      | Panic => Panic
      end
  end.

Lemma coerce_entries_no_panic value t o : (forall k v ty, (k, v) ∈ o -> coerces v ty) -> try_map (coerce_entry value t) o <> Panic.
Proof.
  intros IH. induction o as [|[k v] o IHo]; [done|]. cbn [try_map].
  assert (Hk : coerce_entry value t (k, v) <> Panic).
  { unfold coerce_entry. case_bool_decide; [done|]. destruct (find_input t k) as [def|]; [|done].
    destruct (IH k v (iv_value_type def)) as [Hp _]; [by left|]. by destruct (coerce_value v (iv_value_type def)). }
  destruct (coerce_entry value t (k, v)) as [x|e|]; [|done|done]. cbn [bind_result].
  assert (Ho : try_map (coerce_entry value t) o <> Panic) by (apply IHo; intros k' v' ty Hin; apply (IH k'); by right).
  by destruct (try_map (coerce_entry value t) o).
Qed.

Lemma coerced_entries value t o coerced :
  try_map (coerce_entry value t) o = Ok coerced ->
  forall k v', (k, v') ∈ omap (fun x : option (string * rValue) => x) coerced ->
    k <> TOMBSTONE_KEY /\ exists v def, (k, v) ∈ o /\ find_input t k = Some def /\ coerce_value v (iv_value_type def) = Ok v'.
Proof.
  intros H%try_map_forall2 k v' (x & Hx & ->)%list_elem_of_omap. destruct (forall2_elem_r _ _ _ H _ Hx) as ([name v] & Hin & Heq).
  unfold coerce_entry in Heq. case_bool_decide; [done|]. destruct (find_input t name) as [def|] eqn:Hf; [|done].
  destruct (coerce_value v (iv_value_type def)) as [w| |] eqn:Hc; simplify_eq. split; [done|]. by exists v, def.
Qed.

Lemma conforming_entries value t o :
  TOMBSTONE_KEY ∉ o.*1 -> (forall k v ty, (k, v) ∈ o -> coerces v ty) ->
  (forall k v, (k, v) ∈ o -> exists def, find_input t k = Some def /\ conforms v (iv_value_type def)) ->
  try_map (coerce_entry value t) o = Ok (map Some o).
Proof.
  intros Ht IH Ho. induction o as [|[k v] o IHo]; [done|]. rewrite fmap_cons in Ht. apply not_elem_of_cons in Ht as [Hk Ht]. simpl in Hk.
  cbn [try_map map]. destruct (Ho k v) as (def & Hdef & Hc); [by left|]. destruct (IH k v (iv_value_type def)) as (_ & _ & Hid); [by left|].
  assert (He : coerce_entry value t (k, v) = Ok (Some (k, v))).
  { unfold coerce_entry. rewrite bool_decide_false by done. by rewrite Hdef, Hid. }
  rewrite He. cbn [bind_result]. rewrite IHo; [done|done| |].
  - intros k' v' ty Hin. apply (IH k'). by right.
  - intros k' v' Hin. apply Ho. by right.
Qed.

Lemma object_coercion t o name :
  resolver name = Some (TInputObject t) -> (forall k v ty, (k, v) ∈ o -> coerces v ty) -> coerces (RObject o) (NamedType name).
Proof.
  intros Hr IH. unfold coerces.
  assert (Hcoerce : coerce_value (RObject o) (NamedType name) =
    let? coerced := try_map (coerce_entry (RObject o) t) o in Ok (value_object (btree_from_list (omap (fun x => x) coerced)))).
  { simpl. unfold coerce_to_definition. by rewrite Hr. }
  rewrite Hcoerce. split_and!.
  - pose proof (coerce_entries_no_panic (RObject o) t o IH). by destruct (try_map _ o).
  - intros v' Hv'. destruct (try_map _ o) as [coerced| |] eqn:Hc; [|done|done]. simpl in Hv'. injection Hv' as <-. split; [|done].
    pose proof (coerced_entries _ _ _ _ Hc) as Hent. apply (conforms_input name t); [done|apply btree_from_list_keys|..].
    + intros ([k v] & Hk & Hin%btree_from_list_elem)%list_elem_of_fmap. simpl in Hk. subst k. by destruct (Hent _ _ Hin).
    + intros k v Hin%btree_from_list_elem. destruct (Hent _ _ Hin) as (_ & v0 & def & Hin0 & Hdef & Hv). exists def. split; [done|].
      destruct (IH k v0 (iv_value_type def)) as (_ & Hok & _); [done|]. by apply Hok.
  - inversion 1 as [| | | |? t' ? Hr'|? t' ? Hr' Hs Ht Ho]; subst; rewrite Hr in Hr'; [done|]. injection Hr' as <-.
    rewrite conforming_entries by done. simpl. unfold value_object. do 2 f_equal.
    assert (Hom : omap (fun x : option (string * rValue) => x) (map Some o) = o) by (clear; induction o as [|x o IH]; [done|]; simpl; by f_equal).
    by rewrite Hom, btree_from_list_sorted.
Qed.

Lemma named_coercion v name :
  v <> RNull -> (forall o k w ty, v = RObject o -> (k, w) ∈ o -> coerces w ty) -> coerces v (NamedType name).
Proof.
  intros Hnull IH. assert (Heq : coerce_value v (NamedType name) = coerce_to_definition coerce_value v name) by by destruct v.
  destruct (resolver name) as [[t|t|t|t|t|t]|] eqn:Hr.
  2-4,7: unfold coerces; rewrite Heq; unfold coerce_to_definition; rewrite Hr; split_and!; [done|done|]; inversion 1; congruence.
  - unfold coerces. rewrite Heq. unfold coerce_to_definition. rewrite Hr. destruct (coerce_scalar_ok v t) as (Hp & Hok & Hid).
    split_and!; [done| |].
    + intros v' Hv'. specialize (Hok v' Hv' Hnull). split; [by eapply conforms_scalar|]. intros _ ->. done.
    + inversion 1; subst; try congruence; try done. apply Hid. congruence.
  - unfold coerces. rewrite Heq. unfold coerce_to_definition. rewrite Hr. destruct (coerce_enum_ok v t) as (Hp & Hok & Hid).
    split_and!; [done| |].
    + intros v' Hv'. destruct (Hok v' Hv' Hnull) as (e & -> & He). split; [by eapply conforms_enum|done].
    + inversion 1; subst; try congruence; try done. apply Hid. congruence.
  - destruct v as [| | | | | | |o]; try (by apply (object_coercion t); [|intros; by eapply IH]);
      unfold coerces; rewrite Heq; unfold coerce_to_definition; rewrite Hr; (split_and!; [done|done|]); inversion 1; congruence.
Qed.

Lemma list_coercion l t : (forall v, v ∈ l -> coerces v t) -> coerces (RList l) (ListType t).
Proof.
  intros IH. unfold coerces. simpl. split_and!.
  - assert (Hp : try_map (fun v => coerce_value v t) l <> Panic); [|by destruct (try_map _ l)].
    induction l as [|v l IHl]; [done|]. cbn [try_map]. destruct (IH v) as [Hv _]; [by left|].
    assert (Hl : try_map (fun v => coerce_value v t) l <> Panic) by (apply IHl; intros w Hw; apply IH; by right).
    destruct (coerce_value v t); [|done|done]. simpl. by destruct (try_map _ l).
  - intros v' Hv'. destruct (try_map _ l) as [l'| |] eqn:Hl; [|done|done]. injection Hv' as <-. split; [|done].
    apply try_map_forall2 in Hl. constructor. intros w Hw. destruct (forall2_elem_r _ _ _ Hl _ Hw) as (v & Hv & Heq).
    by destruct (IH v Hv) as (_ & Hok & _); apply Hok.
  - inversion 1 as [| |? ? Hl| | |]; subst. assert (Hmap : try_map (fun v => coerce_value v t) l = Ok l); [|by rewrite Hmap].
    clear H. induction l as [|v l IHl]; [done|]. cbn [try_map]. destruct (IH v) as (_ & _ & Hid); [by left|].
    rewrite Hid by (apply Hl; by left). simpl. rewrite IHl; [done|..]; intros w Hw; [apply IH|apply Hl]; by right.
Qed.

Lemma non_null_coercion v t : v <> RNull -> coerces v t -> coerces v (NonNullType t).
Proof.
  intros Hnull (Hp & Hok & Hid). assert (Heq : coerce_value v (NonNullType t) = coerce_value v t) by by destruct v.
  unfold coerces. rewrite Heq. split_and!; [done| |].
  - intros v' Hv'. destruct (Hok v' Hv') as [Hc Hn]. split; [constructor; [by apply Hn|done]|done].
  - inversion 1; subst; [by apply Hid|done].
Qed.

Lemma not_list_coercion v t : v <> RNull -> (forall l, v <> RList l) -> coerces v (ListType t).
Proof.
  intros Hnull Hl. assert (Heq : coerce_value v (ListType t) = Err v) by (destruct v; try done; by destruct (Hl l)).
  unfold coerces. rewrite Heq. split_and!; [done..|]. inversion 1; subst; [done|by destruct (Hl l)].
Qed.

Lemma null_coercion ty : coerces RNull ty.
Proof.
  destruct ty as [name|t|t]; unfold coerces; simpl; split_and!; try done.
  - intros v' [= <-]. split; [by constructor|done].
  - intros v' [= <-]. split; [by constructor|done].
  - inversion 1; done.
Qed.

Lemma coerces_all v ty : coerces v ty.
Proof.
  revert ty. induction v as [n|b|s|b| |e|l IH|o IH] using rValue_nested_ind; intros ty; [..|].
  5: apply null_coercion.
  all: induction ty as [name|t _|t IHt]; [apply named_coercion; [done|] | | by apply non_null_coercion].
  all: try (intros o' k w ty [=]; fail).
  all: try (by apply not_list_coercion).
  - apply list_coercion. rewrite Forall_forall in IH. intros v Hv. by apply IH.
  - intros o' k w ty [= <-] Hin. rewrite Forall_forall in IH. by apply (IH (k, w)).
Qed.

(** C33: coercion is correct.  It does not panic; what it returns is a value of the type;
    and a value that is of the type already is returned as it is, so that coercing twice
    is the same as coercing once. *)
Theorem coercion_correct v ty :
  coerce_value v ty <> Panic /\ (forall v', coerce_value v ty = Ok v' -> conforms v' ty) /\
  (conforms v ty -> coerce_value v ty = Ok v).
Proof. destruct (coerces_all v ty) as (Hp & Hok & Hid). split_and!; [done| |done]. intros v' Hv'. by apply Hok. Qed.

End Coercion.
