(* ===== verification/QueryPrep.v ===== *)
(** * Preparation of queries

    [graphql/src/execution/query.rs]: a parsed query is checked for its complexity and for
    unknown fields, and turned into selection sets in which variables are replaced,
    arguments coerced and fragments resolved; with the parts of [ApiSchema]
    ([graph/src/data/schema.rs]), [graphql/src/schema/ast.rs],
    [graphql/src/execution/ast.rs] and [graphql/src/query/ext.rs] that it uses.

    The calls of functions that recurse through fragments take fuel, and are [None] when
    it does not suffice; the code overflows its stack where no fuel does.  The additions
    of [u64] numbers that are not checked wrap around, as they do in a release build. *)

From Stdlib Require Import Strings.Byte.
From S2P Require Import Prelude GraphqlAst Scalars RuntimeValue Values Names StoreTypes Schema QueryAst Coercion.

(** ** The schema of the API *)

Record ApiSchema := mkApiSchema {
  api_schema : Schema;
  api_query_type : ObjectType;
  api_subscription_type : option ObjectType;
  api_object_types : gmap string ObjectType
}.

Definition api_document (a : ApiSchema) : Document := sch_document (api_schema a).

Definition named (name : string) : sType := NamedType name.

Definition introspection_fields : list Field := [
  {| field_name := "__schema"; field_arguments := []; field_type := NonNullType (named "__Schema"); field_directives := [] |};
  {| field_name := "__type";
     field_arguments := [{| iv_name := "name"; iv_value_type := NonNullType (named "String"); iv_default_value := None; iv_directives := [] |}];
     field_type := named "__Type"; field_directives := [] |}
].

Definition add_fields (fields : list Field) (t : ObjectType) : ObjectType :=
  {| obj_name := obj_name t; obj_implements_interfaces := obj_implements_interfaces t; obj_directives := obj_directives t;
     obj_fields := obj_fields t ++ fields |}.

Definition is_query_def (d : Definition_) : bool :=
  match d with DTypeDefinition (TObject t) => bool_decide (obj_name t = "Query") | _ => false end.

(** [introspection] is the document of [introspection.graphql]. *)
Definition add_introspection_schema {E} (introspection doc : Document) : result E Document :=
  let defs := definitions doc ++ definitions introspection in
  let? defs := match update_first (E:=E) is_query_def
                       (fun d => match d with
                                 | DTypeDefinition (TObject t) => Ok (DTypeDefinition (TObject (add_fields introspection_fields t)))
                                 | _ => Ok d
                                 end) defs with
               | Some r => r
               | None => Panic
               end in
  Ok {| definitions := defs |}.

Definition with_document (s : Schema) (doc : Document) : Schema :=
  mkSchema (sch_id s) doc (sch_interfaces_for_type s) (sch_types_for_interface s) (sch_immutable_types s).

Definition from_api_schema (introspection : Document) (api : Schema) : result string ApiSchema :=
  let? doc := add_introspection_schema introspection (sch_document api) in
  let? query_type := ok_or "no root `Query` in the schema" (get_root_query_type doc) in
  Ok (mkApiSchema (with_document api doc) query_type (get_root_subscription_type doc)
        (collect_map (map (fun t => (obj_name t, t)) (get_object_type_definitions doc)))).

Definition api_object_type {E} (a : ApiSchema) (t : ObjectType) : result E ObjectType := expect (api_object_types a !! obj_name t).

Definition api_get_named_type (a : ApiSchema) (name : string) : option TypeDefinition := get_named_type (api_document a) name.

Fixpoint is_input_type (a : ApiSchema) (t : sType) : bool :=
  match t with
  | NamedType name =>
      match api_get_named_type a name with
      | Some (TScalar _) | Some (TEnum _) | Some (TInputObject _) => true
      | _ => false
      end
  | ListType inner | NonNullType inner => is_input_type a inner
  end.

Definition get_root_query_type_def (a : ApiSchema) : option TypeDefinition := TObject <$> get_root_query_type (api_document a).

Definition api_object_or_interface (introspection : Document) (a : ApiSchema) (name : string) : option ObjectOrInterface :=
  if starts_with "__" name then object_or_interface introspection name else object_or_interface (api_document a) name.

(** ** Fields and arguments of types *)

Definition TYPENAME_FIELD : Field :=
  {| field_name := "__typename"; field_arguments := []; field_type := NonNullType (named "String"); field_directives := [] |}.

Definition sast_get_field (object_type : ObjectOrInterface) (name : string) : option Field :=
  if decide (name = "__typename") then Some TYPENAME_FIELD else ooi_field object_type name.

Definition NAME_ARGUMENT : list InputValue :=
  [{| iv_name := "name"; iv_value_type := NonNullType (named "String"); iv_default_value := None; iv_directives := [] |}].

Definition get_argument_definitions (object_type : ObjectOrInterface) (name : string) : option (list InputValue) :=
  if decide (name = "__type") then Some NAME_ARGUMENT else field_arguments <$> sast_get_field object_type name.

Definition is_list_or_non_null_list_field (field : Field) : bool :=
  match field_type field with
  | ListType _ => true
  | NonNullType (ListType _) => true
  | _ => false
  end.

(** [execution::get_field]; the type has the fields of introspection. *)
Definition get_field (introspection_query_type : ObjectType) (object_type : ObjectOrInterface) (name : string) : option Field :=
  if decide (name = "__schema") then sast_get_field (OObject introspection_query_type) name
  else if decide (name = "__type") then sast_get_field (OObject introspection_query_type) name
  else sast_get_field object_type name.

(** ** Sets of object types *)

(** A set of object types by their names *)
Inductive ObjectTypeSet :=
| AnyType
| OnlyTypes (set : gmap string ObjectType).

Definition type_set_contains (s : ObjectTypeSet) (name : string) : bool :=
  match s with AnyType => true | OnlyTypes set => bool_decide (is_Some (set !! name)) end.

Definition type_set_intersect (s other : ObjectTypeSet) : ObjectTypeSet :=
  match s with
  | AnyType => other
  | OnlyTypes set => OnlyTypes (filter (fun x => type_set_contains other x.1 = true) set)
  end.

Section Query.
Context (introspection : Document) (introspection_query_type : ObjectType) (float_to_string : Z -> string).
Context (schema : ApiSchema).

Local Abbreviation QErr := (list QueryExecutionError).

(** Errors of a single kind become a list. *)
Definition one_error {A} (r : result QueryExecutionError A) : result QErr A := map_err (fun e => [e]) r.

(** [resolve_object_types]; unions of unions take fuel. *)
Fixpoint resolve_types (fuel : nat) (name : string) : option (result QueryExecutionError (gmap string ObjectType)) :=
  match fuel with
  | O => None
  | S fuel =>
      match api_get_named_type schema name with
      | None => Some (Err (AbstractTypeError name))
      | Some (TInterface intf) =>
          Some (let? types := expect (sch_types_for_interface (api_schema schema) !! intf_name intf) in
                let? types := try_map (api_object_type schema) types in
                Ok (collect_map (map (fun t => (obj_name t, t)) types)))
      | Some (TUnion tys) =>
          foldl (fun acc ty =>
              let* set := acc in
              let* more := resolve_types fuel ty in
              Some (Ok (set ∪ more))) (Some (Ok ∅)) (union_types tys)
      | Some (TObject ty) => Some (let? ty := api_object_type schema ty in Ok {[ obj_name ty := ty ]})
      | Some (TScalar _) | Some (TEnum _) | Some (TInputObject _) => Some (Err (NamedTypeError name))
      end
  end.

Definition resolve_object_types (name : string) : option (result QueryExecutionError (gmap string ObjectType)) :=
  resolve_types (S (length (definitions (api_document schema)))) name.

Definition type_set_from_name (name : string) : option (result QueryExecutionError ObjectTypeSet) :=
  let* set := resolve_object_types name in Some (Ok (OnlyTypes set)).

Definition type_set_convert (type_cond : option string) : option (result QueryExecutionError ObjectTypeSet) :=
  match type_cond with
  | Some name => type_set_from_name name
  | None => Some (Ok AnyType)
  end.

Definition type_names (s : ObjectTypeSet) (current_type : ObjectOrInterface) : option (result QueryExecutionError (list ObjectType)) :=
  let* set := resolve_object_types (ooi_name current_type) in
  Some (Ok (map snd (List.filter (fun x => type_set_contains s x.1) (map_to_list set)))).

(** ** Variables *)

Definition coerce_variable (def : VariableDefinition) (value : rValue) : result QErr rValue :=
  map_err (fun value => [InvalidArgumentError (vd_name def) (qvalue_from value)])
    (coerce_value float_to_string (api_get_named_type schema) value (vd_var_type def)).

(** What is known after some definitions: the remaining variables, coerced values and
    errors *)
Definition coerce_variable_def (st : option (gmap string rValue) * gmap string rValue * QErr) (def : VariableDefinition)
    : result QErr (option (gmap string rValue) * gmap string rValue * QErr) :=
  let '(variables, coerced, errors) := st in
  if negb (is_input_type schema (vd_var_type def)) then Ok (variables, coerced, errors ++ [InvalidVariableTypeError (vd_name def)])
  else
    let value := variables ≫= fun vars => vars !! vd_name def in
    let variables := (fun vars => delete (vd_name def) vars) <$> variables in
    let? value :=
      match value with
      | Some v => Ok (Some v)
      | None => match vd_default_value def with
                | None => Ok None
                | Some d => match rvalue_try_from d with Ok v => Ok (Some v) | _ => Panic end
                end
      end in
    match value with
    | None =>
        Ok (variables, coerced, if is_non_null (vd_var_type def) then errors ++ [MissingVariableError (vd_name def)] else errors)
    | Some value =>
        let? value := coerce_variable def value in
        Ok (variables, <[vd_name def := value]> coerced, errors)
    end.

Definition coerce_variables (operation : OperationDefinition) (variables : option (gmap string rValue))
    : result QErr (gmap string rValue) :=
  let? (_, coerced, errors) := try_fold coerce_variable_def (variables, ∅, []) (default [] (get_variable_definitions operation)) in
  if bool_decide (length errors = 0) then Ok coerced else Err errors.

(** ** Complexity *)

Section Raw.
Context (variables : gmap string rValue) (fragments : gmap string FragmentDefinition).

Inductive ComplexityError :=
| CTooDeep
| COverflow
| CInvalid
| CCyclicalFragment (name : string).

Definition u64_max : Z := (u64_mod - 1)%Z.

Definition checked_add (a b : Z) : result ComplexityError Z := if (a + b <=? u64_max)%Z then Ok (a + b)%Z else Err COverflow.
Definition checked_mul (a b : Z) : result ComplexityError Z := if (a * b <=? u64_max)%Z then Ok (a * b)%Z else Err COverflow.

(** [first], which is 100 unless it is given as a number *)
Definition max_entities (arguments : list (string * qValue)) : Z :=
  match get_argument_value arguments "first" with Some (QInt n) => wrap_u64 n | _ => 100%Z end.

Definition complexity_field (ty : TypeDefinition) (name : string) : result ComplexityError Field :=
  ok_or CInvalid
    match ty with
    | TObject t => get_field introspection_query_type (OObject t) name
    | TInterface t => get_field introspection_query_type (OInterface t) name
    | _ => None
    end.

(** [rest] is [max_depth - depth]. *)
Fixpoint complexity_inner (rest : nat) (ty : TypeDefinition) (selection_set : list qSelection) (visited_fragments : gset string)
    : result ComplexityError Z :=
  match rest with
  | O => Err CTooDeep
  | S rest =>
      try_fold (fun total_complexity selection =>
          match selection with
          | QField _ name arguments _ sub =>
              if bool_decide (length sub = 0) then Ok total_complexity else
              let? s_field := complexity_field ty name in
              let? field_ty := ok_or CInvalid (api_get_named_type schema (get_base_type (field_type s_field))) in
              let? field_complexity := complexity_inner rest field_ty sub visited_fragments in
              if negb (is_list_or_non_null_list_field s_field) then Ok (wrap_u64 (total_complexity + field_complexity)) else
              let? product := checked_mul (max_entities arguments) field_complexity in
              let? complexity := checked_add (max_entities arguments) product in
              checked_add total_complexity complexity
          | QFragmentSpread name _ =>
              let? def := expect (fragments !! name) in
              let? frag_ty := ok_or CInvalid (api_get_named_type schema (fd_type_condition def)) in
              if bool_decide (name ∈ visited_fragments) then Err (CCyclicalFragment name) else
              let? complexity := complexity_inner rest frag_ty (fd_selection_set def) ({[name]} ∪ visited_fragments) in
              checked_add total_complexity complexity
          | QInlineFragment type_condition _ sub =>
              let? frag_ty := match type_condition with
                              | Some type_name => ok_or CInvalid (api_get_named_type schema type_name)
                              | None => Ok ty
                              end in
              let? complexity := complexity_inner rest frag_ty sub visited_fragments in
              checked_add total_complexity complexity
          end) 0%Z selection_set
  end.

Definition query_complexity (max_depth : Z) (selection_set : list qSelection) : result QueryExecutionError Z :=
  let? root_type := expect (get_root_query_type_def schema) in
  match complexity_inner (Z.to_nat max_depth) root_type selection_set ∅ with
  | Ok complexity => Ok complexity
  | Err CInvalid => Ok 0%Z
  | Err CTooDeep => Err (TooDeep max_depth)
  | Err COverflow => Err (TooComplex u64_max 0)
  | Err (CCyclicalFragment name) => Err (CyclicalFragment name)
  | Panic => Panic
  end.

Definition check_complexity (max_complexity : option Z) (max_depth : Z) (selection_set : list qSelection) : result QErr Z :=
  let? complexity := one_error (query_complexity max_depth selection_set) in
  match max_complexity with
  | Some max => if (max <? complexity)%Z then Err [TooComplex complexity max] else Ok complexity
  | None => Ok complexity
  end.

(** ** Unknown fields *)

Fixpoint validate_fields_inner (fuel : nat) (type_name : string) (ty : ObjectOrInterface) (selection_set : list qSelection)
    : option QErr :=
  match fuel with
  | O => None
  | S fuel =>
      errors ← mapM (fun selection =>
          match selection with
          | QField _ name _ _ sub =>
              match get_field introspection_query_type ty name with
              | Some s_field =>
                  let base_type := get_base_type (field_type s_field) in
                  match api_get_named_type schema base_type with
                  | None => Some [NamedTypeError base_type]
                  | Some _ =>
                      match api_object_or_interface introspection schema base_type with
                      | Some ty => validate_fields_inner fuel base_type ty sub
                      | None => Some []
                      end
                  end
              | None => Some [UnknownField type_name name]
              end
          | QFragmentSpread name _ =>
              match fragments !! name with
              | Some frag =>
                  match api_object_or_interface introspection schema (fd_type_condition frag) with
                  | Some ty => validate_fields_inner fuel (fd_type_condition frag) ty (fd_selection_set frag)
                  | None => Some [NamedTypeError (fd_type_condition frag)]
                  end
              | None => Some [UndefinedFragment name]
              end
          | QInlineFragment (Some type_name) _ sub =>
              match api_object_or_interface introspection schema type_name with
              | Some ty => validate_fields_inner fuel type_name ty sub
              | None => Some [NamedTypeError type_name]
              end
          | QInlineFragment None _ sub => validate_fields_inner fuel type_name ty sub
          end) selection_set;
      Some (concat errors)
  end.

Definition query_validate_fields (fuel : nat) (selection_set : list qSelection) : option (result QErr unit) :=
  errors ← validate_fields_inner fuel "Query" (OObject (api_query_type schema)) selection_set;
  Some (if bool_decide (length errors = 0) then Ok tt else Err errors).

(** ** [Transform] *)

(** Variables that are not defined are null. *)
Definition variable (name : string) : rValue := default RNull (variables !! name).

Fixpoint interpolate_value (value : qValue) : rValue :=
  match value with
  | QVariable var => variable var
  | QInt num => RInt num
  | QFloat f => RFloat f
  | QString s => RString s
  | QBoolean b => RBoolean b
  | QNull => RNull
  | QEnum s => REnum s
  | QList vals => RList (map interpolate_value vals)
  | QObject map => value_object (List.map (fun kv : string * qValue => let (k, v) := kv in (k, interpolate_value v)) map)
  end.

Definition interpolate_arguments (args : list (string * qValue)) : list (string * rValue) :=
  map (fun x => (x.1, interpolate_value x.2)) args.

Definition interpolate_directives (dirs : list Directive) : list aDirective * bool :=
  let dirs := map (fun d => mkDirective (dir_name d) (interpolate_arguments (dir_arguments d))) dirs in
  (dirs, existsb directive_skip dirs).

(** [iter_mut().find(..)] and an assignment *)
Fixpoint set_argument (arguments : list (string * rValue)) (name : string) (value : rValue) : list (string * rValue) :=
  match arguments with
  | [] => []
  | (n, v) :: args => if decide (n = name) then (n, value) :: args else (n, v) :: set_argument args name value
  end.

(** One argument definition: the arguments, how many of them are defined, and errors *)
Definition coerce_argument (field_name : string) (st : list (string * rValue) * nat * QErr) (def : InputValue)
    : result QErr (list (string * rValue) * nat * QErr) :=
  let '(arguments, defined_args, errors) := st in
  let arg_value := get_argument_value arguments (iv_name def) in
  let defined_args := match arg_value with Some _ => S defined_args | None => defined_args end in
  match coerce_input_value float_to_string (api_get_named_type schema) arg_value def with
  | Ok (Some value) =>
      let value := if decide (iv_name def = "text") then RObject (object_from_iter [(field_name, value)]) else value in
      Ok (match arg_value with
          | Some _ => set_argument arguments (iv_name def) value
          | None => arguments ++ [(iv_name def, value)]
          end, defined_args, errors)
  | Ok None => Ok (arguments, defined_args, errors)
  | Err e => Ok (arguments, defined_args, errors ++ [e])
  | Panic => Panic
  end.

Definition coerce_argument_values (arguments : list (string * rValue)) (ty : ObjectOrInterface) (field_name : string)
    : result QErr (list (string * rValue)) :=
  let defs := get_argument_definitions ty field_name in
  let? (arguments, defined_args, errors) := try_fold (coerce_argument field_name) (arguments, O, []) (default [] defs) in
  let arguments :=
    if (defined_args <? length arguments)%nat then
      match defs with
      | None => []
      | Some arg_defs => List.filter (fun x => existsb (fun def => bool_decide (iv_name def = x.1)) arg_defs) arguments
      end
    else arguments in
  if bool_decide (length errors = 0) then Ok arguments else Err errors.

(** The functions that recurse into selection sets have the recursive call as an argument. *)
Section Expand.
Context (expand : list qSelection -> ObjectTypeSet -> ObjectOrInterface -> option (result QErr SelectionSet)).

Definition expand_field (alias : option string) (name : string) (arguments : list (string * qValue)) (directives : list Directive)
    (selection_set : list qSelection) (parent_type : ObjectOrInterface) : option (result QErr (option aField)) :=
  if decide (name = "__typename") then Some (Ok (Some (mkAField alias name [] [] []))) else
  let* field := Some (ok_or [UnknownField (ooi_name parent_type) name] (ooi_field parent_type name)) in
  let (directives, skip) := interpolate_directives directives in
  if skip then Some (Ok None) else
  let* arguments := Some (coerce_argument_values (interpolate_arguments arguments) parent_type name) in
  let* is_leaf := Some (is_leaf_type (api_document schema) (field_type field)) in
  if bool_decide (length selection_set = 0) then
    Some (Ok (if is_leaf : bool then Some (mkAField alias name arguments directives []) else None))
  else if is_leaf then Some (Ok (Some (mkAField alias name arguments directives [])))
  else
    let ty := get_base_type (field_type field) in
    let* type_set := one_error <$> type_set_from_name ty in
    let* ty := Some (expect (api_object_or_interface introspection schema ty)) in
    let* set := expand selection_set type_set ty in
    Some (Ok (Some (mkAField alias name arguments directives set))).

Definition expand_fragment (directives : list Directive) (frag_cond : option string) (type_set : ObjectTypeSet)
    (selection_set : list qSelection) (ty : ObjectOrInterface) (newset : SelectionSet) : option (result QErr SelectionSet) :=
  let (directives, skip) := interpolate_directives directives in
  let* ty := Some match frag_cond with
                  | Some name => expect (api_object_or_interface introspection schema name)
                  | None => Ok ty
                  end in
  if skip then Some (Ok newset) else
  let* cond_set := one_error <$> type_set_convert frag_cond in
  let* set := expand selection_set (type_set_intersect cond_set type_set) ty in
  Some (one_error (selection_merge newset set directives)).

(** One selection: the new set, and the fragments that were spread *)
Definition expand_selection (type_set : ObjectTypeSet) (ty : ObjectOrInterface) (st : SelectionSet * gset string) (sel : qSelection)
    : option (result QErr (SelectionSet * gset string)) :=
  let (newset, visited_fragments) := st in
  match sel with
  | QField alias name arguments directives sub =>
      let* field := expand_field alias name arguments directives sub ty in
      match field with
      | Some field => let* newset := Some (one_error (selection_push newset field)) in Some (Ok (newset, visited_fragments))
      | None => Some (Ok (newset, visited_fragments))
      end
  | QFragmentSpread fragment_name _ =>
      let* frag := Some (expect (fragments !! fragment_name)) in
      if bool_decide (fragment_name ∈ visited_fragments) then Some (Ok (newset, visited_fragments)) else
      let* newset := expand_fragment (fd_directives frag) (Some (fd_type_condition frag)) type_set (fd_selection_set frag) ty newset in
      Some (Ok (newset, {[fragment_name]} ∪ visited_fragments))
  | QInlineFragment type_condition directives sub =>
      let* newset := expand_fragment directives type_condition type_set sub ty newset in
      Some (Ok (newset, visited_fragments))
  end.

End Expand.

(** A loop over selections *)
Fixpoint fuel_fold {E S A} (f : S -> A -> option (result E S)) (s : S) (l : list A) : option (result E S) :=
  match l with
  | [] => Some (Ok s)
  | x :: l => let* s := f s x in fuel_fold f s l
  end.

Fixpoint expand_selection_set (fuel : nat) (items : list qSelection) (type_set : ObjectTypeSet) (ty : ObjectOrInterface)
    : option (result QErr SelectionSet) :=
  match fuel with
  | O => None
  | S fuel =>
      let* types := one_error <$> type_names type_set ty in
      let* (newset, _) := fuel_fold (expand_selection (expand_selection_set fuel) type_set ty) (selection_new types, ∅) items in
      Some (Ok newset)
  end.

End Raw.

(** ** [Query::new] *)

Inductive Kind := KQuery | KSubscription.

Record Query := mkQuery { qy_selection_set : SelectionSet; qy_kind : Kind }.

(** The operation and the fragments of a document *)
Definition add_definition (st : option OperationDefinition * gmap string FragmentDefinition) (defn : qDefinition)
    : result QErr (option OperationDefinition * gmap string FragmentDefinition) :=
  let (operation, fragments) := st in
  match defn with
  | QOperation op =>
      match operation with
      | None => Ok (Some op, fragments)
      | Some _ => Err [OperationNameRequired]
      end
  | QFragment frag => Ok (operation, <[fd_name frag := frag]> fragments)
  end.

Definition operation_kind (operation : OperationDefinition) : result QErr Kind :=
  match operation with
  | OpQuery _ _ | OpSelectionSet _ => Ok KQuery
  | OpSubscription _ _ => Ok KSubscription
  | OpMutation _ _ => Err [NotSupported "Mutations are not supported"]
  end.

(** [validation_errors] are those of the validation plan, which is empty unless
    validations are enabled. *)
Definition graphql_query_new (fuel : nat) (validation_errors : list string) (document : QueryDocument)
    (variables : option (gmap string rValue)) (max_complexity : option Z) (max_depth : Z) : option (result QErr Query) :=
  if negb (bool_decide (validation_errors = [])) then Some (Err (map ValidationError validation_errors)) else
  let* (operation, fragments) := Some (try_fold add_definition (None, ∅) document) in
  let* operation := Some (ok_or [OperationNameRequired] operation) in
  let* variables := Some (coerce_variables operation variables) in
  let* kind := Some (operation_kind operation) in
  let selection_set := operation_selection_set operation in
  let* root_type := Some (match kind with KQuery => Ok (api_query_type schema) | KSubscription => expect (api_subscription_type schema) end) in
  let* _ := Some (check_complexity fragments max_complexity max_depth selection_set) in
  let* _ := query_validate_fields fragments fuel selection_set in
  let* set := expand_selection_set variables fragments fuel selection_set AnyType (OObject root_type) in
  Some (Ok (mkQuery set kind)).

End Query.

(** ** Block constraints *)

Inductive BlockConstraint :=
| BcHash (hash : Bytes)
| BcNumber (n : BlockNumber)
| BcMin (n : BlockNumber)
| BcLatest.

#[export] Instance BlockConstraint_eq_dec : EqDecision BlockConstraint.
Proof. solve_decision. Defined.

Inductive ErrorPolicy := PolicyAllow | PolicyDeny.

Definition error_policy_try_from (value : rValue) : option ErrorPolicy :=
  match value with
  | REnum s => if decide (s = "allow") then Some PolicyAllow else if decide (s = "deny") then Some PolicyDeny else None
  | _ => None
  end.

Section BlockConstraints.
(** [H256::from_str] and [i32::from_str] *)
Context (h256_from_str : string -> option Bytes) (i32_from_str : string -> option Z).

Definition h256_try_from_value (value : rValue) : option Bytes :=
  match value with RString s => h256_from_str (trim_start_matches "0x" s) | _ => None end.

Definition i32_try_from_value (value : rValue) : option Z :=
  match value with
  | RInt n => if bool_decide (in_i32 n) then Some n else None
  | RString s => i32_from_str s
  | _ => None
  end.

Definition block_constraint_try_from_value (value : rValue) : option BlockConstraint :=
  match value with
  | RObject map =>
      match object_get map "hash" with
      | Some hash => BcHash <$> h256_try_from_value hash
      | None =>
          match object_get map "number" with
          | Some n => BcNumber <$> i32_try_from_value n
          | None =>
              match object_get map "number_gte" with
              | Some n => BcMin <$> i32_try_from_value n
              | None => None
              end
          end
      end
  | RNull => Some BcLatest
  | _ => None
  end.

Definition field_block_constraint (field : aField) : result (list QueryExecutionError) BlockConstraint :=
  match field_argument_value field "block" with
  | Some bc => ok_or [InvalidArgumentError "block" (qvalue_from bc)] (block_constraint_try_from_value bc)
  | None => Ok BcLatest
  end.

Definition field_error_policy (field : aField) : result (list QueryExecutionError) ErrorPolicy :=
  match field_argument_value field "subgraphError" with
  | Some value => ok_or [InvalidArgumentError "subgraphError" (qvalue_from value)] (error_policy_try_from value)
  | None => Ok PolicyDeny
  end.

Local Abbreviation Bcs := (list (BlockConstraint * (SelectionSet * ErrorPolicy))).

(** One field; the constraint of the field before it is that of the last entry. *)
Definition add_block_constraint (selection_set : SelectionSet) (st : Bcs * option BlockConstraint) (field : aField)
    : result (list QueryExecutionError) (Bcs * option BlockConstraint) :=
  let (bcs, prev_bc) := st in
  let? bc := field_block_constraint field in
  let? policy := field_error_policy field in
  if bool_decide (prev_bc = Some bc) then
    match last bcs with
    | Some (bc', (set, error_policy)) =>
        let? set := one_error (selection_push set field) in
        Ok (removelast bcs ++ [(bc', (set, match policy with PolicyDeny => PolicyDeny | PolicyAllow => error_policy end))], Some bc)
    | None => Panic
    end
  else
    let? set := one_error (selection_push (selection_empty_from selection_set) field) in
    Ok (bcs ++ [(bc, (set, policy))], Some bc).

Definition block_constraint (schema : ApiSchema) (q : Query) : result (list QueryExecutionError) Bcs :=
  let? fields := one_error (fields_for (qy_selection_set q) (api_query_type schema)) in
  let? (bcs, _) := try_fold (add_block_constraint (qy_selection_set q)) ([], None) fields in
  Ok bcs.

End BlockConstraints.
