(* ===== verification/QueryMerge.v ===== *)
(** * Merging selection sets

    A selection set selects paths of object types and response keys.  Merging selects
    what one of two sets selects, and keeps response keys unique. *)

From S2P Require Import Prelude GraphqlAst RuntimeValue QueryAst.

Lemma aField_nested_ind (P : aField -> Prop) :
  (forall alias name args dirs set, (forall t fields f, (t, fields) ∈ set -> f ∈ fields -> P f) -> P (mkAField alias name args dirs set)) ->
  forall f, P f.
Proof.
  intros H. assert (Hall : forall f, P f); [|done]. fix IH 1. intros [alias name args dirs set]. apply H.
  assert (Hset : Forall (fun x : ObjectType * list aField => Forall P x.2) set).
  { induction set as [|[t fs] set IHs]; constructor; [|exact IHs]. simpl. induction fs as [|f fs IHf]; constructor; [apply IH|exact IHf]. }
  intros t fields f Hin Hf. rewrite Forall_forall in Hset. specialize (Hset _ Hin). simpl in Hset. rewrite Forall_forall in Hset. by apply Hset.
Qed.

(** ** Paths *)

(** The set has the path, a list of type names and response keys. *)
Fixpoint selects (p : list (string * string)) (set : SelectionSet) : Prop :=
  match p with
  | [] => True
  | (T, k) :: p =>
      exists t fields f, (t, fields) ∈ set /\ obj_name t = T /\ f ∈ fields /\ response_key f = k /\ selects p (af_selection_set f)
  end.

Definition field_selects (fields : list aField) (k : string) (p : list (string * string)) : Prop :=
  exists f, f ∈ fields /\ response_key f = k /\ selects p (af_selection_set f).

Definition type_names_of (set : SelectionSet) : list string := map (fun x => obj_name x.1) set.

Lemma selects_cons T k p set :
  selects ((T, k) :: p) set <-> exists t fields, (t, fields) ∈ set /\ obj_name t = T /\ field_selects fields k p.
Proof. unfold field_selects. simpl. naive_solver. Qed.

Lemma update_first_spec {E A} (q : A -> bool) (f : A -> result E A) l :
  match update_first q f l with
  | Some r => exists l1 x l2, l = l1 ++ x :: l2 /\ q x = true /\ (forall y, y ∈ l1 -> q y = false) /\
      r = let? y := f x in Ok (l1 ++ y :: l2)
  | None => forall y, y ∈ l -> q y = false
  end.
Proof.
  induction l as [|x l IH]; simpl; [by intros y ?%not_elem_of_nil|]. destruct (q x) eqn:Hq.
  { exists [], x, l. split_and!; [done..| |done]. by intros y ?%not_elem_of_nil. }
  destruct (update_first q f l) as [r|]; simpl.
  - destruct IH as (l1 & y & l2 & -> & Hy & Hl1 & ->). exists (x :: l1), y, l2. split_and!; [done..| |].
    + intros z [->|Hz]%elem_of_cons; [done|by apply Hl1].
    + by destruct (f y).
  - intros y [->|Hy]%elem_of_cons; [done|by apply IH].
Qed.

Lemma try_fold_ext {E A S} (f g : S -> A -> result E S) s l :
  (forall s x, x ∈ l -> f s x = g s x) -> try_fold f s l = try_fold g s l.
Proof.
  revert s. induction l as [|x l IH]; intros s H; [done|]. simpl. rewrite H by by left.
  destruct (g s x); [|done|done]. simpl. apply IH. intros s' y Hy. apply H. by right.
Qed.

Lemma update_first_ext {E A} (q : A -> bool) (f g : A -> result E A) l :
  (forall x, f x = g x) -> update_first q f l = update_first q g l.
Proof. intros H. induction l as [|x l IH]; [done|]. simpl. by rewrite H, IH. Qed.

Lemma prepend_nothing f : prepend_directives [] f = f.
Proof. by destruct f. Qed.

(** [merge_field] in terms of [selection_merge] *)
Lemma merge_field_eq new fields :
  merge_field new fields =
    match update_first (fun field => bool_decide (response_key field = response_key new))
            (fun field => let? set := selection_merge (af_selection_set field) (af_selection_set new) [] in
                          Ok (with_selection_set field set)) fields with
    | Some r => r
    | None => Ok (fields ++ [new])
    end.
Proof.
  destruct new as [alias name args dirs set]. cbn [merge_field af_selection_set].
  assert (Heq : forall s0, try_fold (fun set (other : ObjectType * list aField) =>
                 let (other_type, other_fields) := other in
                 match update_first (fun item => same_type other_type item.1)
                         (fun item : ObjectType * list aField =>
                            let? fields := try_fold (fun fields f => merge_field f fields) item.2 other_fields in
                            Ok (item.1, fields)) set with
                 | Some r => r
                 | None => Err (merge_error other_type)
                 end) s0 set = selection_merge s0 set []).
  { intros s0. apply try_fold_ext. intros s [t fs] _. unfold merge_item.
    rewrite (update_first_ext _ _ (fun item : ObjectType * list aField =>
      let? fields := try_fold (fun fields f => merge_field (prepend_directives [] f) fields) item.2 fs in Ok (item.1, fields))); [done|].
    intros x. rewrite (try_fold_ext _ (fun fields f => merge_field (prepend_directives [] f) fields)); [done|].
    intros. by rewrite prepend_nothing. }
  rewrite (update_first_ext _ _ (fun field =>
    let? set := selection_merge (af_selection_set field) set [] in Ok (with_selection_set field set))); [done|].
  intros field. by rewrite Heq.
Qed.

(** ** What merging selects *)

Lemma field_selects_app l l' k p : field_selects (l ++ l') k p <-> field_selects l k p \/ field_selects l' k p.
Proof. unfold field_selects. setoid_rewrite elem_of_app. naive_solver. Qed.

Lemma field_selects_cons f l k p :
  field_selects (f :: l) k p <-> (response_key f = k /\ selects p (af_selection_set f)) \/ field_selects l k p.
Proof. unfold field_selects. setoid_rewrite elem_of_cons. naive_solver. Qed.

Lemma selects_app p T k l l' : selects ((T, k) :: p) (l ++ l') <-> selects ((T, k) :: p) l \/ selects ((T, k) :: p) l'.
Proof. rewrite !selects_cons. setoid_rewrite elem_of_app. naive_solver. Qed.

Lemma selects_item_cons p T k x l :
  selects ((T, k) :: p) (x :: l) <-> (obj_name x.1 = T /\ field_selects x.2 k p) \/ selects ((T, k) :: p) l.
Proof.
  rewrite !selects_cons. setoid_rewrite elem_of_cons. destruct x as [t fs]. simpl. split.
  - intros (t' & fs' & [[= -> ->]|Hin] & HT & Hf); [by left|right; by exists t', fs'].
  - intros [[HT Hf]|(t' & fs' & Hin & HT & Hf)]; [exists t, fs; auto|exists t', fs'; auto].
Qed.

(** Merging a field adds its paths. *)
Definition merges_well (new : aField) : Prop :=
  forall fields fields' k p, merge_field new fields = Ok fields' ->
    field_selects fields' k p <-> field_selects fields k p \/ (response_key new = k /\ selects p (af_selection_set new)).

Lemma prepend_response_key dirs f : response_key (prepend_directives dirs f) = response_key f.
Proof. by destruct f. Qed.
Lemma prepend_selection_set dirs f : af_selection_set (prepend_directives dirs f) = af_selection_set f.
Proof. by destruct f. Qed.
Lemma with_selection_key f set : response_key (with_selection_set f set) = response_key f.
Proof. by destruct f. Qed.
Lemma with_selection_selection f set : af_selection_set (with_selection_set f set) = set.
Proof. by destruct f. Qed.

Lemma merge_fields_selects dirs others fields fields' k p :
  (forall f, f ∈ others -> merges_well (prepend_directives dirs f)) ->
  try_fold (fun fields f => merge_field (prepend_directives dirs f) fields) fields others = Ok fields' ->
  field_selects fields' k p <-> field_selects fields k p \/ field_selects others k p.
Proof.
  revert fields. induction others as [|f others IH]; intros fields Hw Hf; cbn [try_fold] in Hf.
  { injection Hf as <-. split; [auto|]. intros [|(f & ?%not_elem_of_nil & _)]; done. }
  apply bind_ok in Hf as (fields1 & Hf1 & Hf). rewrite (IH fields1); [|intros g Hg; apply Hw; by right|done].
  rewrite (Hw f (list_elem_of_here _ _) _ _ k p Hf1), prepend_response_key, prepend_selection_set, field_selects_cons. tauto.
Qed.

Lemma merge_item_selects dirs set other set' T k p :
  (forall f, f ∈ other.2 -> merges_well (prepend_directives dirs f)) -> merge_item dirs set other = Ok set' ->
  (selects ((T, k) :: p) set' <-> selects ((T, k) :: p) set \/ selects ((T, k) :: p) [other]) /\
  type_names_of set' = type_names_of set /\ obj_name other.1 ∈ type_names_of set.
Proof.
  destruct other as [t fs]. intros Hw Hm. unfold merge_item in Hm.
  pose proof (update_first_spec (fun item : ObjectType * list aField => same_type t item.1)
    (fun item => let? fields := try_fold (fun fields f => merge_field (prepend_directives dirs f) fields) item.2 fs in Ok (item.1, fields)) set) as Hup.
  destruct (update_first _ _ set) as [r|]; [|done]. destruct Hup as (l1 & [t' fields] & l2 & -> & Ht & _ & ->).
  apply bind_ok in Hm as (y & Hy & [= <-]). apply bind_ok in Hy as (fields' & Hf & [= <-]). cbn [fst snd] in *.
  apply bool_decide_eq_true in Ht. split_and!.
  - rewrite !selects_app, !selects_item_cons. cbn [fst snd]. rewrite (merge_fields_selects dirs fs fields fields' k p Hw Hf).
    assert (Hnil : ~ selects ((T, k) :: p) []) by (intros (? & ? & ? & ?%not_elem_of_nil & _); done). rewrite Ht. tauto.
  - unfold type_names_of. by rewrite !map_app.
  - unfold type_names_of. rewrite map_app, elem_of_app. right. simpl. rewrite Ht. by left.
Qed.

Lemma selection_merge_selects dirs set other set' T k p :
  (forall t fs f, (t, fs) ∈ other -> f ∈ fs -> merges_well (prepend_directives dirs f)) -> selection_merge set other dirs = Ok set' ->
  (selects ((T, k) :: p) set' <-> selects ((T, k) :: p) set \/ selects ((T, k) :: p) other) /\
  type_names_of set' = type_names_of set /\ (forall T', T' ∈ type_names_of other -> T' ∈ type_names_of set).
Proof.
  unfold selection_merge. revert set. induction other as [|[t fs] other IH]; intros set Hw Hm; cbn [try_fold] in Hm.
  { injection Hm as <-. split_and!; [|done|by intros T' ?%not_elem_of_nil]. split; [auto|]. intros [|(? & ? & ? & ?%not_elem_of_nil & _)]; done. }
  apply bind_ok in Hm as (set1 & Hm1 & Hm).
  destruct (merge_item_selects dirs set (t, fs) set1 T k p) as (H1 & Hn1 & Hin1); [intros f Hf; by apply (Hw t fs); [left|]|done|].
  destruct (IH set1) as (H2 & Hn2 & Hin2); [intros t' fs' f Hin Hf; by apply (Hw t' fs'); [right|]|done|]. split_and!.
  - change ((t, fs) :: other) with ([(t, fs)] ++ other). rewrite H2, H1, (selects_app p T k [(t, fs)] other). tauto.
  - by rewrite Hn2.
  - intros T' HT. cbn in HT. apply elem_of_cons in HT as [->|HT]; [done|]. rewrite <-Hn1. by apply Hin2.
Qed.

Lemma merges_well_all new : merges_well new.
Proof.
  induction new as [alias name args dirs set IH] using aField_nested_ind. intros fields fields' k p Hm.
  rewrite merge_field_eq in Hm. set (new := mkAField alias name args dirs set) in *.
  pose proof (update_first_spec (fun field => bool_decide (response_key field = response_key new))
    (fun field => let? set := selection_merge (af_selection_set field) (af_selection_set new) [] in Ok (with_selection_set field set)) fields) as Hup.
  destruct (update_first _ _ fields) as [r|].
  - destruct Hup as (l1 & f & l2 & -> & Hk & _ & ->). apply bool_decide_eq_true in Hk.
    apply bind_ok in Hm as (y & Hy & [= <-]). apply bind_ok in Hy as (set' & Hset & [= <-]).
    rewrite !field_selects_app, !field_selects_cons, with_selection_key, with_selection_selection, Hk.
    destruct p as [|[T k'] p]; [simpl; tauto|].
    destruct (selection_merge_selects [] (af_selection_set f) (af_selection_set new) set' T k' p) as (Hs & _ & _); [|done|rewrite Hs; tauto].
    intros t fs f' Hin Hf. rewrite prepend_nothing. by eapply IH.
  - injection Hm as <-. rewrite field_selects_app, field_selects_cons.
    assert (Hnil : ~ field_selects [] k p) by (intros (? & ?%not_elem_of_nil & _); done). tauto.
Qed.

Lemma merge_selects dirs set other set' T k p :
  selection_merge set other dirs = Ok set' ->
  (selects ((T, k) :: p) set' <-> selects ((T, k) :: p) set \/ selects ((T, k) :: p) other) /\
  type_names_of set' = type_names_of set /\ (forall T', T' ∈ type_names_of other -> T' ∈ type_names_of set).
Proof. apply selection_merge_selects. intros. apply merges_well_all. Qed.

(** A field is pushed for all types of the set. *)
Lemma push_selects set new set' T k p :
  selection_push set new = Ok set' ->
  (selects ((T, k) :: p) set' <->
    selects ((T, k) :: p) set \/ (T ∈ type_names_of set /\ response_key new = k /\ selects p (af_selection_set new))) /\
  type_names_of set' = type_names_of set.
Proof.
  unfold selection_push. revert set'. induction set as [|[t fields] set IH]; intros set' Hp; cbn [try_map] in Hp.
  { injection Hp as <-. split; [|done]. split; [auto|]. by intros [|[?%not_elem_of_nil _]]. }
  apply bind_ok in Hp as (y & Hy & Hp). apply bind_ok in Hy as (fields' & Hf & [= <-]). apply bind_ok in Hp as (rest & Hrest & [= <-]).
  destruct (IH rest Hrest) as [Hs Hn]. cbn [fst snd] in *. split; [|change (obj_name t :: type_names_of rest = obj_name t :: type_names_of set); by rewrite Hn].
  change (type_names_of ((t, fields) :: set)) with (obj_name t :: type_names_of set). rewrite !selects_item_cons. cbn [fst snd]. rewrite (merges_well_all new fields fields' k p Hf), Hs, elem_of_cons.
  split; [intros [[-> [|]]|[|(? & ? & ?)]]; auto 6|]. intros [[[-> ?]|?]|[[->|?] ?]]; auto 6.
Qed.

(** ** Response keys *)

(** In the fields of each type, and in the selection sets of these fields, response keys
    are different. *)
Inductive keys_unique : SelectionSet -> Prop :=
| keys_unique_intro set :
    (forall t fields, (t, fields) ∈ set -> NoDup (map response_key fields)) ->
    (forall t fields f, (t, fields) ∈ set -> f ∈ fields -> keys_unique (af_selection_set f)) -> keys_unique set.

Definition fields_unique (fields : list aField) : Prop :=
  NoDup (map response_key fields) /\ forall f, f ∈ fields -> keys_unique (af_selection_set f).

Lemma keys_unique_fields set : keys_unique set <-> forall t fields, (t, fields) ∈ set -> fields_unique fields.
Proof.
  split.
  - intros [? Hn Hk] t fields Hin. split; [by eapply Hn|]. intros f. by eapply Hk.
  - intros H. constructor; intros t fields; [intros Hin; by apply (H t fields Hin)|]. intros f Hin. by apply (H t fields Hin).
Qed.

Lemma keys_unique_nil : keys_unique [].
Proof. constructor; intros t fields; [by intros ?%not_elem_of_nil|]. by intros f ?%not_elem_of_nil. Qed.

Lemma merge_field_keys new fields fields' :
  merge_field new fields = Ok fields' ->
  map response_key fields' =
    if decide (response_key new ∈ map response_key fields) then map response_key fields else map response_key fields ++ [response_key new].
Proof.
  rewrite merge_field_eq. intros Hm.
  pose proof (update_first_spec (fun field => bool_decide (response_key field = response_key new))
    (fun field => let? set := selection_merge (af_selection_set field) (af_selection_set new) [] in Ok (with_selection_set field set)) fields) as Hup.
  destruct (update_first _ _ fields) as [r|].
  - destruct Hup as (l1 & f & l2 & -> & Hk & _ & ->). apply bool_decide_eq_true in Hk.
    apply bind_ok in Hm as (y & Hy & [= <-]). apply bind_ok in Hy as (set' & Hset & [= <-]).
    rewrite decide_True; [rewrite !map_app; cbn [map]; by rewrite with_selection_key|].
    rewrite map_app, elem_of_app. right. cbn [map]. rewrite Hk. by left.
  - injection Hm as <-. rewrite decide_False; [by rewrite map_app|]. intros (f & Hk & Hf)%list_elem_of_fmap.
    specialize (Hup f Hf). apply bool_decide_eq_false in Hup. done.
Qed.

(** Merging a field keeps keys unique. *)
Definition merges_unique (new : aField) : Prop :=
  keys_unique (af_selection_set new) ->
  forall fields fields', merge_field new fields = Ok fields' -> fields_unique fields -> fields_unique fields'.

Lemma merge_fields_unique dirs others fields fields' :
  (forall f, f ∈ others -> merges_unique (prepend_directives dirs f) /\ keys_unique (af_selection_set f)) ->
  try_fold (fun fields f => merge_field (prepend_directives dirs f) fields) fields others = Ok fields' ->
  fields_unique fields -> fields_unique fields'.
Proof.
  revert fields. induction others as [|f others IH]; intros fields Hw Hf Hu; cbn [try_fold] in Hf; [by injection Hf as <-|].
  apply bind_ok in Hf as (fields1 & Hf1 & Hf). destruct (Hw f) as [Hm Hk]; [by left|].
  apply (IH fields1); [intros g Hg; apply Hw; by right|done|]. eapply Hm; [|done|done]. by rewrite prepend_selection_set.
Qed.

Lemma selection_merge_unique dirs set other set' :
  (forall t fs f, (t, fs) ∈ other -> f ∈ fs -> merges_unique (prepend_directives dirs f)) -> keys_unique other ->
  selection_merge set other dirs = Ok set' -> keys_unique set -> keys_unique set'.
Proof.
  unfold selection_merge. revert set. induction other as [|[t fs] other IH]; intros set Hw Ho Hm Hu; cbn [try_fold] in Hm; [by injection Hm as <-|].
  rewrite keys_unique_fields in Ho. apply bind_ok in Hm as (set1 & Hm1 & Hm). apply (IH set1); [|apply keys_unique_fields|done|].
  { intros t' fs' f Hin. apply (Hw t' fs'). by right. }
  { intros t' fs' Hin. apply (Ho t'). by right. }
  unfold merge_item in Hm1.
  pose proof (update_first_spec (fun item : ObjectType * list aField => same_type t item.1)
    (fun item => let? fields := try_fold (fun fields f => merge_field (prepend_directives dirs f) fields) item.2 fs in Ok (item.1, fields)) set) as Hup.
  destruct (update_first _ _ set) as [r|]; [|done]. destruct Hup as (l1 & [t' fields] & l2 & -> & _ & _ & ->).
  apply bind_ok in Hm1 as (y & Hy & [= <-]). apply bind_ok in Hy as (fields' & Hf & [= <-]). cbn [fst snd] in *.
  rewrite keys_unique_fields in Hu |- *. intros t0 fs0 [Hin|[[= -> ->]|Hin]%elem_of_cons]%elem_of_app.
  - apply (Hu t0). apply elem_of_app. by left.
  - eapply merge_fields_unique; [|done|apply (Hu t'), elem_of_app; right; by left].
    intros f Hf0. split; [by apply (Hw t fs f); [left|]|]. apply (Ho t fs); [by left|done].
  - apply (Hu t0). apply elem_of_app. right. by right.
Qed.

Lemma merges_unique_all new : merges_unique new.
Proof.
  induction new as [alias name args dirs set IH] using aField_nested_ind. intros Hnew fields fields' Hm [Hnd Hk].
  pose proof (merge_field_keys _ _ _ Hm) as Hkeys. split.
  { rewrite Hkeys. case_decide; [done|]. apply NoDup_app. split_and!; [done| |apply NoDup_singleton].
    intros x Hx ->%list_elem_of_singleton. done. }
  rewrite merge_field_eq in Hm. set (new := mkAField alias name args dirs set) in *.
  pose proof (update_first_spec (fun field => bool_decide (response_key field = response_key new))
    (fun field => let? set := selection_merge (af_selection_set field) (af_selection_set new) [] in Ok (with_selection_set field set)) fields) as Hup.
  destruct (update_first _ _ fields) as [r|].
  - destruct Hup as (l1 & f & l2 & -> & _ & _ & ->). apply bind_ok in Hm as (y & Hy & [= <-]). apply bind_ok in Hy as (set' & Hset & [= <-]).
    intros g [Hg|[->|Hg]%elem_of_cons]%elem_of_app.
    + apply Hk, elem_of_app. by left.
    + rewrite with_selection_selection. eapply selection_merge_unique; [|done|done|apply Hk, elem_of_app; right; by left].
      intros t fs f' Hin Hf. rewrite prepend_nothing. by eapply IH.
    + apply Hk, elem_of_app. right. by right.
  - injection Hm as <-. intros g [Hg| ->%list_elem_of_singleton]%elem_of_app; [by apply Hk|done].
Qed.

Lemma push_unique set new set' :
  selection_push set new = Ok set' -> keys_unique (af_selection_set new) -> keys_unique set -> keys_unique set'.
Proof.
  intros Hp%try_map_forall2 Hnew Hu. rewrite keys_unique_fields in Hu |- *. intros t fields' Hin.
  destruct (forall2_elem_r _ _ _ Hp _ Hin) as ([t0 fields] & Hin0 & Hf).
  apply bind_ok in Hf as (fs & Hf & [= <- <-]). eapply merges_unique_all; [done..|by eapply Hu].
Qed.

Lemma merge_unique dirs set other set' :
  selection_merge set other dirs = Ok set' -> keys_unique other -> keys_unique set -> keys_unique set'.
Proof. intros Hm Ho. apply (selection_merge_unique dirs set other); [|done|done]. intros. apply merges_unique_all. Qed.
