(* ===== verification/QueryExpand.v ===== *)
(** * Expanded queries select what the query asks for

    The specification of a query: which fields are collected for an object type from a
    selection set with fragments, type conditions and directives, and which paths they
    lead to.  The selection sets that [Transform] makes have exactly these paths. *)

From S2P Require Import Prelude GraphqlAst Scalars RuntimeValue Values Names StoreTypes Schema QueryAst Coercion QueryPrep QueryMerge.

Section Expand.
Context (introspection : Document) (float_to_string : Z -> string) (schema : ApiSchema).
Context (variables : gmap string rValue) (fragments : gmap string FragmentDefinition).

(** ** What a query asks for *)

(** A type condition holds for an object type. *)
Definition applies (cond : option string) (T : string) : Prop :=
  match cond with
  | None => True
  | Some name => exists set, resolve_object_types schema name = Some (Ok set) /\ is_Some (set !! T)
  end.

(** The type that the fields of a fragment are looked up in *)
Definition condition_type (cond : option string) (ty : ObjectOrInterface) : option ObjectOrInterface :=
  match cond with
  | Some name => api_object_or_interface introspection schema name
  | None => Some ty
  end.

(** The argument [if] of a directive, the first one if there are several *)
Definition if_argument (d : Directive) (v : qValue) : Prop :=
  exists before after, dir_arguments d = before ++ ("if", v) :: after /\ Forall (fun a => a.1 <> "if") before.

(** It is true, or a variable that is. *)
Definition condition_true (v : qValue) : Prop :=
  v = QBoolean true \/ exists x, v = QVariable x /\ variables !! x = Some (RBoolean true).

(** A directive leaves out what it is attached to: [skip] when its condition is true or it
    has none, [include] when it has a condition that is not true. *)
Inductive leaves_out (d : Directive) : Prop :=
| skip_always : dir_name d = "skip" -> Forall (fun a => a.1 <> "if") (dir_arguments d) -> leaves_out d
| skip_if v : dir_name d = "skip" -> if_argument d v -> condition_true v -> leaves_out d
| include_if v : dir_name d = "include" -> if_argument d v -> ~ condition_true v -> leaves_out d.

Definition not_skipped (dirs : list Directive) : Prop := forall d, d ∈ dirs -> ~ leaves_out d.

(** The field, which is looked up in the last type, is collected for objects of type [T]. *)
Inductive collects (T : string) : ObjectOrInterface -> list qSelection -> ObjectOrInterface -> qSelection -> Prop :=
| collects_field ty sels alias name args dirs sub :
    QField alias name args dirs sub ∈ sels -> collects T ty sels ty (QField alias name args dirs sub)
| collects_spread ty sels name dirs frag ty1 ty' f :
    QFragmentSpread name dirs ∈ sels -> fragments !! name = Some frag ->
    condition_type (Some (fd_type_condition frag)) ty = Some ty1 -> applies (Some (fd_type_condition frag)) T ->
    not_skipped (fd_directives frag) -> collects T ty1 (fd_selection_set frag) ty' f -> collects T ty sels ty' f
| collects_inline ty sels cond dirs sub ty1 ty' f :
    QInlineFragment cond dirs sub ∈ sels -> condition_type cond ty = Some ty1 -> applies cond T ->
    not_skipped dirs -> collects T ty1 sub ty' f -> collects T ty sels ty' f.

(** A field leads to the rest of a path: the field is there, leaves end the path, and
    other fields go on with the objects of their type. *)
Definition leads (rec : ObjectOrInterface -> list qSelection -> Prop) (ty : ObjectOrInterface) (name : string)
    (dirs : list Directive) (sub : list qSelection) (p : list (string * string)) : Prop :=
  (name = "__typename" /\ p = []) \/
  (name <> "__typename" /\ not_skipped dirs /\ exists field, ooi_field ty name = Some field /\
    ((is_leaf_type (E:=unit) (api_document schema) (field_type field) = Ok true /\ p = []) \/
     (is_leaf_type (E:=unit) (api_document schema) (field_type field) = Ok false /\ sub <> [] /\
      exists ty1, api_object_or_interface introspection schema (get_base_type (field_type field)) = Some ty1 /\
        match p with [] => True | (T, _) :: _ => applies (Some (get_base_type (field_type field))) T end /\ rec ty1 sub))).

(** The query asks for the path. *)
Fixpoint asks_for (p : list (string * string)) (ty : ObjectOrInterface) (sels : list qSelection) : Prop :=
  match p with
  | [] => True
  | (T, k) :: p =>
      exists ty' alias name args dirs sub, collects T ty sels ty' (QField alias name args dirs sub) /\
        default name alias = k /\ leads (asks_for p) ty' name dirs sub p
  end.

(** ** Lemmas on the specification *)

Lemma condition_evaluates v : interpolate_value variables v = RBoolean true <-> condition_true v.
Proof.
  unfold condition_true. destruct v; cbn [interpolate_value]; unfold variable, value_object; try naive_solver.
  destruct (variables !! _) as [r|] eqn:Hv; cbn [default]; naive_solver.
Qed.

Lemma if_argument_cases d :
  (Forall (fun a => a.1 <> "if") (dir_arguments d) /\ get_argument_value (interpolate_arguments variables (dir_arguments d)) "if" = None) \/
  exists v, if_argument d v /\
    get_argument_value (interpolate_arguments variables (dir_arguments d)) "if" = Some (interpolate_value variables v) /\
    forall v', if_argument d v' -> v' = v.
Proof.
  unfold if_argument. induction (dir_arguments d) as [|[n v] args IH]; [left; done|].
  unfold interpolate_arguments, get_argument_value in *. cbn [map List.find fst snd]. destruct (decide (n = "if")) as [->|Hn].
  - right. exists v. rewrite bool_decide_true by done. split; [by exists [], args|]. split; [done|].
    intros v' ([|[n' w] before] & after & Heq & Hb); [by injection Heq|]. inversion_clear Hb as [|? ? Hne _]. by injection Heq as <- _ _.
  - rewrite bool_decide_false by done. destruct IH as [[Hall Hnone]|(w & (before & after & Heq & Hb) & Hv & Huniq)]; [left; by split; [constructor|]|right].
    exists w. split; [exists ((n, v) :: before), after; split; [by rewrite Heq|by constructor]|]. split; [done|].
    intros v' ([|[n' w'] before'] & after' & Heq' & Hb'); [by injection Heq' as -> |]. injection Heq' as -> -> Heq'.
    inversion_clear Hb'. apply Huniq. by exists before', after'.
Qed.

(** The code evaluates directives accordingly. *)
Lemma directive_skips d :
  directive_skip (mkDirective (dir_name d) (interpolate_arguments variables (dir_arguments d))) = true <-> leaves_out d.
Proof.
  unfold directive_skip, eval_if. cbn [ad_name ad_arguments].
  assert (Hno : forall v, Forall (fun a : string * qValue => a.1 <> "if") (dir_arguments d) -> ~ if_argument d v).
  { intros v Hall (before & after & Heq & _). rewrite Heq, Forall_app, Forall_cons in Hall. naive_solver. }
  assert (Hb : forall v, match interpolate_value variables v with RBoolean b => b | _ => false end = true <-> condition_true v).
  { intros v. rewrite <-condition_evaluates. destruct (interpolate_value variables v) as [| | |[]| | | |]; naive_solver. }
  destruct (if_argument_cases d) as [[Hall ->]|(v & Hv & -> & Huniq)].
  - split.
    + case_decide; [done|]. case_decide; [|done]. intros _. by apply skip_always.
    + intros [Hn _|w Hn Hw _|w Hn Hw _]; [by rewrite Hn|by destruct (Hno w)|by destruct (Hno w)].
  - assert (Hsome : ~ Forall (fun a : string * qValue => a.1 <> "if") (dir_arguments d)) by (intros Hall; by apply (Hno v)).
    replace (match Some (interpolate_value variables v) with Some (RBoolean b) => b | Some _ => false | None => true end)
      with (match interpolate_value variables v with RBoolean b => b | _ => false end) by by destruct (interpolate_value variables v).
    split.
    + case_decide as Hinc; [rewrite negb_true_iff; intros Hf|case_decide; [intros Ht|done]].
      * apply (include_if d v); [done..|]. intros Ht%Hb. congruence.
      * apply (skip_if d v); [done..|]. by apply Hb.
    + intros [_ Hall|w Hn Hw Ht|w Hn Hw Hf]; [done| |]; apply Huniq in Hw as ->; rewrite Hn.
      * rewrite decide_False, decide_True by done. by apply Hb.
      * rewrite decide_True by done. apply negb_true_iff. apply not_true_is_false. by intros Ht%Hb.
Qed.

Lemma skipped_iff dirs : (interpolate_directives variables dirs).2 = false <-> not_skipped dirs.
Proof.
  unfold interpolate_directives, not_skipped. cbn [snd]. rewrite <-not_true_iff_false, existsb_exists. split.
  - intros Hno d Hd Hl. apply Hno. eexists. split; [by apply in_map, list_elem_of_In|]. by apply directive_skips.
  - intros Hno (d' & (d & <- & Hd)%in_map_iff & Hs). apply (Hno d); [by apply list_elem_of_In|]. by apply directive_skips.
Qed.

Lemma collects_app T ty l l' ty' f : collects T ty (l ++ l') ty' f <-> collects T ty l ty' f \/ collects T ty l' ty' f.
Proof.
  split.
  - intros Hc. inversion Hc as [? ? ? ? ? ? ? Hin|? ? ? ? ? ? ? ? Hin|? ? ? ? ? ? ? ? Hin]; subst; apply elem_of_app in Hin as [Hin|Hin];
      [left; by constructor|right; by constructor|left; by eapply collects_spread|right; by eapply collects_spread
      |left; by eapply collects_inline|right; by eapply collects_inline].
  - intros [Hc|Hc]; inversion Hc as [? ? ? ? ? ? ? Hin|? ? ? ? ? ? ? ? Hin|? ? ? ? ? ? ? ? Hin]; subst;
      [apply collects_field|eapply collects_spread|eapply collects_inline|apply collects_field|eapply collects_spread|eapply collects_inline];
      try eassumption; apply elem_of_app; ((left; eassumption) || (right; eassumption)).
Qed.

Lemma asks_for_app T k p ty l l' :
  asks_for ((T, k) :: p) ty (l ++ l') <-> asks_for ((T, k) :: p) ty l \/ asks_for ((T, k) :: p) ty l'.
Proof.
  cbn [asks_for]. setoid_rewrite collects_app. split.
  - intros (ty' & alias & name & args & dirs & sub & [Hc|Hc] & Hrest); [left|right]; by exists ty', alias, name, args, dirs, sub.
  - intros [(ty' & alias & name & args & dirs & sub & Hc & Hrest)|(ty' & alias & name & args & dirs & sub & Hc & Hrest)];
      exists ty', alias, name, args, dirs, sub; (split; [auto|done]).
Qed.

Lemma asks_for_nothing T k p ty : ~ asks_for ((T, k) :: p) ty [].
Proof.
  intros (ty' & alias & name & args & dirs & sub & Hc & _).
  inversion Hc as [? ? ? ? ? ? ? Hin|? ? ? ? ? ? ? ? Hin|? ? ? ? ? ? ? ? Hin]; by apply not_elem_of_nil in Hin.
Qed.

Lemma asks_for_field T k p ty alias name args dirs sub :
  asks_for ((T, k) :: p) ty [QField alias name args dirs sub] <-> default name alias = k /\ leads (asks_for p) ty name dirs sub p.
Proof.
  split.
  - intros (ty' & alias' & name' & args' & dirs' & sub' & Hc & Hrest).
    inversion Hc as [? ? ? ? ? ? ? Hin|? ? ? ? ? ? ? ? Hin|? ? ? ? ? ? ? ? Hin]; subst; apply list_elem_of_singleton in Hin; by simplify_eq.
  - intros Hrest. exists ty, alias, name, args, dirs, sub. split; [|done]. constructor. by left.
Qed.

(** What a fragment contributes *)
Lemma asks_for_inline T k p ty cond dirs sub :
  asks_for ((T, k) :: p) ty [QInlineFragment cond dirs sub] <->
    exists ty1, condition_type cond ty = Some ty1 /\ applies cond T /\ not_skipped dirs /\ asks_for ((T, k) :: p) ty1 sub.
Proof.
  split.
  - intros (ty' & alias' & name' & args' & dirs' & sub' & Hc & Hrest).
    inversion Hc as [? ? ? ? ? ? ? Hin|? ? ? ? ? ? ? ? Hin|? ? ? ? ? ty1 ? ? Hin]; subst; apply list_elem_of_singleton in Hin; simplify_eq.
    exists ty1. split_and!; [done..|]. by exists ty', alias', name', args', dirs', sub'.
  - intros (ty1 & Hty & Ha & Hs & (ty' & alias' & name' & args' & dirs' & sub' & Hc & Hrest)).
    exists ty', alias', name', args', dirs', sub'. split; [|done]. eapply collects_inline; [by left|done..].
Qed.

Lemma asks_for_spread T k p ty name dirs frag :
  fragments !! name = Some frag ->
  asks_for ((T, k) :: p) ty [QFragmentSpread name dirs] <->
    asks_for ((T, k) :: p) ty [QInlineFragment (Some (fd_type_condition frag)) (fd_directives frag) (fd_selection_set frag)].
Proof.
  intros Hf. rewrite asks_for_inline. split.
  - intros (ty' & alias' & name' & args' & dirs' & sub' & Hc & Hrest).
    inversion Hc as [? ? ? ? ? ? ? Hin|? ? ? ? ? ty1 ? ? Hin Hf'|? ? ? ? ? ? ? ? Hin]; subst; apply list_elem_of_singleton in Hin; simplify_eq.
    exists ty1. split_and!; [done..|]. by exists ty', alias', name', args', dirs', sub'.
  - intros (ty1 & Hty & Ha & Hs & (ty' & alias' & name' & args' & dirs' & sub' & Hc & Hrest)).
    exists ty', alias', name', args', dirs', sub'. split; [|done]. eapply collects_spread; [by left|done..].
Qed.

(** ** Names of types *)

Lemma named_type_name doc name def : get_named_type doc name = Some def -> typedef_name def = name.
Proof. unfold get_named_type. intros [_ H]%find_some. by apply bool_decide_eq_true in H. Qed.

Lemma ooi_name_of name ty : api_object_or_interface introspection schema name = Some ty -> ooi_name ty = name.
Proof.
  unfold api_object_or_interface, object_or_interface. destruct (starts_with "__" name);
    (destruct (get_named_type _ name) as [[]|] eqn:Hg; [done|..]; intros [= <-] || done; by apply named_type_name in Hg).
Qed.

Lemma collect_by_name (types : list ObjectType) k t :
  (collect_map (map (fun t => (obj_name t, t)) types) : gmap string ObjectType) !! k = Some t -> obj_name t = k.
Proof. by intros (t' & [= -> ->] & _)%collect_map_Some%list_elem_of_fmap. Qed.

(** Sets of object types have their names as keys. *)
Lemma resolve_types_keys fuel name set k t : resolve_types schema fuel name = Some (Ok set) -> set !! k = Some t -> obj_name t = k.
Proof.
  revert name set k t. induction fuel as [|fuel IH]; intros name set k t Hr Hk; cbn [resolve_types] in Hr; [done|].
  destruct (api_get_named_type schema name) as [[t0|t0|t0|t0|t0|t0]|]; [done|..|done|done|done].
  - injection Hr as Hr. apply bind_ok in Hr as (t1 & _ & [= <-]). by apply lookup_singleton_Some in Hk as [<- ->].
  - injection Hr as Hr. apply bind_ok in Hr as (l & _ & Hr). apply bind_ok in Hr as (l' & _ & [= <-]). by eapply collect_by_name.
  - assert (Hgen : forall l acc, (forall s k t, acc = Some (Ok s) -> s !! k = Some t -> obj_name t = k) ->
      forall s k t, foldl (fun acc ty => let* set := acc in let* more := resolve_types schema fuel ty in Some (Ok (set ∪ more))) acc l = Some (Ok s) ->
        s !! k = Some t -> obj_name t = k).
    { induction l as [|ty l IHl]; intros acc Hacc s k' t' Hs Hk'; [by eapply Hacc|]. cbn [foldl] in Hs. eapply IHl; [|exact Hs|done].
      intros s1 k1 t1 Hs1 Hk1. destruct acc as [[s0| |]|]; [|done..]. cbn [bind_fuel] in Hs1.
      destruct (resolve_types schema fuel ty) as [[more| |]|] eqn:Hm; [|done..]. cbn in Hs1. injection Hs1 as <-.
      apply lookup_union_Some_raw in Hk1 as [Hk1|[_ Hk1]]; [by eapply Hacc|by eapply IH]. }
    eapply Hgen; [|exact Hr|done]. intros s k' t' [= <-]. by rewrite lookup_empty.
Qed.

Lemma type_names_spec ts ty types :
  type_names schema ts ty = Some (Ok types) ->
  forall T, T ∈ map obj_name types <-> applies (Some (ooi_name ty)) T /\ type_set_contains ts T = true.
Proof.
  unfold type_names, applies. destruct (resolve_object_types schema (ooi_name ty)) as [[set| |]|] eqn:Hr; [|done..]. cbn. intros [= <-] T.
  rewrite list_elem_of_fmap. split.
  - intros (t & -> & ([k t'] & -> & Hin)%list_elem_of_fmap). apply list_elem_of_In, filter_In in Hin as [Hin Hc].
    apply list_elem_of_In, elem_of_map_to_list in Hin. simpl in *. rewrite (resolve_types_keys _ _ _ _ _ Hr Hin).
    split; [|done]. exists set. split; [done|by eexists].
  - intros [(set' & [= <-] & [t Ht]) Hc]. exists t. split; [by rewrite (resolve_types_keys _ _ _ _ _ Hr Ht)|].
    apply list_elem_of_fmap. exists (T, t). split; [done|]. apply list_elem_of_In, filter_In. split; [|done].
    by apply list_elem_of_In, elem_of_map_to_list.
Qed.

(** ** Expansion *)

(** Expanded sets have the types of the context and exactly the paths that are asked for. *)
Definition expands_well (expand : list qSelection -> ObjectTypeSet -> ObjectOrInterface -> option (result (list QueryExecutionError) SelectionSet)) : Prop :=
  forall sels ts ty set, expand sels ts ty = Some (Ok set) ->
    (forall T, T ∈ type_names_of set <-> applies (Some (ooi_name ty)) T /\ type_set_contains ts T = true) /\ keys_unique set /\
    forall T k p, selects ((T, k) :: p) set <-> T ∈ type_names_of set /\ asks_for ((T, k) :: p) ty sels.

Lemma fuel_ok {E A B} (f : A -> option (result E B)) r b :
  bind_fuel f r = Some (Ok b) <-> exists a, r = Some (Ok a) /\ f a = Some (Ok b).
Proof. destruct r as [[a| |]|]; naive_solver. Qed.

Lemma one_error_ok {A} (r : result QueryExecutionError A) a : one_error r = Ok a <-> r = Ok a.
Proof. destruct r; naive_solver. Qed.

Lemma one_error_some {A} (r : option (result QueryExecutionError A)) a : one_error <$> r = Some (Ok a) <-> r = Some (Ok a).
Proof. destruct r as [[]|]; naive_solver. Qed.

Lemma leaf_any {E} t b : is_leaf_type (E:=E) (api_document schema) t = Ok b <-> is_leaf_type (E:=unit) (api_document schema) t = Ok b.
Proof. unfold is_leaf_type. destruct (get_named_type _ _); naive_solver. Qed.

Lemma expand_field_spec expand alias name args dirs sub ty o :
  expands_well expand ->
  expand_field introspection float_to_string schema variables expand alias name args dirs sub ty = Some (Ok o) ->
  (forall f, o = Some f -> response_key f = default name alias /\ keys_unique (af_selection_set f)) /\
  forall p, (exists f, o = Some f /\ selects p (af_selection_set f)) <-> leads (asks_for p) ty name dirs sub p.
Proof.
  intros Hexp. unfold expand_field, leads. destruct (decide (name = "__typename")) as [->|Hname].
  { intros [= <-]. split; [intros f [= <-]; split; [done|apply keys_unique_nil]|]. intros p. split.
    - intros (f & [= <-] & Hs). left. split; [done|]. destruct p as [|[T k] p]; [done|]. by destruct Hs as (? & ? & ? & ?%not_elem_of_nil & _).
    - intros [[_ ->]|[]]; [|done]. by eexists. }
  intros (field & Hfield & H)%fuel_ok. injection Hfield as Hfield%ok_or_ok.
  setoid_rewrite <-skipped_iff. destruct (interpolate_directives variables dirs) as [adirs skip] eqn:Hd. cbn [snd]. destruct skip.
  { injection H as <-. split; [done|]. intros p. split; [by intros (f & ? & _)|]. intros [[? _]|(_ & ? & _)]; done. }
  apply fuel_ok in H as (args' & _ & H). apply fuel_ok in H as (leaf & Hleaf & H). injection Hleaf as Hleaf%leaf_any.
  assert (Hends : forall p, leaf = true -> ((name = "__typename" /\ p = []) \/
    (name <> "__typename" /\ false = false /\ exists field0, ooi_field ty name = Some field0 /\
      ((is_leaf_type (E:=unit) (api_document schema) (field_type field0) = Ok true /\ p = []) \/
       (is_leaf_type (E:=unit) (api_document schema) (field_type field0) = Ok false /\ sub <> [] /\
        exists ty1, api_object_or_interface introspection schema (get_base_type (field_type field0)) = Some ty1 /\
          match p with [] => True | (T, _) :: _ => applies (Some (get_base_type (field_type field0))) T end /\ asks_for p ty1 sub)))) <-> p = []).
  { intros p ->. split.
    - intros [[_ ->]|(_ & _ & field0 & Hf0 & [[_ ->]|(Hl & _)])]; [done..|]. rewrite Hfield in Hf0. injection Hf0 as <-. congruence.
    - intros ->. right. split; [done|]. split; [done|]. exists field. auto. }
  assert (Hleafset : forall p f, af_selection_set f = [] -> ((exists f0, Some f = Some f0 /\ selects p (af_selection_set f0)) <-> p = [])).
  { intros p f Hf. split.
    - intros (f0 & [= <-] & Hs). rewrite Hf in Hs. destruct p as [|[T k] p]; [done|]. by destruct Hs as (? & ? & ? & ?%not_elem_of_nil & _).
    - intros ->. by exists f. }
  case_bool_decide as Hsub.
  - injection H as <-. apply nil_length_inv in Hsub as ->. destruct leaf.
    + split; [intros f [= <-]; split; [done|apply keys_unique_nil]|]. intros p. rewrite Hends by done. by apply Hleafset.
    + split; [done|]. intros p. split; [by intros (f & ? & _)|].
      intros [[? _]|(_ & _ & field0 & Hf0 & [[Hl _]|(_ & Hne & _)])]; [done| |done]. rewrite Hfield in Hf0. injection Hf0 as <-. congruence.
  - assert (Hne : sub <> []) by by intros ->. destruct leaf.
    + injection H as <-. split; [intros f [= <-]; split; [done|apply keys_unique_nil]|]. intros p. rewrite Hends by done. by apply Hleafset.
    + clear Hends Hleafset. apply fuel_ok in H as (ts & Hts%one_error_some & H). apply fuel_ok in H as (ty1 & Hty1 & H).
      injection Hty1 as Hty1%expect_ok. apply fuel_ok in H as (set & Hset & [= <-]).
      unfold type_set_from_name in Hts. apply fuel_ok in Hts as (tset & Htset & [= <-]).
      destruct (Hexp _ _ _ _ Hset) as (Hnames & Huniq & Hsel). split; [by intros f [= <-]|]. intros p. cbn [af_selection_set]. split.
      * intros (f & [= <-] & Hs). right. split; [done|]. split; [done|]. exists field. split; [done|]. right. split; [done|]. split; [done|].
        exists ty1. split; [done|]. destruct p as [|[T k] p]; [done|]. apply Hsel in Hs as [HT Hs]. split; [|done].
        apply Hnames in HT as [HT _]. by rewrite (ooi_name_of _ _ Hty1) in HT.
      * intros [[? _]|(_ & _ & field0 & Hf0 & Hrest)]; [done|]. rewrite Hfield in Hf0. injection Hf0 as <-.
        destruct Hrest as [[Hl _]|(_ & _ & ty2 & Hty2 & HT & Hs)]; [congruence|]. rewrite Hty1 in Hty2. injection Hty2 as <-.
        eexists. split; [done|]. cbn [af_selection_set]. destruct p as [|[T k] p]; [done|]. apply Hsel. split; [|done]. apply Hnames.
        rewrite (ooi_name_of _ _ Hty1). split; [done|]. destruct HT as (set' & Hset' & HT). rewrite Htset in Hset'. injection Hset' as <-.
        cbn. by apply bool_decide_eq_true.
Qed.

Lemma convert_contains cond set T :
  type_set_convert schema cond = Some (Ok set) -> (type_set_contains set T = true <-> applies cond T).
Proof.
  unfold type_set_convert, type_set_from_name, applies. destruct cond as [name|]; [|by intros [= <-]].
  intros (tset & Ht & [= <-])%fuel_ok. cbn [type_set_contains]. rewrite bool_decide_eq_true. split; [eauto|]. intros (? & Hs & ?).
  rewrite Ht in Hs. by injection Hs as <-.
Qed.

Lemma intersect_contains s other T :
  type_set_contains (type_set_intersect s other) T = true <-> type_set_contains s T = true /\ type_set_contains other T = true.
Proof.
  destruct s as [|set]; cbn [type_set_intersect]; [cbn; tauto|]. cbn [type_set_contains]. rewrite !bool_decide_eq_true. split.
  - intros [t [Ht Hc]%map_lookup_filter_Some]. split; [by eexists|done].
  - intros [[t Ht] Hc]. exists t. by apply map_lookup_filter_Some.
Qed.

(** What has been expanded: the types of the context, with what a list of selections asks for. *)
Definition expanded (ts : ObjectTypeSet) (ty : ObjectOrInterface) (sels : list qSelection) (set : SelectionSet) : Prop :=
  (forall T, T ∈ type_names_of set <-> applies (Some (ooi_name ty)) T /\ type_set_contains ts T = true) /\ keys_unique set /\
  forall T k p, selects ((T, k) :: p) set <-> T ∈ type_names_of set /\ asks_for ((T, k) :: p) ty sels.

Definition contributes (cond : option string) (dirs : list Directive) (sub : list qSelection) (ty : ObjectOrInterface) (T k : string)
    (p : list (string * string)) : Prop :=
  exists ty1, condition_type cond ty = Some ty1 /\ applies cond T /\ not_skipped dirs /\ asks_for ((T, k) :: p) ty1 sub.

Lemma expand_fragment_spec expand dirs cond ts sub ty newset newset' sels sel :
  expands_well expand -> expanded ts ty sels newset ->
  expand_fragment introspection schema variables expand dirs cond ts sub ty newset = Some (Ok newset') ->
  (forall T k p, asks_for ((T, k) :: p) ty [sel] <-> contributes cond dirs sub ty T k p) ->
  expanded ts ty (sels ++ [sel]) newset'.
Proof.
  intros Hexp (Hnames & Huniq & Hsel) H Hadds. unfold expand_fragment in H. destruct (interpolate_directives variables dirs) as [adirs skip] eqn:Hd.
  apply fuel_ok in H as (ty1 & Hty & H).
  assert (Hty1 : condition_type cond ty = Some ty1) by (destruct cond; injection Hty as Hty; [by apply expect_ok in Hty|by rewrite Hty]).
  destruct skip.
  { injection H as <-. split; [done|]. split; [done|]. intros T k p. rewrite asks_for_app, Hadds, Hsel. unfold contributes.
    setoid_rewrite <-skipped_iff. rewrite Hd. split; [tauto|]. intros [? [?|(? & _ & _ & ? & _)]]; done. }
  apply fuel_ok in H as (cset & Hcset%one_error_some & H). apply fuel_ok in H as (set & Hset & H). injection H as H%one_error_ok.
  destruct (Hexp _ _ _ _ Hset) as (Hn & Hu & Hs). setoid_rewrite intersect_contains in Hn. setoid_rewrite (convert_contains _ _ _ Hcset) in Hn.
  assert (Hcond : forall T, T ∈ type_names_of newset -> applies cond T -> applies (Some (ooi_name ty1)) T).
  { intros T HT Ha. destruct cond as [name|]; [by rewrite (ooi_name_of _ _ Hty1)|]. injection Hty1 as <-. by apply Hnames. }
  split; [|split; [by eapply merge_unique|]].
  - intros T. destruct (merge_selects _ _ _ _ T "" [] H) as (_ & -> & _). apply Hnames.
  - intros T k p. destruct (merge_selects _ _ _ _ T k p H) as (-> & -> & Hsub). rewrite asks_for_app, Hadds, Hsel, Hs. unfold contributes.
    setoid_rewrite <-skipped_iff. rewrite Hd.
    split.
    + intros [[? ?]|[HT ?]]; [auto|]. split; [by apply Hsub|]. right. exists ty1. split; [done|]. split; [by apply Hn|]. done.
    + intros [HT [?|(ty2 & Hty2 & Ha & _ & Hasks)]]; [auto|]. right. rewrite Hty1 in Hty2. injection Hty2 as <-. split; [|done].
      apply Hn. split; [by apply Hcond|]. split; [done|]. by apply Hnames.
Qed.

Lemma expand_selection_spec expand ts ty sels sel newset visited newset' visited' :
  expands_well expand -> expanded ts ty sels newset ->
  (forall name, name ∈ visited <-> exists dirs, QFragmentSpread name dirs ∈ sels) ->
  expand_selection introspection float_to_string schema variables fragments expand ts ty (newset, visited) sel = Some (Ok (newset', visited')) ->
  expanded ts ty (sels ++ [sel]) newset' /\ (forall name, name ∈ visited' <-> exists dirs, QFragmentSpread name dirs ∈ sels ++ [sel]).
Proof.
  intros Hexp Hset Hvis H. unfold expand_selection in H.
  assert (Hkeep : (forall name dirs, sel <> QFragmentSpread name dirs) ->
    forall name, name ∈ visited <-> exists dirs, QFragmentSpread name dirs ∈ sels ++ [sel]).
  { intros Hne name. rewrite Hvis. setoid_rewrite elem_of_app. setoid_rewrite list_elem_of_singleton. split; [intros [dirs ?]; eauto|].
    intros [dirs [?|<-]]; [eauto|]. by destruct (Hne name dirs). }
  destruct sel as [alias name args dirs sub|name sdirs|cond dirs sub].
  - apply fuel_ok in H as (o & Ho & H). destruct (expand_field_spec _ _ _ _ _ _ _ _ Hexp Ho) as [Hkey Hleads]. destruct Hset as (Hnames & Huniq & Hsel).
    destruct o as [f|].
    + apply fuel_ok in H as (set & Hpush & [= <- <-]). injection Hpush as Hpush%one_error_ok. split; [|by apply Hkeep].
      split; [|split; [by eapply push_unique; [|apply Hkey|]|]].
      * intros T. destruct (push_selects _ _ _ T "" [] Hpush) as [_ ->]. apply Hnames.
      * intros T k p. destruct (push_selects _ _ _ T k p Hpush) as [-> ->]. rewrite asks_for_app, asks_for_field, Hsel, <- Hleads.
        rewrite (proj1 (Hkey f eq_refl)). split; [intros [[? ?]|(? & ? & ?)]; eauto 8|]. intros [? [?|[? (f' & [= <-] & ?)]]]; auto.
    + injection H as <- <-. split; [|by apply Hkeep]. split; [done|]. split; [done|]. intros T k p.
      rewrite asks_for_app, asks_for_field, Hsel, <- Hleads. split; [tauto|]. intros [? [?|[_ (f' & ? & _)]]]; done.
  - apply fuel_ok in H as (frag & Hfrag & H). injection Hfrag as Hfrag%expect_ok. case_bool_decide as Hin.
    + injection H as <- <-. apply Hvis in Hin as [dirs Hin]. destruct Hset as (Hnames & Huniq & Hsel). split.
      * split; [done|]. split; [done|]. intros T k p. rewrite Hsel, asks_for_app, (asks_for_spread _ _ _ _ _ sdirs _ Hfrag), <- (asks_for_spread _ _ _ _ _ dirs _ Hfrag).
        apply list_elem_of_split in Hin as (l1 & l2 & ->). change (QFragmentSpread name dirs :: l2) with ([QFragmentSpread name dirs] ++ l2).
        rewrite !asks_for_app. tauto.
      * intros n. rewrite Hvis. setoid_rewrite elem_of_app. setoid_rewrite list_elem_of_singleton. split; [intros [d ?]; eauto|].
        intros [d [?|[= -> ->]]]; eauto.
    + apply fuel_ok in H as (set & Hf & [= <- <-]). split; [eapply expand_fragment_spec; [done..|]; intros T k p; rewrite (asks_for_spread _ _ _ _ _ _ _ Hfrag); apply asks_for_inline|].
      intros n. rewrite elem_of_union, elem_of_singleton, Hvis. setoid_rewrite elem_of_app. setoid_rewrite list_elem_of_singleton.
      split; [intros [->|[d ?]]; eauto|]. intros [d [?|[= -> ->]]]; eauto.
  - apply fuel_ok in H as (set & Hf & [= <- <-]). split; [|by apply Hkeep]. eapply expand_fragment_spec; [done..|]. intros T k p. apply asks_for_inline.
Qed.

Lemma expand_loop_spec expand ts ty items sels newset visited newset' visited' :
  expands_well expand -> expanded ts ty sels newset ->
  (forall name, name ∈ visited <-> exists dirs, QFragmentSpread name dirs ∈ sels) ->
  fuel_fold (expand_selection introspection float_to_string schema variables fragments expand ts ty) (newset, visited) items = Some (Ok (newset', visited')) ->
  expanded ts ty (sels ++ items) newset'.
Proof.
  intros Hexp. revert sels newset visited. induction items as [|sel items IH]; intros sels newset visited Hset Hvis H; cbn [fuel_fold] in H.
  { injection H as <- <-. by rewrite app_nil_r. }
  apply fuel_ok in H as ([newset1 visited1] & H1 & H). destruct (expand_selection_spec _ _ _ _ _ _ _ _ _ Hexp Hset Hvis H1) as [Hset1 Hvis1].
  change (sel :: items) with ([sel] ++ items). rewrite app_assoc. by eapply IH.
Qed.

Lemma selection_new_expanded ts ty types : type_names schema ts ty = Some (Ok types) -> expanded ts ty [] (selection_new types).
Proof.
  intros Ht. unfold expanded, selection_new, type_names_of. rewrite map_map. split; [by apply type_names_spec|]. split.
  - apply keys_unique_fields. intros t fields (t' & [= -> ->] & _)%list_elem_of_fmap. split; [constructor|by intros f ?%not_elem_of_nil].
  - intros T k p. split; [|intros [_ []%asks_for_nothing]].
    intros (t & fields & f & (t' & [= -> ->] & _)%list_elem_of_fmap & _ & ?%not_elem_of_nil & _). done.
Qed.

Lemma expand_spec fuel : expands_well (expand_selection_set introspection float_to_string schema variables fragments fuel).
Proof.
  induction fuel as [|fuel IH]; intros sels ts ty set H; cbn [expand_selection_set] in H; [done|].
  apply fuel_ok in H as (types & Htypes%one_error_some & H). apply fuel_ok in H as ([newset visited] & Hloop & [= <-]).
  refine (expand_loop_spec _ ts ty sels [] _ _ _ _ IH _ _ Hloop); [by apply selection_new_expanded|].
  intros name. split; [by intros ?%not_elem_of_empty|by intros [dirs ?%not_elem_of_nil]].
Qed.

End Expand.
