(* ===== verification/QueryReturns.v ===== *)
(** * Queries are prepared in bounded time, without panics

    The complexity check bounds how deep the selections of a query are nested, fragments
    included.  Within that bound the validation of fields and the expansion return.  A
    query whose complexity is unknown has no such bound. *)

From S2P Require Import Prelude GraphqlAst Scalars RuntimeValue Values Names StoreTypes Schema QueryAst Coercion QueryPrep QueryMerge QueryExpand.

(** ** Code that returns *)

Definition returns {E A} (o : option (result E A)) : Prop :=
  match o with None | Some Panic => False | Some (Ok _) | Some (Err _) => True end.

Lemma returns_bind {E A B} (f : A -> option (result E B)) o :
  returns o -> (forall a, o = Some (Ok a) -> returns (f a)) -> returns (bind_fuel f o).
Proof. destruct o as [[a| |]|]; simpl; auto. Qed.

Lemma returns_some {E A} (r : result E A) : returns (Some r) <-> r <> Panic.
Proof. destruct r; simpl; naive_solver. Qed.

Lemma returns_one_error {A} (o : option (result QueryExecutionError A)) : returns o -> returns (one_error <$> o).
Proof. by destruct o as [[]|]. Qed.

Lemma one_error_no_panic {A} (r : result QueryExecutionError A) : r <> Panic -> one_error r <> Panic.
Proof. by destruct r. Qed.

Lemma returns_fold {E S A} (f : S -> A -> option (result E S)) s l :
  (forall s x, x ∈ l -> returns (f s x)) -> returns (fuel_fold f s l).
Proof.
  revert s. induction l as [|x l IH]; intros s H; [done|]. cbn [fuel_fold].
  apply returns_bind; [apply H; by left|]. intros s' _. apply IH. intros s1 y Hy. apply H. by right.
Qed.

Lemma try_map_no_panic {E A B} (f : A -> result E B) l : (forall x, x ∈ l -> f x <> Panic) -> try_map f l <> Panic.
Proof.
  induction l as [|x l IH]; intros H; [done|]. cbn [try_map]. rewrite bind_panic. intros [Hx|(y & _ & Hl)]; [by eapply H, Hx; left|].
  apply bind_panic in Hl as [Hl|(ys & _ & [=])]. apply IH in Hl; [done|]. intros z Hz. apply H. by right.
Qed.

Lemma update_first_no_panic {E A} (q : A -> bool) (f : A -> result E A) l r :
  (forall x, f x <> Panic) -> update_first q f l = Some r -> r <> Panic.
Proof.
  intros Hf Hu. pose proof (update_first_spec q f l) as Hs. rewrite Hu in Hs. destruct Hs as (l1 & x & l2 & _ & _ & _ & ->).
  rewrite bind_panic. intros [Hx|(y & _ & [=])]. by eapply Hf.
Qed.

Lemma try_fold_each {E A S} (f : S -> A -> result E S) s l s' x :
  try_fold f s l = Ok s' -> x ∈ l -> exists s1 s2, f s1 x = Ok s2.
Proof.
  revert s. induction l as [|y l IH]; intros s Hf Hx; [by apply not_elem_of_nil in Hx|]. cbn [try_fold] in Hf.
  apply bind_ok in Hf as (s1 & H1 & Hf). apply elem_of_cons in Hx as [->|Hx]; [by exists s, s1|by eapply IH].
Qed.

Lemma mapM_each {A B} (f : A -> option B) l : (forall x, x ∈ l -> is_Some (f x)) -> is_Some (mapM f l).
Proof. intros H. apply mapM_is_Some_2. by apply Forall_forall. Qed.

(** ** Merging does not panic *)

Lemma merge_with_no_panic dirs set other :
  (forall t fs f fields, (t, fs) ∈ other -> f ∈ fs -> merge_field (prepend_directives dirs f) fields <> Panic) ->
  selection_merge set other dirs <> Panic.
Proof.
  intros H. apply (try_fold_no_panic _ (fun _ => True)); [done|]. intros [t fs] s Hin _. split; [|done]. unfold merge_item.
  destruct (update_first _ _ s) as [r|] eqn:Hu; [|done]. eapply update_first_no_panic; [|done]. intros x. rewrite bind_panic.
  intros [Hp|(y & _ & [=])]. revert Hp. apply (try_fold_no_panic _ (fun _ => True)); [done|]. intros f s' Hf _. split; [|done]. by eapply H.
Qed.

Lemma merge_field_no_panic new fields : merge_field new fields <> Panic.
Proof.
  revert fields. induction new as [alias name args dirs set IH] using aField_nested_ind. intros fields. rewrite merge_field_eq.
  destruct (update_first _ _ fields) as [r|] eqn:Hu; [|done]. eapply update_first_no_panic; [|done]. intros x. rewrite bind_panic.
  intros [Hp|(y & _ & [=])]. revert Hp. apply merge_with_no_panic. intros t fs f fields' Hin Hf. rewrite prepend_nothing. by eapply IH.
Qed.

Lemma selection_merge_no_panic dirs set other : selection_merge set other dirs <> Panic.
Proof. apply merge_with_no_panic. intros. apply merge_field_no_panic. Qed.

Lemma selection_push_no_panic set new : selection_push set new <> Panic.
Proof.
  apply try_map_no_panic. intros x _. rewrite bind_panic. intros [Hp|(y & _ & [=])]. by apply merge_field_no_panic in Hp.
Qed.

(** ** Coercion of arguments does not panic *)

Lemma rvalue_no_panic q : rvalue_try_from q <> Panic.
Proof.
  induction q as [x|n|b|s|b| |e|l IH|o IH] using qValue_nested_ind; try done; simpl.
  - by case_match.
  - rewrite bind_panic. intros [Hp|(y & _ & [=])]. revert Hp. apply try_map_no_panic. rewrite Forall_forall in IH. exact IH.
  - rewrite bind_panic. intros [Hp|(y & _ & [=])]. revert Hp. apply try_map_no_panic. rewrite Forall_forall in IH. intros [k v] Hin.
    rewrite bind_panic. intros [Hp|(y & _ & [=])]. by apply (IH _ Hin) in Hp.
Qed.

Section Returns.
Context (introspection : Document) (introspection_query_type : ObjectType) (float_to_string : Z -> string) (schema : ApiSchema).

Lemma coerce_input_no_panic value def : coerce_input_value float_to_string (api_get_named_type schema) value def <> Panic.
Proof.
  unfold coerce_input_value. rewrite bind_panic. intros [Hp|(v & _ & Hp)].
  - destruct value; [done|]. destruct (iv_default_value def) as [d|]; [|done]. pose proof (rvalue_no_panic d). by destruct (rvalue_try_from d).
  - destruct v as [v|]; [|by case_match]. pose proof (coerces_all float_to_string (api_get_named_type schema) v (iv_value_type def)) as (Hc & _).
    by destruct (coerce_value _ _ _ _).
Qed.

Lemma coerce_arguments_no_panic args ty name : coerce_argument_values float_to_string schema args ty name <> Panic.
Proof.
  unfold coerce_argument_values. rewrite bind_panic. intros [Hp|([[? ?] ?] & _ & Hp)]; [|by case_match].
  revert Hp. apply (try_fold_no_panic _ (fun _ => True)); [done|]. intros def [[a n] errs] _ _. split; [|done]. unfold coerce_argument.
  pose proof (coerce_input_no_panic (get_argument_value a (iv_name def)) def) as Hc. by destruct (coerce_input_value _ _ _ _) as [[]| |].
Qed.

(** ** What is asked of the schema *)

Definition type_defs (doc : Document) : list TypeDefinition :=
  omap (fun d => match d with DTypeDefinition t => Some t | _ => None end) (definitions doc).

(** Fields have known types; the fields that are validated have the type of those that
    are expanded. *)
Definition fields_agree (validated : ObjectOrInterface) (fields : list Field) : bool :=
  forallb (fun f =>
      bool_decide (is_Some (api_get_named_type schema (get_base_type (field_type f)))) &&
      match get_field introspection_query_type validated (field_name f) with
      | Some f' => bool_decide (field_name f = "__typename" \/ field_type f' = field_type f)
      | None => true
      end) fields.

Definition has_fields (name : string) : bool :=
  match api_object_or_interface introspection schema name with
  | Some ty => fields_agree ty (ooi_fields ty)
  | None => false
  end.

Definition is_object_type (t : ObjectType) : bool := bool_decide (is_Some (api_object_types schema !! obj_name t)).

(** Schemas have no unions, and know the object types of interfaces. *)
Definition type_ok (def : TypeDefinition) : bool :=
  match def with
  | TObject t => is_object_type t && has_fields (obj_name t)
  | TInterface t =>
      match sch_types_for_interface (api_schema schema) !! intf_name t with
      | Some types => forallb is_object_type types && has_fields (intf_name t)
      | None => false
      end
  | TUnion _ => false
  | TScalar _ | TEnum _ | TInputObject _ => true
  end.

Definition in_document (name : string) : bool := bool_decide (is_Some (object_or_interface (api_document schema) name)).

Definition root_ok (t : ObjectType) : bool :=
  fields_agree (OObject (api_query_type schema)) (obj_fields t) && in_document (obj_name t).

Definition schema_ok : bool :=
  forallb type_ok (type_defs (api_document schema)) &&
  forallb (fun def => match def with TObject _ | TInterface _ => in_document (typedef_name def) | _ => true end) (type_defs introspection) &&
  bool_decide (is_Some (get_root_query_type_def schema)) && root_ok (api_query_type schema) &&
  match api_subscription_type schema with Some t => root_ok t | None => false end.

Definition resolves (name : string) : Prop := exists set, resolve_object_types schema name = Some (Ok set).

(** Fields of the type that is expanded are those of the type that is validated. *)
Definition agrees (ty validated : ObjectOrInterface) : Prop :=
  forall name f, name <> "__typename" -> ooi_field ty name = Some f ->
    is_Some (api_get_named_type schema (get_base_type (field_type f))) /\
    forall f', get_field introspection_query_type validated name = Some f' -> field_type f' = field_type f.

Lemma named_in_defs doc name def : get_named_type doc name = Some def -> def ∈ type_defs doc.
Proof. intros [Hin _]%find_some. by apply list_elem_of_In. Qed.

Lemma fields_agree_spec ty validated : fields_agree validated (ooi_fields ty) = true -> agrees ty validated.
Proof.
  intros Hf name f Hname Hfind. apply find_some in Hfind as [Hin Hn%bool_decide_eq_true].
  apply forallb_forall with (x := f) in Hf; [|done]. apply andb_true_iff in Hf as [Hk%bool_decide_eq_true Ha]. split; [done|].
  intros f' Hf'. rewrite Hn, Hf' in Ha. apply bool_decide_eq_true in Ha as [?|?]; [congruence|done].
Qed.

Section Schema.
Context (Hschema : schema_ok = true).

Lemma schema_facts :
  (forall def, def ∈ type_defs (api_document schema) -> type_ok def = true) /\
  (forall name ty, object_or_interface introspection name = Some ty -> is_Some (object_or_interface (api_document schema) name)) /\
  is_Some (get_root_query_type_def schema) /\ root_ok (api_query_type schema) = true /\
  exists t, api_subscription_type schema = Some t /\ root_ok t = true.
Proof.
  pose proof Hschema as H. unfold schema_ok in H. rewrite !andb_true_iff in H. destruct H as [[[[Ht Hi] Hq] Hr] Hs]. split_and!.
  - intros def Hin. eapply forallb_forall in Ht; [done|by apply list_elem_of_In].
  - intros name ty Hty. unfold object_or_interface in Hty. destruct (get_named_type introspection name) as [def|] eqn:Hdef; [|done].
    pose proof (named_type_name _ _ _ Hdef) as Hname. apply named_in_defs, list_elem_of_In in Hdef.
    pose proof (proj1 (forallb_forall _ _) Hi _ Hdef) as Hin. destruct def; try done; cbv beta iota in Hin; rewrite Hname in Hin; by apply bool_decide_eq_true in Hin.
  - by apply bool_decide_eq_true in Hq.
  - done.
  - destruct (api_subscription_type schema) as [t|]; [by exists t|done].
Qed.

Lemma document_type name ty :
  object_or_interface (api_document schema) name = Some ty ->
  resolves name /\ exists ty1, api_object_or_interface introspection schema name = Some ty1 /\ agrees ty1 ty1.
Proof.
  destruct schema_facts as (Htypes & _). unfold object_or_interface. destruct (get_named_type (api_document schema) name) as [def|] eqn:Hdef; [|done].
  pose proof (Htypes def (named_in_defs _ _ _ Hdef)) as Hok. pose proof (named_type_name _ _ _ Hdef) as Hname. intros Hty.
  assert (Hfields : forall n, n = name -> has_fields n = true ->
    exists ty1, api_object_or_interface introspection schema name = Some ty1 /\ agrees ty1 ty1).
  { intros n -> Hh. unfold has_fields in Hh. destruct (api_object_or_interface _ _ _) as [ty1|]; [|done]. exists ty1. split; [done|by apply fields_agree_spec]. }
  unfold resolves, resolve_object_types. cbn [resolve_types]. unfold api_get_named_type. rewrite Hdef. unfold api_object_type.
  destruct def as [t|t|t|t|t|t]; try done; cbn [type_ok typedef_name] in *.
  - apply andb_true_iff in Hok as [[o Ho]%bool_decide_eq_true Hh]. split; [|by eapply Hfields]. rewrite Ho. cbn. by eexists.
  - destruct (sch_types_for_interface _ !! _) as [types|] eqn:Hi; [|done]. apply andb_true_iff in Hok as [Ho Hh]. split; [|by eapply Hfields].
    cbn [expect bind_result]. destruct (try_map_total (E:=QueryExecutionError) (fun t => expect (api_object_types schema !! obj_name t)) types) as [l Hl].
    { intros o Hin. apply list_elem_of_In in Hin. pose proof (proj1 (forallb_forall _ _) Ho _ Hin) as [t' Ht']%bool_decide_eq_true. exists t'. by rewrite Ht'. }
    rewrite Hl. cbn. by eexists.
Qed.

Lemma known_type name ty :
  api_object_or_interface introspection schema name = Some ty -> resolves (ooi_name ty) /\ resolves name /\ agrees ty ty.
Proof.
  intros Hty. rewrite (ooi_name_of _ _ _ _ Hty). assert (Hdoc : is_Some (object_or_interface (api_document schema) name)).
  { unfold api_object_or_interface in Hty. destruct (starts_with "__" name); [|by eexists]. by eapply schema_facts. }
  destruct Hdoc as [ty0 Hdoc]. destruct (document_type _ _ Hdoc) as (Hr & ty1 & Hty1 & Ha). rewrite Hty in Hty1. by injection Hty1 as <-.
Qed.

Lemma root_known t : root_ok t = true -> resolves (obj_name t) /\ agrees (OObject t) (OObject (api_query_type schema)).
Proof.
  intros [Hf [ty Hd]%bool_decide_eq_true]%andb_true_iff. split; [by apply (document_type _ ty)|by apply fields_agree_spec].
Qed.

(** The types of fields *)
Lemma resolve_known name def :
  api_get_named_type schema name = Some def ->
  returns (resolve_object_types schema name) /\
  (resolves name -> exists ty, api_object_or_interface introspection schema name = Some ty).
Proof.
  intros Hdef. destruct schema_facts as (Htypes & _). pose proof (Htypes def (named_in_defs _ _ _ Hdef)) as Hok.
  destruct (object_or_interface (api_document schema) name) as [ty|] eqn:Hty.
  - destruct (document_type _ _ Hty) as ([set Hs] & ty1 & Hty1 & _). rewrite Hs. split; [done|]. by exists ty1.
  - unfold resolves, resolve_object_types. cbn [resolve_types]. rewrite Hdef. unfold object_or_interface in Hty. unfold api_get_named_type in Hdef.
    rewrite Hdef in Hty. destruct def; try done; (split; [done|]; by intros [? [=]]).
Qed.

End Schema.

Section Depth.
Context (variables : gmap string rValue) (fragments : gmap string FragmentDefinition).

(** ** Depth *)

(** Selections are nested at most [n] deep, and the fragments in them are defined. *)
Fixpoint shallow (n : nat) (sels : list qSelection) : Prop :=
  match n with
  | O => False
  | S n => forall sel, sel ∈ sels ->
      match sel with
      | QField _ _ _ _ sub => sub = [] \/ shallow n sub
      | QFragmentSpread name _ => exists frag, fragments !! name = Some frag /\ shallow n (fd_selection_set frag)
      | QInlineFragment _ _ sub => shallow n sub
      end
  end.

Lemma complexity_shallow rest ty sels visited c :
  complexity_inner introspection_query_type schema fragments rest ty sels visited = Ok c -> shallow rest sels.
Proof.
  revert ty sels visited c. induction rest as [|rest IH]; intros ty sels visited c Hc; cbn [complexity_inner] in Hc; [done|].
  intros sel Hsel. destruct (try_fold_each _ _ _ _ _ Hc Hsel) as (s1 & s2 & Hs). destruct sel as [alias name args dirs sub|name dirs|cond dirs sub].
  - case_bool_decide as Hsub; [left; by apply nil_length_inv|right]. apply bind_ok in Hs as (f & _ & Hs). apply bind_ok in Hs as (fty & _ & Hs).
    apply bind_ok in Hs as (c' & Hc' & _). by eapply IH.
  - apply bind_ok in Hs as (frag & Hfrag%expect_ok & Hs). apply bind_ok in Hs as (fty & _ & Hs). exists frag. split; [done|].
    case_bool_decide; [done|]. apply bind_ok in Hs as (c' & Hc' & _). by eapply IH.
  - apply bind_ok in Hs as (fty & _ & Hs). apply bind_ok in Hs as (c' & Hc' & _). by eapply IH.
Qed.

Local Abbreviation validate := (validate_fields_inner introspection introspection_query_type schema fragments).

Lemma validate_returns n fuel tn ty sels : shallow n sels -> (n < fuel)%nat -> is_Some (validate fuel tn ty sels).
Proof.
  revert fuel tn ty sels. induction n as [|n IH]; intros [|fuel] tn ty sels Hs Hle; [done|done|lia|]. cbn [validate_fields_inner].
  match goal with |- context [mapM ?f sels] => assert (Hm : is_Some (mapM f sels)) end; [|destruct Hm as [errors ->]; by eexists].
  apply mapM_each. intros sel Hsel. specialize (Hs sel Hsel). destruct sel as [alias name args dirs sub|name dirs|[cond|] dirs sub].
  - destruct (get_field _ _ _) as [f|]; [|done]. destruct (api_get_named_type _ _); [|done]. destruct (api_object_or_interface _ _ _) as [ty1|]; [|done].
    destruct Hs as [->|Hs]; [|apply IH; [done|lia]]. destruct fuel; [lia|]. by eexists.
  - destruct Hs as (frag & -> & Hs). destruct (api_object_or_interface _ _ _) as [ty1|]; [|done]. apply IH; [done|lia].
  - destruct (api_object_or_interface _ _ _) as [ty1|]; [|done]. apply IH; [done|lia].
  - apply IH; [done|lia].
Qed.

(** ** More fuel does not matter *)

Lemma mapM_mono {A B} (f g : A -> option B) l l' : (forall x y, f x = Some y -> g x = Some y) -> mapM f l = Some l' -> mapM g l = Some l'.
Proof. intros Hfg. rewrite !mapM_Some. intros Hl. eapply Forall2_impl; [exact Hl|]. intros x y. apply Hfg. Qed.

Lemma validate_mono fuel fuel' tn ty sels errors : (fuel <= fuel')%nat -> validate fuel tn ty sels = Some errors -> validate fuel' tn ty sels = Some errors.
Proof.
  revert fuel' tn ty sels errors. induction fuel as [|fuel IH]; intros [|fuel'] tn ty sels errors Hle Hv; [done|done|lia|].
  cbn [validate_fields_inner] in *. apply bind_Some in Hv as (es & Hm & [= <-]). apply bind_Some. exists es. split; [|done].
  eapply mapM_mono; [|exact Hm]. intros sel e He. destruct sel as [alias name args dirs sub|name dirs|[cond|] dirs sub].
  all: repeat case_match; simplify_eq; try done; (apply IH; [lia|done]).
Qed.

Lemma fuel_bind_mono {E A B} (f g : A -> option (result E B)) o o' r :
  (forall a, o = Some a -> o' = Some a) -> (forall a r, f a = Some r -> g a = Some r) -> bind_fuel f o = Some r -> bind_fuel g o' = Some r.
Proof. intros Ho Hf. destruct o as [x|]; [|done]. rewrite (Ho x eq_refl). destruct x; simpl; auto. Qed.

Lemma fuel_fold_mono {E S A} (f g : S -> A -> option (result E S)) s l r :
  (forall s x r, f s x = Some r -> g s x = Some r) -> fuel_fold f s l = Some r -> fuel_fold g s l = Some r.
Proof. intros Hfg. revert s r. induction l as [|x l IH]; intros s r; [done|]. apply fuel_bind_mono; auto. Qed.

Local Abbreviation expand := (expand_selection_set introspection float_to_string schema variables fragments).

Lemma expand_mono fuel fuel' sels ts ty r : (fuel <= fuel')%nat -> expand fuel sels ts ty = Some r -> expand fuel' sels ts ty = Some r.
Proof.
  revert fuel' sels ts ty r. induction fuel as [|fuel IH]; intros [|fuel'] sels ts ty r Hle; [done|done|lia|]. cbn [expand_selection_set].
  apply fuel_bind_mono; [done|]. intros types r1. apply fuel_bind_mono; [|done]. intros st. apply fuel_fold_mono. intros [newset visited] sel r2.
  assert (Hfrag : forall dirs cond sub newset r, expand_fragment introspection schema variables (expand fuel) dirs cond ts sub ty newset = Some r ->
    expand_fragment introspection schema variables (expand fuel') dirs cond ts sub ty newset = Some r).
  { intros dirs cond sub set r3. unfold expand_fragment. destruct (interpolate_directives variables dirs) as [adirs skip]. apply fuel_bind_mono; [done|].
    intros ty1 r4. destruct skip; [done|]. apply fuel_bind_mono; [done|]. intros cset r5. apply fuel_bind_mono; [|done]. intros r6. apply IH. lia. }
  destruct sel as [alias name args dirs sub|name dirs|cond dirs sub]; cbn [expand_selection].
  - apply fuel_bind_mono; [|done]. intros r3. unfold expand_field. case_decide; [done|]. apply fuel_bind_mono; [done|]. intros f r4.
    destruct (interpolate_directives variables dirs) as [adirs skip]. destruct skip; [done|]. apply fuel_bind_mono; [done|]. intros a r5.
    apply fuel_bind_mono; [done|]. intros leaf r6. case_bool_decide; [done|]. destruct leaf; [done|]. apply fuel_bind_mono; [done|]. intros s r7.
    apply fuel_bind_mono; [done|]. intros ty1 r8. apply fuel_bind_mono; [|done]. intros r9. apply IH. lia.
  - apply fuel_bind_mono; [done|]. intros frag r3. case_bool_decide; [done|]. apply fuel_bind_mono; [|done]. apply Hfrag.
  - apply fuel_bind_mono; [|done]. apply Hfrag.
Qed.

(** ** Expansion returns *)

Lemma mapM_concat_nil {A B} (f : A -> option (list B)) l es x : mapM f l = Some es -> concat es = [] -> x ∈ l -> f x = Some [].
Proof.
  rewrite mapM_Some. intros Hl Hc Hx. induction Hl as [|y e l es Hy Hl IH]; [by apply not_elem_of_nil in Hx|]. cbn in Hc.
  apply app_eq_nil in Hc as [-> Hc]. apply elem_of_cons in Hx as [->|Hx]; [done|by apply IH].
Qed.

Section Expansion.
Context (Hschema : schema_ok = true).

Lemma type_set_returns name : returns (resolve_object_types schema name) -> returns (one_error <$> type_set_from_name schema name).
Proof. intros Hr. apply returns_one_error, returns_bind; [done|]. by intros set _. Qed.

Lemma resolves_returns name : resolves name -> returns (resolve_object_types schema name).
Proof. by intros [set ->]. Qed.

(** The recursive calls return on what is validated. *)
Definition returns_below (rec : list qSelection -> ObjectTypeSet -> ObjectOrInterface -> option (result (list QueryExecutionError) SelectionSet))
    (n : nat) : Prop :=
  forall sels ts ty tn vty vfuel, shallow n sels -> validate vfuel tn vty sels = Some [] -> resolves (ooi_name ty) -> agrees ty vty ->
    returns (rec sels ts ty).

Lemma expand_field_returns rec n alias name args dirs sub ty vty vfuel tn :
  returns_below rec n -> sub = [] \/ shallow n sub -> agrees ty vty ->
  validate (S vfuel) tn vty [QField alias name args dirs sub] = Some [] ->
  returns (expand_field introspection float_to_string schema variables rec alias name args dirs sub ty).
Proof.
  intros Hrec Hsub Ha Hv. unfold expand_field. case_decide as Hname; [done|]. apply returns_bind; [by destruct (ooi_field ty name)|].
  intros f Hf. injection Hf as Hf%ok_or_ok. destruct (Ha name f Hname Hf) as [[def Hdef] Hsame].
  destruct (interpolate_directives variables dirs) as [adirs skip]. destruct skip; [done|].
  apply returns_bind; [apply returns_some, coerce_arguments_no_panic|]. intros args' _. apply returns_bind.
  { unfold is_leaf_type. unfold api_get_named_type in Hdef. by rewrite Hdef. }
  intros leaf _. case_bool_decide as Hlen; [by destruct leaf|]. destruct leaf; [done|]. destruct Hsub as [->|Hsub]; [done|].
  destruct (resolve_known Hschema _ _ Hdef) as [Hres Hknown]. apply returns_bind; [by apply type_set_returns|].
  intros ts Hts%one_error_some. apply fuel_ok in Hts as (set & Hset & _). destruct Hknown as [ty1 Hty1]; [by exists set|]. rewrite Hty1.
  apply returns_bind; [done|]. intros ty2 [= <-]. apply returns_bind; [|done]. destruct (known_type Hschema _ _ Hty1) as (Hr1 & _ & Ha1).
  cbn [validate_fields_inner mapM option_bind mbind mret option_ret] in Hv.
  destruct (get_field introspection_query_type vty name) as [f'|]; [|done]. rewrite (Hsame f' eq_refl), Hdef, Hty1 in Hv.
  destruct (validate vfuel _ ty1 sub) as [es|] eqn:Hes; [|done]. cbn in Hv. rewrite app_nil_r in Hv. injection Hv as ->. by eapply Hrec.
Qed.

Lemma expand_fragment_returns rec n dirs cond ts sub ty newset vty vfuel tn :
  returns_below rec n -> shallow n sub ->
  match cond with
  | Some name => exists ty1, api_object_or_interface introspection schema name = Some ty1 /\ validate vfuel name ty1 sub = Some []
  | None => resolves (ooi_name ty) /\ agrees ty vty /\ validate vfuel tn vty sub = Some []
  end ->
  returns (expand_fragment introspection schema variables rec dirs cond ts sub ty newset).
Proof.
  intros Hrec Hsub Hcond. unfold expand_fragment. destruct (interpolate_directives variables dirs) as [adirs skip].
  apply returns_bind. { destruct cond; [|done]. by destruct Hcond as (ty1 & -> & _). }
  intros ty1 Hty1. destruct skip; [done|]. apply returns_bind.
  { destruct cond as [name|]; [|done]. destruct Hcond as (ty2 & Hty2 & _). apply type_set_returns, resolves_returns. by eapply known_type. }
  intros cset _. apply returns_bind; [|intros set _; apply returns_some, one_error_no_panic, selection_merge_no_panic].
  destruct cond as [name|].
  - destruct Hcond as (ty2 & Hty2 & Hv). rewrite Hty2 in Hty1. injection Hty1 as <-. destruct (known_type Hschema _ _ Hty2) as (Hr & _ & Ha). by eapply Hrec.
  - injection Hty1 as <-. destruct Hcond as (Hr & Ha & Hv). by eapply Hrec.
Qed.

Lemma validate_one vfuel tn vty sels sel :
  validate (S vfuel) tn vty sels = Some [] -> sel ∈ sels -> validate (S vfuel) tn vty [sel] = Some [].
Proof.
  intros Hv Hsel. cbn [validate_fields_inner] in Hv. apply bind_Some in Hv as (es & Hm & Hc). injection Hc as Hc.
  pose proof (mapM_concat_nil _ _ _ _ Hm Hc Hsel) as Hone. cbn [validate_fields_inner mapM]. rewrite Hone. done.
Qed.

Lemma expand_returns n fuel : (n <= fuel)%nat -> returns_below (expand fuel) n.
Proof.
  revert fuel. induction n as [|n IH]; intros [|fuel] Hle sels ts ty tn vty vfuel Hs Hv Hr Ha; [done|done|lia|]. cbn [expand_selection_set].
  assert (Hrec : returns_below (expand fuel) n) by (apply IH; lia). destruct Hr as [set Hset].
  apply returns_bind; [apply returns_one_error; unfold type_names; by rewrite Hset|]. intros types _.
  apply returns_bind; [|by intros [newset visited] _]. apply returns_fold. intros [newset visited] sel Hsel. specialize (Hs sel Hsel).
  destruct vfuel as [|vfuel]; [done|]. pose proof (validate_one _ _ _ _ _ Hv Hsel) as Hone.
  assert (Hfrags : forall o : option (list QueryExecutionError), mapM (fun _ : unit => o) [tt] ≫= (fun errors => Some (concat errors)) = Some [] -> o = Some []).
  { intros [es|]; [|done]. cbn. by rewrite app_nil_r. }
  destruct sel as [alias name args dirs sub|name dirs|cond dirs sub]; cbn [expand_selection].
  - apply returns_bind; [by eapply expand_field_returns|]. intros [f|] _; [|done].
    apply returns_bind; [apply returns_some, one_error_no_panic, selection_push_no_panic|]. done.
  - destruct Hs as (frag & Hfrag & Hs). cbn [validate_fields_inner mapM] in Hone. rewrite Hfrag in *. apply returns_bind; [done|]. intros frag' [= <-].
    case_bool_decide; [done|]. apply returns_bind; [|done]. eapply (expand_fragment_returns _ n _ _ _ _ _ _ vty vfuel tn); [done..|].
    destruct (api_object_or_interface _ _ _) as [ty1|]; [|done]. exists ty1. split; [done|]. by apply Hfrags.
  - apply returns_bind; [|done]. cbn [validate_fields_inner mapM] in Hone.
    eapply (expand_fragment_returns _ n _ _ _ _ _ _ vty vfuel tn); [done..|]. destruct cond as [name|].
    + destruct (api_object_or_interface _ _ _) as [ty1|]; [|done]. exists ty1. split; [done|]. by apply Hfrags.
    + split; [by exists set|]. split; [done|]. by apply Hfrags.
Qed.

End Expansion.

End Depth.

(** ** Preparing a query *)

(** Default values of variables have no variables in them. *)
Definition literal_defaults (operation : OperationDefinition) : Prop :=
  forall def d, def ∈ default [] (get_variable_definitions operation) -> vd_default_value def = Some d -> exists v, rvalue_try_from d = Ok v.

(** The complexity of the operation of the document is known, or a reason to reject it is. *)
Definition complexity_known (document : QueryDocument) (max_depth : Z) : Prop :=
  forall operation fragments root,
    try_fold add_definition (None, ∅) document = Ok (Some operation, fragments) -> get_root_query_type_def schema = Some root ->
    complexity_inner introspection_query_type schema fragments (Z.to_nat max_depth) root (operation_selection_set operation) ∅
      ∉ [Err CInvalid; Panic].

Lemma coerce_variables_no_panic operation variables :
  literal_defaults operation -> coerce_variables float_to_string schema operation variables <> Panic.
Proof.
  intros Hlit. unfold coerce_variables. rewrite bind_panic. intros [Hp|([[? ?] ?] & _ & Hp)]; [|by case_match].
  revert Hp. apply (try_fold_no_panic _ (fun _ => True)); [done|]. intros def [[vars coerced] errors] Hdef _. split; [|done]. unfold coerce_variable_def.
  destruct (negb _); [done|]. rewrite bind_panic. intros [Hp|(v & _ & Hp)].
  - destruct (vars ≫= _); [done|]. destruct (vd_default_value def) as [d|] eqn:Hd; [|done]. by destruct (Hlit _ _ Hdef Hd) as [v Hv]; rewrite Hv in Hp.
  - destruct v as [v|]; [|done]. apply bind_panic in Hp as [Hp|(? & _ & [=])]. unfold coerce_variable in Hp.
    pose proof (coerces_all float_to_string (api_get_named_type schema) v (vd_var_type def)) as (Hc & _). by destruct (coerce_value _ _ _ _).
Qed.

Lemma add_definitions_no_panic document st : try_fold add_definition st document <> Panic.
Proof. apply (try_fold_no_panic _ (fun _ => True)); [done|]. intros [op|frag] [[]] _ _; done. Qed.

(** What has been checked before expansion *)
Lemma checks_return fragments max_complexity max_depth sels root :
  get_root_query_type_def schema = Some root ->
  complexity_inner introspection_query_type schema fragments (Z.to_nat max_depth) root sels ∅ ∉ [Err CInvalid; Panic] ->
  check_complexity introspection_query_type schema fragments max_complexity max_depth sels <> Panic /\
  forall c, check_complexity introspection_query_type schema fragments max_complexity max_depth sels = Ok c -> shallow fragments (Z.to_nat max_depth) sels.
Proof.
  intros Hroot Hc. unfold check_complexity, query_complexity. rewrite Hroot. cbn [expect bind_result].
  destruct (complexity_inner _ _ _ _ _ _ _) as [c|[]|] eqn:Hci; try (split; [done|by intros ? [=]]).
  - split; [by destruct max_complexity; simpl; [case_match|]|]. intros _ _. by eapply complexity_shallow.
  - destruct Hc. by left.
  - destruct Hc. by right; left.
Qed.

Lemma root_type_ok kind root :
  schema_ok = true ->
  match kind with KQuery => Ok (E:=list QueryExecutionError) (api_query_type schema) | KSubscription => expect (api_subscription_type schema) end = Ok root ->
  resolves (obj_name root) /\ agrees (OObject root) (OObject (api_query_type schema)).
Proof.
  intros Hok. destruct (schema_facts Hok) as (_ & _ & _ & Hq & t & Ht & Hs). destruct kind.
  - intros [= <-]. by apply root_known.
  - rewrite Ht. intros [= <-]. by apply root_known.
Qed.

Lemma root_type_no_panic kind :
  schema_ok = true ->
  returns (Some match kind with KQuery => Ok (E:=list QueryExecutionError) (api_query_type schema) | KSubscription => expect (api_subscription_type schema) end).
Proof. intros Hok. destruct (schema_facts Hok) as (_ & _ & _ & Hq & t & Ht & Hs). destruct kind; [done|]. by rewrite Ht. Qed.

Lemma query_returns fuel validation_errors document variables max_complexity max_depth :
  schema_ok = true ->
  (forall operation fragments, try_fold add_definition (None, ∅) document = Ok (Some operation, fragments) -> literal_defaults operation) ->
  complexity_known document max_depth -> (Z.to_nat max_depth < fuel)%nat ->
  returns (graphql_query_new introspection introspection_query_type float_to_string schema fuel validation_errors document variables max_complexity max_depth).
Proof.
  intros Hok Hlit Hknown Hfuel. unfold graphql_query_new. destruct (negb _); [done|]. apply returns_bind; [apply returns_some, add_definitions_no_panic|].
  intros [operation fragments] Hdoc. injection Hdoc as Hdoc. apply returns_bind; [by destruct operation|]. intros op Hop. injection Hop as ->%ok_or_ok.
  apply returns_bind; [by apply returns_some, coerce_variables_no_panic, (Hlit _ fragments)|]. intros vars _.
  apply returns_bind; [by destruct op|]. intros kind _. apply returns_bind; [by apply root_type_no_panic|]. intros root Hroot. injection Hroot as Hroot.
  destruct (root_type_ok _ _ Hok Hroot) as [Hres Hagree]. destruct (schema_facts Hok) as (_ & _ & [rq Hrq] & _).
  destruct (checks_return fragments max_complexity max_depth _ _ Hrq (Hknown _ _ _ Hdoc Hrq)) as [Hcp Hshallow].
  apply returns_bind; [by apply returns_some|]. intros c Hc. injection Hc as Hc. specialize (Hshallow c Hc).
  destruct (validate_returns fragments _ fuel "Query" (OObject (api_query_type schema)) _ Hshallow Hfuel) as [errors Herrors].
  unfold query_validate_fields. rewrite Herrors. cbn [mbind option_bind]. apply returns_bind; [by case_bool_decide|]. intros [] Hempty.
  case_bool_decide as Hlen; [|done]. apply nil_length_inv in Hlen as ->. apply returns_bind; [|done].
  eapply (expand_returns vars fragments Hok (Z.to_nat max_depth)); [lia|done..].
Qed.

Lemma query_mono fuel fuel' validation_errors document variables max_complexity max_depth r :
  (fuel <= fuel')%nat ->
  graphql_query_new introspection introspection_query_type float_to_string schema fuel validation_errors document variables max_complexity max_depth = Some r ->
  graphql_query_new introspection introspection_query_type float_to_string schema fuel' validation_errors document variables max_complexity max_depth = Some r.
Proof.
  intros Hle. unfold graphql_query_new. destruct (negb _); [done|]. apply fuel_bind_mono; [done|]. intros [operation fragments] r1.
  do 4 (apply fuel_bind_mono; [done|]; intros ? ?). apply fuel_bind_mono; [done|]. intros ? ?. apply fuel_bind_mono.
  { intros rv. unfold query_validate_fields. rewrite !bind_Some. intros (errors & Hv & Hr). exists errors. split; [by eapply validate_mono|done]. }
  intros ? ?. apply fuel_bind_mono; [|done]. intros rx. by apply expand_mono.
Qed.

(** C10: a query is prepared within the depth that is allowed: if its complexity is known,
    [Query::new] returns a query or errors, without a panic, and the recursion of
    validation and expansion is at most one deeper than the maximal depth. *)
Theorem query_new_returns validation_errors document variables max_complexity max_depth :
  schema_ok = true ->
  (forall operation fragments, try_fold add_definition (None, ∅) document = Ok (Some operation, fragments) -> literal_defaults operation) ->
  complexity_known document max_depth ->
  exists r, r <> Panic /\ forall fuel, (Z.to_nat max_depth < fuel)%nat ->
    graphql_query_new introspection introspection_query_type float_to_string schema fuel validation_errors document variables max_complexity max_depth = Some r.
Proof.
  intros Hok Hlit Hknown. pose proof (query_returns (S (Z.to_nat max_depth)) validation_errors document variables max_complexity max_depth Hok Hlit Hknown) as Hr.
  destruct (graphql_query_new _ _ _ _ (S (Z.to_nat max_depth)) _ _ _ _ _) as [r|] eqn:Hq; [|destruct Hr; lia]. exists r. split; [apply returns_some, Hr; lia|].
  intros fuel Hfuel. eapply query_mono; [|exact Hq]. lia.
Qed.

(** C9: the query that is executed selects what the client's query asks for: for each
    object type of the root, the paths of types and response keys of its selection sets
    are those that the selections, fragments, type conditions and directives of the query
    lead to, and response keys are unique in every selection set at any depth.  A field or
    fragment is left out for [skip] with a true condition or none and for [include] with a
    condition that is not true, a condition being a boolean or a variable that has one; as
    in the code, directives on a spread of a fragment and on __typename are ignored. *)
Theorem query_selects_what_is_asked fuel validation_errors document variables max_complexity max_depth q :
  graphql_query_new introspection introspection_query_type float_to_string schema fuel validation_errors document variables max_complexity max_depth = Some (Ok q) ->
  exists operation fragments values root,
    try_fold add_definition (None, ∅) document = Ok (Some operation, fragments) /\
    coerce_variables float_to_string schema operation variables = Ok values /\
    Some root = match qy_kind q with KQuery => Some (api_query_type schema) | KSubscription => api_subscription_type schema end /\
    (forall T, T ∈ type_names_of (qy_selection_set q) <-> applies schema (Some (obj_name root)) T) /\
    keys_unique (qy_selection_set q) /\
    forall T k p, selects ((T, k) :: p) (qy_selection_set q) <->
      applies schema (Some (obj_name root)) T /\
      asks_for introspection schema values fragments ((T, k) :: p) (OObject root) (operation_selection_set operation).
Proof.
  unfold graphql_query_new. destruct (negb _); [done|]. intros ([operation fragments] & Hdoc & H)%fuel_ok. injection Hdoc as Hdoc.
  apply fuel_ok in H as (op & Hop & H). injection Hop as ->%ok_or_ok. apply fuel_ok in H as (values & Hvals & H). injection Hvals as Hvals.
  apply fuel_ok in H as (kind & _ & H). apply fuel_ok in H as (root & Hroot & H). apply fuel_ok in H as (c & _ & H). apply fuel_ok in H as ([] & _ & H).
  apply fuel_ok in H as (set & Hset & [= <-]). destruct (expand_spec _ _ _ _ _ _ _ _ _ _ Hset) as (Hnames & Hkeys & Hsel).
  cbn [type_set_contains ooi_name] in Hnames. assert (Hn : forall T, T ∈ type_names_of set <-> applies schema (Some (obj_name root)) T) by (intros T; rewrite Hnames; tauto).
  exists op, fragments, values, root. cbn [qy_kind qy_selection_set]. split_and!; [done|done| |done|done|].
  - destruct kind; [by injection Hroot as ->|]. injection Hroot as Hroot%expect_ok. done.
  - intros T k p. by rewrite Hsel, Hn.
Qed.

(** ** Cycles behind an invalid field *)

Lemma cyclic_fragment_overflows fragments frag name ty tn vty dirs fuel :
  fragments !! name = Some frag -> QFragmentSpread name dirs ∈ fd_selection_set frag ->
  api_object_or_interface introspection schema (fd_type_condition frag) = Some ty ->
  forall sels dirs', QFragmentSpread name dirs' ∈ sels ->
  validate_fields_inner introspection introspection_query_type schema fragments fuel tn vty sels = None.
Proof.
  intros Hf Hin Hty. revert tn vty. induction fuel as [|fuel IH]; intros tn vty sels dirs' Hsels; [done|]. cbn [validate_fields_inner].
  match goal with |- context [mapM ?f sels] => destruct (mapM f sels) eqn:Hm end; [|done]. exfalso. apply mapM_Some in Hm.
  apply list_elem_of_lookup in Hsels as [i Hi]. destruct (Forall2_lookup_l _ _ _ _ _ Hm Hi) as (e & _ & He).
  rewrite Hf, Hty, (IH _ _ _ _ Hin) in He. done.
Qed.

(** C38: a departure from the comment on the order of the checks: when a field of the query
    is unknown, the complexity is taken to be 0 before the fragments are looked at, and
    the validation of the fields of a cyclic fragment does not end. *)
Theorem cycle_after_unknown_field fuel name sub root ty max_complexity max_depth :
  get_root_query_type_def schema = Some (TObject root) -> get_field introspection_query_type (OObject root) name = None ->
  api_object_or_interface introspection schema "Query" = Some ty -> (0 < max_depth)%Z -> (0 <= max_complexity)%Z ->
  let cyclic := {| fd_name := "F"; fd_type_condition := "Query"; fd_directives := []; fd_selection_set := [QFragmentSpread "F" []] |} in
  let sels := [QField None name [] [] [QField None sub [] [] []]; QFragmentSpread "F" []] in
  check_complexity introspection_query_type schema {["F" := cyclic]} (Some max_complexity) max_depth sels = Ok 0%Z /\
  graphql_query_new introspection introspection_query_type float_to_string schema fuel [] [QFragment cyclic; QOperation (OpSelectionSet sels)] None (Some max_complexity) max_depth = None.
Proof.
  intros Hroot Hname Hty Hdepth Hmax cyclic sels.
  assert (Hc : check_complexity introspection_query_type schema {["F" := cyclic]} (Some max_complexity) max_depth sels = Ok 0%Z).
  { unfold check_complexity, query_complexity. rewrite Hroot. cbn [expect bind_result]. destruct (Z.to_nat max_depth) as [|d] eqn:Hd; [lia|].
    unfold sels. cbn [complexity_inner try_fold]. rewrite (bool_decide_false (length _ = 0)) by done. unfold complexity_field. rewrite Hname. cbn. destruct (Z.ltb_spec max_complexity 0); [lia|done]. }
  split; [done|]. unfold graphql_query_new, query_validate_fields. cbn [negb bool_decide]. rewrite bool_decide_true by done. cbn [negb try_fold add_definition bind_result bind_fuel ok_or].
  rewrite insert_empty. cbn [bind_fuel coerce_variables get_variable_definitions default try_fold bind_result operation_kind operation_selection_set fd_name cyclic].
  unfold coerce_variables. cbn [get_variable_definitions default try_fold bind_result length]. rewrite bool_decide_true by done. cbn [bind_fuel]. rewrite Hc. cbn [bind_fuel].
  rewrite (cyclic_fragment_overflows {["F" := cyclic]} cyclic "F" ty _ _ [] fuel (lookup_singleton_eq _ _) ltac:(by left) Hty sels [] ltac:(right; by left)). done.
Qed.

End Returns.
