(* ===== verification/QueryBlocks.v ===== *)
(** * Block constraints of a query

    The fields at the top of a query are split into groups that are executed at the same
    block ([Query::block_constraint]). *)

From S2P Require Import Prelude GraphqlAst Scalars RuntimeValue Values Names StoreTypes Schema QueryAst Coercion QueryPrep QueryMerge.

(** A set with the same fields for all types *)
Definition same_fields (set : SelectionSet) (fields : list aField) : SelectionSet := map (fun x => (x.1, fields)) set.

Lemma push_new set fields f :
  response_key f ∉ map response_key fields -> selection_push (same_fields set fields) f = Ok (same_fields set (fields ++ [f])).
Proof.
  intros Hnew. unfold selection_push, same_fields. induction set as [|x set IH]; [done|]. cbn [map try_map fst snd]. rewrite merge_field_eq.
  pose proof (update_first_spec (fun field => bool_decide (response_key field = response_key f))
    (fun field => let? set := selection_merge (af_selection_set field) (af_selection_set f) [] in Ok (with_selection_set field set)) fields) as Hu.
  destruct (update_first _ _ fields) as [r|].
  - destruct Hu as (l1 & y & l2 & -> & Hy%bool_decide_eq_true & _). destruct Hnew. rewrite <- Hy. apply list_elem_of_fmap. exists y. split; [done|set_solver].
  - cbn [bind_result]. rewrite IH. done.
Qed.

Lemma fields_for_same set t fields fields' : fields_for set t = Ok fields' -> fields_for (same_fields set fields) t = Ok fields.
Proof.
  unfold fields_for, same_fields. induction set as [|x set IH]; [done|]. cbn [map List.find fst]. destruct (same_type x.1 t); [done|]. apply IH.
Qed.

Definition neighbours_differ {A} (l : list A) : Prop := forall i x y, l !! i = Some x -> l !! S i = Some y -> x <> y.

Lemma neighbours_snoc {A} (l : list A) y : neighbours_differ l -> last l <> Some y -> neighbours_differ (l ++ [y]).
Proof.
  intros Hl Hlast i a b Ha Hb. destruct (decide (S i < length l)%nat) as [Hlt|Hge].
  - rewrite lookup_app_l in Ha by lia. rewrite lookup_app_l in Hb by lia. by eapply Hl.
  - rewrite lookup_app_r in Hb by lia. apply list_lookup_singleton_Some in Hb as [Hi <-]. rewrite lookup_app_l in Ha by lia.
    intros ->. apply Hlast. rewrite last_lookup. by replace (pred (length l)) with i by lia.
Qed.

Section Blocks.
Context (h256_from_str : string -> option Bytes) (i32_from_str : string -> option Z) (schema : ApiSchema).

Local Abbreviation block_of := (field_block_constraint h256_from_str i32_from_str).

(** What is known of a field: the block and the policy that it asks for *)
Definition field_constraints (f : aField) : result (list QueryExecutionError) (BlockConstraint * ErrorPolicy) :=
  let? bc := block_of f in
  let? policy := field_error_policy f in
  Ok (bc, policy).

(** An entry of the result is for a group of fields with the same constraint. *)
Definition for_group (set : SelectionSet) (entry : BlockConstraint * (SelectionSet * ErrorPolicy)) (group : list aField) : Prop :=
  group <> [] /\ entry.2.1 = same_fields set group /\ (forall f, f ∈ group -> block_of f = Ok entry.1) /\
  (entry.2.2 = PolicyDeny <-> exists f, f ∈ group /\ field_error_policy f = Ok PolicyDeny).

Definition groups_so_far (set : SelectionSet) (fields : list aField) (st : list (BlockConstraint * (SelectionSet * ErrorPolicy)) * option BlockConstraint) : Prop :=
  st.2 = fst <$> last st.1 /\ neighbours_differ (map fst st.1) /\
  exists groups, concat groups = fields /\ Forall2 (for_group set) st.1 groups.

Lemma add_constraint_step set fields st f bc policy :
  groups_so_far set fields st -> response_key f ∉ map response_key fields -> field_constraints f = Ok (bc, policy) ->
  exists st', add_block_constraint h256_from_str i32_from_str set st f = Ok st' /\ groups_so_far set (fields ++ [f]) st'.
Proof.
  destruct st as [bcs prev]. intros (Hprev & Hdiff & groups & Hconcat & Hgroups) Hnew Hf. cbn [fst snd] in *. unfold field_constraints in Hf.
  apply bind_ok in Hf as (bc' & Hbc & Hf). apply bind_ok in Hf as (policy' & Hpol & [= -> ->]).
  unfold add_block_constraint. rewrite Hbc, Hpol. cbn [bind_result]. case_bool_decide as Hsame.
  - destruct bcs as [|[bc' [set' policy0]] bcs _] using rev_ind; [by subst|]. rewrite last_snoc in *. cbn in Hprev. subst prev. injection Hsame as ->.
    apply Forall2_app_inv_l in Hgroups as (gs & last_gs & Hgs & Hlast & ->). inversion Hlast as [|? g ? ? Hg Hnil]; subst. inversion Hnil; subst.
    destruct Hg as (Hne & Hset & Hall & Hdeny). cbn [fst snd] in *. subst set'. rewrite concat_app in Hnew. cbn [concat] in Hnew. rewrite app_nil_r, map_app in Hnew.
    rewrite push_new by set_solver. cbn [one_error map_err bind_result]. eexists. split; [done|]. rewrite removelast_last. unfold groups_so_far. cbn [fst snd].
    rewrite last_snoc. split; [done|]. split; [by rewrite map_app in *|]. exists (gs ++ [g ++ [f]]). split.
    { rewrite !concat_app. cbn [concat]. by rewrite !app_nil_r, app_assoc. }
    apply Forall2_app; [done|]. constructor; [|constructor]. split; [by destruct g|]. split; [done|]. cbn [fst snd]. setoid_rewrite elem_of_app. setoid_rewrite list_elem_of_singleton.
    split; [intros x [Hx| ->]; auto|]. destruct policy.
    + rewrite Hdeny. split; [naive_solver|]. intros (x & [?| ->] & Hx); [eauto|congruence].
    + split; [eauto|done].
  - change (selection_empty_from set) with (same_fields set []). rewrite push_new by (simpl; set_solver). cbn [one_error map_err bind_result].
    eexists. split; [done|]. unfold groups_so_far. cbn [fst snd app]. rewrite last_snoc. split; [done|]. split.
    { rewrite map_app. apply neighbours_snoc; [done|]. change (map fst bcs) with (fst <$> bcs). rewrite fmap_last, <- Hprev. done. }
    exists (groups ++ [[f]]). split; [by rewrite concat_app, Hconcat|]. apply Forall2_app; [done|]. constructor; [|constructor].
    split; [done|]. split; [done|]. cbn [fst snd]. setoid_rewrite list_elem_of_singleton. split; [by intros x ->|].
    split; [intros ->; eauto|]. intros (x & -> & Hx). congruence.
Qed.

Lemma add_constraints set fields done_ st :
  groups_so_far set done_ st -> NoDup (map response_key (done_ ++ fields)) ->
  match try_map field_constraints fields with
  | Ok _ => exists st', try_fold (add_block_constraint h256_from_str i32_from_str set) st fields = Ok st' /\ groups_so_far set (done_ ++ fields) st'
  | Err e => try_fold (add_block_constraint h256_from_str i32_from_str set) st fields = Err e
  | Panic => False
  end.
Proof.
  revert done_ st. induction fields as [|f fields IH]; intros done_ st Hst Hkeys; cbn [try_map try_fold].
  { exists st. by rewrite app_nil_r. }
  assert (Hnew : response_key f ∉ map response_key done_).
  { rewrite map_app in Hkeys. apply NoDup_app in Hkeys as (_ & Hd & _). intros Hin. apply (Hd _ Hin). by left. }
  destruct (field_constraints f) as [[bc policy]|e|] eqn:Hf; cbn [bind_result].
  - destruct (add_constraint_step _ _ _ _ _ _ Hst Hnew Hf) as (st1 & -> & Hst1). cbn [bind_result].
    specialize (IH (done_ ++ [f]) st1 Hst1). rewrite <- app_assoc in IH. specialize (IH Hkeys). destruct (try_map field_constraints fields); cbn [bind_result]; done.
  - unfold field_constraints in Hf. destruct st as [bcs prev]. unfold add_block_constraint. destruct (block_of f) as [bc| |]; [|by injection Hf as ->|done].
    cbn [bind_result] in *. destruct (field_error_policy f); [done|by injection Hf as ->|done].
  - unfold field_constraints, field_block_constraint, field_error_policy, ok_or in Hf. repeat case_match; done.
Qed.

(** C34: the constraints of a query partition its fields: the groups are the fields of the
    query in their order, each with one constraint that all of its fields ask for;
    neighbouring groups have different constraints; and errors are denied for a group
    when one of its fields denies them.  A constraint or policy that can not be
    understood is an error. *)
Theorem block_constraints_partition q fields :
  fields_for (qy_selection_set q) (api_query_type schema) = Ok fields -> NoDup (map response_key fields) ->
  match try_map field_constraints fields with
  | Ok _ => exists bcs groups, block_constraint h256_from_str i32_from_str schema q = Ok bcs /\ concat groups = fields /\
      neighbours_differ (map fst bcs) /\
      Forall2 (fun entry group =>
          group <> [] /\ fields_for entry.2.1 (api_query_type schema) = Ok group /\ (forall f, f ∈ group -> block_of f = Ok entry.1) /\
          (entry.2.2 = PolicyDeny <-> exists f, f ∈ group /\ field_error_policy f = Ok PolicyDeny)) bcs groups
  | Err e => block_constraint h256_from_str i32_from_str schema q = Err e
  | Panic => False
  end.
Proof.
  intros Hfields Hkeys. pose proof (add_constraints (qy_selection_set q) fields [] ([], None)) as Hadd. cbn [app] in Hadd.
  specialize (Hadd ltac:(split; [done|]; split; [by intros i x y Hx|]; exists []; by repeat constructor) Hkeys).
  unfold block_constraint. rewrite Hfields. cbn [one_error map_err bind_result]. destruct (try_map field_constraints fields); [|by rewrite Hadd|done].
  destruct Hadd as ([bcs prev] & -> & _ & Hdiff & groups & Hconcat & Hgroups). cbn [fst snd bind_result] in *. exists bcs, groups. split_and!; [done..|].
  eapply Forall2_impl; [exact Hgroups|]. intros entry group (Hne & Hset & Hall & Hdeny). rewrite Hset. split; [done|]. split; [by eapply fields_for_same|]. done.
Qed.

End Blocks.
