(* ===== verification/QueryExamples.v ===== *)
(** * Queries on a small schema

    An API schema with an interface, a query with fragments, variables and directives,
    and the theorems on the preparation of queries applied to them. *)

From S2P Require Import Prelude GraphqlAst Scalars RuntimeValue Values Names StoreTypes Schema QueryAst Coercion QueryPrep QueryMerge QueryExpand QueryReturns QueryBlocks.

(** ** The schema *)

Definition plain_field (name : string) (args : list (string * sType)) (ty : sType) : Field :=
  {| field_name := name;
     field_arguments := map (fun a => {| iv_name := a.1; iv_value_type := a.2; iv_default_value := None; iv_directives := [] |}) args;
     field_type := ty; field_directives := [] |}.

Definition plain_object (name : string) (interfaces : list string) (fields : list Field) : ObjectType :=
  {| obj_name := name; obj_implements_interfaces := interfaces; obj_directives := []; obj_fields := fields |}.

Definition scalar_def (name : string) : Definition_ := DTypeDefinition (TScalar {| scalar_name := name; scalar_directives := [] |}).

Definition user_type : ObjectType :=
  plain_object "User" ["Node"]
    [plain_field "id" [] (NonNullType (NamedType "ID")); plain_field "name" [] (NamedType "String");
     plain_field "friends" [("first", NamedType "Int")] (NonNullType (ListType (NonNullType (NamedType "User"))))].

Definition node_type : InterfaceType :=
  {| intf_name := "Node"; intf_directives := []; intf_fields := [plain_field "id" [] (NonNullType (NamedType "ID"))] |}.

Definition root_fields : list Field :=
  [plain_field "users" [("first", NamedType "Int"); ("block", NamedType "Block_height"); ("subgraphError", NamedType "Policy")]
     (NonNullType (ListType (NonNullType (NamedType "User"))));
   plain_field "nodes" [] (NonNullType (ListType (NonNullType (NamedType "Node"))))].

Definition block_height : InputObjectType :=
  {| io_name := "Block_height"; io_directives := [];
     io_fields := [{| iv_name := "number"; iv_value_type := NamedType "Int"; iv_default_value := None; iv_directives := [] |}] |}.

Definition policy_enum : EnumType :=
  {| enum_name := "Policy"; enum_directives := [];
     enum_values := [{| ev_name := "allow"; ev_directives := [] |}; {| ev_name := "deny"; ev_directives := [] |}] |}.

Definition example_document : Document :=
  {| definitions :=
       [scalar_def "ID"; scalar_def "String"; scalar_def "Int"; scalar_def "Boolean"; DTypeDefinition (TObject user_type);
        DTypeDefinition (TInterface node_type); DTypeDefinition (TInputObject block_height); DTypeDefinition (TEnum policy_enum);
        DTypeDefinition (TObject (plain_object "Query" [] root_fields)); DTypeDefinition (TObject (plain_object "Subscription" [] root_fields))] |}.

(** A part of [introspection.graphql] *)
Definition example_introspection : Document :=
  {| definitions :=
       [DTypeDefinition (TObject (plain_object "__Schema" [] [plain_field "queryType" [] (NonNullType (NamedType "__Type"))]));
        DTypeDefinition (TObject (plain_object "__Type" [] [plain_field "name" [] (NamedType "String")]))] |}.

Definition introspection_query : ObjectType := plain_object "Query" [] introspection_fields.

Definition example_schema : ApiSchema :=
  match from_api_schema example_introspection
          (mkSchema "Qm" example_document {["User" := [node_type]]} {["Node" := [user_type]]} ∅) with
  | Ok schema => schema
  | _ => mkApiSchema (mkSchema "" example_document ∅ ∅ ∅) introspection_query None ∅
  end.

Lemma example_schema_ok : schema_ok example_introspection introspection_query example_schema = true.
Proof. vm_compute. reflexivity. Qed.

(** ** A query *)

(** query($n: Int = 5, $more: Boolean) { users(first: $n) { ...UserParts friends @include(if: $more) { id } }
    nodes { id ... on User { name } } users(block: {number: 7}) { id } } *)
Definition include_if (var : string) : Directive := {| dir_name := "include"; dir_arguments := [("if", QVariable var)] |}.

Definition user_parts : FragmentDefinition :=
  mkFragment "UserParts" "User" [] [QField None "id" [] [] []; QField (Some "label") "name" [] [] []].

Definition example_selections : list qSelection :=
  [QField None "users" [("first", QVariable "n")] []
     [QFragmentSpread "UserParts" []; QField None "friends" [] [include_if "more"] [QField None "id" [] [] []]];
   QField None "nodes" [] [] [QField None "id" [] [] []; QInlineFragment (Some "User") [] [QField None "name" [] [] []]];
   QField (Some "old") "users" [("block", QObject [("number", QInt 7)]); ("subgraphError", QEnum "allow")] [] [QField None "id" [] [] []]].

Definition example_query_document : QueryDocument :=
  [QFragment user_parts;
   QOperation (OpQuery [mkVariableDefinition "n" (NamedType "Int") (Some (QInt 5)); mkVariableDefinition "more" (NamedType "Boolean") None] example_selections)].

Definition no_float (_ : Z) : string := "".

Definition prepare (more : bool) : option (result (list QueryExecutionError) Query) :=
  graphql_query_new example_introspection introspection_query no_float example_schema 10 [] example_query_document
    (Some {["more" := RBoolean more]}) (Some 100000%Z) 4.

Definition example_query : Query :=
  match prepare false with Some (Ok q) => q | _ => mkQuery [] KSubscription end.

Lemma example_prepared : prepare false = Some (Ok example_query).
Proof. vm_compute. reflexivity. Qed.

(** The fields of the query as they are executed *)
Example example_fields :
  map (fun x => (obj_name x.1, map response_key x.2)) (qy_selection_set example_query) = [("Query", ["users"; "nodes"; "old"])].
Proof. vm_compute. reflexivity. Qed.

Lemma example_complexity_known : complexity_known introspection_query example_schema example_query_document 4.
Proof.
  intros operation fragments root [= <- <-] Hroot. assert (Hr : root = TObject (api_query_type example_schema)) by (vm_compute in Hroot; vm_compute; congruence).
  subst root. vm_compute. intros Hin. repeat (apply elem_of_cons in Hin as [?|Hin]; [done|]). by apply not_elem_of_nil in Hin.
Qed.

Lemma example_literal operation fragments :
  try_fold add_definition (None, ∅) example_query_document = Ok (Some operation, fragments) -> literal_defaults operation.
Proof.
  intros [= <- <-] def d Hin Hd. repeat (apply elem_of_cons in Hin as [->|Hin]; [simpl in Hd; simplify_eq; by eexists|]). by apply not_elem_of_nil in Hin.
Qed.

Lemma query_new_returns_witness :
  exists r, r <> Panic /\ forall fuel, (Z.to_nat 4 < fuel)%nat ->
    graphql_query_new example_introspection introspection_query no_float example_schema fuel [] example_query_document None (Some 100000%Z) 4 = Some r.
Proof.
  exact (query_new_returns example_introspection introspection_query no_float example_schema [] example_query_document None (Some 100000%Z) 4
    example_schema_ok example_literal example_complexity_known).
Defined.

(** The fragment is expanded; the field that is not included is left out. *)
Lemma query_selects_what_is_asked_witness :
  keys_unique (qy_selection_set example_query) /\ selects [("Query", "users"); ("User", "label")] (qy_selection_set example_query) /\
  ~ selects [("Query", "users"); ("User", "friends")] (qy_selection_set example_query).
Proof.
  destruct (query_selects_what_is_asked example_introspection introspection_query no_float example_schema 10 [] example_query_document
    (Some {["more" := RBoolean false]}) (Some 100000%Z) 4 example_query example_prepared) as (op & frags & values & root & _ & _ & _ & _ & Hkeys & _).
  split; [exact Hkeys|]. split.
  - vm_compute. do 3 eexists. split; [by left|]. split; [done|]. split; [by left|]. split; [done|].
    do 3 eexists. split; [by left|]. split; [done|]. split; [by right; left|]. done.
  - vm_compute. intros (t & fields & f & Hin & Ht & Hf & Hk & t' & fields' & f' & Hin' & Ht' & Hf' & Hk' & _).
    repeat (apply elem_of_cons in Hin as [?|Hin]; simplify_eq); [|by apply not_elem_of_nil in Hin].
    repeat (apply elem_of_cons in Hf as [?|Hf]; simplify_eq); [|by apply not_elem_of_nil in Hf].
    repeat (apply elem_of_cons in Hin' as [?|Hin']; simplify_eq); [|by apply not_elem_of_nil in Hin'].
    repeat (apply elem_of_cons in Hf' as [?|Hf']; simplify_eq). by apply not_elem_of_nil in Hf'.
Defined.

Lemma cycle_after_unknown_field_witness :
  graphql_query_new example_introspection introspection_query no_float example_schema 1000 []
    [QFragment (mkFragment "F" "Query" [] [QFragmentSpread "F" []]);
     QOperation (OpSelectionSet [QField None "unknown" [] [] [QField None "id" [] [] []]; QFragmentSpread "F" []])] None (Some 100000%Z) 4 = None.
Proof.
  eapply (cycle_after_unknown_field example_introspection introspection_query no_float example_schema 1000 "unknown" "id"
    (api_query_type example_schema) (OObject (api_query_type example_schema)) 100000 4); [vm_compute; reflexivity..|lia|lia].
Defined.

(** ** Block constraints *)

Definition no_hash (_ : string) : option Bytes := None.
Definition no_number (_ : string) : option Z := None.

Definition example_root_fields : list aField := match qy_selection_set example_query with x :: _ => x.2 | [] => [] end.

(** The last field is executed at block 7. *)
Example example_constraints :
  exists bcs, block_constraint no_hash no_number example_schema example_query = Ok bcs /\
    map (fun entry => (entry.1, map response_key (concat (map snd entry.2.1)), entry.2.2)) bcs =
      [(BcLatest, ["users"; "nodes"], PolicyDeny); (BcNumber 7, ["old"], PolicyAllow)].
Proof. eexists. vm_compute. split; reflexivity. Qed.

Lemma block_constraints_partition_witness :
  exists bcs groups, block_constraint no_hash no_number example_schema example_query = Ok bcs /\ concat groups = example_root_fields /\
    neighbours_differ (map fst bcs).
Proof.
  assert (Hf : fields_for (qy_selection_set example_query) (api_query_type example_schema) = Ok example_root_fields) by (vm_compute; reflexivity).
  assert (Hk : NoDup (map response_key example_root_fields)) by (apply (bool_decide_unpack _); vm_compute; exact I).
  pose proof (block_constraints_partition no_hash no_number example_schema example_query example_root_fields Hf Hk) as H.
  assert (Hc : exists cs, try_map (field_constraints no_hash no_number) example_root_fields = Ok cs) by (eexists; vm_compute; reflexivity).
  destruct Hc as [cs Hc]. rewrite Hc in H. destruct H as (bcs & groups & Hb & Hg & Hn & _).
  exists bcs, groups. exact (conj Hb (conj Hg Hn)).
Defined.
