(* ===== verification/CacheInterface.v ===== *)
(** * What a cache promises to its clients

    The entity cache uses an [LfuCache] as a map that may forget entries on
    [evict].  [CacheOps] lists the operations it calls and [CacheLaws] what they
    promise about the map a cache stands for; the theorems of the entity cache
    are proved against this interface, and [LfuCache.v] discharges it.

    The laws hold for caches that satisfy [cache_ok].  There is no law that
    [cache_extend] keeps [cache_ok]: [LfuCache.v] shows that it does not. *)

From S2P Require Import Prelude.

Class CacheOps (K V C : Type) := {
  cache_new : C;
  cache_get : forall {E}, C -> K -> result E (option V * C);
  cache_insert : forall {E}, C -> K -> V -> result E C;
  cache_remove : forall {E}, C -> K -> result E (option V * C);
  cache_contains_key : C -> K -> bool;
  cache_evict : forall {E}, C -> Z -> result E (option (Z * Z * Z) * C);
  cache_extend : C -> C -> C
}.

Class CacheLaws (K V C : Type) `{Countable K} `{!CacheOps K V C} := {
  cache_ok : C -> Prop;
  cache_view : C -> gmap K V;
  cache_new_ok : cache_ok cache_new;
  cache_new_view : cache_view cache_new = ∅;
  cache_get_spec E c k :
    cache_ok c ->
    exists c', cache_get (E:=E) c k = Ok (cache_view c !! k, c') /\
               cache_ok c' /\ cache_view c' = cache_view c;
  cache_insert_spec E c k v :
    cache_ok c ->
    exists c', cache_insert (E:=E) c k v = Ok c' /\
               cache_ok c' /\ cache_view c' = <[k := v]> (cache_view c);
  cache_remove_spec E c k :
    cache_ok c ->
    exists c', cache_remove (E:=E) c k = Ok (cache_view c !! k, c') /\
               cache_ok c' /\ cache_view c' = delete k (cache_view c);
  cache_contains_key_spec c k :
    cache_contains_key c k = bool_decide (is_Some (cache_view c !! k));
  cache_evict_spec E c max_weight :
    cache_ok c -> (0 <= max_weight)%Z ->
    exists r c', cache_evict (E:=E) c max_weight = Ok (r, c') /\
                 cache_ok c' /\ cache_view c' ⊆ cache_view c;
  cache_extend_view c d k :
    cache_view (cache_extend c d) !! k = cache_view c !! k \/
    cache_view (cache_extend c d) !! k = cache_view d !! k
}.
