(* ===== verification/LfuCache.v ===== *)
(** * The least-frequently-used cache

    [graph/src/util/lfu_cache.rs].  The queue is the [priority-queue] crate,
    given by the class [PriorityQueue] with the documented behaviour of the
    operations the cache calls.  The state of the cache keeps the total weight
    of its entries beside the queue; [lfu_ok] says that it does, and that every
    access count is positive, which is what makes [remove] take out the entry
    it is asked for.

    Weights are sums of object sizes and frequencies count accesses: both stay
    far below [2^64] and are unbounded here.  Subtractions of weights are
    checked, as overflow checks do in debug builds: an underflow is [Panic]. *)

From S2P Require Import Prelude CacheInterface.

Definition STALE_PERIOD : Z := 100.

(** Priorities are [(stale, Reverse(frequency))]. *)
Abbreviation Priority := (bool * Z)%type.

Definition prio_leb (p q : Priority) : bool :=
  match p, q with
  | (false, _), (true, _) => true
  | (true, _), (false, _) => false
  | (_, f), (_, g) => (g <=? f)%Z
  end.

Record CacheEntry (K V : Type) := mkEntry {
  e_weight : Z; e_key : K; e_value : V; e_will_stale : bool
}.
Arguments mkEntry {K V}.
Arguments e_weight {K V}.
Arguments e_key {K V}.
Arguments e_value {K V}.
Arguments e_will_stale {K V}.

(** [indirect_weight] of [CacheWeight], the memory a value owns. *)
Class CacheWeight (A : Type) := {
  indirect_weight : A -> Z;
  indirect_weight_nonneg a : (0 <= indirect_weight a)%Z
}.

#[export, refine] Instance option_weight `{CacheWeight A} : CacheWeight (option A) := {
  indirect_weight o := match o with Some x => indirect_weight x | None => 0%Z end
}.
Proof. intros [x|]; [apply indirect_weight_nonneg|done]. Defined.

(** The [priority-queue] crate.  Entries compare equal when their keys do, so a
    queue is a finite map from keys to entries and priorities; [get_mut] gives
    access to an entry without changing its priority, [iter_mut] to all entries
    and priorities. *)
Class PriorityQueue (K V : Type) `{Countable K} := {
  PQ : Type;
  pq_view : PQ -> gmap K (CacheEntry K V * Priority);
  pq_new : PQ;
  pq_push : PQ -> CacheEntry K V -> Priority -> PQ;
  pq_change_priority_by : PQ -> K -> (Priority -> Priority) -> PQ;
  pq_get_mut : PQ -> K -> (CacheEntry K V -> CacheEntry K V) -> PQ;
  pq_pop : PQ -> option (CacheEntry K V * Priority) * PQ;
  pq_iter_mut : PQ -> (CacheEntry K V * Priority -> CacheEntry K V * Priority) -> PQ;
  pq_extend : PQ -> PQ -> PQ;
  pq_new_view : pq_view pq_new = ∅;
  pq_push_view q e p :
    pq_view q !! e_key e = None ->
    pq_view (pq_push q e p) = <[e_key e := (e, p)]> (pq_view q);
  pq_change_priority_by_view q k f :
    pq_view (pq_change_priority_by q k f) = alter (fun ep => (ep.1, f ep.2)) k (pq_view q);
  pq_get_mut_view q k f :
    pq_view (pq_get_mut q k f) = alter (fun ep => (f ep.1, ep.2)) k (pq_view q);
  pq_iter_mut_view q f :
    pq_view (pq_iter_mut q f) = f <$> pq_view q;
  pq_pop_empty q : pq_view q = ∅ -> (pq_pop q).1 = None;
  pq_pop_max q : pq_view q <> ∅ ->
    exists k e p, pq_view q !! k = Some (e, p) /\ (pq_pop q).1 = Some (e, p) /\
      pq_view (pq_pop q).2 = delete k (pq_view q) /\
      map_Forall (fun _ ep => prio_leb ep.2 p = true) (pq_view q);
  pq_extend_view q r k :
    match pq_view q !! k, pq_view r !! k with
    | None, None => pq_view (pq_extend q r) !! k = None
    | Some ep, None | None, Some ep => pq_view (pq_extend q r) !! k = Some ep
    | Some ep, Some ep' => exists e p, pq_view (pq_extend q r) !! k = Some (e, p) /\
        (e = ep.1 \/ e = ep'.1)
    end
}.

Section Lfu.
  Context {K V : Type} `{Countable K} `{!CacheWeight K} `{!CacheWeight V}.
  Context `{!PriorityQueue K V}.
  (** [size_of::<CacheEntry<K, V>>()] *)
  Context (entry_size : Z).

Record LfuCache := mkLfu {
  queue : PQ; total_weight : Z; stale_counter : Z
}.

Definition lfu_new : LfuCache :=
  {| queue := pq_new; total_weight := 0; stale_counter := 0 |}.

(** [CacheEntry::weight] *)
Definition entry_weight (key : K) (value : V) : Z :=
  (indirect_weight value + indirect_weight key + entry_size)%Z.

(** [a - b] on [usize] *)
Definition usize_sub {E} (a b : Z) : result E Z :=
  if (b <=? a)%Z then Ok (a - b)%Z else Panic.

Definition lfu_entry (c : LfuCache) (key : K) : option (CacheEntry K V) :=
  fst <$> (pq_view (queue c) !! key).

Definition set_queue (c : LfuCache) (q : PQ) : LfuCache :=
  {| queue := q; total_weight := total_weight c; stale_counter := stale_counter c |}.
Definition set_weight (c : LfuCache) (w : Z) : LfuCache :=
  {| queue := queue c; total_weight := w; stale_counter := stale_counter c |}.

(** [get_mut]: the entry, after counting the access *)
Definition lfu_get_mut (c : LfuCache) (key : K) : option (CacheEntry K V) * LfuCache :=
  let q := pq_change_priority_by (queue c) key (fun '(s, f) => (s, (f + 1)%Z)) in
  let q := pq_get_mut q key (fun e => mkEntry (e_weight e) (e_key e) (e_value e) false) in
  (fst <$> (pq_view q !! key), set_queue c q).

Definition lfu_insert {E} (c : LfuCache) (key : K) (value : V) : result E LfuCache :=
  let weight := entry_weight key value in
  let '(found, c) := lfu_get_mut c key in
  match found with
  | None =>
      let c := set_weight c (total_weight c + weight)%Z in
      Ok (set_queue c (pq_push (queue c) (mkEntry weight key value false) (false, 1%Z)))
  | Some entry =>
      let old_weight := e_weight entry in
      let q := pq_get_mut (queue c) key (fun e => mkEntry weight (e_key e) value (e_will_stale e)) in
      let c := set_queue c q in
      let? w := usize_sub (total_weight c) old_weight in
      Ok (set_weight c (w + weight)%Z)
  end.

Definition lfu_get (c : LfuCache) (key : K) : option V * LfuCache :=
  let '(found, c) := lfu_get_mut c key in (e_value <$> found, c).

(** [remove]: make the entry the first one, then pop it *)
Definition lfu_remove {E} (c : LfuCache) (key : K) : result E (option V * LfuCache) :=
  match pq_view (queue c) !! key with
  | None => Ok (None, c)
  | Some _ =>
      let q := pq_change_priority_by (queue c) key (fun _ => (true, 0%Z)) in
      match pq_pop q with
      | (Some (e, _), q) =>
          assert! bool_decide (e_key e = key) ;;
          let? w := usize_sub (total_weight c) (e_weight e) in
          Ok (Some (e_value e), set_weight (set_queue c q) w)
      | (None, q) => Ok (None, set_queue c q)
      end
  end.

Definition lfu_contains_key (c : LfuCache) (key : K) : bool :=
  bool_decide (is_Some (pq_view (queue c) !! key)).
Definition lfu_len (c : LfuCache) : nat := size (pq_view (queue c)).
Definition lfu_is_empty (c : LfuCache) : bool := bool_decide (lfu_len c = 0).

(** The loop of [evict_with_period]; every round pops an entry, so [S (lfu_len c)]
    rounds are enough. *)
Fixpoint evict_loop {E} (fuel : nat) (c : LfuCache) (max_weight evicted : Z)
  : result E (Z * LfuCache) :=
  match fuel with
  | O => Panic
  | S fuel =>
      if (total_weight c <=? max_weight)%Z then Ok (evicted, c)
      else
        match pq_pop (queue c) with
        | (None, _) => Panic
        | (Some (entry, _), q) =>
            let? w := usize_sub (total_weight c) (e_weight entry) in
            evict_loop fuel (set_weight (set_queue c q) w) max_weight
              (evicted + e_weight entry)%Z
        end
  end.

Definition mark_stale (ep : CacheEntry K V * Priority) : CacheEntry K V * Priority :=
  let '(e, p) := ep in
  (mkEntry (e_weight e) (e_key e) (e_value e) true, (e_will_stale e, p.2)).

Definition age_entries (c : LfuCache) (stale_period : Z) : LfuCache :=
  let counter := (stale_counter c + 1)%Z in
  if (counter =? stale_period)%Z then
    {| queue := pq_iter_mut (queue c) mark_stale;
       total_weight := total_weight c; stale_counter := 0 |}
  else
    {| queue := queue c; total_weight := total_weight c; stale_counter := counter |}.

Definition evict_with_period {E} (c : LfuCache) (max_weight stale_period : Z)
  : result E (option (Z * Z * Z) * LfuCache) :=
  if (total_weight c <=? max_weight)%Z then Ok (None, c)
  else
    let c := age_entries c stale_period in
    let old_weight := total_weight c in
    let? r := evict_loop (S (lfu_len c)) c max_weight 0 in
    let '(evicted, c) := r in
    Ok (Some (evicted, old_weight, total_weight c), c).

Definition evict {E} (c : LfuCache) (max_weight : Z)
  : result E (option (Z * Z * Z) * LfuCache) :=
  evict_with_period c max_weight STALE_PERIOD.

(** [Extend]: the entries of another cache go to the queue *)
Definition lfu_extend (c other : LfuCache) : LfuCache :=
  set_queue c (pq_extend (queue c) (queue other)).

(** ** The invariant *)

Abbreviation pqmap := (gmap K (CacheEntry K V * Priority)).

Definition weights (m : pqmap) : gmap K Z := (fun ep => e_weight ep.1) <$> m.

Definition entry_ok (k : K) (ep : CacheEntry K V * Priority) : Prop :=
  e_key ep.1 = k /\ (0 < ep.2.2)%Z /\ (0 <= e_weight ep.1)%Z.

(** The stored weight is the weight of the entries, every entry sits under its
    key and was accessed at least once. *)
Definition lfu_ok (c : LfuCache) : Prop :=
  map_Forall entry_ok (pq_view (queue c)) /\
  total_weight c = map_sum (weights (pq_view (queue c))).

(** The finite map a cache stands for *)
Definition lfu_view (c : LfuCache) : gmap K V :=
  (fun ep => e_value ep.1) <$> pq_view (queue c).

Lemma lfu_view_lookup c k :
  lfu_view c !! k = (fun ep => e_value ep.1) <$> pq_view (queue c) !! k.
Proof. apply lookup_fmap. Qed.

Lemma alter_as_insert {A} (f : A -> A) (m : gmap K A) k x :
  m !! k = Some x -> alter f k m = <[k := f x]> m.
Proof.
  intros Hk. apply map_eq. intros i. destruct (decide (k = i)) as [->|].
  - by rewrite lookup_alter_eq, lookup_insert_eq, Hk.
  - by rewrite lookup_alter_ne, lookup_insert_ne.
Qed.

Lemma weights_lookup m k : weights m !! k = (fun ep => e_weight ep.1) <$> m !! k.
Proof. apply lookup_fmap. Qed.

Lemma weights_alter f k (m : pqmap) :
  (forall ep, e_weight (f ep).1 = e_weight ep.1) -> weights (alter f k m) = weights m.
Proof.
  intros Hf. apply map_eq. intros i. rewrite !weights_lookup.
  destruct (decide (k = i)) as [->|]; [rewrite lookup_alter_eq|by rewrite lookup_alter_ne].
  destruct (m !! i); simpl; [by rewrite Hf|done].
Qed.

Lemma entry_ok_alter f k (m : pqmap) :
  (forall ep, entry_ok k ep -> entry_ok k (f ep)) ->
  map_Forall entry_ok m -> map_Forall entry_ok (alter f k m).
Proof.
  intros Hf Hm i ep. destruct (decide (k = i)) as [->|].
  - rewrite lookup_alter_eq, fmap_Some. intros (ep' & Hl & ->). by apply Hf, Hm.
  - rewrite lookup_alter_ne by done. apply Hm.
Qed.

Lemma lfu_ok_weight c k e p :
  lfu_ok c -> pq_view (queue c) !! k = Some (e, p) ->
  usize_sub (E:=Empty_set) (total_weight c) (e_weight e) = Ok (total_weight c - e_weight e)%Z /\
  (total_weight c - e_weight e)%Z = map_sum (weights (delete k (pq_view (queue c)))).
Proof.
  intros [Hm Hw] Hk. unfold usize_sub.
  assert (Hk' : weights (pq_view (queue c)) !! k = Some (e_weight e))
    by by rewrite weights_lookup, Hk.
  pose proof (map_sum_delete _ _ _ Hk') as Hs.
  unfold weights in Hs |- *. rewrite fmap_delete. fold (weights (pq_view (queue c))) in Hs |- *.
  assert (0 <= map_sum (delete k (weights (pq_view (queue c)))))%Z.
  { apply map_sum_nonneg. intros i w [_ Hi]%lookup_delete_Some.
    rewrite weights_lookup in Hi. apply fmap_Some in Hi as (ep & Hi & ->). by apply (Hm i). }
  rewrite (proj2 (Z.leb_le _ _)) by lia. split; [done|lia].
Qed.

Lemma usize_sub_any {E F} a b w : usize_sub (E:=E) a b = Ok w -> usize_sub (E:=F) a b = Ok w.
Proof. unfold usize_sub. destruct (_ <=? _)%Z; congruence. Qed.

(** ** Operations as finite-map operations *)

Lemma lfu_get_mut_spec c k :
  lfu_ok c ->
  let r := lfu_get_mut c k in
  lfu_ok r.2 /\ lfu_view r.2 = lfu_view c /\ r.1 = fst <$> pq_view (queue r.2) !! k /\
  (e_value <$> r.1) = lfu_view c !! k.
Proof.
  intros [Hm Hw]. unfold lfu_get_mut. cbn [fst snd].
  set (q := pq_get_mut _ _ _).
  assert (Hq : pq_view q = alter (fun ep : CacheEntry K V * Priority =>
     (mkEntry (e_weight ep.1) (e_key ep.1) (e_value ep.1) false, (ep.2.1, (ep.2.2 + 1)%Z))) k
     (pq_view (queue c))).
  { unfold q. rewrite pq_get_mut_view, pq_change_priority_by_view, alter_alter_eq.
    apply alter_ext. by intros [e [s f]]. }
  assert (Hv : lfu_view (set_queue c q) = lfu_view c).
  { apply map_eq. intros i. rewrite !lfu_view_lookup. cbn [queue set_queue]. rewrite Hq.
    destruct (decide (k = i)) as [->|]; [|by rewrite lookup_alter_ne].
    rewrite lookup_alter_eq. by destruct (pq_view (queue c) !! i). }
  split_and!; [|done|done|].
  - split; cbn [queue set_queue total_weight]; rewrite Hq.
    + apply entry_ok_alter; [|done]. intros [e [s f]]. unfold entry_ok. simpl. intuition lia.
    + by rewrite weights_alter.
  - rewrite <-Hv, lfu_view_lookup. cbn [queue set_queue]. by destruct (pq_view q !! k).
Qed.

Lemma lfu_insert_fresh c k v :
  lfu_ok c -> (0 <= entry_size)%Z -> pq_view (queue c) !! k = None ->
  let c' := set_queue (set_weight c (total_weight c + entry_weight k v)%Z)
    (pq_push (queue c) (mkEntry (entry_weight k v) k v false) (false, 1%Z)) in
  lfu_ok c' /\ lfu_view c' = <[k := v]> (lfu_view c).
Proof.
  intros [Hm Hw] Hs Hk. cbn zeta. unfold lfu_ok, lfu_view, weights.
  cbn [queue set_queue total_weight set_weight].
  rewrite pq_push_view by done. cbn [e_key]. rewrite !fmap_insert. cbn [fst e_weight e_value].
  split_and!; [|rewrite map_sum_insert, Hw; [unfold weights; lia|by rewrite lookup_fmap, Hk]|done].
  apply map_Forall_insert_2; [|done]. split_and!; [done|simpl; lia|]. simpl. unfold entry_weight.
  pose proof (indirect_weight_nonneg v). pose proof (indirect_weight_nonneg k). lia.
Qed.

Lemma lfu_insert_present {E} c k v e p :
  lfu_ok c -> (0 <= entry_size)%Z -> pq_view (queue c) !! k = Some (e, p) ->
  exists c',
    (let c := set_queue c (pq_get_mut (queue c) k
       (fun e => mkEntry (entry_weight k v) (e_key e) v (e_will_stale e))) in
     let? w := usize_sub (E:=E) (total_weight c) (e_weight e) in
     Ok (set_weight c (w + entry_weight k v)%Z)) = Ok c' /\
    lfu_ok c' /\ lfu_view c' = <[k := v]> (lfu_view c).
Proof.
  intros Hok Hs Hk. destruct (lfu_ok_weight _ _ _ _ Hok Hk) as [Hsub _].
  cbn zeta. cbn [total_weight set_queue]. rewrite (usize_sub_any _ _ _ Hsub). simpl.
  eexists. split; [done|]. destruct Hok as [Hm Hw].
  unfold lfu_ok, lfu_view, weights. cbn [queue set_queue total_weight set_weight].
  rewrite pq_get_mut_view, (alter_as_insert _ _ _ _ Hk).
  rewrite !fmap_insert. cbn [fst e_weight e_value]. split_and!; [|
    erewrite map_sum_override by (by rewrite lookup_fmap, Hk); cbn [fst]; rewrite Hw; done|done].
  apply map_Forall_insert_2; [|done]. specialize (Hm _ _ Hk) as (? & ? & ?).
  split_and!; [done|done|]. simpl. unfold entry_weight.
  pose proof (indirect_weight_nonneg v). pose proof (indirect_weight_nonneg k). lia.
Qed.

Lemma lfu_insert_spec {E} c k v :
  lfu_ok c -> (0 <= entry_size)%Z ->
  exists c', lfu_insert (E:=E) c k v = Ok c' /\ lfu_ok c' /\
             lfu_view c' = <[k := v]> (lfu_view c).
Proof.
  intros Hok Hs. unfold lfu_insert.
  destruct (lfu_get_mut_spec c k Hok) as (Hok' & Hview & Hr & _).
  destruct (lfu_get_mut c k) as [found c1]. cbn [fst snd] in *. rewrite <-Hview.
  destruct (pq_view (queue c1) !! k) as [[e p]|] eqn:Hk; simpl in Hr; subst found.
  - by apply lfu_insert_present with p.
  - eexists. split; [done|]. by apply (lfu_insert_fresh c1).
Qed.

(** No other entry has the priority [(true, Reverse(0))], which is above all. *)
Lemma prio_top p : prio_leb (true, 0%Z) p = true -> (0 <= p.2)%Z -> p = (true, 0%Z).
Proof. destruct p as [[] f]; simpl; [|done]. intros ?%Z.leb_le ?. f_equal. lia. Qed.

(** Popping one entry *)
Lemma lfu_pop_spec c :
  lfu_ok c -> pq_view (queue c) <> ∅ ->
  exists k e p w,
    pq_view (queue c) !! k = Some (e, p) /\ e_key e = k /\ (pq_pop (queue c)).1 = Some (e, p) /\
    (forall E, usize_sub (E:=E) (total_weight c) (e_weight e) = Ok w) /\
    w = (total_weight c - e_weight e)%Z /\ (0 <= e_weight e)%Z /\
    pq_view (pq_pop (queue c)).2 = delete k (pq_view (queue c)) /\
    lfu_ok (set_weight (set_queue c (pq_pop (queue c)).2) w) /\
    map_Forall (fun _ ep => prio_leb ep.2 p = true) (pq_view (queue c)).
Proof.
  intros Hok Hne. destruct (pq_pop_max _ Hne) as (k & e & p & Hk & Hpop & Hv & Hmax).
  destruct (lfu_ok_weight _ _ _ _ Hok Hk) as [Hsub Hw]. destruct Hok as [Hm _].
  pose proof (Hm _ _ Hk) as (He & _ & Hnn).
  exists k, e, p, (total_weight c - e_weight e)%Z. split_and!; try done.
  - intros E. by eapply usize_sub_any.
  - split; cbn [queue set_queue set_weight total_weight]; rewrite Hv; [|done].
    by apply map_Forall_delete.
Qed.

Lemma lfu_remove_spec {E} c k :
  lfu_ok c ->
  exists c', lfu_remove (E:=E) c k = Ok (lfu_view c !! k, c') /\ lfu_ok c' /\
             lfu_view c' = delete k (lfu_view c).
Proof.
  intros Hok. unfold lfu_remove. rewrite lfu_view_lookup.
  destruct (pq_view (queue c) !! k) as [[e p]|] eqn:Hk.
  2:{ exists c. split_and!; [done..|]. rewrite delete_id; [done|].
      by rewrite lfu_view_lookup, Hk. }
  set (q := pq_change_priority_by (queue c) k (fun _ => (true, 0%Z))).
  assert (Hq : pq_view q = <[k := (e, (true, 0%Z))]> (pq_view (queue c)))
    by (unfold q; by rewrite pq_change_priority_by_view, (alter_as_insert _ _ _ _ Hk)).
  destruct (pq_pop_max q) as (k' & e' & p' & Hk' & Hpop & Hv & Hmax).
  { rewrite Hq. apply insert_non_empty. }
  pose proof Hok as [Hm Hw].
  assert (k' = k) as ->.
  { specialize (Hmax k). rewrite Hq, lookup_insert_eq in Hmax. specialize (Hmax _ eq_refl).
    rewrite Hq in Hk'. destruct (decide (k = k')) as [|Hne]; [done|].
    rewrite lookup_insert_ne in Hk' by done. apply Hm in Hk' as (_ & Hf & _). simpl in *.
    apply prio_top in Hmax; [subst; simpl in *; lia|lia]. }
  rewrite Hq, lookup_insert_eq in Hk'. simplify_eq.
  destruct (pq_pop q) as [o q']. simpl in Hpop, Hv. subst o.
  specialize (Hm _ _ Hk) as (Hkey & _). simpl in Hkey. rewrite bool_decide_true by done.
  destruct (lfu_ok_weight _ _ _ _ Hok Hk) as [Hsub Hsum].
  rewrite (usize_sub_any _ _ _ Hsub). simpl. eexists. split; [done|].
  unfold lfu_ok, lfu_view. cbn [queue set_queue set_weight total_weight].
  rewrite Hv, Hq, delete_insert_eq, fmap_delete. split_and!; [|done|done].
  apply map_Forall_delete, Hok.
Qed.

(** ** Eviction *)

(** [c'] is [c] after evicting: nothing but entries of [c] is left, evicted
    entries were at least as stale and as rarely used as the ones kept, and the
    last one had to go. *)
Record evicted_to (c c' : LfuCache) (max_weight : Z) : Prop := {
  ev_sub : pq_view (queue c') ⊆ pq_view (queue c);
  ev_weight : (total_weight c' <= max_weight)%Z;
  ev_order : forall k ep k' ep',
    pq_view (queue c) !! k = Some ep -> pq_view (queue c') !! k = None ->
    pq_view (queue c') !! k' = Some ep' -> prio_leb ep'.2 ep.2 = true;
  ev_needed : pq_view (queue c') = pq_view (queue c) \/
    exists k e p, pq_view (queue c) !! k = Some (e, p) /\ pq_view (queue c') !! k = None /\
      (max_weight < total_weight c' + e_weight e)%Z
}.

Lemma lfu_ok_empty c : lfu_ok c -> pq_view (queue c) = ∅ -> total_weight c = 0%Z.
Proof. intros [_ Hw] Hv. rewrite Hw, Hv. unfold weights. by rewrite fmap_empty, map_sum_empty. Qed.

Lemma evicted_to_step c c1 c' k e p max_weight :
  pq_view (queue c) !! k = Some (e, p) ->
  pq_view (queue c1) = delete k (pq_view (queue c)) ->
  map_Forall (fun _ ep => prio_leb ep.2 p = true) (pq_view (queue c)) ->
  (max_weight < total_weight c1 + e_weight e)%Z ->
  lfu_ok c1 -> lfu_ok c' ->
  evicted_to c1 c' max_weight -> evicted_to c c' max_weight.
Proof.
  intros Hk Hv Hmax Hneed [_ Hw1] [_ Hw'] [Hsub Hwt Hord Hlast]. rewrite Hv in *.
  assert (Hk' : pq_view (queue c') !! k = None).
  { apply eq_None_not_Some. intros [x Hx]. eapply lookup_weaken in Hx; [|done].
    by rewrite lookup_delete_eq in Hx. }
  split; [by etrans; [|apply delete_subseteq]|done| |].
  - intros i ep j ep' Hi Hi' Hj. destruct (decide (i = k)) as [->|Hne].
    + simplify_eq. eapply lookup_weaken in Hj; [|done].
      apply lookup_delete_Some in Hj as [_ Hj]. by apply (Hmax j).
    + eapply (Hord i); [by rewrite lookup_delete_ne|done..].
  - right. destruct Hlast as [Heq|(i & e' & p' & [_ Hi]%lookup_delete_Some & Hi' & Hlt)].
    + exists k, e, p. split_and!; [done..|]. rewrite Hw', Heq, <-Hw1. done.
    + by exists i, e', p'.
Qed.

Lemma evict_loop_spec {E} fuel c max_weight evicted :
  lfu_ok c -> (0 <= max_weight)%Z -> lfu_len c < fuel ->
  exists evicted' c',
    evict_loop (E:=E) fuel c max_weight evicted = Ok (evicted', c') /\
    lfu_ok c' /\ (evicted' + total_weight c' = evicted + total_weight c)%Z /\
    evicted_to c c' max_weight.
Proof.
  revert c evicted. induction fuel as [|fuel IH]; intros c evicted Hok Hmw Hlen; [lia|].
  cbn [evict_loop]. destruct (total_weight c <=? max_weight)%Z eqn:Hle.
  { apply Z.leb_le in Hle. exists evicted, c. split_and!; [done..|]. split; [done|done| |by left].
    intros k ep k' ep' Hk Hk' _. congruence. }
  apply Z.leb_gt in Hle.
  assert (Hne : pq_view (queue c) <> ∅)
    by (intros Hv; rewrite (lfu_ok_empty _ Hok Hv) in Hle; lia).
  destruct (lfu_pop_spec c Hok Hne) as (k & e & p & w & Hk & _ & Hpop & Hsub & Hw & Hnn & Hv & Hok1 & Hmax).
  destruct (pq_pop (queue c)) as [o q] eqn:Hq. cbn [fst snd] in *. subst o. rewrite Hsub. simpl.
  destruct (IH (set_weight (set_queue c q) w) (evicted + e_weight e)%Z Hok1 Hmw)
    as (ev' & c' & Hrun & Hok' & Hsum & Hev).
  { unfold lfu_len in *. cbn [queue set_queue set_weight]. rewrite Hv, map_size_delete, Hk.
    assert (size (pq_view (queue c)) <> 0) by by rewrite map_size_empty_iff. lia. }
  exists ev', c'. split_and!; [done|done|cbn [total_weight set_weight] in Hsum; lia|].
  apply (evicted_to_step c (set_weight (set_queue c q) w) c' k e p); try done.
  cbn [total_weight set_weight]. lia.
Qed.

Lemma age_entries_spec c stale_period :
  lfu_ok c ->
  let c' := age_entries c stale_period in
  lfu_ok c' /\ lfu_view c' = lfu_view c /\ total_weight c' = total_weight c.
Proof.
  intros [Hm Hw]. unfold age_entries. destruct (_ =? _)%Z; [|done].
  unfold lfu_ok, lfu_view, weights. cbn [queue total_weight]. rewrite pq_iter_mut_view.
  rewrite <-!map_fmap_compose. split_and!; [| | |done].
  - intros k ep (ep' & <- & Hk)%lookup_fmap_Some. specialize (Hm _ _ Hk).
    destruct ep' as [e [s f]]. done.
  - rewrite Hw. unfold weights. f_equal. apply map_fmap_ext. by intros k [e p] _.
  - apply map_fmap_ext. by intros k [e p] _.
Qed.

Lemma evicted_to_view c c' max_weight : evicted_to c c' max_weight -> lfu_view c' ⊆ lfu_view c.
Proof. intros [Hsub _ _ _]. by apply map_fmap_mono. Qed.

Lemma evict_with_period_spec {E} c max_weight stale_period :
  lfu_ok c -> (0 <= max_weight)%Z ->
  (total_weight c <= max_weight)%Z /\ evict_with_period (E:=E) c max_weight stale_period = Ok (None, c)
  \/ exists evicted c',
    evict_with_period (E:=E) c max_weight stale_period
    = Ok (Some (evicted, total_weight c, total_weight c'), c') /\
    lfu_ok c' /\ (evicted + total_weight c' = total_weight c)%Z /\
    evicted_to (age_entries c stale_period) c' max_weight.
Proof.
  intros Hok Hmw. unfold evict_with_period. destruct (_ <=? _)%Z eqn:Hle.
  { left. by apply Z.leb_le in Hle. }
  right. destruct (age_entries_spec c stale_period Hok) as (Hok1 & Hview & Hw).
  destruct (evict_loop_spec (E:=E) (S (lfu_len (age_entries c stale_period)))
    (age_entries c stale_period) max_weight 0 Hok1 Hmw) as (ev & c' & Hrun & Hok' & Hsum & Hev); [lia|].
  exists ev, c'. rewrite Hrun. simpl. rewrite Hw in *. split_and!; [done|done|lia|done].
Qed.

(** ** The interface, discharged *)

#[export] Instance lfu_ops : CacheOps K V LfuCache := {
  cache_new := lfu_new;
  cache_get E c k := Ok (lfu_get c k);
  cache_insert E := lfu_insert;
  cache_remove E := lfu_remove;
  cache_contains_key := lfu_contains_key;
  cache_evict E := evict;
  cache_extend := lfu_extend
}.

Lemma lfu_new_spec : lfu_ok lfu_new /\ lfu_view lfu_new = ∅.
Proof.
  unfold lfu_ok, lfu_view, lfu_new. cbn [queue total_weight].
  assert (Hv : pq_view (pq_new (K:=K) (V:=V)) = ∅) by apply pq_new_view.
  rewrite Hv. unfold weights. split; [split; [apply map_Forall_empty|]|]; by rewrite fmap_empty.
Qed.

Lemma lfu_get_spec c k :
  lfu_ok c ->
  exists c', lfu_get c k = (lfu_view c !! k, c') /\ lfu_ok c' /\ lfu_view c' = lfu_view c.
Proof.
  intros Hok. unfold lfu_get. destruct (lfu_get_mut_spec c k Hok) as (Hok' & Hv & _ & Hr).
  destruct (lfu_get_mut c k) as [found c']. simpl in *. exists c'. by rewrite Hr.
Qed.

Lemma lfu_contains_key_spec c k :
  lfu_contains_key c k = bool_decide (is_Some (lfu_view c !! k)).
Proof.
  unfold lfu_contains_key. rewrite lfu_view_lookup.
  apply bool_decide_ext. by rewrite fmap_is_Some.
Qed.

Lemma lfu_extend_view c d k :
  lfu_view (lfu_extend c d) !! k = lfu_view c !! k \/
  lfu_view (lfu_extend c d) !! k = lfu_view d !! k.
Proof.
  rewrite !lfu_view_lookup. unfold lfu_extend. cbn [queue set_queue].
  pose proof (pq_extend_view (queue c) (queue d) k) as Hx.
  destruct (pq_view (queue c) !! k), (pq_view (queue d) !! k);
    [destruct Hx as (e & p' & Hx & [He|He]); rewrite Hx; subst e|rewrite Hx..]; auto.
Qed.

Lemma evict_spec {E} c max_weight :
  lfu_ok c -> (0 <= max_weight)%Z ->
  exists r c', evict (E:=E) c max_weight = Ok (r, c') /\ lfu_ok c' /\ lfu_view c' ⊆ lfu_view c.
Proof.
  intros Hok Hmw. unfold evict.
  destruct (evict_with_period_spec (E:=E) c max_weight STALE_PERIOD Hok Hmw)
    as [[_ Hrun]|(ev & c' & Hrun & Hok' & _ & Hev)]; rewrite Hrun; eexists _, _;
    (split; [done|]); [done|]. split; [done|].
  destruct (age_entries_spec c STALE_PERIOD Hok) as (_ & <- & _). by eapply evicted_to_view.
Qed.

Context (entry_size_nonneg : (0 <= entry_size)%Z).

#[export, refine] Instance lfu_laws : CacheLaws K V LfuCache := {
  cache_ok := lfu_ok;
  cache_view := lfu_view
}.
Proof.
  - apply lfu_new_spec.
  - apply lfu_new_spec.
  - intros E c k Hok. destruct (lfu_get_spec c k Hok) as (c' & Hg & ?). exists c'.
    cbn [cache_get lfu_ops]. by rewrite Hg.
  - intros. by apply lfu_insert_spec.
  - intros. by apply lfu_remove_spec.
  - apply lfu_contains_key_spec.
  - intros. by apply evict_spec.
  - apply lfu_extend_view.
Defined.
End Lfu.
