(* ===== verification/LfuProps.v ===== *)
(** * Correctness of the least-frequently-used cache

    A run of any sequence of operations refines a finite map that may lose
    entries on [evict]; [evict] respects its bound and its order; and [extend]
    leaves the stored weight behind.  A priority queue kept as a finite map
    shows that the assumptions on the crate can be met. *)

From S2P Require Import Prelude CacheInterface LfuCache.

(** ** Runs *)

Section Runs.
  Context {K V : Type} `{Countable K} `{!CacheWeight K} `{!CacheWeight V}.
  Context `{!PriorityQueue K V} (entry_size : Z).

(** One call of a method of the cache *)
Inductive lfu_call :=
| CallGet (k : K)
| CallInsert (k : K) (v : V)
| CallRemove (k : K)
| CallContains (k : K)
| CallEvict (max_weight : Z).

Inductive lfu_answer :=
| AnsValue (v : option V)
| AnsBool (b : bool)
| AnsUnit.

Definition lfu_do (call : lfu_call) (c : LfuCache) : result Empty_set (lfu_answer * LfuCache) :=
  match call with
  | CallGet k => let '(v, c) := lfu_get c k in Ok (AnsValue v, c)
  | CallInsert k v => let? c := lfu_insert entry_size c k v in Ok (AnsUnit, c)
  | CallRemove k => let? r := lfu_remove c k in Ok (AnsValue r.1, r.2)
  | CallContains k => Ok (AnsBool (lfu_contains_key c k), c)
  | CallEvict w => let? r := evict c w in Ok (AnsUnit, r.2)
  end.

Fixpoint lfu_run (calls : list lfu_call) (c : LfuCache)
  : result Empty_set (list lfu_answer * LfuCache) :=
  match calls with
  | [] => Ok ([], c)
  | call :: calls =>
      let? r := lfu_do call c in
      let? rs := lfu_run calls r.2 in
      Ok (r.1 :: rs.1, rs.2)
  end.

(** The specification: a finite map; [evict] may drop entries. *)
Inductive map_does : lfu_call -> gmap K V -> lfu_answer -> gmap K V -> Prop :=
| does_get k m : map_does (CallGet k) m (AnsValue (m !! k)) m
| does_insert k v m : map_does (CallInsert k v) m AnsUnit (<[k := v]> m)
| does_remove k m : map_does (CallRemove k) m (AnsValue (m !! k)) (delete k m)
| does_contains k m :
    map_does (CallContains k) m (AnsBool (bool_decide (is_Some (m !! k)))) m
| does_evict w m m' : m' ⊆ m -> map_does (CallEvict w) m AnsUnit m'.

Inductive map_runs : list lfu_call -> gmap K V -> list lfu_answer -> gmap K V -> Prop :=
| runs_nil m : map_runs [] m [] m
| runs_cons call calls m a m' answers m'' :
    map_does call m a m' -> map_runs calls m' answers m'' ->
    map_runs (call :: calls) m (a :: answers) m''.

Definition call_ok (call : lfu_call) : bool :=
  match call with CallEvict w => (0 <=? w)%Z | _ => true end.

Lemma lfu_do_refines call c :
  (0 <= entry_size)%Z -> call_ok call = true -> lfu_ok c ->
  exists a c', lfu_do call c = Ok (a, c') /\ lfu_ok c' /\
               map_does call (lfu_view c) a (lfu_view c').
Proof.
  intros Hs Hcall Hok. destruct call as [k|k v|k|k|w]; cbn [lfu_do].
  - destruct (lfu_get_spec c k Hok) as (c' & -> & Hok' & Hv). eexists _, c'.
    rewrite Hv. split_and!; [done..|constructor].
  - destruct (lfu_insert_spec (E:=Empty_set) entry_size c k v Hok Hs) as (c' & -> & Hok' & Hv).
    eexists _, c'. rewrite Hv. split_and!; [done..|constructor].
  - destruct (lfu_remove_spec (E:=Empty_set) c k Hok) as (c' & -> & Hok' & Hv).
    eexists _, c'. rewrite Hv. split_and!; [done..|constructor].
  - eexists _, c. rewrite lfu_contains_key_spec. split_and!; [done..|constructor].
  - apply Z.leb_le in Hcall.
    destruct (evict_spec (E:=Empty_set) c w Hok Hcall) as (r & c' & -> & Hok' & Hv).
    eexists _, c'. split_and!; [done..|by constructor].
Qed.

(** C29: from the empty cache, every sequence of calls of [get], [insert],
    [remove], [contains_key] and [evict] (with eviction bounds that are not
    negative) runs to its end: no assertion fails, no weight underflows, no
    eviction finds the cache empty.  Its answers are those of a finite map that
    loses entries only when evicting, and the stored weight is the weight of the
    entries at the end.  [extend] is not among the calls: it breaks the weight
    ([extend_breaks_weight]).  Weights and frequencies are integers without a
    bound. *)
Theorem lfu_refines_map (calls : list lfu_call) :
  (0 <= entry_size)%Z -> forallb call_ok calls = true ->
  exists answers c,
    lfu_run calls lfu_new = Ok (answers, c) /\
    map_runs calls ∅ answers (lfu_view c) /\
    total_weight c = map_sum (weights (pq_view (queue c))).
Proof.
  intros Hs Hcalls. destruct lfu_new_spec as [Hok Hv]. rewrite <-Hv. clear Hv.
  revert Hok. generalize lfu_new. induction calls as [|call calls IH]; intros c Hok.
  - exists [], c. split_and!; [done|constructor|apply Hok].
  - simpl in Hcalls. apply andb_true_iff in Hcalls as [Hcall Hcalls].
    destruct (lfu_do_refines call c Hs Hcall Hok) as (a & c' & Hdo & Hok' & Hstep).
    destruct (IH Hcalls c' Hok') as (answers & c'' & Hrun & Hruns & Hw).
    exists (a :: answers), c''. simpl. rewrite Hdo. simpl. rewrite Hrun. simpl.
    split_and!; [done|by econstructor|done].
Qed.

(** [evict_with_period] on a consistent cache either has nothing to do or
    returns the evicted, the old and the new weight; the new weight respects
    the bound, what is left was there before, every evicted entry was at least
    as stale and as rarely used as every entry kept, and without the last
    eviction the bound would not have been met. *)
Theorem evict_with_period_correct (c : LfuCache (K:=K) (V:=V)) max_weight stale_period :
  lfu_ok c -> (0 <= max_weight)%Z ->
  (total_weight c <= max_weight)%Z /\
    evict_with_period (E:=Empty_set) c max_weight stale_period = Ok (None, c)
  \/ exists evicted c',
    evict_with_period (E:=Empty_set) c max_weight stale_period
    = Ok (Some (evicted, total_weight c, total_weight c'), c') /\
    lfu_ok c' /\ (evicted + total_weight c' = total_weight c)%Z /\
    evicted_to (age_entries c stale_period) c' max_weight.
Proof. apply evict_with_period_spec. Qed.

(** [extend] adds entries without adding their weight: after extending an
    empty cache with one that holds a single entry, removing that entry
    underflows the total weight. *)
Theorem extend_breaks_weight (k : K) (v : V) (c : LfuCache) :
  (0 < entry_size)%Z ->
  lfu_insert (E:=Empty_set) entry_size lfu_new k v = Ok c ->
  lfu_remove (E:=Empty_set) (lfu_extend lfu_new c) k = Panic.
Proof.
  intros Hs Hins. destruct lfu_new_spec as [Hnew Hv].
  assert (Hview : pq_view (queue c) = {[k := (mkEntry (entry_weight entry_size k v) k v false, (false, 1%Z))]}).
  { assert (Hempty : pq_view (pq_new (K:=K) (V:=V)) = ∅) by apply pq_new_view.
    revert Hins. unfold lfu_insert, lfu_get_mut, lfu_new. cbn [queue set_queue].
    rewrite pq_get_mut_view, pq_change_priority_by_view, Hempty, !alter_empty, lookup_empty.
    intros [= <-]. cbn [queue set_queue set_weight]. rewrite pq_push_view; cbn [e_key];
      by rewrite pq_get_mut_view, pq_change_priority_by_view, Hempty, !alter_empty. }
  unfold lfu_remove, lfu_extend. cbn [queue set_queue total_weight].
  set (q := pq_extend _ _).
  assert (Hq : pq_view q = pq_view (queue c)).
  { apply map_eq. intros i. pose proof (pq_extend_view (queue lfu_new) (queue c) i) as Hx.
    assert (Hempty : pq_view (queue (lfu_new (K:=K) (V:=V))) = ∅) by apply pq_new_view.
    rewrite Hempty, lookup_empty in Hx. fold q in Hx.
    destruct (pq_view (queue c) !! i); by rewrite Hx. }
  rewrite Hq, Hview, lookup_singleton_eq.
  set (q' := pq_change_priority_by q k _).
  assert (Hq' : pq_view q' = {[k := (mkEntry (entry_weight entry_size k v) k v false, (true, 0%Z))]}).
  { unfold q'. by rewrite pq_change_priority_by_view, Hq, Hview, alter_singleton_eq. }
  destruct (pq_pop_max q') as (k' & e & p & Hk' & Hpop & _).
  { rewrite Hq'. apply map_non_empty_singleton. }
  rewrite Hq' in Hk'. apply lookup_singleton_Some in Hk' as [<- [= <- <-]].
  destruct (pq_pop q') as [o q'']. simpl in Hpop. subst o. cbn [e_key].
  rewrite bool_decide_true by done. unfold usize_sub. cbn [total_weight lfu_new e_weight].
  pose proof (indirect_weight_nonneg v). pose proof (indirect_weight_nonneg k).
  unfold entry_weight. by rewrite (proj2 (Z.leb_gt _ _)) by lia.
Qed.
End Runs.

(** ** A priority queue *)

Section QueueModel.
  Context {K V : Type} `{Countable K}.

Abbreviation qmap := (gmap K (CacheEntry K V * Priority)).

(** The entry to pop from a queue kept as a finite map *)
Definition model_max (q : qmap) : option (K * (CacheEntry K V * Priority)) :=
  foldr (fun kep best =>
    match best with
    | Some b => if prio_leb kep.2.2 b.2.2 then Some b else Some kep
    | None => Some kep
    end) None (map_to_list q).

Lemma prio_leb_refl p : prio_leb p p = true.
Proof. destruct p as [[] f]; simpl; apply Z.leb_le; lia. Qed.

Lemma prio_leb_trans p q r : prio_leb p q = true -> prio_leb q r = true -> prio_leb p r = true.
Proof.
  destruct p as [[] f], q as [[] g], r as [[] h]; simpl; try done;
    rewrite !Z.leb_le; intros; lia.
Qed.

Lemma prio_leb_total p q : prio_leb p q = false -> prio_leb q p = true.
Proof.
  destruct p as [[] f], q as [[] g]; simpl; try done; rewrite Z.leb_gt, Z.leb_le; lia.
Qed.

Lemma model_max_spec (l : list (K * (CacheEntry K V * Priority))) :
  match foldr (fun kep best =>
    match best with
    | Some b => if prio_leb kep.2.2 b.2.2 then Some b else Some kep
    | None => Some kep
    end) None l with
  | Some b => b ∈ l /\ Forall (fun kep => prio_leb kep.2.2 b.2.2 = true) l
  | None => l = []
  end.
Proof.
  induction l as [|kep l IH]; simpl; [done|].
  destruct (foldr _ None l) as [b|].
  - destruct IH as [Hb Hl]. destruct (prio_leb kep.2.2 b.2.2) eqn:Hle.
    + split; [by right|by constructor].
    + split; [left|]. constructor; [apply prio_leb_refl|].
      eapply Forall_impl; [exact Hl|]. intros x Hx. eapply prio_leb_trans; [exact Hx|].
      by apply prio_leb_total.
  - subst l. split; [left|]. constructor; [apply prio_leb_refl|constructor].
Qed.

Definition model_pop (q : qmap) : option (CacheEntry K V * Priority) * qmap :=
  match model_max q with
  | Some (k, ep) => (Some ep, delete k q)
  | None => (None, q)
  end.

#[export, refine] Instance model_queue : PriorityQueue K V := {
  PQ := qmap;
  pq_view q := q;
  pq_new := ∅;
  pq_push q e p := <[e_key e := (e, p)]> q;
  pq_change_priority_by q k f := alter (fun ep => (ep.1, f ep.2)) k q;
  pq_get_mut q k f := alter (fun ep => (f ep.1, ep.2)) k q;
  pq_pop := model_pop;
  pq_iter_mut q f := f <$> q;
  pq_extend q r := q ∪ r
}.
Proof.
  - done.
  - done.
  - done.
  - done.
  - done.
  - intros q ->. unfold model_pop, model_max. by rewrite map_to_list_empty.
  - intros q Hne. unfold model_pop, model_max.
    pose proof (model_max_spec (map_to_list q)) as Hs.
    destruct (foldr _ None (map_to_list q)) as [[k [e p]]|].
    + destruct Hs as [Hin Hall]. apply elem_of_map_to_list in Hin. exists k, e, p.
      split_and!; [done..|]. intros i ep Hi. apply elem_of_map_to_list in Hi.
      rewrite Forall_forall in Hall. by apply (Hall (i, ep)).
    + by apply map_to_list_empty_iff in Hs.
  - intros q r k. rewrite lookup_union. destruct (q !! k) as [[e p]|], (r !! k); simpl; eauto.
Defined.
End QueueModel.

(** Weights of strings by their length *)
#[export, refine] Instance string_weight : CacheWeight string := {
  indirect_weight s := Z.of_nat (String.length s)
}.
Proof. intros. lia. Defined.

Definition example_calls : list (lfu_call (K:=string) (V:=string)) :=
  [CallInsert "a" "xx"; CallInsert "b" "y"; CallGet "a"; CallEvict 12; CallContains "b";
   CallInsert "a" "zz"; CallRemove "a"; CallRemove "c"].

Definition example_cache : LfuCache (K:=string) (V:=string) :=
  match lfu_run 8 [CallInsert "a" "xx"; CallInsert "b" "y"; CallGet "a"] lfu_new with
  | Ok (_, c) => c
  | _ => lfu_new
  end.

Lemma lfu_refines_map_witness :
  exists answers c,
    lfu_run 8 example_calls lfu_new = Ok (answers, c) /\
    map_runs example_calls ∅ answers (lfu_view c) /\
    total_weight c = map_sum (weights (pq_view (queue c))).
Proof. by apply (lfu_refines_map 8 example_calls); [lia|vm_compute]. Defined.

Lemma example_cache_ok : lfu_ok example_cache.
Proof.
  split; [|by vm_compute]. apply map_Forall_to_list.
  vm_compute. repeat constructor; discriminate.
Qed.

Lemma evict_with_period_correct_witness :
  (total_weight example_cache <= 12)%Z /\
    evict_with_period (E:=Empty_set) example_cache 12 1 = Ok (None, example_cache)
  \/ exists evicted c',
    evict_with_period (E:=Empty_set) example_cache 12 1
    = Ok (Some (evicted, total_weight example_cache, total_weight c'), c') /\
    lfu_ok c' /\ (evicted + total_weight c' = total_weight example_cache)%Z /\
    evicted_to (age_entries example_cache 1) c' 12.
Proof. apply (evict_with_period_correct example_cache 12 1); [apply example_cache_ok|lia]. Defined.

Lemma extend_breaks_weight_witness :
  exists c, lfu_insert (K:=string) (V:=string) (E:=Empty_set) 8 lfu_new "a" "xx" = Ok c /\
            lfu_remove (E:=Empty_set) (lfu_extend lfu_new c) "a" = Panic.
Proof.
  eexists. split; [reflexivity|]. by apply (extend_breaks_weight 8 "a" "xx"); [lia|].
Defined.
