(* ===== verification/EntityCache.v ===== *)
(** * The entity cache of a block

    [EntityCache] of [graph/src/components/store/cache.rs].

    The cache sits between the mappings of a subgraph and the store: reads go
    through an [LfuCache] of entities of the store and see the updates made so
    far, updates of a running handler are kept apart until the handler ends, and
    at the end of the block the updates become modifications for the store.

    The [LfuCache] enters through [CacheOps]; the store through [EntityReader].
    The order in which a [HashMap] is iterated is left open by the language: it is
    the parameter [hash_iter]. *)

From S2P Require Import Prelude GraphqlAst Scalars RuntimeValue Values Names StoreTypes StoreProps.
From S2P Require Import Schema EntityValidate CacheInterface.

Inductive SetError (QErr : Type) :=
| SetIdConflict (entity_type prev_id entity_id : string)
| SetIdValue (e : IdValueError)
| SetQuery (e : QErr)
| SetReadBack (key : EntityKey)
| SetInvalid (e : EntityValidationError).
Arguments SetIdConflict {QErr}.
Arguments SetIdValue {QErr}.
Arguments SetQuery {QErr}.
Arguments SetReadBack {QErr}.
Arguments SetInvalid {QErr}.

(** The parts of [WritableStore] the cache uses *)
Record EntityReader (QErr : Type) := {
  rd_get : EntityKey -> result QErr (option Entity);
  rd_get_many : gmap EntityType (list string) -> result QErr (gmap EntityType (list Entity));
  rd_input_schema : Schema
}.
Arguments rd_get {QErr}.
Arguments rd_get_many {QErr}.
Arguments rd_input_schema {QErr}.

Section EntityCache.
  Context `{Hex}.
  Context {C : Type} `{!CacheOps EntityKey (option Entity) C}.
  Context {QErr DataSource : Type}.
  Context (hash_iter : gmap EntityKey EntityOp -> list (EntityKey * EntityOp)).
  Context (store : EntityReader QErr).

Record EntityCache := mkCache {
  ec_current : C;
  ec_updates : gmap EntityKey EntityOp;
  ec_handler_updates : gmap EntityKey EntityOp;
  ec_in_handler : bool;
  ec_data_sources : list DataSource
}.

Definition ec_new : EntityCache := mkCache cache_new ∅ ∅ false [].

Definition ec_with_current (current : C) : EntityCache := mkCache current ∅ ∅ false [].

Definition ec_enter_handler {E} (c : EntityCache) : result E EntityCache :=
  assert! negb (ec_in_handler c) ;;
  Ok (mkCache (ec_current c) (ec_updates c) (ec_handler_updates c) true (ec_data_sources c)).

(** [updates.entry(key)]: insert or accumulate *)
Definition accumulate_entry (key : EntityKey) (op : EntityOp) (m : gmap EntityKey EntityOp)
  : gmap EntityKey EntityOp :=
  match m !! key with
  | None => <[key := op]> m
  | Some entry => <[key := op_accumulate entry op]> m
  end.

Definition ec_entity_op (c : EntityCache) (key : EntityKey) (op : EntityOp) : EntityCache :=
  if ec_in_handler c
  then mkCache (ec_current c) (ec_updates c) (accumulate_entry key op (ec_handler_updates c))
         (ec_in_handler c) (ec_data_sources c)
  else mkCache (ec_current c) (accumulate_entry key op (ec_updates c)) (ec_handler_updates c)
         (ec_in_handler c) (ec_data_sources c).

Definition ec_entity_ops (c : EntityCache) (ops : list (EntityKey * EntityOp)) : EntityCache :=
  foldl (fun c '(key, op) => ec_entity_op c key op) c ops.

Definition ec_exit_handler {E} (c : EntityCache) : result E EntityCache :=
  assert! ec_in_handler c ;;
  let handler_updates := hash_iter (ec_handler_updates c) in
  let c := mkCache (ec_current c) (ec_updates c) ∅ false (ec_data_sources c) in
  Ok (ec_entity_ops c handler_updates).

Definition ec_exit_handler_and_discard_changes {E} (c : EntityCache) : result E EntityCache :=
  assert! ec_in_handler c ;;
  Ok (mkCache (ec_current c) (ec_updates c) ∅ false (ec_data_sources c)).

(** [LfuCache::get_entity] *)
Definition get_entity (current : C) (key : EntityKey) : result QErr (option Entity * C) :=
  let? r := cache_get current key in
  match r with
  | (None, current) =>
      let? entity := rd_get store key in
      let entity := match entity with
                    | Some entity => Some (entity_remove entity "__typename")
                    | None => None
                    end in
      let? current := cache_insert current key entity in
      Ok (entity, current)
  | (Some data, current) => Ok (data, current)
  end.

Definition apply_opt (op : option EntityOp) (entity : option Entity) : option Entity :=
  match op with Some op => apply_to op entity | None => entity end.

Definition ec_get (c : EntityCache) (key : EntityKey) : result QErr (option Entity * EntityCache) :=
  let? r := get_entity (ec_current c) key in
  let '(entity, current) := r in
  let entity := apply_opt (ec_updates c !! key) entity in
  let entity := apply_opt (ec_handler_updates c !! key) entity in
  Ok (entity, mkCache current (ec_updates c) (ec_handler_updates c) (ec_in_handler c)
                (ec_data_sources c)).

Definition ec_remove (c : EntityCache) (key : EntityKey) : EntityCache :=
  ec_entity_op c key OpRemove.

Definition check_id (key : EntityKey) (prev_id : string) : result (SetError QErr) unit :=
  if decide (prev_id <> key_entity_id key)
  then Err (SetIdConflict (entity_type key) prev_id (key_entity_id key))
  else Ok ().

(** The entity with its id: the part of [set] before the cache changes *)
Definition with_id (key : EntityKey) (entity : Entity) : result (SetError QErr) Entity :=
  match entity_get entity "id" with
  | Some (VString s) => let? _ := check_id key s in Ok entity
  | Some (VBytes b) => let? _ := check_id key (bytes_to_string b) in Ok entity
  | Some _ => Ok entity
  | None =>
      let? value := map_err SetIdValue (id_value (rd_input_schema store) key) in
      Ok (entity_set entity "id" value)
  end.

(** [set]; the cache is part of the result because an error leaves the changes
    made so far in place.  [fuel] bounds the recursion of [validate]. *)
Definition ec_set (fuel : nat) (c : EntityCache) (key : EntityKey) (entity : Entity)
  : result (SetError QErr) unit * EntityCache :=
  match with_id key entity with
  | Err e => (Err e, c)
  | Panic => (Panic, c)
  | Ok entity =>
      match entity_validate fuel entity (rd_input_schema store) key with
      | Panic => (Panic, c)
      | Ok _ => (Ok (), ec_entity_op c key (OpUpdate entity))
      | Err _ =>
          let c := ec_entity_op c key (OpUpdate entity) in
          match ec_get c key with
          | Err e => (Err (SetQuery e), c)
          | Panic => (Panic, c)
          | Ok (None, c) => (Err (SetReadBack key), c)
          | Ok (Some entity, c) =>
              (map_err SetInvalid (entity_validate fuel entity (rd_input_schema store) key), c)
          end
      end
  end.

Definition operation_op (operation : EntityOperation) : EntityKey * EntityOp :=
  match operation with
  | OperationSet key data => (key, OpUpdate data)
  | OperationRemove key => (key, OpRemove)
  end.

Definition ec_append {E} (c : EntityCache) (operations : list EntityOperation)
  : result E EntityCache :=
  assert! negb (ec_in_handler c) ;;
  Ok (ec_entity_ops c (map operation_op operations)).

Definition ec_add_data_source (c : EntityCache) (ds : DataSource) : EntityCache :=
  mkCache (ec_current c) (ec_updates c) (ec_handler_updates c) (ec_in_handler c)
    (ec_data_sources c ++ [ds]).

Definition ec_extend {E} (c other : EntityCache) : result E EntityCache :=
  assert! negb (ec_in_handler other) ;;
  let c := mkCache (cache_extend (ec_current c) (ec_current other)) (ec_updates c)
             (ec_handler_updates c) (ec_in_handler c) (ec_data_sources c) in
  Ok (ec_entity_ops c (hash_iter (ec_updates other))).

(** ** Modifications *)

Record ModificationsAndCache := {
  mc_modifications : list EntityModification;
  mc_data_sources : list DataSource;
  mc_entity_lfu_cache : C
}.

(** The keys that have to be looked up, grouped by subgraph and entity type *)
Definition is_missing (c : EntityCache) (key : EntityKey) : bool :=
  negb (cache_contains_key (ec_current c) key)
  && negb (is_immutable (rd_input_schema store) (entity_type key)).

Abbreviation missing_map := (gmap DeploymentHash (gmap EntityType (list string))).

Definition add_missing (m : missing_map) (key : EntityKey) : missing_map :=
  let types := default ∅ (m !! subgraph_id key) in
  let ids := default [] (types !! entity_type key) in
  <[subgraph_id key := <[entity_type key := ids ++ [key_entity_id key]]> types]> m.

Definition missing_by_subgraph (c : EntityCache) : missing_map :=
  foldl add_missing ∅ (List.filter (is_missing c) (hash_iter (ec_updates c)).*1).

Definition insert_found (subgraph_id entity_type : string) (current : C) (entity : Entity)
  : result QErr C :=
  let? id := expect (result_ok (entity_id entity)) in
  cache_insert current (mkKey subgraph_id entity_type id) (Some entity).

Definition load_missing (current : C) (group : DeploymentHash * gmap EntityType (list string))
  : result QErr C :=
  let? found := rd_get_many store group.2 in
  try_fold (fun current '(entity_type, entities) =>
    try_fold (insert_found group.1 entity_type) current entities) current (btree_iter found).

(** The body of the loop that produces the modifications *)
Definition modification_step (st : C * list EntityModification) (kop : EntityKey * EntityOp)
  : result QErr (C * list EntityModification) :=
  let '(current, mods) := st in
  let '(key, update) := kop in
  let? r := cache_remove current key in
  let '(entity, current) := r in
  match entity ≫= (fun entity => entity), update with
  | None, OpUpdate updates | None, OpOverwrite updates =>
      let data := merge_remove_null_fields entity_new updates in
      let? current := cache_insert current key (Some data) in
      Ok (current, mods ++ [ModInsert key data])
  | Some entity, OpUpdate updates =>
      let data := merge_remove_null_fields entity updates in
      let? current := cache_insert current key (Some data) in
      Ok (current, if negb (entity_eqb entity data) then mods ++ [ModOverwrite key data] else mods)
  | Some entity, OpOverwrite data =>
      let? current := cache_insert current key (Some data) in
      Ok (current, if negb (entity_eqb entity data) then mods ++ [ModOverwrite key data] else mods)
  | Some _, OpRemove =>
      let? current := cache_insert current key None in
      Ok (current, mods ++ [ModRemove key])
  | None, OpRemove => Ok (current, mods)
  end.

(** [cache_size] is [ENV_VARS.mappings.entity_cache_size]. *)
Definition as_modifications (cache_size : Z) (c : EntityCache)
  : result QErr ModificationsAndCache :=
  assert! negb (ec_in_handler c) ;;
  let? current := try_fold load_missing (ec_current c) (btree_iter (missing_by_subgraph c)) in
  let? st := try_fold modification_step (current, []) (hash_iter (ec_updates c)) in
  let '(current, mods) := st in
  let? r := cache_evict current cache_size in
  Ok {| mc_modifications := mods; mc_data_sources := ec_data_sources c;
        mc_entity_lfu_cache := r.2 |}.
End EntityCache.
Arguments EntityCache : clear implicits.
Arguments ModificationsAndCache : clear implicits.
