(* ===== verification/EntityCacheProps.v ===== *)
(** * Correctness of the entity cache

    The cache is a transactional overlay over the store: reads see the store with
    the updates applied, a handler's updates are kept or dropped as a whole, and
    the modifications of a block bring the store to what the reads have shown.
    Entities are compared up to null attributes and [__typename]. *)

From S2P Require Import Prelude GraphqlAst Scalars RuntimeValue Values Names StoreTypes StoreProps.
From S2P Require Import Schema EntityValidate CacheInterface EntityCache.

Section Correct.
  Context `{Hex}.
  Context {C : Type} `{!CacheOps EntityKey (option Entity) C} `{!CacheLaws EntityKey (option Entity) C}.
  Context {QErr DataSource : Type}.
  Context (hash_iter : gmap EntityKey EntityOp -> list (EntityKey * EntityOp)).
  Context (store : EntityReader QErr).

Abbreviation cache := (EntityCache C DataSource).
Implicit Types c : cache.

Definition hash_iter_law : Prop := forall m, hash_iter m ≡ₚ map_to_list m.

(** The cached entities are those of the store contents [S]. *)
Definition coherent (S : gmap EntityKey Entity) (current : C) : Prop :=
  forall k o, cache_view current !! k = Some o -> osim o (S !! k).

(** The store of deployment [sid] has contents [S] and answers reads. *)
Record reads_from (S : gmap EntityKey Entity) (sid : DeploymentHash) : Prop := {
  rf_get k : exists o, rd_get store k = Ok o /\ osim o (S !! k);
  rf_get_many keys : exists r, rd_get_many store keys = Ok r /\
    (forall ty e, e ∈ default [] (r !! ty) ->
       exists id, id ∈ default [] (keys !! ty) /\ entity_id e = Ok id /\
                  osim (Some e) (S !! mkKey sid ty id)) /\
    (forall ty id, id ∈ default [] (keys !! ty) -> is_Some (S !! mkKey sid ty id) ->
       exists e, e ∈ default [] (r !! ty) /\ entity_id e = Ok id)
}.

(** What a reader of the cache sees under a key *)
Definition view (S : gmap EntityKey Entity) (c : cache) (k : EntityKey) : option Entity :=
  apply_opt (ec_handler_updates c !! k) (apply_opt (ec_updates c !! k) (S !! k)).

(** Outside of a handler there are no handler updates. *)
Definition ec_wf (c : cache) : Prop := ec_in_handler c = false -> ec_handler_updates c = ∅.

#[local] Instance apply_opt_proper : Proper (eq ==> osim ==> osim) apply_opt.
Proof. intros [op|] ? <- o1 o2 Ho; simpl; [by apply apply_to_proper|done]. Qed.

(** ** Recording operations *)

Lemma accumulate_entry_lookup key op m k :
  accumulate_entry key op m !! k =
  if decide (key = k)
  then Some (match m !! key with Some o => op_accumulate o op | None => op end) else m !! k.
Proof.
  unfold accumulate_entry. case_decide as Hk; [subst|]; destruct (m !! _) eqn:Hm;
    by rewrite ?lookup_insert_eq, ?lookup_insert_ne by done.
Qed.

Lemma accumulate_entry_apply key op m e :
  osim (apply_opt (accumulate_entry key op m !! key) e) (apply_to op (apply_opt (m !! key) e)).
Proof.
  rewrite accumulate_entry_lookup, decide_True by done. destruct (m !! key); simpl; [|done].
  apply op_accumulate_apply.
Qed.

Lemma entity_op_wf c key op : ec_wf c -> ec_wf (ec_entity_op c key op).
Proof. unfold ec_wf, ec_entity_op. destruct (ec_in_handler c) eqn:Hh; simpl; [congruence|auto]. Qed.

Lemma entity_op_current c key op :
  ec_current (ec_entity_op c key op) = ec_current c /\
  ec_in_handler (ec_entity_op c key op) = ec_in_handler c.
Proof. unfold ec_entity_op. by destruct (ec_in_handler c) eqn:Hh; simpl. Qed.

Lemma entity_op_view S c key op k :
  ec_wf c ->
  osim (view S (ec_entity_op c key op) k)
       (if decide (key = k) then apply_to op (view S c k) else view S c k).
Proof.
  intros Hwf. unfold view, ec_entity_op. destruct (ec_in_handler c) eqn:Hh; simpl.
  - case_decide as Hk; [subst; apply accumulate_entry_apply|].
    by rewrite accumulate_entry_lookup, decide_False.
  - rewrite Hwf by done. rewrite !lookup_empty. simpl.
    case_decide as Hk; [subst; apply accumulate_entry_apply|].
    by rewrite accumulate_entry_lookup, decide_False.
Qed.

Lemma entity_ops_view S ops c k :
  ec_wf c -> NoDup ops.*1 ->
  osim (view S (ec_entity_ops c ops) k) (apply_opt (list_to_map (M:=gmap _ _) ops !! k) (view S c k)).
Proof.
  unfold ec_entity_ops. revert c. induction ops as [|[key op] ops IH]; intros c Hwf Hnd; simpl.
  { by rewrite lookup_empty. }
  inversion_clear Hnd as [|? ? Hnot Hnd'].
  etrans; [apply IH; [by apply entity_op_wf|done]|].
  pose proof (entity_op_view S c key op k Hwf) as Hv. destruct (decide (key = k)) as [->|Hne].
  - rewrite lookup_insert_eq. simpl.
    by rewrite (not_elem_of_list_to_map_1 (M:=gmap EntityKey) ops k).
  - rewrite lookup_insert_ne by done. by apply apply_opt_proper.
Qed.

Lemma entity_ops_fields ops c :
  ec_current (ec_entity_ops c ops) = ec_current c /\
  ec_in_handler (ec_entity_ops c ops) = ec_in_handler c /\
  (ec_wf c -> ec_wf (ec_entity_ops c ops)).
Proof.
  unfold ec_entity_ops. revert c. induction ops as [|[key op] ops IH]; intros c; simpl; [done|].
  destruct (IH (ec_entity_op c key op)) as (-> & -> & Hwf).
  destruct (entity_op_current c key op) as [-> ->]. auto using entity_op_wf.
Qed.

Lemma hash_iter_map m : hash_iter_law -> list_to_map (M:=gmap _ _) (hash_iter m) = m.
Proof.
  intros Hl. rewrite (list_to_map_proper (M:=gmap EntityKey) _ (map_to_list m)).
  - apply list_to_map_to_list.
  - rewrite (Hl m). apply NoDup_fst_map_to_list.
  - apply Hl.
Qed.

Lemma hash_iter_NoDup m : hash_iter_law -> NoDup (hash_iter m).*1.
Proof. intros Hl. rewrite (Hl m). apply NoDup_fst_map_to_list. Qed.

(** Ending a handler does not change what is seen. *)
Lemma exit_handler_view {E} S (c : cache) :
  hash_iter_law -> ec_in_handler c = true ->
  exists c', ec_exit_handler (E:=E) hash_iter c = Ok c' /\ ec_wf c' /\ ec_in_handler c' = false /\
    ec_current c' = ec_current c /\ forall k, osim (view S c' k) (view S c k).
Proof.
  intros Hl Hh. unfold ec_exit_handler. rewrite Hh. eexists. split; [done|].
  set (c0 := mkCache _ _ _ _ _).
  destruct (entity_ops_fields (hash_iter (ec_handler_updates c)) c0) as (Hcur & Hin & Hwf).
  split_and!; [by apply Hwf|by rewrite Hin|by rewrite Hcur|].
  intros k. etrans; [apply entity_ops_view; [done|by apply hash_iter_NoDup]|].
  by rewrite hash_iter_map.
Qed.

(** ** Reading *)

Lemma get_entity_spec S sid current key :
  reads_from S sid -> cache_ok current -> coherent S current ->
  exists e current', get_entity store current key = Ok (e, current') /\ osim e (S !! key) /\
    cache_ok current' /\ coherent S current'.
Proof.
  intros Hr Hok Hco. unfold get_entity.
  destruct (cache_get_spec QErr current key Hok) as (c1 & Hget & Hok1 & Hv1). rewrite Hget. simpl.
  destruct (cache_view current !! key) as [o|] eqn:Ho.
  - exists o, c1. split_and!; [done|by apply Hco|done|]. intros k o'. rewrite Hv1. apply Hco.
  - destruct (rf_get _ _ Hr key) as (o & Hrd & Hsim). rewrite Hrd. simpl.
    set (e := match o with Some _ => _ | None => _ end).
    assert (He : osim e (S !! key)).
    { rewrite <-Hsim. destruct o as [x|]; [|done]. constructor. intros k. unfold attr, entity_remove.
      case_decide; [done|]. by rewrite lookup_delete_ne. }
    destruct (cache_insert_spec QErr c1 key e Hok1) as (c2 & Hins & Hok2 & Hv2). rewrite Hins. simpl.
    exists e, c2. split_and!; [done..|]. intros k o'. rewrite Hv2, Hv1.
    destruct (decide (key = k)) as [->|]; [rewrite lookup_insert_eq; by intros [= <-]|].
    rewrite lookup_insert_ne by done. apply Hco.
Qed.

Lemma ec_get_spec S sid (c : cache) key :
  reads_from S sid -> cache_ok (ec_current c) -> coherent S (ec_current c) ->
  exists e c', ec_get store c key = Ok (e, c') /\ osim e (view S c key) /\
    cache_ok (ec_current c') /\ coherent S (ec_current c') /\
    ec_updates c' = ec_updates c /\ ec_handler_updates c' = ec_handler_updates c /\
    ec_in_handler c' = ec_in_handler c.
Proof.
  intros Hr Hok Hco. unfold ec_get.
  destruct (get_entity_spec S sid _ key Hr Hok Hco) as (e & cur & Hget & Hsim & Hok' & Hco').
  rewrite Hget. simpl. eexists _, _. split_and!; [done| |done..].
  unfold view. by repeat apply apply_opt_proper.
Qed.

(** ** Handlers as transactions *)

Inductive ec_call :=
| EcEnter
| EcExit
| EcDiscard
| EcRemove (k : EntityKey)
| EcAppend (ops : list EntityOperation)
| EcSet (k : EntityKey) (e : Entity)
| EcAddDataSource (ds : DataSource)
| EcGet (k : EntityKey).

Inductive ec_answer := AnswerDone | AnswerSet (r : result (SetError QErr) unit) | AnswerGot (e : option Entity).

(** A call on the cache; [fuel] is that of [validate]. *)
Definition ec_do (fuel : nat) (call : ec_call) (c : cache) : result QErr (ec_answer * cache) :=
  match call with
  | EcEnter => let? c := ec_enter_handler c in Ok (AnswerDone, c)
  | EcExit => let? c := ec_exit_handler hash_iter c in Ok (AnswerDone, c)
  | EcDiscard => let? c := ec_exit_handler_and_discard_changes c in Ok (AnswerDone, c)
  | EcRemove k => Ok (AnswerDone, ec_remove c k)
  | EcAppend ops => let? c := ec_append c ops in Ok (AnswerDone, c)
  | EcSet k e => let (r, c) := ec_set store fuel c k e in
                 match r with Panic => Panic | _ => Ok (AnswerSet r, c) end
  | EcAddDataSource ds => Ok (AnswerDone, ec_add_data_source c ds)
  | EcGet k => let? r := ec_get store c k in Ok (AnswerGot r.1, r.2)
  end.

Fixpoint ec_run (fuel : nat) (calls : list ec_call) (c : cache) : result QErr (list ec_answer * cache) :=
  match calls with
  | [] => Ok ([], c)
  | call :: calls =>
      let? r := ec_do fuel call c in
      let? rs := ec_run fuel calls r.2 in
      Ok (r.1 :: rs.1, rs.2)
  end.

(** The specification: the entities outside of a handler, and those a running
    handler sees. *)
Record Txn := mkTxn {
  tx_base : EntityKey -> option Entity;
  tx_work : option (EntityKey -> option Entity)
}.

Definition tx_seen (t : Txn) : EntityKey -> option Entity := default (tx_base t) (tx_work t).

Definition tx_write (k : EntityKey) (op : EntityOp) (t : Txn) : Txn :=
  let upd (m : EntityKey -> option Entity) k' := if decide (k = k') then apply_to op (m k') else m k' in
  match tx_work t with
  | Some w => mkTxn (tx_base t) (Some (upd w))
  | None => mkTxn (upd (tx_base t)) None
  end.

Definition tx_do (call : ec_call) (t : Txn) : result QErr Txn :=
  match call with
  | EcEnter => match tx_work t with None => Ok (mkTxn (tx_base t) (Some (tx_base t))) | Some _ => Panic end
  | EcExit => match tx_work t with Some w => Ok (mkTxn w None) | None => Panic end
  | EcDiscard => match tx_work t with Some _ => Ok (mkTxn (tx_base t) None) | None => Panic end
  | EcRemove k => Ok (tx_write k OpRemove t)
  | EcAppend ops =>
      match tx_work t with
      | Some _ => Panic
      | None => Ok (foldl (fun t '(k, op) => tx_write k op t) t (map operation_op ops))
      end
  | EcSet k e => Ok (match with_id store k e with Ok e => tx_write k (OpUpdate e) t | _ => t end)
  | EcAddDataSource _ | EcGet _ => Ok t
  end.

Fixpoint tx_run (calls : list ec_call) (t : Txn) : result QErr Txn :=
  match calls with
  | [] => Ok t
  | call :: calls => let? t := tx_do call t in tx_run calls t
  end.

(** What [set] answers: an error for the id, or what validation says of the entity that
    is set or, if it is rejected on its own, of the entity that is then there. *)
Definition set_answers (fuel : nat) (k : EntityKey) (e : Entity) (t : Txn) (r : result (SetError QErr) unit) : Prop :=
  match with_id store k e with
  | Err err => r = Err err
  | Ok e =>
      match entity_validate fuel e (rd_input_schema store) k with
      | Ok _ => r = Ok tt
      | _ => exists e', osim (Some e') (tx_seen (tx_write k (OpUpdate e) t) k) /\
               r = map_err SetInvalid (entity_validate fuel e' (rd_input_schema store) k)
      end
  | Panic => False
  end.

(** What a call answers when it is made in state [t] *)
Definition tx_answers (fuel : nat) (call : ec_call) (t : Txn) (a : ec_answer) : Prop :=
  match call with
  | EcSet k e => exists r, a = AnswerSet r /\ set_answers fuel k e t r
  | EcGet k => exists e, a = AnswerGot e /\ osim e (tx_seen t k)
  | _ => a = AnswerDone
  end.

Inductive answered (fuel : nat) : list ec_call -> Txn -> list ec_answer -> Prop :=
| answered_nil t : answered fuel [] t []
| answered_cons call calls t t' a answers :
    tx_do call t = Ok t' -> tx_answers fuel call t a -> answered fuel calls t' answers ->
    answered fuel (call :: calls) t (a :: answers).

(** Setting an entity does not panic: its type is known. *)
Definition ec_call_safe (fuel : nat) (call : ec_call) : Prop :=
  match call with
  | EcSet k e => with_id store k e <> Panic /\ forall e', entity_validate fuel e' (rd_input_schema store) k <> Panic
  | _ => True
  end.

(** The cache [c] over the store contents [S] stands for [t]. *)
Record represents (S : gmap EntityKey Entity) (c : cache) (t : Txn) : Prop := {
  rep_ok : cache_ok (ec_current c);
  rep_coherent : coherent S (ec_current c);
  rep_wf : ec_wf c;
  rep_handler : ec_in_handler c = match tx_work t with Some _ => true | None => false end;
  rep_base k : osim (apply_opt (ec_updates c !! k) (S !! k)) (tx_base t k);
  rep_seen k : osim (view S c k) (tx_seen t k)
}.

Lemma represents_write S c t k op :
  represents S c t -> represents S (ec_entity_op c k op) (tx_write k op t).
Proof.
  intros [Hok Hco Hwf Hh Hb Hs]. destruct (entity_op_current c k op) as [Hcur Hin].
  assert (Hseen : forall k', osim (view S (ec_entity_op c k op) k') (tx_seen (tx_write k op t) k')).
  { intros k'. etrans; [by apply entity_op_view|].
    specialize (Hs k'). unfold tx_seen, tx_write in *.
    destruct (tx_work t); simpl in *; case_decide; try done; by apply apply_to_proper. }
  split; [by rewrite Hcur|by rewrite Hcur|by apply entity_op_wf|rewrite Hin, Hh; unfold tx_write;
    by destruct (tx_work t)| |done].
  intros k'. destruct (tx_work t) as [w|] eqn:Hw.
  - unfold ec_entity_op, tx_write. rewrite Hh, Hw. simpl. apply Hb.
  - specialize (Hseen k'). unfold view in Hseen.
    assert (Hempty : ec_handler_updates (ec_entity_op c k op) = ∅)
      by (apply entity_op_wf; [done|]; by rewrite Hin, Hh).
    rewrite Hempty, lookup_empty in Hseen. unfold tx_seen, tx_write in *. by rewrite Hw in *.
Qed.

Lemma represents_writes S ops c t :
  represents S c t ->
  represents S (ec_entity_ops c ops) (foldl (fun t '(k, op) => tx_write k op t) t ops).
Proof.
  unfold ec_entity_ops. revert c t. induction ops as [|[k op] ops IH]; intros c t Hr; simpl; [done|].
  by apply IH, represents_write.
Qed.

Lemma represents_get S sid c t k :
  reads_from S sid -> represents S c t ->
  exists e c', ec_get store c k = Ok (e, c') /\ osim e (tx_seen t k) /\ represents S c' t.
Proof.
  intros Hread [Hok Hco Hwf Hh Hb Hs].
  destruct (ec_get_spec S sid c k Hread Hok Hco) as (e & c' & Hget & Hsim & Hok' & Hco' & Hu & Hhu & Hin).
  exists e, c'. split; [done|]. split; [etrans; [done|apply Hs]|]. split; rewrite ?Hin, ?Hu; try done.
  - intros Hf. rewrite Hhu. apply Hwf. by rewrite <-Hin.
  - intros k'. unfold view. rewrite Hhu, Hu. apply Hs.
Qed.

Lemma represents_set S sid fuel c t k e r c' :
  reads_from S sid -> represents S c t -> ec_call_safe fuel (EcSet k e) -> ec_set store fuel c k e = (r, c') ->
  r <> Panic /\ set_answers fuel k e t r /\
  represents S c' (match with_id store k e with Ok e => tx_write k (OpUpdate e) t | _ => t end).
Proof.
  intros Hread Hrep [Hid Hval] Hset. unfold ec_set, set_answers in *.
  destruct (with_id store k e) as [e1|err|]; [|by simplify_eq|done].
  pose proof (represents_write S c t k (OpUpdate e1) Hrep) as Hrep1.
  destruct (entity_validate fuel e1 _ k) as [u|err|] eqn:Hv; [by destruct u; simplify_eq| |by apply Hval in Hv].
  destruct (represents_get S sid _ _ k Hread Hrep1) as (o & c2 & Hget & Hsim & Hrep2). rewrite Hget in Hset.
  destruct o as [e2|]; simplify_eq.
  - split; [|split; [by exists e2|done]]. specialize (Hval e2). by destruct (entity_validate fuel e2 _ k).
  - exfalso. unfold tx_seen, tx_write in Hsim. destruct (tx_work t) as [w|]; simpl in Hsim;
      rewrite decide_True in Hsim by done; [destruct (w k)|destruct (tx_base t k)]; inversion Hsim.
Qed.

Lemma represents_do S sid fuel c t call :
  hash_iter_law -> reads_from S sid -> represents S c t -> ec_call_safe fuel call ->
  match tx_do call t with
  | Ok t' => exists a c', ec_do fuel call c = Ok (a, c') /\ tx_answers fuel call t a /\ represents S c' t'
  | Err _ => False
  | Panic => ec_do fuel call c = Panic
  end.
Proof.
  intros Hl Hread Hrep Hsafe. pose proof Hrep as [Hok Hco Hwf Hh Hb Hs].
  destruct call as [| | |k|ops|k e|ds|k]; cbn [tx_do ec_do tx_answers].
  - unfold ec_enter_handler. rewrite Hh. destruct (tx_work t) eqn:Hw; simpl; [done|].
    eexists _, _. split_and!; [done..|]. split; simpl; try done. unfold tx_seen in *. by rewrite Hw in Hs.
  - destruct (tx_work t) as [w|] eqn:Hw; [|unfold ec_exit_handler; by rewrite Hh].
    destruct (exit_handler_view (E:=QErr) S c Hl Hh) as (c' & Hex & Hwf' & Hh' & Hcur & Hview).
    rewrite Hex. simpl. eexists _, _. split_and!; [done..|].
    assert (Hseen : forall k, osim (view S c' k) (w k)).
    { intros k. etrans; [apply Hview|]. specialize (Hs k). unfold tx_seen in Hs. by rewrite Hw in Hs. }
    split; rewrite ?Hcur; try done; simpl. intros k. specialize (Hseen k). unfold view in Hseen.
    by rewrite Hwf', lookup_empty in Hseen.
  - unfold ec_exit_handler_and_discard_changes. rewrite Hh.
    destruct (tx_work t) as [w|]; simpl; [|done].
    eexists _, _. split_and!; [done..|]. split; simpl; try done.
  - eexists _, _. split_and!; [done..|]. by apply represents_write.
  - unfold ec_append. rewrite Hh. destruct (tx_work t) as [w|]; simpl; [done|].
    eexists _, _. split_and!; [done..|]. by apply represents_writes.
  - destruct (ec_set store fuel c k e) as [r c'] eqn:Hset.
    destruct (represents_set S sid fuel c t k e r c' Hread Hrep Hsafe Hset) as (Hr & Hans & Hrep').
    exists (AnswerSet r), c'. split; [by destruct r|]. split; [by exists r|done].
  - eexists _, _. split_and!; [done..|]. by split.
  - destruct (represents_get S sid c t k Hread Hrep) as (e & c' & Hget & Hsim & Hrep'). rewrite Hget. simpl.
    eexists _, _. split; [done|]. split; [by eexists|done].
Qed.

Lemma represents_new S : represents S ec_new (mkTxn (fun k => S !! k) None).
Proof.
  split; simpl; try done.
  - apply cache_new_ok.
  - intros k o. by rewrite cache_new_view, lookup_empty.
Qed.

(** C13: over a store with contents [S], the entity cache behaves like a pair of
    maps under every sequence of its calls other than [extend]: reads see the store
    with all updates so far, a handler's updates become permanent when it ends and
    vanish as if they had never been made when they are discarded, [set] writes the
    entity with its id and answers whether that, or the entity it is merged into,
    validates, and nothing fails except entering or leaving a handler out of turn,
    which panics in both.  Entities that are set are of known types. *)
Theorem entity_cache_refines_transactions S sid fuel calls :
  hash_iter_law -> reads_from S sid -> Forall (ec_call_safe fuel) calls ->
  match tx_run calls (mkTxn (fun k => S !! k) None) with
  | Ok t =>
      exists answers c, ec_run fuel calls ec_new = Ok (answers, c) /\
        answered fuel calls (mkTxn (fun k => S !! k) None) answers /\ represents S c t
  | Err _ => False
  | Panic => ec_run fuel calls ec_new = Panic
  end.
Proof.
  intros Hl Hread Hsafe. pose proof (represents_new S) as Hrep. revert Hrep.
  generalize (mkTxn (fun k => S !! k) None). generalize (ec_new (C:=C) (DataSource:=DataSource)).
  induction Hsafe as [|call calls Hcall _ IH]; intros c t Hrep; simpl.
  { eexists _, _. split_and!; [done|constructor|done]. }
  pose proof (represents_do S sid fuel c t call Hl Hread Hrep Hcall) as Hdo.
  destruct (tx_do call t) as [t'| |] eqn:Ht; simpl; [|done|by rewrite Hdo].
  destruct Hdo as (a & c' & Hec & Ha & Hrep'). rewrite Hec. simpl. specialize (IH c' t' Hrep').
  destruct (tx_run calls t') as [t''| |]; simpl; [|done|by rewrite IH].
  destruct IH as (answers & c'' & Hrun & Hans & Hrep''). rewrite Hrun. simpl.
  eexists _, _. split_and!; [done|by econstructor|done].
Qed.

(** [set] either rejects the entity for its id and leaves the cache alone, or
    records it, completed with an id, as an update: whatever validation then
    says, the entity under the key is the old one with the update merged in, and
    no other entity changes. *)
Theorem ec_set_effect S sid fuel c key entity r c' :
  reads_from S sid -> cache_ok (ec_current c) -> coherent S (ec_current c) -> ec_wf c ->
  ec_set store fuel c key entity = (r, c') -> r <> Panic ->
  match with_id store key entity with
  | Ok entity' =>
      forall k, osim (view S c' k)
        (if decide (key = k) then apply_to (OpUpdate entity') (view S c k) else view S c k)
  | _ => c' = c /\ is_err r = true
  end.
Proof.
  intros Hread Hok Hco Hwf Hset Hr. unfold ec_set in Hset.
  destruct (with_id store key entity) as [entity'|e|]; [|by simplify_eq|by simplify_eq].
  intros k. pose proof (entity_op_view S c key (OpUpdate entity') k Hwf) as Hview.
  destruct (entity_op_current c key (OpUpdate entity')) as [Hcur _].
  destruct (entity_validate fuel entity' _ key); [by simplify_eq| |by simplify_eq].
  destruct (ec_get_spec S sid (ec_entity_op c key (OpUpdate entity')) key Hread)
    as (o & c1 & Hget & _ & _ & _ & Hu & Hhu & _); [by rewrite Hcur|by rewrite Hcur|].
  rewrite Hget in Hset.
  assert (Hv : view S c1 k = view S (ec_entity_op c key (OpUpdate entity')) k)
    by (unfold view; by rewrite Hu, Hhu).
  destruct o; simplify_eq; by rewrite Hv.
Qed.

(** ** Modifications *)

Definition apply_mod (S : gmap EntityKey Entity) (m : EntityModification) : gmap EntityKey Entity :=
  match m with
  | ModInsert key data | ModOverwrite key data => <[key := data]> S
  | ModRemove key => delete key S
  end.

Definition apply_mods (mods : list EntityModification) (S : gmap EntityKey Entity) :=
  foldl apply_mod S mods.

(** Only new entities are inserted, only existing ones overwritten or removed. *)
Definition mod_applies (S : gmap EntityKey Entity) (m : EntityModification) : Prop :=
  match m with
  | ModInsert key _ => S !! key = None
  | ModOverwrite key _ | ModRemove key => is_Some (S !! key)
  end.

(** *** Loading missing entities *)

Definition group_ids (m : gmap DeploymentHash (gmap EntityType (list string))) (key : EntityKey) : Prop :=
  key_entity_id key ∈ default [] (default ∅ (m !! subgraph_id key) !! entity_type key).

Lemma add_missing_ids m key k : group_ids (add_missing m key) k <-> group_ids m k \/ k = key.
Proof.
  unfold group_ids, add_missing. destruct key as [s t i], k as [s' t' i']. simpl.
  destruct (decide (s = s')) as [<-|Hs].
  - rewrite lookup_insert_eq. simpl. destruct (decide (t = t')) as [<-|Ht].
    + rewrite lookup_insert_eq. simpl. rewrite elem_of_app, list_elem_of_singleton.
      split; intros [?|Heq]; auto; right; congruence.
    + rewrite lookup_insert_ne by done. split; [by left|intros [?|Heq]; [done|congruence]].
  - rewrite lookup_insert_ne by done. split; [by left|intros [?|Heq]; [done|congruence]].
Qed.

Lemma missing_by_subgraph_ids c k :
  group_ids (missing_by_subgraph hash_iter store c) k <->
  k ∈ (hash_iter (ec_updates c)).*1 /\ is_missing store c k = true.
Proof.
  unfold missing_by_subgraph. set (l := (hash_iter (ec_updates c)).*1).
  assert (Hf : forall m, group_ids (foldl add_missing m (List.filter (is_missing store c) l)) k <->
    group_ids m k \/ (k ∈ l /\ is_missing store c k = true)).
  { induction l as [|x l IH]; intros m; simpl; [set_solver|].
    rewrite elem_of_cons. destruct (is_missing store c x) eqn:Hx; simpl; rewrite IH.
    - rewrite add_missing_ids.
      split; [intros [[Hg|Hg]|[Hg Hm]]|intros [Hg|[[Hg|Hg] Hm]]]; subst; auto.
    - split; [intros [Hg|[Hg Hm]]|intros [Hg|[[Hg|Hg] Hm]]]; subst; auto. congruence. }
  rewrite Hf. unfold group_ids. rewrite lookup_empty. simpl. set_solver.
Qed.

Lemma add_missing_subgraph m key s :
  is_Some (add_missing m key !! s) -> is_Some (m !! s) \/ s = subgraph_id key.
Proof.
  unfold add_missing. destruct (decide (subgraph_id key = s)) as [<-|]; [by right|].
  rewrite lookup_insert_ne by done. by left.
Qed.

Lemma missing_by_subgraph_subgraph c s :
  is_Some (missing_by_subgraph hash_iter store c !! s) ->
  exists k, k ∈ (hash_iter (ec_updates c)).*1 /\ subgraph_id k = s.
Proof.
  unfold missing_by_subgraph. set (l := (hash_iter (ec_updates c)).*1).
  assert (Hf : forall m, is_Some (foldl add_missing m (List.filter (is_missing store c) l) !! s) ->
    is_Some (m !! s) \/ exists k, k ∈ l /\ subgraph_id k = s).
  { induction l as [|x l IH]; intros m; simpl; [by left|].
    destruct (is_missing store c x); simpl.
    - intros [Hs|(k & Hk & Hs)]%IH; [|right; exists k; set_solver].
      apply add_missing_subgraph in Hs as [Hs|Hs]; [by left|right; exists x; set_solver].
    - intros [Hs|(k & Hk & Hs)]%IH; [by left|right; exists k; set_solver]. }
  intros Hs. apply Hf in Hs as [[x Hx]|]; [by rewrite lookup_empty in Hx|done].
Qed.

(** What loading keeps: a coherent cache that only grows *)
Definition loaded S (c0 c1 : C) : Prop :=
  cache_ok c1 /\ coherent S c1 /\ forall k, is_Some (cache_view c0 !! k) -> is_Some (cache_view c1 !! k).

Lemma loaded_trans S (c0 c1 c2 : C) : loaded S c0 c1 -> loaded S c1 c2 -> loaded S c0 c2.
Proof. intros (_ & _ & H1) (Hok & Hco & H2). split_and!; [done|done|]. intros k Hk. by apply H2, H1. Qed.

Lemma insert_found_spec S sid ty (c0 : C) e id :
  cache_ok c0 -> coherent S c0 -> entity_id e = Ok id -> osim (Some e) (S !! mkKey sid ty id) ->
  exists c1 : C, insert_found (QErr:=QErr) sid ty c0 e = Ok c1 /\ loaded S c0 c1 /\
             is_Some (cache_view c1 !! mkKey sid ty id).
Proof.
  intros Hok Hco Hid Hsim. unfold insert_found. rewrite Hid. simpl.
  destruct (cache_insert_spec QErr c0 (mkKey sid ty id) (Some e) Hok) as (c1 & Hins & Hok1 & Hv).
  exists c1. rewrite Hv. split_and!; [done| |by rewrite lookup_insert_eq].
  split_and!; [done| |].
  - intros k o. rewrite Hv. destruct (decide (mkKey sid ty id = k)) as [<-|].
    + rewrite lookup_insert_eq. by intros [= <-].
    + rewrite lookup_insert_ne by done. apply Hco.
  - intros k Hk. rewrite Hv. destruct (decide (mkKey sid ty id = k)) as [<-|].
    + by rewrite lookup_insert_eq.
    + by rewrite lookup_insert_ne.
Qed.

Lemma insert_all_spec S sid ty es (c0 : C) :
  cache_ok c0 -> coherent S c0 ->
  (forall e, e ∈ es -> exists id, entity_id e = Ok id /\ osim (Some e) (S !! mkKey sid ty id)) ->
  exists c1 : C, try_fold (insert_found (QErr:=QErr) sid ty) c0 es = Ok c1 /\ loaded S c0 c1 /\
    forall e id, e ∈ es -> entity_id e = Ok id -> is_Some (cache_view c1 !! mkKey sid ty id).
Proof.
  revert c0. induction es as [|e es IH]; intros c0 Hok Hco Hes; simpl.
  { exists c0. split_and!; [done|by split_and!|set_solver]. }
  destruct (Hes e) as (id & Hid & Hsim); [by left|].
  destruct (insert_found_spec S sid ty c0 e id Hok Hco Hid Hsim) as (c1 & -> & Hld1 & Hin).
  pose proof Hld1 as (Hok1 & Hco1 & _).
  simpl. destruct (IH c1 Hok1 Hco1) as (c2 & -> & Hld2 & Hall).
  { intros x Hx. apply Hes. by right. }
  exists c2. split_and!; [done|by eapply loaded_trans|].
  intros x id' [->|Hx]%elem_of_cons Hid'; [|by eapply Hall]. rewrite Hid in Hid'.
  injection Hid' as <-. destruct Hld2 as (_ & _ & Hg2). by apply Hg2.
Qed.

Lemma insert_types_spec S sid l (c0 : C) :
  cache_ok c0 -> coherent S c0 ->
  (forall ty es e, (ty, es) ∈ l -> e ∈ es ->
     exists id, entity_id e = Ok id /\ osim (Some e) (S !! mkKey sid ty id)) ->
  exists c1 : C,
    try_fold (fun current '(ty, entities) =>
      try_fold (insert_found (QErr:=QErr) sid ty) current entities) c0 l = Ok c1 /\
    loaded S c0 c1 /\
    forall ty es e id, (ty, es) ∈ l -> e ∈ es -> entity_id e = Ok id ->
      is_Some (cache_view c1 !! mkKey sid ty id).
Proof.
  revert c0. induction l as [|[ty es] l IH]; intros c0 Hok Hco Hl; simpl.
  { exists c0. split_and!; [done|by split_and!|set_solver]. }
  destruct (insert_all_spec S sid ty es c0 Hok Hco) as (c1 & -> & Hld1 & Hin).
  { intros e He. eapply Hl; [by left|done]. }
  pose proof Hld1 as (Hok1 & Hco1 & _).
  simpl. destruct (IH c1 Hok1 Hco1) as (c2 & -> & Hld2 & Hall).
  { intros t xs x Hx. apply Hl. by right. }
  exists c2. split_and!; [done|by eapply loaded_trans|].
  intros t xs x id [Heq|Hx]%elem_of_cons He Hid; [|by eapply Hall]. injection Heq as -> ->.
  destruct Hld2 as (_ & _ & Hg2). apply Hg2. eauto.
Qed.

Lemma load_missing_spec S sid keys (c0 : C) :
  reads_from S sid -> cache_ok c0 -> coherent S c0 ->
  exists c1 : C, load_missing store c0 (sid, keys) = Ok c1 /\ loaded S c0 c1 /\
    forall ty id, id ∈ default [] (keys !! ty) -> is_Some (S !! mkKey sid ty id) ->
      is_Some (cache_view c1 !! mkKey sid ty id).
Proof.
  intros Hread Hok Hco. unfold load_missing. simpl.
  destruct (rf_get_many _ _ Hread keys) as (r & Hr & Hsound & Hcomplete). rewrite Hr. simpl.
  destruct (insert_types_spec S sid (btree_iter r) c0 Hok Hco) as (c1 & Hrun & Hload & Hall).
  { intros ty es e Hin He. apply elem_of_btree_iter in Hin.
    destruct (Hsound ty e) as (id & _ & Hid & Hsim); [by rewrite Hin|]. eauto. }
  exists c1. split_and!; [done|done|]. intros ty id Hid HS.
  destruct (Hcomplete ty id Hid HS) as (e & He & Heid).
  destruct (r !! ty) as [es|] eqn:Hty; [|by apply not_elem_of_nil in He].
  eapply Hall; [by apply elem_of_btree_iter|done|done].
Qed.

Lemma load_groups_spec S sid l (c0 : C) :
  reads_from S sid -> cache_ok c0 -> coherent S c0 -> (forall s keys, (s, keys) ∈ l -> s = sid) ->
  exists c1 : C, try_fold (load_missing store) c0 l = Ok c1 /\ loaded S c0 c1 /\
    forall keys ty id, (sid, keys) ∈ l -> id ∈ default [] (keys !! ty) ->
      is_Some (S !! mkKey sid ty id) -> is_Some (cache_view c1 !! mkKey sid ty id).
Proof.
  intros Hread. revert c0. induction l as [|[s keys] l IH]; intros c0 Hok Hco Hl; simpl.
  { exists c0. split_and!; [done|by split_and!|set_solver]. }
  assert (s = sid) as -> by (eapply Hl; by left).
  destruct (load_missing_spec S sid keys c0 Hread Hok Hco) as (c1 & -> & Hld1 & Hin).
  pose proof Hld1 as (Hok1 & Hco1 & _). simpl.
  destruct (IH c1 Hok1 Hco1) as (c2 & -> & Hld2 & Hall).
  { intros s k Hk. eapply Hl. by right. }
  exists c2. split_and!; [done|by eapply loaded_trans|].
  intros k ty id [Heq|Hk]%elem_of_cons Hid HS; [|by eapply Hall]. injection Heq as ->.
  destruct Hld2 as (_ & _ & Hg2). apply Hg2. eauto.
Qed.

(** What the cache has on a key, as the loop over the updates takes it *)
Definition current_entity (current : C) (k : EntityKey) : option Entity :=
  cache_view current !! k ≫= (fun e => e).

(** The assumption on immutable types that the source states: their entities are
    new when they are updated. *)
Definition immutable_new (S : gmap EntityKey Entity) c : Prop :=
  forall k, is_Some (ec_updates c !! k) ->
    is_immutable (rd_input_schema store) (entity_type k) = true ->
    cache_view (ec_current c) !! k = None -> S !! k = None.

Lemma load_all_spec S sid c :
  hash_iter_law -> reads_from S sid -> cache_ok (ec_current c) -> coherent S (ec_current c) ->
  (forall k, is_Some (ec_updates c !! k) -> subgraph_id k = sid) -> immutable_new S c ->
  exists c1 : C,
    try_fold (load_missing store) (ec_current c)
      (btree_iter (missing_by_subgraph hash_iter store c)) = Ok c1 /\
    cache_ok c1 /\ coherent S c1 /\
    forall k, is_Some (ec_updates c !! k) -> osim (current_entity c1 k) (S !! k).
Proof.
  intros Hl Hread Hok Hco Hsid Himm.
  assert (Hkeys : forall k, k ∈ (hash_iter (ec_updates c)).*1 <-> is_Some (ec_updates c !! k)).
  { intros k. rewrite (Hl (ec_updates c)), list_elem_of_fmap. split.
    - intros ([k' op] & -> & Hin%elem_of_map_to_list). by exists op.
    - intros [op Hop]. exists (k, op). split; [done|]. by apply elem_of_map_to_list. }
  destruct (load_groups_spec S sid (btree_iter (missing_by_subgraph hash_iter store c)) (ec_current c)
    Hread Hok Hco) as (c1 & Hrun & (Hok1 & Hco1 & Hg1) & Hall).
  { intros s keys Hin%elem_of_btree_iter.
    destruct (missing_by_subgraph_subgraph c s) as (k & Hk & <-); [by rewrite Hin|].
    by apply Hsid, Hkeys. }
  exists c1. split_and!; [done..|]. intros k Hk. unfold current_entity.
  destruct (cache_view c1 !! k) as [o|] eqn:Ho; simpl; [by apply Hco1|].
  assert (S !! k = None) as ->; [|done].
  apply eq_None_not_Some. intros HS. destruct (is_missing store c k) eqn:Hm.
  - assert (Hg : group_ids (missing_by_subgraph hash_iter store c) k)
      by (apply missing_by_subgraph_ids; by rewrite Hkeys).
    unfold group_ids in Hg. pose proof (Hsid k Hk) as Hs. destruct k as [s t id]. simpl in *. subst s.
    destruct (missing_by_subgraph hash_iter store c !! sid) as [keys|] eqn:Hgrp; simpl in Hg;
      [|by rewrite lookup_empty in Hg; apply not_elem_of_nil in Hg].
    destruct (Hall keys t id) as [x Hx]; [by apply elem_of_btree_iter|done|done|]. congruence.
  - unfold is_missing in Hm. rewrite cache_contains_key_spec in Hm.
    destruct (cache_view (ec_current c) !! k) as [o0|] eqn:Ho0.
    + destruct (Hg1 k) as [x Hx]; [by rewrite Ho0|]. congruence.
    + rewrite bool_decide_false in Hm by (by intros [? ?]). simpl in Hm.
      apply negb_false_iff in Hm. rewrite (Himm k Hk Hm Ho0) in HS. by destruct HS.
Qed.

(** *** One update *)

Lemma modification_step_spec S (cur : C) mods k op :
  cache_ok cur -> osim (current_entity cur k) (S !! k) ->
  exists (cur' : C) ms, modification_step (QErr:=QErr) (cur, mods) (k, op) = Ok (cur', mods ++ ms) /\
    cache_ok cur' /\ (forall k', k' <> k -> cache_view cur' !! k' = cache_view cur !! k') /\
    (forall o, cache_view cur' !! k = Some o -> osim o (apply_to op (S !! k))) /\
    (ms = [] /\ osim (S !! k) (apply_to op (S !! k)) \/
     exists m, ms = [m] /\ mod_entity_key m = k /\ mod_applies S m /\
               osim (mod_entity m) (apply_to op (S !! k))).
Proof.
  intros Hok Hsim. unfold modification_step.
  destruct (cache_remove_spec QErr cur k Hok) as (c1 & Hrm & Hok1 & Hv1). rewrite Hrm. simpl.
  fold (current_entity cur k).
  assert (Hins : forall o, exists c2 : C, cache_insert (E:=QErr) c1 k o = Ok c2 /\ cache_ok c2 /\
    (forall k', k' <> k -> cache_view c2 !! k' = cache_view cur !! k') /\ cache_view c2 !! k = Some o).
  { intros o. destruct (cache_insert_spec QErr c1 k o Hok1) as (c2 & H2 & Hok2 & Hv2).
    exists c2. rewrite Hv2, Hv1. split_and!; [done|done| |by rewrite lookup_insert_eq].
    intros k' Hk'. by rewrite lookup_insert_ne, lookup_delete_ne. }
  assert (Hset : forall o x, osim o x -> forall o', Some o = Some o' -> osim o' x)
    by (intros o x Hx o' Heq; by injection Heq as <-).
  destruct (current_entity cur k) as [e|] eqn:He; inversion Hsim as [? y Hy Heq1 Heq2|Heq1 Heq2];
    subst; rewrite <-?Heq2 in *.
  - assert (HS : is_Some (S !! k)) by by rewrite <-Heq2.
    destruct op as [|u|u]; simpl.
    + destruct (Hins None) as (c2 & -> & Hok2 & Hne & Hk). simpl. exists c2, [ModRemove k].
      rewrite Hk. split_and!; [done..|by apply Hset|]. right. eexists. split_and!; done.
    + set (data := merge_remove_null_fields e u).
      assert (Hd : osim (Some data) (Some (merge_remove_null_fields y u)))
        by (constructor; by apply merge_nulls_proper).
      destruct (Hins (Some data)) as (c2 & -> & Hok2 & Hne & Hk). simpl.
      destruct (entity_eqb e data) eqn:Heqb; simpl.
      * exists c2, []. rewrite app_nil_r, Hk. split_and!; [done..|by apply Hset|]. left. split; [done|].
        etrans; [|exact Hd]. constructor. etrans; [symmetry; exact Hy|by apply entity_eqb_sim].
      * exists c2, [ModOverwrite k data]. rewrite Hk. split_and!; [done..|by apply Hset|].
        right. eexists. split_and!; done.
    + destruct (Hins (Some u)) as (c2 & -> & Hok2 & Hne & Hk). simpl.
      destruct (entity_eqb e u) eqn:Heqb; simpl.
      * exists c2, []. rewrite app_nil_r, Hk. split_and!; [done..|by apply Hset|]. left. split; [done|].
        constructor. etrans; [symmetry; exact Hy|by apply entity_eqb_sim].
      * exists c2, [ModOverwrite k u]. rewrite Hk. split_and!; [done..|by apply Hset|].
        right. eexists. split_and!; done.
  - assert (Hins' : forall u, osim (Some (merge_remove_null_fields entity_new u)) (Some u))
      by (intros u; constructor; apply drop_nulls_sim).
    destruct op as [|u|u]; simpl.
    + exists c1, []. rewrite app_nil_r. split_and!; [done|done| | |by left].
      * intros k' Hk'. by rewrite Hv1, lookup_delete_ne.
      * intros o. by rewrite Hv1, lookup_delete_eq.
    + destruct (Hins (Some (merge_remove_null_fields entity_new u))) as (c2 & -> & Hok2 & Hne & Hk).
      simpl. eexists c2, [_]. rewrite Hk. split_and!; [done..|by apply Hset|].
      right. eexists. split_and!; [done|done|by symmetry|apply Hins'].
    + destruct (Hins (Some (merge_remove_null_fields entity_new u))) as (c2 & -> & Hok2 & Hne & Hk).
      simpl. eexists c2, [_]. rewrite Hk. split_and!; [done..|by apply Hset|].
      right. eexists. split_and!; [done|done|by symmetry|apply Hins'].
Qed.

(** *** All updates *)

Lemma apply_mods_app mods ms S : apply_mods (mods ++ ms) S = apply_mods ms (apply_mods mods S).
Proof. apply foldl_app. Qed.

Lemma apply_mod_lookup S m k :
  apply_mod S m !! k = if decide (mod_entity_key m = k) then mod_entity m else S !! k.
Proof.
  destruct m as [key data|key data|key]; simpl; case_decide; subst;
    by rewrite ?lookup_insert_eq, ?lookup_delete_eq, ?lookup_insert_ne, ?lookup_delete_ne by done.
Qed.

(** The state of the loop after the updates [pre] *)
Record mods_inv (S : gmap EntityKey Entity) (c1 : C) (pre : list (EntityKey * EntityOp)) (st : C * list EntityModification)
  : Prop := {
  mi_nodup : NoDup pre.*1;
  mi_ok : cache_ok st.1;
  mi_later k : k ∉ pre.*1 -> cache_view st.1 !! k = cache_view c1 !! k;
  mi_cached k o : k ∈ pre.*1 -> cache_view st.1 !! k = Some o ->
    osim o (apply_opt (list_to_map (M:=gmap EntityKey EntityOp) pre !! k) (S !! k));
  mi_store k : osim (apply_mods st.2 S !! k)
    (apply_opt (list_to_map (M:=gmap EntityKey EntityOp) pre !! k) (S !! k));
  mi_keys m : m ∈ st.2 -> mod_entity_key m ∈ pre.*1;
  mi_mods_nodup : NoDup (map mod_entity_key st.2);
  mi_applies : Forall (mod_applies S) st.2
}.

Lemma mods_inv_step S (c1 : C) pre st k op :
  mods_inv S c1 pre st -> k ∉ pre.*1 -> osim (current_entity c1 k) (S !! k) ->
  exists st', modification_step (QErr:=QErr) st (k, op) = Ok st' /\ mods_inv S c1 (pre ++ [(k, op)]) st'.
Proof.
  intros [Hnd Hok Hlater Hc Hst Hkeys Hmnd Happ] Hk Hsim. destruct st as [cur mods]. simpl in *.
  assert (Hcur : current_entity cur k = current_entity c1 k)
    by (unfold current_entity; by rewrite Hlater).
  rewrite <-Hcur in Hsim.
  destruct (modification_step_spec S cur mods k op Hok Hsim)
    as (cur' & ms & Hrun & Hok' & Hne & Hk' & Hms).
  exists (cur', mods ++ ms). split; [done|].
  assert (Hmap : forall k', list_to_map (M:=gmap EntityKey EntityOp) (pre ++ [(k, op)]) !! k' =
    if decide (k = k') then Some op else list_to_map (M:=gmap EntityKey EntityOp) pre !! k').
  { intros k'. rewrite list_to_map_snoc by done. case_decide; subst;
      by rewrite ?lookup_insert_eq, ?lookup_insert_ne by done. }
  assert (Hstore : apply_mods mods S !! k = S !! k \/ exists m, m ∈ mods /\ mod_entity_key m = k).
  { clear -Hk Hkeys. induction mods as [|m mods IH] using rev_ind; [by left|].
    rewrite apply_mods_app. simpl. rewrite apply_mod_lookup. case_decide as Hd.
    - right. exists m. set_solver.
    - destruct IH as [IH|(x & Hx & ?)]; [set_solver|by left|]. right. exists x. set_solver. }
  assert (Hfresh : forall m, m ∈ mods -> mod_entity_key m <> k) by (intros m Hm Heq; apply Hk; rewrite <-Heq; by apply Hkeys).
  split; simpl; rewrite ?fmap_app; simpl.
  - apply NoDup_app. split_and!; [done|set_solver|apply NoDup_singleton].
  - done.
  - intros k' Hk''. rewrite Hne by set_solver. apply Hlater. set_solver.
  - intros k' o Hin Ho. rewrite Hmap. destruct (decide (k = k')) as [<-|Hkk]; [by apply Hk'|].
    apply Hc; [set_solver|]. by rewrite <-Hne.
  - intros k'. rewrite Hmap, apply_mods_app. destruct Hms as [[-> Hsame]|(m & -> & Hmk & _ & Hme)]; simpl.
    + destruct (decide (k = k')) as [<-|]; [|apply Hst].
      destruct Hstore as [->|(m & Hm & Hmk)]; [done|by destruct (Hfresh m)].
    + rewrite apply_mod_lookup, Hmk. destruct (decide (k = k')) as [<-|]; [done|apply Hst].
  - intros m [Hm|Hm]%elem_of_app; [apply elem_of_app; left; by apply Hkeys|].
    destruct Hms as [[-> _]|(x & -> & Hmk & _)]; [by apply not_elem_of_nil in Hm|].
    apply list_elem_of_singleton in Hm as ->. set_solver.
  - apply NoDup_app. destruct Hms as [[-> _]|(x & -> & Hmk & _)]; simpl.
    + split_and!; [done|set_solver|constructor].
    + split_and!; [done| |apply NoDup_singleton]. intros y Hy. rewrite list_elem_of_singleton, Hmk.
      intros ->. apply list_elem_of_fmap in Hy as (m & Hy & Hm). by apply (Hfresh m).
  - apply Forall_app. split; [done|]. destruct Hms as [[-> _]|(x & -> & _ & Hx & _)]; by repeat constructor.
Qed.

Lemma mods_loop_spec S (c1 : C) l pre st :
  mods_inv S c1 pre st -> NoDup (pre ++ l).*1 ->
  (forall k, k ∈ l.*1 -> osim (current_entity c1 k) (S !! k)) ->
  exists st', try_fold (modification_step (QErr:=QErr)) st l = Ok st' /\ mods_inv S c1 (pre ++ l) st'.
Proof.
  revert pre st. induction l as [|[k op] l IH]; intros pre st Hinv Hnd Hsim; simpl.
  { exists st. by rewrite app_nil_r. }
  destruct (mods_inv_step S c1 pre st k op Hinv) as (st1 & -> & Hinv1).
  { rewrite fmap_app in Hnd. apply NoDup_app in Hnd as (_ & Hd & _). intros Hk.
    apply (Hd k Hk). simpl. by left. }
  { apply Hsim. by left. }
  simpl. destruct (IH (pre ++ [(k, op)]) st1 Hinv1) as (st2 & -> & Hinv2).
  - by rewrite <-app_assoc.
  - intros k' Hk'. apply Hsim. by right.
  - exists st2. split; [done|]. by rewrite <-app_assoc in Hinv2.
Qed.

Lemma as_modifications_spec S sid cache_size c :
  hash_iter_law -> reads_from S sid -> cache_ok (ec_current c) -> coherent S (ec_current c) ->
  ec_in_handler c = false -> (0 <= cache_size)%Z ->
  (forall k, is_Some (ec_updates c !! k) -> subgraph_id k = sid) -> immutable_new S c ->
  exists r, as_modifications hash_iter store cache_size c = Ok r /\
    NoDup (map mod_entity_key (mc_modifications r)) /\
    Forall (mod_applies S) (mc_modifications r) /\
    (forall k, osim (apply_mods (mc_modifications r) S !! k)
                    (apply_opt (ec_updates c !! k) (S !! k))) /\
    cache_ok (mc_entity_lfu_cache r) /\
    coherent (apply_mods (mc_modifications r) S) (mc_entity_lfu_cache r) /\
    mc_data_sources r = ec_data_sources c.
Proof.
  intros Hl Hread Hok Hco Hh Hsize Hsid Himm. unfold as_modifications. rewrite Hh. cbn [negb].
  destruct (load_all_spec S sid c Hl Hread Hok Hco Hsid Himm) as (c1 & -> & Hok1 & Hco1 & Hcur).
  cbn [bind_result].
  destruct (mods_loop_spec S c1 (hash_iter (ec_updates c)) [] (c1, [])) as ([cur mods] & -> & Hinv).
  { split; simpl; try done; [constructor|set_solver|set_solver|constructor]. }
  { by apply hash_iter_NoDup. }
  { intros k Hk. apply Hcur. rewrite (Hl (ec_updates c)), list_elem_of_fmap in Hk.
    destruct Hk as ([k' op] & -> & Hin%elem_of_map_to_list). by exists op. }
  destruct Hinv as [_ Hok2 Hlater Hc Hst _ Hmnd Happ]. cbn [fst snd app bind_result] in *.
  rewrite (hash_iter_map (ec_updates c) Hl) in *.
  destruct (cache_evict_spec QErr cur cache_size Hok2 Hsize) as (ev & c3 & -> & Hok3 & Hsub).
  cbn [bind_result]. eexists. split; [done|]. cbn [mc_modifications mc_entity_lfu_cache mc_data_sources snd].
  split_and!; try done. intros k o Ho. eapply lookup_weaken in Ho; [|exact Hsub].
  etrans; [|symmetry; apply Hst]. destruct (decide (k ∈ (hash_iter (ec_updates c)).*1)) as [Hin|Hin].
  - by apply Hc.
  - rewrite Hlater in Ho by done. apply Hco1 in Ho.
    rewrite <-(hash_iter_map (ec_updates c) Hl).
    by rewrite (not_elem_of_list_to_map_1 (M:=gmap EntityKey) _ k).
Qed.
(** C1: [as_modifications] turns the updates of a block into modifications that
    bring the store to what readers of the cache have seen: for a cache that
    stands for the entities [tx_base t] it succeeds, no entity appears in two
    modifications, entities are inserted only when the store lacks them and
    overwritten or removed only when it has them, applying the modifications to
    the store gives these entities, and the cache handed to the next block agrees
    with the store after these modifications. *)
Theorem as_modifications_correct S sid cache_size c t :
  hash_iter_law -> reads_from S sid -> represents S c t -> tx_work t = None -> (0 <= cache_size)%Z ->
  (forall k, is_Some (ec_updates c !! k) -> subgraph_id k = sid) -> immutable_new S c ->
  exists r, as_modifications hash_iter store cache_size c = Ok r /\
    NoDup (map mod_entity_key (mc_modifications r)) /\
    Forall (mod_applies S) (mc_modifications r) /\
    (forall k, osim (apply_mods (mc_modifications r) S !! k) (tx_base t k)) /\
    cache_ok (mc_entity_lfu_cache r) /\
    coherent (apply_mods (mc_modifications r) S) (mc_entity_lfu_cache r) /\
    mc_data_sources r = ec_data_sources c.
Proof.
  intros Hl Hread [Hok Hco _ Hh Hb _] Hw Hsize Hsid Himm. rewrite Hw in Hh.
  destruct (as_modifications_spec S sid cache_size c Hl Hread Hok Hco Hh Hsize Hsid Himm)
    as (r & Hr & Hnd & Happ & Hmods & Hrest).
  exists r. split_and!; try done; [|apply Hrest..]. intros k. etrans; [apply Hmods|apply Hb].
Qed.
End Correct.
