(* ===== verification/EntityCacheExamples.v ===== *)
(** * The entity cache over an LFU cache and a store in memory

    Instances that show that the assumptions of [EntityCacheProps.v] can be met,
    the witnesses of its theorems, and a block in which the cache emits a
    modification that changes nothing. *)

From S2P Require Import Prelude GraphqlAst Scalars ScalarModels RuntimeValue Values Names StoreTypes.
From S2P Require Import StoreProps Schema SchemaProps EntityValidate CacheInterface LfuCache LfuProps EntityCache.
From S2P Require Import EntityCacheProps.

#[export, refine] Instance key_weight : CacheWeight EntityKey := {
  indirect_weight k := Z.of_nat (String.length (subgraph_id k) + String.length (key_entity_id k))
}.
Proof. intros. lia. Defined.

#[export, refine] Instance entity_weight : CacheWeight Entity := {
  indirect_weight e := Z.of_nat (size e)
}.
Proof. intros. lia. Defined.

(** ** A store in memory *)

Section MemoryStore.
  Context (sid : DeploymentHash) (schema : Schema) (S : gmap EntityKey Entity).

Definition memory_find (ty : EntityType) (ids : list string) : list Entity :=
  omap (fun id => S !! mkKey sid ty id) ids.

Definition memory_get_many (keys : gmap EntityType (list string)) : gmap EntityType (list Entity) :=
  map_imap (fun ty ids => Some (memory_find ty ids)) keys.

Definition memory_store : EntityReader Empty_set := {|
  rd_get k := Ok (S !! k);
  rd_get_many keys := Ok (memory_get_many keys);
  rd_input_schema := schema
|}.

Lemma memory_store_reads :
  map_Forall (fun k e => entity_id e = Ok (key_entity_id k)) S -> reads_from memory_store S sid.
Proof.
  intros Hid. split.
  - intros k. by exists (S !! k).
  - intros keys. exists (memory_get_many keys). unfold memory_get_many. split_and!; [done|..].
    + intros ty e. rewrite map_lookup_imap. destruct (keys !! ty) as [ids|]; simpl;
        [|by intros ?%not_elem_of_nil].
      unfold memory_find. intros (id & Hin & He)%list_elem_of_omap. exists id. split_and!; [done| |by rewrite He].
      apply (Hid _ _ He).
    + intros ty id. rewrite map_lookup_imap. destruct (keys !! ty) as [ids|]; simpl;
        [|by intros ?%not_elem_of_nil].
      intros Hin [e He]. exists e. split; [|apply (Hid _ _ He)]. apply list_elem_of_omap. eauto.
Qed.
End MemoryStore.

Abbreviation lfu := (LfuCache (K:=EntityKey) (V:=option Entity)).

#[local] Instance lfu_example_ops : CacheOps EntityKey (option Entity) lfu := lfu_ops 16.
#[local] Instance lfu_example_laws : CacheLaws EntityKey (option Entity) lfu := lfu_laws 16 ltac:(lia).

Definition album_key : EntityKey := mkKey "QmMusic" "Album" "0x01".
Definition album : Entity := {["id" := VBytes [Byte.x01]; "band" := VString "beatles"]}.
Definition example_contents : gmap EntityKey Entity := {[band_key := band; album_key := album]}.

Definition example_store : EntityReader Empty_set :=
  memory_store "QmMusic" example_schema example_contents.

Lemma example_store_reads : reads_from example_store example_contents "QmMusic".
Proof.
  apply memory_store_reads. unfold example_contents.
  apply map_Forall_insert_2; [done|]. by apply map_Forall_singleton.
Qed.

Lemma map_to_list_law : hash_iter_law (fun m => map_to_list m).
Proof. by intros m. Qed.

Definition example_ec_calls : list (ec_call (DataSource:=unit)) :=
  [EcGet band_key; EcEnter; EcSet band_key {["name" := VString "Beatles"]}; EcGet band_key;
   EcDiscard; EcGet band_key; EcEnter; EcRemove album_key; EcExit; EcSet album_key {["band" := VString "beatles"]};
   EcGet album_key].

Lemma example_tx_runs :
  match tx_run example_store example_ec_calls (mkTxn (fun k => example_contents !! k) None) with
  | Ok t => bool_decide (tx_seen t band_key = Some band) | _ => false end = true.
Proof. vm_compute. reflexivity. Qed.

Lemma example_set_safe k e :
  k = band_key \/ k = album_key -> with_id example_store k e <> Panic -> ec_call_safe example_store 2 (EcSet (DataSource:=unit) k e).
Proof.
  intros Hk Hid. split; [done|]. intros e'. apply (entity_validate_known 1 e' example_schema); [exact example_ids_ok|].
  intros o f Ho Hf. destruct Hk as [-> | ->]; vm_compute in Ho; injection Ho as <-; cbn [obj_fields] in Hf;
    repeat (apply elem_of_cons in Hf as [->|Hf]; [by vm_compute|]); by apply not_elem_of_nil in Hf.
Qed.

Lemma entity_cache_refines_transactions_witness :
  exists answers (c : EntityCache lfu unit),
    ec_run (fun m => map_to_list m) example_store 2 example_ec_calls ec_new = Ok (answers, c) /\
    answered example_store 2 example_ec_calls (mkTxn (fun k => example_contents !! k) None) answers.
Proof.
  pose proof example_tx_runs as Ht.
  assert (Hsafe : Forall (ec_call_safe example_store 2) example_ec_calls).
  { unfold example_ec_calls. repeat (apply Forall_cons; split; [first [exact I|apply example_set_safe; [by auto|vm_compute; discriminate]]|]).
    apply Forall_nil_2. }
  pose proof (entity_cache_refines_transactions (DataSource:=unit) (fun m => map_to_list m) example_store
    example_contents "QmMusic" 2 example_ec_calls map_to_list_law example_store_reads Hsafe) as Hrun.
  destruct (tx_run example_store example_ec_calls (mkTxn (fun k => example_contents !! k) None)) as [t|e|].
  - destruct Hrun as (answers & c & Hec & Hans & _). exists answers, c. split; [exact Hec|exact Hans].
  - destruct Hrun.
  - discriminate Ht.
Defined.

Definition updated_cache : EntityCache lfu unit :=
  ec_remove (ec_entity_op ec_new band_key (OpUpdate {["name" := VString "Beatles"]})) album_key.

Lemma updates_of_music (c : EntityCache lfu unit) :
  Forall (fun kop => subgraph_id kop.1 = "QmMusic") (map_to_list (ec_updates c)) ->
  forall k, is_Some (ec_updates c !! k) -> subgraph_id k = "QmMusic".
Proof.
  intros Hall k [op Hop]. rewrite Forall_forall in Hall. apply (Hall (k, op)).
  by apply elem_of_map_to_list.
Qed.

Lemma no_immutables (c : EntityCache lfu unit) : immutable_new example_store example_contents c.
Proof.
  intros k _ Himm _. apply bool_decide_eq_true in Himm. vm_compute in Himm.
  discriminate Himm.
Qed.

Lemma ec_new_coherent S : coherent S (cache_new (C:=lfu)).
Proof. intros k o. by rewrite cache_new_view, lookup_empty. Qed.

Definition updated_txn : Txn :=
  tx_write album_key OpRemove (tx_write band_key (OpUpdate {["name" := VString "Beatles"]})
    (mkTxn (fun k => example_contents !! k) None)).

Lemma as_modifications_correct_witness :
  exists r, as_modifications (fun m => map_to_list m) example_store 1000 updated_cache = Ok r /\
    NoDup (map mod_entity_key (mc_modifications r)) /\
    Forall (mod_applies example_contents) (mc_modifications r) /\
    (forall k, osim (apply_mods (mc_modifications r) example_contents !! k) (tx_base updated_txn k)) /\
    cache_ok (mc_entity_lfu_cache r) /\
    coherent (apply_mods (mc_modifications r) example_contents) (mc_entity_lfu_cache r) /\
    mc_data_sources r = ec_data_sources updated_cache.
Proof.
  apply (as_modifications_correct (fun m => map_to_list m) example_store example_contents "QmMusic").
  - apply map_to_list_law.
  - apply example_store_reads.
  - apply represents_write, represents_write, represents_new.
  - done.
  - lia.
  - apply updates_of_music. vm_compute. repeat constructor.
  - apply no_immutables.
Defined.

Definition name_update : Entity := {["name" := VString "Beatles"]}.
Definition empty_cache : EntityCache lfu unit := ec_new.
Definition set_result : result (SetError Empty_set) unit * EntityCache lfu unit :=
  ec_set example_store 1 empty_cache band_key name_update.

Lemma set_result_ok : set_result.1 = Ok ().
Proof. vm_compute. reflexivity. Qed.

Lemma name_update_with_id :
  with_id example_store band_key name_update = Ok (entity_set name_update "id" (VString "beatles")).
Proof. vm_compute. reflexivity. Qed.

Lemma ec_set_effect_witness :
  set_result.1 = Ok () /\ forall k, osim (view example_contents set_result.2 k)
    (if decide (band_key = k)
     then apply_to (OpUpdate (entity_set name_update "id" (VString "beatles")))
            (view example_contents empty_cache k)
     else view example_contents empty_cache k).
Proof.
  pose proof (ec_set_effect example_store example_contents "QmMusic" 1 empty_cache band_key name_update
    set_result.1 set_result.2 example_store_reads (cache_new_ok (C:=lfu)) (ec_new_coherent _)
    (fun _ => eq_refl) (surjective_pairing _)) as Hset.
  rewrite name_update_with_id in Hset. split; [exact set_result_ok|].
  apply Hset. rewrite set_result_ok. discriminate.
Defined.

(** The documentation of the cache promises that only entities that will
    actually change are changed.  Removing an entity and storing it again with
    the attributes it had plus a null one yields an [Overwrite] whose entity has
    exactly the attributes the store already has. *)
Theorem overwrite_changes_nothing :
  let again : Entity := <["founded" := VNull]> band in
  let c := ec_entity_op (ec_remove empty_cache band_key) band_key (OpUpdate again) in
  map_result mc_modifications (as_modifications (fun m => map_to_list m) example_store 1000 c)
  = Ok [ModOverwrite band_key again] /\
  osim (Some again) (example_contents !! band_key).
Proof.
  cbn zeta. split; [vm_compute; reflexivity|].
  unfold example_contents. rewrite lookup_insert_eq. constructor. intros k. unfold attr.
  case_decide; [reflexivity|].
  destruct (decide (k = "founded")) as [->|Hk]; [vm_compute; constructor|].
  rewrite lookup_insert_ne by congruence. reflexivity.
Qed.
