(* ===== verification/BlockState.v ===== *)
(** * The state of a block

    [BlockState] of [graph/src/components/subgraph/instance.rs]: what the handlers
    of one block have done so far, entity changes, data sources they asked for and
    deterministic errors.  The templates of data sources and their context belong
    to the chain and are parameters. *)

From S2P Require Import Prelude GraphqlAst Scalars RuntimeValue Values Names StoreTypes StoreProps.
From S2P Require Import Schema EntityValidate CacheInterface EntityCache.

Section BlockState.
Context {C : Type} `{!CacheOps EntityKey (option Entity) C}.
Context {DataSource Template Ctx : Type}.
Context (hash_iter : gmap EntityKey EntityOp -> list (EntityKey * EntityOp)).
Local Abbreviation cache := (EntityCache C DataSource).

Record DataSourceTemplateInfo := mkInfo {
  dti_template : Template;
  dti_params : list string;
  dti_context : option Ctx;
  dti_creation_block : BlockNumber
}.

Record BlockState := mkState {
  bs_entity_cache : cache;
  bs_deterministic_errors : list SubgraphError;
  bs_created_data_sources : list DataSourceTemplateInfo;
  bs_handler_created_data_sources : list DataSourceTemplateInfo;
  bs_in_handler : bool
}.

Definition bs_new (lfu_cache : C) : BlockState := mkState (ec_with_current lfu_cache) [] [] [] false.

Definition bs_with_cache (s : BlockState) (c : cache) : BlockState :=
  mkState c (bs_deterministic_errors s) (bs_created_data_sources s) (bs_handler_created_data_sources s)
    (bs_in_handler s).

Definition bs_extend {E} (s other : BlockState) : result E BlockState :=
  assert! negb (bs_in_handler other) ;;
  let '(created, handler_created) :=
    if bs_in_handler s
    then (bs_created_data_sources s, bs_handler_created_data_sources s ++ bs_created_data_sources other)
    else (bs_created_data_sources s ++ bs_created_data_sources other, bs_handler_created_data_sources s) in
  let? c := ec_extend hash_iter (bs_entity_cache s) (bs_entity_cache other) in
  Ok (mkState c (bs_deterministic_errors s ++ bs_deterministic_errors other) created handler_created
        (bs_in_handler s)).

Definition bs_has_errors (s : BlockState) : bool :=
  match bs_deterministic_errors s with [] => false | _ => true end.

Definition bs_has_created_data_sources {E} (s : BlockState) : result E bool :=
  assert! negb (bs_in_handler s) ;;
  Ok (match bs_created_data_sources s with [] => false | _ => true end).

Definition bs_drain_created_data_sources {E} (s : BlockState)
    : result E (list DataSourceTemplateInfo * BlockState) :=
  assert! negb (bs_in_handler s) ;;
  Ok (bs_created_data_sources s,
      mkState (bs_entity_cache s) (bs_deterministic_errors s) [] (bs_handler_created_data_sources s)
        (bs_in_handler s)).

Definition bs_enter_handler {E} (s : BlockState) : result E BlockState :=
  assert! negb (bs_in_handler s) ;;
  let? c := ec_enter_handler (bs_entity_cache s) in
  Ok (mkState c (bs_deterministic_errors s) (bs_created_data_sources s)
        (bs_handler_created_data_sources s) true).

Definition bs_exit_handler {E} (s : BlockState) : result E BlockState :=
  assert! bs_in_handler s ;;
  let? c := ec_exit_handler hash_iter (bs_entity_cache s) in
  Ok (mkState c (bs_deterministic_errors s)
        (bs_created_data_sources s ++ bs_handler_created_data_sources s) [] false).

Definition bs_exit_handler_and_discard_changes_due_to_error {E} (s : BlockState) (e : SubgraphError)
    : result E BlockState :=
  assert! bs_in_handler s ;;
  let? c := ec_exit_handler_and_discard_changes (bs_entity_cache s) in
  Ok (mkState c (bs_deterministic_errors s ++ [e]) (bs_created_data_sources s) [] false).

Definition bs_push_created_data_source {E} (s : BlockState) (ds : DataSourceTemplateInfo)
    : result E BlockState :=
  assert! bs_in_handler s ;;
  Ok (mkState (bs_entity_cache s) (bs_deterministic_errors s) (bs_created_data_sources s)
        (bs_handler_created_data_sources s ++ [ds]) (bs_in_handler s)).

End BlockState.
Arguments DataSourceTemplateInfo : clear implicits.
Arguments BlockState : clear implicits.
