(* ===== verification/HostExports.v ===== *)
(** * Host exports

    [runtime/wasm/src/host_exports.rs] and the parts of
    [runtime/wasm/src/module/mod.rs] and [graph/src/runtime/mod.rs] around it: what
    a mapping can ask of the node, how failures of these functions become traps,
    and how the outcome of a handler is turned into a block state.

    The code of a mapping runs in wasmtime; what it does to the node is a sequence
    of calls of host exports that ends with a return or a trap, a [Program], where
    arguments and results are the values that are read from and written to its
    memory.  Functions of the chain ([HostFn]) have their outcome in the program. *)

From S2P Require Import Prelude GraphqlAst Scalars RuntimeValue Values Names StoreTypes StoreProps.
From S2P Require Import Schema EntityValidate CacheInterface EntityCache BlockState Gas ProofOfIndexing.

(** ** Errors *)

Inductive TrapCode :=
| StackOverflow | MemoryOutOfBounds | HeapMisaligned | TableOutOfBounds | IndirectCallToNull
| BadSignature | IntegerOverflow | IntegerDivisionByZero | BadConversionToInteger
| UnreachableCodeReached | Interrupt.

(** What the messages of the errors of type [anyhow::Error] say. *)
Inductive AnyError (QErr : Type) :=
| GasLimitExceeded (used : GasAmount)
| MappingAborted (message file_name : option string) (line column : option Z)
| BigIntDivisionByZero (x : Z)
| BigIntRemainderByZero (x : Z)
| NoTemplate (name : string)
| CriticalLogged
| SetFailed (e : SetError QErr)
| QueryFailed (e : QErr)
| ForkFailed (e : string)
| TrapError (code : TrapCode)
| HandlerTimeout (handler : string)
| FunctionNotFound (handler : string)
| External (e : string)
| WithContext (context : string) (e : AnyError QErr).
Arguments GasLimitExceeded {QErr}.
Arguments MappingAborted {QErr}.
Arguments BigIntDivisionByZero {QErr}.
Arguments BigIntRemainderByZero {QErr}.
Arguments NoTemplate {QErr}.
Arguments CriticalLogged {QErr}.
Arguments SetFailed {QErr}.
Arguments QueryFailed {QErr}.
Arguments ForkFailed {QErr}.
Arguments TrapError {QErr}.
Arguments HandlerTimeout {QErr}.
Arguments FunctionNotFound {QErr}.
Arguments External {QErr}.
Arguments WithContext {QErr}.

Inductive HostExportError (E : Type) := HostUnknown (e : E) | HostPossibleReorg (e : E) | HostDeterministic (e : E).
Arguments HostUnknown {E}.
Arguments HostPossibleReorg {E}.
Arguments HostDeterministic {E}.

Inductive MappingError (E : Type) := MappingPossibleReorg (e : E) | MappingUnknown (e : E).
Arguments MappingPossibleReorg {E}.
Arguments MappingUnknown {E}.

(** [MappingError::context] *)
Definition mapping_context {QErr} (s : string) (e : MappingError (AnyError QErr)) : MappingError (AnyError QErr) :=
  match e with
  | MappingPossibleReorg e => MappingPossibleReorg (WithContext s e)
  | MappingUnknown e => MappingUnknown (WithContext s e)
  end.

Inductive DeterminismLevel := LevelDeterministic | LevelNonDeterministic | LevelPossibleReorg | LevelUnimplemented.

Section HostErrors.
Context {QErr : Type}.
Local Abbreviation AnyError := (AnyError QErr).

Definition deterministic_inner (e : DeterministicHostError AnyError) : AnyError :=
  match e with GasError used => GasLimitExceeded used | OtherError e => e end.

(** [From<anyhow::Error> for HostExportError] *)
Definition host_error_from_any (e : AnyError) : HostExportError AnyError := HostUnknown e.

(** [From<DeterministicHostError> for HostExportError] *)
Definition host_error_from_deterministic (e : DeterministicHostError AnyError) : HostExportError AnyError :=
  match e with GasError used => HostUnknown (GasLimitExceeded used) | OtherError e => HostDeterministic e end.

(** [IntoTrap] *)
Definition host_error_level (e : HostExportError AnyError) : DeterminismLevel :=
  match e with
  | HostDeterministic _ => LevelDeterministic
  | HostUnknown _ => LevelUnimplemented
  | HostPossibleReorg _ => LevelPossibleReorg
  end.

Definition host_error_into_trap (e : HostExportError AnyError) : AnyError :=
  match e with HostUnknown e | HostPossibleReorg e | HostDeterministic e => e end.

Definition deterministic_error_level (e : DeterministicHostError AnyError) : DeterminismLevel :=
  LevelDeterministic.

End HostErrors.

(** ** Programs *)

Inductive LogLevel := LogCritical | LogError | LogWarning | LogInfo | LogDebug.

Inductive BigIntOp := BigIntPlus | BigIntMinus | BigIntTimes | BigIntDividedBy | BigIntMod.

Inductive HostAnswer := AnswerUnit | AnswerEntity (e : option Entity) | AnswerBigInt (n : Z).

Inductive HostCall (Ctx E : Type) :=
| CallStoreSet (entity_type id : string) (data : Entity)
| CallStoreRemove (entity_type id : string)
| CallStoreGet (entity_type id : string)
| CallDataSourceCreate (name : string) (params : list string) (context : option Ctx)
| CallAbort (message file_name : option string) (line column : option Z)
| CallLog (level : LogLevel) (msg : string)
| CallBigInt (op : BigIntOp) (x y : Z)
| CallGas (gas_used : Z)
| CallHostFn (outcome : result (HostExportError E) HostAnswer).
Arguments CallStoreSet {Ctx E}.
Arguments CallStoreRemove {Ctx E}.
Arguments CallStoreGet {Ctx E}.
Arguments CallDataSourceCreate {Ctx E}.
Arguments CallAbort {Ctx E}.
Arguments CallLog {Ctx E}.
Arguments CallBigInt {Ctx E}.
Arguments CallGas {Ctx E}.
Arguments CallHostFn {Ctx E}.

(** A trap of the mapping itself, or one that a host export returned. *)
Inductive Trap (E : Type) := TrapWithCode (code : TrapCode) | TrapFromHost (e : E).
Arguments TrapWithCode {E}.
Arguments TrapFromHost {E}.

Inductive Program (Ctx E : Type) :=
| ProgramReturn
| ProgramTrap (code : TrapCode)
| ProgramCall (call : HostCall Ctx E) (k : HostAnswer -> Program Ctx E).
Arguments ProgramReturn {Ctx E}.
Arguments ProgramTrap {Ctx E}.
Arguments ProgramCall {Ctx E}.

(** ** The exports *)

Record HostExportsData (Template : Type) := mkExports {
  he_subgraph_id : DeploymentHash;
  he_causality_region : string;
  he_templates : list Template
}.
Arguments mkExports {Template}.
Arguments he_subgraph_id {Template}.
Arguments he_causality_region {Template}.
Arguments he_templates {Template}.

Section HostExports.
Context `{HX : !Hex} `{HB : !NumBits} `{HS : !StableHash}.
Context {C : Type} `{HC : !CacheOps EntityKey (option Entity) C}.
Context {QErr DataSource Template Ctx : Type}.
Context (template_name : Template -> string).
Context (hash_iter : gmap EntityKey EntityOp -> list (EntityKey * EntityOp)).
Context (store : EntityReader QErr).
(** [fuel] bounds the recursion of [Entity::validate]. *)
Context (fuel : nat).
Context (max_gas_per_handler : Z).
(** The fork of a subgraph that is debugged, and how traps and errors are
    displayed. *)
Context (debug_fork : option (string -> string -> result string (option Entity))).
Context (trap_to_string : Trap (AnyError QErr) -> string) (error_text : AnyError QErr -> string).
Context (timeout : option Z).

Local Abbreviation AnyError := (AnyError QErr).
Local Abbreviation BlockState := (BlockState C DataSource Template Ctx).
Local Abbreviation Program := (Program Ctx AnyError).
Local Abbreviation HostCall := (HostCall Ctx AnyError).
Local Abbreviation HostExportsData := (HostExportsData Template).

(** What a running instance has of the node: the block state, the shared proof of
    indexing, the gas counter and the two flags of [WasmInstanceContext].  The flag
    of the function [gas] is a variable of its own. *)
Record InstanceCtx := mkInstance {
  ic_state : BlockState;
  ic_proof_of_indexing : option ProofOfIndexing;
  ic_gas : GasAmount;
  ic_possible_reorg : bool;
  ic_deterministic_host_trap : bool;
  ic_gas_host_trap : bool
}.

Definition ic_with_state (i : InstanceCtx) (s : BlockState) : InstanceCtx :=
  mkInstance s (ic_proof_of_indexing i) (ic_gas i) (ic_possible_reorg i) (ic_deterministic_host_trap i)
    (ic_gas_host_trap i).

Definition ic_with_poi (i : InstanceCtx) (p : option ProofOfIndexing) : InstanceCtx :=
  mkInstance (ic_state i) p (ic_gas i) (ic_possible_reorg i) (ic_deterministic_host_trap i) (ic_gas_host_trap i).

Definition ic_with_gas (i : InstanceCtx) (gas : GasAmount) : InstanceCtx :=
  mkInstance (ic_state i) (ic_proof_of_indexing i) gas (ic_possible_reorg i) (ic_deterministic_host_trap i)
    (ic_gas_host_trap i).

Definition ic_consume {E} (i : InstanceCtx) (amount : GasAmount)
    : result (DeterministicHostError E) unit * InstanceCtx :=
  let (r, gas) := consume_host_fn max_gas_per_handler (ic_gas i) amount in (r, ic_with_gas i gas).

Definition write_poi_event (i : InstanceCtx) (region : string) (event : ProofOfIndexingEvent)
    : result AnyError InstanceCtx :=
  match ic_proof_of_indexing i with
  | Some p => let? p := poi_write p region event in Ok (ic_with_poi i (Some p))
  | None => Ok i
  end.

Definition he_abort (i : InstanceCtx) (message file_name : option string) (line column : option Z)
    : result (DeterministicHostError AnyError) HostAnswer * InstanceCtx :=
  let (r, i) := ic_consume i DEFAULT_BASE_COST in
  (let? _ := r in
   match file_name, line, column with
   | None, None, None | Some _, None, None | Some _, Some _, None | Some _, Some _, Some _ =>
       Err (OtherError (MappingAborted message file_name line column))
   | _, _, _ => Panic
   end, i).

Definition he_store_set (he : HostExportsData) (i : InstanceCtx) (entity_type id : string) (data : Entity)
    : result AnyError HostAnswer * InstanceCtx :=
  match write_poi_event i (he_causality_region he) (SetEntity entity_type id data) with
  | Ok i =>
      let key := mkKey (he_subgraph_id he) entity_type id in
      let (r, i) := ic_consume i (gas_with_args STORE_SET
        (gas_combine Linear (gas_size_of_key key) (gas_size_of_entity data))) in
      match r with
      | Ok _ =>
          let (r, cache) := ec_set store fuel (bs_entity_cache (ic_state i)) key data in
          (let? _ := map_err SetFailed r in Ok AnswerUnit,
           ic_with_state i (bs_with_cache (ic_state i) cache))
      | Err e => (Err (deterministic_inner e), i)
      | Panic => (Panic, i)
      end
  | Err e => (Err e, i)
  | Panic => (Panic, i)
  end.

Definition he_store_remove (he : HostExportsData) (i : InstanceCtx) (entity_type id : string)
    : result (HostExportError AnyError) HostAnswer * InstanceCtx :=
  match write_poi_event i (he_causality_region he) (RemoveEntity entity_type id) with
  | Ok i =>
      let key := mkKey (he_subgraph_id he) entity_type id in
      let (r, i) := ic_consume i (gas_with_args STORE_REMOVE (gas_size_of_key key)) in
      match r with
      | Ok _ => (Ok AnswerUnit,
                 ic_with_state i (bs_with_cache (ic_state i) (ec_remove (bs_entity_cache (ic_state i)) key)))
      | Err e => (Err (host_error_from_deterministic e), i)
      | Panic => (Panic, i)
      end
  | Err e => (Err (host_error_from_any e), i)
  | Panic => (Panic, i)
  end.

Definition he_store_get (he : HostExportsData) (i : InstanceCtx) (entity_type id : string)
    : result AnyError (option Entity) * InstanceCtx :=
  let store_key := mkKey (he_subgraph_id he) entity_type id in
  match ec_get store (bs_entity_cache (ic_state i)) store_key with
  | Ok (result, cache) =>
      let i := ic_with_state i (bs_with_cache (ic_state i) cache) in
      let (r, i) := ic_consume i (gas_with_args STORE_GET
        (gas_combine Linear (gas_size_of_key store_key) (gas_size_of_option gas_size_of_entity result))) in
      (match r with Ok _ => Ok result | Err e => Err (deterministic_inner e) | Panic => Panic end, i)
  | Err e => (Err (QueryFailed e), i)
  | Panic => (Panic, i)
  end.

Definition he_data_source_create (he : HostExportsData) (i : InstanceCtx) (name : string)
    (params : list string) (context : option Ctx) (creation_block : BlockNumber)
    : result (HostExportError AnyError) HostAnswer * InstanceCtx :=
  let (r, i) := ic_consume i CREATE_DATA_SOURCE in
  match r with
  | Ok _ =>
      match List.find (fun t => bool_decide (template_name t = name)) (he_templates he) with
      | None => (Err (host_error_from_deterministic (OtherError (NoTemplate name))), i)
      | Some template =>
          match bs_push_created_data_source (E:=HostExportError AnyError) (ic_state i)
                  (mkInfo template params context creation_block) with
          | Ok s => (Ok AnswerUnit, ic_with_state i s)
          | Err e => (Err e, i)
          | Panic => (Panic, i)
          end
      end
  | Err e => (Err (host_error_from_deterministic e), i)
  | Panic => (Panic, i)
  end.

Definition he_log_log (i : InstanceCtx) (level : LogLevel) (msg : string)
    : result (DeterministicHostError AnyError) HostAnswer * InstanceCtx :=
  let (r, i) := ic_consume i (gas_with_args LOG_OP (gas_size_of_str msg)) in
  (let? _ := r in
   match level with LogCritical => Err (OtherError CriticalLogged) | _ => Ok AnswerUnit end, i).

Definition big_int_complexity (op : BigIntOp) : Complexity :=
  match op with BigIntPlus | BigIntMinus => Max | BigIntTimes | BigIntDividedBy | BigIntMod => Mul end.

Definition he_big_int (i : InstanceCtx) (op : BigIntOp) (x y : Z)
    : result (DeterministicHostError AnyError) HostAnswer * InstanceCtx :=
  let (r, i) := ic_consume i (gas_with_args BIG_MATH_GAS_OP
    (gas_combine (big_int_complexity op) (gas_size_of_bigint x) (gas_size_of_bigint y))) in
  (let? _ := r in
   match op with
   | BigIntPlus => Ok (AnswerBigInt (x + y))
   | BigIntMinus => Ok (AnswerBigInt (x - y))
   | BigIntTimes => Ok (AnswerBigInt (x * y))
   | BigIntDividedBy =>
       if (y =? 0)%Z then Err (OtherError (BigIntDivisionByZero x)) else Ok (AnswerBigInt (Z.quot x y))
   | BigIntMod =>
       if (y =? 0)%Z then Err (OtherError (BigIntRemainderByZero x)) else Ok (AnswerBigInt (Z.rem x y))
   end, i).

(** [WasmInstanceContext::store_get]: what the store does not have is fetched from
    the fork and set. *)
Definition wic_store_get (he : HostExportsData) (i : InstanceCtx) (entity_type id : string)
    : result (HostExportError AnyError) HostAnswer * InstanceCtx :=
  let (r, i) := he_store_get he i entity_type id in
  match r with
  | Ok (Some entity) => (Ok (AnswerEntity (Some entity)), i)
  | Ok None =>
      match debug_fork with
      | Some fetch =>
          match fetch entity_type id with
          | Err e => (Err (HostUnknown (ForkFailed e)), i)
          | Panic => (Panic, i)
          | Ok (Some entity) =>
              let (r, i) := he_store_set he i entity_type id entity in
              (let? _ := map_err host_error_from_any r in Ok (AnswerEntity (Some entity)), i)
          | Ok None => (Ok (AnswerEntity None), i)
          end
      | None => (Ok (AnswerEntity None), i)
      end
  | Err e => (Err (host_error_from_any e), i)
  | Panic => (Panic, i)
  end.

(** ** Linking *)

(** The flags that a failing export leaves in the instance. *)
Definition note_level (i : InstanceCtx) (level : DeterminismLevel) : InstanceCtx :=
  match level with
  | LevelDeterministic =>
      mkInstance (ic_state i) (ic_proof_of_indexing i) (ic_gas i) (ic_possible_reorg i) true (ic_gas_host_trap i)
  | LevelPossibleReorg =>
      mkInstance (ic_state i) (ic_proof_of_indexing i) (ic_gas i) true (ic_deterministic_host_trap i)
        (ic_gas_host_trap i)
  | LevelUnimplemented | LevelNonDeterministic => i
  end.

(** [link!] for exports with the one error type and the other *)
Definition link_host (r : result (HostExportError AnyError) HostAnswer * InstanceCtx)
    : result (Trap AnyError) HostAnswer * InstanceCtx :=
  match r with
  | (Ok a, i) => (Ok a, i)
  | (Err e, i) => (Err (TrapFromHost (host_error_into_trap e)), note_level i (host_error_level e))
  | (Panic, i) => (Panic, i)
  end.

Definition link_deterministic (r : result (DeterministicHostError AnyError) HostAnswer * InstanceCtx)
    : result (Trap AnyError) HostAnswer * InstanceCtx :=
  match r with
  | (Ok a, i) => (Ok a, i)
  | (Err e, i) => (Err (TrapFromHost (deterministic_inner e)), note_level i (deterministic_error_level e))
  | (Panic, i) => (Panic, i)
  end.

(** The function [gas] that the instrumentation calls *)
Definition link_gas (i : InstanceCtx) (gas_used : Z) : result (Trap AnyError) HostAnswer * InstanceCtx :=
  let (r, i) := ic_consume i gas_used in
  match r with
  | Ok _ => (Ok AnswerUnit, i)
  | Err e => (Err (TrapFromHost (deterministic_inner e)),
              mkInstance (ic_state i) (ic_proof_of_indexing i) (ic_gas i) (ic_possible_reorg i)
                (ic_deterministic_host_trap i) true)
  | Panic => (Panic, i)
  end.

Definition call_host (he : HostExportsData) (block : BlockNumber) (i : InstanceCtx) (call : HostCall)
    : result (Trap AnyError) HostAnswer * InstanceCtx :=
  match call with
  | CallStoreSet entity_type id data =>
      let (r, i) := he_store_set he i entity_type id data in link_host (map_err host_error_from_any r, i)
  | CallStoreRemove entity_type id => link_host (he_store_remove he i entity_type id)
  | CallStoreGet entity_type id => link_host (wic_store_get he i entity_type id)
  | CallDataSourceCreate name params context =>
      link_host (he_data_source_create he i name params context block)
  | CallAbort message file_name line column => link_deterministic (he_abort i message file_name line column)
  | CallLog level msg => link_deterministic (he_log_log i level msg)
  | CallBigInt op x y => link_deterministic (he_big_int i op x y)
  | CallGas gas_used => link_gas i gas_used
  | CallHostFn outcome => link_host (outcome, i)
  end.

Fixpoint run_program (he : HostExportsData) (block : BlockNumber) (p : Program) (i : InstanceCtx)
    : result (Trap AnyError) unit * InstanceCtx :=
  match p with
  | ProgramReturn => (Ok tt, i)
  | ProgramTrap code => (Err (TrapWithCode code), i)
  | ProgramCall call k =>
      match call_host he block i call with
      | (Ok a, i) => run_program he block (k a) i
      | (Err t, i) => (Err t, i)
      | (Panic, i) => (Panic, i)
      end
  end.

(** ** Handlers *)

Definition TRAP_TIMEOUT : string := "trap: interrupt".

Definition is_deterministic_code (code : TrapCode) : bool :=
  match code with
  | MemoryOutOfBounds | HeapMisaligned | TableOutOfBounds | IndirectCallToNull | BadSignature
  | IntegerOverflow | IntegerDivisionByZero | BadConversionToInteger | UnreachableCodeReached => true
  | _ => false
  end.

Definition trap_is_deterministic (i : InstanceCtx) (trap : Trap AnyError) : bool :=
  match trap with
  | TrapWithCode code => is_deterministic_code code || ic_deterministic_host_trap i
  | TrapFromHost _ => ic_deterministic_host_trap i
  end.

Definition trap_error (trap : Trap AnyError) : AnyError :=
  match trap with TrapWithCode code => TrapError code | TrapFromHost e => e end.

(** [invoke_handler]: the function that is called, if the module has it.  The
    proof of indexing is shared, so what was written to it stays. *)
Definition invoke_handler (he : HostExportsData) (block_ptr : BlockPtr) (handler : string)
    (func : option Program) (i : InstanceCtx)
    : result (MappingError AnyError) (BlockState * GasAmount) * option ProofOfIndexing :=
  match func with
  | None => (Err (MappingUnknown (FunctionNotFound handler)), ic_proof_of_indexing i)
  | Some func =>
      match bs_enter_handler (E:=MappingError AnyError) (ic_state i) with
      | Err e => (Err e, ic_proof_of_indexing i)
      | Panic => (Panic, ic_proof_of_indexing i)
      | Ok s =>
          let (r, i) := run_program he (bp_number block_ptr) func (ic_with_state i s) in
          let exit := bs_exit_handler (E:=MappingError AnyError) hash_iter (ic_state i) in
          (match r with
           | Panic => Panic
           | Ok _ => let? s := exit in Ok (s, ic_gas i)
           | Err trap =>
               if ic_possible_reorg i then
                 let? _ := exit in Err (MappingPossibleReorg (trap_error trap))
               else if str_contains TRAP_TIMEOUT (trap_to_string trap) then
                 let? _ := exit in
                 let? _ := expect timeout in
                 Err (MappingUnknown (HandlerTimeout handler))
               else if trap_is_deterministic i trap then
                 let error := mkError (he_subgraph_id he) (replace_newlines (error_text (trap_error trap)))
                                (Some block_ptr) (Some handler) true in
                 let? s := bs_exit_handler_and_discard_changes_due_to_error (ic_state i) error in
                 Ok (s, ic_gas i)
               else let? _ := exit in Err (MappingUnknown (trap_error trap))
           end, ic_proof_of_indexing i)
      end
  end.

End HostExports.
Arguments InstanceCtx : clear implicits.
