(* ===== verification/SubgraphInstance.v ===== *)
(** * The runtime hosts of a subgraph

    [SubgraphInstance] of [core/src/subgraph/instance.rs]: one host for each data
    source, and running a trigger through the hosts that match it.

    Matching and decoding triggers, and instantiating a module for a handler,
    belong to the chain and to wasmtime; a host has them as functions. *)

From S2P Require Import Prelude GraphqlAst Scalars RuntimeValue Values Names StoreTypes StoreProps.
From S2P Require Import Schema EntityValidate CacheInterface EntityCache BlockState Gas ProofOfIndexing HostExports.

Section SubgraphInstance.
Context `{HX : !Hex} `{HB : !NumBits} `{HS : !StableHash}.
Context {C : Type} `{HC : !CacheOps EntityKey (option Entity) C}.
Context {QErr StoredDs Template Ctx : Type}.
Context {DataSource Trigger Block MappingTrigger : Type}.
Context (template_name : Template -> string).
Context (hash_iter : gmap EntityKey EntityOp -> list (EntityKey * EntityOp)).
Context (store : EntityReader QErr) (fuel : nat) (max_gas_per_handler : Z).
Context (debug_fork : option (string -> string -> result string (option Entity))).
Context (trap_to_string : Trap (AnyError QErr) -> string) (error_text : AnyError QErr -> string).
Context (timeout : option Z).

Local Abbreviation AnyError := (AnyError QErr).
Local Abbreviation BlockState := (BlockState C StoredDs Template Ctx).
Local Abbreviation Program := (Program Ctx AnyError).

(** A handler that is ready to run: its name, its code if the module has it, and
    the gas that instantiating the module and passing the trigger have used. *)
Record PreparedHandler := mkPrepared {
  ph_name : string; ph_func : option Program; ph_gas : GasAmount
}.

Record RuntimeHost := mkHost {
  rh_data_source : DataSource;
  rh_exports : HostExportsData Template;
  rh_creation_block_number : option BlockNumber;
  rh_match_and_decode : Trigger -> Block -> result AnyError (option MappingTrigger);
  rh_prepare : MappingTrigger -> result (MappingError AnyError) PreparedHandler
}.

Definition process_mapping_trigger (host : RuntimeHost) (block_ptr : BlockPtr) (trigger : MappingTrigger)
    (state : BlockState) (poi : option ProofOfIndexing)
    : result (MappingError AnyError) BlockState * option ProofOfIndexing :=
  match rh_prepare host trigger with
  | Err e => (Err e, poi)
  | Panic => (Panic, poi)
  | Ok handler =>
      let (r, poi) := invoke_handler template_name hash_iter store fuel max_gas_per_handler debug_fork
        trap_to_string error_text timeout (rh_exports host) block_ptr (ph_name handler) (ph_func handler)
        (mkInstance state poi (ph_gas handler) false false false) in
      (map_result fst r, poi)
  end.

(** The loop over the hosts *)
Fixpoint process_hosts (hosts : list RuntimeHost) (block : Block) (block_ptr : BlockPtr) (trigger : Trigger)
    (state : BlockState) (poi : option ProofOfIndexing)
    : result (MappingError AnyError) (BlockState * option ProofOfIndexing) :=
  match hosts with
  | [] => Ok (state, poi)
  | host :: hosts =>
      let? mapping_trigger := map_err MappingUnknown (rh_match_and_decode host trigger block) in
      match mapping_trigger with
      | None => process_hosts hosts block block_ptr trigger state poi
      | Some mapping_trigger =>
          let (r, poi) := process_mapping_trigger host block_ptr mapping_trigger state poi in
          let? state := r in
          process_hosts hosts block block_ptr trigger state poi
      end
  end.

Definition process_trigger_in_runtime_hosts (hosts : list RuntimeHost) (block : Block) (block_ptr : BlockPtr)
    (trigger : Trigger) (state : BlockState) (poi : option ProofOfIndexing) (causality_region : string)
    : result (MappingError AnyError) (BlockState * option ProofOfIndexing) :=
  let error_count := length (bs_deterministic_errors state) in
  let? poi := match poi with
              | Some p => map_result Some (poi_start_handler p causality_region)
              | None => Ok None
              end in
  let? r := process_hosts hosts block block_ptr trigger state poi in
  let '(state, poi) := r in
  match poi with
  | Some p =>
      if bool_decide (length (bs_deterministic_errors state) = error_count) then Ok (state, Some p)
      else
        assert! bool_decide (length (bs_deterministic_errors state) = (error_count + 1)%nat) ;;
        let? p := write_deterministic_error p causality_region in
        Ok (state, Some p)
  | None => Ok (state, None)
  end.

(** ** Data sources *)

(** Building a host, and whether two data sources are duplicates, are functions of
    the chain. *)
Context (new_host : DataSource -> result AnyError RuntimeHost).
Context (is_duplicate_of : DataSource -> DataSource -> bool).
Context (creation_block : DataSource -> option BlockNumber).

Definition add_dynamic_data_source (max_data_sources : option nat) (hosts : list RuntimeHost)
    (data_source : DataSource) : result AnyError (option RuntimeHost * list RuntimeHost) :=
  if match max_data_sources with Some max => (max <=? length hosts)%nat | None => false end
  then Err (External "Limit of data sources per subgraph exceeded")
  else
    assert! option_leb (last hosts ≫= rh_creation_block_number) (creation_block data_source) ;;
    let? host := new_host data_source in
    Ok (if existsb (fun h => is_duplicate_of (rh_data_source h) (rh_data_source host)) hosts
        then (None, hosts) else (Some host, hosts ++ [host])).

Definition from_manifest (data_sources : list DataSource) : result AnyError (list RuntimeHost) :=
  try_map new_host data_sources.

(** [hosts.pop()] while the last host was created in the reverted block or later:
    the list is traversed from its end. *)
Fixpoint pop_hosts (rev_hosts : list RuntimeHost) (reverted_block : BlockNumber) : list RuntimeHost :=
  match rev_hosts with
  | [] => []
  | h :: rest =>
      if option_leb (Some reverted_block) (rh_creation_block_number h) then pop_hosts rest reverted_block
      else rev_hosts
  end.

Definition revert_data_sources (hosts : list RuntimeHost) (reverted_block : BlockNumber) : list RuntimeHost :=
  rev (pop_hosts (rev hosts) reverted_block).

End SubgraphInstance.
Arguments RuntimeHost : clear implicits.
