(* ===== verification/HandlerProps.v ===== *)
(** * Handlers as transactions

    What a handler does to the block state, stated against programs that run on a
    plain database of entities: a handler that returns has the effect of its
    program on the database, and a handler that fails deterministically has no
    effect but an error. *)

From S2P Require Import Prelude GraphqlAst Scalars RuntimeValue Values Names StoreTypes StoreProps.
From S2P Require Import Schema EntityValidate CacheInterface EntityCache EntityCacheProps BlockState Gas.
From S2P Require Import ProofOfIndexing HostExports SubgraphInstance.

Section Handlers.
Context `{HX : !Hex} `{HB : !NumBits} `{HS : !StableHash}.
Context {C : Type} `{HC : !CacheOps EntityKey (option Entity) C} `{HL : !CacheLaws EntityKey (option Entity) C}.
Context {QErr DataSource Template Ctx : Type}.
Context (template_name : Template -> string).
Context (hash_iter : gmap EntityKey EntityOp -> list (EntityKey * EntityOp)).
Context (store : EntityReader QErr) (fuel : nat) (max_gas_per_handler : Z).
Context (debug_fork : option (string -> string -> result string (option Entity))).
Context (trap_to_string : Trap (AnyError QErr) -> string) (error_text : AnyError QErr -> string).
Context (timeout : option Z).

Local Abbreviation AnyError := (AnyError QErr).
Local Abbreviation BlockState := (BlockState C DataSource Template Ctx).
Local Abbreviation cache := (EntityCache C DataSource).
Local Abbreviation Program := (Program Ctx AnyError).
Local Abbreviation HostCall := (HostCall Ctx AnyError).
Local Abbreviation HostExportsData := (HostExportsData Template).
Local Abbreviation InstanceCtx := (InstanceCtx HS C DataSource Template Ctx).
Local Abbreviation schema := (rd_input_schema store).
Local Abbreviation validates e key := (entity_validate fuel e schema key = Ok tt).

(** ** Programs on a database *)

Definition EntityDb : Type := EntityKey -> option Entity.

Definition db_write (k : EntityKey) (op : EntityOp) (m : EntityDb) : EntityDb :=
  fun k' => if decide (k = k') then apply_to op (m k') else m k'.

(** Setting an entity: it gets its id, and the attributes given or all attributes
    then conform to the schema. *)
Inductive db_set (key : EntityKey) (data : Entity) (m : EntityDb) : EntityDb -> Prop :=
| db_set_intro entity :
    with_id store key data = Ok entity ->
    validates entity key \/
      (exists e, osim (Some e) (db_write key (OpUpdate entity) m key) /\ validates e key) ->
    db_set key data m (db_write key (OpUpdate entity) m).

(** What a running handler has: the database, the gas it has used and the data
    sources it has asked for *)
Record HandlerState := mkHandlerState {
  hs_db : EntityDb;
  hs_gas : Z;
  hs_created : list (DataSourceTemplateInfo Template Ctx)
}.

(** A call costs [amount] and the fixed price of a call. *)
Definition gas_after (st : HandlerState) (amount : Z) : Z :=
  u64_saturating_add (hs_gas st) (u64_saturating_add amount HOST_EXPORT_GAS).

Definition pay (st : HandlerState) (amount : Z) : HandlerState :=
  mkHandlerState (hs_db st) (gas_after st amount) (hs_created st).

Definition affords (st : HandlerState) (amount : Z) : Prop := (gas_after st amount < max_gas_per_handler)%Z.

Definition hs_with_db (st : HandlerState) (m : EntityDb) : HandlerState :=
  mkHandlerState m (hs_gas st) (hs_created st).

Definition hs_add_created (st : HandlerState) (info : DataSourceTemplateInfo Template Ctx) : HandlerState :=
  mkHandlerState (hs_db st) (hs_gas st) (hs_created st ++ [info]).

Definition set_cost (key : EntityKey) (data : Entity) : Z :=
  gas_with_args STORE_SET (gas_combine Linear (gas_size_of_key key) (gas_size_of_entity data)).
Definition get_cost (key : EntityKey) (e : option Entity) : Z :=
  gas_with_args STORE_GET (gas_combine Linear (gas_size_of_key key) (gas_size_of_option gas_size_of_entity e)).
Definition remove_cost (key : EntityKey) : Z := gas_with_args STORE_REMOVE (gas_size_of_key key).
Definition log_cost (msg : string) : Z := gas_with_args LOG_OP (gas_size_of_str msg).
Definition big_int_cost (op : BigIntOp) (x y : Z) : Z :=
  gas_with_args BIG_MATH_GAS_OP (gas_combine (big_int_complexity op) (gas_size_of_bigint x) (gas_size_of_bigint y)).

Definition big_int_value (op : BigIntOp) (x y : Z) : option Z :=
  match op with
  | BigIntPlus => Some (x + y)
  | BigIntMinus => Some (x - y)
  | BigIntTimes => Some (x * y)
  | BigIntDividedBy => if decide (y = 0) then None else Some (Z.quot x y)
  | BigIntMod => if decide (y = 0) then None else Some (Z.rem x y)
  end%Z.

(** What the fork that is debugged has of an entity *)
Definition fetched (ty id : string) : result string (option Entity) :=
  match debug_fork with Some fetch => fetch ty id | None => Ok None end.

Definition find_template (he : HostExportsData) (name : string) : option Template :=
  List.find (fun t => bool_decide (template_name t = name)) (he_templates he).

(** A call that is answered *)
Inductive program_step (he : HostExportsData) (block : BlockNumber) :
    Program * HandlerState -> Program * HandlerState -> Prop :=
| step_set ty id data k st m' :
    let key := mkKey (he_subgraph_id he) ty id in
    affords st (set_cost key data) -> db_set key data (hs_db st) m' ->
    program_step he block (ProgramCall (CallStoreSet ty id data) k, st)
      (k AnswerUnit, hs_with_db (pay st (set_cost key data)) m')
| step_remove ty id k st :
    let key := mkKey (he_subgraph_id he) ty id in
    affords st (remove_cost key) ->
    program_step he block (ProgramCall (CallStoreRemove ty id) k, st)
      (k AnswerUnit, hs_with_db (pay st (remove_cost key)) (db_write key OpRemove (hs_db st)))
| step_get ty id k st e :
    let key := mkKey (he_subgraph_id he) ty id in
    osim e (hs_db st key) -> (e = None -> fetched ty id = Ok None) -> affords st (get_cost key e) ->
    program_step he block (ProgramCall (CallStoreGet ty id) k, st) (k (AnswerEntity e), pay st (get_cost key e))
| step_fetch ty id k st e m' :
    let key := mkKey (he_subgraph_id he) ty id in
    let st1 := pay st (get_cost key None) in
    hs_db st key = None -> fetched ty id = Ok (Some e) -> affords st (get_cost key None) ->
    affords st1 (set_cost key e) -> db_set key e (hs_db st) m' ->
    program_step he block (ProgramCall (CallStoreGet ty id) k, st)
      (k (AnswerEntity (Some e)), hs_with_db (pay st1 (set_cost key e)) m')
| step_create name params context k st template :
    affords st CREATE_DATA_SOURCE -> find_template he name = Some template ->
    program_step he block (ProgramCall (CallDataSourceCreate name params context) k, st)
      (k AnswerUnit, hs_add_created (pay st CREATE_DATA_SOURCE) (mkInfo template params context block))
| step_log level msg k st :
    level <> LogCritical -> affords st (log_cost msg) ->
    program_step he block (ProgramCall (CallLog level msg) k, st) (k AnswerUnit, pay st (log_cost msg))
| step_big_int op x y k st r :
    big_int_value op x y = Some r -> affords st (big_int_cost op x y) ->
    program_step he block (ProgramCall (CallBigInt op x y) k, st) (k (AnswerBigInt r), pay st (big_int_cost op x y))
| step_gas used k st :
    affords st used -> program_step he block (ProgramCall (CallGas used) k, st) (k AnswerUnit, pay st used)
| step_host_fn a k st : program_step he block (ProgramCall (CallHostFn (Ok a)) k, st) (k a, st).

(** How a handler ends: it returns, it fails in a way that every node sees, it fails
    otherwise, or it has noticed a reorganisation of the chain. *)
Inductive Ending :=
| EndReturn
| EndDeterministic (t : Trap AnyError)
| EndUnknown (t : Trap AnyError)
| EndReorg (t : Trap AnyError).

Definition GasExhausted (st : HandlerState) (amount : Z) : Trap AnyError :=
  TrapFromHost (GasLimitExceeded (gas_after st amount)).

(** The entity that is set does not conform to the schema. *)
Inductive set_rejected (key : EntityKey) (data : Entity) (m : EntityDb) : SetError QErr -> Prop :=
| rejected_id e : with_id store key data = Err e -> set_rejected key data m e
| rejected_entity entity e0 e' e :
    with_id store key data = Ok entity -> entity_validate fuel entity schema key = Err e0 ->
    osim (Some e') (db_write key (OpUpdate entity) m key) -> entity_validate fuel e' schema key = Err e ->
    set_rejected key data m (SetInvalid e).

Inductive set_fails (key : EntityKey) (data : Entity) (st : HandlerState) : Trap AnyError -> Prop :=
| set_no_gas : ~ affords st (set_cost key data) -> set_fails key data st (GasExhausted st (set_cost key data))
| set_refused e :
    affords st (set_cost key data) -> set_rejected key data (hs_db st) e ->
    set_fails key data st (TrapFromHost (SetFailed e)).

Definition trap_ending (code : TrapCode) : Ending :=
  if is_deterministic_code code then EndDeterministic (TrapWithCode code) else EndUnknown (TrapWithCode code).

Definition host_ending (e : HostExportError AnyError) : Ending :=
  match e with
  | HostDeterministic e => EndDeterministic (TrapFromHost e)
  | HostUnknown e => EndUnknown (TrapFromHost e)
  | HostPossibleReorg e => EndReorg (TrapFromHost e)
  end.

(** The program is at its end: it returns or traps, or its next call fails.  Running
    out of gas is a deterministic failure in some calls only. *)
Inductive ends (he : HostExportsData) : Program * HandlerState -> Ending -> Prop :=
| ends_return st : ends he (ProgramReturn, st) EndReturn
| ends_trap code st : ends he (ProgramTrap code, st) (trap_ending code)
| ends_set ty id data k st t :
    set_fails (mkKey (he_subgraph_id he) ty id) data st t ->
    ends he (ProgramCall (CallStoreSet ty id data) k, st) (EndUnknown t)
| ends_remove ty id k st :
    let cost := remove_cost (mkKey (he_subgraph_id he) ty id) in
    ~ affords st cost -> ends he (ProgramCall (CallStoreRemove ty id) k, st) (EndUnknown (GasExhausted st cost))
| ends_get ty id k st e :
    let key := mkKey (he_subgraph_id he) ty id in
    osim e (hs_db st key) -> ~ affords st (get_cost key e) ->
    ends he (ProgramCall (CallStoreGet ty id) k, st) (EndUnknown (GasExhausted st (get_cost key e)))
| ends_fork ty id k st e :
    let key := mkKey (he_subgraph_id he) ty id in
    hs_db st key = None -> affords st (get_cost key None) -> fetched ty id = Err e ->
    ends he (ProgramCall (CallStoreGet ty id) k, st) (EndUnknown (TrapFromHost (ForkFailed e)))
| ends_fetch ty id k st e t :
    let key := mkKey (he_subgraph_id he) ty id in
    hs_db st key = None -> affords st (get_cost key None) -> fetched ty id = Ok (Some e) ->
    set_fails key e (pay st (get_cost key None)) t ->
    ends he (ProgramCall (CallStoreGet ty id) k, st) (EndUnknown t)
| ends_create name params context k st :
    ~ affords st CREATE_DATA_SOURCE ->
    ends he (ProgramCall (CallDataSourceCreate name params context) k, st) (EndUnknown (GasExhausted st CREATE_DATA_SOURCE))
| ends_no_template name params context k st :
    affords st CREATE_DATA_SOURCE -> find_template he name = None ->
    ends he (ProgramCall (CallDataSourceCreate name params context) k, st) (EndDeterministic (TrapFromHost (NoTemplate name)))
| ends_abort_gas message file_name line column k st :
    ~ affords st DEFAULT_BASE_COST ->
    ends he (ProgramCall (CallAbort message file_name line column) k, st)
      (EndDeterministic (GasExhausted st DEFAULT_BASE_COST))
| ends_abort message file_name line column k st :
    affords st DEFAULT_BASE_COST ->
    ends he (ProgramCall (CallAbort message file_name line column) k, st)
      (EndDeterministic (TrapFromHost (MappingAborted message file_name line column)))
| ends_log level msg k st :
    ~ affords st (log_cost msg) ->
    ends he (ProgramCall (CallLog level msg) k, st) (EndDeterministic (GasExhausted st (log_cost msg)))
| ends_critical msg k st :
    affords st (log_cost msg) ->
    ends he (ProgramCall (CallLog LogCritical msg) k, st) (EndDeterministic (TrapFromHost CriticalLogged))
| ends_big_int op x y k st :
    ~ affords st (big_int_cost op x y) ->
    ends he (ProgramCall (CallBigInt op x y) k, st) (EndDeterministic (GasExhausted st (big_int_cost op x y)))
| ends_division x k st :
    affords st (big_int_cost BigIntDividedBy x 0) ->
    ends he (ProgramCall (CallBigInt BigIntDividedBy x 0) k, st) (EndDeterministic (TrapFromHost (BigIntDivisionByZero x)))
| ends_remainder x k st :
    affords st (big_int_cost BigIntMod x 0) ->
    ends he (ProgramCall (CallBigInt BigIntMod x 0) k, st) (EndDeterministic (TrapFromHost (BigIntRemainderByZero x)))
| ends_gas used k st :
    ~ affords st used -> ends he (ProgramCall (CallGas used) k, st) (EndUnknown (GasExhausted st used))
| ends_host_fn e k st : ends he (ProgramCall (CallHostFn (Err e)) k, st) (host_ending e).

(** The program runs from [st] to its end in [st']. *)
Inductive program_runs (he : HostExportsData) (block : BlockNumber) (p : Program) (st st' : HandlerState) (ending : Ending) : Prop :=
| program_runs_intro p' :
    rtc (program_step he block) (p, st) (p', st') -> ends he (p', st') ending -> program_runs he block p st st' ending.

(** ** The block state and the database *)

Definition keys_of (sid : DeploymentHash) (c : cache) : Prop :=
  forall k, is_Some (ec_updates c !! k) \/ is_Some (ec_handler_updates c !! k) -> subgraph_id k = sid.

(** The block state [s] over the store contents [S] stands for the transaction
    [t]. *)
Record block_inv (S : gmap EntityKey Entity) (sid : DeploymentHash) (t : Txn) (s : BlockState) : Prop := {
  bi_rep : represents S (bs_entity_cache s) t;
  bi_keys : keys_of sid (bs_entity_cache s);
  bi_in_handler : bs_in_handler s = match tx_work t with Some _ => true | None => false end;
  bi_created : tx_work t = None -> bs_handler_created_data_sources s = []
}.

Lemma block_inv_with_cache S sid b w w' s c :
  block_inv S sid (mkTxn b (Some w)) s -> represents S c (mkTxn b (Some w')) -> keys_of sid c ->
  block_inv S sid (mkTxn b (Some w')) (bs_with_cache s c).
Proof. intros [Hr Hk Hi Hc] Hr' Hk'. by split. Qed.

Lemma entity_op_keys sid (c : cache) key op :
  keys_of sid c -> subgraph_id key = sid -> keys_of sid (ec_entity_op c key op).
Proof.
  intros Hk Hsid k Hin. apply dec_stable. intros Hne. apply Hne. revert Hin.
  assert (key <> k) by congruence. unfold ec_entity_op.
  destruct (ec_in_handler c); simpl; rewrite accumulate_entry_lookup; rewrite decide_False by done; apply Hk.
Qed.

Lemma entity_op_stored (c : cache) key op : ec_data_sources (ec_entity_op c key op) = ec_data_sources c.
Proof. unfold ec_entity_op. by destruct (ec_in_handler c). Qed.

Lemma entity_ops_keys sid ops (c : cache) :
  keys_of sid c -> Forall (fun kop => subgraph_id kop.1 = sid) ops ->
  keys_of sid (ec_entity_ops c ops) /\ ec_data_sources (ec_entity_ops c ops) = ec_data_sources c.
Proof.
  unfold ec_entity_ops. revert c. induction ops as [|[k op] ops IH]; intros c Hk Hops; simpl; [done|].
  inversion_clear Hops. rewrite <-(entity_op_stored c k op). apply IH; [by apply entity_op_keys|done].
Qed.

Lemma ec_get_stored (c c' : cache) key e :
  ec_get store c key = Ok (e, c') -> ec_data_sources c' = ec_data_sources c.
Proof. unfold ec_get. destruct (get_entity store (ec_current c) key) as [[? ?]| |]; simpl; by intros [= _ <-]. Qed.

(** Reading through the cache *)
Lemma ec_get_represents S sid (c : cache) t key :
  reads_from store S sid -> represents S c t -> keys_of sid c ->
  exists e c', ec_get store c key = Ok (e, c') /\ osim e (tx_seen t key) /\ represents S c' t /\
    keys_of sid c' /\ ec_data_sources c' = ec_data_sources c.
Proof.
  intros Hread Hr Hk. pose proof Hr as [Hok Hco Hwf Hh Hb Hs].
  destruct (ec_get_spec store S sid c key Hread Hok Hco) as (e & c' & Hget & Hsim & Hok' & Hco' & Hu & Hhu & Hin).
  exists e, c'. split_and!; [done|by etrans| | |by eapply ec_get_stored].
  - split; rewrite ?Hin, ?Hu; try done.
    + intros Hf. rewrite Hhu. apply Hwf. by rewrite <-Hin.
    + intros k. unfold view. rewrite Hhu, Hu. apply Hs.
  - intros k. rewrite Hu, Hhu. apply Hk.
Qed.

(** ** Calls *)

(** Calls that do not run into a panic: [validate] knows the entity type, the
    arguments of [abort] fit together. *)
Definition set_safe (key : EntityKey) (data : Entity) : Prop :=
  with_id store key data <> Panic /\ forall e, entity_validate fuel e schema key <> Panic.

Definition call_safe (sid : DeploymentHash) (call : HostCall) : Prop :=
  match call with
  | CallStoreSet ty id data => set_safe (mkKey sid ty id) data
  | CallStoreGet ty id =>
      match debug_fork with
      | Some fetch => match fetch ty id with
                      | Ok (Some e) => set_safe (mkKey sid ty id) e
                      | Panic => False
                      | _ => True
                      end
      | None => True
      end
  | CallAbort _ file_name line column =>
      (is_Some line -> is_Some file_name) /\ (is_Some column -> is_Some line)
  | CallHostFn outcome => outcome <> Panic
  | _ => True
  end.

Fixpoint program_safe (sid : DeploymentHash) (p : Program) : Prop :=
  match p with
  | ProgramCall call k => call_safe sid call /\ forall a, program_safe sid (k a)
  | _ => True
  end.

Definition poi_ok (poi : option ProofOfIndexing) : Prop :=
  forall p, poi = Some p -> (0 <= pi_block_number p)%Z.

Lemma with_causality_region_ok {E T} p region (f : BlockEventStream -> T * BlockEventStream) :
  (0 <= pi_block_number p)%Z ->
  exists x p', with_causality_region (E:=E) p region f = Ok (x, p') /\ pi_block_number p' = pi_block_number p.
Proof.
  intros Hp. unfold with_causality_region, stream_new. rewrite (proj2 (Z.leb_le _ _) Hp).
  destruct (per_causality_region p !! region); simpl; destruct (f _); by eexists _, _.
Qed.

Lemma poi_write_ok {E} p region event :
  (0 <= pi_block_number p)%Z ->
  exists p', poi_write (E:=E) p region event = Ok p' /\ pi_block_number p' = pi_block_number p.
Proof.
  intros Hp. unfold poi_write.
  destruct (with_causality_region_ok (E:=E) p region (fun e => (tt, stream_write e event)) Hp) as (u & p' & -> & Hn).
  by exists p'.
Qed.

(** Setting an entity while a handler runs; when it fails the changes made so far
    stay. *)
Lemma ec_set_represents S sid (c : cache) b w key data x c' :
  reads_from store S sid -> subgraph_id key = sid ->
  represents S c (mkTxn b (Some w)) -> keys_of sid c -> set_safe key data ->
  ec_set store fuel c key data = (x, c') ->
  exists w', represents S c' (mkTxn b (Some w')) /\ keys_of sid c' /\ ec_data_sources c' = ec_data_sources c /\
    match x with
    | Ok _ => db_set key data w w'
    | Err e => set_rejected key data w e
    | Panic => False
    end.
Proof.
  intros Hread Hsid Hr Hk [Hid Hv] Hset. unfold ec_set in Hset.
  destruct (with_id store key data) as [entity|e|] eqn:Hw; [|simplify_eq|done].
  2:{ exists w. split_and!; [done..|]. by constructor. }
  pose proof (represents_write S c _ key (OpUpdate entity) Hr) as Hr1.
  pose proof (entity_op_keys sid c key (OpUpdate entity) Hk Hsid) as Hk1.
  pose proof (entity_op_stored c key (OpUpdate entity)) as Hd1.
  exists (db_write key (OpUpdate entity) w).
  destruct (entity_validate fuel entity schema key) as [[]|e|] eqn:Hv1; [| |by apply Hv in Hv1].
  { simplify_eq. split_and!; [done..|]. econstructor; [done|by left]. }
  destruct (ec_get_represents S sid _ _ key Hread Hr1 Hk1) as (o & c2 & Hget & Hsim & Hr2 & Hk2 & Hd2).
  rewrite Hget in Hset. change (osim o (db_write key (OpUpdate entity) w key)) in Hsim.
  destruct o as [e'|]; simplify_eq; (split_and!; [done..|congruence|]).
  - specialize (Hv e'). destruct (entity_validate fuel e' schema key) as [[]|e2|] eqn:Hv2; [| |done]; cbn [map_err].
    + econstructor; [done|right]. by exists e'.
    + by eapply rejected_entity.
  - unfold db_write in Hsim. rewrite decide_True in Hsim by done. cbn in Hsim. destruct (w key); inversion Hsim.
Qed.

(** ** Simulation *)

(** The instance [i] in a handler that was entered with [s0], whatever it has
    written *)
Record in_handler (S : gmap EntityKey Entity) (sid : DeploymentHash) (b w : EntityDb) (s0 : BlockState) (i : InstanceCtx) : Prop := {
  ih_inv : block_inv S sid (mkTxn b (Some w)) (ic_state i);
  ih_errors : bs_deterministic_errors (ic_state i) = bs_deterministic_errors s0;
  ih_created : bs_created_data_sources (ic_state i) = bs_created_data_sources s0;
  ih_stored : ec_data_sources (bs_entity_cache (ic_state i)) = ec_data_sources (bs_entity_cache s0);
  ih_poi : poi_ok (ic_proof_of_indexing i)
}.

Definition flags_clear (i : InstanceCtx) : Prop :=
  ic_possible_reorg i = false /\ ic_deterministic_host_trap i = false.

Record sim (S : gmap EntityKey Entity) (sid : DeploymentHash) (b : EntityDb) (s0 : BlockState) (i : InstanceCtx)
    (st : HandlerState) : Prop := {
  sm_in_handler : in_handler S sid b (hs_db st) s0 i;
  sm_created : bs_handler_created_data_sources (ic_state i) = hs_created st;
  sm_gas : ic_gas i = hs_gas st;
  sm_flags : flags_clear i
}.

Definition stopped (S : gmap EntityKey Entity) (sid : DeploymentHash) (b : EntityDb) (s0 : BlockState) (i : InstanceCtx) : Prop :=
  exists w, in_handler S sid b w s0 i.

Lemma in_handler_fields S sid b w s0 (i i' : InstanceCtx) :
  ic_state i' = ic_state i -> ic_proof_of_indexing i' = ic_proof_of_indexing i ->
  in_handler S sid b w s0 i -> in_handler S sid b w s0 i'.
Proof. intros Hs Hp [? ? ? ? ?]. by split; rewrite ?Hs, ?Hp. Qed.

Lemma in_handler_write S sid b w w' s0 (i : InstanceCtx) c :
  in_handler S sid b w s0 i -> represents S c (mkTxn b (Some w')) -> keys_of sid c ->
  ec_data_sources c = ec_data_sources (bs_entity_cache (ic_state i)) ->
  in_handler S sid b w' s0 (ic_with_state i (bs_with_cache (ic_state i) c)).
Proof.
  intros [Hi He Hc Hd Hp] Hr Hk Hd'. split; cbn; try done; [by eapply block_inv_with_cache|congruence].
Qed.

Lemma sim_write S sid b s0 i st w' c :
  sim S sid b s0 i st -> represents S c (mkTxn b (Some w')) -> keys_of sid c ->
  ec_data_sources c = ec_data_sources (bs_entity_cache (ic_state i)) ->
  sim S sid b s0 (ic_with_state i (bs_with_cache (ic_state i) c)) (hs_with_db st w').
Proof. intros [Hi Hc Hg Hf] Hr Hk Hd. split; [by eapply in_handler_write|done..]. Qed.

(** Paying for a call *)
Lemma consume_sim {E} S sid b s0 i st amount x i' :
  sim S sid b s0 i st -> ic_consume (E:=E) max_gas_per_handler i amount = (x, i') ->
  sim S sid b s0 i' (pay st amount) /\
  match x with
  | Ok _ => affords st amount
  | Err e => ~ affords st amount /\ e = GasError (gas_after st amount)
  | Panic => False
  end.
Proof.
  intros [Hi Hc Hg Hf]. unfold ic_consume, consume_host_fn, affords, gas_after, gas_add_assign. rewrite Hg.
  intros [= <- <-]. split.
  - split; [by apply (in_handler_fields _ _ _ _ _ i)|done..].
  - destruct (Z.leb_spec max_gas_per_handler (u64_saturating_add (hs_gas st) (u64_saturating_add amount HOST_EXPORT_GAS)));
      [split; [lia|done]|done].
Qed.

Lemma sim_stopped S sid b s0 i st : sim S sid b s0 i st -> stopped S sid b s0 i.
Proof. intros [Hi _ _ _]. by eexists. Qed.
#[local] Hint Resolve sim_stopped : core.

Lemma write_poi_event_sim S sid b s0 i st region event :
  sim S sid b s0 i st -> exists i', write_poi_event (QErr:=QErr) i region event = Ok i' /\ sim S sid b s0 i' st.
Proof.
  intros [[Hi He Hc Hd Hp] Hcr Hg Hf]. unfold write_poi_event. destruct (ic_proof_of_indexing i) as [p|] eqn:Hpoi.
  - destruct (poi_write_ok (E:=AnyError) p region event) as (p' & -> & Hn); [by apply Hp|]. simpl.
    eexists. split; [done|]. split; [split|..]; cbn; try done. intros q [= <-]. rewrite Hn. by apply Hp.
  - exists i. split; [done|]. split; [split|..]; try done. by rewrite Hpoi.
Qed.

(** How the node sees a trap *)
Definition ending_of (i : InstanceCtx) (t : Trap AnyError) : Ending :=
  if ic_possible_reorg i then EndReorg t
  else if trap_is_deterministic i t then EndDeterministic t else EndUnknown t.

Section Running.
Context (S : gmap EntityKey Entity) (he : HostExportsData) (block : BlockNumber) (b : EntityDb) (s0 : BlockState).
Local Abbreviation sid := (he_subgraph_id he).
Local Abbreviation sim := (sim S sid b s0).
Local Abbreviation stopped := (stopped S sid b s0).
Local Abbreviation program_step := (program_step he block).
Local Abbreviation ends := (ends he).
Hypothesis Hread : reads_from store S sid.

(** An export does what the call does: it answers, or the program is at its end. *)
Definition export_sim {E} (ending : E -> Ending) (call : HostCall) (st : HandlerState)
    (r : result E HostAnswer * InstanceCtx) : Prop :=
  match r.1 with
  | Ok a => exists st', sim r.2 st' /\ forall k, program_step (ProgramCall call k, st) (k a, st')
  | Err e => stopped r.2 /\ flags_clear r.2 /\ forall k, ends (ProgramCall call k, st) (ending e)
  | Panic => False
  end.

(** A call as [link!] makes it *)
Definition call_sim (call : HostCall) (st : HandlerState) (r : result (Trap AnyError) HostAnswer * InstanceCtx) : Prop :=
  match r.1 with
  | Ok a => exists st', sim r.2 st' /\ forall k, program_step (ProgramCall call k, st) (k a, st')
  | Err t => stopped r.2 /\ forall k, ends (ProgramCall call k, st) (ending_of r.2 t)
  | Panic => False
  end.

Lemma stopped_note_level i level : stopped i -> stopped (note_level i level).
Proof. intros [w Hw]. exists w. destruct level; [|done| |done]; by apply (in_handler_fields _ _ _ _ _ i). Qed.

Lemma link_host_sim call st r : export_sim host_ending call st r -> call_sim call st (link_host (QErr:=QErr) r).
Proof.
  destruct r as [[a|e|] i]; [done| |done]. intros (Hs & [Hf1 Hf2] & He).
  split; [by apply stopped_note_level|]. intros k. specialize (He k). unfold ending_of.
  by destruct e; cbn in *; rewrite ?Hf1, ?Hf2 in *.
Qed.

Lemma link_deterministic_sim call st r :
  export_sim (fun e => EndDeterministic (TrapFromHost (deterministic_inner e))) call st r ->
  call_sim call st (link_deterministic (QErr:=QErr) r).
Proof.
  destruct r as [[a|e|] i]; [done| |done]. intros (Hs & [Hf1 Hf2] & He).
  split; [by apply (stopped_note_level i LevelDeterministic)|]. intros k. specialize (He k). unfold ending_of.
  by cbn in *; rewrite ?Hf1.
Qed.

Lemma he_store_set_sim (i : InstanceCtx) st ty id data x i' :
  sim i st -> set_safe (mkKey sid ty id) data ->
  he_store_set store fuel max_gas_per_handler he i ty id data = (x, i') ->
  let key := mkKey sid ty id in
  match x with
  | Ok a => a = AnswerUnit /\ affords st (set_cost key data) /\
            exists m', db_set key data (hs_db st) m' /\ sim i' (hs_with_db (pay st (set_cost key data)) m')
  | Err e => stopped i' /\ flags_clear i' /\ set_fails key data st (TrapFromHost e)
  | Panic => False
  end.
Proof.
  intros Hi Hsafe. unfold he_store_set.
  destruct (write_poi_event_sim S sid b s0 i st (he_causality_region he) (SetEntity ty id data) Hi) as (i1 & -> & Hi1).
  destruct (ic_consume _ i1 _) as [r i2] eqn:Hc. destruct (consume_sim _ _ _ _ _ _ _ _ _ Hi1 Hc) as [Hi2 Hr].
  destruct r as [u|e|]; [| |done].
  2:{ intros [= <- <-]. destruct Hr as [Hr ->]. split; [by eauto|]. split; [apply Hi2|by constructor]. }
  destruct (ec_set store fuel (bs_entity_cache (ic_state i2)) (mkKey sid ty id) data) as [y c] eqn:Hset.
  destruct (ih_inv _ _ _ _ _ _ (sm_in_handler _ _ _ _ _ _ Hi2)) as [Hrep Hkeys _ _].
  destruct (ec_set_represents S sid _ b _ (mkKey sid ty id) data y c Hread eq_refl Hrep Hkeys Hsafe Hset)
    as (w' & Hr' & Hk' & Hd' & Hy).
  pose proof (sim_write _ _ _ _ _ _ w' c Hi2 Hr' Hk' Hd') as Hi3.
  intros [= <- <-]. destruct y as [[]|e|]; [| |done]; cbn [map_err bind_result].
  - split_and!; [done..|]. by exists w'.
  - split; [by eauto|]. split; [apply Hi3|by apply set_refused].
Qed.

Lemma he_store_remove_sim (i : InstanceCtx) st ty id :
  sim i st ->
  export_sim host_ending (CallStoreRemove ty id) st (he_store_remove (QErr:=QErr) max_gas_per_handler he i ty id).
Proof.
  intros Hi. unfold he_store_remove.
  destruct (write_poi_event_sim S sid b s0 i st (he_causality_region he) (RemoveEntity ty id) Hi) as (i1 & -> & Hi1).
  destruct (ic_consume _ i1 _) as [r i2] eqn:Hc. destruct (consume_sim _ _ _ _ _ _ _ _ _ Hi1 Hc) as [Hi2 Hr].
  destruct r as [u|e|]; [| |done].
  2:{ destruct Hr as [Hr ->]. split; [by eauto|]. split; [apply Hi2|]. intros k. by apply ends_remove. }
  destruct (ih_inv _ _ _ _ _ _ (sm_in_handler _ _ _ _ _ _ Hi2)) as [Hrep Hkeys _ _].
  eexists. split; [|intros k; by apply step_remove]. eapply sim_write; [done| | |apply entity_op_stored].
  - exact (represents_write S _ _ (mkKey sid ty id) OpRemove Hrep).
  - by apply entity_op_keys.
Qed.

Lemma he_store_get_sim (i : InstanceCtx) st ty id x i' :
  sim i st -> he_store_get store max_gas_per_handler he i ty id = (x, i') ->
  let key := mkKey sid ty id in
  exists e, osim e (hs_db st key) /\ sim i' (pay st (get_cost key e)) /\
    match x with
    | Ok a => a = e /\ affords st (get_cost key e)
    | Err err => ~ affords st (get_cost key e) /\ err = GasLimitExceeded (gas_after st (get_cost key e))
    | Panic => False
    end.
Proof.
  intros Hi. unfold he_store_get.
  destruct (ih_inv _ _ _ _ _ _ (sm_in_handler _ _ _ _ _ _ Hi)) as [Hrep Hkeys _ _].
  destruct (ec_get_represents S sid _ _ (mkKey sid ty id) Hread Hrep Hkeys) as (e & c & -> & Hsim & Hr & Hk & Hd).
  pose proof (sim_write _ _ _ _ _ _ _ c Hi Hr Hk Hd) as Hi1.
  destruct (ic_consume _ _ _) as [r i2] eqn:Hc. destruct (consume_sim _ _ _ _ _ _ _ _ _ Hi1 Hc) as [Hi2 Hpay].
  intros [= <- <-]. exists e. split_and!; [done..|]. destruct r as [u|err|]; [done| |done].
  by destruct Hpay as [Hpay ->].
Qed.

Lemma wic_store_get_sim (i : InstanceCtx) st ty id :
  sim i st -> call_safe sid (CallStoreGet ty id) ->
  export_sim host_ending (CallStoreGet ty id) st
    (wic_store_get store fuel max_gas_per_handler debug_fork he i ty id).
Proof.
  intros Hi Hsafe. unfold wic_store_get.
  destruct (he_store_get store max_gas_per_handler he i ty id) as [r i1] eqn:Hget.
  destruct (he_store_get_sim i st ty id r i1 Hi Hget) as (e & Hsim & Hi1 & Hr).
  destruct r as [a|err|]; [| |done]; destruct Hr as [Hr1 Hr2]; subst.
  2:{ split; [by eauto|]. split; [apply Hi1|]. intros k. by apply ends_get. }
  destruct e as [e|].
  { eexists. split; [done|]. intros k. by apply step_get. }
  assert (Hnone : hs_db st (mkKey sid ty id) = None) by by inversion Hsim.
  assert (Hfetch : fetched ty id = match debug_fork with Some fetch => fetch ty id | None => Ok None end) by done.
  cbn [call_safe] in Hsafe. destruct debug_fork as [fetch|].
  2:{ eexists. split; [done|]. intros k. by apply step_get. }
  destruct (fetch ty id) as [[e|]|e|].
  - destruct (he_store_set store fuel max_gas_per_handler he i1 ty id e) as [r i2] eqn:Hset.
    pose proof (he_store_set_sim i1 _ ty id e r i2 Hi1 Hsafe Hset) as Hr.
    destruct r as [u|err|]; [| |done]; cbn [map_err bind_result].
    + destruct Hr as (-> & Haf & m' & Hdb & Hi2). eexists. split; [done|]. intros k. by apply step_fetch.
    + destruct Hr as (Hs & Hf & Hfail). split_and!; [done..|]. intros k. by eapply ends_fetch.
  - eexists. split; [done|]. intros k. by apply step_get.
  - split; [by eauto|]. split; [apply Hi1|]. intros k. by apply ends_fork.
  - done.
Qed.

Lemma he_data_source_create_sim (i : InstanceCtx) st name params context :
  sim i st ->
  export_sim host_ending (CallDataSourceCreate name params context) st
    (he_data_source_create (QErr:=QErr) template_name max_gas_per_handler he i name params context block).
Proof.
  intros Hi. unfold he_data_source_create.
  destruct (ic_consume _ i _) as [r i2] eqn:Hc. destruct (consume_sim _ _ _ _ _ _ _ _ _ Hi Hc) as [Hi2 Hr].
  destruct r as [u|e|]; [| |done].
  2:{ destruct Hr as [Hr ->]. split; [by eauto|]. split; [apply Hi2|]. intros k. by apply ends_create. }
  fold (find_template he name). destruct (find_template he name) as [template|] eqn:Htemplate.
  2:{ split; [by eauto|]. split; [apply Hi2|]. intros k. by apply ends_no_template. }
  unfold bs_push_created_data_source. destruct Hi2 as [[[Hrep Hk Hin Hcr] He Hcd Hst Hpoi] Hnew Hg Hf].
  rewrite Hin. cbn [negb]. eexists. split; [|intros k; by apply step_create].
  split; [split; [by split|done..]| |done..]. cbn. by rewrite Hnew.
Qed.

(** Calls that only use gas and answer or fail *)
Lemma pure_export_sim (i : InstanceCtx) st call amount (y : result (DeterministicHostError AnyError) HostAnswer) :
  sim i st ->
  (~ affords st amount -> forall k, ends (ProgramCall call k, st) (EndDeterministic (GasExhausted st amount))) ->
  (affords st amount -> match y with
     | Ok a => forall k, program_step (ProgramCall call k, st) (k a, pay st amount)
     | Err e => forall k, ends (ProgramCall call k, st) (EndDeterministic (TrapFromHost (deterministic_inner e)))
     | Panic => False
     end) ->
  export_sim (fun e => EndDeterministic (TrapFromHost (deterministic_inner e))) call st
    (let (r, i) := ic_consume max_gas_per_handler i amount in (let? _ := r in y, i)).
Proof.
  intros Hi Hno Hyes. destruct (ic_consume _ i _) as [r i2] eqn:Hc.
  destruct (consume_sim _ _ _ _ _ _ _ _ _ Hi Hc) as [Hi2 Hr].
  destruct r as [u|e|]; [| |done]; cbn [bind_result].
  - specialize (Hyes Hr). unfold export_sim. destruct y; cbn [fst snd]; [by eexists| |done].
    split; [by eauto|]. split; [apply Hi2|done].
  - destruct Hr as [Hr ->]. split; [by eauto|]. split; [apply Hi2|]. by apply Hno.
Qed.

Lemma link_gas_sim (i : InstanceCtx) st used :
  sim i st -> call_sim (CallGas used) st (link_gas (QErr:=QErr) max_gas_per_handler i used).
Proof.
  intros Hi. unfold link_gas. destruct (ic_consume _ i _) as [r i2] eqn:Hc.
  destruct (consume_sim _ _ _ _ _ _ _ _ _ Hi Hc) as [Hi2 Hr]. destruct r as [u|e|]; [| |done].
  - eexists. split; [done|]. intros k. by apply step_gas.
  - destruct Hr as [Hr ->]. split.
    + eexists. by apply (in_handler_fields _ _ _ _ _ i2), Hi2.
    + intros k. destruct (sm_flags _ _ _ _ _ _ Hi2) as [Hf1 Hf2]. unfold ending_of. cbn. rewrite Hf1, Hf2.
      by apply ends_gas.
Qed.

(** A call does to the block state what it does to the database. *)
Lemma call_host_sim (i : InstanceCtx) st call :
  sim i st -> call_safe sid call ->
  call_sim call st (call_host template_name store fuel max_gas_per_handler debug_fork he block i call).
Proof.
  intros Hi Hsafe.
  destruct call as [ty id data|ty id|ty id|name params context|msg file line column|level msg|op x1 y1|used|outcome];
    cbn [call_host].
  - destruct (he_store_set _ _ _ _ _ _ _ _) as [y i1] eqn:Hcall. apply link_host_sim.
    pose proof (he_store_set_sim _ _ _ _ _ _ _ Hi Hsafe Hcall) as Hy. destruct y as [a|e|]; [| |done].
    + destruct Hy as (-> & Haf & m' & Hdb & Hi1). eexists. split; [done|]. intros k. by apply step_set.
    + destruct Hy as (Hs & Hf & Hfail). split_and!; [done..|]. intros k. by apply ends_set.
  - by apply link_host_sim, he_store_remove_sim.
  - by apply link_host_sim, wic_store_get_sim.
  - by apply link_host_sim, he_data_source_create_sim.
  - apply link_deterministic_sim, pure_export_sim; [done|intros; by apply ends_abort_gas|intros Haf].
    destruct Hsafe as [Hs1 Hs2]. destruct file, line, column; try (intros k; by apply ends_abort);
      (by destruct Hs1) || (by destruct Hs2).
  - apply link_deterministic_sim, pure_export_sim; [done|intros; by apply ends_log|intros Haf].
    destruct level; intros k; [by apply ends_critical|by apply step_log..].
  - apply link_deterministic_sim, pure_export_sim; [done|intros; by apply ends_big_int|intros Haf].
    destruct op; try (intros k; by apply step_big_int); destruct (Z.eqb_spec y1 0) as [->|Hne]; intros k;
      [by apply ends_division| |by apply ends_remainder|]; apply step_big_int; try done; cbn; by rewrite decide_False.
  - by apply link_gas_sim.
  - apply link_host_sim. destruct outcome as [a|e|]; [| |done].
    + exists st. split; [done|]. intros k. apply step_host_fn.
    + split; [by eauto|]. split; [apply Hi|]. intros k. apply ends_host_fn.
Qed.

Lemma run_program_sim p (i : InstanceCtx) st x i' :
  sim i st -> program_safe sid p ->
  run_program template_name store fuel max_gas_per_handler debug_fork he block p i = (x, i') ->
  match x with
  | Ok _ => exists st', sim i' st' /\ program_runs he block p st st' EndReturn
  | Err t => stopped i' /\ exists st', program_runs he block p st st' (ending_of i' t)
  | Panic => False
  end.
Proof.
  revert i st. induction p as [|code|call k IH]; intros i st Hi Hsafe; cbn [run_program].
  - intros [= <- <-]. exists st. split; [done|]. econstructor; [done|apply ends_return].
  - intros [= <- <-]. split; [by eauto|]. exists st. econstructor; [done|].
    destruct (sm_flags _ _ _ _ _ _ Hi) as [Hf1 Hf2]. pose proof (ends_trap he code st) as He.
    unfold ending_of, trap_ending in *. cbn. rewrite Hf1, Hf2, orb_false_r. done.
  - destruct Hsafe as [Hcall Hk]. pose proof (call_host_sim i st call Hi Hcall) as Hsim.
    destruct (call_host _ _ _ _ _ _ _ _ _) as [[ans|t|] i1]; unfold call_sim in Hsim; cbn [fst snd] in Hsim; [| |done].
    + destruct Hsim as (st1 & Hi1 & Hstep). intros Hrun. specialize (IH ans i1 st1 Hi1 (Hk ans) Hrun).
      destruct x as [u|t|]; [| |done].
      * destruct IH as (st' & Hi' & [p' Hsteps Hends]). exists st'. split; [done|].
        econstructor; [by eapply rtc_l|done].
      * destruct IH as (Hs & st' & [p' Hsteps Hends]). split; [done|]. exists st'.
        econstructor; [by eapply rtc_l|done].
    + destruct Hsim as [Hs Hends]. intros [= <- <-]. split; [done|]. exists st. by econstructor.
Qed.

End Running.

(** ** Handlers *)

Definition is_timeout (t : Trap AnyError) : bool := str_contains TRAP_TIMEOUT (trap_to_string t).

(** The error that a handler which fails deterministically leaves behind *)
Definition handler_error (sid : DeploymentHash) (block_ptr : BlockPtr) (handler : string) (t : Trap AnyError) : SubgraphError :=
  mkError sid (replace_newlines (error_text (trap_error t))) (Some block_ptr) (Some handler) true.

(** What becomes of a handler: it leaves a database, data sources it has asked for
    and errors, or the node gives up on it. *)
Inductive HandlerOutcome :=
| HandlerDone (db : EntityDb) (created : list (DataSourceTemplateInfo Template Ctx)) (errors : list SubgraphError)
| HandlerGivesUp (e : MappingError AnyError).

(** The writes and data sources count only if the code returns; if it fails
    deterministically, all there is is an error. *)
Inductive handler_outcome (he : HostExportsData) (block_ptr : BlockPtr) (handler : string) (p : Program) (b : EntityDb)
    (gas : Z) : HandlerOutcome -> Prop :=
| outcome_returned st' :
    program_runs he (bp_number block_ptr) p (mkHandlerState b gas []) st' EndReturn ->
    handler_outcome he block_ptr handler p b gas (HandlerDone (hs_db st') (hs_created st') [])
| outcome_failed st' t :
    program_runs he (bp_number block_ptr) p (mkHandlerState b gas []) st' (EndDeterministic t) -> is_timeout t = false ->
    handler_outcome he block_ptr handler p b gas
      (HandlerDone b [] [handler_error (he_subgraph_id he) block_ptr handler t])
| outcome_reorg st' t :
    program_runs he (bp_number block_ptr) p (mkHandlerState b gas []) st' (EndReorg t) ->
    handler_outcome he block_ptr handler p b gas (HandlerGivesUp (MappingPossibleReorg (trap_error t)))
| outcome_timeout st' t ending :
    program_runs he (bp_number block_ptr) p (mkHandlerState b gas []) st' ending ->
    ending = EndDeterministic t \/ ending = EndUnknown t -> is_timeout t = true ->
    handler_outcome he block_ptr handler p b gas (HandlerGivesUp (MappingUnknown (HandlerTimeout handler)))
| outcome_unknown st' t :
    program_runs he (bp_number block_ptr) p (mkHandlerState b gas []) st' (EndUnknown t) -> is_timeout t = false ->
    handler_outcome he block_ptr handler p b gas (HandlerGivesUp (MappingUnknown (trap_error t))).

(** The block state [s'] that [s] becomes when the database is now [b'], and
    [created] data sources and [errors] have been added *)
Record block_effect (S : gmap EntityKey Entity) (sid : DeploymentHash) (s s' : BlockState)
    (b' : EntityDb) (created : list (DataSourceTemplateInfo Template Ctx)) (errors : list SubgraphError) : Prop := {
  be_inv : block_inv S sid (mkTxn b' None) s';
  be_errors : bs_deterministic_errors s' = bs_deterministic_errors s ++ errors;
  be_created : bs_created_data_sources s' = bs_created_data_sources s ++ created;
  be_stored : ec_data_sources (bs_entity_cache s') = ec_data_sources (bs_entity_cache s)
}.

Lemma block_effect_refl S sid s b : block_inv S sid (mkTxn b None) s -> block_effect S sid s s b [] [].
Proof. intros H. by split; rewrite ?app_nil_r. Qed.

Lemma block_effect_trans S sid s1 s2 s3 b2 b3 c1 c2 e1 e2 :
  block_effect S sid s1 s2 b2 c1 e1 -> block_effect S sid s2 s3 b3 c2 e2 ->
  block_effect S sid s1 s3 b3 (c1 ++ c2) (e1 ++ e2).
Proof.
  intros [_ He1 Hc1 Hd1] [Hi He2 Hc2 Hd2]. split; [done|..|congruence].
  - by rewrite He2, He1, app_assoc.
  - by rewrite Hc2, Hc1, app_assoc.
Qed.

Lemma enter_handler_inv {E} S sid b s :
  block_inv S sid (mkTxn b None) s ->
  exists s', bs_enter_handler (E:=E) s = Ok s' /\ block_inv S sid (mkTxn b (Some b)) s' /\
    bs_deterministic_errors s' = bs_deterministic_errors s /\
    bs_created_data_sources s' = bs_created_data_sources s /\
    ec_data_sources (bs_entity_cache s') = ec_data_sources (bs_entity_cache s) /\
    bs_handler_created_data_sources s' = [].
Proof.
  intros [Hr Hk Hin Hc]. pose proof Hr as [Hok Hco Hwf Hh Hb Hs].
  unfold bs_enter_handler, ec_enter_handler. rewrite Hin, Hh. simpl. eexists. split; [done|].
  specialize (Hc eq_refl). split; [split; simpl; try done; by split|done].
Qed.

Lemma exit_handler_inv {E} S sid b w s :
  hash_iter_law hash_iter -> block_inv S sid (mkTxn b (Some w)) s ->
  exists s', bs_exit_handler (E:=E) hash_iter s = Ok s' /\ block_inv S sid (mkTxn w None) s' /\
    bs_deterministic_errors s' = bs_deterministic_errors s /\
    bs_created_data_sources s' = bs_created_data_sources s ++ bs_handler_created_data_sources s /\
    ec_data_sources (bs_entity_cache s') = ec_data_sources (bs_entity_cache s).
Proof.
  intros Hl [Hr Hk Hin Hc]. pose proof Hr as [Hok Hco Hwf Hh Hb Hs].
  destruct (exit_handler_view (E:=E) hash_iter S _ Hl Hh) as (c' & Hex & Hwf' & Hh' & Hcur & Hview).
  unfold bs_exit_handler. rewrite Hin, Hex. simpl. eexists. split; [done|].
  assert (Hkeys : keys_of sid c' /\ ec_data_sources c' = ec_data_sources (bs_entity_cache s)).
  { unfold ec_exit_handler in Hex. rewrite Hh in Hex. simpl in Hex. injection Hex as <-.
    apply (entity_ops_keys sid (hash_iter (ec_handler_updates (bs_entity_cache s))) (mkCache _ _ _ _ _)).
    - intros k [Hu|Hu]; [apply Hk; by left|]. simpl in Hu. by rewrite lookup_empty in Hu; destruct Hu.
    - rewrite (Hl _). apply Forall_forall. intros [k op] Hkop%elem_of_map_to_list. apply Hk. right. by exists op. }
  destruct Hkeys as [Hk' Hd']. split; [|done]. split; simpl; try done.
  assert (Hseen : forall k, osim (view S c' k) (w k)) by (intros k; etrans; [apply Hview|apply Hs]).
  split; rewrite ?Hcur; try done. intros k. specialize (Hseen k). unfold view in Hseen.
  by rewrite Hwf', lookup_empty in Hseen.
Qed.

Lemma discard_handler_inv {E} S sid b w s e :
  block_inv S sid (mkTxn b (Some w)) s ->
  exists s', bs_exit_handler_and_discard_changes_due_to_error (E:=E) s e = Ok s' /\
    block_inv S sid (mkTxn b None) s' /\
    bs_deterministic_errors s' = bs_deterministic_errors s ++ [e] /\
    bs_created_data_sources s' = bs_created_data_sources s /\
    ec_data_sources (bs_entity_cache s') = ec_data_sources (bs_entity_cache s).
Proof.
  intros [Hr Hk Hin Hc]. pose proof Hr as [Hok Hco Hwf Hh Hb Hs].
  unfold bs_exit_handler_and_discard_changes_due_to_error, ec_exit_handler_and_discard_changes.
  rewrite Hin, Hh. simpl. eexists. split; [done|]. split; [|done]. split; simpl; try done.
  intros k [Hu|Hu]; [apply Hk; by left|]. simpl in Hu. rewrite lookup_empty in Hu. by destruct Hu.
Qed.

(** A trap that reports a timeout needs a timeout. *)
Definition timeouts_ok : Prop :=
  is_Some timeout \/ forall trap, str_contains TRAP_TIMEOUT (trap_to_string trap) = false.

Lemma handler_transaction S he block_ptr handler p b i x poi :
  hash_iter_law hash_iter -> reads_from store S (he_subgraph_id he) -> timeouts_ok ->
  program_safe (he_subgraph_id he) p -> poi_ok (ic_proof_of_indexing i) -> flags_clear i ->
  block_inv S (he_subgraph_id he) (mkTxn b None) (ic_state i) ->
  invoke_handler template_name hash_iter store fuel max_gas_per_handler debug_fork trap_to_string error_text
    timeout he block_ptr handler (Some p) i = (x, poi) ->
  poi_ok poi /\
  match x with
  | Ok (s, _) => exists b' created errors,
      handler_outcome he block_ptr handler p b (ic_gas i) (HandlerDone b' created errors) /\
      block_effect S (he_subgraph_id he) (ic_state i) s b' created errors
  | Err e => handler_outcome he block_ptr handler p b (ic_gas i) (HandlerGivesUp e)
  | Panic => False
  end.
Proof.
  intros Hl Hread Htime Hsafe Hpoi Hflags Hinv. unfold invoke_handler.
  destruct (enter_handler_inv (E:=MappingError AnyError) S _ b _ Hinv) as (s1 & -> & Hinv1 & He1 & Hc1 & Hd1 & Hnew1).
  destruct (run_program _ _ _ _ _ _ _ _ _) as [r i2] eqn:Hrun.
  assert (Hsim1 : sim S (he_subgraph_id he) b (ic_state i) (ic_with_state i s1) (mkHandlerState b (ic_gas i) []))
    by (split; [split|..]; done).
  pose proof (run_program_sim S he (bp_number block_ptr) b (ic_state i) Hread p _ _ r i2 Hsim1 Hsafe Hrun) as Hr.
  destruct r as [[]|t|]; [| |done].
  - destruct Hr as (st' & [[Hi He Hc Hd Hp] Hcr Hg _] & Hruns).
    destruct (exit_handler_inv (E:=MappingError AnyError) S _ b _ _ Hl Hi) as (s3 & -> & Hinv3 & He3 & Hc3 & Hd3).
    intros [= <- <-]. split; [done|]. eexists _, _, _. split; [by eapply outcome_returned|].
    split; [done|rewrite app_nil_r|..]; congruence.
  - destruct Hr as ([w [Hi He Hc Hd Hp]] & st' & Hruns).
    destruct (exit_handler_inv (E:=MappingError AnyError) S _ b _ _ Hl Hi) as (s3 & -> & _).
    intros [= <- <-]. split; [done|]. unfold ending_of in Hruns.
    destruct (ic_possible_reorg i2); [by eapply outcome_reorg|]. fold (is_timeout t).
    destruct (is_timeout t) eqn:Ht.
    { destruct Htime as [[n ->]|Ht']; [|unfold is_timeout in Ht; by rewrite Ht' in Ht].
      destruct (trap_is_deterministic i2 t); (eapply outcome_timeout; [done| |done]); auto. }
    destruct (trap_is_deterministic i2 t); [|by eapply outcome_unknown].
    edestruct (discard_handler_inv (E:=MappingError AnyError)) as (s4 & -> & Hinv4 & He4 & Hc4 & Hd4); [done|].
    eexists _, _, _. split; [by eapply outcome_failed|].
    split; [done|by rewrite He4, He|rewrite app_nil_r; congruence|congruence].
Qed.

(** C3: a handler is a transaction.  Its code runs against a plain database of
    entities: each call is answered from the database and the gas that is left, and
    the code ends by returning, by trapping, or at a call that fails.  If the code
    returns, [invoke_handler] gives back a block state with the entities of that
    database and exactly the data sources the code asked for added; if it fails
    deterministically, one with the entities and data sources as before and one
    error more, with the message of that failure, this handler and this block; and
    reads through the cache answer accordingly from then on.  If it fails otherwise,
    times out, or has noticed a reorganisation, the result is the error for that.
    It does not panic, given code that does not make the exports panic (entity types
    of the schema, [abort] with a line only along with a file) and a timeout
    configured if traps can report one. *)
Theorem handler_is_transaction S he block_ptr handler p b i x poi :
  hash_iter_law hash_iter -> reads_from store S (he_subgraph_id he) -> timeouts_ok ->
  program_safe (he_subgraph_id he) p -> poi_ok (ic_proof_of_indexing i) -> flags_clear i ->
  block_inv S (he_subgraph_id he) (mkTxn b None) (ic_state i) ->
  invoke_handler template_name hash_iter store fuel max_gas_per_handler debug_fork trap_to_string error_text
    timeout he block_ptr handler (Some p) i = (x, poi) ->
  match x with
  | Ok (s, _) => exists b' created errors,
      handler_outcome he block_ptr handler p b (ic_gas i) (HandlerDone b' created errors) /\
      block_effect S (he_subgraph_id he) (ic_state i) s b' created errors /\
      forall k, exists e c, ec_get store (bs_entity_cache s) k = Ok (e, c) /\ osim e (b' k)
  | Err e => handler_outcome he block_ptr handler p b (ic_gas i) (HandlerGivesUp e)
  | Panic => False
  end.
Proof.
  intros Hl Hread Htime Hsafe Hpoi Hflags Hinv Hx.
  destruct (handler_transaction S he block_ptr handler p b i x poi Hl Hread Htime Hsafe Hpoi Hflags Hinv Hx)
    as [_ Heff].
  destruct x as [[s gas]|e|]; [|done..]. destruct Heff as (b' & created & errors & Hout & Heff).
  exists b', created, errors. split_and!; [done..|]. intros k.
  destruct (be_inv _ _ _ _ _ _ _ Heff) as [Hrep Hkeys _ _].
  destruct (ec_get_represents S _ _ _ k Hread Hrep Hkeys) as (e & c & Hget & Hsim & _). by exists e, c.
Qed.

End Handlers.
