(* ===== verification/InstanceProps.v ===== *)
(** * Triggers and data sources

    Running a trigger through the hosts of a subgraph runs the handlers that match
    one after the other, each of them as a transaction; and the hosts that remain
    after a revert. *)

From S2P Require Import Prelude GraphqlAst Scalars RuntimeValue Values Names StoreTypes StoreProps.
From S2P Require Import Schema EntityValidate CacheInterface EntityCache EntityCacheProps BlockState Gas.
From S2P Require Import ProofOfIndexing HostExports SubgraphInstance HandlerProps.

Section Instance.
Context `{HX : !Hex} `{HB : !NumBits} `{HS : !StableHash}.
Context {C : Type} `{HC : !CacheOps EntityKey (option Entity) C} `{HL : !CacheLaws EntityKey (option Entity) C}.
Context {QErr StoredDs Template Ctx : Type}.
Context {DataSource Trigger Block MappingTrigger : Type}.
Context (template_name : Template -> string).
Context (hash_iter : gmap EntityKey EntityOp -> list (EntityKey * EntityOp)).
Context (store : EntityReader QErr) (fuel : nat) (max_gas_per_handler : Z).
Context (debug_fork : option (string -> string -> result string (option Entity))).
Context (trap_to_string : Trap (AnyError QErr) -> string) (error_text : AnyError QErr -> string).
Context (timeout : option Z).

Local Abbreviation AnyError := (AnyError QErr).
Local Abbreviation BlockState := (BlockState C StoredDs Template Ctx).
Local Abbreviation Program := (Program Ctx AnyError).
Local Abbreviation RuntimeHost := (RuntimeHost QErr Template Ctx DataSource Trigger Block MappingTrigger).
Local Abbreviation program_step := (program_step template_name store fuel max_gas_per_handler debug_fork).
Local Abbreviation handler_outcome := (handler_outcome template_name store fuel max_gas_per_handler debug_fork
  trap_to_string error_text).
Local Abbreviation Info := (DataSourceTemplateInfo Template Ctx).
Local Abbreviation process_trigger := (process_trigger_in_runtime_hosts template_name hash_iter store fuel
  max_gas_per_handler debug_fork trap_to_string error_text timeout).

(** ** Handlers and the proof of indexing *)

(** Code that leaves the entities of the proof of indexing alone *)
Fixpoint avoids_poi (p : Program) : Prop :=
  match p with
  | ProgramCall call k =>
      match call with
      | CallStoreSet ty _ _ | CallStoreRemove ty _ | CallStoreGet ty _ => is_poi ty = false
      | _ => True
      end /\ forall a, avoids_poi (k a)
  | _ => True
  end.

Definition same_poi (m m' : EntityDb) : Prop := forall k, is_poi (entity_type k) = true -> m' k = m k.

Lemma db_write_same_poi ty id sid op m :
  is_poi ty = false -> same_poi m (db_write (mkKey sid ty id) op m).
Proof. intros Hty k Hk. unfold db_write. case_decide; [subst; simpl in Hk; congruence|done]. Qed.

(** Data sources are created in the block that is processed. *)
Definition created_in (block : BlockNumber) (infos : list Info) : Prop :=
  Forall (fun info => dti_creation_block info = block) infos.

Lemma program_steps_created he block c c' :
  rtc (program_step he block) c c' -> created_in block (hs_created c.2) -> created_in block (hs_created c'.2).
Proof.
  induction 1 as [|c c1 c' Hstep _ IH]; [done|]. intros Hc. apply IH. clear IH.
  inversion Hstep; subst; cbn in *; try done. apply Forall_app. split; [done|by repeat constructor].
Qed.

Lemma handler_outcome_created he block_ptr handler p b gas b' created errors :
  handler_outcome he block_ptr handler p b gas (HandlerDone b' created errors) -> created_in (bp_number block_ptr) created.
Proof.
  inversion 1 as [st' [p' Hsteps _]| | | |]; subst; [|constructor]. apply program_steps_created in Hsteps; [done|]. constructor.
Qed.

Lemma db_set_same_poi ty id sid data m m' :
  is_poi ty = false -> db_set store fuel (mkKey sid ty id) data m m' -> same_poi m m'.
Proof. intros Hty []. by apply db_write_same_poi. Qed.

Lemma program_step_same_poi he block p st p' st' :
  program_step he block (p, st) (p', st') -> avoids_poi p -> avoids_poi p' /\ same_poi (hs_db st) (hs_db st').
Proof.
  inversion 1; subst; intros [Hty Hk]; (split; [by apply Hk|]);
    first [done|by apply db_write_same_poi|by eapply db_set_same_poi].
Qed.

Lemma program_steps_same_poi he block c c' :
  rtc (program_step he block) c c' -> avoids_poi c.1 -> same_poi (hs_db c.2) (hs_db c'.2).
Proof.
  induction 1 as [|[p m] [p1 m1] c' Hstep _ IH]; [done|]. simpl. intros Hp.
  destruct (program_step_same_poi _ _ _ _ _ _ Hstep Hp) as [Hp1 Hm1]. intros k Hk. rewrite (IH Hp1 k Hk).
  by apply Hm1.
Qed.

Lemma handler_outcome_same_poi he block_ptr handler p b gas b' created errors :
  handler_outcome he block_ptr handler p b gas (HandlerDone b' created errors) -> avoids_poi p -> same_poi b b'.
Proof.
  inversion 1 as [st' [p' Hsteps _]| | | |]; subst; intros Hp; [|done].
  by apply (program_steps_same_poi _ _ _ _ Hsteps).
Qed.

(** ** Running a trigger *)

(** A host of deployment [sid] whose handlers do not panic *)
Record host_ok (sid : DeploymentHash) (h : RuntimeHost) : Prop := {
  ho_subgraph : he_subgraph_id (rh_exports h) = sid;
  ho_match trigger block : rh_match_and_decode h trigger block <> Panic;
  ho_prepare mt : rh_prepare h mt <> Panic;
  ho_safe mt ph p :
    rh_prepare h mt = Ok ph -> ph_func ph = Some p ->
    program_safe store fuel debug_fork sid p /\ avoids_poi p
}.

(** The handlers that match a trigger run one after the other, each one to its end
    or without any effect but an error, and ask for data sources. *)
Inductive hosts_run (block : Block) (block_ptr : BlockPtr) (trigger : Trigger) :
    list RuntimeHost -> EntityDb -> EntityDb -> list Info -> list SubgraphError -> Prop :=
| hosts_done b : hosts_run block block_ptr trigger [] b b [] []
| host_skipped h hosts b b' infos errs :
    rh_match_and_decode h trigger block = Ok None ->
    hosts_run block block_ptr trigger hosts b b' infos errs -> hosts_run block block_ptr trigger (h :: hosts) b b' infos errs
| host_ran h hosts mt ph p b b1 b' infos infos' errs errs' :
    rh_match_and_decode h trigger block = Ok (Some mt) -> rh_prepare h mt = Ok ph -> ph_func ph = Some p ->
    handler_outcome (rh_exports h) block_ptr (ph_name ph) p b (ph_gas ph) (HandlerDone b1 infos errs) ->
    hosts_run block block_ptr trigger hosts b1 b' infos' errs' ->
    hosts_run block block_ptr trigger (h :: hosts) b b' (infos ++ infos') (errs ++ errs').

Lemma hosts_run_created block block_ptr trigger hosts b b' infos errs :
  hosts_run block block_ptr trigger hosts b b' infos errs -> created_in (bp_number block_ptr) infos.
Proof. induction 1; [constructor|done|]. apply Forall_app. split; [by eapply handler_outcome_created|done]. Qed.

(** A host before which all others have run can not match the trigger or prepare
    its handler, or the node gives up on the handler. *)
Inductive hosts_fail (block : Block) (block_ptr : BlockPtr) (trigger : Trigger) :
    list RuntimeHost -> EntityDb -> MappingError AnyError -> Prop :=
| fail_match h hosts b e :
    rh_match_and_decode h trigger block = Err e -> hosts_fail block block_ptr trigger (h :: hosts) b (MappingUnknown e)
| fail_prepare h hosts mt b e :
    rh_match_and_decode h trigger block = Ok (Some mt) -> rh_prepare h mt = Err e ->
    hosts_fail block block_ptr trigger (h :: hosts) b e
| fail_function h hosts mt ph b :
    rh_match_and_decode h trigger block = Ok (Some mt) -> rh_prepare h mt = Ok ph -> ph_func ph = None ->
    hosts_fail block block_ptr trigger (h :: hosts) b (MappingUnknown (FunctionNotFound (ph_name ph)))
| fail_handler h hosts mt ph p b e :
    rh_match_and_decode h trigger block = Ok (Some mt) -> rh_prepare h mt = Ok ph -> ph_func ph = Some p ->
    handler_outcome (rh_exports h) block_ptr (ph_name ph) p b (ph_gas ph) (HandlerGivesUp e) ->
    hosts_fail block block_ptr trigger (h :: hosts) b e
| fail_skipped h hosts b e :
    rh_match_and_decode h trigger block = Ok None ->
    hosts_fail block block_ptr trigger hosts b e -> hosts_fail block block_ptr trigger (h :: hosts) b e
| fail_later h hosts mt ph p b b1 infos errs e :
    rh_match_and_decode h trigger block = Ok (Some mt) -> rh_prepare h mt = Ok ph -> ph_func ph = Some p ->
    handler_outcome (rh_exports h) block_ptr (ph_name ph) p b (ph_gas ph) (HandlerDone b1 infos errs) ->
    hosts_fail block block_ptr trigger hosts b1 e -> hosts_fail block block_ptr trigger (h :: hosts) b e.

Section Run.
Context (S : gmap EntityKey Entity) (sid : DeploymentHash).
Hypothesis Hhash : hash_iter_law hash_iter.
Hypothesis Hread : reads_from store S sid.
Hypothesis Htimeout : timeouts_ok trap_to_string timeout.

Lemma process_mapping_trigger_sim h block_ptr mt b (s : BlockState) poi (x : result (MappingError AnyError) BlockState) poi' :
  host_ok sid h -> block_inv S sid (mkTxn b None) s -> poi_ok poi ->
  process_mapping_trigger template_name hash_iter store fuel max_gas_per_handler debug_fork trap_to_string
    error_text timeout h block_ptr mt s poi = (x, poi') ->
  poi_ok poi' /\
  match rh_prepare h mt with
  | Err e => x = Err e
  | Panic => False
  | Ok ph =>
      match ph_func ph with
      | None => x = Err (MappingUnknown (FunctionNotFound (ph_name ph)))
      | Some p =>
          match x with
          | Ok s' => exists b' infos errs,
              handler_outcome (rh_exports h) block_ptr (ph_name ph) p b (ph_gas ph) (HandlerDone b' infos errs) /\
              block_effect S sid s s' b' infos errs
          | Err e => handler_outcome (rh_exports h) block_ptr (ph_name ph) p b (ph_gas ph) (HandlerGivesUp e)
          | Panic => False
          end
      end
  end.
Proof.
  intros [Hsid _ Hprep Hsafe] Hinv Hpoi. unfold process_mapping_trigger. specialize (Hprep mt).
  destruct (rh_prepare h mt) as [ph|e|] eqn:Hph; [|by intros [= <- <-]|done].
  destruct (ph_func ph) as [p|] eqn:Hp; [|by intros [= <- <-]].
  destruct (Hsafe mt ph p Hph Hp) as [Hsafe' Havoid].
  destruct (invoke_handler _ _ _ _ _ _ _ _ _ _ _ _ _ _) as [r poi1] eqn:Hinvoke.
  destruct (handler_transaction template_name hash_iter store fuel max_gas_per_handler debug_fork trap_to_string
    error_text timeout S (rh_exports h) block_ptr (ph_name ph) p b
    (mkInstance s poi (ph_gas ph) false false false) r poi1) as [Hpoi1 Heff];
    rewrite ?Hsid; try done.
  intros [= <- <-]. split; [done|]. rewrite Hsid in Heff. by destruct r as [[s1 gas]| |].
Qed.

(** What running the hosts gives *)
Definition hosts_result (block : Block) (block_ptr : BlockPtr) (trigger : Trigger) (hosts : list RuntimeHost)
    (b : EntityDb) (s : BlockState) (x : result (MappingError AnyError) (BlockState * option ProofOfIndexing)) : Prop :=
  match x with
  | Ok (s', poi') => poi_ok poi' /\ exists b' infos errs,
      hosts_run block block_ptr trigger hosts b b' infos errs /\ block_effect S sid s s' b' infos errs
  | Err e => hosts_fail block block_ptr trigger hosts b e
  | Panic => False
  end.

Lemma process_hosts_sim hosts block block_ptr trigger b (s : BlockState) poi :
  Forall (host_ok sid) hosts -> block_inv S sid (mkTxn b None) s -> poi_ok poi ->
  hosts_result block block_ptr trigger hosts b s
    (process_hosts template_name hash_iter store fuel max_gas_per_handler debug_fork trap_to_string
       error_text timeout hosts block block_ptr trigger s poi).
Proof.
  intros Hok. revert b s poi. induction Hok as [|h hosts Hh _ IH]; intros b s poi Hinv Hpoi; cbn [process_hosts].
  { split; [done|]. exists b, [], []. split; [constructor|by apply block_effect_refl]. }
  pose proof (ho_match _ _ Hh trigger block) as Hm.
  destruct (rh_match_and_decode h trigger block) as [[mt|]|e|] eqn:Hmatch; cbn [map_err bind_result];
    [| |by constructor|done].
  2:{ specialize (IH b s poi Hinv Hpoi). destruct (process_hosts _ _ _ _ _ _ _ _ _ _ _ _ _ _ _) as [[s' poi']|e|]; cbn in *.
      - destruct IH as (? & b' & infos & errs & Hrun & Heff). split; [done|]. exists b', infos, errs.
        split; [by constructor|done].
      - by apply fail_skipped.
      - done. }
  destruct (process_mapping_trigger _ _ _ _ _ _ _ _ _ _ _ _ _ _) as [r poi1] eqn:Htrig.
  destruct (process_mapping_trigger_sim h block_ptr mt b s poi r poi1 Hh Hinv Hpoi Htrig) as [Hpoi1 Heff].
  destruct (rh_prepare h mt) as [ph|e|] eqn:Hph; [|subst; by eapply fail_prepare|done].
  destruct (ph_func ph) as [p|] eqn:Hp; [|subst; by eapply fail_function].
  destruct r as [s1|e|]; cbn [bind_result]; [|by eapply fail_handler|done].
  destruct Heff as (b1 & infos & errs & Hout & Heff).
  specialize (IH b1 s1 poi1 (be_inv _ _ _ _ _ _ _ Heff) Hpoi1).
  destruct (process_hosts _ _ _ _ _ _ _ _ _ _ _ _ _ _ _) as [[s' poi']|e|]; cbn in *; [|by eapply fail_later|done].
  destruct IH as (? & b' & infos' & errs' & Hrun & Heff'). split; [done|].
  exists b', (infos ++ infos'), (errs ++ errs'). split; [by eapply host_ran|by eapply block_effect_trans].
Qed.

Lemma start_handler_ok poi region :
  poi_ok poi ->
  exists poi1, match poi with
      | Some p => map_result Some (poi_start_handler (E:=MappingError AnyError) p region)
      | None => Ok None end = Ok poi1 /\ poi_ok poi1.
Proof.
  intros Hpoi. destruct poi as [p|]; [|by exists None]. specialize (Hpoi p eq_refl).
  destruct (with_causality_region_ok (E:=MappingError AnyError) p region (fun e => (tt, stream_start_handler e)) Hpoi)
    as (u & p' & Heq & Hn).
  exists (Some p'). unfold poi_start_handler. rewrite Heq. split; [done|]. intros q [= <-]. by rewrite Hn.
Qed.

(** Processing a trigger panics only when two hosts fail on it. *)
Lemma process_trigger_sim hosts block block_ptr trigger b (s : BlockState) poi region :
  Forall (host_ok sid) hosts ->
  block_inv S sid (mkTxn b None) s -> poi_ok poi ->
  match process_trigger hosts block block_ptr trigger s poi region with
  | Ok (s', poi') => poi_ok poi' /\ exists b' infos errs,
      hosts_run block block_ptr trigger hosts b b' infos errs /\ block_effect S sid s s' b' infos errs
  | Err e => hosts_fail block block_ptr trigger hosts b e
  | Panic => exists b' infos errs, hosts_run block block_ptr trigger hosts b b' infos errs /\ 2 <= length errs
  end.
Proof.
  intros Hhosts Hinv Hpoi. unfold process_trigger_in_runtime_hosts.
  destruct (start_handler_ok poi region Hpoi) as (poi1 & -> & Hpoi1). cbn [bind_result].
  pose proof (process_hosts_sim hosts block block_ptr trigger b s poi1 Hhosts Hinv Hpoi1) as Hrun.
  destruct (process_hosts _ _ _ _ _ _ _ _ _ _ _ _ _ _ _) as [[s1 poi2]|e|]; [|done|done]. cbn [bind_result].
  pose proof Hrun as (Hpoi2 & b' & infos & errs & Hh & Heff). destruct poi2 as [p|]; [|done].
  rewrite (be_errors _ _ _ _ _ _ _ Heff), length_app.
  case_bool_decide as Hsame; [done|].
  case_bool_decide as Hone; [|exists b', infos, errs; split; [done|lia]].
  unfold write_deterministic_error. specialize (Hpoi2 p eq_refl).
  destruct (with_causality_region_ok (E:=MappingError AnyError) p region
    (fun e => ((vec_length e - handler_start e)%Z, e)) Hpoi2) as (u & p' & -> & Hn'). cbn [bind_result].
  destruct (poi_write_ok (E:=MappingError AnyError) p' region (DeterministicError u)) as (p'' & Hw & Hn''); [lia|].
  cbn [fst snd]. rewrite Hw. split; [|by exists b', infos, errs]. intros q [= <-]. lia.
Qed.

End Run.
(** ** The hosts after a revert *)

(** [hosts] is ordered by the creation block; hosts of the manifest have none. *)
Definition hosts_ordered (hosts : list RuntimeHost) : Prop :=
  StronglySorted (fun h h' => option_leb (rh_creation_block_number h) (rh_creation_block_number h') = true) hosts.

Definition created_before (n : BlockNumber) (h : RuntimeHost) : bool :=
  negb (option_leb (Some n) (rh_creation_block_number h)).

Lemma created_before_mono n h h' :
  option_leb (rh_creation_block_number h) (rh_creation_block_number h') = true ->
  created_before n h' = true -> created_before n h = true.
Proof.
  unfold created_before, option_leb, option_ltb.
  destruct (rh_creation_block_number h), (rh_creation_block_number h'); simpl; try done.
  rewrite !negb_true_iff, !negb_false_iff, !Z.ltb_lt, Z.ltb_ge. lia.
Qed.

Lemma revert_data_sources_spec hosts n :
  hosts_ordered hosts -> revert_data_sources hosts n = List.filter (created_before n) hosts.
Proof.
  intros Hord. unfold revert_data_sources. rewrite <-(rev_involutive hosts) at 2.
  rewrite <-(rev_involutive hosts) in Hord. revert Hord. generalize (rev hosts). clear hosts.
  induction l as [|h l IH]; intros Hord; simpl; [done|].
  rewrite List.filter_app. simpl in Hord. apply StronglySorted_snoc in Hord as [Hl Hbefore]. simpl.
  assert (Heq : option_leb (Some n) (rh_creation_block_number h) = negb (created_before n h))
    by (unfold created_before; by rewrite negb_involutive).
  rewrite Heq. destruct (created_before n h) eqn:Hh; simpl.
  - f_equal. rewrite (filter_same _ (fun _ => true)); [by rewrite filter_all|].
    intros h' Hin. eapply created_before_mono; [|done]. by eapply (Forall_forall _ _) in Hbefore.
  - rewrite app_nil_r. by apply IH.
Qed.

End Instance.
