(* ===== verification/BlockRange.v ===== *)
(** * Block ranges of entity versions

    [store/postgres/src/block_range.rs].  A row of an entity table is one
    version of an entity.  In a mutable table the column [block_range], an
    [int4range], says at which blocks the version is valid; in an immutable
    table the column [block$] says from which block on it is.

    Range values and their operators belong to Postgres: [Int4Range] has the
    operators that the generated SQL uses, and [Int4RangeLaws] what the Postgres
    manual documents of them; in [int4range lo hi] a [None] stands for [null],
    a missing bound.  The SQL fragments of [BlockRangeColumn] become
    predicates on the column of a row, with a comparison to [null] not
    holding. *)

From S2P Require Import Prelude GraphqlAst Scalars RuntimeValue Values StoreTypes.

Inductive SqlError :=
| RangeBoundsOutOfOrder
| ExclusionViolation (table : string)
| UniqueViolation (table : string)
| NotNullViolation (table column : string)
| UndefinedColumn (column : string)
| SerializationError.

Class Int4Range (R : Type) := {
  int4range : option Z -> option Z -> result SqlError R;
  range_elem : R -> Z -> bool;
  range_lower : R -> option Z;
  range_upper : R -> option Z;
  range_overlap : R -> R -> bool
}.

(** Whether [b] is in [[lo, hi)], where [None] is no upper bound. *)
Definition in_bounds (lo : Z) (hi : option Z) (b : Z) : bool :=
  (lo <=? b)%Z && match hi with Some h => (b <? h)%Z | None => true end.

(** The bounds of a range that is not empty. *)
Definition proper_bounds (lo : Z) (hi : option Z) : Prop :=
  match hi with Some h => (lo < h)%Z | None => True end.

Class Int4RangeLaws (R : Type) `{!Int4Range R} := {
  (** a lower bound above the upper bound is an error, and only that *)
  int4range_ok lo hi : (match hi with Some h => (lo <= h)%Z | None => True end) ->
    exists r, int4range (Some lo) hi = Ok r;
  int4range_err lo h : (h < lo)%Z -> int4range (Some lo) (Some h) = Err RangeBoundsOutOfOrder;
  (** the range holds the integers from the lower bound, included, to the
      upper bound, excluded *)
  range_elem_spec lo hi r b : int4range (Some lo) hi = Ok r -> range_elem r b = in_bounds lo hi b;
  (** [lower] and [upper] give back the bounds, and [null] on the empty range *)
  range_lower_spec lo hi r : int4range (Some lo) hi = Ok r -> proper_bounds lo hi ->
    range_lower r = Some lo;
  range_upper_spec lo hi r : int4range (Some lo) hi = Ok r -> proper_bounds lo hi ->
    range_upper r = hi;
  range_bounds_empty lo r : int4range (Some lo) (Some lo) = Ok r ->
    range_lower r = None /\ range_upper r = None;
  (** [&&] holds when the ranges have an element in common *)
  range_overlap_spec r1 r2 : range_overlap r1 r2 = true <->
    exists b, range_elem r1 b = true /\ range_elem r2 b = true
}.

(** ** Comparisons with [null] *)

Definition sql_cmp (op : Z -> Z -> bool) (a : option Z) (b : Z) : bool :=
  match a with Some a => op a b | None => false end.

Definition coalesce (a : option Z) (b : Z) : Z := default b a.

Definition BLOCK_UNVERSIONED : BlockNumber := (-1)%Z.

Inductive Bound := Included (n : BlockNumber) | Excluded (n : BlockNumber) | Unbounded.

#[export] Instance Bound_eq_dec : EqDecision Bound.
Proof. solve_decision. Defined.

Definition UNVERSIONED_RANGE : Bound * Bound := (Included BLOCK_UNVERSIONED, Unbounded).

(** [nr + 1] overflows at the maximum. *)
Definition first_block_in_range {E} (bound : Bound * Bound) : result E (option BlockNumber) :=
  if bool_decide (bound = UNVERSIONED_RANGE) then Ok None
  else match bound.1 with
  | Included nr => Ok (Some nr)
  | Excluded nr => if (nr =? i32_max)%Z then Panic else Ok (Some (nr + 1)%Z)
  | Unbounded => Ok None
  end.

Section BlockRangeColumn.
Context {R : Type} `{!Int4Range R}.

(** The block column of a row: [block_range] or [block$], by the kind of the
    table. *)
Inductive BlockColumn := ColRange (r : R) | ColBlock (b : BlockNumber).

Definition block_range_of (c : BlockColumn) : option R :=
  match c with ColRange r => Some r | ColBlock _ => None end.

Definition block_of (c : BlockColumn) : option BlockNumber :=
  match c with ColRange _ => None | ColBlock b => Some b end.

(** [BLOCK_RANGE_CURRENT] *)
Definition range_current (r : R) : bool := range_elem r BLOCK_NUMBER_MAX.

Definition clause_contains (immutable is_account_like : bool) (block : BlockNumber)
    (c : BlockColumn) : bool :=
  if immutable then
    if (block =? BLOCK_NUMBER_MAX)%Z then true
    else sql_cmp Z.leb (block_of c) block
  else
    match block_range_of c with
    | None => false
    | Some r =>
        range_elem r block &&
        (if is_account_like && (block <? BLOCK_NUMBER_MAX)%Z then
           (block <? coalesce (range_upper r) BLOCK_NUMBER_MAX)%Z &&
           sql_cmp Z.leb (range_lower r) block
         else true)
    end.

Definition literal_range_current (immutable : bool) (block : BlockNumber)
    : result SqlError BlockColumn :=
  if immutable then Ok (ColBlock block)
  else map_result ColRange (int4range (Some block) None).

Definition clause_latest (immutable : bool) (c : BlockColumn) : bool :=
  if immutable then true
  else match block_range_of c with Some r => range_current r | None => false end.

(** [int4range(lower(block_range), $block)], and [unreachable!] for an immutable
    table *)
Definition clamp (immutable : bool) (block : BlockNumber) (r : R) : result SqlError R :=
  if immutable then Panic else int4range (range_lower r) (Some block).

Definition changed_since (immutable : bool) (block : BlockNumber) (c : BlockColumn) : bool :=
  if immutable then sql_cmp Z.geb (block_of c) block
  else match block_range_of c with
       | Some r => sql_cmp Z.geb (range_lower r) block
       | None => false
       end.

(** [lower(block_range) = $block] and [coalesce(upper(block_range), MAX) = $block] *)
Definition lower_bound_clause (block : BlockNumber) (c : BlockColumn) : bool :=
  match block_range_of c with
  | Some r => sql_cmp Z.eqb (range_lower r) block
  | None => false
  end.

Definition upper_bound_clause (block : BlockNumber) (c : BlockColumn) : bool :=
  match block_range_of c with
  | Some r => (coalesce (range_upper r) BLOCK_NUMBER_MAX =? block)%Z
  | None => false
  end.

End BlockRangeColumn.
Arguments BlockColumn : clear implicits.

(** ** The bounds of a version *)

Section Bounds.
Context {R : Type} `{HR : !Int4Range R} `{HL : !Int4RangeLaws R}.

(** [r] is the range of a version that was created at block [lo] and superseded
    or deleted at [hi], both not after [head]. *)
Record version (head : Z) (r : R) (lo : Z) (hi : option Z) : Prop := {
  v_range : int4range (Some lo) hi = Ok r;
  v_proper : proper_bounds lo hi;
  v_lo : (lo <= head)%Z;
  v_hi h : hi = Some h -> (h <= head)%Z
}.

Lemma version_elem head r lo hi b : version head r lo hi -> range_elem r b = in_bounds lo hi b.
Proof. intros []. by apply range_elem_spec. Qed.

Lemma version_lower head r lo hi : version head r lo hi -> range_lower r = Some lo.
Proof. intros []. by eapply range_lower_spec. Qed.

Lemma version_upper head r lo hi : version head r lo hi -> range_upper r = hi.
Proof. intros []. by eapply range_upper_spec. Qed.

(** A version is current when it has no upper bound. *)
Lemma version_current head r lo hi :
  version head r lo hi -> (head < BLOCK_NUMBER_MAX)%Z ->
  range_current r = bool_decide (hi = None).
Proof.
  intros Hv Hm. unfold range_current. rewrite (version_elem _ _ _ _ _ Hv).
  destruct Hv as [_ _ Hlo Hhi]. unfold in_bounds. destruct hi as [h|].
  - specialize (Hhi h eq_refl). rewrite bool_decide_false by done.
    destruct (Z.ltb_spec BLOCK_NUMBER_MAX h); [lia|]. by rewrite andb_false_r.
  - rewrite bool_decide_true by done. rewrite andb_true_r. apply Z.leb_le. lia.
Qed.

Lemma version_mono head head' r lo hi :
  version head r lo hi -> (head <= head')%Z -> version head' r lo hi.
Proof. intros [H1 H2 H3 H4] Hle. split; try done; [lia|]. intros h Hh. specialize (H4 h Hh). lia. Qed.

(** The clauses that are added for account-like tables do not change which
    versions are found. *)
Lemma account_like_same head r lo hi al block :
  version head r lo hi -> (head < BLOCK_NUMBER_MAX)%Z ->
  clause_contains false al block (ColRange r) = range_elem r block.
Proof.
  intros Hv Hm. unfold clause_contains. simpl.
  destruct (al && (block <? BLOCK_NUMBER_MAX)%Z) eqn:Hal; [|by rewrite andb_true_r].
  apply andb_prop in Hal as [_ Hb%Z.ltb_lt].
  rewrite (version_lower _ _ _ _ Hv), (version_upper _ _ _ _ Hv), (version_elem _ _ _ _ _ Hv).
  unfold in_bounds, sql_cmp, coalesce. destruct hi as [h|]; simpl.
  - destruct (lo <=? block)%Z, (block <? h)%Z; done.
  - destruct (Z.ltb_spec block BLOCK_NUMBER_MAX); [|lia]. destruct (lo <=? block)%Z; done.
Qed.

Lemma clamp_version head r lo block :
  version head r lo None -> (lo < block)%Z ->
  exists r', clamp false block r = Ok r' /\ version block r' lo (Some block).
Proof.
  intros Hv Hb. unfold clamp. rewrite (version_lower _ _ _ _ Hv).
  destruct (int4range_ok lo (Some block)) as [r' Hr']; [simpl; lia|].
  exists r'. split; [done|]. split; [done|simpl; lia|lia|]. intros h [= <-]. lia.
Qed.

Lemma literal_version block :
  exists r, literal_range_current false block = Ok (ColRange r) /\ version block r block None.
Proof.
  destruct (int4range_ok block None) as [r Hr]; [done|]. exists r. split.
  - unfold literal_range_current. by rewrite Hr.
  - by split.
Qed.

End Bounds.

(** ** A model of the range type *)

Inductive pg_range := REmpty | RRange (lo hi : option Z).

Definition pg_elem (r : pg_range) (b : Z) : bool :=
  match r with
  | REmpty => false
  | RRange lo hi =>
      match lo with Some l => (l <=? b)%Z | None => true end &&
      match hi with Some h => (b <? h)%Z | None => true end
  end.

(** Two ranges overlap when the larger lower bound is in both. *)
Definition pg_overlap (r1 r2 : pg_range) : bool :=
  match r1, r2 with
  | RRange (Some l1) _, RRange (Some l2) _ =>
      pg_elem r1 (Z.max l1 l2) && pg_elem r2 (Z.max l1 l2)
  | RRange (Some l1) _, RRange None _ => pg_elem r1 l1 && pg_elem r2 l1
  | RRange None _, RRange (Some l2) _ => pg_elem r1 l2 && pg_elem r2 l2
  | RRange None _, RRange None _ => true
  | _, _ => false
  end.

#[export] Instance pg_int4range : Int4Range pg_range := {
  int4range lo hi :=
    match lo, hi with
    | Some l, Some h =>
        if (h <? l)%Z then Err RangeBoundsOutOfOrder
        else if (l =? h)%Z then Ok REmpty else Ok (RRange lo hi)
    | _, _ => Ok (RRange lo hi)
    end;
  range_elem := pg_elem;
  range_lower r := match r with REmpty => None | RRange lo _ => lo end;
  range_upper r := match r with REmpty => None | RRange _ hi => hi end;
  range_overlap := pg_overlap
}.

Lemma pg_overlap_spec r1 r2 :
  pg_overlap r1 r2 = true <-> exists b, pg_elem r1 b = true /\ pg_elem r2 b = true.
Proof.
  split.
  - destruct r1 as [|[l1|] h1], r2 as [|[l2|] h2]; try done; simpl.
    + intros [??]%andb_prop. by exists (Z.max l1 l2).
    + intros [??]%andb_prop. by exists l1.
    + intros [??]%andb_prop. by exists l2.
    + intros _. exists (Z.min (default 0 h1) (default 0 h2) - 1)%Z.
      destruct h1, h2; simpl; rewrite ?Z.ltb_lt; split; try done; lia.
  - intros (b & H1 & H2).
    destruct r1 as [|[l1|] [h1|]], r2 as [|[l2|] [h2|]]; simpl in *;
      rewrite ?andb_true_iff, ?Z.leb_le, ?Z.ltb_lt in *; intuition (try done; lia).
Qed.

#[export] Instance pg_int4range_laws : Int4RangeLaws pg_range.
Proof.
  split.
  - intros lo [h|] Hle; simpl; [|by eexists].
    destruct (Z.ltb_spec h lo); [lia|]. case_match; by eexists.
  - intros lo h Hlt. simpl. by rewrite (proj2 (Z.ltb_lt h lo) Hlt).
  - intros lo [h|] r b; simpl; [|by intros [= <-]].
    destruct (Z.ltb_spec h lo); [done|]. destruct (Z.eqb_spec lo h); intros [= <-]; [|done].
    unfold in_bounds. simpl. destruct (Z.leb_spec lo b), (Z.ltb_spec b h); try done; lia.
  - intros lo [h|] r; simpl; [|by intros [= <-]]. intros Hr Hp.
    destruct (Z.ltb_spec h lo); [done|]. destruct (Z.eqb_spec lo h); [lia|]. by injection Hr as <-.
  - intros lo [h|] r; simpl; [|by intros [= <-]]. intros Hr Hp.
    destruct (Z.ltb_spec h lo); [done|]. destruct (Z.eqb_spec lo h); [lia|]. by injection Hr as <-.
  - intros lo r. simpl. rewrite Z.ltb_irrefl, Z.eqb_refl. by intros [= <-].
  - apply pg_overlap_spec.
Qed.
