(* ===== verification/Relational.v ===== *)
(** * Entity tables

    The tables of [store/postgres/src/relational.rs] and the statements of
    [store/postgres/src/relational_queries.rs] that read and write entity
    versions.  A table is a list of rows; an SQL statement maps the rows to new
    rows or fails, and a statement that breaks a constraint of the table
    definition ([relational/ddl.rs]) fails.

    How Postgres represents a value in a column belongs to Postgres: [PgValues]
    has [query_value], the value of the expression that [QueryValue] generates,
    and [column_value], what [from_column_value] makes of the JSON that Postgres
    produces for the column; [sql_text] is the value of a column that is read as
    text. *)

From S2P Require Import Prelude GraphqlAst Scalars RuntimeValue Values StoreTypes Schema BlockRange.

(** ** Tables *)

Inductive ColumnType :=
| CTBoolean | CTBigDecimal | CTBigInt | CTBytes | CTInt | CTString
| CTTSVector (language : FulltextLanguage) (algorithm : FulltextAlgorithm)
| CTEnum (name : string) (values : list string).

Record Column := mkColumn {
  col_name : string;
  col_field : string;
  col_field_type : sType;
  col_column_type : ColumnType;
  col_fulltext_fields : option (list string)
}.

Record Table := mkTable {
  tb_object : EntityType;
  tb_name : string;
  tb_columns : list Column;
  tb_is_account_like : bool;
  tb_immutable : bool
}.

Abbreviation Layout := (gmap EntityType Table) (only parsing).

Definition PRIMARY_KEY_COLUMN : string := "id".

Definition is_nullable (c : Column) : bool := negb (is_non_null (col_field_type c)).

Definition is_primary_key (c : Column) : bool := bool_decide (col_name c = PRIMARY_KEY_COLUMN).

Definition is_tsvector (c : Column) : bool :=
  match col_column_type c with CTTSVector _ _ => true | _ => false end.

Definition table_column (t : Table) (name : string) : option Column :=
  List.find (fun c => bool_decide (col_name c = name))
    (List.filter (fun c => negb (is_tsvector c)) (tb_columns t)).

Definition primary_key {E} (t : Table) : result E Column :=
  expect (List.find is_primary_key (tb_columns t)).

Inductive StoreError :=
| SqlErr (e : SqlError)
| UnknownTable (t : EntityType)
| ImmutableUpdated (t : EntityType) (ids : list string)
| ImmutableDeleted (t : EntityType) (ids : list string)
| ImmutableClamped (table : string)
| ImmutableUnclamped (table : string)
| MissingAttribute (t : EntityType) (id field : string)
| ConflictingId (t : EntityType) (id : string) (other : EntityType)
| FailedToRemove (ids : list string)
| DuplicateBlockProcessing (id : DeploymentHash) (block : BlockNumber)
| UnknownForwardingError
| RevertPastGraft (id : DeploymentHash) (block graft_block : BlockNumber)
| RewindNotBackwards (from to : BlockNumber)
| DataSourceWithoutAddress (name : string)
| DataSourceBadAddress (name : string) (address : Bytes)
| DataSourcesNotOrdered
| DatabaseUnavailable
| WriterPanic
| Poisoned
| Conversion.

Class PgValues (SV : Type) := {
  SV_eq_dec :: EqDecision SV;
  SV_countable :: Countable SV;
  sql_null : SV;
  query_value : ColumnType -> Value -> result StoreError SV;
  column_value : ColumnType -> SV -> result StoreError Value;
  sql_text : SV -> result StoreError string;
  query_value_null ct : query_value ct VNull = Ok sql_null;
  column_value_null ct : column_value ct sql_null = Ok VNull
}.

Definition POSTGRES_MAX_PARAMETERS : nat := N.to_nat 65535.
Definition DELETE_OPERATION_CHUNK_SIZE : nat := N.to_nat 1000.

Section Relational.
Context `{!Hex} {R : Type} `{!Int4Range R} {SV : Type} `{!PgValues SV}.

(** The columns of a row by name, where a missing one is [null], and its block
    column. *)
Record Row := mkRow { row_data : gmap string SV; row_block : BlockColumn R }.

Definition row_value (r : Row) (name : string) : SV := default sql_null (row_data r !! name).

(** [a = b] in SQL *)
Definition sql_eq (a b : SV) : bool := bool_decide (a = b) && negb (bool_decide (a = sql_null)).

Definition row_has_id (id : SV) (r : Row) : bool := sql_eq (row_value r PRIMARY_KEY_COLUMN) id.

Local Abbreviation Db := (gmap EntityType (list Row)).

Definition table_rows (db : Db) (t : Table) : list Row := default [] (db !! tb_object t).

Definition with_rows (db : Db) (t : Table) (rows : list Row) : Db := <[tb_object t := rows]> db.

Definition sql {A} (r : result SqlError A) : result StoreError A := map_err SqlErr r.

(** ** Constraints of a table

    [unique(id)] for immutable tables, [exclude using gist (id with =,
    block_range with &&)] for mutable ones. *)

Definition conflicting (immutable : bool) (r1 r2 : Row) : bool :=
  sql_eq (row_value r1 PRIMARY_KEY_COLUMN) (row_value r2 PRIMARY_KEY_COLUMN) &&
  (if immutable then true
   else match block_range_of (row_block r1), block_range_of (row_block r2) with
        | Some b1, Some b2 => range_overlap b1 b2
        | _, _ => false
        end).

Fixpoint no_conflicts (immutable : bool) (rows : list Row) : bool :=
  match rows with
  | [] => true
  | r :: rows => forallb (fun r' => negb (conflicting immutable r r')) rows && no_conflicts immutable rows
  end.

Definition check_constraint (t : Table) (rows : list Row) : result StoreError (list Row) :=
  if no_conflicts (tb_immutable t) rows then Ok rows
  else Err (SqlErr (if tb_immutable t then UniqueViolation (tb_name t)
                    else ExclusionViolation (tb_name t))).

(** [not null] of [Column::as_ddl] *)
Definition check_not_null (t : Table) (r : Row) : result StoreError unit :=
  try_iter (fun c =>
    if (is_primary_key c || negb (is_nullable c)) && bool_decide (row_value r (col_name c) = sql_null)
    then Err (SqlErr (NotNullViolation (tb_name t) (col_name c))) else Ok tt) (tb_columns t).

(** ** Identifiers and entities *)

Definition bind_id (t : Table) (id : string) : result StoreError SV :=
  let? pk := primary_key t in
  match col_column_type pk with
  | CTString => query_value CTString (VString id)
  | CTBytes =>
      let? bytes := map_err (fun _ => SqlErr SerializationError) (bytes_from_str id) in
      query_value CTBytes (VBytes bytes)
  | _ => Panic
  end.

Definition bind_ids (t : Table) (ids : list string) : result StoreError (list SV) :=
  try_map (bind_id t) ids.

Definition is_in (ids : list SV) (r : Row) : bool := existsb (fun id => row_has_id id r) ids.

Definition table_for_entity (layout : Layout) (ty : EntityType) : result StoreError Table :=
  ok_or (UnknownTable ty) (layout !! ty).

(** [EntityData::deserialize_with_layout] without a parent type; the queries
    here have no column [g$parent_id]. *)
Definition insert_entity_data (t : Table) (out : Entity) (col : string * SV) : result StoreError Entity :=
  match table_column t col.1 with
  | None => Ok out
  | Some column =>
      let? value := column_value (col_column_type column) col.2 in
      Ok (if bool_decide (value = VNull) then out else entity_insert out (col_field column) value)
  end.

Definition deserialize_with_layout (layout : Layout) (ty : EntityType) (r : Row)
    : result StoreError Entity :=
  let? t := table_for_entity layout ty in
  try_fold (insert_entity_data t) (entity_insert entity_new "__typename" (VString ty))
    (map_to_list (row_data r)).

(** ** Reading *)

Definition row_contains (t : Table) (block : BlockNumber) (r : Row) : bool :=
  clause_contains (tb_immutable t) (tb_is_account_like t) block (row_block r).

Definition find_query (db : Db) (t : Table) (id : SV) (block : BlockNumber) : list Row :=
  List.filter (fun r => row_has_id id r && row_contains t block r) (table_rows db t).

Definition layout_find (layout : Layout) (db : Db) (ty : EntityType) (id : string) (block : BlockNumber)
    : result StoreError (option Entity) :=
  let? t := table_for_entity layout ty in
  let? idv := bind_id t id in
  match find_query db t idv block with
  | [] => Ok None
  | r :: _ => map_result Some (deserialize_with_layout layout (tb_object t) r)
  end.

Definition find_many_query (db : Db) (block : BlockNumber) (t : Table) (ids : list string)
    : result StoreError (list (EntityType * Row)) :=
  let? idvs := bind_ids t ids in
  Ok (map (pair (tb_object t))
        (List.filter (fun r => is_in idvs r && row_contains t block r) (table_rows db t))).

Definition push_entity (layout : Layout) (m : gmap EntityType (list Entity)) (data : EntityType * Row)
    : result StoreError (gmap EntityType (list Entity)) :=
  let? e := deserialize_with_layout layout data.1 data.2 in
  Ok (<[data.1 := default [] (m !! data.1) ++ [e]]> m).

Definition layout_find_many (layout : Layout) (db : Db) (ids_for_type : gmap EntityType (list string))
    (block : BlockNumber) : result StoreError (gmap EntityType (list Entity)) :=
  let? tables := try_map (fun p => map_result (fun t => (t, p.2)) (table_for_entity layout p.1))
                   (btree_iter ids_for_type) in
  let? data := try_map (fun p => find_many_query db block p.1 p.2) tables in
  try_fold (push_entity layout) ∅ (concat data).

(** [conflicting_entity]: the rows of the tables of the given types that have the
    id, whatever their block range; the last one is returned. *)
Definition conflicting_entity (layout : Layout) (db : Db) (id : string) (entities : list EntityType)
    : result StoreError (option EntityType) :=
  let? tables := try_map (table_for_entity layout) entities in
  let? found := try_map (fun t =>
    let? idv := bind_id t id in
    Ok (map (fun _ => tb_object t) (List.filter (row_has_id idv) (table_rows db t)))) tables in
  Ok (last (concat found)).

(** ** Inserting *)

Definition prepare_column (key : EntityKey) (e : Entity) (column : Column) : result StoreError Entity :=
  let e' :=
    match col_fulltext_fields column with
    | None => e
    | Some fields =>
        match omap (entity_get e) fields with
        | [] => e
        | vs => entity_insert e (col_field column) (VList vs)
        end
    end in
  if negb (is_nullable column) && negb (entity_contains_key e' (col_field column))
  then Err (MissingAttribute (entity_type key) (key_entity_id key) (col_field column))
  else Ok e'.

Definition prepare_entity (t : Table) (p : EntityKey * Entity) : result StoreError Entity :=
  try_fold (prepare_column p.1) p.2 (tb_columns t).

Definition add_column (e : Entity) (m : gmap string Column) (column : Column) : gmap string Column :=
  match entity_get e (col_field column) with
  | None => m
  | Some _ => match m !! col_name column with
              | Some _ => m
              | None => <[col_name column := column]> m
              end
  end.

Definition unique_columns (t : Table) (entities : list Entity) : gmap string Column :=
  foldl (fun m e => foldl (add_column e) m (tb_columns t)) ∅ entities.

Definition bind_column (e : Entity) (data : gmap string SV) (col : string * Column)
    : result StoreError (gmap string SV) :=
  match entity_get e (col_field col.2) with
  | Some value => let? v := query_value (col_column_type col.2) value in Ok (<[col.1 := v]> data)
  | None => Ok data
  end.

Definition insert_row (t : Table) (columns : gmap string Column) (block : BlockNumber) (e : Entity)
    : result StoreError Row :=
  let? data := try_fold (bind_column e) ∅ (map_to_list columns) in
  let? br := sql (literal_range_current (tb_immutable t) block) in
  let? _ := check_not_null t (mkRow data br) in
  Ok (mkRow data br).

Definition insert_query (t : Table) (block : BlockNumber) (rows : list Row)
    (entities : list (EntityKey * Entity)) : result StoreError (list Row) :=
  let? es := try_map (prepare_entity t) entities in
  let? new := try_map (insert_row t (unique_columns t es) block) es in
  check_constraint t (rows ++ new).

(** The statements are split so that none has too many parameters. *)
Definition insert_chunks (t : Table) (block : BlockNumber) (rows : list Row)
    (entities : list (EntityKey * Entity)) : result StoreError (list Row * nat) :=
  let? cs := chunks (POSTGRES_MAX_PARAMETERS / (length (tb_columns t) + 1)) entities in
  try_fold (fun st chunk =>
    let? rows' := insert_query t block st.1 chunk in Ok (rows', (st.2 + length chunk)%nat))
    (rows, 0%nat) cs.

Definition layout_insert (layout : Layout) (db : Db) (ty : EntityType)
    (entities : list (EntityKey * Entity)) (block : BlockNumber) : result StoreError (Db * nat) :=
  let? t := table_for_entity layout ty in
  let? st := insert_chunks t block (table_rows db t) entities in
  Ok (with_rows db t st.1, st.2).

(** ** Clamping *)

Definition clamp_row (t : Table) (block : BlockNumber) (r : Row) : result StoreError Row :=
  match block_range_of (row_block r) with
  | Some br => let? br' := sql (clamp (tb_immutable t) block br) in
               Ok (mkRow (row_data r) (ColRange br'))
  | None => Err (SqlErr (UndefinedColumn "block_range"))
  end.

(** [update .. set .. where p]: the new rows, and the ones that are updated. *)
Definition update_where (p : Row -> bool) (f : Row -> result StoreError Row) (rows : list Row)
    : result StoreError (list Row) :=
  try_map (fun r => if p r then f r else Ok r) rows.

Definition clamp_where (t : Table) (ids : list SV) (r : Row) : bool :=
  is_in ids r && clause_latest (tb_immutable t) (row_block r).

Definition clamp_range_query (t : Table) (ids : list string) (block : BlockNumber) (rows : list Row)
    : result StoreError (list Row * nat) :=
  if tb_immutable t then Err (ImmutableClamped (tb_name t))
  else
    let? idvs := bind_ids t ids in
    let? rows' := update_where (clamp_where t idvs) (clamp_row t block) rows in
    let? rows' := check_constraint t rows' in
    Ok (rows', length (List.filter (clamp_where t idvs) rows)).

Definition layout_update (layout : Layout) (db : Db) (ty : EntityType)
    (entities : list (EntityKey * Entity)) (block : BlockNumber) : result StoreError (Db * nat) :=
  let? t := table_for_entity layout ty in
  let ids := map (fun p => key_entity_id p.1) entities in
  if tb_immutable t then Err (ImmutableUpdated ty ids)
  else
    let? st := clamp_range_query t ids block (table_rows db t) in
    let? st := insert_chunks t block st.1 entities in
    Ok (with_rows db t st.1, st.2).

Definition layout_delete (layout : Layout) (db : Db) (ty : EntityType) (ids : list string)
    (block : BlockNumber) : result StoreError (Db * nat) :=
  let? t := table_for_entity layout ty in
  if tb_immutable t then Err (ImmutableDeleted ty ids)
  else
    let? cs := chunks DELETE_OPERATION_CHUNK_SIZE ids in
    let? st := try_fold (fun st chunk =>
      let? st' := clamp_range_query t chunk block st.1 in Ok (st'.1, (st.2 + st'.2)%nat))
      (table_rows db t, 0%nat) cs in
    Ok (with_rows db t st.1, st.2).

(** ** Reverting *)

Definition row_ids (rows : list Row) : gset SV :=
  list_to_set (map (fun r => row_value r PRIMARY_KEY_COLUMN) rows).

(** [delete .. where p returning id] *)
Definition revert_remove_query (t : Table) (block : BlockNumber) (rows : list Row)
    : list Row * gset SV :=
  let p r := changed_since (tb_immutable t) block (row_block r) in
  (List.filter (fun r => negb (p r)) rows, row_ids (List.filter p rows)).

(** The condition is stated twice, in terms of the range and of its bounds. *)
Definition unclamp_where (block : BlockNumber) (r : Row) : bool :=
  match block_range_of (row_block r) with
  | None => false
  | Some br =>
      range_elem br block && negb (range_current br) &&
      sql_cmp Z.leb (range_lower br) block &&
      (block <? coalesce (range_upper br) BLOCK_NUMBER_MAX)%Z &&
      (coalesce (range_upper br) BLOCK_NUMBER_MAX <? BLOCK_NUMBER_MAX)%Z
  end.

Definition unclamp_row (r : Row) : result StoreError Row :=
  match block_range_of (row_block r) with
  | Some br => let? br' := sql (int4range (range_lower br) None) in
               Ok (mkRow (row_data r) (ColRange br'))
  | None => Err (SqlErr (UndefinedColumn "block_range"))
  end.

Definition revert_clamp_query (t : Table) (block : BlockNumber) (rows : list Row)
    : result StoreError (list Row * gset SV) :=
  if tb_immutable t then Err (ImmutableUnclamped (tb_name t))
  else
    let? rows' := update_where (unclamp_where block) unclamp_row rows in
    let? rows' := check_constraint t rows' in
    Ok (rows', row_ids (List.filter (unclamp_where block) rows)).

Definition set_count (s : gset SV) : Z := Z.of_nat (size s).

(** The body of the loop over the tables in [revert_block]. *)
Definition revert_table (subgraph_id : DeploymentHash) (block : BlockNumber) (t : Table)
    (rows : list Row) : result StoreError (list Row * list EntityChange * Z) :=
  let st := revert_remove_query t block rows in
  let? st' := (if tb_immutable t then Ok (st.1, ∅) else revert_clamp_query t (block - 1)%Z st.1) in
  let removed := st.2 in
  let unclamped := st'.2 in
  let deleted := set_count (removed ∖ unclamped) in
  let inserted := set_count (unclamped ∖ removed) in
  let change (_ : SV) := ChangeData subgraph_id (tb_object t) in
  Ok (st'.1, map change (elements (removed ∖ unclamped)) ++ map change (elements unclamped),
      (inserted - deleted)%Z).

Definition revert_step (subgraph_id : DeploymentHash) (block : BlockNumber)
    (st : Db * list EntityChange * Z) (t : Table) : result StoreError (Db * list EntityChange * Z) :=
  let? st' := revert_table subgraph_id block t (table_rows st.1.1 t) in
  Ok (with_rows st.1.1 t st'.1.1, st.1.2 ++ st'.1.2, (st.2 + st'.2)%Z).

Definition revert_block (subgraph_id : DeploymentHash) (tag : Z) (layout : Layout) (db : Db)
    (block : BlockNumber) : result StoreError (Db * StoreEvent * Z) :=
  let? st := try_fold (revert_step subgraph_id block) (db, [], 0%Z) (map snd (map_to_list layout)) in
  Ok (st.1.1, store_event_new tag st.1.2, st.2).

(** [count_query] *)
Definition count_table (db : Db) (t : Table) : Z :=
  Z.of_nat (length (if tb_immutable t then table_rows db t
    else List.filter (fun r => clause_latest false (row_block r)) (table_rows db t))).

Definition count_query (layout : Layout) (db : Db) : Z :=
  foldr Z.add 0%Z (map (count_table db) (map snd (map_to_list layout))).

(** ** Changes at a block

    Both queries use the column [block_range] of every table but the one for
    proofs of indexing; Postgres rejects a statement that names a column a table
    does not have. *)

Definition POI_TABLE : string := "poi2$".

Definition bounds_query (clause : BlockColumn R -> bool) (db : Db) (tables : list Table)
    : result StoreError (list (EntityType * Row)) :=
  if existsb tb_immutable tables then Err (SqlErr (UndefinedColumn "block_range"))
  else Ok (concat (map (fun t => map (pair (tb_object t))
         (List.filter (fun r => clause (row_block r)) (table_rows db t))) tables)).

(** One entity of the result of [FindChangesQuery]; [None] for [__typename] is
    a bug. *)
Definition change_set (layout : Layout) (subgraph_id : DeploymentHash) (data : EntityType * Row)
    : result StoreError EntityOperation :=
  let? e := deserialize_with_layout layout data.1 data.2 in
  match entity_id e with
  | Ok id => if entity_contains_key e "__typename"
             then Ok (OperationSet (mkKey subgraph_id data.1 id) (entity_remove e "__typename"))
             else Panic
  | _ => Panic
  end.

Definition operation_key (o : EntityOperation) : EntityKey :=
  match o with OperationSet key _ | OperationRemove key => key end.

Definition change_remove (subgraph_id : DeploymentHash) (data : EntityType * Row)
    : result StoreError EntityKey :=
  map_result (mkKey subgraph_id data.1) (sql_text (row_value data.2 PRIMARY_KEY_COLUMN)).

Definition find_changes (layout : Layout) (subgraph_id : DeploymentHash) (db : Db) (block : BlockNumber)
    : result StoreError (list EntityOperation) :=
  let tables := List.filter (fun t => negb (bool_decide (tb_name t = POI_TABLE)))
                  (map snd (map_to_list layout)) in
  let? inserts_or_updates := bounds_query (lower_bound_clause block) db tables in
  let? deletions := bounds_query (upper_bound_clause block) db tables in
  let? dels := try_map (change_remove subgraph_id) deletions in
  let? sets := try_map (change_set layout subgraph_id) inserts_or_updates in
  let processed_entities := map operation_key sets in
  Ok (sets ++ map OperationRemove
        (List.filter (fun k => negb (bool_decide (k ∈ processed_entities))) dels)).

End Relational.
Arguments Row : clear implicits.
Abbreviation Db R SV := (gmap EntityType (list (Row R SV))) (only parsing).
