(* ===== verification/VersionProps.v ===== *)
(** * Versions of the entities of a table

    What the statements of [Relational.v] do to the versions that are visible at
    a block: inserting and clamping at a block leave the versions at earlier
    blocks alone, and reverting makes the versions of an earlier block
    current. *)

From S2P Require Import Prelude GraphqlAst Scalars RuntimeValue Values StoreTypes Schema BlockRange.
From S2P Require Import Relational.

Section Versions.
Context `{HX : !Hex} {R : Type} `{HR : !Int4Range R} `{HL : !Int4RangeLaws R}
  {SV : Type} `{HP : !PgValues SV}.
Local Abbreviation Row := (Row R SV).
Implicit Types (t : Table) (r : Row) (rows : list Row) (id : SV) (block head b : Z).

Definition row_id r : SV := row_value r PRIMARY_KEY_COLUMN.

(** A row is a version from a block that is not after [head]. *)
Definition row_ok t head r : Prop :=
  row_id r <> sql_null /\
  if tb_immutable t then exists b, row_block r = ColBlock b /\ (b <= head)%Z
  else exists br lo hi, row_block r = ColRange br /\ version head br lo hi.

Definition separate t r1 r2 : Prop := conflicting (tb_immutable t) r1 r2 = false.

Record table_inv t head rows : Prop := {
  ti_rows : Forall (row_ok t head) rows;
  ti_separate : ForallOrdPairs (separate t) rows
}.

Lemma no_conflicts_spec t rows :
  no_conflicts (tb_immutable t) rows = true <-> ForallOrdPairs (separate t) rows.
Proof.
  induction rows as [|r rows IH]; simpl; [split; [constructor|done]|].
  rewrite andb_true_iff, IH, forallb_forall. split.
  - intros [H1 H2]. constructor; [|done]. apply List.Forall_forall. intros r' Hr'.
    apply negb_true_iff. by apply H1.
  - intros H. inversion H as [|? ? H1 H2]; subst. split; [|done]. intros r' Hr'.
    apply negb_true_iff. by apply (proj1 (List.Forall_forall _ _) H1).
Qed.

Lemma check_constraint_inv t rows rows' :
  check_constraint t rows = Ok rows' <-> rows' = rows /\ ForallOrdPairs (separate t) rows.
Proof.
  rewrite <- no_conflicts_spec. unfold check_constraint. destruct (no_conflicts _ _).
  - split; [by intros [= <-]|by intros [-> _]].
  - split; [done|by intros [_ ?]].
Qed.

Lemma row_has_id_spec id r : row_id r <> sql_null -> row_has_id id r = bool_decide (row_id r = id).
Proof.
  intros Hn. unfold row_has_id, sql_eq. fold (row_id r).
  rewrite (bool_decide_false (row_id r = sql_null)) by done. by rewrite andb_true_r.
Qed.

(** ** The versions of an entity at a block *)

Definition versions_at t rows id b : list (gmap string SV) :=
  map row_data (List.filter (fun r => row_has_id id r && row_contains t b r) rows).

Lemma row_contains_mutable t head r br lo hi b :
  tb_immutable t = false -> row_block r = ColRange br -> version head br lo hi ->
  (head < BLOCK_NUMBER_MAX)%Z -> row_contains t b r = in_bounds lo hi b.
Proof.
  intros Him Hr Hv Hm. unfold row_contains. rewrite Him, Hr.
  rewrite (account_like_same head br lo hi) by done. by apply (version_elem head).
Qed.

Lemma row_contains_immutable t r b0 b :
  tb_immutable t = true -> row_block r = ColBlock b0 -> (b0 <= b)%Z -> row_contains t b r = true.
Proof.
  intros Him Hr Hb. unfold row_contains, clause_contains. rewrite Him, Hr. simpl.
  case_match; [done|]. by apply Z.leb_le.
Qed.

Lemma row_contains_immutable_lt t r b0 b :
  tb_immutable t = true -> row_block r = ColBlock b0 -> (b < b0)%Z -> (b0 <= BLOCK_NUMBER_MAX)%Z ->
  row_contains t b r = false.
Proof.
  intros Him Hr Hb Hm. unfold row_contains, clause_contains. rewrite Him, Hr. simpl.
  destruct (Z.eqb_spec b BLOCK_NUMBER_MAX); [lia|]. apply Z.leb_gt. lia.
Qed.

(** ** The rows while the changes of a block are written

    [U] has the changes so far: the new data of an entity, or [None] for an
    entity that was removed. *)

Definition created_at t block r : Prop :=
  if tb_immutable t then row_block r = ColBlock block
  else exists br, row_block r = ColRange br /\ range_lower br = Some block.

Record mid t block rows0 (U : SV -> option (option (gmap string SV))) rows : Prop := {
  mid_inv : table_inv t block rows;
  mid_fresh r : r ∈ rows -> created_at t block r -> is_Some (U (row_id r));
  mid_before id b : (b < block)%Z -> versions_at t rows id b = versions_at t rows0 id b;
  mid_after id b : (block <= b <= BLOCK_NUMBER_MAX)%Z ->
    versions_at t rows id b =
      match U id with Some o => option_list o | None => versions_at t rows0 id b end;
  mid_ids r : r ∈ rows -> row_id r ∈ map row_id rows0 \/ is_Some (U (row_id r))
}.

Lemma row_ok_mono t head head' r : row_ok t head r -> (head <= head')%Z -> row_ok t head' r.
Proof.
  intros [Hid Hr] Hle. split; [done|]. destruct (tb_immutable t).
  - destruct Hr as (b & Hb & ?). exists b. split; [done|lia].
  - destruct Hr as (br & lo & hi & Hb & Hv). exists br, lo, hi. split; [done|].
    by eapply version_mono.
Qed.

Lemma mid_start t head block rows :
  table_inv t head rows -> (head < block)%Z -> mid t block rows (fun _ => None) rows.
Proof.
  intros [Hrows Hsep] Hlt. split; [|..|done|done|by intros r Hin; left; apply list_elem_of_fmap_2].
  - split; [|done]. eapply Forall_impl; [done|]. intros r Hr. eapply row_ok_mono; [done|lia].
  - intros r Hin Hc. rewrite Forall_forall in Hrows. destruct (Hrows r Hin) as [_ Hr].
    unfold created_at in Hc. destruct (tb_immutable t).
    + destruct Hr as (b & Hb & ?). rewrite Hb in Hc. injection Hc as ->. lia.
    + destruct Hr as (br & lo & hi & Hb & Hv), Hc as (br' & Hb' & Hlo).
      rewrite Hb in Hb'. injection Hb' as <-. rewrite (version_lower _ _ _ _ Hv) in Hlo.
      injection Hlo as ->. destruct Hv. lia.
Qed.

(** *** Clamping *)

Definition clamped t block (idvs : list SV) r r' : Prop :=
  row_data r' = row_data r /\
  exists br lo hi, row_block r = ColRange br /\ version block br lo hi /\
    if bool_decide (row_id r ∈ idvs /\ hi = None)
    then (lo < block)%Z /\ exists br', row_block r' = ColRange br' /\ version block br' lo (Some block)
    else row_block r' = row_block r.

Lemma is_in_spec idvs r : row_id r <> sql_null -> is_in idvs r = bool_decide (row_id r ∈ idvs).
Proof.
  intros Hn. unfold is_in. apply eq_bool_prop_intro. rewrite bool_decide_spec.
  rewrite Is_true_true, existsb_exists. setoid_rewrite row_has_id_spec; [|done].
  setoid_rewrite bool_decide_eq_true. split; [intros (x & Hx & <-)|intros Hx; exists (row_id r)];
    rewrite ?list_elem_of_In in *; done.
Qed.

Lemma clamp_where_spec t block idvs r br lo hi :
  tb_immutable t = false -> (block < BLOCK_NUMBER_MAX)%Z -> row_id r <> sql_null ->
  row_block r = ColRange br -> version block br lo hi ->
  clamp_where t idvs r = bool_decide (row_id r ∈ idvs /\ hi = None).
Proof.
  intros Him Hm Hid Hr Hv. unfold clamp_where, clause_latest. rewrite Him, Hr. simpl.
  rewrite is_in_spec by done. rewrite (version_current block br lo hi) by done.
  by rewrite bool_decide_and.
Qed.

Lemma clamp_rows t block rows0 U rows idvs :
  mid t block rows0 U rows -> tb_immutable t = false -> (block < BLOCK_NUMBER_MAX)%Z ->
  (forall id, id ∈ idvs -> U id = None) ->
  exists rows', update_where (clamp_where t idvs) (clamp_row t block) rows = Ok rows' /\
    Forall2 (clamped t block idvs) rows rows'.
Proof.
  intros Hmid Him Hm Hfree. destruct Hmid as [[Hrows _] Hfresh _ _ _]. rewrite Forall_forall in Hrows.
  assert (Hstep : forall r, r ∈ rows -> exists r',
    (if clamp_where t idvs r then clamp_row t block r else Ok r) = Ok r' /\ clamped t block idvs r r').
  { intros r Hin. destruct (Hrows r Hin) as [Hid Hr]. rewrite Him in Hr.
    destruct Hr as (br & lo & hi & Hb & Hv). rewrite (clamp_where_spec t block idvs r br lo hi) by done.
    case_bool_decide as Hc; [destruct Hc as [Hc ->]|].
    - assert (Hlt : (lo < block)%Z).
      { pose proof (v_lo _ _ _ _ Hv). destruct (decide (lo = block)) as [->|]; [|lia].
        destruct (Hfresh r Hin) as [? HU]; [|by rewrite Hfree in HU].
        unfold created_at. rewrite Him. exists br. split; [done|]. by eapply version_lower. }
      destruct (clamp_version block br lo block) as (br' & Hbr' & Hv'); [done|done|].
      exists (mkRow (row_data r) (ColRange br')). unfold clamp_row. rewrite Hb. simpl.
      rewrite Him, Hbr'. simpl. split; [done|]. split; [done|]. exists br, lo, None.
      rewrite bool_decide_true by done. eauto 10.
    - exists r. split; [done|]. split; [done|]. exists br, lo, hi.
      by rewrite bool_decide_false. }
  destruct (try_map_total (fun r => if clamp_where t idvs r then clamp_row t block r else Ok r) rows)
    as [rows' Hrows']; [intros r Hin; destruct (Hstep r Hin) as (r' & ? & ?); eauto|].
  exists rows'. split; [done|]. apply try_map_forall2 in Hrows'.
  eapply forall2_impl_in; [done|]. simpl. intros r r' Hin Hr. destruct (Hstep r Hin) as (? & Hr' & ?).
  rewrite Hr' in Hr. by injection Hr as ->.
Qed.

(** The rows of a table after [clamp_rows] are separate, since ranges only
    shrink. *)
Lemma clamped_separate t block idvs x y x' y' :
  tb_immutable t = false ->
  clamped t block idvs x x' -> clamped t block idvs y y' -> separate t x y -> separate t x' y'.
Proof.
  intros Him Hx Hy. unfold separate, conflicting. rewrite Him.
  assert (Hsub : forall z z', clamped t block idvs z z' ->
    row_value z' PRIMARY_KEY_COLUMN = row_value z PRIMARY_KEY_COLUMN /\
    exists br br', row_block z = ColRange br /\ row_block z' = ColRange br' /\
      forall b, range_elem br' b = true -> range_elem br b = true).
  { intros z z' (Hd & br & lo & hi & Hb & Hv & Hc). unfold row_value. rewrite Hd. split; [done|].
    case_bool_decide as Hcl; [destruct Hcl as [_ ->]|].
    - destruct Hc as (Hlt & br' & Hb' & Hv'). exists br, br'. split_and!; [done|done|]. intros b.
      rewrite (version_elem _ _ _ _ _ Hv), (version_elem _ _ _ _ _ Hv'). unfold in_bounds.
      rewrite !andb_true_iff. tauto.
    - exists br, br. rewrite Hc. done. }
  destruct (Hsub _ _ Hx) as (-> & bx & bx' & -> & -> & Hbx).
  destruct (Hsub _ _ Hy) as (-> & by_ & by' & -> & -> & Hby). simpl.
  rewrite !andb_false_iff. intros [?|Hov]; [by left|right].
  destruct (range_overlap bx' by') eqn:E; [|done]. apply range_overlap_spec in E as (b & E1 & E2).
  assert (Ho : range_overlap bx by_ = true) by (apply range_overlap_spec; eauto).
  by rewrite Ho in Hov.
Qed.

Lemma clamped_row_ok t block idvs r r' :
  tb_immutable t = false -> clamped t block idvs r r' -> row_ok t block r -> row_ok t block r'.
Proof.
  intros Him (Hd & br & lo & hi & Hb & Hv & Hc) [Hid _]. split.
  - unfold row_id, row_value in *. by rewrite Hd.
  - rewrite Him. case_bool_decide as Hcl; [|rewrite Hc; eauto].
    destruct Hc as (_ & br' & Hb' & Hv'). eauto.
Qed.

Lemma clamped_id t block idvs r r' : clamped t block idvs r r' -> row_id r' = row_id r.
Proof. intros [Hd _]. unfold row_id, row_value. by rewrite Hd. Qed.

Lemma clamped_contains_before t block idvs r r' b :
  tb_immutable t = false -> (block < BLOCK_NUMBER_MAX)%Z -> clamped t block idvs r r' ->
  (b < block)%Z -> row_contains t b r' = row_contains t b r.
Proof.
  intros Him Hm (Hd & br & lo & hi & Hb & Hv & Hc) Hlt.
  rewrite (row_contains_mutable t block r br lo hi) by done.
  case_bool_decide as Hcl.
  - destruct Hcl as [_ ->], Hc as (Hlo & br' & Hb' & Hv').
    rewrite (row_contains_mutable t block r' br' lo (Some block)) by done. unfold in_bounds.
    by rewrite (proj2 (Z.ltb_lt b block)).
  - rewrite Hb in Hc. by rewrite (row_contains_mutable t block r' br lo hi).
Qed.

Lemma clamped_contains_after t block idvs r r' b :
  tb_immutable t = false -> (block < BLOCK_NUMBER_MAX)%Z -> clamped t block idvs r r' ->
  (block <= b)%Z ->
  row_contains t b r' = if bool_decide (row_id r ∈ idvs) then false else row_contains t b r.
Proof.
  intros Him Hm (Hd & br & lo & hi & Hb & Hv & Hc) Hle.
  rewrite (row_contains_mutable t block r br lo hi) by done.
  case_bool_decide as Hcl.
  - destruct Hcl as [Hin ->], Hc as (Hlo & br' & Hb' & Hv'). rewrite bool_decide_true by done.
    rewrite (row_contains_mutable t block r' br' lo (Some block)) by done. unfold in_bounds.
    rewrite (proj2 (Z.ltb_ge b block)) by lia. by rewrite andb_false_r.
  - rewrite Hb in Hc. rewrite (row_contains_mutable t block r' br lo hi) by done.
    case_bool_decide as Hin; [|done]. destruct hi as [h|]; [|tauto].
    pose proof (v_hi _ _ _ _ Hv h eq_refl). unfold in_bounds.
    rewrite (proj2 (Z.ltb_ge b h)) by lia. by rewrite andb_false_r.
Qed.

(** Rows that are changed one by one, keeping their data: the versions at a block
    are the same or gone, if [g] says so for the entity. *)
Lemma versions_changed t rows rows' id b (g : bool) :
  Forall2 (fun r r' => row_data r' = row_data r /\
    (row_has_id id r = true -> row_contains t b r' = g && row_contains t b r)) rows rows' ->
  versions_at t rows' id b = if g then versions_at t rows id b else [].
Proof.
  intros Hrows.
  assert (Hid : forall r r', row_data r' = row_data r -> row_has_id id r' = row_has_id id r)
    by (intros r r' Hd; unfold row_has_id, row_value; by rewrite Hd).
  induction Hrows as [|r r' rows rows' [Hd Hc] Hrows IH]; [by destruct g|].
  unfold versions_at in *. simpl. rewrite (Hid _ _ Hd). destruct (row_has_id id r); simpl; [|done].
  rewrite Hc by done. destruct g; simpl; [|done].
  destruct (row_contains t b r); simpl; [|done]. by rewrite Hd, IH.
Qed.

Lemma clamp_mid t block rows0 U rows ids idvs :
  mid t block rows0 U rows -> tb_immutable t = false -> (block < BLOCK_NUMBER_MAX)%Z ->
  bind_ids t ids = Ok idvs -> (forall id, id ∈ idvs -> U id = None) ->
  exists rows',
    clamp_range_query t ids block rows = Ok (rows', length (List.filter (clamp_where t idvs) rows)) /\
    Forall2 (clamped t block idvs) rows rows' /\
    mid t block rows0 (fun id => if bool_decide (id ∈ idvs) then Some None else U id) rows'.
Proof.
  intros Hmid Him Hm Hids Hfree.
  destruct (clamp_rows t block rows0 U rows idvs) as (rows' & Hup & Hcl); [done..|].
  destruct Hmid as [[Hrows Hsep] Hfresh Hbefore Hafter Hold]. rewrite Forall_forall in Hrows.
  assert (Hsep' : ForallOrdPairs (separate t) rows')
    by (eapply ord_pairs_forall2; [done..|]; intros; by eapply clamped_separate).
  pose proof (forall2_elem_r _ _ _ Hcl) as Hrow.
  exists rows'. split.
  { unfold clamp_range_query. rewrite Him, Hids. simpl. rewrite Hup. simpl.
    by rewrite (proj2 (check_constraint_inv t rows' rows')). }
  split; [done|]. split.
  - split; [|done]. apply Forall_forall. intros r' Hin. destruct (Hrow r' Hin) as (r & Hr & Hc).
    eapply clamped_row_ok; [done..|]. by apply Hrows.
  - intros r' Hin Hcr. destruct (Hrow r' Hin) as (r & Hr & Hc). rewrite (clamped_id _ _ _ _ _ Hc).
    case_bool_decide as Hid; [by eexists|]. apply Hfresh; [done|]. unfold created_at in *. rewrite Him in *.
    destruct Hc as (_ & br & lo & hi & Hb & _ & Hc). rewrite bool_decide_false in Hc by tauto.
    by rewrite <- Hc.
  - intros id b Hb. rewrite <- Hbefore by done. apply (versions_changed t rows rows' id b true).
    eapply forall2_impl_in; [done|]. intros r r' Hin Hc. split; [by destruct Hc|]. intros _.
    by eapply clamped_contains_before.
  - intros id b Hb. rewrite (versions_changed t rows rows' id b (negb (bool_decide (id ∈ idvs)))).
    + case_bool_decide; [done|]. by apply Hafter.
    + eapply forall2_impl_in; [done|]. intros r r' Hin Hc. split; [by destruct Hc|]. intros Hh.
      rewrite (clamped_contains_after t block idvs r r' b) by (try done; lia).
      destruct (Hrows r Hin) as [Hn _]. rewrite row_has_id_spec in Hh by done.
      apply bool_decide_eq_true in Hh as <-. by case_bool_decide.
  - intros r' Hin. destruct (Hrow r' Hin) as (r & Hr & Hc). rewrite (clamped_id _ _ _ _ _ Hc).
    case_bool_decide; [right; by eexists|by apply Hold].
Qed.

Lemma mid_ext t block rows0 U U' rows :
  mid t block rows0 U rows -> (forall id, U id = U' id) -> mid t block rows0 U' rows.
Proof.
  intros [Hinv Hf Hb Ha Ho] Heq. split; [done| |done|..].
  - intros r Hin Hc. rewrite <- Heq. by apply Hf.
  - intros id b Hle. rewrite <- Heq. by apply Ha.
  - intros r Hin. rewrite <- Heq. by apply Ho.
Qed.

(** *** Inserting *)

Definition upd (U : SV -> option (option (gmap string SV))) id (o : option (gmap string SV))
    : SV -> option (option (gmap string SV)) :=
  fun id' => if bool_decide (id' = id) then Some o else U id'.

(** A row that an insert statement at [block] adds. *)
Definition new_row t block r : Prop :=
  row_id r <> sql_null /\
  if tb_immutable t then row_block r = ColBlock block
  else exists br, row_block r = ColRange br /\ version block br block None.

Lemma new_row_ok t block r : new_row t block r -> row_ok t block r.
Proof.
  intros [Hid Hr]. split; [done|]. destruct (tb_immutable t); [eauto with lia|].
  destruct Hr as (br & ? & ?). by exists br, block, None.
Qed.

Lemma new_row_before t block r b :
  new_row t block r -> (b < block)%Z -> (block < BLOCK_NUMBER_MAX)%Z -> row_contains t b r = false.
Proof.
  intros [_ Hr] Hb Hm. destruct (tb_immutable t) eqn:Him.
  - eapply row_contains_immutable_lt; [done..|lia].
  - destruct Hr as (br & Hbr & Hv). rewrite (row_contains_mutable t block r br block None) by done.
    unfold in_bounds. by rewrite (proj2 (Z.leb_gt block b)).
Qed.

Lemma new_row_after t block r b :
  new_row t block r -> (block <= b)%Z -> (block < BLOCK_NUMBER_MAX)%Z -> row_contains t b r = true.
Proof.
  intros [_ Hr] Hb Hm. destruct (tb_immutable t) eqn:Him.
  - by eapply row_contains_immutable.
  - destruct Hr as (br & Hbr & Hv). rewrite (row_contains_mutable t block r br block None) by done.
    unfold in_bounds. by rewrite (proj2 (Z.leb_le block b)).
Qed.

(** A row with the id of a new row is not visible from the new block on. *)
Lemma separate_new t block r n b :
  row_ok t block r -> new_row t block n -> separate t r n -> row_id r = row_id n ->
  (block <= b)%Z -> (block < BLOCK_NUMBER_MAX)%Z -> row_contains t b r = false.
Proof.
  intros [Hid Hr] [_ Hn] Hsep Heq Hb Hm. unfold separate, conflicting, sql_eq in Hsep.
  fold (row_id r) (row_id n) in Hsep. rewrite (bool_decide_true (row_id r = row_id n)) in Hsep by done.
  rewrite (bool_decide_false (row_id r = sql_null)) in Hsep by done. simpl in Hsep.
  destruct (tb_immutable t) eqn:Him; [done|].
  destruct Hr as (br & lo & hi & Hbr & Hv), Hn as (br' & Hbr' & Hv'). rewrite Hbr, Hbr' in Hsep. simpl in Hsep.
  rewrite (row_contains_mutable t block r br lo hi) by done.
  destruct (in_bounds lo hi b) eqn:E; [|done].
  assert (Ho : range_overlap br br' = true); [|congruence].
  apply range_overlap_spec. exists b.
  rewrite (version_elem _ _ _ _ _ Hv), (version_elem _ _ _ _ _ Hv'). split; [done|].
  unfold in_bounds. by rewrite (proj2 (Z.leb_le block b)).
Qed.

(** A new row is separate from the rows that the block does not see. *)
Lemma separate_unseen t block r n :
  row_ok t block r -> new_row t block n -> (block < BLOCK_NUMBER_MAX)%Z ->
  (row_id r = row_id n -> row_contains t block r = false) -> separate t r n.
Proof.
  intros [Hid Hr] [_ Hn] Hm Hseen. unfold separate, conflicting, sql_eq.
  fold (row_id r) (row_id n). destruct (decide (row_id r = row_id n)) as [Heq|Hne];
    [|by rewrite (bool_decide_false (row_id r = row_id n)) by done].
  specialize (Hseen Heq). destruct (tb_immutable t) eqn:Him.
  - destruct Hr as (b & Hb & Hle). by rewrite (row_contains_immutable t r b) in Hseen.
  - destruct Hr as (br & lo & hi & Hbr & Hv), Hn as (br' & Hbr' & Hv'). rewrite Hbr, Hbr'. simpl.
    rewrite (row_contains_mutable t block r br lo hi) in Hseen by done.
    destruct (range_overlap br br') eqn:Ho; [|by rewrite andb_false_r].
    apply range_overlap_spec in Ho as (b & H1 & H2).
    rewrite (version_elem _ _ _ _ _ Hv) in H1. rewrite (version_elem _ _ _ _ _ Hv') in H2.
    unfold in_bounds in *. destruct Hv. destruct hi; lia.
Qed.

Lemma versions_at_app t rows1 rows2 id b :
  versions_at t (rows1 ++ rows2) id b = versions_at t rows1 id b ++ versions_at t rows2 id b.
Proof. unfold versions_at. by rewrite List.filter_app, map_app. Qed.

Lemma insert_one_mid t block rows0 U rows n :
  mid t block rows0 U rows -> (block < BLOCK_NUMBER_MAX)%Z -> new_row t block n ->
  ForallOrdPairs (separate t) (rows ++ [n]) ->
  mid t block rows0 (upd U (row_id n) (Some (row_data n))) (rows ++ [n]).
Proof.
  intros [[Hrows Hsep] Hfresh Hbefore Hafter Hold] Hm Hn Hsep'. split.
  - split; [|done]. apply Forall_app. split; [done|]. constructor; [by apply new_row_ok|constructor].
  - intros r Hin Hc. unfold upd. case_bool_decide as Hid; [by eexists|].
    apply elem_of_app in Hin as [Hin|Hin]; [by apply Hfresh|].
    apply list_elem_of_singleton in Hin. by subst.
  - intros id b Hb. rewrite versions_at_app. rewrite Hbefore by done. unfold versions_at at 2. simpl.
    rewrite (new_row_before t block n b) by done. rewrite andb_false_r. by rewrite app_nil_r.
  - intros id b Hb. rewrite versions_at_app. unfold versions_at at 2. simpl.
    rewrite (new_row_after t block n b) by (try done; lia). rewrite andb_true_r.
    rewrite row_has_id_spec by apply Hn. unfold upd.
    destruct (decide (id = row_id n)) as [->|Hne].
    + rewrite !bool_decide_true by done. simpl. unfold versions_at. rewrite filter_none; [done|].
      intros r Hin. rewrite Forall_forall in Hrows. rewrite row_has_id_spec by apply (Hrows r Hin).
      case_bool_decide as Hid; [|done]. simpl. eapply separate_new; try done; [by apply Hrows| |lia].
      apply ord_pairs_app in Hsep' as (_ & _ & Hx). rewrite Forall_forall in Hx.
      specialize (Hx r Hin). by inversion Hx.
    + rewrite !bool_decide_false by done. simpl. rewrite app_nil_r. by apply Hafter.
  - intros r Hin. unfold upd. case_bool_decide as Hid; [right; by eexists|].
    apply elem_of_app in Hin as [Hin|Hin]; [by apply Hold|].
    apply list_elem_of_singleton in Hin. by subst.
Qed.

Definition upd_rows (U : SV -> option (option (gmap string SV))) (new : list Row) :=
  foldl (fun U n => upd U (row_id n) (Some (row_data n))) U new.

Lemma insert_rows_mid t block rows0 U rows new :
  mid t block rows0 U rows -> (block < BLOCK_NUMBER_MAX)%Z -> Forall (new_row t block) new ->
  ForallOrdPairs (separate t) (rows ++ new) ->
  mid t block rows0 (upd_rows U new) (rows ++ new).
Proof.
  intros Hmid Hm Hnew. revert U rows Hmid. induction Hnew as [|n new Hn Hnew IH]; intros U rows Hmid Hsep.
  - by rewrite app_nil_r in *.
  - rewrite cons_middle, app_assoc in Hsep |- *. apply IH; [|done].
    apply insert_one_mid; try done. by apply ord_pairs_app in Hsep as [? _].
Qed.

End Versions.
