(* ===== verification/RowProps.v ===== *)
(** * Rows and entities

    What an insert statement stores of an entity in a row, and what is read back
    from it. *)

From S2P Require Import Prelude GraphqlAst Scalars RuntimeValue Values StoreTypes Schema BlockRange.
From S2P Require Import Relational VersionProps.

Lemma NoDup_map_inj {A B} (f : A -> B) l x y :
  NoDup (map f l) -> x ∈ l -> y ∈ l -> f x = f y -> x = y.
Proof.
  induction l as [|z l IH]; [by intros _ ?%not_elem_of_nil|]. simpl.
  intros [Hz Hl]%NoDup_cons [Hx|Hx]%elem_of_cons [Hy|Hy]%elem_of_cons Heq; subst; try done.
  - destruct Hz. rewrite Heq. by apply list_elem_of_fmap_2.
  - destruct Hz. rewrite <- Heq. by apply list_elem_of_fmap_2.
  - by apply IH.
Qed.

Section Rows.
Context `{HX : !Hex} {R : Type} `{HR : !Int4Range R} `{HL : !Int4RangeLaws R}
  {SV : Type} `{HP : !PgValues SV}.
Local Abbreviation Row := (Row R SV).
Implicit Types (t : Table) (r : Row) (rows : list Row) (block : Z).

(** The table definition of an object type has distinct column names and
    fields, and a primary key that comes from the field [id]. *)
Record table_ok t : Prop := {
  to_names : NoDup (map col_name (tb_columns t));
  to_fields : NoDup (map col_field (tb_columns t));
  to_typename : "__typename" ∉ map col_field (tb_columns t);
  to_primary_key pk : pk ∈ tb_columns t -> col_name pk = PRIMARY_KEY_COLUMN -> col_field pk = "id";
  to_has_key : exists pk, pk ∈ tb_columns t /\ col_name pk = PRIMARY_KEY_COLUMN /\
    is_tsvector pk = false /\ col_fulltext_fields pk = None;
  to_fulltext c : c ∈ tb_columns t -> is_Some (col_fulltext_fields c) -> is_tsvector c = true;
  to_chunk : (length (tb_columns t) < POSTGRES_MAX_PARAMETERS)%nat
}.

Lemma column_by_name t c c' :
  table_ok t -> c ∈ tb_columns t -> c' ∈ tb_columns t -> col_name c = col_name c' -> c = c'.
Proof. intros Ht H1 H2. by apply (NoDup_map_inj col_name (tb_columns t)); [apply Ht|..]. Qed.

Lemma column_by_field t c c' :
  table_ok t -> c ∈ tb_columns t -> c' ∈ tb_columns t -> col_field c = col_field c' -> c = c'.
Proof. intros Ht H1 H2. by apply (NoDup_map_inj col_field (tb_columns t)); [apply Ht|..]. Qed.

Lemma table_column_spec t name c :
  table_ok t -> table_column t name = Some c <->
  c ∈ tb_columns t /\ col_name c = name /\ is_tsvector c = false.
Proof.
  intros Ht. unfold table_column. split.
  - intros Hf. pose proof (List.find_some _ _ Hf) as [Hin Hn]. apply bool_decide_eq_true in Hn.
    apply filter_In in Hin as [Hin Hts]. rewrite <- list_elem_of_In in Hin. by destruct (is_tsvector c).
  - intros (Hin & Hn & Hts). destruct (List.find _ _) as [c'|] eqn:Hf.
    + apply List.find_some in Hf as [Hin' Hn']. apply bool_decide_eq_true in Hn'.
      apply filter_In in Hin' as [Hin' _]. rewrite <- list_elem_of_In in Hin'.
      f_equal. apply (column_by_name t); [done..|congruence].
    + pose proof (List.find_none _ _ Hf c) as Hnone. rewrite bool_decide_eq_false in Hnone.
      destruct Hnone; [|done]. apply filter_In. rewrite <- list_elem_of_In. by rewrite Hts.
Qed.

(** ** What a row stores *)

Definition stores t (e : Entity) (d : gmap string SV) : Prop :=
  (forall c, c ∈ tb_columns t ->
    match e !! col_field c with
    | Some v => exists s, query_value (col_column_type c) v = Ok s /\ d !! col_name c = Some s
    | None => d !! col_name c = None
    end) /\
  forall n, is_Some (d !! n) -> exists c, c ∈ tb_columns t /\ col_name c = n.

Definition columns_from t (m : gmap string Column) : Prop :=
  forall n c, m !! n = Some c -> c ∈ tb_columns t /\ col_name c = n.

Definition covers (m : gmap string Column) (e : Entity) (cols : list Column) : Prop :=
  forall c, c ∈ cols -> is_Some (e !! col_field c) -> is_Some (m !! col_name c).

Lemma add_column_spec t e m c :
  columns_from t m -> c ∈ tb_columns t ->
  columns_from t (add_column e m c) /\ m ⊆ add_column e m c /\ covers (add_column e m c) e [c].
Proof.
  intros Hm Hc. unfold add_column, entity_get, covers.
  destruct (e !! col_field c) as [v|] eqn:He.
  - destruct (m !! col_name c) eqn:Hn.
    + split_and!; [done|done|]. intros c' ->%list_elem_of_singleton _. by eexists.
    + split_and!; [|by apply insert_subseteq|].
      * intros n c' [[<- <-]|[_ ?]]%lookup_insert_Some; [done|by apply Hm].
      * intros c' ->%list_elem_of_singleton _. rewrite lookup_insert_eq. by eexists.
  - split_and!; [done|done|]. intros c' ->%list_elem_of_singleton [? Hs]. congruence.
Qed.

Lemma add_columns_spec t e cols m :
  columns_from t m -> cols ⊆ tb_columns t ->
  columns_from t (foldl (add_column e) m cols) /\ m ⊆ foldl (add_column e) m cols /\
  covers (foldl (add_column e) m cols) e cols.
Proof.
  revert m. induction cols as [|c cols IH]; intros m Hm Hcols; simpl.
  - split_and!; [done..|]. by intros c ?%not_elem_of_nil.
  - destruct (add_column_spec t e m c) as (H1 & H2 & H3); [done|apply Hcols; by left|].
    destruct (IH (add_column e m c)) as (H4 & H5 & H6); [done|set_solver|].
    split_and!; [done|by etrans|]. intros c' [Heq|Hin]%elem_of_cons Hs; [|by apply H6]. subst c'.
    destruct (H3 c) as [c' Hc']; [by left|done|]. exists c'. by eapply lookup_weaken.
Qed.

Lemma unique_columns_spec t es :
  columns_from t (unique_columns t es) /\
  forall e, e ∈ es -> covers (unique_columns t es) e (tb_columns t).
Proof.
  unfold unique_columns. induction es as [|e es IH] using rev_ind; simpl.
  - split; [by intros ?|]. by intros e ?%not_elem_of_nil.
  - rewrite foldl_app. simpl. destruct IH as [IH1 IH2].
    destruct (add_columns_spec t e (tb_columns t) _ IH1) as (H1 & H2 & H3); [done|].
    split; [done|]. intros e' [Hin|Heq%list_elem_of_singleton]%elem_of_app; [|by subst].
    intros c Hc Hs. destruct (IH2 e' Hin c Hc Hs) as [c' Hc']. exists c'. by eapply lookup_weaken.
Qed.

Lemma bind_columns_spec e d0 l d :
  try_fold (bind_column (SV:=SV) e) d0 l = Ok d -> NoDup (l.*1) ->
  (forall n c, (n, c) ∈ l ->
    match e !! col_field c with
    | Some v => exists s, query_value (col_column_type c) v = Ok s /\ d !! n = Some s
    | None => d !! n = d0 !! n
    end) /\
  (forall n, n ∉ l.*1 -> d !! n = d0 !! n).
Proof.
  revert d0. induction l as [|[n c] l IH]; intros d0; simpl.
  - intros [= <-] _. split; [by intros ?? ?%not_elem_of_nil|done].
  - destruct (bind_column e d0 (n, c)) as [d1| |] eqn:Hb; [|done..]. simpl.
    intros Hf [Hn Hnd]%NoDup_cons. destruct (IH d1 Hf Hnd) as [IH1 IH2].
    unfold bind_column, entity_get in Hb. simpl in Hb.
    assert (Hd1 : forall n', n' <> n -> d1 !! n' = d0 !! n').
    { intros n' Hne. destruct (e !! col_field c); [|by injection Hb as <-].
      destruct (query_value _ _); simpl in Hb; try done. injection Hb as <-.
      by rewrite lookup_insert_ne. }
    split.
    + intros n' c' [[= -> ->]|Hin]%elem_of_cons.
      * rewrite (IH2 n Hn). destruct (e !! col_field c); [|by injection Hb as <-].
        destruct (query_value _ _) as [s| |]; simpl in Hb; try done. injection Hb as <-.
        exists s. by rewrite lookup_insert_eq.
      * specialize (IH1 n' c' Hin). rewrite Hd1 in IH1; [done|]. intros ->. apply Hn.
        apply list_elem_of_fmap. by exists (n, c').
    + intros n' Hn'. rewrite not_elem_of_cons in Hn'. destruct Hn' as [Hne Hn'].
      by rewrite (IH2 n' Hn'), Hd1.
Qed.

Lemma bind_columns_stores t es e d :
  table_ok t -> e ∈ es ->
  try_fold (bind_column e) ∅ (map_to_list (unique_columns t es)) = Ok d -> stores t e d.
Proof.
  intros Ht He Hd. destruct (unique_columns_spec t es) as [Hfrom Hcov]. specialize (Hcov e He).
  apply bind_columns_spec in Hd as [H1 H2]; [|apply NoDup_fst_map_to_list].
  assert (Hnone : forall n, unique_columns t es !! n = None -> d !! n = None).
  { intros n Hn. rewrite H2; [apply lookup_empty|]. intros ([n' c] & -> & Hin)%list_elem_of_fmap.
    apply elem_of_map_to_list in Hin. simpl in Hn. congruence. }
  split.
  - intros c Hc. destruct (unique_columns t es !! col_name c) as [c'|] eqn:Hn.
    + destruct (Hfrom _ _ Hn) as [Hc' Hname].
      assert (c' = c) as -> by (by apply (column_by_name t)).
      specialize (H1 (col_name c) c). rewrite elem_of_map_to_list in H1. specialize (H1 Hn).
      destruct (e !! col_field c); [done|]. by rewrite H1.
    + destruct (e !! col_field c) eqn:Hv; [|by apply Hnone].
      destruct (Hcov c Hc) as [? Hs]; [by rewrite Hv|]. congruence.
  - intros n Hs. destruct (unique_columns t es !! n) as [c|] eqn:Hn.
    + exists c. by apply Hfrom.
    + rewrite Hnone in Hs by done. by destruct Hs.
Qed.

(** ** Insert statements *)

Lemma row_key t r :
  table_ok t -> check_not_null t r = Ok tt -> row_id r <> sql_null.
Proof.
  intros Ht Hc Hn. destruct (to_has_key t Ht) as (pk & Hin & Hname & _ & _).
  unfold check_not_null in Hc. rewrite try_iter_ok, Forall_forall in Hc. apply Hc in Hin.
  unfold is_primary_key in Hin. rewrite bool_decide_true in Hin by done. simpl in Hin.
  rewrite Hname in Hin. fold (row_id r) in Hin. by rewrite bool_decide_true in Hin.
Qed.

Lemma insert_row_spec t es block e r :
  table_ok t -> e ∈ es -> insert_row t (unique_columns t es) block e = Ok r ->
  new_row t block r /\ stores t e (row_data r).
Proof.
  intros Ht He. unfold insert_row.
  destruct (try_fold _ _ _) as [d| |] eqn:Hd; [|done..]. cbn [bind_result].
  destruct (literal_range_current _ _) as [br| |] eqn:Hbr; [|done..]. cbn [bind_result sql map_err].
  destruct (check_not_null t (mkRow d br)) as [[]| |] eqn:Hnn; [|done..]. simpl. intros [= <-].
  split; [|by eapply bind_columns_stores]. split; [by apply (row_key t)|]. simpl.
  destruct (tb_immutable t).
  - by injection Hbr as <-.
  - destruct (literal_version (R:=R) block) as (br' & Hbr' & Hv). rewrite Hbr' in Hbr.
    injection Hbr as <-. by exists br'.
Qed.

(** The rows that are added for a list of entities. *)
Definition inserted t block (p : EntityKey * Entity) r : Prop :=
  new_row t block r /\ exists e, prepare_entity t p = Ok e /\ stores t e (row_data r).

Lemma insert_query_spec t block rows entities rows' :
  table_ok t -> insert_query t block rows entities = Ok rows' ->
  exists new, rows' = rows ++ new /\ ForallOrdPairs (separate t) rows' /\
    Forall2 (inserted t block) entities new.
Proof.
  intros Ht. unfold insert_query.
  destruct (try_map (prepare_entity t) entities) as [es| |] eqn:Hes; [|done..]. simpl.
  destruct (try_map (insert_row t _ block) es) as [new| |] eqn:Hnew; [|done..]. simpl.
  intros [-> Hsep]%check_constraint_inv. exists new. split_and!; [done|done|].
  apply try_map_forall2 in Hes. apply try_map_forall2 in Hnew.
  assert (Hall : Forall2 (fun e r => new_row t block r /\ stores t e (row_data r)) es new).
  { eapply forall2_impl_in; [done|]. simpl. intros e r Hin Hr. by eapply insert_row_spec. }
  clear Hnew Hsep. revert new Hall. induction Hes as [|p e ps es Hp Hps IH]; intros new Hall;
    inversion Hall as [|? r ? new' [? ?] Hall']; subst; constructor; [|by apply IH].
  split; [done|]. by exists e.
Qed.

Lemma insert_chunks_spec t block rows entities rows' n :
  table_ok t -> insert_chunks t block rows entities = Ok (rows', n) ->
  n = length entities /\
  exists new, rows' = rows ++ new /\ (entities = [] \/ ForallOrdPairs (separate t) rows') /\
    Forall2 (inserted t block) entities new.
Proof.
  intros Ht. unfold insert_chunks.
  destruct (chunks_ok (E:=StoreError) (POSTGRES_MAX_PARAMETERS / (length (tb_columns t) + 1)) entities)
    as (cs & Hcs & Hcat).
  { apply Nat.div_str_pos. pose proof (to_chunk t Ht). lia. }
  rewrite Hcs. cbn [bind_result]. rewrite <- Hcat. clear Hcs Hcat entities.
  assert (Hgen : forall cs rows k, try_fold (fun st chunk =>
      let? rows' := insert_query t block st.1 chunk in Ok (rows', (st.2 + length chunk)%nat)) (rows, k) cs
      = Ok (rows', n) ->
    n = (k + length (concat cs))%nat /\
    exists new, rows' = rows ++ new /\ (cs = [] \/ ForallOrdPairs (separate t) rows') /\
      Forall2 (inserted t block) (concat cs) new).
  { clear rows cs. intros cs. induction cs as [|c cs IH]; intros rows k; simpl.
    - intros [= <- <-]. split; [lia|]. exists []. rewrite app_nil_r. eauto.
    - destruct (insert_query t block rows c) as [rows1| |] eqn:Hq; [|done..]. simpl. intros Hf.
      apply (insert_query_spec t) in Hq as (new1 & Hr1 & Hsep1 & Hnew1); [|done].
      apply IH in Hf as (-> & new2 & Hr2 & Hsep2 & Hnew2). rewrite length_app. split; [lia|].
      exists (new1 ++ new2). split_and!; [by rewrite Hr2, Hr1, app_assoc| |by apply Forall2_app].
      right. destruct Hsep2 as [->|]; [|done]. simpl in Hnew2. inversion Hnew2; subst.
      by rewrite app_nil_r. }
  intros Hf. apply Hgen in Hf as (-> & new & -> & Hsep & Hnew). split; [lia|].
  exists new. split_and!; [done| |done]. destruct Hsep as [->|]; [by left|by right].
Qed.

(** [prepare_entity] only sets the fields of fulltext columns. *)
Lemma prepare_other t p e f :
  prepare_entity t p = Ok e ->
  (forall c, c ∈ tb_columns t -> is_Some (col_fulltext_fields c) -> col_field c <> f) ->
  e !! f = p.2 !! f.
Proof.
  destruct p as [key data]. unfold prepare_entity. cbn [fst snd]. revert data.
  generalize (tb_columns t). intros cols. induction cols as [|c cols IH]; intros data; cbn [try_fold];
    [by intros [= <-]|].
  destruct (prepare_column key data c) as [d1| |] eqn:Hc; [|done..]. cbn [bind_result]. intros Hfold Hcols.
  rewrite (IH d1 Hfold (fun c Hin => Hcols c (list_elem_of_further _ _ _ Hin))).
  specialize (Hcols c ltac:(by left)). unfold prepare_column in Hc.
  destruct (col_fulltext_fields c) as [fs|]; [|case_match; [done|by injection Hc as <-]].
  destruct (omap (entity_get data) fs); (case_match; [done|]); injection Hc as <-; [done|].
  unfold entity_insert. apply lookup_insert_ne. apply Hcols. by eexists.
Qed.

Lemma prepare_id t p e : table_ok t -> prepare_entity t p = Ok e -> e !! "id" = p.2 !! "id".
Proof.
  intros Ht Hp. eapply prepare_other; [done|]. destruct (to_has_key t Ht) as (pk & Hpk & Hname & _ & Hft).
  pose proof (to_primary_key t Ht pk Hpk Hname) as Hf.
  intros c Hc [fs Hfs] Heq. assert (c = pk) as ->; [|congruence].
  apply (column_by_field t); [done..|congruence].
Qed.

(** ** Reading a row *)

(** The column of a field that is read back, and the value that it gives for the
    value of the field, if that is not [null]. *)
Definition field_column t (f : string) : option Column :=
  List.find (fun c => bool_decide (col_field c = f) && negb (is_tsvector c)) (tb_columns t).

Definition read_value (c : Column) (v : Value) : option Value :=
  match query_value (col_column_type c) v with
  | Ok s => match column_value (col_column_type c) s with
            | Ok v' => if bool_decide (v' = VNull) then None else Some v'
            | _ => None
            end
  | _ => None
  end.

Definition read_field t (f : string) (v : Value) : option Value :=
  c ← field_column t f; read_value c v.

Definition stored_entity t (e : Entity) : Entity :=
  <["__typename" := VString (tb_object t)]> (map_imap (read_field t) e).

(** The values of the entity can be read back once they are stored. *)
Definition readable t (e : Entity) : Prop :=
  forall c v s, c ∈ tb_columns t -> is_tsvector c = false -> e !! col_field c = Some v ->
    query_value (col_column_type c) v = Ok s -> exists v', column_value (col_column_type c) s = Ok v'.

Lemma field_column_spec t f c :
  table_ok t -> field_column t f = Some c <->
  c ∈ tb_columns t /\ col_field c = f /\ is_tsvector c = false.
Proof.
  intros Ht. unfold field_column. split.
  - intros [Hin Hn]%List.find_some. rewrite andb_true_iff, negb_true_iff, bool_decide_eq_true in Hn.
    rewrite <- list_elem_of_In in Hin. tauto.
  - intros (Hin & Hn & Hts). destruct (List.find _ _) as [c'|] eqn:Hf.
    + apply List.find_some in Hf as [Hin' Hn']. rewrite <- list_elem_of_In in Hin'.
      rewrite andb_true_iff, bool_decide_eq_true in Hn'. f_equal.
      apply (column_by_field t); [done..|]. destruct Hn'. congruence.
    + apply list_elem_of_In in Hin. pose proof (List.find_none _ _ Hf c Hin) as Hnone. simpl in Hnone.
      rewrite Hts in Hnone. simpl in Hnone. rewrite andb_true_r in Hnone. by rewrite bool_decide_eq_false in Hnone.
Qed.

(** Each field of the result comes from a column, or was there before. *)
Lemma insert_entity_data_spec t out0 l out f :
  try_fold (insert_entity_data (SV:=SV) t) out0 l = Ok out ->
  (exists n s c v, (n, s) ∈ l /\ table_column t n = Some c /\ col_field c = f /\
    column_value (col_column_type c) s = Ok v /\ v <> VNull /\ out !! f = Some v) \/
  ((forall n s c v, (n, s) ∈ l -> table_column t n = Some c -> col_field c = f ->
      column_value (col_column_type c) s = Ok v -> v = VNull) /\ out !! f = out0 !! f).
Proof.
  revert out0. induction l as [|[n s] l IH]; intros out0; simpl.
  - intros [= <-]. right. split; [by intros ???? ?%not_elem_of_nil|done].
  - destruct (insert_entity_data t out0 (n, s)) as [out1| |] eqn:H1; [|done..]. simpl. intros Hf.
    destruct (IH _ Hf) as [(n' & s' & c & v & Hin & Hc)|[Hnull Hout]].
    { left. exists n', s', c, v. split; [by right|done]. }
    unfold insert_entity_data in H1. simpl in H1.
    destruct (table_column t n) as [c|] eqn:Hc; [|injection H1 as <-].
    + destruct (column_value (col_column_type c) s) as [v| |] eqn:Hv; simpl in H1; [|done..].
      destruct (decide (col_field c = f /\ v <> VNull)) as [[Hcf Hvn]|Hno].
      * left. exists n, s, c, v. rewrite bool_decide_false in H1 by done. injection H1 as <-.
        rewrite Hout. unfold entity_insert. rewrite Hcf, lookup_insert_eq. split; [by left|done].
      * right. split.
        -- intros n' s' c' v' [[= -> ->]|Hin]%elem_of_cons Hc' Hf' Hv'; [|by eapply Hnull].
           rewrite Hc in Hc'. injection Hc' as <-. rewrite Hv in Hv'. injection Hv' as <-.
           destruct (decide (v = VNull)); [done|]. tauto.
        -- rewrite Hout. case_bool_decide; injection H1 as <-; [done|]. unfold entity_insert.
           apply lookup_insert_ne. intros Heq. tauto.
    + right. split; [|done]. intros n' s' c' v' [[= -> ->]|Hin]%elem_of_cons Hc' Hf' Hv'; [congruence|].
      by eapply Hnull.
Qed.

Lemma deserialize_total t l out0 e d :
  table_ok t -> stores t e d -> readable t e -> (forall p, p ∈ l -> d !! p.1 = Some p.2) ->
  exists out, try_fold (insert_entity_data (SV:=SV) t) out0 l = Ok out.
Proof.
  intros Ht [Hst _] Hread. revert out0. induction l as [|[n s] l IH]; intros out0 Hl; simpl; [eauto|].
  assert (Hstep : exists out1, insert_entity_data t out0 (n, s) = Ok out1).
  { unfold insert_entity_data. simpl. destruct (table_column t n) as [c|] eqn:Hc; [|eauto].
    apply (table_column_spec t) in Hc as (Hin & Hn & Hts); [|done].
    specialize (Hst c Hin). pose proof (Hl (n, s)) as Hs. simpl in Hs. rewrite Hn in Hst.
    rewrite Hs in Hst by (by left). destruct (e !! col_field c) as [v|] eqn:Hv; [|done].
    destruct Hst as (s' & Hq & [= <-]). destruct (Hread c v s) as [v' Hv']; [done..|].
    rewrite Hv'. simpl. eauto. }
  destruct Hstep as [out1 ->]. simpl. apply IH. intros p Hp. apply Hl. by right.
Qed.

Lemma deserialize_stored t layout e r :
  table_ok t -> layout !! tb_object t = Some t -> stores t e (row_data r) -> readable t e ->
  deserialize_with_layout layout (tb_object t) r = Ok (stored_entity t e).
Proof.
  intros Ht Hlay Hst Hread. unfold deserialize_with_layout, table_for_entity. rewrite Hlay. simpl.
  destruct (deserialize_total t (map_to_list (row_data r))
    (entity_insert entity_new "__typename" (VString (tb_object t))) e (row_data r)) as [out Hout]; [done..| |].
  { intros [n s]. simpl. apply elem_of_map_to_list. }
  rewrite Hout. f_equal. destruct Hst as [Hst _]. apply map_eq. intros f. unfold stored_entity.
  pose proof (insert_entity_data_spec t _ _ _ f Hout) as Hspec.
  destruct Hspec as [(n & s & c & v & Hin & Hc & Hf & Hv & Hvn & ->)|[Hnull ->]].
  - apply elem_of_map_to_list in Hin. apply (table_column_spec t) in Hc as (Hcin & Hn & Hts); [|done].
    rewrite lookup_insert_ne.
    2:{ intros Heq. apply (to_typename t Ht). rewrite Heq, <- Hf. by apply list_elem_of_fmap_2. }
    rewrite map_lookup_imap. specialize (Hst c Hcin). rewrite Hn, Hin, Hf in Hst.
    destruct (e !! f) as [v0|]; [|done]. destruct Hst as (s' & Hq & [= <-]). simpl. unfold read_field.
    rewrite (proj2 (field_column_spec t f c Ht)) by done. simpl. unfold read_value. rewrite Hq, Hv.
    by rewrite bool_decide_false.
  - unfold entity_insert, entity_new. destruct (decide (f = "__typename")) as [->|Hne];
      [by rewrite !lookup_insert_eq|]. rewrite !lookup_insert_ne by done. rewrite lookup_empty, map_lookup_imap.
    destruct (e !! f) as [v|] eqn:Hef; [|done]. simpl. unfold read_field.
    destruct (field_column t f) as [c|] eqn:Hc; [|done]. simpl.
    apply (field_column_spec t) in Hc as (Hcin & Hcf & Hts); [|done].
    specialize (Hst c Hcin). rewrite Hcf, Hef in Hst. destruct Hst as (s & Hq & Hs).
    unfold read_value. rewrite Hq. destruct (column_value _ s) as [v'| |] eqn:Hv'; try done.
    rewrite bool_decide_true; [done|]. eapply (Hnull (col_name c) s c v'); [by apply elem_of_map_to_list| |done..].
    by apply table_column_spec.
Qed.

Lemma stored_prepared t p e :
  table_ok t -> prepare_entity t p = Ok e -> stored_entity t e = stored_entity t p.2.
Proof.
  intros Ht Hp. unfold stored_entity. f_equal. apply map_eq. intros f. rewrite !map_lookup_imap.
  destruct (field_column t f) as [c|] eqn:Hc.
  - apply (field_column_spec t) in Hc as (Hin & Hf & Hts); [|done].
    rewrite (prepare_other t p e f Hp); [done|]. intros c' Hc' Hft Heq.
    assert (c' = c) as -> by (apply (column_by_field t); [done..|congruence]).
    by rewrite (to_fulltext t Ht c) in Hts.
  - unfold read_field. by destruct (e !! f), (p.2 !! f); simpl; rewrite ?Hc.
Qed.

Lemma readable_prepared t p e :
  table_ok t -> prepare_entity t p = Ok e -> readable t p.2 -> readable t e.
Proof.
  intros Ht Hp Hread c v s Hin Hts Hv. apply (Hread c v s Hin Hts).
  rewrite <- (prepare_other t p e (col_field c) Hp); [done|]. intros c' Hc' Hft Heq.
  assert (c' = c) as -> by (by apply (column_by_field t)). by rewrite (to_fulltext t Ht c) in Hts.
Qed.

End Rows.
