(* ===== verification/DeploymentStore.v ===== *)
(** * Writing and reverting blocks

    [DeploymentStore] of [store/postgres/src/deployment_store.rs]: how the
    modifications of a block are applied to the entity tables, and the
    transactions that move a deployment forward by a block and back, with the
    metadata that they maintain ([store/postgres/src/deployment.rs] and
    [store/postgres/src/dynds.rs]).

    A transaction maps the state of a deployment to a new state; one that fails
    leaves no state, since its changes are rolled back.  The stable hash that
    identifies an error is a parameter. *)

From S2P Require Import Prelude GraphqlAst Scalars RuntimeValue Values StoreTypes Schema BlockRange.
From S2P Require Import Relational.

Record Source := mkSource {
  src_address : option Bytes; src_abi : string; src_start_block : BlockNumber
}.

Record StoredDynamicDataSource := mkDds {
  dds_name : string; dds_source : Source; dds_context : option string;
  dds_creation_block : option BlockNumber
}.

(** A row of [subgraphs.dynamic_ethereum_contract_data_source]; the serial number
    [vid] is the position of the row. *)
Record DdsRow := mkDdsRow {
  dr_name : string; dr_address : Bytes; dr_abi : string; dr_start_block : BlockNumber;
  dr_block_hash : Bytes; dr_block_number : BlockNumber; dr_context : option string
}.

Inductive SubgraphHealth := Failed | Healthy | Unhealthy.

#[export] Instance SubgraphHealth_eq_dec : EqDecision SubgraphHealth.
Proof. solve_decision. Defined.

Section DeploymentStore.
Context `{!Hex} {R : Type} `{!Int4Range R} {SV : Type} `{!PgValues SV}.
Context (error_hash : SubgraphError -> string).
(** [layout.site.deployment], the schema, the layout and a tag for store events *)
Context (site : DeploymentHash) (schema : Schema) (layout : Layout) (tag : Z).
Local Abbreviation Db := (Db R SV).

(** ** Applying modifications *)

Definition types_with_shared_interface (ty : EntityType) : result StoreError (list EntityType) :=
  let? types := try_map (fun i => expect (sch_types_for_interface schema !! intf_name i))
                  (default [] (sch_interfaces_for_type schema !! ty)) in
  Ok (List.filter (fun name => negb (bool_decide (name = ty))) (map obj_name (concat types))).

Definition check_interface_entity_uniqueness (db : Db) (key : EntityKey) : result StoreError unit :=
  assert! bool_decide (subgraph_id key = site) ;;
  let? types := types_with_shared_interface (entity_type key) in
  match types with
  | [] => Ok tt
  | _ =>
      let? conflict := conflicting_entity layout db (key_entity_id key) types in
      match conflict with
      | Some other => Err (ConflictingId (entity_type key) (key_entity_id key) other)
      | None => Ok tt
      end
  end.

Definition push_group {A} (m : gmap EntityType (list A)) (ty : EntityType) (x : A) :=
  <[ty := default [] (m !! ty) ++ [x]]> m.

Record ModGroups := mkGroups {
  g_inserts : gmap EntityType (list (EntityKey * Entity));
  g_overwrites : gmap EntityType (list (EntityKey * Entity));
  g_removals : gmap EntityType (list string)
}.

Definition group_mod (g : ModGroups) (m : EntityModification) : ModGroups :=
  match m with
  | ModInsert key data =>
      mkGroups (push_group (g_inserts g) (entity_type key) (key, data)) (g_overwrites g) (g_removals g)
  | ModOverwrite key data =>
      mkGroups (g_inserts g) (push_group (g_overwrites g) (entity_type key) (key, data)) (g_removals g)
  | ModRemove key =>
      mkGroups (g_inserts g) (g_overwrites g)
        (push_group (g_removals g) (entity_type key) (key_entity_id key))
  end.

Definition group_mods (mods : list EntityModification) : ModGroups :=
  foldl group_mod (mkGroups ∅ ∅ ∅) mods.

Definition insert_entities (block : BlockNumber) (db : Db)
    (group : EntityType * list (EntityKey * Entity)) : result StoreError (Db * nat) :=
  let? _ := try_iter (fun p => check_interface_entity_uniqueness db p.1) group.2 in
  layout_insert layout db group.1 group.2 block.

Definition overwrite_entities (block : BlockNumber) (db : Db)
    (group : EntityType * list (EntityKey * Entity)) : result StoreError (Db * nat) :=
  let? _ := try_iter (fun p => check_interface_entity_uniqueness db p.1) group.2 in
  layout_update layout db group.1 group.2 block.

Definition remove_entities (block : BlockNumber) (db : Db) (group : EntityType * list string)
    : result StoreError (Db * nat) :=
  map_err (fun _ => FailedToRemove group.2) (layout_delete layout db group.1 group.2 block).

(** The loop over the groups of one kind; [sign] is what a group contributes to
    the entity count. *)
Definition apply_groups {A} (f : Db -> EntityType * A -> result StoreError (Db * nat)) (sign : Z)
    (st : Db * Z) (groups : list (EntityType * A)) : result StoreError (Db * Z) :=
  try_fold (fun st g => let? st' := f st.1 g in Ok (st'.1, (st.2 + sign * Z.of_nat st'.2)%Z)) st groups.

Definition apply_entity_modifications (db : Db) (mods : list EntityModification) (block : BlockNumber)
    : result StoreError (Db * Z) :=
  let g := group_mods mods in
  let? st := apply_groups (insert_entities block) 1 (db, 0%Z) (map_to_list (g_inserts g)) in
  let? st := apply_groups (overwrite_entities block) 0 st (map_to_list (g_overwrites g)) in
  apply_groups (remove_entities block) (-1) st (map_to_list (g_removals g)).

(** ** The state of a deployment *)

Record Deployment := mkDeployment {
  dp_db : Db;
  dp_latest_block : option BlockPtr;
  dp_firehose_cursor : option string;
  dp_entity_count : option Z;
  dp_reorg_count : Z;
  dp_current_reorg_depth : Z;
  dp_max_reorg_depth : Z;
  dp_graft_block : option BlockNumber;
  dp_dynds : list DdsRow;
  dp_errors : list (string * SubgraphError * R);
  dp_health : SubgraphHealth
}.

Definition entity_count_sql (db : Db) (count : Z) (old : option Z) : option Z :=
  match old with
  | Some n => if (n =? -1)%Z then Some (count_query layout db) else Some (n + count)%Z
  | None => Some (count_query layout db)
  end.

Definition transact_block (d : Deployment) (ptr : BlockPtr) (firehose_cursor : option string) (count : Z)
    : result StoreError Deployment :=
  let entity_count := if (count =? 0)%Z then dp_entity_count d
                      else entity_count_sql (dp_db d) count (dp_entity_count d) in
  let firehose_cursor := if bool_decide (firehose_cursor = Some EmptyString) then None else firehose_cursor in
  match dp_latest_block d with
  | Some from =>
      if (bp_number from <? bp_number ptr)%Z then
        Ok (mkDeployment (dp_db d) (Some ptr) firehose_cursor entity_count (dp_reorg_count d) 0
              (dp_max_reorg_depth d) (dp_graft_block d) (dp_dynds d) (dp_errors d) (dp_health d))
      else Err (DuplicateBlockProcessing site (bp_number ptr))
  | None =>
      Ok (mkDeployment (dp_db d) (Some ptr) firehose_cursor entity_count (dp_reorg_count d) 0
            (dp_max_reorg_depth d) (dp_graft_block d) (dp_dynds d) (dp_errors d) (dp_health d))
  end.

Definition dds_row (ptr : BlockPtr) (ds : StoredDynamicDataSource) : option DdsRow :=
  address ← src_address (dds_source ds);
  Some (mkDdsRow (dds_name ds) address (src_abi (dds_source ds)) (src_start_block (dds_source ds))
          (bp_hash ptr) (bp_number ptr) (dds_context ds)).

Definition dynds_insert (d : Deployment) (data_sources : list StoredDynamicDataSource) (ptr : BlockPtr)
    : result StoreError Deployment :=
  let? dds := try_map (fun ds => match dds_row ptr ds with
                                 | Some row => Ok row
                                 | None => Err (DataSourceWithoutAddress (dds_name ds))
                                 end) data_sources in
  Ok (mkDeployment (dp_db d) (dp_latest_block d) (dp_firehose_cursor d) (dp_entity_count d)
        (dp_reorg_count d) (dp_current_reorg_depth d) (dp_max_reorg_depth d) (dp_graft_block d)
        (dp_dynds d ++ dds) (dp_errors d) (dp_health d)).

Definition to_source (row : DdsRow) : result StoreError Source :=
  if negb (bool_decide (length (dr_address row) = 20)) then Err (DataSourceBadAddress (dr_name row) (dr_address row))
  else Ok (mkSource (Some (dr_address row)) (dr_abi row) (dr_start_block row)).

Definition load_row (data_sources : list StoredDynamicDataSource) (row : DdsRow)
    : result StoreError (list StoredDynamicDataSource) :=
  let? source := to_source row in
  let creation_block := to_i32 (dr_block_number row) in
  let data_source := mkDds (dr_name row) source (dr_context row) creation_block in
  if option_ltb creation_block (last data_sources ≫= dds_creation_block)
  then Err DataSourcesNotOrdered
  else Ok (data_sources ++ [data_source]).

(** [order by ethereum_block_number, vid] *)
Definition dynds_load (d : Deployment) (block : BlockNumber)
    : result StoreError (list StoredDynamicDataSource) :=
  try_fold load_row []
    (sort_by (fun r1 r2 => (dr_block_number r1 <=? dr_block_number r2)%Z)
       (List.filter (fun row => (dr_block_number row <=? block)%Z) (dp_dynds d))).

(** [on conflict do nothing], where the constraint is that no two errors with the
    same id have overlapping ranges *)
Definition insert_subgraph_error (errors : list (string * SubgraphError * R)) (e : SubgraphError)
    : result StoreError (list (string * SubgraphError * R)) :=
  let? block_num := match err_block_ptr e with
                    | None => assert! negb (err_deterministic e) ;; Ok BLOCK_UNVERSIONED
                    | Some block => Ok (bp_number block)
                    end in
  let? range := sql (int4range (Some block_num) None) in
  let id := error_hash e in
  if existsb (fun row => bool_decide (row.1.1 = id) && range_overlap row.2 range) errors then Ok errors
  else Ok (errors ++ [(id, e, range)]).

Definition has_non_fatal_errors (errors : list (string * SubgraphError * R)) (block : BlockNumber) : bool :=
  existsb (fun row => bool_decide (err_subgraph_id row.1.2 = site) && err_deterministic row.1.2 &&
                      range_elem row.2 block) errors.

Definition check_health (errors : list (string * SubgraphError * R)) (block : BlockNumber)
    (health : SubgraphHealth) : SubgraphHealth :=
  let '(new, old) := if has_non_fatal_errors errors block then (Unhealthy, Healthy)
                     else (Healthy, Unhealthy) in
  if bool_decide (health = old) then new else health.

Definition with_errors (d : Deployment) (errors : list (string * SubgraphError * R)) (block : BlockNumber)
    : Deployment :=
  mkDeployment (dp_db d) (dp_latest_block d) (dp_firehose_cursor d) (dp_entity_count d)
    (dp_reorg_count d) (dp_current_reorg_depth d) (dp_max_reorg_depth d) (dp_graft_block d)
    (dp_dynds d) errors (check_health errors block (dp_health d)).

Definition insert_subgraph_errors (d : Deployment) (errors : list SubgraphError) (block : BlockNumber)
    : result StoreError Deployment :=
  let? errs := try_fold insert_subgraph_error (dp_errors d) errors in
  Ok (with_errors d errs block).

Definition with_db (d : Deployment) (db : Db) : Deployment :=
  mkDeployment db (dp_latest_block d) (dp_firehose_cursor d) (dp_entity_count d) (dp_reorg_count d)
    (dp_current_reorg_depth d) (dp_max_reorg_depth d) (dp_graft_block d) (dp_dynds d) (dp_errors d)
    (dp_health d).

Definition transact_block_operations (d : Deployment) (block_ptr_to : BlockPtr)
    (firehose_cursor : option string) (mods : list EntityModification)
    (data_sources : list StoredDynamicDataSource) (deterministic_errors : list SubgraphError)
    : result StoreError (Deployment * StoreEvent) :=
  assert! negb (existsb (fun m => negb (bool_decide (subgraph_id (mod_entity_key m) = site))) mods) ;;
  let event := store_event_from_mods tag mods in
  let? st := apply_entity_modifications (dp_db d) mods (bp_number block_ptr_to) in
  let? d1 := dynds_insert (with_db d st.1) data_sources block_ptr_to in
  let? d2 := match deterministic_errors with
             | [] => Ok d1
             | _ => insert_subgraph_errors d1 deterministic_errors (bp_number block_ptr_to)
             end in
  let? d3 := transact_block d2 block_ptr_to firehose_cursor st.2 in
  Ok (d3, event).

(** ** Reading *)

Definition deployment_get (d : Deployment) (key : EntityKey) (block : BlockNumber)
    : result StoreError (option Entity) :=
  layout_find layout (dp_db d) (entity_type key) (key_entity_id key) block.

Definition deployment_get_many (d : Deployment) (ids_for_type : gmap EntityType (list string))
    (block : BlockNumber) : result StoreError (gmap EntityType (list Entity)) :=
  if bool_decide (ids_for_type = ∅) then Ok ∅
  else layout_find_many layout (dp_db d) ids_for_type block.

(** ** Reverting *)

Definition revert_block_ptr (d : Deployment) (ptr : BlockPtr) : Deployment :=
  mkDeployment (dp_db d) (Some ptr) (dp_firehose_cursor d) (dp_entity_count d) (dp_reorg_count d + 1)
    (dp_current_reorg_depth d + 1) (Z.max (dp_current_reorg_depth d + 1) (dp_max_reorg_depth d))
    (dp_graft_block d) (dp_dynds d) (dp_errors d) (dp_health d).

Definition update_firehose_cursor (d : Deployment) (cursor : string) : Deployment :=
  mkDeployment (dp_db d) (dp_latest_block d) (Some cursor) (dp_entity_count d) (dp_reorg_count d)
    (dp_current_reorg_depth d) (dp_max_reorg_depth d) (dp_graft_block d) (dp_dynds d) (dp_errors d)
    (dp_health d).

Definition dynds_revert (d : Deployment) (block : BlockNumber) : Deployment :=
  mkDeployment (dp_db d) (dp_latest_block d) (dp_firehose_cursor d) (dp_entity_count d)
    (dp_reorg_count d) (dp_current_reorg_depth d) (dp_max_reorg_depth d) (dp_graft_block d)
    (List.filter (fun row => negb (block <=? dr_block_number row)%Z) (dp_dynds d)) (dp_errors d)
    (dp_health d).

Definition revert_subgraph_errors (d : Deployment) (reverted_block : BlockNumber) : Deployment :=
  with_errors d
    (List.filter (fun row => negb (bool_decide (err_subgraph_id row.1.2 = site) &&
       sql_cmp Z.geb (range_lower row.2) reverted_block)) (dp_errors d))
    (reverted_block - 1).

Definition revert_metadata (d : Deployment) (block : BlockNumber) : Deployment :=
  revert_subgraph_errors (dynds_revert d block) block.

Definition update_entity_count (d : Deployment) (count : Z) : Deployment :=
  if (count =? 0)%Z then d
  else mkDeployment (dp_db d) (dp_latest_block d) (dp_firehose_cursor d)
         (entity_count_sql (dp_db d) count (dp_entity_count d)) (dp_reorg_count d)
         (dp_current_reorg_depth d) (dp_max_reorg_depth d) (dp_graft_block d) (dp_dynds d)
         (dp_errors d) (dp_health d).

Definition rewind_with_conn (d : Deployment) (block_ptr_to : BlockPtr) (firehose_cursor : option string)
    : result StoreError (Deployment * StoreEvent) :=
  let past_graft := match dp_graft_block d with
                    | Some graft_block => (bp_number block_ptr_to <? graft_block)%Z
                    | None => false
                    end in
  if past_graft
  then Err (RevertPastGraft site (bp_number block_ptr_to) (default 0%Z (dp_graft_block d)))
  else
    let d := revert_block_ptr d block_ptr_to in
    let d := match firehose_cursor with Some cursor => update_firehose_cursor d cursor | None => d end in
    if (bp_number block_ptr_to =? i32_max)%Z then Panic else
    let block := (bp_number block_ptr_to + 1)%Z in
    let? st := revert_block site tag layout (dp_db d) block in
    let '(db, event, count) := st in
    let d := revert_metadata (with_db d db) block in
    Ok (update_entity_count d count, event).

(** The error that the check on the block numbers makes is dropped. *)
Definition rewind (d : Deployment) (block_ptr_to : BlockPtr)
    : result StoreError (Deployment * StoreEvent) :=
  let? block_ptr_from := expect (dp_latest_block d) in
  let _error := if (bp_number block_ptr_from <=? bp_number block_ptr_to)%Z
                then Some (RewindNotBackwards (bp_number block_ptr_from) (bp_number block_ptr_to))
                else None in
  rewind_with_conn d block_ptr_to (Some EmptyString).

Definition revert_block_operations (d : Deployment) (block_ptr_to : BlockPtr)
    (firehose_cursor : option string) : result StoreError (Deployment * StoreEvent) :=
  let? deployment_head := expect (dp_latest_block d) in
  if (bp_number deployment_head <=? bp_number block_ptr_to)%Z then Panic
  else rewind_with_conn d block_ptr_to firehose_cursor.

End DeploymentStore.
Arguments Deployment : clear implicits.
