(* ===== verification/RevertProps.v ===== *)
(** * Reverting the rows of a table

    [revert_table], the body of the loop of [Layout::revert_block], makes the
    versions of the block before the reverted one current and forgets all later
    ones. *)

From S2P Require Import Prelude GraphqlAst Scalars RuntimeValue Values StoreTypes Schema BlockRange.
From S2P Require Import Relational VersionProps.

Section Revert.
Context `{HX : !Hex} {R : Type} `{HR : !Int4Range R} `{HL : !Int4RangeLaws R}
  {SV : Type} `{HP : !PgValues SV}.
Local Abbreviation Row := (Row R SV).
Implicit Types (t : Table) (r : Row) (rows : list Row) (id : SV) (block head b : Z).

Lemma versions_moved t rows rows' id b b' :
  Forall2 (fun r r' => row_data r' = row_data r /\
    (row_has_id id r = true -> row_contains t b' r' = row_contains t b r)) rows rows' ->
  versions_at t rows' id b' = versions_at t rows id b.
Proof.
  intros Hrows. unfold versions_at. symmetry. eapply filter_map_forall2; [done|].
  intros r r' _ [Hd Hc]. split; [done|].
  assert (Hid : row_has_id id r' = row_has_id id r) by (unfold row_has_id, row_value; by rewrite Hd).
  rewrite Hid. destruct (row_has_id id r); [|done]. by rewrite Hc.
Qed.

(** ** Removing versions *)

Lemma changed_since_mutable head t block r br lo hi :
  tb_immutable t = false -> row_block r = ColRange br -> version head br lo hi ->
  changed_since (tb_immutable t) block (row_block r) = (block <=? lo)%Z.
Proof.
  intros Him Hr Hv. unfold changed_since. rewrite Him, Hr. simpl.
  rewrite (version_lower _ _ _ _ Hv). simpl. apply Z.geb_leb.
Qed.

Definition kept t block rows : list Row :=
  List.filter (fun r => negb (changed_since (tb_immutable t) block (row_block r))) rows.

(** A version that is removed was not visible before the reverted block. *)
Lemma removed_invisible t head block r b :
  row_ok t head r -> (head < BLOCK_NUMBER_MAX)%Z ->
  changed_since (tb_immutable t) block (row_block r) = true -> (b < block)%Z ->
  row_contains t b r = false.
Proof.
  intros [_ Hr] Hm Hc Hb. destruct (tb_immutable t) eqn:Him.
  - destruct Hr as (b0 & Hb0 & Hle). unfold changed_since in Hc. rewrite Hb0 in Hc. simpl in Hc.
    rewrite Z.geb_leb in Hc. apply Z.leb_le in Hc. eapply row_contains_immutable_lt; [done..|lia|lia].
  - destruct Hr as (br & lo & hi & Hbr & Hv). rewrite <- Him in Hc.
    rewrite (changed_since_mutable head t block r br lo hi) in Hc by done. apply Z.leb_le in Hc.
    rewrite (row_contains_mutable t head r br lo hi) by done. unfold in_bounds.
    by rewrite (proj2 (Z.leb_gt lo b)) by lia.
Qed.

Lemma kept_versions t head block rows id b :
  Forall (row_ok t head) rows -> (head < BLOCK_NUMBER_MAX)%Z -> (b < block)%Z ->
  versions_at t (kept t block rows) id b = versions_at t rows id b.
Proof.
  intros Hrows Hm Hb. unfold versions_at, kept. rewrite filter_filter. f_equal. apply filter_same.
  intros r Hin. rewrite Forall_forall in Hrows.
  destruct (changed_since _ block (row_block r)) eqn:Hc; [|done]. simpl.
  rewrite (removed_invisible t head block r b) by (try done; by apply Hrows). by rewrite andb_false_r.
Qed.

(** ** Making versions current *)

Lemma unclamp_where_spec head block r br lo hi :
  row_block r = ColRange br -> version head br lo hi -> (head < BLOCK_NUMBER_MAX)%Z ->
  unclamp_where block r = match hi with Some h => (lo <=? block)%Z && (block <? h)%Z | None => false end.
Proof.
  intros Hr Hv Hm. unfold unclamp_where. rewrite Hr. simpl.
  rewrite (version_current head br lo hi) by done.
  rewrite (version_elem _ _ _ _ _ Hv), (version_lower _ _ _ _ Hv), (version_upper _ _ _ _ Hv).
  destruct hi as [h|].
  - rewrite bool_decide_false by done. unfold in_bounds, sql_cmp, coalesce. simpl.
    pose proof (v_hi _ _ _ _ Hv h eq_refl). rewrite (proj2 (Z.ltb_lt h BLOCK_NUMBER_MAX)) by lia.
    destruct (lo <=? block)%Z, (block <? h)%Z; done.
  - rewrite bool_decide_true by done. simpl. by rewrite andb_false_r.
Qed.

(** Reverting at [block] gives a version that is in force before [block] no
    upper bound. *)
Definition unclamped head block r r' : Prop :=
  row_data r' = row_data r /\
  exists br br' lo hi, row_block r = ColRange br /\ row_block r' = ColRange br' /\
    (lo < block)%Z /\ version head br lo hi /\
    version (block - 1) br' lo (match hi with Some h => if (h <? block)%Z then Some h else None
                                            | None => None end).

Lemma unclamp_rows t head block rows :
  tb_immutable t = false -> Forall (row_ok t head) rows -> (head < BLOCK_NUMBER_MAX)%Z ->
  Forall (fun r => changed_since (tb_immutable t) block (row_block r) = false) rows ->
  exists rows', update_where (unclamp_where (block - 1)) unclamp_row rows = Ok rows' /\
    Forall2 (unclamped head block) rows rows'.
Proof.
  intros Him Hrows Hm Hkept. rewrite Forall_forall in Hrows, Hkept.
  assert (Hstep : forall r, r ∈ rows -> exists r',
    (if unclamp_where (block - 1) r then unclamp_row r else Ok r) = Ok r' /\ unclamped head block r r').
  { intros r Hin. destruct (Hrows r Hin) as [_ Hr]. rewrite Him in Hr.
    destruct Hr as (br & lo & hi & Hb & Hv). specialize (Hkept r Hin).
    rewrite (changed_since_mutable head t block r br lo hi) in Hkept by done. apply Z.leb_gt in Hkept.
    rewrite (unclamp_where_spec head (block - 1) r br lo hi) by done.
    destruct hi as [h|].
    - rewrite (proj2 (Z.leb_le lo (block - 1))) by lia. simpl.
      destruct (Z.ltb_spec (block - 1) h).
      + destruct (int4range_ok lo None) as [br' Hbr']; [done|].
        exists (mkRow (row_data r) (ColRange br')). unfold unclamp_row. rewrite Hb. simpl.
        rewrite (version_lower _ _ _ _ Hv), Hbr'. simpl. split; [done|]. split; [done|].
        exists br, br', lo, (Some h). rewrite (proj2 (Z.ltb_ge h block)) by lia.
        split_and!; [done|done|lia|done|]. split; [done|done|lia|done].
      + exists r. split; [done|]. split; [done|]. exists br, br, lo, (Some h).
        rewrite (proj2 (Z.ltb_lt h block)) by lia. split_and!; [done|done|lia|done|].
        destruct Hv as [Hv1 Hv2 Hv3 Hv4]. split; [done|done|lia|]. intros ? [= <-]. lia.
    - exists r. split; [done|]. split; [done|]. exists br, br, lo, None.
      split_and!; [done|done|lia|done|]. destruct Hv as [Hv1 Hv2 Hv3 Hv4]. split; [done|done|lia|done]. }
  destruct (try_map_total (fun r => if unclamp_where (block - 1) r then unclamp_row r else Ok r) rows)
    as [rows' Hrows']; [intros r Hin; destruct (Hstep r Hin) as (r' & ? & ?); eauto|].
  exists rows'. split; [done|]. apply try_map_forall2 in Hrows'.
  eapply forall2_impl_in; [done|]. simpl. intros r r' Hin Hr. destruct (Hstep r Hin) as (? & Hr' & ?).
  rewrite Hr' in Hr. by injection Hr as ->.
Qed.

(** Versions that were separate stay so, since the one in force before [block] is
    the last of its entity. *)
Lemma unclamped_separate t head block x y x' y' :
  tb_immutable t = false -> unclamped head block x x' -> unclamped head block y y' ->
  separate t x y -> separate t x' y'.
Proof.
  intros Him (Hdx & bx & bx' & lx & hx & Hbx & Hbx' & Hlx & Hex & Hvx)
    (Hdy & by_ & by' & ly & hy & Hby & Hby' & Hly & Hey & Hvy).
  unfold separate, conflicting. rewrite Him. unfold row_value. rewrite Hdx, Hdy, Hbx, Hbx', Hby, Hby'. simpl.
  rewrite !andb_false_iff. intros [?|Hov]; [by left|right].
  destruct (range_overlap bx' by') eqn:E; [|done]. apply range_overlap_spec in E as (b & E1 & E2).
  rewrite <- Hov. symmetry. apply range_overlap_spec. exists (Z.min b (block - 1)).
  rewrite (version_elem _ _ _ _ _ Hex), (version_elem _ _ _ _ _ Hey).
  rewrite (version_elem _ _ _ _ _ Hvx) in E1. rewrite (version_elem _ _ _ _ _ Hvy) in E2.
  unfold in_bounds in *. rewrite !andb_true_iff, !Z.leb_le in *.
  destruct hx as [hx|]; [destruct (Z.ltb_spec hx block)|];
    (destruct hy as [hy|]; [destruct (Z.ltb_spec hy block)|]); rewrite ?Z.ltb_lt in *; intuition lia.
Qed.

Lemma unclamped_contains t head block r r' b :
  tb_immutable t = false -> row_ok t head r -> (head < BLOCK_NUMBER_MAX)%Z ->
  (block <= BLOCK_NUMBER_MAX)%Z -> unclamped head block r r' ->
  row_contains t b r' = row_contains t (Z.min b (block - 1)) r.
Proof.
  intros Him [_ Hr] Hm Hbm (Hd & br & br' & lo & hi & Hb & Hb' & Hlo & Hv0 & Hv).
  rewrite (row_contains_mutable t (block - 1) r' br' _ _ b Him Hb' Hv) by lia.
  rewrite (row_contains_mutable t head r br lo hi) by done. unfold in_bounds.
  destruct hi as [h|]; [destruct (Z.ltb_spec h block)|];
    destruct (Z.leb_spec lo b), (Z.leb_spec lo (Z.min b (block - 1))); simpl; try lia; done.
Qed.

(** ** The rows of a table after reverting *)

Lemma kept_inv t head block rows :
  table_inv t head rows -> table_inv t head (kept t block rows).
Proof.
  intros [Hrows Hsep]. split; [|by apply ord_pairs_filter].
  rewrite Forall_forall in *. intros r Hin. apply list_elem_of_In, filter_In in Hin as [Hin _].
  apply Hrows. by apply list_elem_of_In.
Qed.

Lemma kept_unchanged t block rows :
  Forall (fun r => changed_since (tb_immutable t) block (row_block r) = false) (kept t block rows).
Proof.
  apply Forall_forall. intros r Hin. apply list_elem_of_In, filter_In in Hin as [_ Hc].
  by apply negb_true_iff in Hc.
Qed.

Lemma unclamped_row_ok t head block r r' :
  tb_immutable t = false -> row_ok t head r -> unclamped head block r r' -> row_ok t (block - 1) r'.
Proof.
  intros Him [Hid _] (Hd & br & br' & lo & hi & _ & Hb' & _ & _ & Hv). split.
  - unfold row_id, row_value in *. by rewrite Hd.
  - rewrite Him. eauto.
Qed.

Definition unclamped_ids t block rows : gset SV :=
  if tb_immutable t then ∅ else row_ids (List.filter (unclamp_where (block - 1)) (kept t block rows)).

Definition removed_ids t block rows : gset SV :=
  row_ids (List.filter (fun r => changed_since (tb_immutable t) block (row_block r)) rows).

(** Reverting an immutable table only removes rows. *)
Lemma kept_immutable t head block rows :
  tb_immutable t = true -> table_inv t head rows -> (head < BLOCK_NUMBER_MAX)%Z ->
  (block <= BLOCK_NUMBER_MAX)%Z ->
  table_inv t (block - 1) (kept t block rows) /\
  forall id b, (b <= BLOCK_NUMBER_MAX)%Z ->
    versions_at t (kept t block rows) id b = versions_at t rows id (Z.min b (block - 1)).
Proof.
  intros Him Hinv Hm Hbm. destruct (kept_inv t head block rows Hinv) as [Hk1 Hk2].
  pose proof (kept_unchanged t block rows) as Hunch. rewrite Forall_forall in Hk1, Hunch.
  assert (Hblock : forall r, r ∈ kept t block rows -> row_id r <> sql_null /\
    exists b, row_block r = ColBlock b /\ (b < block)%Z /\ (b <= head)%Z).
  { intros r Hin. destruct (Hk1 r Hin) as [Hid Hr]. specialize (Hunch r Hin). rewrite Him in *.
    split; [done|]. destruct Hr as (b & Hb & Hle). exists b. rewrite Hb in Hunch. simpl in Hunch.
    rewrite Z.geb_leb in Hunch. apply Z.leb_gt in Hunch. done. }
  split.
  - split; [|done]. apply Forall_forall. intros r Hin. destruct (Hblock r Hin) as (Hid & b & Hb & ? & _).
    split; [done|]. rewrite Him. exists b. split; [done|lia].
  - intros id b Hb.
    rewrite <- (kept_versions t head block rows id (Z.min b (block - 1))) by (try done; try apply Hinv; lia).
    apply versions_moved. apply Forall_Forall2_diag, Forall_forall. intros r Hin. split; [done|]. intros _.
    destruct (Hblock r Hin) as (_ & b0 & Hb0 & ? & ?). destruct (decide (b0 <= b)%Z).
    + rewrite (row_contains_immutable t r b0 b), (row_contains_immutable t r b0) by (try done; lia). done.
    + rewrite (row_contains_immutable_lt t r b0 b), (row_contains_immutable_lt t r b0) by (try done; lia).
      done.
Qed.

(** In a mutable table the versions in force before [block] become current. *)
Lemma unclamp_versions t head block rows :
  tb_immutable t = false -> table_inv t head rows -> (head < BLOCK_NUMBER_MAX)%Z ->
  (block <= BLOCK_NUMBER_MAX)%Z ->
  exists rows',
    revert_clamp_query t (block - 1) (kept t block rows) =
      Ok (rows', row_ids (List.filter (unclamp_where (block - 1)) (kept t block rows))) /\
    Forall2 (unclamped head block) (kept t block rows) rows' /\ table_inv t (block - 1) rows' /\
    forall id b, (b <= BLOCK_NUMBER_MAX)%Z ->
      versions_at t rows' id b = versions_at t rows id (Z.min b (block - 1)).
Proof.
  intros Him Hinv Hm Hbm. pose proof (kept_inv t head block rows Hinv) as [Hk Hksep].
  destruct (unclamp_rows t head block (kept t block rows)) as (rows' & Hup & Hun);
    [done|done|done|apply kept_unchanged|].
  assert (Hsep : ForallOrdPairs (separate t) rows')
    by (eapply ord_pairs_forall2; [done|done|]; intros; by eapply unclamped_separate).
  exists rows'. rewrite Forall_forall in Hk. split_and!; [|done|split; [|done]|].
  - unfold revert_clamp_query. rewrite Him, Hup. cbn [bind_result].
    by rewrite (proj2 (check_constraint_inv t rows' rows')).
  - apply Forall_forall. intros r' Hin.
    destruct (forall2_elem_r _ _ _ Hun r' Hin) as (r & Hr & Hu). eapply unclamped_row_ok; [done| |done].
    by apply Hk.
  - intros id b Hb.
    rewrite <- (kept_versions t head block rows id (Z.min b (block - 1))) by (try done; try apply Hinv; lia).
    apply versions_moved. eapply forall2_impl_in; [done|]. intros r r' Hin Hu. split; [by destruct Hu|].
    intros _. eapply unclamped_contains; [done|by apply Hk|done..].
Qed.

Lemma revert_changes_spec sid t (X Y : gset SV) c :
  c ∈ map (fun _ => ChangeData sid (tb_object t)) (elements (X ∖ Y)) ++
      map (fun _ => ChangeData sid (tb_object t)) (elements Y) <->
  c = ChangeData sid (tb_object t) /\ X ∪ Y ≠ ∅.
Proof.
  rewrite elem_of_app, !list_elem_of_fmap. setoid_rewrite elem_of_elements. split.
  - intros [(x & -> & Hx)|(x & -> & Hx)]; (split; [done|set_solver]).
  - intros [-> Hne]. apply set_choose_L in Hne as [x Hx].
    destruct (decide (x ∈ Y)); [right|left]; exists x; set_solver.
Qed.

(** The versions at [b] after reverting [block] are the ones at [b] or, if that
    is earlier, at the block before [block]. *)
Lemma revert_table_spec sid t head block rows :
  table_inv t head rows -> (head < BLOCK_NUMBER_MAX)%Z -> (block <= BLOCK_NUMBER_MAX)%Z ->
  exists rows' changes, revert_table sid block t rows = Ok (rows', changes,
      set_count (unclamped_ids t block rows ∖ removed_ids t block rows) -
      set_count (removed_ids t block rows ∖ unclamped_ids t block rows))%Z /\
    table_inv t (block - 1) rows' /\
    (forall id b, (b <= BLOCK_NUMBER_MAX)%Z ->
      versions_at t rows' id b = versions_at t rows id (Z.min b (block - 1))) /\
    (forall c, c ∈ changes <-> c = ChangeData sid (tb_object t) /\
       removed_ids t block rows ∪ unclamped_ids t block rows ≠ ∅).
Proof.
  intros Hinv Hm Hbm. unfold revert_table, revert_remove_query, unclamped_ids. cbn [fst snd].
  fold (kept t block rows) (removed_ids t block rows). destruct (tb_immutable t) eqn:Him.
  - destruct (kept_immutable t head block rows) as [Hk Hv]; [done..|].
    eexists _, _. split; [done|]. split_and!; [done|done|apply revert_changes_spec].
  - destruct (unclamp_versions t head block rows) as (rows' & -> & _ & Hk & Hv); [done..|].
    eexists _, _. split; [done|]. split_and!; [done|done|apply revert_changes_spec].
Qed.

(** ** The entity count *)

Lemma length_filter_split {A} (p q r : A -> bool) (l : list A) :
  (forall x, x ∈ l -> p x = q x || r x /\ q x && r x = false) ->
  length (List.filter p l) = (length (List.filter q l) + length (List.filter r l))%nat.
Proof.
  induction l as [|x l IH]; intros H; [done|]. simpl.
  specialize (IH (fun y Hy => H y (list_elem_of_further _ _ _ Hy))).
  destruct (H x) as [-> Hd]; [by left|].
  destruct (q x), (r x); simpl in *; try done; lia.
Qed.

Lemma length_filter_forall2 {A} (P : A -> A -> Prop) (p q : A -> bool) (l l' : list A) :
  Forall2 P l l' -> (forall x y, x ∈ l -> P x y -> p x = q y) ->
  length (List.filter p l) = length (List.filter q l').
Proof.
  induction 1 as [|x y l l' Hxy Hl IH]; intros H; [done|]. simpl.
  rewrite (H x y) by (done || by left).
  specialize (IH (fun x y Hx => H x y (list_elem_of_further _ _ _ Hx))).
  destruct (q y); simpl; by rewrite IH.
Qed.

(** Rows that are visible at the same block belong to different entities. *)
Lemma visible_ids_distinct t head b rows :
  table_inv t head rows -> (head < BLOCK_NUMBER_MAX)%Z ->
  Forall (fun r => row_contains t b r = true) rows -> NoDup (map row_id rows).
Proof.
  intros [Hrows Hsep] Hm. induction Hsep as [|r rows Hr Hsep IH]; intros Hc; [constructor|].
  inversion Hc as [|? ? Hcr Hc']; subst. inversion Hrows as [|? ? Hok Hrows']; subst.
  constructor; [|by apply IH]. intros (r' & Heq & Hin)%list_elem_of_fmap.
  rewrite List.Forall_forall in Hr. rewrite list_elem_of_In in Hin. specialize (Hr r' Hin).
  rewrite <- list_elem_of_In in Hin. rewrite Forall_forall in Hc', Hrows'.
  specialize (Hc' r' Hin). specialize (Hrows' r' Hin). destruct Hok as [Hid Hok], Hrows' as [_ Hok'].
  unfold separate, conflicting, sql_eq in Hr. fold (row_id r) (row_id r') in Hr.
  rewrite bool_decide_true in Hr by done. rewrite bool_decide_false in Hr by done. simpl in Hr.
  destruct (tb_immutable t) eqn:Him; [done|].
  destruct Hok as (br & lo & hi & Hb & Hv), Hok' as (br' & lo' & hi' & Hb' & Hv').
  rewrite Hb, Hb' in Hr. simpl in Hr.
  rewrite (row_contains_mutable t head r br lo hi) in Hcr by done.
  rewrite (row_contains_mutable t head r' br' lo' hi') in Hc' by done.
  assert (Ho : range_overlap br br' = true); [|congruence]. apply range_overlap_spec. exists b.
  by rewrite (version_elem _ _ _ _ _ Hv), (version_elem _ _ _ _ _ Hv').
Qed.

Lemma row_ids_count rows : NoDup (map row_id rows) -> set_count (row_ids rows) = Z.of_nat (length rows).
Proof.
  intros Hnd. unfold set_count, row_ids.
  change (map (fun r : Row => row_value r PRIMARY_KEY_COLUMN) rows) with (map row_id rows).
  rewrite size_list_to_set by done. by rewrite length_map.
Qed.

Lemma set_count_difference (X Y : gset SV) :
  (set_count (X ∖ Y) - set_count (Y ∖ X) = set_count X - set_count Y)%Z.
Proof.
  unfold set_count.
  pose proof (subseteq_size (X ∩ Y) X ltac:(set_solver)).
  pose proof (subseteq_size (X ∩ Y) Y ltac:(set_solver)).
  assert (Hcomm : Y ∩ X = X ∩ Y) by (apply set_eq; intros x; rewrite !elem_of_intersection; tauto).
  rewrite (size_difference_alt X Y), (size_difference_alt Y X), Hcomm. lia.
Qed.

Definition live t rows : list Row :=
  if tb_immutable t then rows else List.filter (fun r => clause_latest false (row_block r)) rows.

Lemma filter_inv t head (p : Row -> bool) rows :
  table_inv t head rows -> table_inv t head (List.filter p rows).
Proof.
  intros [Hrows Hsep]. split; [|by apply ord_pairs_filter].
  rewrite Forall_forall in *. intros r Hin. apply list_elem_of_In, filter_In in Hin as [Hin _].
  apply Hrows. by apply list_elem_of_In.
Qed.

Lemma removed_count t block rows :
  table_inv t block rows -> (block < BLOCK_NUMBER_MAX)%Z ->
  set_count (removed_ids t block rows) =
    Z.of_nat (length (List.filter (fun r => changed_since (tb_immutable t) block (row_block r)) rows)).
Proof.
  intros Hinv Hm. apply row_ids_count. eapply (visible_ids_distinct t block block); [by apply filter_inv|done|].
  apply Forall_forall. intros r Hin. apply list_elem_of_In, filter_In in Hin as [Hin Hc].
  rewrite <- list_elem_of_In in Hin. destruct Hinv as [Hrows _]. rewrite Forall_forall in Hrows.
  destruct (Hrows r Hin) as [_ Hr]. destruct (tb_immutable t) eqn:Him.
  - destruct Hr as (b & Hb & ?). by eapply row_contains_immutable.
  - destruct Hr as (br & lo & hi & Hb & Hv). rewrite <- Him in Hc.
    rewrite (changed_since_mutable block t block r br lo hi) in Hc by done. apply Z.leb_le in Hc.
    rewrite (row_contains_mutable t block r br lo hi) by done. unfold in_bounds.
    pose proof (v_lo _ _ _ _ Hv). rewrite (proj2 (Z.leb_le lo block)) by lia.
    destruct hi as [h|]; [|done]. pose proof (v_hi _ _ _ _ Hv h eq_refl).
    pose proof (v_proper _ _ _ _ Hv) as Hp. simpl in Hp. lia.
Qed.

Lemma unclamped_count t head block rows :
  tb_immutable t = false -> table_inv t head rows -> (head < BLOCK_NUMBER_MAX)%Z ->
  set_count (unclamped_ids t block rows) =
    Z.of_nat (length (List.filter (unclamp_where (block - 1)) (kept t block rows))).
Proof.
  intros Him Hinv Hm. unfold unclamped_ids. rewrite Him. apply row_ids_count.
  eapply (visible_ids_distinct t head (block - 1)); [by apply filter_inv, kept_inv|done|].
  apply Forall_forall. intros r Hin. apply list_elem_of_In, filter_In in Hin as [Hin Hc].
  rewrite <- list_elem_of_In in Hin. destruct (kept_inv t head block rows Hinv) as [Hrows _].
  rewrite Forall_forall in Hrows. destruct (Hrows r Hin) as [_ Hr]. rewrite Him in Hr.
  destruct Hr as (br & lo & hi & Hb & Hv). rewrite (unclamp_where_spec head (block - 1) r br lo hi) in Hc by done.
  rewrite (row_contains_mutable t head r br lo hi) by done. unfold in_bounds. by destruct hi.
Qed.

(** Reverting the last block of a table changes the number of its entities by
    what [revert_table] says. *)
Lemma live_revert_mutable t block rows rows' :
  tb_immutable t = false -> table_inv t block rows -> (block < BLOCK_NUMBER_MAX)%Z ->
  Forall2 (unclamped block block) (kept t block rows) rows' ->
  (Z.of_nat (length (live t rows')) - Z.of_nat (length (live t rows)) =
   set_count (unclamped_ids t block rows) - set_count (removed_ids t block rows))%Z.
Proof.
  intros Him Hinv Hm Hun. rewrite (unclamped_count t block) by done. rewrite removed_count by done.
  unfold live. rewrite Him. set (cur := fun r : Row => clause_latest false (row_block r)).
  pose proof (kept_inv t block block rows Hinv) as [Hk _].
  destruct Hinv as [Hrows _]. rewrite Forall_forall in Hk, Hrows.
  assert (Hcur : forall head r br lo hi, row_block r = ColRange br -> version head br lo hi ->
    (head < BLOCK_NUMBER_MAX)%Z -> cur r = bool_decide (hi = None)).
  { intros head r br lo hi Hb Hv Hh. unfold cur. rewrite Hb. simpl. by apply (version_current head br lo). }
  assert (H1 : length (List.filter cur rows) = (length (List.filter (fun r => changed_since false block (row_block r)) rows)
      + length (List.filter (fun r => negb (changed_since false block (row_block r)) && cur r) rows))%nat).
  { apply length_filter_split. intros r Hin. destruct (Hrows r Hin) as [_ Hr]. rewrite Him in Hr.
    destruct Hr as (br & lo & hi & Hb & Hv). rewrite (Hcur block r br lo hi) by done.
    rewrite <- Him, (changed_since_mutable block t block r br lo hi) by done.
    destruct (Z.leb_spec block lo); simpl; [|done]. rewrite bool_decide_true; [done|].
    destruct hi as [h|]; [|done]. pose proof (v_hi _ _ _ _ Hv h eq_refl).
    pose proof (v_proper _ _ _ _ Hv) as Hp. simpl in Hp. lia. }
  assert (H2 : length (List.filter cur rows') =
    length (List.filter (fun r => cur r || unclamp_where (block - 1) r) (kept t block rows))).
  { symmetry. eapply length_filter_forall2; [done|].
    intros r r' Hin (_ & br & br' & lo & hi & Hb & Hb' & Hlo & Hv & Hv').
    rewrite (Hcur (block - 1) r' br' lo _ Hb' Hv')%Z by lia. rewrite (Hcur block r br lo hi) by done.
    rewrite (unclamp_where_spec block (block - 1) r br lo hi) by done. destruct hi as [h|]; [|done].
    rewrite (proj2 (Z.leb_le lo (block - 1))) by lia. rewrite (bool_decide_false (Some h = None)) by done. simpl.
    destruct (Z.ltb_spec h block), (Z.ltb_spec (block - 1) h); try lia; done. }
  rewrite H2, H1. rewrite (length_filter_split _ cur (unclamp_where (block - 1))).
  - unfold kept at 1. rewrite Him, filter_filter. lia.
  - intros r Hin. split; [done|]. destruct (Hk r Hin) as [_ Hr]. rewrite Him in Hr.
    destruct Hr as (br & lo & hi & Hb & Hv). rewrite (Hcur block r br lo hi) by done.
    rewrite (unclamp_where_spec block (block - 1) r br lo hi) by done. by destruct hi.
Qed.

Lemma revert_count t block rows rows' sid changes n :
  table_inv t block rows -> (block < BLOCK_NUMBER_MAX)%Z ->
  revert_table sid block t rows = Ok (rows', changes, n) ->
  (Z.of_nat (length (live t rows')) - Z.of_nat (length (live t rows)) =
   set_count (unclamped_ids t block rows) - set_count (removed_ids t block rows))%Z.
Proof.
  intros Hinv Hm. unfold revert_table, revert_remove_query. cbn [fst snd].
  fold (kept t block rows). destruct (tb_immutable t) eqn:Him.
  - simpl. intros [= <- _ _]. unfold live, unclamped_ids. rewrite removed_count by done. rewrite Him.
    unfold kept. rewrite Him. set (p := fun r : Row => changed_since true block (row_block r)).
    assert (Hlen : length (List.filter (fun _ => true) rows) =
      (length (List.filter p rows) + length (List.filter (fun r => negb (p r)) rows))%nat).
    { apply length_filter_split. intros r _. by destruct (p r). }
    rewrite filter_all in Hlen. unfold set_count at 1. rewrite size_empty. subst p. lia.
  - destruct (unclamp_versions t block block rows) as (rows1 & Hq & Hun & _ & _); [done..|lia|].
    rewrite Hq. cbn [bind_result fst snd]. intros [= <- _ _]. by apply live_revert_mutable.
Qed.

End Revert.
