(* ===== verification/LayoutProps.v ===== *)
(** * The tables of a deployment

    The effect of the operations of [Relational.v] on what [layout_find] returns
    for an entity at a block: writing the changes of a block, and reverting. *)

From S2P Require Import Prelude GraphqlAst Scalars RuntimeValue Values StoreTypes Schema BlockRange.
From S2P Require Import Relational VersionProps RowProps RevertProps.

Section Layout.
Context `{HX : !Hex} {R : Type} `{HR : !Int4Range R} `{HL : !Int4RangeLaws R}
  {SV : Type} `{HP : !PgValues SV}.
Local Abbreviation Row := (Row R SV).
Local Abbreviation Db := (Db R SV).
Implicit Types (t : Table) (r : Row) (rows : list Row) (block head b : Z) (layout : Layout) (db : Db)
  (ty : EntityType).

(** Tables are filed under their object type. *)
Definition layout_ok layout : Prop :=
  forall ty t, layout !! ty = Some t -> tb_object t = ty /\ table_ok t.

Definition db_inv layout head db : Prop :=
  forall ty t, layout !! ty = Some t -> table_inv t head (table_rows db t).

Lemma table_rows_with db t rows : table_rows (with_rows db t rows) t = rows.
Proof. unfold table_rows, with_rows. by rewrite lookup_insert_eq. Qed.

Lemma table_rows_other db t t' rows :
  tb_object t <> tb_object t' -> table_rows (with_rows db t rows) t' = table_rows db t'.
Proof. intros Hne. unfold table_rows, with_rows. by rewrite lookup_insert_ne. Qed.

(** ** Finding an entity *)

Definition found layout ty (ds : list (gmap string SV)) : result StoreError (option Entity) :=
  match ds with
  | [] => Ok None
  | d :: _ => map_result Some (deserialize_with_layout layout ty (mkRow d (ColBlock (R:=R) 0)))
  end.

Lemma layout_find_versions layout db ty t id b :
  layout !! ty = Some t -> tb_object t = ty ->
  layout_find layout db ty id b =
    let? idv := bind_id t id in found layout ty (versions_at t (table_rows db t) idv b).
Proof.
  intros Ht Ho. unfold layout_find, table_for_entity. rewrite Ht. simpl.
  destruct (bind_id t id) as [idv| |]; [|done..]. simpl. unfold found, versions_at, find_query. rewrite Ho.
  by destruct (List.filter _ _).
Qed.

Lemma layout_find_unknown layout db ty id b :
  layout !! ty = None -> layout_find layout db ty id b = Err (UnknownTable ty).
Proof. intros Ht. unfold layout_find, table_for_entity. by rewrite Ht. Qed.

(** ** Reverting all tables *)

Lemma count_table_live db t : count_table db t = Z.of_nat (length (live t (table_rows db t))).
Proof. done. Qed.

Lemma revert_fold sid block head (tables : list Table) db cs n :
  NoDup (map tb_object tables) -> (forall t, t ∈ tables -> table_inv t head (table_rows db t)) ->
  (head < BLOCK_NUMBER_MAX)%Z -> (block <= BLOCK_NUMBER_MAX)%Z ->
  exists db' cs' n', try_fold (revert_step sid block) (db, cs, n) tables = Ok (db', cs', n') /\
    (forall ty, ty ∉ map tb_object tables -> db' !! ty = db !! ty) /\
    (forall t, t ∈ tables -> table_inv t (block - 1) (table_rows db' t) /\
      forall id b, (b <= BLOCK_NUMBER_MAX)%Z -> versions_at t (table_rows db' t) id b =
        versions_at t (table_rows db t) id (Z.min b (block - 1))) /\
    (head = block -> n' = n + foldr Z.add 0 (map (count_table db') tables)
                            - foldr Z.add 0 (map (count_table db) tables))%Z.
Proof.
  intros Hnd Hinv Hm Hbm. revert db cs n Hnd Hinv. induction tables as [|t tables IH]; intros db cs n Hnd Hinv; cbn [try_fold map foldr].
  { eexists _, _, _. split; [done|]. split_and!; [done|by intros ? ?%not_elem_of_nil|lia]. }
  simpl in Hnd. apply NoDup_cons in Hnd as [Hnot Hnd].
  pose proof (Hinv t ltac:(by left)) as Ht.
  destruct (revert_table_spec sid t head block (table_rows db t)) as (rows' & ch & Hrev & Hinv' & Hv & _); [done..|].
  unfold revert_step at 2. cbn [fst snd]. rewrite Hrev. cbn [bind_result fst snd].
  set (db1 := with_rows db t rows').
  assert (Hother : forall t', t' ∈ tables -> table_rows db1 t' = table_rows db t').
  { intros t' Hin. apply table_rows_other. intros Heq. apply Hnot. rewrite Heq. by apply list_elem_of_fmap_2. }
  destruct (IH db1 (cs ++ ch) (n + (set_count (unclamped_ids t block (table_rows db t) ∖ removed_ids t block (table_rows db t))
     - set_count (removed_ids t block (table_rows db t) ∖ unclamped_ids t block (table_rows db t))))%Z)
    as (db' & cs' & n' & Hf & Hrest & Htab & Hcount); [done| |].
  { intros t' Hin. rewrite Hother by done. apply Hinv. by right. }
  exists db', cs', n'. split; [done|].
  assert (Hrows' : table_rows db' t = rows').
  { unfold table_rows. rewrite Hrest by done. fold (table_rows db1 t). apply table_rows_with. }
  split_and!.
  - intros ty Hty. rewrite not_elem_of_cons in Hty. destruct Hty as [Hne Hty].
    rewrite Hrest by done. unfold db1, with_rows. by rewrite lookup_insert_ne.
  - intros t' Hin. rewrite elem_of_cons in Hin. destruct Hin as [Heq|Hin].
    + subst t'. by rewrite Hrows'.
    + destruct (Htab t' Hin) as [Hi Hvv]. split; [done|]. intros id b Hb.
      rewrite <- (Hother t') by done. by apply Hvv.
  - intros ->. rewrite (Hcount eq_refl).
    assert (Hsum : map (count_table db1) tables = map (count_table db) tables).
    { apply map_ext_in. intros t' Hin%list_elem_of_In. unfold count_table. by rewrite Hother. }
    rewrite Hsum, set_count_difference.
    pose proof (revert_count t block (table_rows db t) rows' sid ch _ Ht Hm Hrev) as Hcnt.
    rewrite !(count_table_live _ t), Hrows'. lia.
Qed.

Lemma layout_tables_nodup layout :
  layout_ok layout -> NoDup (map tb_object (map snd (map_to_list layout))).
Proof.
  intros Hok. rewrite map_map.
  assert (Heq : map (fun p => tb_object p.2) (map_to_list layout) = (map_to_list layout).*1).
  { apply map_ext_in. intros [ty t] Hin%list_elem_of_In%elem_of_map_to_list. by apply Hok. }
  rewrite Heq. apply NoDup_fst_map_to_list.
Qed.

Lemma elem_of_tables layout t :
  t ∈ map snd (map_to_list layout) <-> exists ty, layout !! ty = Some t.
Proof.
  rewrite list_elem_of_fmap. split.
  - intros ([ty t'] & -> & Hin%elem_of_map_to_list). by exists ty.
  - intros [ty Hty]. exists (ty, t). by rewrite elem_of_map_to_list.
Qed.

(** Reverting always succeeds; [revert_block] at [block] makes the state before
    [block] the current one. *)
Lemma revert_block_spec sid tag layout db head block :
  layout_ok layout -> db_inv layout head db -> (head < BLOCK_NUMBER_MAX)%Z ->
  (block <= BLOCK_NUMBER_MAX)%Z ->
  exists db' ev n, revert_block sid tag layout db block = Ok (db', ev, n) /\
    db_inv layout (block - 1) db' /\
    (forall ty t, layout !! ty = Some t -> forall id b, (b <= BLOCK_NUMBER_MAX)%Z ->
      versions_at t (table_rows db' t) id b = versions_at t (table_rows db t) id (Z.min b (block - 1))) /\
    (head = block -> n = count_query layout db' - count_query layout db)%Z.
Proof.
  intros Hok Hinv Hm Hbm.
  destruct (revert_fold sid block head (map snd (map_to_list layout)) db [] 0)
    as (db' & cs & n & Hf & _ & Htab & Hcount); [by apply layout_tables_nodup| |done..|].
  { intros t [ty Hty]%elem_of_tables. by apply (Hinv ty). }
  exists db', (store_event_new tag cs), n. unfold revert_block. rewrite Hf. split; [done|].
  assert (Hin : forall ty t, layout !! ty = Some t -> t ∈ map snd (map_to_list layout))
    by (intros ty t Ht; apply elem_of_tables; eauto).
  split_and!.
  - intros ty t Ht. by apply Htab, (Hin ty).
  - intros ty t Ht id b Hb. by apply Htab; [apply (Hin ty)|].
  - intros Heq. rewrite (Hcount Heq). unfold count_query. lia.
Qed.

Lemma find_same_versions layout db db' ty id b b' :
  layout_ok layout ->
  (forall t idv, layout !! ty = Some t ->
     versions_at t (table_rows db' t) idv b' = versions_at t (table_rows db t) idv b) ->
  layout_find layout db' ty id b' = layout_find layout db ty id b.
Proof.
  intros Hok Hv. destruct (layout !! ty) as [t|] eqn:Ht.
  - destruct (Hok ty t Ht) as [Ho _]. rewrite !(layout_find_versions layout _ ty t) by done.
    destruct (bind_id t id) as [idv| |]; [|done..]. simpl. by rewrite Hv.
  - by rewrite !layout_find_unknown.
Qed.

(** Nothing changes after the last block. *)
Lemma versions_after_head t head rows id b :
  table_inv t head rows -> (head < BLOCK_NUMBER_MAX)%Z -> (head <= b)%Z ->
  versions_at t rows id b = versions_at t rows id head.
Proof.
  intros [Hrows _] Hm Hb. unfold versions_at. f_equal. apply filter_same. intros r Hin. f_equal.
  rewrite Forall_forall in Hrows. destruct (Hrows r Hin) as [_ Hr]. destruct (tb_immutable t) eqn:Him.
  - destruct Hr as (b0 & Hb0 & ?). by rewrite !(row_contains_immutable t r b0) by (done || lia).
  - destruct Hr as (br & lo & hi & Hbr & Hv). rewrite !(row_contains_mutable t head r br lo hi) by done.
    pose proof (v_lo _ _ _ _ Hv). unfold in_bounds.
    rewrite !(proj2 (Z.leb_le lo _)) by lia. destruct hi as [h|]; [|done].
    pose proof (v_hi _ _ _ _ Hv h eq_refl). by rewrite !(proj2 (Z.ltb_ge _ h)) by lia.
Qed.

Lemma find_after_head layout db head ty id b :
  layout_ok layout -> db_inv layout head db -> (head < BLOCK_NUMBER_MAX)%Z -> (head <= b)%Z ->
  layout_find layout db ty id b = layout_find layout db ty id head.
Proof.
  intros Hok Hinv Hm Hb. apply find_same_versions; [done|]. intros t idv Ht.
  apply versions_after_head; [by apply (Hinv ty)|done..].
Qed.

(** C15: Reverting a block never fails.  From then on every block sees the state it
    saw before or, from the reverted block on, the state of the block before it;
    no version has a bound after that block; and when only the last block is
    reverted, the count that is returned is by how much the number of entities
    changed. *)
Theorem revert_block_correct sid tag layout db head block :
  layout_ok layout -> db_inv layout head db -> (head < BLOCK_NUMBER_MAX)%Z ->
  (block <= BLOCK_NUMBER_MAX)%Z ->
  exists db' ev n, revert_block sid tag layout db block = Ok (db', ev, n) /\
    db_inv layout (block - 1) db' /\
    (forall ty id b, (b <= BLOCK_NUMBER_MAX)%Z ->
      layout_find layout db' ty id b = layout_find layout db ty id (Z.min b (block - 1))) /\
    (head = block -> n = count_query layout db' - count_query layout db)%Z.
Proof.
  intros Hok Hinv Hm Hb.
  destruct (revert_block_spec sid tag layout db head block) as (db' & ev & n & Hrev & Hinv' & Hv & Hn); [done..|].
  exists db', ev, n. split_and!; [done|done| |done].
  intros ty id b Hle. apply find_same_versions; [done|]. intros t idv Ht. by apply (Hv ty).
Qed.

(** ** Writing the changes of a block *)

Definition mid_db layout block db0 (changes : gmap (EntityType * SV) (option (gmap string SV))) db : Prop :=
  forall ty t, layout !! ty = Some t ->
    mid t block (table_rows db0 t) (fun id => changes !! (ty, id)) (table_rows db t).

Lemma mid_db_start layout head block db :
  db_inv layout head db -> (head < block)%Z -> mid_db layout block db ∅ db.
Proof.
  intros Hinv Hlt ty t Ht. eapply mid_ext; [by eapply mid_start; [apply (Hinv ty)|]|].
  intros id. by rewrite lookup_empty.
Qed.

(** Replacing the rows of one table. *)
Lemma mid_db_table layout block db0 db ty t rows changes changes' :
  layout_ok layout -> mid_db layout block db0 changes db -> layout !! ty = Some t ->
  mid t block (table_rows db0 t) (fun id => changes' !! (ty, id)) rows ->
  (forall ty' id, ty' <> ty -> changes' !! (ty', id) = changes !! (ty', id)) ->
  mid_db layout block db0 changes' (with_rows db t rows).
Proof.
  intros Hok Hmid Ht Hrows Hother ty' t' Ht'. destruct (Hok _ _ Ht) as [Ho _], (Hok _ _ Ht') as [Ho' _].
  destruct (decide (ty' = ty)) as [->|Hne].
  - assert (t' = t) as -> by congruence. by rewrite table_rows_with.
  - rewrite table_rows_other by congruence. eapply mid_ext; [by apply Hmid|]. intros id. by rewrite Hother.
Qed.

Definition add_rows ty (changes : gmap (EntityType * SV) (option (gmap string SV))) (new : list Row) :=
  foldl (fun m r => <[(ty, row_id r) := Some (row_data r)]> m) changes new.

Definition del_ids ty (changes : gmap (EntityType * SV) (option (gmap string SV))) (ids : list SV) :=
  foldl (fun m id => <[(ty, id) := None]> m) changes ids.

Lemma add_rows_upd ty changes new id :
  upd_rows (fun id => changes !! (ty, id)) new id = add_rows ty changes new !! (ty, id).
Proof.
  revert changes. unfold upd_rows, add_rows.
  assert (Hext : forall (new : list Row) U U', (forall i, U i = U' i) ->
    forall i, foldl (fun U n => upd U (row_id n) (Some (row_data n))) U new i =
              foldl (fun U n => upd U (row_id n) (Some (row_data n))) U' new i).
  { clear. intros new. induction new as [|n new IH]; intros U U' HU i; simpl; [done|].
    apply IH. intros j. unfold upd. by rewrite HU. }
  induction new as [|n new IH]; intros changes; simpl; [done|]. rewrite <- IH. apply Hext. intros i.
  unfold upd. case_bool_decide; [subst; by rewrite lookup_insert_eq|].
  rewrite lookup_insert_ne; [done|congruence].
Qed.

Lemma add_rows_lookup ty changes new ty' id :
  (ty', id) ∉ map (fun r => (ty, row_id r)) new -> add_rows ty changes new !! (ty', id) = changes !! (ty', id).
Proof.
  revert changes. induction new as [|n new IH]; intros changes; simpl; [done|].
  rewrite not_elem_of_cons. intros [Hne Hnot]. rewrite IH by done. by rewrite lookup_insert_ne.
Qed.

Lemma add_rows_lookup_new ty changes new r :
  NoDup (map row_id new) -> r ∈ new -> add_rows ty changes new !! (ty, row_id r) = Some (Some (row_data r)).
Proof.
  revert changes. induction new as [|n new IH]; intros changes; [by intros _ ?%not_elem_of_nil|]. simpl.
  intros [Hn Hnd]%NoDup_cons Hin. rewrite elem_of_cons in Hin. destruct Hin as [Heq|Hin]; [subst n|by apply IH].
  fold (add_rows ty (<[(ty, row_id r):=Some (row_data r)]> changes) new). rewrite add_rows_lookup.
  - by rewrite lookup_insert_eq.
  - intros (r' & Heq & Hin)%list_elem_of_fmap. injection Heq as Heq. apply Hn. rewrite Heq.
    by apply list_elem_of_fmap_2.
Qed.

Lemma del_ids_lookup ty changes ids ty' id :
  del_ids ty changes ids !! (ty', id) =
    if bool_decide (ty' = ty /\ id ∈ ids) then Some None else changes !! (ty', id).
Proof.
  revert changes. induction ids as [|i ids IH]; intros changes; simpl.
  - rewrite bool_decide_false; [done|]. by intros [_ ?%not_elem_of_nil].
  - rewrite IH. destruct (decide (ty' = ty /\ id ∈ ids)) as [Hin|Hout].
    + rewrite !bool_decide_true; [done|set_solver|done].
    + rewrite (bool_decide_false (_ /\ id ∈ ids)) by done.
      destruct (decide (ty' = ty /\ id = i)) as [[-> ->]|Hne].
      * rewrite lookup_insert_eq, bool_decide_true; [done|]. split; [done|by left].
      * rewrite lookup_insert_ne by (intros [= -> ->]; tauto). rewrite bool_decide_false; [done|].
        rewrite elem_of_cons. tauto.
Qed.

(** ** Counting entities *)

Lemma count_with_rows layout db ty t rows :
  layout_ok layout -> layout !! ty = Some t ->
  (count_query layout (with_rows db t rows) - count_query layout db =
   Z.of_nat (length (live t rows)) - Z.of_nat (length (live t (table_rows db t))))%Z.
Proof.
  intros Hok Ht. unfold count_query.
  assert (Hin : t ∈ map snd (map_to_list layout)) by (apply elem_of_tables; eauto).
  pose proof (layout_tables_nodup layout Hok) as Hnd. revert Hin Hnd.
  generalize (map snd (map_to_list layout)). intros tables Hin Hnd.
  induction tables as [|t' tables IH]; [by apply not_elem_of_nil in Hin|].
  simpl in Hnd |- *. apply NoDup_cons in Hnd as [Hnot Hnd].
  rewrite !count_table_live. destruct (decide (tb_object t = tb_object t')) as [Heq|Hne].
  - assert (t' = t) as ->.
    { rewrite elem_of_cons in Hin. destruct Hin as [Hin|Hin]; [done|]. destruct Hnot. rewrite <- Heq.
      by apply list_elem_of_fmap_2. }
    rewrite table_rows_with.
    assert (Hsum : map (count_table (with_rows db t rows)) tables = map (count_table db) tables).
    { apply map_ext_in. intros t' Hin'%list_elem_of_In. rewrite !count_table_live.
      rewrite table_rows_other; [done|]. intros Heq'. apply Hnot. rewrite Heq'. by apply list_elem_of_fmap_2. }
    rewrite Hsum. lia.
  - rewrite table_rows_other by done. rewrite elem_of_cons in Hin. destruct Hin as [Hin|Hin]; [congruence|].
    specialize (IH Hin Hnd). lia.
Qed.

Lemma live_insert t block rows new :
  Forall (new_row t block) new -> (block < BLOCK_NUMBER_MAX)%Z ->
  length (live t (rows ++ new)) = (length (live t rows) + length new)%nat.
Proof.
  intros Hnew Hm. unfold live. destruct (tb_immutable t) eqn:Him; [apply length_app|].
  rewrite List.filter_app, length_app. f_equal. induction Hnew as [|n new [_ Hn] Hnew IH]; [done|].
  rewrite Him in Hn. destruct Hn as (br & Hb & Hv). simpl. rewrite Hb. simpl.
  rewrite (version_current block br block None) by done. rewrite bool_decide_true by done. simpl. by f_equal.
Qed.

Lemma live_clamp t block idvs rows rows' :
  tb_immutable t = false -> (block < BLOCK_NUMBER_MAX)%Z -> Forall (row_ok t block) rows ->
  Forall2 (clamped t block idvs) rows rows' ->
  length (live t rows) = (length (live t rows') + length (List.filter (clamp_where t idvs) rows))%nat.
Proof.
  intros Him Hm Hrows Hcl. unfold live. rewrite Him.
  set (cur := fun r : Row => clause_latest false (row_block r)). rewrite Forall_forall in Hrows.
  rewrite (length_filter_split cur (fun r => cur r && negb (clamp_where t idvs r)) (clamp_where t idvs)).
  - f_equal. eapply length_filter_forall2; [done|].
    intros r r' Hin (_ & br & lo & hi & Hb & Hv & Hc). destruct (Hrows r Hin) as [Hid _].
    rewrite (clamp_where_spec t block idvs r br lo hi) by done.
    destruct (decide (row_id r ∈ idvs /\ hi = None)) as [Hd|Hd];
      [rewrite bool_decide_true in Hc |- * by done|rewrite bool_decide_false in Hc |- * by done]; simpl.
    + destruct Hc as (_ & br' & Hb' & Hv'). rewrite andb_false_r. unfold cur. rewrite Hb'. simpl.
      rewrite (version_current block br' lo (Some block)) by done. by rewrite bool_decide_false.
    + rewrite andb_true_r. unfold cur. by rewrite Hc.
  - intros r Hin. unfold clamp_where. rewrite Him. fold (cur r).
    by destruct (cur r), (is_in idvs r).
Qed.

(** Clamping entities that exist changes one row for each. *)
Lemma clamp_count t block idvs rows :
  tb_immutable t = false -> (block < BLOCK_NUMBER_MAX)%Z -> table_inv t block rows -> NoDup idvs ->
  (forall id, id ∈ idvs -> versions_at t rows id BLOCK_NUMBER_MAX <> []) ->
  length (List.filter (clamp_where t idvs) rows) = length idvs.
Proof.
  intros Him Hm Hinv Hnd Hex. rewrite <- (length_map row_id).
  pose proof Hinv as [Hrows _]. rewrite Forall_forall in Hrows.
  assert (Hcl : forall r, r ∈ rows ->
    clamp_where t idvs r = bool_decide (row_id r ∈ idvs) && row_contains t BLOCK_NUMBER_MAX r).
  { intros r Hin. destruct (Hrows r Hin) as [Hid Hr]. rewrite Him in Hr.
    destruct Hr as (br & lo & hi & Hb & Hv). unfold clamp_where, clause_latest. rewrite Him, Hb. simpl.
    rewrite is_in_spec by done. f_equal. rewrite (row_contains_mutable t block r br lo hi) by done.
    by apply (version_elem block). }
  apply Permutation_length, NoDup_Permutation; [|done|].
  - eapply (visible_ids_distinct t block BLOCK_NUMBER_MAX); [by apply filter_inv|done|].
    apply Forall_forall. intros r Hin. apply list_elem_of_In, filter_In in Hin as [Hin Hc].
    rewrite <- list_elem_of_In in Hin. rewrite Hcl in Hc by done. by apply andb_prop in Hc as [_ ?].
  - intros id. rewrite list_elem_of_fmap. split.
    + intros (r & -> & Hin). apply list_elem_of_In, filter_In in Hin as [Hin Hc].
      rewrite <- list_elem_of_In in Hin. rewrite Hcl in Hc by done. apply andb_prop in Hc as [Hc _].
      by apply bool_decide_eq_true in Hc.
    + intros Hin. specialize (Hex id Hin). unfold versions_at in Hex.
      destruct (List.filter _ rows) as [|r rs] eqn:Hf; [done|].
      assert (Hr : In r (List.filter (fun r => row_has_id id r && row_contains t BLOCK_NUMBER_MAX r) rows))
        by (rewrite Hf; by left).
      apply filter_In in Hr as [Hr Hc]. rewrite <- list_elem_of_In in Hr. apply andb_prop in Hc as [Hid Hc].
      rewrite row_has_id_spec in Hid by (by apply Hrows). apply bool_decide_eq_true in Hid.
      exists r. split; [done|]. apply list_elem_of_In, filter_In. rewrite <- list_elem_of_In. split; [done|].
      rewrite Hcl by done. by rewrite Hid, bool_decide_true, Hc.
Qed.

(** ** Changes at a block *)

(** [find_changes] fails on every layout with an immutable type: both queries
    name the column [block_range], which the table of such a type does not
    have. *)
Theorem find_changes_immutable_fails layout sid db block ty t :
  layout !! ty = Some t -> tb_immutable t = true -> tb_name t <> POI_TABLE ->
  find_changes layout sid db block = Err (SqlErr (UndefinedColumn "block_range")).
Proof.
  intros Ht Him Hname. unfold find_changes, bounds_query.
  set (tables := List.filter _ _).
  assert (Hex : existsb tb_immutable tables = true); [|by rewrite Hex].
  apply existsb_exists. exists t. split; [|done]. apply filter_In. split.
  - apply list_elem_of_In, elem_of_tables. eauto.
  - by rewrite bool_decide_false.
Qed.

End Layout.
