(* ===== verification/FindManyProps.v ===== *)
(** * Finding many entities

    [layout_find_many] returns, for each type, the entities that [layout_find]
    finds for the ids one by one. *)

From S2P Require Import Prelude GraphqlAst Scalars RuntimeValue Values StoreTypes Schema BlockRange.
From S2P Require Import Relational VersionProps RowProps RevertProps LayoutProps.

Lemma filter_orb_disjoint {A} (p q : A -> bool) l :
  (forall x, x ∈ l -> p x && q x = false) ->
  List.filter (fun x => p x || q x) l ≡ₚ List.filter p l ++ List.filter q l.
Proof.
  induction l as [|x l IH]; intros Hd; simpl; [done|].
  assert (Hx := Hd x ltac:(by left)). assert (Hl := IH ltac:(intros y Hy; apply Hd; by right)).
  destruct (p x), (q x); simpl in *; rewrite Hl; try done. by rewrite Permutation_middle.
Qed.

Section FindMany.
Context `{HX : !Hex} {R : Type} `{HR : !Int4Range R} `{HL : !Int4RangeLaws R}
  {SV : Type} `{HP : !PgValues SV}.
Local Abbreviation Row := (Row R SV).
Local Abbreviation Db := (Db R SV).
Implicit Types (t : Table) (r : Row) (rows : list Row) (head b : Z) (db : Db) (ty : EntityType).

(** ** The rows of one table *)

Definition rows_for t b rows (idv : SV) : list Row :=
  List.filter (fun r => row_has_id idv r && row_contains t b r) rows.

Lemma rows_for_many t head b rows idvs :
  table_inv t head rows -> NoDup idvs ->
  List.filter (fun r => is_in idvs r && row_contains t b r) rows
    ≡ₚ concat (map (rows_for t b rows) idvs).
Proof.
  intros Hinv. induction 1 as [|idv idvs Hnot Hnd IH]; [simpl; by rewrite filter_none|].
  cbn [map concat]. rewrite <- IH. unfold rows_for. rewrite <- filter_orb_disjoint.
  - apply Permutation_refl'. apply filter_same. intros r _. unfold is_in. cbn [existsb].
    by rewrite andb_orb_distrib_l.
  - intros r Hin. destruct Hinv as [Hrows _]. rewrite Forall_forall in Hrows.
    destruct (Hrows r Hin) as [Hn _]. rewrite row_has_id_spec, is_in_spec by done.
    case_bool_decide as Hid; [|done]. rewrite bool_decide_false by congruence. by rewrite andb_false_r.
Qed.

Lemma rows_for_one t head b rows idv :
  table_inv t head rows -> (head < BLOCK_NUMBER_MAX)%Z ->
  rows_for t b rows idv = [] \/ exists r, rows_for t b rows idv = [r].
Proof.
  intros Hinv Hm. unfold rows_for.
  set (found := List.filter _ rows).
  assert (Hnd : NoDup (map row_id found)).
  { eapply (visible_ids_distinct t head b); [by apply filter_inv|done|]. apply Forall_forall.
    intros r Hin. apply list_elem_of_In, filter_In in Hin as [_ Hc]. by apply andb_true_iff in Hc as [_ ?]. }
  assert (Hid : forall r, r ∈ found -> row_id r = idv).
  { intros r Hin. apply list_elem_of_In, filter_In in Hin as [Hin Hc]. apply andb_true_iff in Hc as [Hc _].
    destruct Hinv as [Hrows _]. rewrite Forall_forall in Hrows. rewrite <- list_elem_of_In in Hin.
    destruct (Hrows r Hin) as [Hn _]. rewrite row_has_id_spec in Hc by done. by apply bool_decide_eq_true in Hc. }
  destruct found as [|r1 [|r2 found']]; [by left|by right; exists r1|].
  simpl in Hnd. apply NoDup_cons in Hnd as [Hnot _]. destruct Hnot.
  rewrite (Hid r1), (Hid r2) by (repeat constructor). by left.
Qed.

(** What [layout_find] finds for an id, if it succeeds. *)
Definition entity_at (layout : Layout) db b ty (id : string) : option Entity :=
  match layout_find layout db ty id b with Ok o => o | _ => None end.

Lemma find_rows_for layout db ty t id idv b :
  layout !! ty = Some t -> tb_object t = ty -> bind_id t id = Ok idv ->
  layout_find layout db ty id b =
    match rows_for t b (table_rows db t) idv with
    | [] => Ok None
    | r :: _ => map_result Some (deserialize_with_layout layout ty r)
    end.
Proof.
  intros Ht Ho Hid. unfold layout_find, table_for_entity. rewrite Ht. simpl. rewrite Hid. simpl.
  unfold find_query. by rewrite Ho.
Qed.

(** The rows for several ids hold the entities that are found for the ids. *)
Lemma rows_for_entities layout db head ty t ids idvs b :
  layout_ok layout -> db_inv layout head db -> (head < BLOCK_NUMBER_MAX)%Z -> layout !! ty = Some t ->
  (forall id, id ∈ ids -> exists o, layout_find layout db ty id b = Ok o) ->
  Forall2 (fun id idv => bind_id t id = Ok idv) ids idvs ->
  Forall2 (fun r e => deserialize_with_layout layout ty r = Ok e)
    (concat (map (rows_for t b (table_rows db t)) idvs)) (omap (entity_at layout db b ty) ids).
Proof.
  intros Hok Hinv Hm Ht. destruct (Hok ty t Ht) as [Ho _]. intros Hfind Hids.
  induction Hids as [|id idv ids idvs Hid Hids IH]; [constructor|].
  cbn [map concat omap list_omap]. specialize (IH ltac:(intros x Hx; apply Hfind; by right)).
  destruct (Hfind id) as [o Hf]; [by left|]. unfold entity_at at 1. rewrite Hf.
  rewrite (find_rows_for layout db ty t id idv b) in Hf by done.
  destruct (rows_for_one t head b (table_rows db t) idv) as [Hr|[r Hr]]; [by apply (Hinv ty)|done|..];
    rewrite Hr in Hf |- *.
  - by injection Hf as <-.
  - destruct (deserialize_with_layout layout ty r) as [e| |] eqn:He; simpl in Hf; [|done..].
    injection Hf as <-. simpl. by constructor.
Qed.

(** ** All tables *)

Lemma push_entities layout ty (m : gmap EntityType (list Entity)) rows es :
  Forall2 (fun r e => deserialize_with_layout layout ty r = Ok e) rows es ->
  exists m', try_fold (push_entity layout) m (map (pair ty) rows) = Ok m' /\
    (forall ty', ty' <> ty -> m' !! ty' = m !! ty') /\
    default [] (m' !! ty) = default [] (m !! ty) ++ es.
Proof.
  intros Hes. revert m. induction Hes as [|r e rows es He Hes IH]; intros m; cbn [map try_fold].
  - exists m. split_and!; [done..|by rewrite app_nil_r].
  - unfold push_entity at 2. cbn [fst snd]. rewrite He. cbn [bind_result].
    destruct (IH (<[ty := default [] (m !! ty) ++ [e]]> m)) as (m' & Hf & Ho & Hd).
    exists m'. split; [done|]. split.
    + intros ty' Hne. rewrite Ho by done. by rewrite lookup_insert_ne.
    + rewrite Hd, lookup_insert_eq. simpl. by rewrite <- app_assoc.
Qed.

Lemma find_many_query_spec layout db head ty t ids b :
  layout_ok layout -> db_inv layout head db -> (head < BLOCK_NUMBER_MAX)%Z -> layout !! ty = Some t ->
  (forall id, id ∈ ids -> exists o, layout_find layout db ty id b = Ok o) ->
  (forall idvs, bind_ids t ids = Ok idvs -> NoDup idvs) ->
  exists rows es, find_many_query db b t ids = Ok (map (pair ty) rows) /\
    Forall2 (fun r e => deserialize_with_layout layout ty r = Ok e) rows es /\
    es ≡ₚ omap (entity_at layout db b ty) ids.
Proof.
  intros Hok Hinv Hm Ht Hfind Hnd. destruct (Hok ty t Ht) as [Ho _].
  destruct (try_map_total (bind_id t) ids) as [idvs Hids].
  { intros id Hin. destruct (Hfind id Hin) as [o Hf]. unfold layout_find, table_for_entity in Hf.
    rewrite Ht in Hf. simpl in Hf. destruct (bind_id t id); [by eexists|done..]. }
  unfold find_many_query, bind_ids. rewrite Hids. cbn [bind_result]. rewrite Ho.
  pose proof (rows_for_many t head b (table_rows db t) idvs (Hinv ty t Ht) (Hnd idvs Hids)) as Hperm.
  pose proof (rows_for_entities layout db head ty t ids idvs b Hok Hinv Hm Ht Hfind
    (try_map_forall2 _ _ _ Hids)) as Hes.
  destruct (Permutation_Forall2 (Permutation_sym Hperm) Hes) as (es & Hp & Hes').
  exists (List.filter (fun r => is_in idvs r && row_contains t b r) (table_rows db t)), es.
  split_and!; [done..|by symmetry].
Qed.

Lemma find_many_loop layout db head b (l : list (EntityType * list string)) m :
  layout_ok layout -> db_inv layout head db -> (head < BLOCK_NUMBER_MAX)%Z -> NoDup l.*1 ->
  (forall ty ids, (ty, ids) ∈ l -> exists t, layout !! ty = Some t /\
     (forall id, id ∈ ids -> exists o, layout_find layout db ty id b = Ok o) /\
     (forall idvs, bind_ids t ids = Ok idvs -> NoDup idvs)) ->
  exists tables data m',
    try_map (fun p => map_result (fun t => (t, p.2)) (table_for_entity layout p.1)) l = Ok tables /\
    try_map (fun p => find_many_query db b p.1 p.2) tables = Ok data /\
    try_fold (push_entity layout) m (concat data) = Ok m' /\
    (forall ty, ty ∉ l.*1 -> m' !! ty = m !! ty) /\
    (forall ty ids, (ty, ids) ∈ l ->
       default [] (m' !! ty) ≡ₚ default [] (m !! ty) ++ omap (entity_at layout db b ty) ids).
Proof.
  intros Hok Hinv Hm. revert m. induction l as [|[ty ids] l IH]; intros m Hnd Hl.
  { exists [], [], m. split_and!; try done. by intros ? ? ?%not_elem_of_nil. }
  cbn [fmap list_fmap fst] in Hnd. apply NoDup_cons in Hnd as [Hnot Hnd].
  destruct (Hl ty ids) as (t & Ht & Hfind & Hids); [by left|].
  destruct (find_many_query_spec layout db head ty t ids b) as (rows & es & Hq & Hdes & Hp); [done..|].
  destruct (push_entities layout ty m rows es Hdes) as (m1 & Hf1 & Ho1 & Hd1).
  destruct (IH m1) as (tables & data & m' & H1 & H2 & H3 & Hother & Hin); [done| |].
  { intros ty' ids' Hin'. apply Hl. by right. }
  exists ((t, ids) :: tables), (map (pair ty) rows :: data), m'. cbn [try_map fst snd].
  assert (Htab : table_for_entity layout ty = Ok t) by (unfold table_for_entity; by rewrite Ht).
  rewrite Htab. cbn [map_result bind_result].
  rewrite H1. cbn [bind_result try_map fst snd]. rewrite Hq. cbn [bind_result]. rewrite H2.
  split_and!; [done|done|by cbn [concat]; rewrite try_fold_app, Hf1|..].
  - intros ty' Hty. cbn [fmap list_fmap fst] in Hty. rewrite not_elem_of_cons in Hty. destruct Hty as [Hne Hty].
    by rewrite Hother, Ho1.
  - intros ty' ids'. rewrite elem_of_cons. intros [[= -> ->]|Hin'].
    + by rewrite Hother, Hd1, Hp.
    + rewrite Hin by done. rewrite Ho1; [done|]. intros ->. apply Hnot.
      by apply (list_elem_of_fmap_2 fst _ (ty, ids')).
Qed.

Lemma layout_find_many_spec layout db head b (ids : gmap EntityType (list string)) :
  layout_ok layout -> db_inv layout head db -> (head < BLOCK_NUMBER_MAX)%Z ->
  (forall ty l, ids !! ty = Some l -> exists t, layout !! ty = Some t /\
     (forall id, id ∈ l -> exists o, layout_find layout db ty id b = Ok o) /\
     (forall idvs, bind_ids t l = Ok idvs -> NoDup idvs)) ->
  exists out, layout_find_many layout db ids b = Ok out /\
    forall ty, default [] (out !! ty) ≡ₚ omap (entity_at layout db b ty) (default [] (ids !! ty)).
Proof.
  intros Hok Hinv Hm Hids.
  destruct (find_many_loop layout db head b (btree_iter ids) ∅)
    as (tables & data & out & H1 & H2 & H3 & Hother & Hin); [done..| | |].
  { rewrite btree_iter_perm. apply NoDup_fst_map_to_list. }
  { intros ty l Hl%elem_of_btree_iter. by apply Hids. }
  exists out. unfold layout_find_many. rewrite H1. cbn [bind_result]. rewrite H2. cbn [bind_result].
  split; [done|]. intros ty. destruct (ids !! ty) as [l|] eqn:Hl; simpl.
  - by rewrite (Hin ty l) by by apply elem_of_btree_iter.
  - rewrite Hother; [done|]. intros ([ty' l] & -> & Hx%elem_of_btree_iter)%list_elem_of_fmap.
    simpl in Hl. congruence.
Qed.

End FindMany.
