(* ===== verification/DeploymentProps.v ===== *)
(** * Correctness of writing and reverting blocks

    [apply_entity_modifications] against the state of the entities: after the
    modifications of a block are applied, the block and all later ones see the
    new state, and earlier blocks the state they saw before.  Reverting the block
    undoes it. *)

From S2P Require Import Prelude GraphqlAst Scalars RuntimeValue Values StoreTypes Schema BlockRange.
From S2P Require Import Relational VersionProps RowProps RevertProps LayoutProps DeploymentStore.

Section DeploymentProps.
Context `{HX : !Hex} {R : Type} `{HR : !Int4Range R} `{HL : !Int4RangeLaws R}
  {SV : Type} `{HP : !PgValues SV}.
Context (site : DeploymentHash) (schema : Schema) (layout : Layout) (Hlayout : layout_ok layout).
Local Abbreviation Row := (Row R SV).
Local Abbreviation Db := (Db R SV).
Local Abbreviation changes_map := (gmap (EntityType * SV) (option (gmap string SV))).
Implicit Types (t : Table) (r : Row) (rows : list Row) (block head b : Z) (db : Db)
  (ty : EntityType) (m : EntityModification) (ps ms mods : list EntityModification)
  (changes : changes_map).

(** The table and the value of the primary key of the entity of a modification. *)
Definition mod_slot m : option (EntityType * SV) :=
  t ← layout !! entity_type (mod_entity_key m);
  v ← result_ok (bind_id t (key_entity_id (mod_entity_key m)));
  Some (entity_type (mod_entity_key m), v).

(** The columns that a modification leaves for its entity. *)
Definition target m (o : option (gmap string SV)) : Prop :=
  match m with
  | ModRemove _ => o = None
  | ModInsert key data | ModOverwrite key data =>
      exists t e d, layout !! entity_type key = Some t /\ prepare_entity t (key, data) = Ok e /\
        stores t e d /\ o = Some d
  end.

(** The attribute [id] of the data is the id of the key. *)
Definition id_agrees m : Prop :=
  match m with
  | ModRemove _ => True
  | ModInsert key data | ModOverwrite key data =>
      forall t pk, layout !! entity_type key = Some t -> pk ∈ tb_columns t ->
        col_name pk = PRIMARY_KEY_COLUMN ->
        exists v, data !! "id" = Some v /\
          query_value (SV:=SV) (col_column_type pk) v = bind_id t (key_entity_id key)
  end.

Definition write_mod (ins : bool) (p : EntityKey * Entity) : EntityModification :=
  if ins then ModInsert p.1 p.2 else ModOverwrite p.1 p.2.

Lemma inserted_slot ins block ty t p r :
  layout !! ty = Some t -> entity_type p.1 = ty -> id_agrees (write_mod ins p) ->
  inserted t block p r ->
  mod_slot (write_mod ins p) = Some (ty, row_id r) /\ target (write_mod ins p) (Some (row_data r)).
Proof.
  intros Ht Hty Hid [_ (e & Hprep & Hst)]. destruct p as [key data]. simpl in *.
  destruct (Hlayout _ _ Ht) as [_ Htok]. pose proof (prepare_id t (key, data) e Htok Hprep) as He. simpl in He.
  destruct (to_has_key t Htok) as (pk & Hpk & Hname & _). pose proof (to_primary_key t Htok pk Hpk Hname) as Hf.
  assert (Hagree : exists v, data !! "id" = Some v /\
    query_value (SV:=SV) (col_column_type pk) v = bind_id t (key_entity_id key)).
  { destruct ins; simpl in Hid; apply (Hid t pk); by rewrite ?Hty. }
  destruct Hagree as (v & Hv & Hq). pose proof (proj1 Hst pk Hpk) as Hcol. rewrite Hf, He, Hv in Hcol.
  destruct Hcol as (s & Hs & Hd). split.
  - assert (Hkey : mod_entity_key (write_mod ins (key, data)) = key) by (by destruct ins).
    unfold mod_slot. rewrite Hkey, Hty, Ht. simpl. rewrite <- Hq, Hs. simpl.
    unfold row_id, row_value. rewrite <- Hname, Hd. done.
  - destruct ins; simpl; exists t, e, (row_data r); by rewrite Hty.
Qed.

(** The changes so far are those of the modifications [ps]. *)
Definition logged ps changes : Prop :=
  (forall m, m ∈ ps -> exists slot o, mod_slot m = Some slot /\ changes !! slot = Some o /\ target m o) /\
  (forall slot, is_Some (changes !! slot) -> exists m, m ∈ ps /\ mod_slot m = Some slot).

Lemma inserted_slots ins block ty t es new :
  layout !! ty = Some t -> Forall (fun p => entity_type p.1 = ty /\ id_agrees (write_mod ins p)) es ->
  Forall2 (inserted t block) es new ->
  omap mod_slot (map (write_mod ins) es) = map (fun r => (ty, row_id r)) new.
Proof.
  intros Ht Hes Hnew. induction Hnew as [|p r es new Hp Hnew IH]; [done|].
  inversion Hes as [|? ? [Hty Hid] Hes']; subst. simpl.
  destruct (inserted_slot ins block (entity_type p.1) t p r) as [Hslot _]; [done..|].
  rewrite Hslot. f_equal. by apply IH.
Qed.

Lemma logged_insert ins block ty t es new ps changes changes1 :
  logged ps changes -> layout !! ty = Some t ->
  Forall (fun p => entity_type p.1 = ty /\ id_agrees (write_mod ins p)) es ->
  Forall2 (inserted t block) es new ->
  (forall slot, slot ∉ omap mod_slot (map (write_mod ins) es) -> changes1 !! slot = changes !! slot) ->
  NoDup (omap mod_slot (ps ++ map (write_mod ins) es)) ->
  logged (ps ++ map (write_mod ins) es) (add_rows ty changes1 new).
Proof.
  intros [Hdone Honly] Ht Hes Hnew Hch Hnd. rewrite omap_app in Hnd.
  pose proof (inserted_slots ins block ty t es new Ht Hes Hnew) as Hslots. rewrite Hslots in *.
  apply NoDup_app in Hnd as (_ & Hdisj & Hnd2).
  assert (Hids : NoDup (map row_id new)).
  { apply (NoDup_fmap_1 (pair ty)). change (NoDup (map (pair ty) (map row_id new))). by rewrite map_map. }
  split.
  - intros m [Hin|Hin]%elem_of_app.
    + destruct (Hdone m Hin) as (slot & o & Hs & Hc & Htgt). exists slot, o. split_and!; [done| |done].
      assert (Hnot : slot ∉ map (fun r => (ty, row_id r)) new)
        by (apply Hdisj, list_elem_of_omap; eauto).
      destruct slot as [ty' id]. rewrite add_rows_lookup by done. by rewrite Hch.
    + apply list_elem_of_fmap in Hin as (p & -> & Hp).
      destruct (forall2_elem_l _ _ _ Hnew p Hp) as (r & Hr & Hins). rewrite Forall_forall in Hes.
      destruct (Hes p Hp) as [Hty Hid].
      destruct (inserted_slot ins block ty t p r) as [Hs Htgt]; [done..|].
      exists (ty, row_id r), (Some (row_data r)). split_and!; [done| |done]. by apply add_rows_lookup_new.
  - intros [ty' id] Hsome.
    destruct (decide ((ty', id) ∈ map (fun r => (ty, row_id r)) new)) as [Hin|Hout].
    + rewrite <- Hslots in Hin. apply list_elem_of_omap in Hin as (m & Hm & Hs).
      exists m. split; [|done]. apply elem_of_app. by right.
    + rewrite add_rows_lookup, Hch in Hsome by done. destruct (Honly _ Hsome) as (m & Hm & Hs).
      exists m. split; [|done]. apply elem_of_app. by left.
Qed.

Definition progress block db0 ps db : Prop :=
  exists changes, mid_db layout block db0 changes db /\ logged ps changes.

Lemma mid_db_insert block db0 changes db ty t es rows' n :
  mid_db layout block db0 changes db -> (block < BLOCK_NUMBER_MAX)%Z -> layout !! ty = Some t ->
  insert_chunks t block (table_rows db t) es = Ok (rows', n) ->
  n = length es /\
  (count_query layout (with_rows db t rows') - count_query layout db = Z.of_nat n)%Z /\
  exists new, Forall2 (inserted t block) es new /\
    mid_db layout block db0 (add_rows ty changes new) (with_rows db t rows').
Proof.
  intros Hmid Hm Ht Hins. destruct (Hlayout _ _ Ht) as [_ Htok].
  apply insert_chunks_spec in Hins as (-> & new & -> & Hsep & Hnew); [|done]. split; [done|].
  assert (Hall : Forall (new_row t block) new).
  { apply Forall_forall. intros r Hr. destruct (forall2_elem_r _ _ _ Hnew r Hr) as (p & _ & Hp). apply Hp. }
  split.
  { rewrite (count_with_rows layout db ty t) by done. rewrite (live_insert t block) by done.
    rewrite (Forall2_length _ _ _ Hnew). lia. }
  exists new. split; [done|]. eapply mid_db_table; [done..| |].
  - eapply mid_ext; [eapply insert_rows_mid; [by apply (Hmid ty)|done|done|]|by apply add_rows_upd].
    + destruct Hsep as [->|Hsep]; [|done]. inversion Hnew; subst. rewrite app_nil_r. apply (Hmid ty t Ht).
  - intros ty' id Hne. apply add_rows_lookup. intros (r & Heq & _)%list_elem_of_fmap. by injection Heq.
Qed.

Lemma mid_db_clamp block db0 changes db ty t ids idvs rows' n :
  mid_db layout block db0 changes db -> (block < BLOCK_NUMBER_MAX)%Z -> layout !! ty = Some t ->
  bind_ids t ids = Ok idvs -> (forall id, id ∈ idvs -> changes !! (ty, id) = None) ->
  clamp_range_query t ids block (table_rows db t) = Ok (rows', n) ->
  (count_query layout (with_rows db t rows') - count_query layout db = - Z.of_nat n)%Z /\
  n = length (List.filter (clamp_where t idvs) (table_rows db t)) /\
  mid_db layout block db0 (del_ids ty changes idvs) (with_rows db t rows').
Proof.
  intros Hmid Hm Ht Hids Hfree Hcl.
  assert (Him : tb_immutable t = false)
    by (unfold clamp_range_query in Hcl; by destruct (tb_immutable t)).
  destruct (clamp_mid t block (table_rows db0 t) (fun id => changes !! (ty, id)) (table_rows db t) ids idvs)
    as (rows1 & Hcl' & Hrows & Hmid'); [by apply (Hmid ty)|done..|].
  rewrite Hcl' in Hcl. injection Hcl as <- <-.
  split.
  { rewrite (count_with_rows layout db ty t) by done.
    rewrite (live_clamp t block idvs (table_rows db t) rows1); [lia|done..| |done]. apply (Hmid ty t Ht). }
  split; [done|]. eapply mid_db_table; [done..| |].
  - eapply mid_ext; [done|]. intros id. rewrite del_ids_lookup. simpl.
    destruct (decide (id ∈ idvs)); [rewrite !bool_decide_true|rewrite !bool_decide_false]; tauto.
  - intros ty' id Hne. rewrite del_ids_lookup. by rewrite bool_decide_false by tauto.
Qed.

(** Entities that no modification so far is about. *)
Lemma logged_free ps changes ms slot :
  logged ps changes -> NoDup (omap mod_slot (ps ++ ms)) -> slot ∈ omap mod_slot ms -> changes !! slot = None.
Proof.
  intros [_ Honly] Hnd Hin. destruct (changes !! slot) eqn:Hc; [|done].
  destruct (Honly slot) as (m & Hm & Hs); [by rewrite Hc|]. rewrite omap_app in Hnd.
  apply NoDup_app in Hnd as (_ & Hdisj & _). destruct (Hdisj slot); [|done]. apply list_elem_of_omap. eauto.
Qed.

Lemma insert_entities_step block db0 ps db ty es db' n :
  progress block db0 ps db -> (block < BLOCK_NUMBER_MAX)%Z ->
  Forall (fun p => entity_type p.1 = ty /\ id_agrees (write_mod true p)) es ->
  NoDup (omap mod_slot (ps ++ map (write_mod true) es)) ->
  insert_entities site schema layout block db (ty, es) = Ok (db', n) ->
  (count_query layout db' - count_query layout db = Z.of_nat n)%Z /\ progress block db0 (ps ++ map (write_mod true) es) db'.
Proof.
  intros (changes & Hmid & Hlog) Hm Hes Hnd. unfold insert_entities. cbn [fst snd].
  destruct (try_iter _ es) as [[]| |]; [|done..]. cbn [bind_result]. unfold layout_insert, table_for_entity.
  destruct (layout !! ty) as [t|] eqn:Ht; [|done]. cbn [ok_or bind_result].
  destruct (insert_chunks _ _ _ _) as [[rows' k]| |] eqn:Hins; [|done..]. cbn [bind_result fst snd].
  intros [= <- <-]. eapply mid_db_insert in Hins as (-> & Hcount & new & Hnew & Hmid'); [|done..]. split; [done|].
  eexists. split; [done|]. by eapply logged_insert.
Qed.

Lemma bind_ids_slots ins ty t es idvs :
  layout !! ty = Some t -> Forall (fun p => entity_type p.1 = ty) es ->
  bind_ids t (map (fun p => key_entity_id p.1) es) = Ok idvs ->
  omap mod_slot (map (write_mod ins) es) = map (pair ty) idvs.
Proof.
  intros Ht Hes Hids. apply try_map_forall2 in Hids. revert idvs Hids.
  induction Hes as [|p es Hp Hes IH]; intros idvs Hids; inversion Hids as [|? v ? vs Hv Hvs]; subst; [done|].
  simpl. assert (Hkey : mod_entity_key (write_mod ins p) = p.1) by (by destruct ins).
  unfold mod_slot at 1. rewrite Hkey, Ht. simpl. rewrite Hv. simpl. f_equal. by apply IH.
Qed.

(** The entity of an overwrite exists. *)
Definition overwrites_exist db0 m : Prop :=
  match m with
  | ModOverwrite key _ =>
      layout_find layout db0 (entity_type key) (key_entity_id key) BLOCK_NUMBER_MAX <> Ok None
  | _ => True
  end.

Lemma overwrite_clamps_all block db0 ps changes db ty t es idvs :
  mid_db layout block db0 changes db -> logged ps changes -> (block < BLOCK_NUMBER_MAX)%Z ->
  layout !! ty = Some t -> tb_immutable t = false ->
  Forall (fun p => entity_type p.1 = ty) es ->
  NoDup (omap mod_slot (ps ++ map (write_mod false) es)) ->
  bind_ids t (map (fun p => key_entity_id p.1) es) = Ok idvs ->
  Forall (overwrites_exist db0) (map (write_mod false) es) ->
  length (List.filter (clamp_where t idvs) (table_rows db t)) = length es.
Proof.
  intros Hmid Hlog Hm Ht Him Hes Hnd Hids Hex.
  pose proof (bind_ids_slots false ty t es idvs Ht Hes Hids) as Hslots.
  assert (Hlen : length idvs = length es).
  { apply try_map_forall2, Forall2_length in Hids. by rewrite length_map in Hids. }
  rewrite <- Hlen. apply (clamp_count t block); [done..|apply (Hmid ty t Ht)| |].
  - rewrite omap_app in Hnd. apply NoDup_app in Hnd as (_ & _ & Hnd). rewrite Hslots in Hnd.
    by apply (NoDup_fmap_1 (pair ty)).
  - intros id Hin. rewrite (mid_after _ _ _ _ _ (Hmid _ t Ht)) by lia.
    rewrite (logged_free ps changes (map (write_mod false) es) (ty, id)); [|done..|].
    2:{ rewrite Hslots. by apply list_elem_of_fmap_2. }
    apply try_map_forall2 in Hids. destruct (forall2_elem_r _ _ _ Hids id Hin) as (kid & Hk & Hb).
    apply list_elem_of_fmap in Hk as (p & -> & Hp). rewrite Forall_forall in Hex. rewrite Forall_forall in Hes.
    specialize (Hex (write_mod false p) (list_elem_of_fmap_2 _ _ _ Hp)). specialize (Hes p Hp). simpl in Hex.
    rewrite Hes, (layout_find_versions layout db0 ty t) in Hex by (try done; by apply (Hlayout _ _ Ht)).
    rewrite Hb in Hex. simpl in Hex. intros Hnil. by rewrite Hnil in Hex.
Qed.

Lemma overwrite_entities_step block db0 ps db ty es db' n :
  progress block db0 ps db -> (block < BLOCK_NUMBER_MAX)%Z ->
  Forall (fun p => entity_type p.1 = ty /\ id_agrees (write_mod false p)) es ->
  NoDup (omap mod_slot (ps ++ map (write_mod false) es)) ->
  overwrite_entities site schema layout block db (ty, es) = Ok (db', n) ->
  (Forall (overwrites_exist db0) (map (write_mod false) es) ->
     count_query layout db' = count_query layout db) /\
  progress block db0 (ps ++ map (write_mod false) es) db'.
Proof.
  intros (changes & Hmid & Hlog) Hm Hes Hnd. unfold overwrite_entities. cbn [fst snd].
  destruct (try_iter _ es) as [[]| |]; [|done..]. cbn [bind_result]. unfold layout_update, table_for_entity.
  destruct (layout !! ty) as [t|] eqn:Ht; [|done]. cbn [ok_or bind_result].
  destruct (tb_immutable t) eqn:Him; [done|].
  destruct (clamp_range_query _ _ _ _) as [[rows1 k1]| |] eqn:Hcl; [|done..]. cbn [bind_result fst snd].
  destruct (bind_ids t (map (fun p => key_entity_id p.1) es)) as [idvs| |] eqn:Hids;
    [|by unfold clamp_range_query in Hcl; rewrite Him, Hids in Hcl..].
  assert (Htypes : Forall (fun p => entity_type p.1 = ty) es)
    by (eapply Forall_impl; [done|]; by intros ? [? _]).
  pose proof (bind_ids_slots false ty t es idvs Ht Htypes Hids) as Hslots.
  eapply mid_db_clamp in Hcl as (Hcount1 & Hk1 & Hmid1); [|done..|].
  2:{ intros id Hin. eapply logged_free; [done..|]. rewrite Hslots. by apply list_elem_of_fmap_2. }
  destruct (insert_chunks _ _ _ _) as [[rows2 k2]| |] eqn:Hins; [|done..]. cbn [bind_result fst snd].
  rewrite <- (table_rows_with db t rows1) in Hins.
  eapply (mid_db_insert block db0 _ (with_rows db t rows1)) in Hins as (-> & Hcount2 & new & Hnew & Hmid2); [|done..].
  assert (Heq : with_rows (with_rows db t rows1) t rows2 = with_rows db t rows2)
    by (unfold with_rows; by rewrite insert_insert_eq).
  rewrite Heq in Hmid2, Hcount2. intros [= <- <-]. split.
  - intros Hex. rewrite (overwrite_clamps_all block db0 ps changes db ty t es idvs) in Hk1 by done. lia.
  - eexists. split; [exact Hmid2|].
    eapply (logged_insert false block ty t es new); [exact Hlog|done..| |done].
    intros [ty' id] Hnot. rewrite Hslots in Hnot. rewrite del_ids_lookup. rewrite bool_decide_false; [done|].
    intros [-> Hin]. apply Hnot. by apply list_elem_of_fmap_2.
Qed.

Definition remove_mod ty (id : string) : EntityModification := ModRemove (mkKey site ty id).

Lemma remove_slots ty t ids idvs :
  layout !! ty = Some t -> bind_ids t ids = Ok idvs ->
  omap mod_slot (map (remove_mod ty) ids) = map (pair ty) idvs.
Proof.
  intros Ht Hids. apply try_map_forall2 in Hids. induction Hids as [|id v ids vs Hv Hvs IH]; [done|].
  simpl. unfold mod_slot at 1. simpl. rewrite Ht. simpl. rewrite Hv. simpl. by f_equal.
Qed.

Lemma logged_remove ty t ids idvs ps changes :
  logged ps changes -> layout !! ty = Some t -> bind_ids t ids = Ok idvs ->
  NoDup (omap mod_slot (ps ++ map (remove_mod ty) ids)) ->
  logged (ps ++ map (remove_mod ty) ids) (del_ids ty changes idvs).
Proof.
  intros [Hdone Honly] Ht Hids Hnd. pose proof (remove_slots ty t ids idvs Ht Hids) as Hslots.
  rewrite omap_app in Hnd. apply NoDup_app in Hnd as (_ & Hdisj & _). split.
  - intros m [Hin|Hin]%elem_of_app.
    + destruct (Hdone m Hin) as ([ty' id] & o & Hs & Hc & Htgt). exists (ty', id), o. split_and!; [done| |done].
      rewrite del_ids_lookup, bool_decide_false; [exact Hc|]. intros [-> Hid].
      apply (Hdisj (ty, id)); [apply list_elem_of_omap; eauto|]. rewrite Hslots. by apply list_elem_of_fmap_2.
    + assert (Hslot : exists slot, mod_slot m = Some slot /\ slot ∈ map (pair ty) idvs).
      { apply list_elem_of_fmap in Hin as (id & -> & Hid). apply try_map_forall2 in Hids.
        destruct (forall2_elem_l _ _ _ Hids id Hid) as (v & Hv & Hb). exists (ty, v).
        split; [|by apply list_elem_of_fmap_2]. unfold mod_slot. simpl. rewrite Ht. simpl. by rewrite Hb. }
      destruct Hslot as (slot & Hs & Hslot). exists slot, None.
      apply list_elem_of_fmap in Hslot as (v & -> & Hv).
      apply list_elem_of_fmap in Hin as (id & -> & _). split_and!; [done| |done].
      by rewrite del_ids_lookup, bool_decide_true.
  - intros [ty' id] Hsome. rewrite del_ids_lookup in Hsome. case_bool_decide as Hc.
    + destruct Hc as [-> Hc]. assert (Hin : (ty, id) ∈ omap mod_slot (map (remove_mod ty) ids))
        by (rewrite Hslots; by apply list_elem_of_fmap_2).
      apply list_elem_of_omap in Hin as (m & Hm & Hs). exists m. split; [|done]. apply elem_of_app. by right.
    + destruct (Honly _ Hsome) as (m & Hm & Hs). exists m. split; [|done]. apply elem_of_app. by left.
Qed.

Lemma clamp_chunks_step block db0 ty t cs ps db rows' k n :
  progress block db0 ps db -> (block < BLOCK_NUMBER_MAX)%Z -> layout !! ty = Some t ->
  NoDup (omap mod_slot (ps ++ map (remove_mod ty) (concat cs))) ->
  try_fold (fun st chunk =>
      let? st' := clamp_range_query t chunk block st.1 in Ok (st'.1, (st.2 + st'.2)%nat))
    (table_rows db t, k) cs = Ok (rows', n) ->
  (count_query layout (with_rows db t rows') - count_query layout db = Z.of_nat k - Z.of_nat n)%Z /\
  progress block db0 (ps ++ map (remove_mod ty) (concat cs)) (with_rows db t rows').
Proof.
  intros Hprog Hm Ht. revert ps db k Hprog. induction cs as [|c cs IH]; intros ps db k Hprog Hnd; cbn [try_fold].
  - intros [= <- <-]. split; [rewrite (count_with_rows layout db ty t) by done; lia|].
    simpl. rewrite app_nil_r. destruct Hprog as (changes & Hmid & Hlog). exists changes. split; [|done]. by eapply mid_db_table; [|done|done|apply (Hmid ty)|].
  - cbn [fst snd]. destruct (clamp_range_query t c block (table_rows db t)) as [[rows1 k1]| |] eqn:Hcl; [|done..].
    cbn [bind_result fst snd]. intros Hf. simpl in Hnd |- *. rewrite map_app, app_assoc in Hnd |- *.
    destruct Hprog as (changes & Hmid & Hlog).
    destruct (bind_ids t c) as [idvs| |] eqn:Hids;
      [|by unfold clamp_range_query in Hcl; destruct (tb_immutable t); [|rewrite Hids in Hcl]..].
    assert (Hnd1 : NoDup (omap mod_slot (ps ++ map (remove_mod ty) c)))
      by (rewrite omap_app in Hnd; by apply NoDup_app in Hnd as [? _]).
    eapply mid_db_clamp in Hcl as (Hcount1 & _ & Hmid1); [|done..|].
    2:{ intros id Hin. eapply logged_free; [done..|].
      erewrite remove_slots by done. by apply list_elem_of_fmap_2. }
    assert (Hprog1 : progress block db0 (ps ++ map (remove_mod ty) c) (with_rows db t rows1))
      by (exists (del_ids ty changes idvs); split; [done|by eapply logged_remove]).
    rewrite <- (table_rows_with db t rows1) in Hf.
    specialize (IH _ _ _ Hprog1 Hnd Hf).
    assert (Heq : with_rows (with_rows db t rows1) t rows' = with_rows db t rows')
      by (unfold with_rows; by rewrite insert_insert_eq).
    rewrite Heq in IH. destruct IH as [Hcount2 Hp]. split; [lia|done].
Qed.

Lemma remove_entities_step block db0 ps db ty ids db' n :
  progress block db0 ps db -> (block < BLOCK_NUMBER_MAX)%Z ->
  NoDup (omap mod_slot (ps ++ map (remove_mod ty) ids)) ->
  remove_entities layout block db (ty, ids) = Ok (db', n) ->
  (count_query layout db' - count_query layout db = - Z.of_nat n)%Z /\
  progress block db0 (ps ++ map (remove_mod ty) ids) db'.
Proof.
  intros Hprog Hm Hnd. unfold remove_entities, layout_delete, table_for_entity. cbn [fst snd].
  destruct (layout !! ty) as [t|] eqn:Ht; [|done]. cbn [ok_or bind_result].
  destruct (tb_immutable t); [done|].
  destruct (chunks_ok (E:=StoreError) DELETE_OPERATION_CHUNK_SIZE ids) as (cs & -> & Hcat).
  { unfold DELETE_OPERATION_CHUNK_SIZE. lia. }
  cbn [bind_result]. destruct (try_fold _ _ cs) as [[rows' k]| |] eqn:Hf; [|done..].
  simpl. intros [= <- <-]. rewrite <- Hcat in Hnd |- *.
  destruct (clamp_chunks_step block db0 ty t cs ps db rows' 0 k) as [Hcount Hp]; [done..|].
  split; [lia|done].
Qed.

(** ** Groups *)

Definition group_list {A} (mk : EntityType -> A -> EntityModification)
    (groups : list (EntityType * list A)) : list EntityModification :=
  concat (map (fun g => map (mk g.1) g.2) groups).

Lemma apply_groups_progress {A} (mk : EntityType -> A -> EntityModification)
    (f : Db -> EntityType * list A -> result StoreError (Db * nat)) sign (Q : Prop) block db0 groups
    ps db z db' z' :
  (forall ps db g db' n, progress block db0 ps db -> g ∈ groups ->
     NoDup (omap mod_slot (ps ++ map (mk g.1) g.2)) -> f db g = Ok (db', n) ->
     (Q -> (count_query layout db' - count_query layout db = sign * Z.of_nat n)%Z) /\
     progress block db0 (ps ++ map (mk g.1) g.2) db') ->
  progress block db0 ps db -> NoDup (omap mod_slot (ps ++ group_list mk groups)) ->
  apply_groups f sign (db, z) groups = Ok (db', z') ->
  (Q -> (count_query layout db' - count_query layout db = z' - z)%Z) /\
  progress block db0 (ps ++ group_list mk groups) db'.
Proof.
  unfold apply_groups, group_list. revert ps db z.
  induction groups as [|g groups IH]; intros ps db z Hstep Hprog Hnd; cbn [try_fold map concat].
  - intros [= <- <-]. rewrite app_nil_r. split; [lia|done].
  - cbn [fst snd]. destruct (f db g) as [[db1 n1]| |] eqn:Hf; [|done..]. cbn [bind_result fst snd].
    cbn [map concat] in Hnd. rewrite app_assoc in Hnd |- *.
    assert (Hnd1 : NoDup (omap mod_slot (ps ++ map (mk g.1) g.2)))
      by (rewrite omap_app in Hnd; by apply NoDup_app in Hnd as [? _]).
    destruct (Hstep ps db g db1 n1 Hprog (list_elem_of_here _ _) Hnd1 Hf) as [Hc1 Hp1]. intros Hrest.
    destruct (IH _ _ _ (fun ps db g db' n Hp Hin => Hstep ps db g db' n Hp (list_elem_of_further _ _ _ Hin))
      Hp1 Hnd Hrest) as [Hc2 Hp2].
    split; [|done]. intros HQ. specialize (Hc1 HQ). specialize (Hc2 HQ). lia.
Qed.

Lemma group_list_perm {A} (mk : EntityType -> A -> EntityModification) gs gs' :
  gs ≡ₚ gs' -> group_list mk gs ≡ₚ group_list mk gs'.
Proof.
  unfold group_list. induction 1 as [|g gs gs' _ IH|g g' gs|gs1 gs2 gs3 _ IH1 _ IH2]; simpl; [done| | |by etrans].
  - by rewrite IH.
  - rewrite !app_assoc. by rewrite (Permutation_app_comm (map (mk g'.1) g'.2)).
Qed.

Lemma push_group_perm {A} (mk : EntityType -> A -> EntityModification) (m : gmap EntityType (list A)) ty x :
  group_list mk (map_to_list (push_group m ty x)) ≡ₚ group_list mk (map_to_list m) ++ [mk ty x].
Proof.
  unfold push_group. destruct (m !! ty) as [l|] eqn:Hm; simpl.
  - rewrite <- (insert_delete_eq m), (group_list_perm mk (map_to_list m) ((ty, l) :: map_to_list (delete ty m))).
    + rewrite group_list_perm; [|apply map_to_list_insert, lookup_delete_eq].
      unfold group_list. simpl. rewrite map_app. simpl. rewrite <- !app_assoc. f_equiv.
      by rewrite Permutation_app_comm.
    + symmetry. by apply map_to_list_delete.
  - rewrite group_list_perm; [|by apply map_to_list_insert]. unfold group_list. simpl.
    by rewrite Permutation_cons_append.
Qed.

Definition typed_groups (gs : gmap EntityType (list (EntityKey * Entity))) : Prop :=
  forall ty es, gs !! ty = Some es -> Forall (fun p => entity_type p.1 = ty) es.

Lemma typed_push gs key data :
  typed_groups gs -> typed_groups (push_group gs (entity_type key) (key, data)).
Proof.
  intros Hm ty es. unfold push_group. intros [[<- <-]|[_ Hes]]%lookup_insert_Some; [|by apply Hm].
  apply Forall_app. split; [|by repeat constructor].
  destruct (gs !! entity_type key) as [l|] eqn:Hl; simpl; [by apply Hm|constructor].
Qed.

Definition all_groups (g : ModGroups) : list EntityModification :=
  group_list (fun _ => write_mod true) (map_to_list (g_inserts g)) ++
  group_list (fun _ => write_mod false) (map_to_list (g_overwrites g)) ++
  group_list remove_mod (map_to_list (g_removals g)).

Lemma group_mods_spec mods :
  Forall (fun m => subgraph_id (mod_entity_key m) = site) mods ->
  all_groups (group_mods mods) ≡ₚ mods /\
  typed_groups (g_inserts (group_mods mods)) /\ typed_groups (g_overwrites (group_mods mods)).
Proof.
  unfold group_mods. induction mods as [|m mods IH] using rev_ind; intros Hsite.
  { split_and!; [done|by intros ??|by intros ??]. }
  apply Forall_app in Hsite as [Hsite Hm]. destruct (IH Hsite) as (Hperm & Hi & Ho).
  inversion Hm as [|? ? Hkey _]; subst. rewrite foldl_app. simpl. revert Hperm Hi Ho.
  generalize (foldl group_mod (mkGroups ∅ ∅ ∅) mods). intros [gi go gr] Hperm Hi Ho. unfold all_groups in *.
  destruct m as [key data|key data|key]; simpl in *; split_and!; try done; try by apply typed_push.
  - rewrite push_group_perm. simpl. rewrite <- Hperm. rewrite <- app_assoc.
    by rewrite <- (Permutation_app_comm _ [write_mod true (key, data)]), !app_assoc.
  - rewrite push_group_perm. rewrite <- Hperm. rewrite <- !app_assoc. f_equiv.
    rewrite (Permutation_app_comm [write_mod false (key, data)]). by rewrite !app_assoc.
  - rewrite push_group_perm. rewrite <- Hperm. rewrite <- !app_assoc. do 2 f_equiv.
    unfold remove_mod. by destruct key; simpl in *; subst.
Qed.

(** A batch of modifications: one for each entity, with agreeing ids. *)
Record batch mods : Prop := {
  ba_site : Forall (fun m => subgraph_id (mod_entity_key m) = site) mods;
  ba_ids : Forall id_agrees mods;
  ba_distinct : NoDup (omap mod_slot mods)
}.

Lemma group_elem {A} (mk : EntityType -> A -> EntityModification) gs g x :
  g ∈ gs -> x ∈ g.2 -> mk g.1 x ∈ group_list mk gs.
Proof.
  intros Hg Hx. unfold group_list. apply list_elem_of_In, in_concat. exists (map (mk g.1) g.2).
  rewrite <- !list_elem_of_In. split; [by apply (list_elem_of_fmap_2 (fun g => map (mk g.1) g.2))|].
  by apply list_elem_of_fmap_2.
Qed.

Lemma typed_group ins (gs : gmap EntityType (list (EntityKey * Entity))) ty es :
  typed_groups gs -> (ty, es) ∈ map_to_list gs ->
  (forall m, m ∈ group_list (fun _ => write_mod ins) (map_to_list gs) -> id_agrees m) ->
  Forall (fun p => entity_type p.1 = ty /\ id_agrees (write_mod ins p)) es.
Proof.
  intros Ht Hin Hids. apply Forall_forall. intros p Hp.
  pose proof (proj1 (elem_of_map_to_list _ _ _) Hin) as Hlook.
  split; [pose proof (Ht _ _ Hlook) as Hty; rewrite Forall_forall in Hty; by apply Hty|].
  by apply Hids, (group_elem (fun _ => write_mod ins) _ (ty, es)).
Qed.

Lemma apply_mods_progress db mods head block db' n :
  db_inv layout head db -> (head < block)%Z -> (block < BLOCK_NUMBER_MAX)%Z -> batch mods ->
  apply_entity_modifications site schema layout db mods block = Ok (db', n) ->
  (Forall (overwrites_exist db) mods -> n = count_query layout db' - count_query layout db)%Z /\
  exists ps, ps ≡ₚ mods /\ progress block db ps db'.
Proof.
  intros Hinv Hlt Hm [Hsite Hids Hnd]. destruct (group_mods_spec mods Hsite) as (Hperm & Hi & Ho).
  unfold apply_entity_modifications. set (g := group_mods mods) in *.
  unfold all_groups in Hperm. set (Q := Forall (overwrites_exist db) mods).
  assert (Hex : Q -> forall m, m ∈ group_list (fun _ => write_mod false) (map_to_list (g_overwrites g)) ->
    overwrites_exist db m).
  { intros HQ m Hin. unfold Q in HQ. rewrite <- Hperm, !Forall_app in HQ. destruct HQ as (_ & HQ & _).
    rewrite Forall_forall in HQ. by apply HQ. }
  clearbody Q. rewrite <- Hperm in Hnd, Hids. rewrite !omap_app in Hnd. rewrite !Forall_app in Hids.
  destruct Hids as (Hii & Hio & _). rewrite Forall_forall in Hii. rewrite Forall_forall in Hio.
  destruct (apply_groups _ 1 _ _) as [[db1 n1]| |] eqn:H1; [|done..]. cbn [bind_result].
  destruct (apply_groups _ 0 _ _) as [[db2 n2]| |] eqn:H2; [|done..]. cbn [bind_result]. intros H3.
  assert (Hp0 : progress block db [] db).
  { exists ∅. split; [by eapply mid_db_start|]. split; [by intros ? ?%not_elem_of_nil|].
    intros slot. rewrite lookup_empty. by intros []. }
  eapply (apply_groups_progress (fun _ => write_mod true) _ _ Q _ _ _ []) in H1 as [Hc1 Hp1]; [|clear H1|exact Hp0|].
  2:{ intros ps db3 [ty es] db4 k Hprog Hin Hnd' Hst.
      eapply (insert_entities_step block db ps db3 ty es) in Hst as [Hc Hp]; [|done..|by apply (typed_group true (g_inserts g))|done].
      split; [lia|done]. }
  2:{ by apply NoDup_app in Hnd as [? _]. }
  eapply (apply_groups_progress (fun _ => write_mod false) _ _ Q) in H2 as [Hc2 Hp2]; [|clear H2|exact Hp1|].
  2:{ intros ps db3 [ty es] db4 k Hprog Hin Hnd' Hst.
      eapply (overwrite_entities_step block db ps db3 ty es) in Hst as [Hc Hp]; [|done..|by apply (typed_group false (g_overwrites g))|done].
      split; [|done]. intros HQ. rewrite Hc; [lia|]. apply Forall_forall.
      intros m (p & -> & Hp')%list_elem_of_fmap. by apply Hex, (group_elem (fun _ => write_mod false) _ (ty, es)). }
  2:{ rewrite omap_app. rewrite app_assoc in Hnd. by apply NoDup_app in Hnd as [? _]. }
  eapply (apply_groups_progress remove_mod _ _ Q) in H3 as [Hc3 Hp3]; [|clear H3|exact Hp2|].
  2:{ intros ps db3 [ty ids] db4 k Hprog _ Hnd' Hst.
      eapply (remove_entities_step block db ps db3 ty ids) in Hst as [Hc Hp]; [|done..]. split; [lia|done]. }
  2:{ by rewrite !omap_app, <- app_assoc. }
  split; [intros HQ; specialize (Hc1 HQ); specialize (Hc2 HQ); specialize (Hc3 HQ); lia|].
  eexists. split; [exact Hperm|]. by rewrite app_assoc.
Qed.

(** What is read for the entity of a modification from its block on. *)
Definition mod_view m : option Entity :=
  match m with
  | ModRemove _ => None
  | ModInsert key data | ModOverwrite key data =>
      t ← layout !! entity_type key; Some (stored_entity t data)
  end.

Definition mod_readable m : Prop :=
  match m with
  | ModRemove _ => True
  | ModInsert key data | ModOverwrite key data =>
      forall t, layout !! entity_type key = Some t -> readable (SV:=SV) t data
  end.

Lemma found_target ty t m o :
  layout !! ty = Some t -> entity_type (mod_entity_key m) = ty -> mod_readable m -> target m o ->
  found (R:=R) layout ty (option_list o) = Ok (mod_view m).
Proof.
  intros Ht Hty Hread Htgt. destruct (Hlayout _ _ Ht) as [Ho Htok].
  destruct m as [key data|key data|key]; simpl in *; [..|by subst].
  all: destruct Htgt as (t' & e & d & Ht' & Hprep & Hst & ->); simplify_eq; rewrite Ht; simpl.
  all: pose proof (deserialize_stored t layout e (mkRow d (ColBlock (R:=R) 0)) Htok) as Hd.
  all: rewrite Ho in Hd; rewrite Hd; [|done|done|by eapply readable_prepared; [|done|apply Hread]].
  all: simpl; do 2 f_equal; by apply (stored_prepared t (key, data)).
Qed.

Lemma apply_entity_modifications_spec db mods head block db' n :
  db_inv layout head db -> (head < block)%Z -> (block < BLOCK_NUMBER_MAX)%Z -> batch mods ->
  apply_entity_modifications site schema layout db mods block = Ok (db', n) ->
  db_inv layout block db' /\
  (forall ty id b, (b < block)%Z -> layout_find layout db' ty id b = layout_find layout db ty id b) /\
  (Forall (overwrites_exist db) mods -> n = count_query layout db' - count_query layout db)%Z.
Proof.
  intros Hinv Hlt Hm Hbatch Happ.
  destruct (apply_mods_progress db mods head block db' n) as (Hcount & ps & Hperm & changes & Hmid & _); [done..|].
  split_and!; [|..|done].
  - intros ty t Ht. apply (Hmid ty t Ht).
  - intros ty id b Hb. apply find_same_versions; [done|]. intros t idv Ht. by apply (Hmid ty t Ht).
Qed.

(** What the block and later ones see after its modifications. *)
Lemma apply_entity_modifications_view db mods head block db' n :
  db_inv layout head db -> (head < block)%Z -> (block < BLOCK_NUMBER_MAX)%Z -> batch mods ->
  apply_entity_modifications site schema layout db mods block = Ok (db', n) ->
  (forall m b, m ∈ mods -> mod_readable m -> (block <= b <= BLOCK_NUMBER_MAX)%Z ->
     layout_find layout db' (entity_type (mod_entity_key m)) (key_entity_id (mod_entity_key m)) b
       = Ok (mod_view m)) /\
  (forall ty t id idv b, layout !! ty = Some t -> bind_id t id = Ok idv ->
     (ty, idv) ∉ omap mod_slot mods -> (block <= b <= BLOCK_NUMBER_MAX)%Z ->
     layout_find layout db' ty id b = layout_find layout db ty id b).
Proof.
  intros Hinv Hlt Hm Hbatch Happ.
  destruct (apply_mods_progress db mods head block db' n)
    as (_ & ps & Hperm & changes & Hmid & Hdone & Honly); [done..|].
  split.
  - intros m b Hin Hread Hb. rewrite <- Hperm in Hin.
    destruct (Hdone m Hin) as ([ty idv] & o & Hs & Hc & Htgt).
    unfold mod_slot in Hs. destruct (layout !! entity_type (mod_entity_key m)) as [t|] eqn:Ht; [|done]. simpl in Hs.
    destruct (bind_id t (key_entity_id (mod_entity_key m))) as [v| |] eqn:Hid; simpl in Hs; [|done..].
    injection Hs as Hty ->. rewrite (layout_find_versions layout db' _ t) by (try done; by apply (Hlayout _ _ Ht)).
    rewrite Hid. simpl. rewrite (mid_after _ _ _ _ _ (Hmid _ t Ht)) by done.
    rewrite Hty. rewrite Hc. rewrite Hty in Ht. by eapply found_target.
  - intros ty t id idv b Ht Hid Hnot Hb. destruct (Hlayout _ _ Ht) as [Ho _].
    rewrite !(layout_find_versions layout _ ty t) by done. rewrite Hid. simpl.
    rewrite (mid_after _ _ _ _ _ (Hmid _ t Ht)) by done.
    destruct (changes !! (ty, idv)) eqn:Hc; [|done]. destruct (Honly (ty, idv)) as (m & Hin & Hs); [by rewrite Hc|].
    destruct Hnot. apply list_elem_of_omap. exists m. by rewrite <- Hperm.
Qed.

(** C5: The modifications of a block are applied to the entity tables so that the
    state of every earlier block stays what it was, and that from the block on
    every entity is what its modification says, as it is stored, or what it was
    before if there is none; the versions of an entity stay disjoint, with
    bounds up to the new block; and the count that is returned is by how much
    the number of entities changed, if what is overwritten exists. *)
Theorem apply_entity_modifications_correct db mods head block db' n :
  db_inv layout head db -> (head < block)%Z -> (block < BLOCK_NUMBER_MAX)%Z ->
  batch mods -> Forall mod_readable mods ->
  apply_entity_modifications site schema layout db mods block = Ok (db', n) ->
  db_inv layout block db' /\
  (forall ty id b, (b < block)%Z -> layout_find layout db' ty id b = layout_find layout db ty id b) /\
  (forall m b, m ∈ mods -> (block <= b <= BLOCK_NUMBER_MAX)%Z ->
     layout_find layout db' (entity_type (mod_entity_key m)) (key_entity_id (mod_entity_key m)) b
       = Ok (mod_view m)) /\
  (forall ty t id idv b, layout !! ty = Some t -> bind_id t id = Ok idv ->
     (ty, idv) ∉ omap mod_slot mods -> (block <= b <= BLOCK_NUMBER_MAX)%Z ->
     layout_find layout db' ty id b = layout_find layout db ty id b) /\
  (Forall (overwrites_exist db) mods -> n = count_query layout db' - count_query layout db)%Z.
Proof.
  intros Hinv Hlt Hm Hbatch Hread Happ. rewrite Forall_forall in Hread.
  destruct (apply_entity_modifications_spec db mods head block db' n) as (Hi & Hbefore & Hn); [done..|].
  destruct (apply_entity_modifications_view db mods head block db' n) as [Hview Hother]; [done..|].
  split_and!; [done|done| |done|done]. intros m b Hin Hb. by apply Hview; [|apply Hread|].
Qed.

(** ** Transactions *)

Context (error_hash : SubgraphError -> string) (tag : Z).
Local Abbreviation Deployment := (Deployment R SV).
Implicit Types (d : Deployment) (ptr : BlockPtr).

Lemma count_query_nonneg db : (0 <= count_query layout db)%Z.
Proof.
  unfold count_query. generalize (map snd (map_to_list layout)). intros tables.
  induction tables as [|t tables IH]; simpl; [done|]. rewrite count_table_live. lia.
Qed.

(** A deployment that is at the block [head]: what it stores, and its entity
    count. *)
Record store_inv head d : Prop := {
  si_db : db_inv layout head (dp_db d);
  si_head : option_map bp_number (dp_latest_block d) = Some head;
  si_dynds : Forall (fun row => (dr_block_number row <= head)%Z) (dp_dynds d);
  si_graft g : dp_graft_block d = Some g -> (g <= head)%Z
}.

Record deployment_inv head d : Prop := {
  di_store : store_inv head d;
  di_count : dp_entity_count d = Some (count_query layout (dp_db d))
}.

(** The count that [entity_count_sql] stores is right if the change is. *)
Lemma entity_count_sql_spec db db' n :
  n = (count_query layout db' - count_query layout db)%Z ->
  (if (n =? 0)%Z then Some (count_query layout db)
   else entity_count_sql layout db' n (Some (count_query layout db))) = Some (count_query layout db').
Proof.
  intros ->. destruct (Z.eqb_spec (count_query layout db' - count_query layout db) 0); [f_equal; lia|].
  unfold entity_count_sql. pose proof (count_query_nonneg db).
  destruct (Z.eqb_spec (count_query layout db) (-1)); [lia|]. f_equal. lia.
Qed.

(** Recording data sources and errors leaves the rest alone. *)
Definition same_store d d' : Prop :=
  dp_db d' = dp_db d /\ dp_latest_block d' = dp_latest_block d /\ dp_entity_count d' = dp_entity_count d /\
  dp_graft_block d' = dp_graft_block d.

Lemma dds_row_block ptr ds row : dds_row ptr ds = Some row -> dr_block_number row = bp_number ptr.
Proof. unfold dds_row. destruct (src_address _); simpl; [|done]. by intros [= <-]. Qed.

Lemma dynds_insert_spec d data_sources ptr d' :
  dynds_insert d data_sources ptr = Ok d' ->
  same_store d d' /\ dp_dynds d' = dp_dynds d ++ omap (dds_row ptr) data_sources /\
  forall ds, ds ∈ data_sources -> is_Some (dds_row ptr ds).
Proof.
  unfold dynds_insert. destruct (try_map _ data_sources) as [dds| |] eqn:Hm; [|done..]. simpl. intros [= <-].
  split; [done|]. simpl. apply try_map_forall2 in Hm. split.
  - f_equal. induction Hm as [|ds row dss rows Hds Hdss IH]; [done|]. rewrite IH. simpl.
    destruct (dds_row ptr ds); [by injection Hds as ->|done].
  - intros ds (row & Hds)%(forall2_elem_l _ _ _ Hm). destruct (dds_row ptr ds); [done|].
    by destruct Hds.
Qed.

Lemma insert_subgraph_errors_spec d errors block d' :
  insert_subgraph_errors error_hash site d errors block = Ok d' ->
  same_store d d' /\ dp_dynds d' = dp_dynds d.
Proof. unfold insert_subgraph_errors. destruct (try_fold _ _ _); simpl; [|done..]. by intros [= <-]. Qed.

Lemma transact_block_spec d ptr cursor n d' :
  transact_block site layout d ptr cursor n = Ok d' ->
  dp_db d' = dp_db d /\ dp_latest_block d' = Some ptr /\ dp_dynds d' = dp_dynds d /\
  dp_graft_block d' = dp_graft_block d /\
  dp_entity_count d' = (if (n =? 0)%Z then dp_entity_count d
                        else entity_count_sql layout (dp_db d) n (dp_entity_count d)) /\
  forall from, dp_latest_block d = Some from -> (bp_number from < bp_number ptr)%Z.
Proof.
  unfold transact_block. destruct (dp_latest_block d) as [from|].
  - destruct (Z.ltb_spec (bp_number from) (bp_number ptr)); [|done]. intros [= <-]. split_and!; try done.
    by intros ? [= <-].
  - by intros [= <-].
Qed.

(** What a transaction that succeeds has done. *)
Lemma transact_inv d ptr cursor mods data_sources errors d' ev :
  transact_block_operations error_hash site schema layout tag d ptr cursor mods data_sources errors
    = Ok (d', ev) ->
  exists db n, apply_entity_modifications site schema layout (dp_db d) mods (bp_number ptr) = Ok (db, n) /\
    dp_db d' = db /\ dp_latest_block d' = Some ptr /\ dp_graft_block d' = dp_graft_block d /\
    dp_dynds d' = dp_dynds d ++ omap (dds_row ptr) data_sources /\
    (forall ds, ds ∈ data_sources -> is_Some (dds_row ptr ds)) /\
    dp_entity_count d' = (if (n =? 0)%Z then dp_entity_count d
                          else entity_count_sql layout db n (dp_entity_count d)) /\
    ev = store_event_from_mods tag mods /\
    forall from, dp_latest_block d = Some from -> (bp_number from < bp_number ptr)%Z.
Proof.
  unfold transact_block_operations. destruct (negb _); [|done].
  destruct (apply_entity_modifications _ _ _ _ _ _) as [[db n]| |]; [|done..]. cbn [bind_result fst snd].
  destruct (dynds_insert _ _ _) as [d1| |] eqn:H1; [|done..]. cbn [bind_result].
  apply dynds_insert_spec in H1 as ((Hdb & Hl & Hc & Hg) & Hdyn & Haddr). simpl in *.
  assert (Hd2 : forall d2, (match errors with
      | [] => Ok d1
      | _ => insert_subgraph_errors error_hash site d1 errors (bp_number ptr)
      end) = Ok d2 -> same_store d1 d2 /\ dp_dynds d2 = dp_dynds d1).
  { intros d2. destruct errors; [by intros [= <-]|]. apply insert_subgraph_errors_spec. }
  destruct (match errors with [] => _ | _ => _ end) as [d2| |]; [|done..].
  destruct (Hd2 d2 eq_refl) as [(Hdb2 & Hl2 & Hc2 & Hg2) Hdyn2]. cbn [bind_result].
  destruct (transact_block _ _ _ _ _ _) as [d3| |] eqn:H3; [|done..]. cbn [bind_result].
  apply transact_block_spec in H3 as (Hdb3 & Hl3 & Hdyn3 & Hg3 & Hc3 & Hfrom). intros [= <- <-].
  exists db, n. rewrite Hl2, Hl in Hfrom. rewrite Hdb2, Hdb, Hc2, Hc in Hc3. split_and!; try done; congruence.
Qed.

Lemma transact_keeps_store head d ptr cursor mods data_sources errors d' ev :
  store_inv head d -> (bp_number ptr < BLOCK_NUMBER_MAX)%Z -> batch mods ->
  transact_block_operations error_hash site schema layout tag d ptr cursor mods data_sources errors
    = Ok (d', ev) ->
  store_inv (bp_number ptr) d' /\ (head < bp_number ptr)%Z.
Proof.
  intros [Hdb Hhead Hdyn Hgraft] Hm Hbatch Htr.
  apply transact_inv in Htr as (db & n & Happ & Hdb' & Hl & Hg & Hdyn' & _ & Hc & _ & Hfrom).
  destruct (dp_latest_block d) as [from|]; [|done]. injection Hhead as Hhead.
  specialize (Hfrom from eq_refl). rewrite Hhead in Hfrom.
  destruct (apply_entity_modifications_spec (dp_db d) mods head (bp_number ptr) db n) as (Hinv & _); [done..|].
  split; [|done]. split; rewrite ?Hdb', ?Hl; [done|done|..].
  - rewrite Hdyn'. apply Forall_app. split; [eapply Forall_impl; [done|]; simpl; lia|].
    apply Forall_forall. by intros row (ds & _ & ->%dds_row_block)%list_elem_of_omap.
  - intros g. rewrite Hg. intros Hgg. specialize (Hgraft g Hgg). lia.
Qed.

Lemma transact_keeps_inv head d ptr cursor mods data_sources errors d' ev :
  deployment_inv head d -> (bp_number ptr < BLOCK_NUMBER_MAX)%Z -> batch mods ->
  Forall (overwrites_exist (dp_db d)) mods ->
  transact_block_operations error_hash site schema layout tag d ptr cursor mods data_sources errors
    = Ok (d', ev) ->
  deployment_inv (bp_number ptr) d' /\ (head < bp_number ptr)%Z /\
  (forall ty id b, (b < bp_number ptr)%Z ->
     layout_find layout (dp_db d') ty id b = layout_find layout (dp_db d) ty id b).
Proof.
  intros [Hst Hcnt] Hm Hbatch Hex Htr.
  destruct (transact_keeps_store head d ptr cursor mods data_sources errors d' ev) as [Hst' Hlt]; [done..|].
  apply transact_inv in Htr as (db & n & Happ & Hdb' & _ & _ & _ & _ & Hc & _).
  destruct (apply_entity_modifications_spec (dp_db d) mods head (bp_number ptr) db n)
    as (_ & Hbefore & Hn); [by destruct Hst|done..|].
  split_and!; [|done|by rewrite Hdb'].
  split; [done|]. rewrite Hc, Hcnt, Hdb'. apply (entity_count_sql_spec (dp_db d) db n). by apply Hn.
Qed.

(** C16: A block that is written keeps the deployment consistent: the block pointer,
    the versions of the entities, the dynamic data sources and the entity count
    agree with the new block, earlier blocks are not affected, only a later
    block than the last one can be written, and the event names the types that
    were changed. *)
Theorem transact_block_operations_correct head d ptr cursor mods data_sources errors d' ev :
  deployment_inv head d -> (bp_number ptr < BLOCK_NUMBER_MAX)%Z -> batch mods ->
  Forall (overwrites_exist (dp_db d)) mods ->
  transact_block_operations error_hash site schema layout tag d ptr cursor mods data_sources errors
    = Ok (d', ev) ->
  deployment_inv (bp_number ptr) d' /\ (head < bp_number ptr)%Z /\ dp_latest_block d' = Some ptr /\
  dp_dynds d' = dp_dynds d ++ omap (dds_row ptr) data_sources /\
  (forall ty id b, (b < bp_number ptr)%Z ->
     layout_find layout (dp_db d') ty id b = layout_find layout (dp_db d) ty id b) /\
  ev = store_event_from_mods tag mods.
Proof.
  intros Hinv Hm Hbatch Hex Htr.
  destruct (transact_keeps_inv head d ptr cursor mods data_sources errors d' ev) as (Hi & Hlt & Hf); [done..|].
  apply transact_inv in Htr as (db & n & _ & _ & Hl & _ & Hdyn & _ & _ & Hev & _). by split_and!.
Qed.

Lemma rewind_spec head d to cursor :
  store_inv head d -> (head < BLOCK_NUMBER_MAX)%Z -> (bp_number to < BLOCK_NUMBER_MAX)%Z ->
  (forall g, dp_graft_block d = Some g -> (g <= bp_number to)%Z) ->
  exists d' ev, rewind_with_conn site layout tag d to cursor = Ok (d', ev) /\
    dp_latest_block d' = Some to /\ dp_graft_block d' = dp_graft_block d /\
    db_inv layout (bp_number to) (dp_db d') /\
    dp_dynds d' = List.filter (fun row => negb (bp_number to + 1 <=? dr_block_number row)%Z) (dp_dynds d) /\
    (forall ty id b, (b <= BLOCK_NUMBER_MAX)%Z ->
       layout_find layout (dp_db d') ty id b = layout_find layout (dp_db d) ty id (Z.min b (bp_number to))) /\
    (head = bp_number to + 1 -> dp_entity_count d = Some (count_query layout (dp_db d)) ->
     dp_entity_count d' = Some (count_query layout (dp_db d')))%Z.
Proof.
  intros [Hdb Hhead Hdyn Hgraft] Hm Hto Hg. unfold rewind_with_conn.
  assert (Hpast : match dp_graft_block d with Some g => (bp_number to <? g)%Z | None => false end = false).
  { destruct (dp_graft_block d) as [g|]; [|done]. apply Z.ltb_ge. by apply Hg. }
  rewrite Hpast. destruct (Z.eqb_spec (bp_number to) i32_max); [unfold BLOCK_NUMBER_MAX in *; lia|].
  destruct (revert_block_spec site tag layout (dp_db d) head (bp_number to + 1))
    as (db' & ev & k & Hrev & Hinv & Hv & Hk); [done..|lia|].
  rewrite Z.add_simpl_r in Hinv, Hv.
  assert (Hfind : forall ty id b, (b <= BLOCK_NUMBER_MAX)%Z ->
       layout_find layout db' ty id b = layout_find layout (dp_db d) ty id (Z.min b (bp_number to))).
  { intros ty id b Hb. apply find_same_versions; [done|]. intros t idv Ht. by apply (Hv ty). }
  destruct cursor as [c|]; cbn [update_firehose_cursor revert_block_ptr dp_db]; rewrite Hrev; cbn [bind_result];
    (eexists _, ev; split; [done|]; unfold update_entity_count; destruct (k =? 0)%Z eqn:Hk0; simpl;
     split_and!; try done; intros Hh Hcnt; rewrite Hcnt;
     pose proof (entity_count_sql_spec (dp_db d) db' k (Hk Hh)) as Hsql; by rewrite Hk0 in Hsql).
Qed.

(** C6: A block that was written and is then reverted to the block before it leaves
    the deployment as it was: the block pointer, the dynamic data sources, every
    entity at every block; and the entity count is the number of entities. *)
Theorem transact_then_revert head d from ptr cursor cursor' mods data_sources errors d' ev :
  deployment_inv head d -> dp_latest_block d = Some from -> bp_number ptr = (head + 1)%Z ->
  (bp_number ptr < BLOCK_NUMBER_MAX)%Z -> batch mods -> Forall (overwrites_exist (dp_db d)) mods ->
  transact_block_operations error_hash site schema layout tag d ptr cursor mods data_sources errors
    = Ok (d', ev) ->
  exists d'' ev', revert_block_operations site layout tag d' from cursor' = Ok (d'', ev') /\
    deployment_inv head d'' /\ dp_latest_block d'' = Some from /\ dp_dynds d'' = dp_dynds d /\
    (forall ty id b, (b <= BLOCK_NUMBER_MAX)%Z ->
       layout_find layout (dp_db d'') ty id b = layout_find layout (dp_db d) ty id b).
Proof.
  intros Hinv Hfrom Hptr Hm Hbatch Hex Htr.
  destruct (transact_keeps_inv head d ptr cursor mods data_sources errors d' ev) as (Hall & _ & Hbefore); [done..|].
  apply transact_inv in Htr as (db & n & _ & _ & Hl & Hg & Hdyn' & _). pose proof Hinv as [[Hdb Hhead Hdyn Hgraft] _].
  rewrite Hfrom in Hhead. injection Hhead as Hhead.
  destruct (rewind_spec (bp_number ptr) d' from cursor') as (d'' & ev' & Hrew & Hl'' & Hg'' & Hi'' & Hdyn'' & Hf'' & Hc'');
    [by destruct Hall|lia|lia|rewrite Hg, Hhead; exact Hgraft|].
  exists d'', ev'. unfold revert_block_operations. rewrite Hl. cbn [expect bind_result].
  rewrite (proj2 (Z.leb_gt (bp_number ptr) (bp_number from))) by lia.
  assert (Hdd : dp_dynds d'' = dp_dynds d).
  { rewrite Hdyn'', Hdyn', List.filter_app. rewrite (filter_none _ (omap _ data_sources)).
    - rewrite app_nil_r. rewrite (filter_same _ (fun _ => true)); [apply filter_all|].
      intros row Hin. rewrite Forall_forall in Hdyn. specialize (Hdyn row Hin). simpl in Hdyn.
      apply negb_true_iff, Z.leb_gt. lia.
    - intros row (ds & _ & Hrow%dds_row_block)%list_elem_of_omap. apply negb_false_iff, Z.leb_le. lia. }
  split; [done|]. split_and!; [|done|done|].
  - split; [split; rewrite ?Hl'', ?Hdd, ?Hg'', ?Hg; [by rewrite <- Hhead|simpl; by rewrite Hhead|done..]|].
    apply Hc''; [lia|by destruct Hall].
  - intros ty id b Hb. rewrite Hf'' by done. rewrite Hbefore by lia.
    destruct (decide (b <= head)%Z).
    + by rewrite Z.min_l by lia.
    + rewrite Z.min_r by lia. rewrite Hhead. symmetry. apply (find_after_head layout (dp_db d) head); [done|done|lia|lia].
Qed.

End DeploymentProps.
