(* ===== verification/ApplyTotal.v ===== *)
(** * Applying modifications succeeds

    The other half of the correctness of [apply_entity_modifications]: where the
    entities can be stored, no inserted entity exists and no id is shared with
    another type of an interface, none of the checks and constraints of the
    statements fails. *)

From S2P Require Import Prelude GraphqlAst Scalars RuntimeValue Values StoreTypes Schema BlockRange.
From S2P Require Import Relational VersionProps RowProps RevertProps LayoutProps DeploymentStore DeploymentProps.

Section ApplyTotal.
Context `{HX : !Hex} {R : Type} `{HR : !Int4Range R} `{HL : !Int4RangeLaws R}
  {SV : Type} `{HP : !PgValues SV}.
Local Abbreviation Row := (Row R SV).
Local Abbreviation Db := (Db R SV).
Implicit Types (t : Table) (r : Row) (rows : list Row) (block head b : Z) (db : Db)
  (ty : EntityType) (m : EntityModification) (ps ms mods : list EntityModification).

(** ** Insert statements *)

Definition not_null (c : Column) : bool := is_primary_key c || negb (is_nullable c).

(** The values of the entity can be stored in the columns of the table. *)
Definition storable t (p : EntityKey * Entity) : Prop :=
  exists e, prepare_entity t p = Ok e /\
    forall c, c ∈ tb_columns t ->
      match e !! col_field c with
      | Some v => exists s, query_value (SV:=SV) (col_column_type c) v = Ok s /\
          (not_null c = true -> s <> sql_null)
      | None => not_null c = false
      end.

Lemma bind_columns_total t e d0 l :
  (forall n c, (n, c) ∈ l -> c ∈ tb_columns t) ->
  (forall c v, c ∈ tb_columns t -> e !! col_field c = Some v ->
     exists s, query_value (SV:=SV) (col_column_type c) v = Ok s) ->
  exists d, try_fold (bind_column e) d0 l = Ok d.
Proof.
  intros Hl Hv. revert d0. induction l as [|[n c] l IH]; intros d0; cbn [try_fold]; [eauto|].
  assert (Hstep : exists d1, bind_column e d0 (n, c) = Ok d1).
  { unfold bind_column, entity_get. simpl. destruct (e !! col_field c) as [v|] eqn:He; [|eauto].
    destruct (Hv c v) as [s ->]; [apply (Hl n c); by left|done|]. simpl. eauto. }
  destruct Hstep as [d1 ->]. cbn [bind_result]. apply IH. intros n' c' Hin. apply (Hl n' c'). by right.
Qed.

Lemma insert_row_total t es block p e :
  table_ok t -> e ∈ es -> prepare_entity t p = Ok e -> storable t p ->
  exists r, insert_row (R:=R) t (unique_columns t es) block e = Ok r.
Proof.
  intros Ht He Hp (e' & Hp' & Hcols). rewrite Hp in Hp'. injection Hp' as <-.
  destruct (bind_columns_total t e ∅ (map_to_list (unique_columns t es))) as [d Hd].
  { intros n c Hin%elem_of_map_to_list. by apply (proj1 (unique_columns_spec t es) n). }
  { intros c v Hc Hv. specialize (Hcols c Hc). rewrite Hv in Hcols. destruct Hcols as (s & Hs & _). eauto. }
  unfold insert_row. rewrite Hd. cbn [bind_result].
  assert (Hbr : exists br, literal_range_current (R:=R) (tb_immutable t) block = Ok br).
  { destruct (tb_immutable t); [by eexists|]. destruct (literal_version (R:=R) block) as (br & Hbr & _). eauto. }
  destruct Hbr as [br ->]. cbn [sql map_err bind_result].
  assert (Hnn : check_not_null t (mkRow d br) = Ok tt); [|rewrite Hnn; simpl; eauto].
  apply try_iter_ok, Forall_forall. intros c Hc. fold (not_null c).
  destruct (bind_columns_stores t es e d Ht He Hd) as [Hst _]. specialize (Hst c Hc). specialize (Hcols c Hc).
  unfold row_value. cbn [row_data]. destruct (e !! col_field c) as [v|].
  - destruct Hst as (s & Hs & ->), Hcols as (s' & Hs' & Hnull). rewrite Hs in Hs'. injection Hs' as <-. simpl.
    destruct (not_null c); [|done]. by rewrite bool_decide_false by auto.
  - by rewrite Hcols.
Qed.

(** The entity can be stored, in a row with the given primary key. *)
Definition storable_at t block (p : EntityKey * Entity) (id : SV) : Prop :=
  storable t p /\ forall r, inserted t block p r -> row_id r = id.

Lemma inserted_ids t block es ids new :
  Forall2 (storable_at t block) es ids -> Forall2 (inserted t block) es new -> map row_id new = ids.
Proof.
  intros Hes. revert new. induction Hes as [|p id es ids [_ Hp] Hes IH]; intros new Hnew;
    inversion Hnew as [|? r ? new' Hr Hnew']; subst; [done|]. simpl. by rewrite (Hp r), (IH new').
Qed.

Lemma new_separate t block new :
  Forall (new_row t block) new -> NoDup (map row_id new) -> ForallOrdPairs (separate t) new.
Proof.
  induction 1 as [|n new Hn Hnew IH]; simpl; [constructor|]. intros [Hnot Hnd]%NoDup_cons.
  constructor; [|by apply IH]. apply Forall_forall. intros r Hr. unfold separate, conflicting, sql_eq.
  fold (row_id n) (row_id r). rewrite bool_decide_false; [done|]. intros Heq. apply Hnot. rewrite Heq.
  by apply list_elem_of_fmap_2.
Qed.

Lemma unseen_row t block rows id r :
  table_inv t block rows -> versions_at t rows id block = [] -> r ∈ rows -> row_id r = id ->
  row_contains t block r = false.
Proof.
  intros [Hrows _] Hfree Hr <-. unfold versions_at in Hfree. apply map_eq_nil in Hfree.
  destruct (row_contains t block r) eqn:Hc; [|done].
  assert (Hin : r ∈ List.filter (fun r' => row_has_id (row_id r) r' && row_contains t block r') rows);
    [|rewrite Hfree in Hin; by apply not_elem_of_nil in Hin].
  apply list_elem_of_In, filter_In. rewrite <- list_elem_of_In. split; [done|].
  rewrite Forall_forall in Hrows. rewrite row_has_id_spec by apply (Hrows r Hr).
  by rewrite Hc, bool_decide_true.
Qed.

Lemma added_inv t block rows new :
  table_inv t block rows -> Forall (new_row t block) new -> (block < BLOCK_NUMBER_MAX)%Z ->
  NoDup (map row_id new) -> (forall id, id ∈ map row_id new -> versions_at t rows id block = []) ->
  table_inv t block (rows ++ new).
Proof.
  intros Hinv Hnew Hm Hnd Hfree. pose proof Hinv as [Hrows Hsep]. split.
  - apply Forall_app. split; [done|]. eapply Forall_impl; [done|]. apply new_row_ok.
  - apply ord_pairs_app_2; [done|by apply (new_separate t block)|]. rewrite Forall_forall in Hnew, Hrows.
    apply Forall_forall. intros r Hr. apply Forall_forall. intros n Hn.
    apply (separate_unseen t block); [by apply Hrows|by apply Hnew|done|].
    apply (unseen_row t block rows); [done| |done]. by apply Hfree, list_elem_of_fmap_2.
Qed.

Lemma insert_rows_total t block es ids :
  table_ok t -> Forall2 (storable_at t block) es ids ->
  exists prep new, try_map (prepare_entity t) es = Ok prep /\
    try_map (insert_row (R:=R) t (unique_columns t prep) block) prep = Ok new /\
    Forall (new_row t block) new /\ map row_id new = ids.
Proof.
  intros Ht Hes. destruct (try_map_total (prepare_entity t) es) as [prep Hprep].
  { intros p Hp. destruct (forall2_elem_l _ _ _ Hes p Hp) as (id & _ & (e & He & _) & _). eauto. }
  destruct (try_map_total (insert_row (R:=R) (SV:=SV) t (unique_columns t prep) block) prep) as [new Hnew].
  { intros e He. destruct (forall2_elem_r _ _ _ (try_map_forall2 _ _ _ Hprep) e He) as (p & Hp & Hpe).
    destruct (forall2_elem_l _ _ _ Hes p Hp) as (id & _ & Hst & _). by eapply insert_row_total. }
  exists prep, new. do 2 (split; [done|]).
  apply try_map_forall2 in Hprep. apply try_map_forall2 in Hnew.
  eapply forall2_impl_in in Hnew; [|intros e r Hin Hr; exact (insert_row_spec t prep block e r Ht Hin Hr)].
  assert (Hins : Forall2 (inserted t block) es new).
  { clear Hes. revert new Hnew. induction Hprep as [|p e es prep Hp _ IH]; intros new Hall;
      inversion Hall as [|? r ? new' [? ?] Hall']; subst; constructor; [|by apply IH].
    split; [done|]. by exists e. }
  split; [|by eapply inserted_ids]. apply Forall_forall. intros r Hr.
  by destruct (forall2_elem_r _ _ _ Hins r Hr) as (p & _ & Hp & _).
Qed.

Lemma insert_query_total t block rows es ids :
  table_ok t -> table_inv t block rows -> (block < BLOCK_NUMBER_MAX)%Z ->
  Forall2 (storable_at t block) es ids -> NoDup ids ->
  (forall id, id ∈ ids -> versions_at t rows id block = []) ->
  exists new, insert_query t block rows es = Ok (rows ++ new) /\ map row_id new = ids /\
    table_inv t block (rows ++ new).
Proof.
  intros Ht Hinv Hm Hes Hnd Hfree.
  destruct (insert_rows_total t block es ids Ht Hes) as (prep & new & Hprep & Hnew & Hall & <-).
  pose proof (added_inv t block rows new Hinv Hall Hm Hnd Hfree) as Hinv'. exists new. split_and!; [|done..].
  unfold insert_query. rewrite Hprep. cbn [bind_result]. rewrite Hnew. cbn [bind_result].
  apply check_constraint_inv. split; [done|]. apply Hinv'.
Qed.

Lemma versions_none t block rows new id :
  table_inv t block (rows ++ new) -> versions_at t rows id block = [] -> id ∉ map row_id new ->
  versions_at t (rows ++ new) id block = [].
Proof.
  intros [Hrows _] Hfree Hnot. rewrite versions_at_app, Hfree. simpl. unfold versions_at.
  rewrite filter_none; [done|]. intros r Hr. apply Forall_app in Hrows as [_ Hrows]. rewrite Forall_forall in Hrows.
  rewrite row_has_id_spec by apply (Hrows r Hr). rewrite bool_decide_false; [done|]. intros <-.
  by apply Hnot, list_elem_of_fmap_2.
Qed.

Lemma insert_chunks_total t block rows es ids :
  table_ok t -> table_inv t block rows -> (block < BLOCK_NUMBER_MAX)%Z ->
  Forall2 (storable_at t block) es ids -> NoDup ids ->
  (forall id, id ∈ ids -> versions_at t rows id block = []) ->
  exists st, insert_chunks t block rows es = Ok st.
Proof.
  intros Ht Hinv Hm Hes Hnd Hfree. unfold insert_chunks.
  destruct (chunks_ok (E:=StoreError) (POSTGRES_MAX_PARAMETERS / (length (tb_columns t) + 1)) es)
    as (cs & Hcs & Hcat).
  { apply Nat.div_str_pos. pose proof (to_chunk t Ht). lia. }
  rewrite Hcs. cbn [bind_result]. rewrite <- Hcat in Hes. clear Hcs Hcat es.
  generalize 0%nat as k. revert rows ids Hinv Hes Hnd Hfree.
  induction cs as [|c cs IH]; intros rows ids Hinv Hes Hnd Hfree k; cbn [try_fold]; [eauto|].
  cbn [concat] in Hes. apply Forall2_app_inv_l in Hes as (ids1 & ids2 & H1 & H2 & ->).
  apply NoDup_app in Hnd as (Hnd1 & Hdisj & Hnd2).
  destruct (insert_query_total t block rows c ids1) as (new & Hq & Hids & Hinv'); [done..| |].
  { intros id Hin. apply Hfree, elem_of_app. by left. }
  cbn [fst snd]. rewrite Hq. cbn [bind_result]. apply (IH _ ids2); [done..|].
  intros id Hin. apply versions_none; [done|apply Hfree, elem_of_app; by right|].
  rewrite Hids. intros Hin'. by apply (Hdisj id).
Qed.

(** ** Groups of modifications *)

Context (site : DeploymentHash) (schema : Schema) (layout : Layout) (Hlayout : layout_ok layout).
Local Abbreviation mod_slot := (mod_slot (SV:=SV) layout).
Local Abbreviation progress := (progress (R:=R) (SV:=SV) layout).
Local Abbreviation id_agrees := (id_agrees (SV:=SV) layout).

(** No other type of an interface of the entity has an entity with its id, nor
    gets one. *)
Definition unshared db mods (key : EntityKey) : Prop :=
  exists types, types_with_shared_interface schema (entity_type key) = Ok types /\
    forall ty, ty ∈ types -> exists t idv, layout !! ty = Some t /\
      bind_id t (key_entity_id key) = Ok idv /\
      idv ∉ map row_id (table_rows db t) /\ (ty, idv) ∉ omap mod_slot mods.

(** A modification that can be applied as one of [mods]. *)
Definition acceptable db mods m : Prop :=
  match m with
  | ModInsert key data =>
      (exists t, layout !! entity_type key = Some t /\ storable t (key, data)) /\
      layout_find layout db (entity_type key) (key_entity_id key) BLOCK_NUMBER_MAX = Ok None /\
      unshared db mods key
  | ModOverwrite key data =>
      (exists t, layout !! entity_type key = Some t /\ tb_immutable t = false /\ storable t (key, data)) /\
      unshared db mods key
  | ModRemove key =>
      exists t idv, layout !! entity_type key = Some t /\ tb_immutable t = false /\
        bind_id (SV:=SV) t (key_entity_id key) = Ok idv
  end.

Lemma conflicting_entity_none db id types :
  (forall ty, ty ∈ types -> exists t idv, layout !! ty = Some t /\ bind_id t id = Ok idv /\
     List.filter (row_has_id idv) (table_rows db t) = []) ->
  conflicting_entity layout db id types = Ok None.
Proof.
  intros Hall. unfold conflicting_entity.
  set (f := fun t => let? idv := bind_id t id in
    Ok (map (fun _ => tb_object t) (List.filter (row_has_id idv) (table_rows db t)))).
  assert (Hmap : exists tables, try_map (table_for_entity layout) types = Ok tables /\
    try_map f tables = Ok (map (fun _ => []) tables)).
  { induction types as [|ty types IH]; [by exists []|].
    destruct IH as (tables & H1 & H2); [intros ty' Hin; apply Hall; by right|].
    destruct (Hall ty) as (t & idv & Ht & Hid & Hnone); [by left|].
    assert (Htab : table_for_entity layout ty = Ok t) by (unfold table_for_entity; by rewrite Ht).
    exists (t :: tables). cbn [try_map map]. rewrite Htab. cbn [bind_result]. rewrite H1. cbn [bind_result]. split; [done|].
    assert (Hf : f t = Ok []) by (unfold f; rewrite Hid; simpl; by rewrite Hnone).
    rewrite Hf. cbn [bind_result]. by rewrite H2. }
  destruct Hmap as (tables & -> & H2). cbn [bind_result]. rewrite H2. cbn [bind_result].
  clear H2. by induction tables.
Qed.

Lemma unique_total block db0 ps mods db key :
  progress block db0 ps db -> ps ⊆ mods -> subgraph_id key = site -> unshared db0 mods key ->
  check_interface_entity_uniqueness site schema layout db key = Ok tt.
Proof.
  intros (changes & Hmid & _ & Honly) Hps Hsite (types & Htypes & Hall).
  unfold check_interface_entity_uniqueness. rewrite bool_decide_true by done. simpl. rewrite Htypes.
  cbn [bind_result]. rewrite conflicting_entity_none; [by destruct types|].
  intros ty Hin. destruct (Hall ty Hin) as (t & idv & Ht & Hid & Hrows & Hmods). exists t, idv.
  split_and!; [done..|]. apply filter_none. intros r Hr. pose proof (Hmid ty t Ht) as Hm.
  pose proof (ti_rows _ _ _ (mid_inv _ _ _ _ _ Hm)) as Hok. rewrite Forall_forall in Hok.
  rewrite row_has_id_spec by apply (Hok r Hr). apply bool_decide_eq_false. intros <-.
  destruct (mid_ids _ _ _ _ _ Hm r Hr) as [|Hs]; [done|].
  destruct (Honly _ Hs) as (m & Hin' & Hslot). apply Hmods, list_elem_of_omap. eauto.
Qed.

Lemma unique_all_total ins block db0 ps mods db (es : list (EntityKey * Entity)) :
  progress block db0 ps db -> ps ⊆ mods ->
  Forall (fun p => subgraph_id p.1 = site /\ acceptable db0 mods (write_mod ins p)) es ->
  try_iter (fun p => check_interface_entity_uniqueness site schema layout db p.1) es = Ok tt.
Proof.
  intros Hp Hps Hes. apply try_iter_ok. eapply Forall_impl; [done|]. simpl. intros p [Hsite Hacc].
  eapply unique_total; [done..|]. destruct ins; simpl in Hacc; tauto.
Qed.

(** The rows that are inserted for the entities of a group. *)
Lemma group_storable ins block ty t (es : list (EntityKey * Entity)) :
  layout !! ty = Some t ->
  Forall (fun p => entity_type p.1 = ty /\ id_agrees (write_mod ins p)) es -> Forall (storable t) es ->
  exists ids, bind_ids t (map (fun p => key_entity_id p.1) es) = Ok ids /\
    Forall2 (storable_at t block) es ids.
Proof.
  intros Ht Hes Hst. destruct (Hlayout _ _ Ht) as [_ Htok].
  induction Hst as [|p es Hp Hst IH]; [by exists []|].
  apply Forall_cons in Hes as [[Hty Hid] Hes]. destruct (IH Hes) as (ids & Hids & Hall).
  assert (Hbind : exists id, bind_id t (key_entity_id p.1) = Ok id).
  { destruct Hp as (e & Hprep & Hcols). destruct (to_has_key t Htok) as (pk & Hpk & Hname & _).
    specialize (Hcols pk Hpk). rewrite (to_primary_key t Htok pk Hpk Hname), (prepare_id t p e) in Hcols by done.
    assert (Hagree : exists v, p.2 !! "id" = Some v /\
      query_value (SV:=SV) (col_column_type pk) v = bind_id t (key_entity_id p.1))
      by (destruct p, ins; apply (Hid t pk); by rewrite ?Hty).
    destruct Hagree as (v & Hv & Hq). rewrite Hv in Hcols. destruct Hcols as (s & Hs & _).
    exists s. congruence. }
  destruct Hbind as [id Hbind]. exists (id :: ids). split.
  - unfold bind_ids in *. cbn [map try_map]. rewrite Hbind. cbn [bind_result]. by rewrite Hids.
  - constructor; [|done]. split; [done|]. intros r Hr.
    destruct (inserted_slot layout Hlayout ins block ty t p r) as [Hslot _]; [done..|].
    assert (Hkey : mod_entity_key (write_mod ins p) = p.1) by (by destruct ins).
    unfold DeploymentProps.mod_slot in Hslot. rewrite Hkey, Hty, Ht in Hslot. simpl in Hslot. rewrite Hbind in Hslot.
    simpl in Hslot. by injection Hslot.
Qed.

Lemma push_group_nonempty {A} (m : gmap EntityType (list A)) ty x :
  map_Forall (fun _ l => l <> []) m -> map_Forall (fun _ l => l <> []) (push_group m ty x).
Proof. intros Hm. apply map_Forall_insert_2; [|done]. by destruct (default [] (m !! ty)). Qed.

Lemma group_mods_nonempty mods :
  map_Forall (fun _ l => l <> []) (g_inserts (group_mods mods)) /\
  map_Forall (fun _ l => l <> []) (g_overwrites (group_mods mods)) /\
  map_Forall (fun _ l => l <> []) (g_removals (group_mods mods)).
Proof.
  unfold group_mods. induction mods as [|m mods IH] using rev_ind; [split_and!; apply map_Forall_empty|].
  rewrite foldl_app. simpl. destruct IH as (Hi & Ho & Hr).
  destruct m; simpl; split_and!; try done; by apply push_group_nonempty.
Qed.

Section Groups.
Context (head block : Z) (db0 : Db) (mods : list EntityModification).
Context (Hinv : db_inv layout head db0) (Hhead : (head < block)%Z) (Hmax : (block < BLOCK_NUMBER_MAX)%Z).

(** The entities of a group of inserts or overwrites. *)
Definition write_group (ins : bool) ty (es : list (EntityKey * Entity)) : Prop :=
  es <> [] /\ Forall (fun p => entity_type p.1 = ty /\ id_agrees (write_mod ins p)) es /\
  Forall (fun p => subgraph_id p.1 = site /\ acceptable db0 mods (write_mod ins p)) es.

Lemma write_group_table ins ty es :
  write_group ins ty es -> exists t, layout !! ty = Some t /\ Forall (storable t) es /\
    (ins = false -> tb_immutable t = false).
Proof.
  intros (Hne & Hty & Hacc).
  assert (Hall : Forall (fun p => exists t, layout !! ty = Some t /\ storable t p /\
    (ins = false -> tb_immutable t = false)) es).
  { rewrite Forall_forall in Hty, Hacc |- *. intros [key data] Hp. destruct (Hty _ Hp) as [<- _].
    destruct (Hacc _ Hp) as [_ Ha]. destruct ins; simpl in Ha.
    - destruct Ha as [(t & Ht & Hst) _]. exists t. by split_and!.
    - destruct Ha as [(t & Ht & Him & Hst) _]. exists t. by split_and!. }
  destruct es as [|p es]; [done|]. pose proof (Forall_inv Hall) as (t & Ht & _ & Him). exists t. split_and!; [done| |done].
  eapply Forall_impl; [exact Hall|]. intros q (t' & Ht' & Hq & _). rewrite Ht in Ht'. by injection Ht' as <-.
Qed.

Lemma types_of_group ins ty es : write_group ins ty es -> Forall (fun p => entity_type p.1 = ty) es.
Proof. intros (_ & Hty & _). eapply Forall_impl; [done|]. by intros ? [? _]. Qed.

Lemma group_ids_nodup ins ty t es ids ps :
  layout !! ty = Some t -> Forall (fun p => entity_type p.1 = ty) es ->
  bind_ids (SV:=SV) t (map (fun p => key_entity_id p.1) es) = Ok ids ->
  NoDup (omap mod_slot (ps ++ map (write_mod ins) es)) -> NoDup ids.
Proof.
  intros Ht Hty Hids Hnd. rewrite omap_app in Hnd. apply NoDup_app in Hnd as (_ & _ & Hnd).
  rewrite (bind_ids_slots layout ins ty t es ids) in Hnd by done. by apply (NoDup_fmap_1 (pair ty)).
Qed.

(** An entity that is inserted has no version that the block sees. *)
Lemma insert_unseen ps db changes ty t es ids id :
  mid_db layout block db0 changes db -> logged layout ps changes -> layout !! ty = Some t ->
  write_group true ty es -> NoDup (omap mod_slot (ps ++ map (write_mod true) es)) ->
  bind_ids t (map (fun p => key_entity_id p.1) es) = Ok ids -> id ∈ ids ->
  versions_at t (table_rows db t) id block = [].
Proof.
  intros Hmid Hlog Ht Hg Hnd Hids Hin. rewrite (mid_after _ _ _ _ _ (Hmid ty t Ht)) by lia.
  rewrite (logged_free layout ps changes (map (write_mod true) es) (ty, id)); [|done..|].
  2:{ rewrite (bind_ids_slots layout true ty t es ids); [|done|by eapply types_of_group|done].
      by apply list_elem_of_fmap_2. }
  apply try_map_forall2 in Hids. destruct (forall2_elem_r _ _ _ Hids id Hin) as (kid & Hk & Hb).
  apply list_elem_of_fmap in Hk as ([key data] & -> & Hp). destruct Hg as (_ & Hty & Hacc).
  rewrite Forall_forall in Hty, Hacc. destruct (Hty _ Hp) as [<- _].
  destruct (Hacc _ Hp) as [_ Ha]. simpl in *. destruct Ha as (_ & Hfind & _).
  rewrite (find_after_head layout db0 head) in Hfind by (done || lia).
  rewrite (layout_find_versions layout db0 _ t) in Hfind by (try done; by apply (Hlayout _ _ Ht)).
  rewrite Hb in Hfind. simpl in Hfind.
  rewrite (versions_after_head t head) by (try done; try lia; by apply (Hinv (entity_type key))).
  unfold found in Hfind. destruct (versions_at _ _ _ _) as [|d ds]; [done|].
  by destruct (deserialize_with_layout _ _ _).
Qed.

Lemma insert_entities_total ps db ty es :
  progress block db0 ps db -> ps ⊆ mods -> write_group true ty es ->
  NoDup (omap mod_slot (ps ++ map (write_mod true) es)) ->
  exists st, insert_entities site schema layout block db (ty, es) = Ok st.
Proof.
  intros Hp Hps Hg Hnd. destruct (write_group_table _ _ _ Hg) as (t & Ht & Hst & _).
  destruct (group_storable true block ty t es) as (ids & Hids & Hall); [done|apply Hg|done|].
  unfold insert_entities. cbn [fst snd]. rewrite (unique_all_total true block db0 ps mods) by (try done; apply Hg).
  cbn [bind_result]. unfold layout_insert, table_for_entity. rewrite Ht. cbn [ok_or bind_result].
  destruct Hp as (changes & Hmid & Hlog).
  destruct (insert_chunks_total t block (table_rows db t) es ids) as [st ->];
    [apply (Hlayout _ _ Ht)|apply (Hmid ty t Ht)|done|done| | |simpl; eauto].
  - eapply group_ids_nodup; [done|by eapply types_of_group|done..].
  - intros id Hin. by eapply insert_unseen.
Qed.

Lemma overwrite_entities_total ps db ty es :
  progress block db0 ps db -> ps ⊆ mods -> write_group false ty es ->
  NoDup (omap mod_slot (ps ++ map (write_mod false) es)) ->
  exists st, overwrite_entities site schema layout block db (ty, es) = Ok st.
Proof.
  intros Hp Hps Hg Hnd. destruct (write_group_table _ _ _ Hg) as (t & Ht & Hst & Him). specialize (Him eq_refl).
  destruct (group_storable false block ty t es) as (ids & Hids & Hall); [done|apply Hg|done|].
  unfold overwrite_entities. cbn [fst snd]. rewrite (unique_all_total false block db0 ps mods) by (try done; apply Hg).
  cbn [bind_result]. unfold layout_update, table_for_entity. rewrite Ht. cbn [ok_or bind_result]. rewrite Him.
  destruct Hp as (changes & Hmid & Hlog).
  assert (Hfree : forall id, id ∈ ids -> changes !! (ty, id) = None).
  { intros id Hin. eapply logged_free; [done..|].
    rewrite (bind_ids_slots layout false ty t es ids); [|done|by eapply types_of_group|done].
    by apply list_elem_of_fmap_2. }
  destruct (clamp_mid t block (table_rows db0 t) (fun id => changes !! (ty, id)) (table_rows db t)
    (map (fun p => key_entity_id p.1) es) ids) as (rows1 & Hcl & _ & Hmid1); [by apply (Hmid ty)|done..|].
  rewrite Hcl. cbn [bind_result fst].
  destruct (insert_chunks_total t block rows1 es ids) as [st ->];
    [apply (Hlayout _ _ Ht)|apply Hmid1|done|done| | |simpl; eauto].
  - eapply group_ids_nodup; [done|by eapply types_of_group|done..].
  - intros id Hin. rewrite (mid_after _ _ _ _ _ Hmid1) by lia. by rewrite bool_decide_true.
Qed.

Lemma clamp_chunks_total ty t cs ps db k :
  progress block db0 ps db -> layout !! ty = Some t -> tb_immutable t = false ->
  Forall (fun id => exists idv, bind_id (SV:=SV) t id = Ok idv) (concat cs) ->
  NoDup (omap mod_slot (ps ++ map (remove_mod site ty) (concat cs))) ->
  exists st, try_fold (fun st chunk =>
      let? st' := clamp_range_query t chunk block st.1 in Ok (st'.1, (st.2 + st'.2)%nat))
    (table_rows db t, k) cs = Ok st.
Proof.
  intros Hp Ht Him. revert ps db k Hp. induction cs as [|c cs IH]; intros ps db k Hp Hids Hnd; cbn [try_fold]; [eauto|].
  cbn [concat] in Hids, Hnd. apply Forall_app in Hids as [Hc Hids]. rewrite map_app, app_assoc in Hnd.
  assert (Hnd1 : NoDup (omap mod_slot (ps ++ map (remove_mod site ty) c)))
    by (rewrite omap_app in Hnd; by apply NoDup_app in Hnd as [? _]).
  destruct (try_map_total (bind_id (SV:=SV) t) c) as [idvs Hidvs].
  { rewrite Forall_forall in Hc. intros id Hin. by apply Hc. }
  destruct Hp as (changes & Hmid & Hlog).
  assert (Hfree : forall id, id ∈ idvs -> changes !! (ty, id) = None).
  { intros id Hin. eapply logged_free; [done..|]. erewrite remove_slots by done. by apply list_elem_of_fmap_2. }
  destruct (clamp_mid t block (table_rows db0 t) (fun id => changes !! (ty, id)) (table_rows db t) c idvs)
    as (rows1 & Hcl & _ & _); [by apply (Hmid ty)|done..|].
  cbn [fst snd]. rewrite Hcl. cbn [bind_result fst snd].
  eapply mid_db_clamp in Hcl as (_ & _ & Hmid1); [|done..].
  rewrite <- (table_rows_with db t rows1). eapply IH; [|done|exact Hnd].
  exists (del_ids ty changes idvs). split; [done|]. by eapply logged_remove.
Qed.

Definition remove_group ty (ids : list string) : Prop :=
  ids <> [] /\ Forall (fun id => acceptable db0 mods (remove_mod site ty id)) ids.

Lemma remove_entities_total ps db ty ids :
  progress block db0 ps db -> remove_group ty ids ->
  NoDup (omap mod_slot (ps ++ map (remove_mod site ty) ids)) ->
  exists st, remove_entities layout block db (ty, ids) = Ok st.
Proof.
  intros Hp [Hne Hacc] Hnd. simpl in Hacc.
  assert (Ht : exists t, layout !! ty = Some t /\ tb_immutable t = false /\
    Forall (fun id => exists idv, bind_id (SV:=SV) t id = Ok idv) ids).
  { destruct ids as [|id ids]; [done|]. pose proof (Forall_inv Hacc) as (t & _ & Ht & Him & _). exists t.
    split_and!; [done..|]. eapply Forall_impl; [exact Hacc|]. intros id' (t' & idv & Ht' & _ & Hid).
    exists idv. congruence. }
  destruct Ht as (t & Ht & Him & Hids). unfold remove_entities, layout_delete, table_for_entity. cbn [fst snd].
  rewrite Ht. cbn [ok_or bind_result]. rewrite Him.
  destruct (chunks_ok (E:=StoreError) DELETE_OPERATION_CHUNK_SIZE ids) as (cs & -> & Hcat).
  { unfold DELETE_OPERATION_CHUNK_SIZE. lia. }
  rewrite <- Hcat in Hids, Hnd. cbn [bind_result].
  destruct (clamp_chunks_total ty t cs ps db 0) as [st ->]; [done..|]. simpl. eauto.
Qed.

Lemma apply_groups_total {A} (mk : EntityType -> A -> EntityModification)
    (f : Db -> EntityType * list A -> result StoreError (Db * nat)) sign groups ps db z :
  (forall ps db g, progress block db0 ps db -> ps ⊆ mods -> g ∈ groups ->
     NoDup (omap mod_slot (ps ++ map (mk g.1) g.2)) -> exists st, f db g = Ok st) ->
  (forall ps db g db' n, progress block db0 ps db -> g ∈ groups ->
     NoDup (omap mod_slot (ps ++ map (mk g.1) g.2)) -> f db g = Ok (db', n) ->
     progress block db0 (ps ++ map (mk g.1) g.2) db') ->
  progress block db0 ps db -> ps ++ group_list mk groups ⊆ mods ->
  NoDup (omap mod_slot (ps ++ group_list mk groups)) ->
  exists db' z', apply_groups f sign (db, z) groups = Ok (db', z') /\
    progress block db0 (ps ++ group_list mk groups) db'.
Proof.
  unfold apply_groups, group_list. revert ps db z.
  induction groups as [|g groups IH]; intros ps db z Htot Hstep Hp Hsub Hnd; cbn [try_fold map concat].
  - rewrite app_nil_r. eauto.
  - cbn [map concat] in Hsub, Hnd. rewrite app_assoc in Hsub, Hnd |- *.
    assert (Hnd1 : NoDup (omap mod_slot (ps ++ map (mk g.1) g.2)))
      by (rewrite omap_app in Hnd; by apply NoDup_app in Hnd as [? _]).
    destruct (Htot ps db g) as [[db1 n1] Hf]; [done|set_solver|by left|done|].
    cbn [fst snd]. rewrite Hf. cbn [bind_result fst snd].
    apply IH; [..|by eapply Hstep; [|left|..]|done|done].
    + intros ps' db' g' Hp' Hps' Hin. apply Htot; [done..|by right].
    + intros ps' db' g' db'' n Hp' Hin. apply Hstep; [done|by right].
Qed.

Definition good_mod m : Prop :=
  id_agrees m /\ subgraph_id (mod_entity_key m) = site /\ acceptable db0 mods m.

Lemma group_is_write ins (gs : gmap EntityType (list (EntityKey * Entity))) ty es :
  typed_groups gs -> map_Forall (fun _ l => l <> []) gs ->
  (forall m, m ∈ group_list (fun _ => write_mod ins) (map_to_list gs) -> good_mod m) ->
  (ty, es) ∈ map_to_list gs -> write_group ins ty es.
Proof.
  intros Hty Hne Hgood Hin. split_and!.
  - apply elem_of_map_to_list in Hin. by apply (Hne ty).
  - eapply typed_group; [done..|]. intros m Hm. by apply Hgood.
  - apply Forall_forall. intros p Hp.
    destruct (Hgood (write_mod ins p)) as (_ & Hsite & Hacc);
      [by apply (group_elem (fun _ => write_mod ins) _ (ty, es))|].
    split; [|done]. by destruct ins.
Qed.

Lemma group_is_remove (gs : gmap EntityType (list string)) ty ids :
  map_Forall (fun _ l => l <> []) gs ->
  (forall m, m ∈ group_list (remove_mod site) (map_to_list gs) -> good_mod m) ->
  (ty, ids) ∈ map_to_list gs -> remove_group ty ids.
Proof.
  intros Hne Hgood Hin. split.
  - apply elem_of_map_to_list in Hin. by apply (Hne ty).
  - apply Forall_forall. intros id Hid. apply Hgood. by apply (group_elem (remove_mod site) _ (ty, ids)).
Qed.

Lemma insert_groups_total ps db z (gs : gmap EntityType (list (EntityKey * Entity))) :
  typed_groups gs -> map_Forall (fun _ l => l <> []) gs ->
  (forall m, m ∈ group_list (fun _ => write_mod true) (map_to_list gs) -> good_mod m) ->
  progress block db0 ps db -> ps ++ group_list (fun _ => write_mod true) (map_to_list gs) ⊆ mods ->
  NoDup (omap mod_slot (ps ++ group_list (fun _ => write_mod true) (map_to_list gs))) ->
  exists db' z', apply_groups (insert_entities site schema layout block) 1 (db, z) (map_to_list gs) = Ok (db', z') /\
    progress block db0 (ps ++ group_list (fun _ => write_mod true) (map_to_list gs)) db'.
Proof.
  intros Hty Hne Hgood. apply apply_groups_total.
  - intros ps' db' [ty es] Hp Hps Hin. apply insert_entities_total; [done..|]. by eapply group_is_write.
  - intros ps' db' [ty es] db'' n Hp Hin Hnd Hst. eapply insert_entities_step; [done..| |done|done].
    eapply typed_group; [done..|]. intros m Hm. by apply Hgood.
Qed.

Lemma overwrite_groups_total ps db z (gs : gmap EntityType (list (EntityKey * Entity))) :
  typed_groups gs -> map_Forall (fun _ l => l <> []) gs ->
  (forall m, m ∈ group_list (fun _ => write_mod false) (map_to_list gs) -> good_mod m) ->
  progress block db0 ps db -> ps ++ group_list (fun _ => write_mod false) (map_to_list gs) ⊆ mods ->
  NoDup (omap mod_slot (ps ++ group_list (fun _ => write_mod false) (map_to_list gs))) ->
  exists db' z', apply_groups (overwrite_entities site schema layout block) 0 (db, z) (map_to_list gs) = Ok (db', z') /\
    progress block db0 (ps ++ group_list (fun _ => write_mod false) (map_to_list gs)) db'.
Proof.
  intros Hty Hne Hgood. apply apply_groups_total.
  - intros ps' db' [ty es] Hp Hps Hin. apply overwrite_entities_total; [done..|]. by eapply group_is_write.
  - intros ps' db' [ty es] db'' n Hp Hin Hnd Hst. eapply overwrite_entities_step; [done..| |done|done].
    eapply typed_group; [done..|]. intros m Hm. by apply Hgood.
Qed.

Lemma remove_groups_total ps db z (gs : gmap EntityType (list string)) :
  map_Forall (fun _ l => l <> []) gs ->
  (forall m, m ∈ group_list (remove_mod site) (map_to_list gs) -> good_mod m) ->
  progress block db0 ps db -> ps ++ group_list (remove_mod site) (map_to_list gs) ⊆ mods ->
  NoDup (omap mod_slot (ps ++ group_list (remove_mod site) (map_to_list gs))) ->
  exists db' z', apply_groups (remove_entities layout block) (-1) (db, z) (map_to_list gs) = Ok (db', z').
Proof.
  intros Hne Hgood Hp Hsub Hnd.
  destruct (apply_groups_total (remove_mod site) (remove_entities layout block) (-1) (map_to_list gs) ps db z)
    as (db' & z' & Happ & _); [..|done|done|done|by exists db', z'].
  - intros ps' db' [ty ids] Hp' _ Hin. apply remove_entities_total; [done|]. by eapply group_is_remove.
  - intros ps' db' [ty ids] db'' n Hp' Hin Hnd' Hst. by eapply remove_entities_step.
Qed.

Lemma apply_entity_modifications_total :
  batch (SV:=SV) site layout mods -> Forall (acceptable db0 mods) mods ->
  exists db' n, apply_entity_modifications site schema layout db0 mods block = Ok (db', n).
Proof.
  intros [Hsite Hids Hnd] Hacc. destruct (group_mods_spec site mods Hsite) as (Hperm & Hi & Ho).
  destruct (group_mods_nonempty mods) as (Hni & Hno & Hnr).
  assert (Hgood : forall m, m ∈ all_groups site (group_mods mods) -> m ∈ mods /\ good_mod m).
  { intros m Hin. rewrite Hperm in Hin. split; [done|]. rewrite Forall_forall in Hsite, Hids, Hacc.
    split_and!; auto. }
  rewrite <- Hperm in Hnd. unfold apply_entity_modifications, all_groups in *. set (g := group_mods mods) in *.
  assert (Hp0 : progress block db0 [] db0).
  { exists ∅. split; [by eapply mid_db_start|]. split; [by intros ? ?%not_elem_of_nil|].
    intros slot. rewrite lookup_empty. by intros []. }
  assert (Hsub : all_groups site g ⊆ mods) by (intros m Hin; by apply Hgood).
  assert (Hmods : forall m, m ∈ all_groups site g -> good_mod m) by (intros m Hin; by apply Hgood).
  clear Hgood. unfold all_groups in Hsub, Hmods.
  destruct (insert_groups_total [] db0 0 (g_inserts g) Hi Hni) as (db1 & z1 & -> & Hp1);
    [set_solver|done|set_solver| |].
  { rewrite omap_app in Hnd. by apply NoDup_app in Hnd as [? _]. }
  rewrite app_assoc in Hnd. rewrite omap_app in Hnd. cbn [bind_result].
  destruct (fun H1 => overwrite_groups_total _ db1 z1 (g_overwrites g) Ho Hno H1 Hp1) as (db2 & z2 & -> & Hp2);
    [set_solver|set_solver| |].
  { by apply NoDup_app in Hnd as [? _]. }
  rewrite <- omap_app in Hnd. cbn [bind_result].
  apply (fun H1 => remove_groups_total _ db2 z2 (g_removals g) Hnr H1 Hp2); [set_solver|set_solver|done].
Qed.

End Groups.

(** ** Transactions *)

Context (error_hash : SubgraphError -> string) (tag : Z).

(** An error has the block it happened at, unless it is not deterministic. *)
Definition error_placed (e : SubgraphError) : Prop :=
  is_Some (err_block_ptr e) \/ err_deterministic e = false.

Lemma insert_subgraph_errors_total (d : Deployment R SV) errors block :
  Forall error_placed errors ->
  exists d', insert_subgraph_errors error_hash site d errors block = Ok d'.
Proof.
  intros Herr. unfold insert_subgraph_errors.
  assert (Hfold : forall errs, exists errs',
    try_fold (insert_subgraph_error (R:=R) error_hash) errs errors = Ok errs').
  { induction Herr as [|e errors He Herr IH]; intros errs; cbn [try_fold]; [eauto|].
    assert (Hstep : exists errs1, insert_subgraph_error error_hash errs e = Ok errs1).
    { assert (Hrange : forall n, exists br, int4range (R:=R) (Some n) None = Ok br)
        by (intros n; by apply (int4range_ok n None)).
      unfold error_placed in He. unfold insert_subgraph_error. destruct (err_block_ptr e) as [ptr|]; cbn [bind_result].
      - destruct (Hrange (bp_number ptr)) as [br ->]. simpl. case_match; eauto.
      - destruct He as [[]|Hdet]; [done|]. rewrite Hdet. cbn [negb bind_result].
        destruct (Hrange BLOCK_UNVERSIONED) as [br ->]. simpl. case_match; eauto. }
    destruct Hstep as [errs1 ->]. cbn [bind_result]. apply IH. }
  destruct (Hfold (dp_errors d)) as [errs ->]. simpl. eauto.
Qed.

(** C17: A block can always be written where it should be: if it comes after the
    last block, the entities can be stored in the columns of their tables, what
    is inserted does not exist, immutable types are only inserted, no entity
    shares its id with an entity of another type with a common interface, and
    data sources have addresses and errors blocks, then none of the checks,
    constraints and statements of the transaction fails. *)
Theorem transact_block_operations_total head (d : Deployment R SV) ptr cursor mods data_sources errors :
  store_inv layout head d -> (head < bp_number ptr)%Z -> (bp_number ptr < BLOCK_NUMBER_MAX)%Z ->
  batch (SV:=SV) site layout mods -> Forall (acceptable (dp_db d) mods) mods ->
  Forall (fun ds => is_Some (src_address (dds_source ds))) data_sources ->
  Forall error_placed errors ->
  exists d' ev, transact_block_operations error_hash site schema layout tag d ptr cursor mods data_sources errors
    = Ok (d', ev).
Proof.
  intros Hinv Hlt Hm Hbatch Hacc Hds Herr. unfold transact_block_operations.
  assert (Hsite : existsb (fun m => negb (bool_decide (subgraph_id (mod_entity_key m) = site))) mods = false).
  { apply not_true_iff_false. intros (m & Hin & Hne)%existsb_exists. apply list_elem_of_In in Hin.
    pose proof (ba_site _ _ _ Hbatch) as Hs. rewrite Forall_forall in Hs. rewrite bool_decide_true in Hne; [done|].
    by apply Hs. }
  rewrite Hsite. cbn [negb].
  destruct (apply_entity_modifications_total head (bp_number ptr) (dp_db d) mods) as (db' & n & ->);
    [apply Hinv|done..|]. cbn [bind_result fst snd]. unfold dynds_insert.
  destruct (try_map_total (fun ds => match dds_row ptr ds with
    | Some row => Ok row | None => Err (DataSourceWithoutAddress (dds_name ds)) end) data_sources) as [rows Hrows].
  { intros ds Hin. rewrite Forall_forall in Hds. destruct (Hds ds Hin) as [a Ha]. unfold dds_row. rewrite Ha.
    simpl. eauto. }
  rewrite Hrows. cbn [bind_result]. set (d1 := mkDeployment _ _ _ _ _ _ _ _ _ _ _).
  assert (Hd2 : exists d2, match errors with
      | [] => Ok d1
      | _ => insert_subgraph_errors error_hash site d1 errors (bp_number ptr)
      end = Ok d2 /\ dp_latest_block d2 = dp_latest_block d).
  { destruct errors as [|e errors]; [by exists d1|].
    destruct (insert_subgraph_errors_total d1 (e :: errors) (bp_number ptr) Herr) as [d2 Hd2]. exists d2.
    split; [done|]. by apply insert_subgraph_errors_spec in Hd2 as ((_ & -> & _) & _). }
  destruct Hd2 as (d2 & -> & Hlatest). cbn [bind_result]. unfold transact_block. rewrite Hlatest.
  pose proof (si_head _ _ _ Hinv) as Hhead. destruct (dp_latest_block d) as [from|]; [|done]. simpl in Hhead.
  injection Hhead as ->. rewrite (proj2 (Z.ltb_lt _ _)) by done. simpl. eauto.
Qed.

End ApplyTotal.
