(* ===== verification/DeploymentExamples.v ===== *)
(** * A deployment with two tables

    A model of the column values, witnesses for the theorems about writing and
    reverting blocks, and runs that show where the store departs from what it
    documents. *)

From S2P Require Import Prelude GraphqlAst Scalars ScalarModels RuntimeValue Values StoreTypes Schema.
From S2P Require Import SchemaProps BlockRange Relational VersionProps RowProps RevertProps LayoutProps DeploymentStore.
From S2P Require Import DeploymentProps ApplyTotal.

(** ** Column values *)

Definition value_leaf : Type := string + (Z + (Z * Z + (bool + (list N + (Z + unit))))).

Fixpoint value_to_tree (v : Value) : gen_tree value_leaf :=
  match v with
  | VString s => GenLeaf (inl s)
  | VInt i => GenLeaf (inr (inl i))
  | VBigDecimal d => GenLeaf (inr (inr (inl (int_val d, scale d))))
  | VBool b => GenLeaf (inr (inr (inr (inl b))))
  | VBytes b => GenLeaf (inr (inr (inr (inr (inl (map Byte.to_N b))))))
  | VBigInt n => GenLeaf (inr (inr (inr (inr (inr (inl n))))))
  | VNull => GenLeaf (inr (inr (inr (inr (inr (inr ()))))))
  | VList l => GenNode 0 (map value_to_tree l)
  end.

Fixpoint tree_to_value (t : gen_tree value_leaf) : Value :=
  match t with
  | GenLeaf (inl s) => VString s
  | GenLeaf (inr (inl i)) => VInt i
  | GenLeaf (inr (inr (inl (i, s)))) => VBigDecimal {| int_val := i; scale := s |}
  | GenLeaf (inr (inr (inr (inl b)))) => VBool b
  | GenLeaf (inr (inr (inr (inr (inl b))))) => VBytes (omap Byte.of_N b)
  | GenLeaf (inr (inr (inr (inr (inr (inl n)))))) => VBigInt n
  | GenLeaf (inr (inr (inr (inr (inr (inr ())))))) => VNull
  | GenNode _ l => VList (map tree_to_value l)
  end.

Lemma tree_to_value_to_tree v : tree_to_value (value_to_tree v) = v.
Proof.
  induction v as [s|i|[]|b|l IH| |b|n] using Value_nested_ind; simpl; try done.
  - f_equal. induction IH as [|x l Hx Hl IHl]; simpl; [done|]. by rewrite Hx, IHl.
  - f_equal. induction b as [|x b IHb]; simpl; [done|]. rewrite Byte.of_to_N. f_equal. apply IHb.
Qed.

#[export] Instance Value_countable : Countable Value :=
  inj_countable' value_to_tree tree_to_value tree_to_value_to_tree.

(** A column holds the value that was bound to it. *)
#[export, refine] Instance plain_values : PgValues Value := {
  sql_null := VNull;
  query_value _ v := Ok v;
  column_value _ v := Ok v;
  sql_text v := match v with VString s => Ok s | _ => Err Conversion end
}.
Proof. all: done. Defined.

(** ** The deployment *)

Definition id_column : Column :=
  mkColumn "id" "id" (NonNullType (NamedType "ID")) CTString None.

Definition name_column : Column := mkColumn "name" "name" (NamedType "String") CTString None.

Definition band_table : Table := mkTable "Band" "band" [id_column; name_column] true false.

Definition transfer_table : Table := mkTable "Transfer" "transfer" [id_column; name_column] false true.

Definition music_layout : Layout := {["Band" := band_table; "Transfer" := transfer_table]}.

Lemma two_columns_ok ty name account immutable :
  table_ok (mkTable ty name [id_column; name_column] account immutable).
Proof.
  split; simpl.
  - repeat constructor; set_solver.
  - repeat constructor; set_solver.
  - set_solver.
  - intros pk [Heq|[Heq|[]%elem_of_nil]%elem_of_cons]%elem_of_cons; by subst.
  - exists id_column. split; [by left|done].
  - intros c [Heq|[Heq|[]%elem_of_nil]%elem_of_cons]%elem_of_cons; subst; by intros [].
  - unfold POSTGRES_MAX_PARAMETERS. lia.
Qed.

Lemma music_layout_ok : layout_ok music_layout.
Proof.
  intros ty t Ht. unfold music_layout in Ht.
  apply lookup_insert_Some in Ht as [[<- <-]|[_ Ht]]; [split; [done|apply two_columns_ok]|].
  apply lookup_singleton_Some in Ht as [<- <-]. split; [done|apply two_columns_ok].
Qed.

Definition music_site : DeploymentHash := "QmMusic".

Definition plain_hash (e : SubgraphError) : string := err_message e.

Abbreviation deployment := (Deployment pg_range Value).

Definition key_of (ty id : string) : EntityKey := mkKey music_site ty id.

Definition entity_of (id name : string) : Entity := {["id" := VString id; "name" := VString name]}.

(** ** Two blocks *)

Lemma music_table ty t :
  music_layout !! ty = Some t -> tb_columns t = [id_column; name_column].
Proof.
  unfold music_layout. intros [[_ <-]|[_ Ht]]%lookup_insert_Some; [done|].
  by apply lookup_singleton_Some in Ht as [_ <-].
Qed.

Lemma music_ids ins ty id name :
  id_agrees (SV:=Value) music_layout (write_mod ins (key_of ty id, entity_of id name)).
Proof.
  assert (Hid : forall t pk, music_layout !! ty = Some t -> pk ∈ tb_columns t ->
    col_name pk = PRIMARY_KEY_COLUMN ->
    exists v, entity_of id name !! "id" = Some v /\
      query_value (SV:=Value) (col_column_type pk) v = bind_id t id).
  { intros t pk Ht Hpk Hname. exists (VString id). split; [done|].
    unfold bind_id, primary_key. rewrite (music_table ty t Ht). done. }
  by destruct ins.
Qed.

Lemma music_readable ty (e : Entity) : mod_readable (SV:=Value) music_layout (ModInsert ty e).
Proof. intros t Ht c v s _ _ _ _. by exists s. Qed.

Definition mods1 : list EntityModification :=
  [ModInsert (key_of "Band" "beatles") (entity_of "beatles" "The Beetles");
   ModInsert (key_of "Band" "kinks") (entity_of "kinks" "The Kinks");
   ModInsert (key_of "Transfer" "1") (entity_of "1" "ticket")].

Definition mods2 : list EntityModification :=
  [ModOverwrite (key_of "Band" "beatles") (entity_of "beatles" "The Beatles");
   ModRemove (key_of "Band" "kinks");
   ModInsert (key_of "Band" "who") (entity_of "who" "The Who")].

Definition apply_music (mods : list EntityModification) (block : Z) (db : Db pg_range Value) :=
  apply_entity_modifications music_site example_schema music_layout db mods block.

Definition db_or_empty (r : result StoreError (Db pg_range Value * Z)) : Db pg_range Value :=
  match r with Ok (db, _) => db | _ => ∅ end.

Definition db1 : Db pg_range Value := Eval vm_compute in db_or_empty (apply_music mods1 1 ∅).
Definition db2 : Db pg_range Value := Eval vm_compute in db_or_empty (apply_music mods2 2 db1).

Lemma db1_ok : apply_music mods1 1 ∅ = Ok (db1, 3%Z).
Proof. vm_compute. reflexivity. Qed.

Lemma db2_ok : apply_music mods2 2 db1 = Ok (db2, 0%Z).
Proof. vm_compute. reflexivity. Qed.

Lemma mods1_batch : batch (SV:=Value) music_site music_layout mods1.
Proof.
  split.
  - by repeat constructor.
  - repeat constructor; apply (music_ids true).
  - apply (bool_decide_unpack _). vm_compute. exact I.
Qed.

Lemma mods2_batch : batch (SV:=Value) music_site music_layout mods2.
Proof.
  split.
  - by repeat constructor.
  - constructor; [apply (music_ids false)|]. constructor; [exact I|].
    constructor; [apply (music_ids true)|constructor].
  - apply (bool_decide_unpack _). vm_compute. exact I.
Qed.

Lemma mods2_exist : Forall (overwrites_exist music_layout db1) mods2.
Proof.
  constructor; [|constructor; [exact I|constructor; [exact I|constructor]]].
  intros Hnone. apply (f_equal (fun r => match r with Ok None => true | _ => false end)) in Hnone.
  vm_compute in Hnone. discriminate.
Qed.

Lemma empty_db_inv head : db_inv (R:=pg_range) (SV:=Value) music_layout head ∅.
Proof. intros ty t Ht. split; [constructor|constructor]. Qed.

Lemma db1_inv : db_inv music_layout 1 db1.
Proof.
  apply (apply_entity_modifications_spec music_site example_schema music_layout music_layout_ok
    ∅ mods1 0 1 db1 3); [apply empty_db_inv|lia|done|apply mods1_batch|exact db1_ok].
Qed.

Lemma db2_inv : db_inv music_layout 2 db2.
Proof.
  apply (apply_entity_modifications_spec music_site example_schema music_layout music_layout_ok
    db1 mods2 1 2 db2 0); [apply db1_inv|lia|done|apply mods2_batch|exact db2_ok].
Qed.

Lemma apply_entity_modifications_correct_witness :
  layout_find music_layout db2 "Band" "beatles" 1 = layout_find music_layout db1 "Band" "beatles" 1 /\
  layout_find music_layout db2 "Band" "kinks" 7 = Ok None /\
  0%Z = (count_query music_layout db2 - count_query music_layout db1)%Z.
Proof.
  destruct (apply_entity_modifications_correct music_site example_schema music_layout music_layout_ok
    db1 mods2 1 2 db2 0 db1_inv ltac:(lia) ltac:(done) mods2_batch) as (_ & Hold & Hnew & _ & Hcount).
  - constructor; [apply music_readable|]. constructor; [exact I|].
    constructor; [apply music_readable|constructor].
  - exact db2_ok.
  - split_and!; [by apply Hold| |by apply Hcount, mods2_exist].
    specialize (Hnew (ModRemove (key_of "Band" "kinks")) 7%Z (list_elem_of_further _ _ _ (list_elem_of_here _ _))).
    cbn [mod_entity_key key_of entity_type key_entity_id mod_view] in Hnew. apply Hnew.
    unfold BLOCK_NUMBER_MAX, i32_max. lia.
Defined.

Lemma revert_block_correct_witness :
  exists db' ev n, revert_block music_site 1 music_layout db2 2 = Ok (db', ev, n) /\
    layout_find music_layout db' "Band" "kinks" 2 = layout_find music_layout db2 "Band" "kinks" 1.
Proof.
  destruct (revert_block_correct music_site 1 music_layout db2 2 2 music_layout_ok db2_inv
    ltac:(done) ltac:(done)) as (db' & ev & n & Hrev & _ & Hfind & _).
  exists db', ev, n. split; [exact Hrev|]. by rewrite Hfind.
Defined.

(** ** Transactions *)

Definition deployment1 : deployment :=
  mkDeployment db1 (Some (mkPtr [] 1)) None (Some 3%Z) 0 0 0 None [] [] Healthy.

Lemma deployment1_inv : deployment_inv music_layout 1 deployment1.
Proof. split; [split; [apply db1_inv|done|constructor|done]|done]. Qed.

Definition data_source : StoredDynamicDataSource :=
  mkDds "Exchange" (mkSource (Some (repeat Byte.x01 20)) "abi" 0) None (Some 2%Z).

Definition transact2 :=
  transact_block_operations plain_hash music_site example_schema music_layout 1 deployment1
    (mkPtr [] 2) (Some "cursor") mods2 [data_source] [].

Definition deployment2 : deployment :=
  mkDeployment db2 (Some (mkPtr [] 2)) (Some "cursor") (Some 3%Z) 0 0 0 None
    (omap (dds_row (mkPtr [] 2)) [data_source]) [] Healthy.

Lemma transact2_ok : transact2 = Ok (deployment2, store_event_from_mods 1 mods2).
Proof.
  unfold transact2, transact_block_operations. fold (apply_music mods2 2 (dp_db deployment1)).
  change (dp_db deployment1) with db1. change (bp_number (mkPtr [] 2)) with 2%Z.
  fold (apply_music mods2 2 db1). rewrite db2_ok. reflexivity.
Qed.

Lemma transact_block_operations_correct_witness :
  deployment_inv music_layout 2 deployment2 /\ dp_latest_block deployment2 = Some (mkPtr [] 2).
Proof.
  destruct (transact_block_operations_correct music_site example_schema music_layout music_layout_ok
    plain_hash 1 1 deployment1 (mkPtr [] 2) (Some "cursor") mods2 [data_source] [] deployment2
    (store_event_from_mods 1 mods2) deployment1_inv ltac:(done) mods2_batch mods2_exist transact2_ok)
    as (Hinv & _ & Hl & _).
  split; [exact Hinv|exact Hl].
Defined.

Lemma music_storable ty name account immutable key id title :
  storable (SV:=Value) (mkTable ty name [id_column; name_column] account immutable) (key, entity_of id title).
Proof.
  exists (entity_of id title). split; [reflexivity|].
  intros c [->|[->|[]%elem_of_nil]%elem_of_cons]%elem_of_cons;
    [exists (VString id)|exists (VString title)]; by split.
Qed.

Lemma music_unshared id : unshared example_schema music_layout db1 mods2 (key_of "Band" id).
Proof. exists []. split; [vm_compute; reflexivity|]. by intros ty ?%elem_of_nil. Qed.

Lemma mods2_acceptable : Forall (acceptable example_schema music_layout db1 mods2) mods2.
Proof.
  constructor; [|constructor; [|constructor; [|constructor]]].
  - split; [|apply music_unshared]. exists band_table. split_and!; [done..|]. apply music_storable.
  - exists band_table, (VString "kinks"). by split_and!.
  - split_and!; [|vm_compute; reflexivity|apply music_unshared]. exists band_table. split; [done|]. apply music_storable.
Qed.

Lemma transact_block_operations_total_witness : exists d ev, transact2 = Ok (d, ev).
Proof.
  apply (transact_block_operations_total music_site example_schema music_layout music_layout_ok
    plain_hash 1 1 deployment1 (mkPtr [] 2) (Some "cursor") mods2 [data_source] []).
  - apply deployment1_inv.
  - reflexivity.
  - reflexivity.
  - apply mods2_batch.
  - apply mods2_acceptable.
  - constructor; [by eexists|constructor].
  - constructor.
Defined.

Lemma transact_then_revert_witness :
  exists d ev, revert_block_operations music_site music_layout 1 deployment2 (mkPtr [] 1) None
      = Ok (d, ev) /\
    deployment_inv music_layout 1 d /\ dp_dynds d = [] /\
    layout_find music_layout (dp_db d) "Band" "who" 2 = layout_find music_layout db1 "Band" "who" 2.
Proof.
  destruct (transact_then_revert music_site example_schema music_layout music_layout_ok
    plain_hash 1 1 deployment1 (mkPtr [] 1) (mkPtr [] 2) (Some "cursor") None mods2 [data_source] []
    deployment2 (store_event_from_mods 1 mods2) deployment1_inv eq_refl eq_refl ltac:(done)
    mods2_batch mods2_exist transact2_ok) as (d & ev & Hrev & Hinv & _ & Hdyn & Hfind).
  exists d, ev. split_and!; [exact Hrev|exact Hinv|exact Hdyn|by apply Hfind].
Defined.

(** ** Departures from the documentation *)

(** [rewind] accepts a block after the last one and moves the block pointer
    forward: the error that the check on the block numbers makes is not
    returned.  [revert_block_operations] panics on such a block. *)
Theorem rewind_moves_forward :
  map_result (fun p => dp_latest_block p.1) (rewind music_site music_layout 1 deployment2 (mkPtr [] 9))
    = Ok (Some (mkPtr [] 9)) /\
  revert_block_operations music_site music_layout 1 deployment2 (mkPtr [] 9) None = Panic.
Proof. split; vm_compute; reflexivity. Qed.

(** An entity that is created at block 1 and removed at block 2, next to one that
    stays. *)
Definition short_lived : list EntityModification := [ModRemove (key_of "Band" "kinks")].

Definition deployment_short : deployment :=
  mkDeployment (db_or_empty (apply_music short_lived 2 db1)) (Some (mkPtr [] 2)) None (Some 2%Z)
    0 0 0 None [] [] Healthy.

(** Rewinding several blocks at once can leave a wrong entity count: an entity
    that was created and removed in the reverted blocks is subtracted although
    it was no longer counted.  Here the count is right before, and after going
    back to block 0 there is no entity while the count is -1. *)
Theorem rewind_miscounts :
  dp_entity_count deployment_short = Some (count_query music_layout (dp_db deployment_short)) /\
  map_result (fun p => (dp_entity_count p.1, count_query music_layout (dp_db p.1)))
    (rewind music_site music_layout 1 deployment_short (mkPtr [] 0))
    = Ok (Some (-1)%Z, 0%Z).
Proof. split; vm_compute; reflexivity. Qed.

(** Clamping a version at the block at which it was created leaves a row with an
    empty block range.  No block sees that row, and reverting does not remove
    it. *)
Lemma clamp_leaves_empty_range :
  map_result (fun p => map (fun r => row_block r) p.1)
    (clamp_range_query band_table ["beatles"] 1 (table_rows db1 band_table))
    = Ok [ColRange REmpty; ColRange (RRange (Some 1%Z) None)] /\
  map_result (fun p => length p.1.1)
    (revert_table music_site 0 band_table [mkRow ∅ (ColRange REmpty)]) = Ok 1%nat.
Proof. split; vm_compute; reflexivity. Qed.

Lemma find_changes_immutable_fails_witness :
  find_changes music_layout music_site db1 1 = Err (SqlErr (UndefinedColumn "block_range")).
Proof.
  apply (find_changes_immutable_fails music_layout music_site db1 1 "Transfer" transfer_table);
    [reflexivity|reflexivity|discriminate].
Defined.
