(* ===== verification/BoundedQueue.v ===== *)
(** * The bounded queue

    [graph/src/util/bounded_queue.rs].  The semaphores belong to [tokio]: the
    class [Semaphore] has the operations that the queue uses, and
    [SemaphoreLaws] what is documented of their number of permits.  An
    [acquire] that has to wait is [None]; forgetting a permit leaves the
    semaphore as it is, and dropping it adds it back.

    The methods run concurrently: each is a sequence of atomic actions on the
    queue, and the system [sys_step] interleaves the actions of any number of
    calls. *)

From S2P Require Import Prelude.

Class Semaphore (Sem : Type) := {
  sem_new : nat -> Sem;
  available_permits : Sem -> nat;
  acquire_many : nat -> Sem -> option Sem;
  add_permits : nat -> Sem -> Sem
}.

Class SemaphoreLaws (Sem : Type) `{!Semaphore Sem} := {
  sem_new_permits n : available_permits (sem_new n) = n;
  acquire_permits n s s' :
    acquire_many n s = Some s' -> available_permits s = n + available_permits s';
  acquire_blocks n s : acquire_many n s = None -> available_permits s < n;
  add_permits_permits n s : available_permits (add_permits n s) = n + available_permits s
}.

Section BoundedQueue.
Context {Sem : Type} `{!Semaphore Sem} {T : Type}.

Record BoundedQueue := mkQueue {
  bq_capacity : nat;
  bq_queue : list T;
  push_semaphore : Sem;
  pop_semaphore : Sem
}.

Definition with_capacity (capacity : nat) : BoundedQueue :=
  mkQueue capacity [] (sem_new capacity) (sem_new 0).

Definition with_push (q : BoundedQueue) (s : Sem) : BoundedQueue :=
  mkQueue (bq_capacity q) (bq_queue q) s (pop_semaphore q).

Definition with_pop (q : BoundedQueue) (s : Sem) : BoundedQueue :=
  mkQueue (bq_capacity q) (bq_queue q) (push_semaphore q) s.

Definition with_items (q : BoundedQueue) (items : list T) : BoundedQueue :=
  mkQueue (bq_capacity q) items (push_semaphore q) (pop_semaphore q).

(** ** The actions of the methods *)

Definition acquire_pop (q : BoundedQueue) : option BoundedQueue :=
  with_pop q <$> acquire_many 1 (pop_semaphore q).

Definition acquire_push (n : nat) (q : BoundedQueue) : option BoundedQueue :=
  with_push q <$> acquire_many n (push_semaphore q).

Definition release_pop (q : BoundedQueue) : BoundedQueue :=
  with_pop q (add_permits 1 (pop_semaphore q)).

Definition release_push (n : nat) (q : BoundedQueue) : BoundedQueue :=
  with_push q (add_permits n (push_semaphore q)).

Definition pop_front {E} (q : BoundedQueue) : result E (T * BoundedQueue) :=
  match bq_queue q with
  | [] => Panic
  | item :: items => Ok (item, with_items q items)
  end.

Definition queue_front {E} (q : BoundedQueue) : result E T := expect (hd_error (bq_queue q)).

Definition push_back (q : BoundedQueue) (item : T) : BoundedQueue :=
  with_items q (bq_queue q ++ [item]).

(** [self.capacity as u32] *)
Definition wait_permits (q : BoundedQueue) : nat :=
  Z.to_nat (wrap_u32 (Z.of_nat (bq_capacity q))).

(** ** The methods, when nothing else runs; [None] is a call that waits *)

Definition bq_pop {E} (q : BoundedQueue) : option (result E (T * BoundedQueue)) :=
  q ← acquire_pop q;
  Some (let? r := pop_front q in Ok (r.1, release_push 1 r.2)).

Definition bq_try_pop {E} (q : BoundedQueue) : result E (option T * BoundedQueue) :=
  match acquire_pop q with
  | None => Ok (None, q)
  | Some q => let? r := pop_front q in Ok (Some r.1, release_push 1 r.2)
  end.

Definition bq_peek {E} (q : BoundedQueue) : option (result E (T * BoundedQueue)) :=
  q ← acquire_pop q;
  Some (let? item := queue_front q in Ok (item, release_pop q)).

Definition bq_push (q : BoundedQueue) (item : T) : option BoundedQueue :=
  q ← acquire_push 1 q;
  Some (release_pop (push_back q item)).

Definition bq_wait_empty (q : BoundedQueue) : option BoundedQueue :=
  release_push (wait_permits q) <$> acquire_push (wait_permits q) q.

Definition bq_len (q : BoundedQueue) : nat := length (bq_queue q).

Definition bq_is_empty (q : BoundedQueue) : bool :=
  match bq_queue q with [] => true | _ => false end.

Definition bq_fold {B} (q : BoundedQueue) (init : B) (f : B -> T -> B) : B :=
  foldl f init (reverse (bq_queue q)).

(** [f] may change what it has captured, which is the state [S]. *)
Fixpoint find_map_st {S B} (f : S -> T -> S * option B) (s : S) (l : list T) : S * option B :=
  match l with
  | [] => (s, None)
  | x :: l => match f s x with
              | (s, Some b) => (s, Some b)
              | (s, None) => find_map_st f s l
              end
  end.

Definition bq_find_map {S B} (q : BoundedQueue) (f : S -> T -> S * option B) (s : S) : S * option B :=
  find_map_st f s (reverse (bq_queue q)).

Fixpoint clear_loop {E} (fuel : nat) (q : BoundedQueue) : result E BoundedQueue :=
  match fuel with
  | O => Panic
  | S fuel =>
      let? r := bq_try_pop q in
      match r.1 with
      | Some _ => clear_loop fuel r.2
      | None => Ok r.2
      end
  end.

(** One round for each entry and one that finds the queue empty. *)
Definition bq_clear {E} (q : BoundedQueue) : result E BoundedQueue :=
  clear_loop (S (length (bq_queue q))) q.

(** ** Interleaved calls

    Where a call that got its permit stands. *)
Inductive Call :=
| PopHolds | PopTook (item : T)
| PeekHolds | PeekTook (item : T)
| PushHolds (item : T) | PushPut
| WaitHolds.

(** A call gets its permits. *)
Definition call_start (q : BoundedQueue) (c : Call) : option BoundedQueue :=
  match c with
  | PopHolds | PeekHolds => acquire_pop q
  | PushHolds _ => acquire_push 1 q
  | WaitHolds => acquire_push (wait_permits q) q
  | _ => None
  end.

(** The next action of a call, and where it stands after that, if it has not
    ended. *)
Definition call_next {E} (q : BoundedQueue) (c : Call) : result E (BoundedQueue * option Call) :=
  match c with
  | PopHolds => let? r := pop_front q in Ok (r.2, Some (PopTook r.1))
  | PopTook _ => Ok (release_push 1 q, None)
  | PeekHolds => let? item := queue_front q in Ok (q, Some (PeekTook item))
  | PeekTook _ => Ok (release_pop q, None)
  | PushHolds item => Ok (push_back q item, Some PushPut)
  | PushPut => Ok (release_pop q, None)
  | WaitHolds => Ok (release_push (wait_permits q) q, None)
  end.

(** The queue, the calls under way, and what has been put in and taken out so
    far. *)
Record Sys := mkSys {
  sy_queue : BoundedQueue; sy_calls : list Call; sy_pushed : list T; sy_popped : list T
}.

Definition put_by (c : Call) : list T := match c with PushHolds item => [item] | _ => [] end.
Definition took_by (next : option Call) : list T :=
  match next with Some (PopTook item) => [item] | _ => [] end.

Inductive sys_step : Sys -> Sys -> Prop :=
| sys_start q q' c calls pushed popped :
    call_start q c = Some q' ->
    sys_step (mkSys q calls pushed popped) (mkSys q' (c :: calls) pushed popped)
| sys_next q q' calls1 c calls2 next pushed popped :
    call_next (E:=Empty_set) q c = Ok (q', next) ->
    sys_step (mkSys q (calls1 ++ c :: calls2) pushed popped)
      (mkSys q' (calls1 ++ option_list next ++ calls2) (pushed ++ put_by c) (popped ++ took_by next)).

Definition sys_init (capacity : nat) : Sys := mkSys (with_capacity capacity) [] [] [].

End BoundedQueue.
Arguments BoundedQueue : clear implicits.
Arguments Call : clear implicits.
Arguments Sys : clear implicits.

(** ** Correctness *)

Section BoundedQueueProps.
Context {Sem : Type} `{!Semaphore Sem, !SemaphoreLaws Sem} {T : Type}.
Implicit Types (q : BoundedQueue Sem T) (c : Call T) (s : Sys Sem T).

(** Entries that a call has a right to although the semaphore does not count
    them, and free places that are promised to a call. *)
Definition pop_held c : nat :=
  match c with PopHolds | PeekHolds | PeekTook _ | PushPut => 1 | _ => 0 end.

Definition push_held (wait : nat) c : nat :=
  match c with PushHolds _ | PopTook _ => 1 | WaitHolds => wait | _ => 0 end.

Record sys_inv (capacity : nat) s : Prop := {
  inv_capacity : bq_capacity (sy_queue s) = capacity;
  inv_pop : available_permits (pop_semaphore (sy_queue s)) + sum_list_with pop_held (sy_calls s)
    = length (bq_queue (sy_queue s));
  inv_push : available_permits (push_semaphore (sy_queue s))
      + sum_list_with (push_held (wait_permits (sy_queue s))) (sy_calls s)
      + length (bq_queue (sy_queue s)) = capacity;
  inv_fifo : sy_pushed s = sy_popped s ++ bq_queue (sy_queue s)
}.

Lemma acquire_pop_inv q q' :
  acquire_pop q = Some q' ->
  exists sem, q' = with_pop q sem /\ available_permits (pop_semaphore q) = 1 + available_permits sem.
Proof.
  unfold acquire_pop. destruct (acquire_many 1 _) as [s|] eqn:Ha; [|done]. intros [= <-].
  exists s. split; [done|]. by apply acquire_permits.
Qed.

Lemma acquire_push_inv n q q' :
  acquire_push n q = Some q' ->
  exists sem, q' = with_push q sem /\ available_permits (push_semaphore q) = n + available_permits sem.
Proof.
  unfold acquire_push. destruct (acquire_many n _) as [s|] eqn:Ha; [|done]. intros [= <-].
  exists s. split; [done|]. by apply acquire_permits.
Qed.

Lemma sys_init_inv capacity : sys_inv capacity (sys_init capacity).
Proof. split; simpl; rewrite ?sem_new_permits; done || lia. Qed.

Lemma call_start_inv capacity q q' c calls pushed popped :
  call_start q c = Some q' ->
  sys_inv capacity (mkSys q calls pushed popped) -> sys_inv capacity (mkSys q' (c :: calls) pushed popped).
Proof.
  intros Hs [Hcap Hpop Hpush Hf]. simpl in *.
  destruct c; simpl in Hs; try done;
    first [apply acquire_pop_inv in Hs as (s & -> & Hp)|apply acquire_push_inv in Hs as (s & -> & Hp)];
    split; simpl; try done; unfold wait_permits in *; simpl in *; lia.
Qed.

Lemma call_next_inv capacity q q' calls1 c calls2 next pushed popped :
  call_next (E:=Empty_set) q c = Ok (q', next) ->
  sys_inv capacity (mkSys q (calls1 ++ c :: calls2) pushed popped) ->
  sys_inv capacity (mkSys q' (calls1 ++ option_list next ++ calls2)
    (pushed ++ put_by c) (popped ++ took_by next)).
Proof.
  intros Hn [Hcap Hpop Hpush Hf]. simpl in *. rewrite sum_list_with_app in Hpop, Hpush. simpl in *.
  unfold wait_permits in *.
  destruct c; simpl in Hn; unfold pop_front, queue_front in Hn;
    try (destruct (bq_queue q) as [|x items] eqn:Hq; simpl in Hn; [done|]);
    injection Hn as <- <-;
    split; simpl; rewrite ?sum_list_with_app, ?add_permits_permits, ?length_app; simpl; rewrite ?app_nil_r;
    unfold wait_permits; simpl in *; try (done || lia).
  all: rewrite ?Hq; simpl; try (done || lia); rewrite Hf, <- ?app_assoc; done.
Qed.

Lemma sys_reachable_inv capacity s : rtc sys_step (sys_init capacity) s -> sys_inv capacity s.
Proof.
  intros Hr. pose proof (sys_init_inv capacity) as Hinv. revert Hinv.
  induction Hr as [|s1 s2 s3 Hstep _ IH]; [done|]. intros Hinv. apply IH.
  destruct Hstep; [by eapply call_start_inv|by eapply call_next_inv].
Qed.

Lemma sum_held f (l : list (Call T)) c : c ∈ l -> f c <= sum_list_with f l.
Proof. induction 1; simpl; lia. Qed.

Lemma call_next_ok capacity s c :
  sys_inv capacity s -> c ∈ sy_calls s -> exists r, call_next (E:=Empty_set) (sy_queue s) c = Ok r.
Proof.
  intros [_ Hpop _ _] Hin. apply (sum_held pop_held) in Hin.
  destruct c; simpl in *; try (by eexists); unfold pop_front, queue_front;
    destruct (bq_queue (sy_queue s)); simpl in *; (lia || by eexists).
Qed.

(** C27: However calls of [pop], [peek], [push] and [wait_empty] interleave, no call
    finds the queue empty after it got its permit, so none panics and each can go
    on; the queue never holds more entries than its capacity; entries come out in
    the order in which they were put in; [wait_empty] gets its permits only when
    the queue is empty; and between calls the semaphores count the entries and
    the free places, so that [pop] waits only for an empty queue and [push] only
    for a full one. *)
Theorem bounded_queue_safe capacity s :
  rtc sys_step (sys_init capacity) s ->
  (forall c, c ∈ sy_calls s -> exists r, call_next (E:=Empty_set) (sy_queue s) c = Ok r) /\
  length (bq_queue (sy_queue s)) <= capacity /\
  sy_pushed s = sy_popped s ++ bq_queue (sy_queue s) /\
  ((Z.of_nat capacity < u32_mod)%Z -> WaitHolds ∈ sy_calls s -> bq_queue (sy_queue s) = []) /\
  (sy_calls s = [] ->
    available_permits (pop_semaphore (sy_queue s)) = length (bq_queue (sy_queue s)) /\
    available_permits (push_semaphore (sy_queue s)) = capacity - length (bq_queue (sy_queue s)) /\
    (acquire_pop (sy_queue s) = None -> bq_queue (sy_queue s) = []) /\
    (acquire_push 1 (sy_queue s) = None -> length (bq_queue (sy_queue s)) = capacity)).
Proof.
  intros Hinv%sys_reachable_inv. pose proof Hinv as [Hcap Hpop Hpush Hfifo].
  split_and!; [intros c Hc; by eapply call_next_ok|lia|done|..].
  - intros Hu Hw. apply (sum_held (push_held (wait_permits (sy_queue s)))) in Hw. simpl in Hw.
    assert (wait_permits (sy_queue s) = capacity) as Hall.
    { unfold wait_permits. rewrite Hcap. unfold wrap_u32. rewrite Z.mod_small by lia. lia. }
    apply length_zero_iff_nil. lia.
  - intros Hnone. rewrite Hnone in *. simpl in *. split_and!; [lia|lia|..].
    + unfold acquire_pop. destruct (acquire_many 1 _) eqn:Ha; [done|]. intros _.
      apply acquire_blocks in Ha. apply length_zero_iff_nil. lia.
    + unfold acquire_push. destruct (acquire_many 1 _) eqn:Ha; [done|]. intros _.
      apply acquire_blocks in Ha. lia.
Qed.

(** ** The queue as a list of at most [capacity] entries *)

Record bq_ok q : Prop := {
  ok_pop : available_permits (pop_semaphore q) = length (bq_queue q);
  ok_push : available_permits (push_semaphore q) + length (bq_queue q) = bq_capacity q
}.

Lemma with_capacity_ok capacity : bq_ok (with_capacity capacity).
Proof. split; simpl; rewrite sem_new_permits; simpl; lia. Qed.

Lemma acquire_pop_some q x items :
  bq_ok q -> bq_queue q = x :: items -> exists sem, acquire_pop q = Some (with_pop q sem) /\
    available_permits sem = length items.
Proof.
  intros [Hpop _] Hq. rewrite Hq in Hpop. unfold acquire_pop.
  destruct (acquire_many 1 (pop_semaphore q)) as [s|] eqn:Ha.
  - exists s. split; [done|]. apply acquire_permits in Ha. simpl in Hpop. lia.
  - apply acquire_blocks in Ha. simpl in Hpop. lia.
Qed.

Lemma acquire_pop_none q : bq_ok q -> bq_queue q = [] -> acquire_pop q = None.
Proof.
  intros [Hpop _] Hq. rewrite Hq in Hpop. unfold acquire_pop.
  destruct (acquire_many 1 (pop_semaphore q)) as [s|] eqn:Ha; [|done].
  apply acquire_permits in Ha. simpl in Hpop. lia.
Qed.

Lemma bq_pop_spec {E} q x items :
  bq_ok q -> bq_queue q = x :: items ->
  exists q', bq_pop (E:=E) q = Some (Ok (x, q')) /\ bq_ok q' /\ bq_queue q' = items /\
    bq_capacity q' = bq_capacity q.
Proof.
  intros Hok Hq. destruct (acquire_pop_some q x items) as (s & Ha & Hs); [done..|].
  unfold bq_pop. rewrite Ha. simpl. unfold pop_front. simpl. rewrite Hq. simpl. eexists.
  split; [done|]. split_and!; [|done..]. destruct Hok as [_ Hpush]. rewrite Hq in Hpush.
  split; simpl in *; [done|]. rewrite add_permits_permits. lia.
Qed.

Lemma bq_try_pop_spec {E} q :
  bq_ok q ->
  match bq_queue q with
  | [] => bq_try_pop (E:=E) q = Ok (None, q)
  | x :: items => exists q', bq_try_pop (E:=E) q = Ok (Some x, q') /\ bq_ok q' /\ bq_queue q' = items /\
      bq_capacity q' = bq_capacity q
  end.
Proof.
  intros Hok. destruct (bq_queue q) as [|x items] eqn:Hq.
  - unfold bq_try_pop. by rewrite acquire_pop_none.
  - destruct (bq_pop_spec (E:=E) q x items) as (q' & Hp & Hrest); [done..|]. exists q'. split; [|done].
    unfold bq_pop in Hp. unfold bq_try_pop. destruct (acquire_pop q) as [q1|]; [|done]. simpl in Hp.
    injection Hp as Hp. destruct (pop_front q1) as [[y q2]| |]; simpl in *; [|done..].
    by injection Hp as -> ->.
Qed.

Lemma bq_peek_spec {E} q x items :
  bq_ok q -> bq_queue q = x :: items ->
  exists q', bq_peek (E:=E) q = Some (Ok (x, q')) /\ bq_ok q' /\ bq_queue q' = bq_queue q /\
    bq_capacity q' = bq_capacity q.
Proof.
  intros Hok Hq. destruct (acquire_pop_some q x items) as (s & Ha & Hs); [done..|].
  unfold bq_peek. rewrite Ha. simpl. unfold queue_front. simpl. rewrite Hq. simpl. eexists.
  split; [done|]. split_and!; [|done..]. destruct Hok as [_ Hpush].
  split; simpl in *; rewrite ?add_permits_permits, ?Hq; simpl; [lia|].
  by rewrite Hq in Hpush.
Qed.

Lemma bq_push_spec q x q' :
  bq_ok q -> bq_push q x = Some q' ->
  bq_ok q' /\ bq_queue q' = bq_queue q ++ [x] /\ bq_capacity q' = bq_capacity q.
Proof.
  intros [Hpop Hpush]. unfold bq_push. destruct (acquire_push 1 q) as [q1|] eqn:Ha; [|done].
  apply acquire_push_inv in Ha as (s & -> & Hs). simpl. intros [= <-]. split_and!; [|done..].
  split; simpl in *; rewrite ?add_permits_permits, length_app; simpl; lia.
Qed.

Lemma bq_push_room q x :
  bq_ok q -> length (bq_queue q) < bq_capacity q -> exists q', bq_push q x = Some q'.
Proof.
  intros [Hpop Hpush] Hlt. unfold bq_push, acquire_push.
  destruct (acquire_many 1 (push_semaphore q)) eqn:Ha; [by eexists|]. apply acquire_blocks in Ha. lia.
Qed.

Lemma clear_loop_spec {E} fuel q :
  bq_ok q -> length (bq_queue q) < fuel ->
  exists q', clear_loop (E:=E) fuel q = Ok q' /\ bq_ok q' /\ bq_queue q' = [] /\
    bq_capacity q' = bq_capacity q.
Proof.
  revert q. induction fuel as [|fuel IH]; intros q Hok Hlt; [lia|]. cbn [clear_loop].
  pose proof (bq_try_pop_spec (E:=E) q Hok) as Hp. destruct (bq_queue q) as [|x items] eqn:Hq.
  - rewrite Hp. simpl. by exists q.
  - destruct Hp as (q1 & -> & Hok1 & Hq1 & Hc1). simpl in *.
    destruct (IH q1) as (q2 & H2 & Hok2 & Hq2 & Hc2); [done|rewrite Hq1; lia|].
    exists q2. split_and!; [done..|congruence].
Qed.

Lemma bq_clear_spec {E} q :
  bq_ok q ->
  exists q', bq_clear (E:=E) q = Ok q' /\ bq_ok q' /\ bq_queue q' = [] /\ bq_capacity q' = bq_capacity q.
Proof. intros Hok. apply clear_loop_spec; [done|lia]. Qed.

Lemma bq_wait_empty_spec q :
  bq_ok q -> (0 < bq_capacity q)%nat -> (Z.of_nat (bq_capacity q) < u32_mod)%Z ->
  match bq_wait_empty q with
  | Some q' => bq_queue q = [] /\ bq_ok q' /\ bq_queue q' = [] /\ bq_capacity q' = bq_capacity q
  | None => bq_queue q <> []
  end.
Proof.
  intros [Hpop Hpush] Hpos Hu.
  assert (wait_permits q = bq_capacity q) as Hall.
  { unfold wait_permits, wrap_u32. rewrite Z.mod_small by lia. lia. }
  unfold bq_wait_empty. rewrite Hall. destruct (acquire_push (bq_capacity q) q) as [q1|] eqn:Ha; simpl.
  - apply acquire_push_inv in Ha as (s & -> & Hs).
    assert (bq_queue q = []) as Hq by (apply length_zero_iff_nil; lia). split_and!; try done.
    rewrite Hq in *. split; simpl in *; rewrite ?add_permits_permits, ?Hq; simpl; lia.
  - unfold acquire_push in Ha. destruct (acquire_many _ _) eqn:Hm; [done|]. apply acquire_blocks in Hm.
    intros Hq. rewrite Hq in *. simpl in *. lia.
Qed.

End BoundedQueueProps.

(** ** Semaphores that count *)

#[export] Instance nat_semaphore : Semaphore nat := {|
  sem_new n := n;
  available_permits s := s;
  acquire_many n s := if bool_decide (n <= s) then Some (s - n) else None;
  add_permits n s := n + s
|}.

#[export] Instance nat_semaphore_laws : SemaphoreLaws nat.
Proof.
  split; simpl; try done.
  - intros n s s'. case_bool_decide; [|done]. intros [= <-]. lia.
  - intros n s. case_bool_decide; [done|]. lia.
Qed.

(** A [push] that is under way while another call waits for its entry. *)
Definition example_sys : Sys nat string :=
  mkSys (mkQueue 2 ["a"] 1 0) [PushPut] ["a"] [].

Lemma bounded_queue_safe_witness :
  rtc sys_step (sys_init 2) example_sys /\
  (forall c, c ∈ sy_calls example_sys ->
     exists r, call_next (E:=Empty_set) (sy_queue example_sys) c = Ok r).
Proof.
  assert (rtc sys_step (sys_init 2) example_sys) as Hr.
  { eapply rtc_l; [by apply (sys_start _ (mkQueue 2 [] 1 0) (PushHolds "a"))|].
    eapply rtc_l; [by apply (sys_next _ (mkQueue 2 ["a"] 1 0) [] (PushHolds "a") [] (Some PushPut))|].
    apply rtc_refl. }
  split; [exact Hr|]. apply (bounded_queue_safe 2 example_sys Hr).
Defined.
