(* ===== verification/VersionedStore.v ===== *)
(** * What the deployment store promises to the writer

    The writer of a subgraph ([store/postgres/src/writable.rs]) uses the
    deployment store through a few operations on the state of one deployment,
    the fields of [VersionedStore].  [VersionedStoreLaws] says what it may rely
    on: writing a block leaves all earlier blocks alone, reverting to a block
    makes its state current, and data sources are kept in the order of the
    blocks that created them.  The theorems about the writer are proved against
    these laws; [DeploymentVersions.v] proves the laws for the deployment
    store. *)

From S2P Require Import Prelude GraphqlAst Scalars RuntimeValue Values StoreTypes Schema BlockRange.
From S2P Require Import Relational DeploymentStore.

Class VersionedStore (D : Type) := {
  vs_transact : D -> BlockPtr -> option string -> list EntityModification ->
    list StoredDynamicDataSource -> list SubgraphError -> result StoreError (D * StoreEvent);
  vs_revert : D -> BlockPtr -> option string -> result StoreError (D * StoreEvent);
  vs_get : D -> EntityKey -> BlockNumber -> result StoreError (option Entity);
  vs_get_many : D -> gmap EntityType (list string) -> BlockNumber ->
    result StoreError (gmap EntityType (list Entity));
  vs_load : D -> BlockNumber -> result StoreError (list StoredDynamicDataSource);
  vs_block_ptr : D -> option BlockPtr;
  vs_block_cursor : D -> option string
}.

(** The data source that is loaded for one that was stored at block [n]. *)
Definition created_at (n : BlockNumber) (ds : StoredDynamicDataSource) : StoredDynamicDataSource :=
  mkDds (dds_name ds) (dds_source ds) (dds_context ds) (Some n).

(** Addresses have 20 bytes. *)
Definition dds_ok (ds : StoredDynamicDataSource) : Prop :=
  forall a, src_address (dds_source ds) = Some a -> length a = 20.

(** What is read for an entity after its modification, by what is read for each
    attribute: nothing after it was removed, otherwise the name of the type and
    the attributes that can be read. *)
Definition stored_view (attribute : EntityType -> string -> Value -> option Value)
    (m : EntityModification) : option Entity :=
  (fun data : Entity => <["__typename" := VString (entity_type (mod_entity_key m))]>
     (map_imap (attribute (entity_type (mod_entity_key m))) data) : Entity) <$> mod_entity m.

Class VersionedStoreLaws (D : Type) `{!VersionedStore D} := {
  (** the deployment is at the block of this number *)
  vs_inv : BlockNumber -> D -> Prop;
  (** the data sources, with the number of the block that created them *)
  vs_dds : D -> list (BlockNumber * StoredDynamicDataSource);
  (** two keys of one entity *)
  vs_same : EntityKey -> EntityKey -> Prop;
  (** modifications that can be made in one block *)
  vs_batch : list EntityModification -> Prop;
  (** what is read for a value that an attribute of an entity type is set to:
      nothing if the attribute is not stored, or if it is [null] *)
  vs_attribute : EntityType -> string -> Value -> option Value;
  vs_inv_max h d : vs_inv h d -> (h < BLOCK_NUMBER_MAX)%Z;
  vs_same_refl k : vs_same k k;
  vs_transact_ok h d ptr cursor mods dss errors d' ev :
    vs_inv h d -> (0 <= bp_number ptr < BLOCK_NUMBER_MAX)%Z -> vs_batch mods -> Forall dds_ok dss ->
    vs_transact d ptr cursor mods dss errors = Ok (d', ev) ->
    vs_inv (bp_number ptr) d' /\ (h < bp_number ptr)%Z /\ vs_block_ptr d' = Some ptr /\
    (forall k b, (b < bp_number ptr)%Z -> vs_get d' k b = vs_get d k b) /\
    (forall m b, m ∈ mods -> (bp_number ptr <= b <= BLOCK_NUMBER_MAX)%Z ->
       vs_get d' (mod_entity_key m) b = Ok (stored_view vs_attribute m)) /\
    (forall k b, (forall m, m ∈ mods -> ~ vs_same k (mod_entity_key m)) ->
       (bp_number ptr <= b <= BLOCK_NUMBER_MAX)%Z -> vs_get d' k b = vs_get d k b) /\
    vs_dds d' = vs_dds d ++ map (fun ds => (bp_number ptr, created_at (bp_number ptr) ds)) dss;
  vs_revert_ok h d ptr cursor d' ev :
    vs_inv h d -> (0 <= bp_number ptr)%Z -> vs_revert d ptr cursor = Ok (d', ev) ->
    vs_inv (bp_number ptr) d' /\ (bp_number ptr < h)%Z /\ vs_block_ptr d' = Some ptr /\
    (forall k b, (b <= BLOCK_NUMBER_MAX)%Z -> vs_get d' k b = vs_get d k (Z.min b (bp_number ptr))) /\
    vs_dds d' = List.filter (fun p => (p.1 <=? bp_number ptr)%Z) (vs_dds d);
  vs_get_after h d k b :
    vs_inv h d -> (h <= b)%Z -> vs_get d k b = vs_get d k h;
  vs_get_many_ok h d (ids : gmap EntityType (list string)) b sid :
    vs_inv h d -> (forall ty l, ids !! ty = Some l -> l <> []) ->
    (forall ty l id, ids !! ty = Some l -> id ∈ l -> exists o, vs_get d (mkKey sid ty id) b = Ok o) ->
    (forall ty l, ids !! ty = Some l ->
       NoDup l /\ forall id id', id ∈ l -> id' ∈ l -> vs_same (mkKey sid ty id) (mkKey sid ty id') -> id = id') ->
    exists r, vs_get_many d ids b = Ok r /\
      forall ty, default [] (r !! ty) ≡ₚ
        omap (fun id => match vs_get d (mkKey sid ty id) b with Ok o => o | _ => None end)
          (default [] (ids !! ty));
  vs_load_ok h d b :
    vs_inv h d -> vs_load d b = Ok (map snd (List.filter (fun p => (p.1 <=? b)%Z) (vs_dds d)));
  vs_dds_head h d : vs_inv h d -> Forall (fun p => p.1 <= h)%Z (vs_dds d)
}.

Definition vs_view `{VersionedStoreLaws D} (m : EntityModification) : option Entity :=
  stored_view vs_attribute m.

(** The attributes of the entity are read back as they are written. *)
Definition vs_kept `{VersionedStoreLaws D} (m : EntityModification) : Prop :=
  forall data f v, mod_entity m = Some data -> data !! f = Some v ->
    vs_attribute (entity_type (mod_entity_key m)) f v = Some v.

Lemma view_kept `{VersionedStoreLaws D} (m : EntityModification) :
  vs_kept m ->
  vs_view m = <["__typename" := VString (entity_type (mod_entity_key m))]> <$> mod_entity m.
Proof.
  intros Hk. unfold vs_view, stored_view. destruct (mod_entity m) as [data|] eqn:Hm; [|done]. simpl. do 2 f_equal.
  apply map_eq. intros f. rewrite map_lookup_imap. destruct (data !! f) as [v|] eqn:Hf; [|done].
  by apply (Hk data).
Qed.
