(* ===== verification/DeploymentVersions.v ===== *)
(** * The deployment store keeps its promises to the writer

    [Deployment] with its transactions implements [VersionedStore]. *)

From S2P Require Import Prelude GraphqlAst Scalars RuntimeValue Values StoreTypes Schema BlockRange.
From S2P Require Import Relational VersionProps RowProps DeploymentStore RevertProps LayoutProps.
From S2P Require Import FindManyProps DeploymentProps VersionedStore.

Section DeploymentVersions.
Context `{HX : !Hex} {R : Type} `{HR : !Int4Range R} `{HL : !Int4RangeLaws R}
  {SV : Type} `{HP : !PgValues SV}.
Context (site : DeploymentHash) (schema : Schema) (layout : Layout) (Hlayout : layout_ok layout).
Context (error_hash : SubgraphError -> string) (tag : Z).
Local Abbreviation Deployment := (Deployment R SV).
Implicit Types (d : Deployment) (ptr : BlockPtr) (row : DdsRow) (k : EntityKey)
  (mods : list EntityModification).

Definition deployment_store : VersionedStore Deployment := {|
  vs_transact := transact_block_operations error_hash site schema layout tag;
  vs_revert := revert_block_operations site layout tag;
  vs_get := deployment_get layout;
  vs_get_many := deployment_get_many layout;
  vs_load := dynds_load;
  vs_block_ptr := dp_latest_block;
  vs_block_cursor := dp_firehose_cursor
|}.

(** ** Data sources *)

Definition row_dds row : StoredDynamicDataSource :=
  mkDds (dr_name row) (mkSource (Some (dr_address row)) (dr_abi row) (dr_start_block row))
    (dr_context row) (Some (dr_block_number row)).

Definition dds_rows d : list (BlockNumber * StoredDynamicDataSource) :=
  map (fun row => (dr_block_number row, row_dds row)) (dp_dynds d).

Definition row_valid head row : Prop :=
  (0 <= dr_block_number row <= head)%Z /\ length (dr_address row) = 20.

Definition rows_sorted (rows : list DdsRow) : Prop :=
  StronglySorted (fun r1 r2 => (dr_block_number r1 <=? dr_block_number r2)%Z = true) rows.

Lemma rows_sorted_filter (p : DdsRow -> bool) rows : rows_sorted rows -> rows_sorted (List.filter p rows).
Proof.
  induction 1 as [|r rows Hs IH Hr]; simpl; [constructor|]. destruct (p r); [|done].
  constructor; [done|]. apply Forall_forall. intros x Hx%list_elem_of_In%filter_In.
  rewrite Forall_forall in Hr. apply Hr, list_elem_of_In, Hx.
Qed.

Lemma rows_sorted_app rows rows' n :
  rows_sorted rows -> Forall (fun r => dr_block_number r <= n)%Z rows ->
  Forall (fun r => dr_block_number r = n) rows' -> rows_sorted (rows ++ rows').
Proof.
  intros Hs Hle Heq. induction Hs as [|r rows Hs IH Hr]; simpl.
  - induction Heq as [|r rows' Hr Heq IH]; constructor; [done|]. apply Forall_forall. intros x Hx.
    rewrite Forall_forall in Heq. apply Z.leb_le. rewrite (Heq x Hx). lia.
  - apply Forall_cons in Hle as [Hle Hle']. constructor; [by apply IH|]. apply Forall_app. split; [done|].
    eapply Forall_impl; [exact Heq|]. simpl. intros x <-. apply Z.leb_le. lia.
Qed.

Lemma load_rows head done rows :
  (head < BLOCK_NUMBER_MAX)%Z -> rows_sorted (done ++ rows) -> Forall (row_valid head) (done ++ rows) ->
  try_fold load_row (map row_dds done) rows = Ok (map row_dds (done ++ rows)).
Proof.
  intros Hm. revert done. induction rows as [|row rows IH]; intros done Hs Hv; cbn [try_fold].
  { by rewrite app_nil_r. }
  assert (Hrow : row_valid head row).
  { apply Forall_app in Hv as [_ Hv]. by apply Forall_cons in Hv as [? _]. }
  assert (Hstep : load_row (map row_dds done) row = Ok (map row_dds (done ++ [row]))).
  { destruct Hrow as [Hn Hlen]. unfold load_row, to_source. rewrite bool_decide_true by done. cbn [negb bind_result].
    assert (Hi : to_i32 (dr_block_number row) = Some (dr_block_number row)).
    { unfold to_i32. unfold BLOCK_NUMBER_MAX in Hm.
      rewrite (proj2 (Z.leb_le i32_min _)) by (unfold i32_min; lia).
      by rewrite (proj2 (Z.leb_le _ i32_max)) by lia. }
    rewrite Hi. rewrite map_app. replace (option_ltb _ _) with false; [done|].
    destruct done as [|r done] using rev_ind; [done|]. rewrite map_app. cbn [map]. rewrite last_snoc. simpl.
    symmetry. apply Z.ltb_ge, Z.leb_le. rewrite <- app_assoc in Hs. clear -Hs.
    induction done as [|r' done IH]; simpl in Hs; apply StronglySorted_inv in Hs as [Hs Hf]; [|by apply IH].
    by apply Forall_cons in Hf as [? _]. }
  rewrite Hstep. cbn [bind_result]. rewrite IH; rewrite <- app_assoc; done.
Qed.

Lemma dynds_load_spec head d b :
  (head < BLOCK_NUMBER_MAX)%Z -> rows_sorted (dp_dynds d) -> Forall (row_valid head) (dp_dynds d) ->
  dynds_load d b = Ok (map snd (List.filter (fun p => (p.1 <=? b)%Z) (dds_rows d))).
Proof.
  intros Hm Hs Hv. unfold dynds_load. rewrite sort_by_sorted by by apply rows_sorted_filter.
  rewrite (load_rows head []); [|done|by apply rows_sorted_filter|].
  - f_equal. unfold dds_rows. simpl. clear. induction (dp_dynds d) as [|r rows IH]; simpl; [done|].
    destruct (dr_block_number r <=? b)%Z; simpl; by rewrite IH.
  - apply Forall_forall. intros r [Hr _]%list_elem_of_In%filter_In. rewrite Forall_forall in Hv.
    apply Hv. by apply list_elem_of_In.
Qed.

(** ** The promises *)

Definition deployment_at head d : Prop :=
  store_inv layout head d /\ (head < BLOCK_NUMBER_MAX)%Z /\
  rows_sorted (dp_dynds d) /\ Forall (row_valid head) (dp_dynds d).

Definition same_entity k k' : Prop :=
  entity_type k = entity_type k' /\
  (key_entity_id k = key_entity_id k' \/
   exists t v, layout !! entity_type k = Some t /\ bind_id (SV:=SV) t (key_entity_id k) = Ok v /\
     bind_id (SV:=SV) t (key_entity_id k') = Ok v).

Definition deployment_batch mods : Prop :=
  batch (SV:=SV) site layout mods /\ Forall (mod_readable (SV:=SV) layout) mods.

(** Reading fails in the same way whatever the tables hold. *)
Lemma find_or_fails (db db' : Db R SV) ty id b b' :
  (forall t idv, layout !! ty = Some t -> bind_id (SV:=SV) t id = Ok idv ->
     layout_find layout db' ty id b' = layout_find layout db ty id b) ->
  layout_find layout db' ty id b' = layout_find layout db ty id b.
Proof.
  intros Hf. unfold layout_find, table_for_entity in *. destruct (layout !! ty) as [t|]; [|done]. simpl in *.
  destruct (bind_id t id) as [idv| |] eqn:Hid; [|done..]. by apply (Hf t idv).
Qed.

(** Reading an attribute that was stored. *)
Definition read_attribute (ty : EntityType) (f : string) (v : Value) : option Value :=
  t ← layout !! ty; read_field (SV:=SV) t f v.

Lemma mod_view_attributes m :
  is_Some (layout !! entity_type (mod_entity_key m)) ->
  mod_view (SV:=SV) layout m = stored_view read_attribute m.
Proof.
  intros [t Ht]. destruct (Hlayout _ _ Ht) as [Ho _].
  destruct m as [key data|key data|key]; unfold stored_view; simpl in *; [..|done].
  all: rewrite Ht; simpl; unfold stored_entity; rewrite Ho; do 2 f_equal; apply map_eq; intros f.
  all: rewrite !map_lookup_imap; unfold read_attribute; by rewrite Ht.
Qed.

Lemma untouched_slot k t idv mods :
  layout !! entity_type k = Some t -> bind_id (SV:=SV) t (key_entity_id k) = Ok idv ->
  (forall m, m ∈ mods -> ~ same_entity k (mod_entity_key m)) ->
  (entity_type k, idv) ∉ omap (mod_slot (SV:=SV) layout) mods.
Proof.
  intros Ht Hid Hnot (m & Hin & Hs)%list_elem_of_omap. apply (Hnot m Hin). unfold mod_slot in Hs.
  destruct (layout !! entity_type (mod_entity_key m)) as [t'|] eqn:Ht'; [|done]. simpl in Hs.
  destruct (bind_id t' _) as [v| |] eqn:Hv; simpl in Hs; [|done..]. injection Hs as Hty ->.
  rewrite Hty in Ht'. split; [done|]. right. exists t, idv. split_and!; [done..|congruence].
Qed.

Lemma stored_rows head ptr dss :
  (0 <= bp_number ptr)%Z -> Forall dds_ok dss -> (forall ds, ds ∈ dss -> is_Some (dds_row ptr ds)) ->
  (bp_number ptr <= head)%Z ->
  Forall (fun r => dr_block_number r = bp_number ptr) (omap (dds_row ptr) dss) /\
  Forall (row_valid head) (omap (dds_row ptr) dss) /\
  map (fun row => (dr_block_number row, row_dds row)) (omap (dds_row ptr) dss)
    = map (fun ds => (bp_number ptr, created_at (bp_number ptr) ds)) dss.
Proof.
  intros Hn Hok Hsome Hle. induction Hok as [|ds dss Hds Hok IH]; [done|].
  destruct IH as (IH1 & IH2 & IH3); [intros x Hx; apply Hsome; by right|].
  destruct (Hsome ds) as [row Hrow]; [by left|]. cbn [omap list_omap]. rewrite Hrow. unfold dds_row in Hrow.
  destruct (src_address (dds_source ds)) as [a|] eqn:Ha; [|done]. simpl in Hrow. injection Hrow as <-.
  split_and!; cbn [map].
  - by constructor.
  - constructor; [split; simpl; [lia|by apply Hds]|done].
  - f_equal; [|done]. unfold row_dds, created_at. simpl. rewrite <- Ha.
    by destruct (dds_source ds).
Qed.

Lemma deployment_transact_ok h d ptr cursor mods dss errors d' ev :
  deployment_at h d -> (0 <= bp_number ptr < BLOCK_NUMBER_MAX)%Z -> deployment_batch mods ->
  Forall dds_ok dss ->
  transact_block_operations error_hash site schema layout tag d ptr cursor mods dss errors = Ok (d', ev) ->
  deployment_at (bp_number ptr) d' /\ (h < bp_number ptr)%Z /\ dp_latest_block d' = Some ptr /\
  (forall k b, (b < bp_number ptr)%Z -> deployment_get layout d' k b = deployment_get layout d k b) /\
  (forall m b, m ∈ mods -> (bp_number ptr <= b <= BLOCK_NUMBER_MAX)%Z ->
     deployment_get layout d' (mod_entity_key m) b = Ok (stored_view read_attribute m)) /\
  (forall k b, (forall m, m ∈ mods -> ~ same_entity k (mod_entity_key m)) ->
     (bp_number ptr <= b <= BLOCK_NUMBER_MAX)%Z ->
     deployment_get layout d' k b = deployment_get layout d k b) /\
  dds_rows d' = dds_rows d ++ map (fun ds => (bp_number ptr, created_at (bp_number ptr) ds)) dss.
Proof.
  intros (Hst & Hmax & Hs & Hv) [Hn Hm] [Hbatch Hread] Hdss Htr.
  destruct (transact_keeps_store site schema layout Hlayout error_hash tag h d ptr cursor mods dss errors d' ev)
    as [Hst' Hlt]; [done..|].
  apply transact_inv in Htr as (db & n & Happ & Hdb' & Hl & _ & Hdyn & Haddr & _).
  destruct (apply_entity_modifications_spec site schema layout Hlayout (dp_db d) mods h (bp_number ptr) db n)
    as (_ & Hbefore & _); [by destruct Hst|done..|].
  destruct (apply_entity_modifications_view site schema layout Hlayout (dp_db d) mods h (bp_number ptr) db n)
    as [Hview Hother]; [by destruct Hst|done..|].
  destruct (stored_rows (bp_number ptr) ptr dss) as (Hrn & Hrv & Hrd); [done..|].
  assert (Hv' : Forall (row_valid (bp_number ptr)) (dp_dynds d))
    by (eapply Forall_impl; [exact Hv|]; intros r [? ?]; split; [lia|done]).
  split_and!; [|done|done|..].
  - split_and!; [done|lia|..]; rewrite Hdyn.
    + eapply rows_sorted_app; [done| |exact Hrn]. eapply Forall_impl; [exact Hv'|]. intros r [? ?]. lia.
    + by apply Forall_app.
  - intros k b Hb. unfold deployment_get. rewrite Hdb'. by apply Hbefore.
  - intros m b Hin Hb. unfold deployment_get. rewrite Hdb'. rewrite Forall_forall in Hread.
    pose proof (Hview m b Hin (Hread m Hin) Hb) as Hv1. rewrite Hv1. f_equal. apply mod_view_attributes.
    destruct (layout !! entity_type (mod_entity_key m)) eqn:Ht; [done|].
    by rewrite layout_find_unknown in Hv1.
  - intros k b Hnot Hb. unfold deployment_get. rewrite Hdb'. apply find_or_fails. intros t idv Ht Hid.
    eapply Hother; [done..| |done]. by apply untouched_slot with t.
  - unfold dds_rows. by rewrite Hdyn, map_app, Hrd.
Qed.

Lemma deployment_revert_ok h d ptr cursor d' ev :
  deployment_at h d -> (0 <= bp_number ptr)%Z ->
  revert_block_operations site layout tag d ptr cursor = Ok (d', ev) ->
  deployment_at (bp_number ptr) d' /\ (bp_number ptr < h)%Z /\ dp_latest_block d' = Some ptr /\
  (forall k b, (b <= BLOCK_NUMBER_MAX)%Z ->
     deployment_get layout d' k b = deployment_get layout d k (Z.min b (bp_number ptr))) /\
  dds_rows d' = List.filter (fun p => (p.1 <=? bp_number ptr)%Z) (dds_rows d).
Proof.
  intros (Hst & Hmax & Hs & Hv) Hn. unfold revert_block_operations. pose proof (si_head _ _ _ Hst) as Hhead.
  destruct (dp_latest_block d) as [from|]; [|done]. injection Hhead as Hhead. cbn [expect bind_result].
  destruct (Z.leb_spec (bp_number from) (bp_number ptr)) as [|Hlt]; [done|]. rewrite Hhead in Hlt. intros Hrew.
  assert (Hg : forall g, dp_graft_block d = Some g -> (g <= bp_number ptr)%Z).
  { intros g Hgg. unfold rewind_with_conn in Hrew. rewrite Hgg in Hrew.
    destruct (Z.ltb_spec (bp_number ptr) g); [done|lia]. }
  destruct (rewind_spec site layout Hlayout tag h d ptr cursor)
    as (d1 & ev1 & Hr & Hl & Hgr & Hdb & Hdyn & Hfind & _); [done|done|lia|done|].
  rewrite Hr in Hrew. injection Hrew as -> ->.
  assert (Hkeep : dp_dynds d' = List.filter (fun row => (dr_block_number row <=? bp_number ptr)%Z) (dp_dynds d)).
  { rewrite Hdyn. apply filter_same. intros row _. rewrite Z.leb_antisym, negb_involutive.
    destruct (Z.ltb_spec (dr_block_number row) (bp_number ptr + 1)), (Z.leb_spec (dr_block_number row) (bp_number ptr));
      done || lia. }
  assert (Hrows : Forall (row_valid (bp_number ptr)) (dp_dynds d')).
  { rewrite Hkeep. apply Forall_forall. intros r Hin%list_elem_of_In. apply filter_In in Hin as [Hin Hle%Z.leb_le].
    rewrite Forall_forall in Hv. destruct (Hv r) as [? ?]; [by apply list_elem_of_In|]. split; [lia|done]. }
  split_and!; [|lia|done|..].
  - split_and!; [|lia|rewrite Hkeep; by apply rows_sorted_filter|done].
    split; [done|by rewrite Hl|eapply Forall_impl; [exact Hrows|]; by intros r [[]]|by rewrite Hgr].
  - intros k b Hb. by apply Hfind.
  - unfold dds_rows. rewrite Hkeep. clear. induction (dp_dynds d) as [|r rows IH]; simpl; [done|].
    destruct (dr_block_number r <=? bp_number ptr)%Z; simpl; by rewrite IH.
Qed.

Lemma deployment_get_many_ok h d (ids : gmap EntityType (list string)) b sid :
  deployment_at h d ->
  (forall ty l, ids !! ty = Some l -> l <> []) ->
  (forall ty l id, ids !! ty = Some l -> id ∈ l ->
     exists o, deployment_get layout d (mkKey sid ty id) b = Ok o) ->
  (forall ty l, ids !! ty = Some l ->
     NoDup l /\ forall id id', id ∈ l -> id' ∈ l ->
       same_entity (mkKey sid ty id) (mkKey sid ty id') -> id = id') ->
  exists r, deployment_get_many layout d ids b = Ok r /\
    forall ty, default [] (r !! ty) ≡ₚ
      omap (fun id => match deployment_get layout d (mkKey sid ty id) b with Ok o => o | _ => None end)
        (default [] (ids !! ty)).
Proof.
  intros (Hst & Hmax & _ & _) Hne Hget Hdist. unfold deployment_get_many.
  case_bool_decide as Hempty.
  { subst. exists ∅. split; [done|]. intros ty. by rewrite lookup_empty. }
  destruct (layout_find_many_spec layout (dp_db d) h b ids) as (r & Hr & Hp); [done|apply Hst|done| |by exists r].
  intros ty l Hl. destruct (layout !! ty) as [t|] eqn:Ht.
  - exists t. split_and!; [done|intros id Hin; by apply (Hget ty l)|]. intros idvs Hids%try_map_forall2.
    destruct (Hdist ty l Hl) as [Hnd Hinj]. clear Hl Hget Hne Hempty.
    induction Hids as [|id idv l idvs Hid Hids IH]; [constructor|]. apply NoDup_cons in Hnd as [Hnot Hnd].
    constructor; [|apply IH; [done..|intros ? ? ? ?; apply Hinj; by right]].
    intros Hin. destruct (forall2_elem_r _ _ _ Hids idv Hin) as (id' & Hin' & Hid').
    apply Hnot. rewrite (Hinj id id'); [done|by left|by right|]. split; [done|]. right. by exists t, idv.
  - exfalso. destruct l as [|id l]; [by apply (Hne ty [])|].
    destruct (Hget ty (id :: l) id) as [o Ho]; [done|by left|]. unfold deployment_get in Ho. simpl in Ho.
    by rewrite layout_find_unknown in Ho.
Qed.

Lemma deployment_get_after h d k b :
  deployment_at h d -> (h <= b)%Z -> deployment_get layout d k b = deployment_get layout d k h.
Proof. intros (Hst & Hmax & _) Hb. by apply find_after_head; [|apply Hst|..]. Qed.

Lemma deployment_load_ok h d b :
  deployment_at h d -> dynds_load d b = Ok (map snd (List.filter (fun p => (p.1 <=? b)%Z) (dds_rows d))).
Proof. intros (_ & Hmax & Hs & Hv). by apply (dynds_load_spec h). Qed.

Lemma deployment_dds_head h d : deployment_at h d -> Forall (fun p => p.1 <= h)%Z (dds_rows d).
Proof.
  intros (_ & _ & _ & Hv). apply Forall_fmap. eapply Forall_impl; [exact Hv|]. by intros r [[_ ?] _].
Qed.

Definition deployment_store_laws : @VersionedStoreLaws Deployment deployment_store.
Proof.
  refine (@Build_VersionedStoreLaws Deployment deployment_store deployment_at dds_rows same_entity
    deployment_batch read_attribute _ _ _ _ _ _ _ _).
  - by intros h d (_ & ? & _).
  - intros k. split; [done|by left].
  - exact deployment_transact_ok.
  - exact deployment_revert_ok.
  - exact deployment_get_after.
  - exact deployment_get_many_ok.
  - exact deployment_load_ok.
  - exact deployment_dds_head.
Defined.

End DeploymentVersions.
