(* ===== verification/Backoff.v ===== *)
(** * Exponential backoff

    [graph/src/util/backoff.rs].  A [Duration] is a number of nanoseconds, at
    most [duration_max].  [1 << self.attempt] has the type [u32] of the argument
    of [saturating_mul]; in release builds such a shift takes its right operand
    modulo 32. *)

From S2P Require Import Prelude.

Definition duration_max : Z := (2 ^ 64 * 10 ^ 9 - 1)%Z.

Definition from_millis (ms : Z) : Z := (ms * 10 ^ 6)%Z.
Definition from_secs (s : Z) : Z := (s * 10 ^ 9)%Z.

Definition saturating_mul (d n : Z) : Z := Z.min (d * n) duration_max.

(** [1_u32 << attempt] *)
Definition shl_one (attempt : Z) : Z := wrap_u32 (Z.shiftl 1 (attempt mod 32)).

Record ExponentialBackoff := mkBackoff {
  bo_attempt : Z; bo_base : Z; bo_ceiling : Z
}.

Definition backoff_new (base ceiling : Z) : ExponentialBackoff := mkBackoff 0 base ceiling.

Definition backoff_delay (b : ExponentialBackoff) : Z :=
  let delay := saturating_mul (bo_base b) (shl_one (bo_attempt b)) in
  if (bo_ceiling b <? delay)%Z then bo_ceiling b else delay.

(** The time to sleep, and the attempt is counted. *)
Definition next_attempt (b : ExponentialBackoff) : Z * ExponentialBackoff :=
  (backoff_delay b, mkBackoff (wrap_u64 (bo_attempt b + 1)) (bo_base b) (bo_ceiling b)).

Definition backoff_reset (b : ExponentialBackoff) : ExponentialBackoff :=
  mkBackoff 0 (bo_base b) (bo_ceiling b).

Lemma shl_one_spec attempt : (0 <= attempt)%Z -> shl_one attempt = (2 ^ (attempt mod 32))%Z.
Proof.
  intros H. unfold shl_one, wrap_u32, u32_mod. rewrite Z.shiftl_1_l.
  pose proof (Z.mod_pos_bound attempt 32 ltac:(lia)). apply Z.mod_small. split.
  - apply Z.pow_nonneg. lia.
  - apply Z.pow_lt_mono_r; lia.
Qed.

Lemma backoff_delay_spec attempt base ceiling :
  (0 <= attempt)%Z -> (0 <= ceiling <= duration_max)%Z ->
  backoff_delay (mkBackoff attempt base ceiling) = Z.min (base * 2 ^ (attempt mod 32)) ceiling.
Proof.
  intros Ha Hc. unfold backoff_delay, saturating_mul. simpl. rewrite shl_one_spec by done.
  destruct (Z.ltb_spec ceiling (Z.min (base * 2 ^ (attempt mod 32)) duration_max)); lia.
Qed.

(** For the first 32 attempts the delay is the base doubled with each attempt,
    but never more than the ceiling.  From the 33rd attempt on the delays start
    again at the base, although they are documented to stay at the ceiling;
    with the constants of [SyncStore] that is when a database has been away for
    four and a half minutes. *)
Theorem backoff_delays base ceiling :
  (0 <= base <= ceiling)%Z -> (ceiling <= duration_max)%Z ->
  (forall attempt, (0 <= attempt < 32)%Z ->
     backoff_delay (mkBackoff attempt base ceiling) = Z.min (base * 2 ^ attempt) ceiling) /\
  backoff_delay (mkBackoff 32 base ceiling) = base.
Proof.
  intros Hb Hc. split.
  - intros attempt Ha. rewrite backoff_delay_spec by lia. by rewrite Z.mod_small by lia.
  - rewrite backoff_delay_spec by lia. change (32 mod 32)%Z with 0%Z. lia.
Qed.

Definition BACKOFF_BASE : Z := from_millis 100.
Definition BACKOFF_CEIL : Z := from_secs 10.

Lemma backoff_delays_witness :
  backoff_delay (mkBackoff 31 BACKOFF_BASE BACKOFF_CEIL) = from_secs 10 /\
  backoff_delay (mkBackoff 32 BACKOFF_BASE BACKOFF_CEIL) = from_millis 100.
Proof.
  destruct (backoff_delays BACKOFF_BASE BACKOFF_CEIL) as [Hfirst Hwrap]; [by vm_compute|by vm_compute|].
  split; [|exact Hwrap]. rewrite Hfirst; [reflexivity|lia].
Defined.
