(* ===== verification/Runner.v ===== *)
(** * The subgraph runner

    [SubgraphRunner] of [core/src/subgraph/runner.rs]: processing the events of a
    block stream.  A block is processed by running its triggers through the hosts,
    instantiating the data sources that handlers asked for and running their
    triggers too, and writing the modifications to the store.

    The chain, which gives the triggers of a block for a filter and builds data
    sources and hosts, and the settings of the node are records of what the runner
    uses of them; the store is the interface [RunnerStore].  What the environment decides,
    whether the stream is cancelled, how long ago the timer was reset and what the
    head of the chain is, comes with the event. *)

From stdpp Require Import pretty.
From S2P Require Import Prelude GraphqlAst Scalars RuntimeValue Values Names StoreTypes StoreProps.
From S2P Require Import Schema EntityValidate CacheInterface EntityCache BlockState Gas ProofOfIndexing HostExports.
From S2P Require Import SubgraphInstance Relational DeploymentStore Backoff.

Inductive BlockProcessingError (E : Type) :=
| BpUnknown (e : E)
| BpDeterministic (e : SubgraphError)
| BpCanceled.
Arguments BpUnknown {E}.
Arguments BpDeterministic {E}.
Arguments BpCanceled {E}.

Definition bp_is_deterministic {E} (e : BlockProcessingError E) : bool :=
  match e with BpDeterministic _ => true | _ => false end.

Inductive Action := Continue | Stop | Restart.

Inductive UnfailOutcome := Noop | Unfailed.

Definition POI_OBJECT : EntityType := "Poi$".

Definition close_to_chain_head (deployment_head_ptr : BlockPtr) (chain_head_ptr : option BlockPtr) (n : Z) : bool :=
  match chain_head_ptr with
  | Some b2 => (wrap_i32 (bp_number b2 - n) <=? bp_number deployment_head_ptr)%Z
  | None => false
  end.

(** The parts of [WritableStore] that the runner uses.  A call that fails may have
    changed the store. *)
Class RunnerStore (W QErr StoredDs : Type) := {
  rs_block_ptr : W -> option BlockPtr;
  rs_supports_proof_of_indexing : W -> result (AnyError QErr) bool;
  rs_reader : W -> EntityReader QErr;
  rs_transact_block_operations : W -> BlockPtr -> option string -> list EntityModification ->
    list StoredDs -> list SubgraphError -> result (AnyError QErr) unit * W;
  rs_revert_block_operations : W -> BlockPtr -> option string -> result (AnyError QErr) unit * W;
  rs_fail_subgraph : W -> SubgraphError -> result (AnyError QErr) unit * W;
  rs_health : W -> result (AnyError QErr) SubgraphHealth;
  rs_is_deployment_synced : W -> result (AnyError QErr) bool;
  rs_deployment_synced : W -> result (AnyError QErr) unit * W;
  rs_unassign_subgraph : W -> result (AnyError QErr) unit * W;
  rs_unfail_deterministic_error : W -> BlockPtr -> BlockPtr -> result (AnyError QErr) UnfailOutcome * W;
  rs_unfail_non_deterministic_error : W -> BlockPtr -> result (AnyError QErr) UnfailOutcome * W
}.

(** The node: limits and other settings of its environment, the texts of errors,
    the order in which hash maps are iterated, and the fuel of [Entity::validate]. *)
Record Node (C QErr Template : Type) `{HS : StableHash} := mkNode {
  nd_template_name : Template -> string;
  nd_hash_iter : gmap EntityKey EntityOp -> list (EntityKey * EntityOp);
  nd_poi_iter : gmap string BlockEventStream -> list (string * BlockEventStream);
  nd_cache_is_empty : C -> bool;
  nd_fuel : nat;
  nd_max_gas_per_handler : Z;
  nd_debug_fork : option (string -> string -> result string (option Entity));
  nd_trap_to_string : Trap (AnyError QErr) -> string;
  nd_error_text : AnyError QErr -> string;
  nd_timeout : option Z;
  nd_entity_cache_size : Z;
  nd_max_data_sources : option nat;
  nd_disable_fail_fast : bool
}.

Arguments nd_template_name {C QErr Template HS}.
Arguments nd_hash_iter {C QErr Template HS}.
Arguments nd_poi_iter {C QErr Template HS}.
Arguments nd_cache_is_empty {C QErr Template HS}.
Arguments nd_fuel {C QErr Template HS}.
Arguments nd_max_gas_per_handler {C QErr Template HS}.
Arguments nd_debug_fork {C QErr Template HS}.
Arguments nd_trap_to_string {C QErr Template HS}.
Arguments nd_error_text {C QErr Template HS}.
Arguments nd_timeout {C QErr Template HS}.
Arguments nd_entity_cache_size {C QErr Template HS}.
Arguments nd_max_data_sources {C QErr Template HS}.
Arguments nd_disable_fail_fast {C QErr Template HS}.

(** The chain: blocks and their triggers, data sources and their hosts, filters *)
Record Chain (QErr StoredDs Template Ctx DataSource Trigger Block MappingTrigger Filter : Type) := mkChain {
  ch_block_ptr : Block -> BlockPtr;
  ch_new_host : DataSource ->
    result (AnyError QErr) (RuntimeHost QErr Template Ctx DataSource Trigger Block MappingTrigger);
  ch_is_duplicate_of : DataSource -> DataSource -> bool;
  ch_creation_block : DataSource -> option BlockNumber;
  ch_data_source_try_from : DataSourceTemplateInfo Template Ctx -> result (AnyError QErr) DataSource;
  ch_as_stored_dynamic_data_source : DataSource -> StoredDs;
  ch_filter_from_data_sources : list DataSource -> Filter;
  ch_filter_extend : Filter -> list DataSource -> Filter;
  ch_error_context : Trigger -> string;
  ch_triggers_in_block : Block -> Filter -> result (AnyError QErr) (list Trigger)
}.

Arguments ch_new_host {QErr StoredDs Template Ctx DataSource Trigger Block MappingTrigger Filter}.
Arguments ch_is_duplicate_of {QErr StoredDs Template Ctx DataSource Trigger Block MappingTrigger Filter}.
Arguments ch_creation_block {QErr StoredDs Template Ctx DataSource Trigger Block MappingTrigger Filter}.
Arguments ch_data_source_try_from {QErr StoredDs Template Ctx DataSource Trigger Block MappingTrigger Filter}.
Arguments ch_as_stored_dynamic_data_source {QErr StoredDs Template Ctx DataSource Trigger Block MappingTrigger Filter}.
Arguments ch_filter_from_data_sources {QErr StoredDs Template Ctx DataSource Trigger Block MappingTrigger Filter}.
Arguments ch_filter_extend {QErr StoredDs Template Ctx DataSource Trigger Block MappingTrigger Filter}.
Arguments ch_error_context {QErr StoredDs Template Ctx DataSource Trigger Block MappingTrigger Filter}.
Arguments ch_triggers_in_block {QErr StoredDs Template Ctx DataSource Trigger Block MappingTrigger Filter}.
Arguments ch_block_ptr {QErr StoredDs Template Ctx DataSource Trigger Block MappingTrigger Filter}.

Record IndexingInputs := mkInputs {
  in_deployment : DeploymentHash;
  in_network : string;
  in_non_fatal_errors : bool;
  in_stop_block : option BlockNumber;
  in_static_filters : bool
}.

Section Runner.
Context `{HX : !Hex} `{HB : !NumBits} `{HS : !StableHash}.
Context {C : Type} `{HC : !CacheOps EntityKey (option Entity) C}.
Context {QErr StoredDs Template Ctx : Type}.
Context {DataSource Trigger Block MappingTrigger Filter : Type}.
Context {W : Type} `{HW : !RunnerStore W QErr StoredDs}.
Context (node : Node C QErr Template).
Context (chain : Chain QErr StoredDs Template Ctx DataSource Trigger Block MappingTrigger Filter).
Context (inputs : IndexingInputs).

Local Abbreviation AnyError := (AnyError QErr).
Local Abbreviation BlockState := (BlockState C StoredDs Template Ctx).
Local Abbreviation DataSourceTemplateInfo := (DataSourceTemplateInfo Template Ctx).
Local Abbreviation RuntimeHost := (RuntimeHost QErr Template Ctx DataSource Trigger Block MappingTrigger).
Local Abbreviation cache := (EntityCache C StoredDs).

Record Runner := mkRunner {
  rn_store : W;
  rn_hosts : list RuntimeHost;
  rn_filter : Filter;
  rn_should_try_unfail_non_deterministic : bool;
  rn_synced : bool;
  rn_backoff : ExponentialBackoff;
  rn_skip_ptr_updates_timer : Z;
  rn_entity_lfu_cache : C
}.

Definition rn_with_store (r : Runner) (w : W) : Runner :=
  mkRunner w (rn_hosts r) (rn_filter r) (rn_should_try_unfail_non_deterministic r) (rn_synced r)
    (rn_backoff r) (rn_skip_ptr_updates_timer r) (rn_entity_lfu_cache r).
Definition rn_with_hosts (r : Runner) (hosts : list RuntimeHost) : Runner :=
  mkRunner (rn_store r) hosts (rn_filter r) (rn_should_try_unfail_non_deterministic r) (rn_synced r)
    (rn_backoff r) (rn_skip_ptr_updates_timer r) (rn_entity_lfu_cache r).
Definition rn_with_filter (r : Runner) (filter : Filter) : Runner :=
  mkRunner (rn_store r) (rn_hosts r) filter (rn_should_try_unfail_non_deterministic r) (rn_synced r)
    (rn_backoff r) (rn_skip_ptr_updates_timer r) (rn_entity_lfu_cache r).
Definition rn_with_unfail (r : Runner) (b : bool) : Runner :=
  mkRunner (rn_store r) (rn_hosts r) (rn_filter r) b (rn_synced r)
    (rn_backoff r) (rn_skip_ptr_updates_timer r) (rn_entity_lfu_cache r).
Definition rn_with_synced (r : Runner) (b : bool) : Runner :=
  mkRunner (rn_store r) (rn_hosts r) (rn_filter r) (rn_should_try_unfail_non_deterministic r) b
    (rn_backoff r) (rn_skip_ptr_updates_timer r) (rn_entity_lfu_cache r).
Definition rn_with_backoff (r : Runner) (b : ExponentialBackoff) : Runner :=
  mkRunner (rn_store r) (rn_hosts r) (rn_filter r) (rn_should_try_unfail_non_deterministic r) (rn_synced r)
    b (rn_skip_ptr_updates_timer r) (rn_entity_lfu_cache r).
Definition rn_with_cache (r : Runner) (c : C) : Runner :=
  mkRunner (rn_store r) (rn_hosts r) (rn_filter r) (rn_should_try_unfail_non_deterministic r) (rn_synced r)
    (rn_backoff r) (rn_skip_ptr_updates_timer r) c.
Definition rn_with_timer (r : Runner) (t : Z) : Runner :=
  mkRunner (rn_store r) (rn_hosts r) (rn_filter r) (rn_should_try_unfail_non_deterministic r) (rn_synced r)
    (rn_backoff r) t (rn_entity_lfu_cache r).

(** ** Calls that change the runner and may fail *)

(** [None] is a loop that has not ended within the (nd_fuel node). *)
Definition RM (E A : Type) : Type := Runner -> option (result E A * Runner).

Definition rm_ret {E A} (a : A) : RM E A := fun r => Some (Ok a, r).

Definition rm_lift {E A} (x : result E A) : RM E A := fun r => Some (x, r).

Definition rm_bind {E A B} (m : RM E A) (k : A -> RM E B) : RM E B := fun r =>
  match m r with
  | Some (Ok a, r) => k a r
  | Some (Err e, r) => Some (Err e, r)
  | Some (Panic, r) => Some (Panic, r)
  | None => None
  end.

Local Notation "'let!' x ':=' e 'in' k" := (rm_bind e (fun x => k))
  (at level 200, x name, e at level 100, k at level 200, right associativity).

Definition rm_get {E A} (f : Runner -> A) : RM E A := fun r => Some (Ok (f r), r).

Definition rm_modify {E} (f : Runner -> Runner) : RM E unit := fun r => Some (Ok tt, f r).

(** A call of the store *)
Definition rm_store {E A} (wrap : AnyError -> E) (f : W -> result AnyError A * W) : RM E A := fun r =>
  let (x, w) := f (rn_store r) in Some (map_err wrap x, rn_with_store r w).

Definition rm_map_err {E E' A} (f : E -> E') (m : RM E A) : RM E' A := fun r =>
  match m r with Some (x, r) => Some (map_err f x, r) | None => None end.

(** ** Triggers *)

Fixpoint run_triggers {E} (wrap : Trigger -> MappingError AnyError -> E) (w : W) (hosts : list RuntimeHost)
    (block : Block) (causality_region : string) (triggers : list Trigger)
    (st : BlockState * option ProofOfIndexing) : result E (BlockState * option ProofOfIndexing) :=
  match triggers with
  | [] => Ok st
  | trigger :: triggers =>
      let? st := map_err (wrap trigger)
        (process_trigger_in_runtime_hosts (nd_template_name node) (nd_hash_iter node) (rs_reader w) (nd_fuel node)
           (nd_max_gas_per_handler node) (nd_debug_fork node) (nd_trap_to_string node) (nd_error_text node)
           (nd_timeout node) hosts block (ch_block_ptr chain block) trigger st.1 st.2 causality_region) in
      run_triggers wrap w hosts block causality_region triggers st
  end.

Definition trigger_error (trigger : Trigger) (e : MappingError AnyError) : MappingError AnyError :=
  let e := if bool_decide (ch_error_context chain trigger = EmptyString) then e
           else mapping_context (ch_error_context chain trigger) e in
  mapping_context "failed to process trigger" e.

Definition process_triggers (poi : option ProofOfIndexing) (block : Block) (triggers : list Trigger)
    (causality_region : string) : RM (MappingError AnyError) (BlockState * option ProofOfIndexing) := fun r =>
  let block_state := bs_new (rn_entity_lfu_cache r) in
  let r := rn_with_cache r cache_new in
  Some (run_triggers trigger_error (rn_store r) (rn_hosts r) block causality_region triggers (block_state, poi), r).

(** ** Data sources *)

Fixpoint create_dynamic_data_sources (created_data_sources : list DataSourceTemplateInfo)
    : RM AnyError (list DataSource * list RuntimeHost) :=
  match created_data_sources with
  | [] => rm_ret ([], [])
  | info :: infos =>
      let! data_source := rm_lift (ch_data_source_try_from chain info) in
      let! host := (fun r =>
        match add_dynamic_data_source (ch_new_host chain) (ch_is_duplicate_of chain) (ch_creation_block chain)
                (nd_max_data_sources node) (rn_hosts r) data_source with
        | Ok (host, hosts) => Some (Ok host, rn_with_hosts r hosts)
        | Err e => Some (Err e, r)
        | Panic => Some (Panic, r)
        end) in
      let! rest := create_dynamic_data_sources infos in
      rm_ret (match host with
              | Some host => (data_source :: rest.1, host :: rest.2)
              | None => rest
              end)
  end.

Definition persist_dynamic_data_sources {E} (entity_cache : cache) (data_sources : list DataSource) : RM E cache :=
  let! _ := rm_modify (fun r => rn_with_filter r (ch_filter_extend chain (rn_filter r) data_sources)) in
  rm_ret (foldl (fun c ds => ec_add_data_source c (ch_as_stored_dynamic_data_source chain ds))
            entity_cache data_sources).

(** One round of the loop over created data sources *)
Definition process_created (poi : option ProofOfIndexing) (block : Block) (causality_region : string)
    (block_state : BlockState)
    : RM (BlockProcessingError AnyError) (BlockState * option ProofOfIndexing) :=
  let! drained := rm_lift (bs_drain_created_data_sources block_state) in
  let! created := rm_map_err BpUnknown (create_dynamic_data_sources drained.1) in
  let filter := ch_filter_from_data_sources chain created.1 in
  let! triggers := rm_lift (map_err BpUnknown (ch_triggers_in_block chain block filter)) in
  let! entity_cache := persist_dynamic_data_sources (bs_entity_cache drained.2) created.1 in
  let! w := rm_get rn_store in
  rm_lift (run_triggers
    (fun _ e => match e with MappingPossibleReorg e | MappingUnknown e => BpUnknown e end)
    w created.2 block causality_region triggers (bs_with_cache drained.2 entity_cache, poi)).

Fixpoint process_all_created (rounds : nat) (poi : option ProofOfIndexing) (block : Block)
    (causality_region : string) (block_state : BlockState)
    : RM (BlockProcessingError AnyError) (BlockState * option ProofOfIndexing) :=
  let! has_created := rm_lift (bs_has_created_data_sources block_state) in
  if has_created then
    match rounds with
    | O => fun _ => None
    | S rounds =>
        let! st := process_created poi block causality_region block_state in
        process_all_created rounds st.2 block causality_region st.1
    end
  else rm_ret (block_state, poi).

(** ** Proofs of indexing *)

Definition digest_of {E} (entity : Entity) : result E Bytes :=
  match entity_get entity "digest" with Some (VBytes b) => Ok b | _ => Panic end.

Definition poi_entity (id : string) (digest : Bytes) : Entity :=
  entity_set (entity_set entity_new "id" (VString id)) "digest" (VBytes digest).

Definition update_poi_region (w : W) (c : cache) (region : string * BlockEventStream) : result AnyError cache :=
  let key := mkKey (in_deployment inputs) POI_OBJECT region.1 in
  let? r := map_err QueryFailed (ec_get (rs_reader w) c key) in
  let? prev_poi := match r.1 with
                   | Some entity => map_result Some (digest_of entity)
                   | None => Ok None
                   end in
  let updated := stream_pause region.2 prev_poi in
  let (x, c) := ec_set (rs_reader w) (nd_fuel node) r.2 key (poi_entity region.1 updated) in
  let? _ := map_err SetFailed x in
  Ok c.

Definition update_proof_of_indexing (w : W) (poi : ProofOfIndexing) (c : cache) : result AnyError cache :=
  try_fold (update_poi_region w) c (nd_poi_iter node (poi_take poi)).

(** ** Blocks *)

Definition is_poi_mod (m : EntityModification) : bool := is_poi (entity_type (mod_entity_key m)).

(** [process_block] after the handlers: turn their updates into modifications *)
Definition block_modifications (canceled : bool) (poi : option ProofOfIndexing) (block_state : BlockState)
    : RM (BlockProcessingError AnyError) (list EntityModification * list StoredDs) :=
  if canceled then rm_lift (Err BpCanceled) else
  let! w := rm_get rn_store in
  let! entity_cache := rm_lift
    match poi with
    | Some poi => map_err BpUnknown (update_proof_of_indexing w poi (bs_entity_cache block_state))
    | None => Ok (bs_entity_cache block_state)
    end in
  let! mc := rm_lift (map_err (fun e => BpUnknown (QueryFailed e))
    (as_modifications (nd_hash_iter node) (rs_reader w) (nd_entity_cache_size node) entity_cache)) in
  let! placeholder := rm_get rn_entity_lfu_cache in
  let! _ := rm_lift (assert! nd_cache_is_empty node placeholder ;; Ok tt) in
  let! _ := rm_modify (fun r => rn_with_cache r (mc_entity_lfu_cache mc)) in
  rm_ret (mc_modifications mc, mc_data_sources mc).

(** [process_block] from the deterministic errors on *)
Definition transact_block_state (block_ptr : BlockPtr) (cursor : option string) (needs_restart : bool)
    (errors : list SubgraphError) (mods : list EntityModification) (data_sources : list StoredDs)
    : RM (BlockProcessingError AnyError) Action :=
  let has_errors := match errors with [] => false | _ => true end in
  let fatal := has_errors && negb (in_non_fatal_errors inputs) in
  let! mods := rm_lift
    (if fatal then
       let mods := List.filter is_poi_mod mods in
       assert! bool_decide (length mods = 1%nat) ;; Ok mods
     else Ok mods) in
  let first_error := head errors in
  let! _ := rm_store (fun e => BpUnknown (WithContext "Failed to transact block operations" e))
    (fun w => rs_transact_block_operations w block_ptr cursor mods data_sources errors) in
  if fatal then
    let! e := rm_lift (expect first_error) in
    rm_lift (Err (BpDeterministic e))
  else
    let! unassign :=
      (if has_errors && negb (nd_disable_fail_fast node)
       then let! synced := rm_store BpUnknown (fun w => (rs_is_deployment_synced w, w)) in rm_ret (negb synced)
       else rm_ret false) in
    if unassign then
      let! _ := rm_store BpUnknown rs_unassign_subgraph in
      rm_lift (Err BpCanceled)
    else rm_ret (if needs_restart then Restart else Continue).

(** [rounds] bounds the rounds of created data sources. *)
Definition process_block (rounds : nat) (canceled : bool) (block : Block) (triggers : list Trigger)
    (cursor : option string) : RM (BlockProcessingError AnyError) Action := fun r =>
  (let! supports_poi := rm_store BpUnknown (fun w => (rs_supports_proof_of_indexing w, w)) in
   let poi := if supports_poi : bool then Some (poi_new (bp_number (ch_block_ptr chain block))) else None in
   let region := from_network (in_network inputs) in
   fun r =>
   match process_triggers poi block triggers region r with
   | None => None
   | Some (Panic, r) => Some (Panic, r)
   | Some (Err (MappingUnknown e), r) => Some (Err (BpUnknown e), r)
   | Some (Err (MappingPossibleReorg _), r) => Some (Ok Restart, r)
   | Some (Ok (block_state, poi), r) =>
       (let! has_created := rm_lift (bs_has_created_data_sources block_state) in
        let needs_restart := has_created && negb (in_static_filters inputs) in
        let! st := process_all_created rounds poi block region block_state in
        let! mods := block_modifications canceled st.2 st.1 in
        transact_block_state (ch_block_ptr chain block) cursor needs_restart (bs_deterministic_errors st.1)
          mods.1 mods.2) r
   end) r.

(** ** Events *)

(** What the environment answers while an event is handled: the clock when it is
    compared and when the timer is reset, the cancel handle and the head of the
    chain at its two lookups. *)
Record Environment := mkEnv {
  env_now : Z;
  env_reset_now : Z;
  env_canceled : bool;
  env_chain_head : result AnyError (option BlockPtr);
  env_chain_head_after : result AnyError (option BlockPtr)
}.

Definition SKIP_PTR_UPDATES_THRESHOLD : Z := from_secs (60 * 5).

Definition hash_hex (p : BlockPtr) : string := hex_encode (bp_hash p).

Definition block_ptr_to_string (p : BlockPtr) : string :=
  "#" +:+ pretty (bp_number p) +:+ " (" +:+ hash_hex p +:+ ")".

Definition subgraph_error_to_string (e : SubgraphError) : string :=
  err_message e
  +:+ match err_handler e with Some handler => " in handler `" +:+ handler +:+ "`" | None => EmptyString end
  +:+ match err_block_ptr e with Some p => " at block " +:+ block_ptr_to_string p | None => EmptyString end.

Definition bp_to_string (e : BlockProcessingError AnyError) : string :=
  match e with
  | BpUnknown e => (nd_error_text node) e
  | BpDeterministic e => subgraph_error_to_string e
  | BpCanceled => "subgraph stopped while processing triggers"
  end.

(** [handle_process_block] after a block has been processed *)
Definition after_block (env : Environment) (block_ptr : BlockPtr) (action : Action) : RM AnyError Action :=
  let! synced := rm_get rn_synced in
  let! _ :=
    (if synced then rm_ret tt else
     let! chain_head := rm_lift (env_chain_head_after env) in
     if close_to_chain_head block_ptr chain_head 1 then
       let! _ := rm_store (fun e => e) rs_deployment_synced in
       rm_modify (fun r => rn_with_synced r true)
     else rm_ret tt) in
  let! try_unfail := rm_get rn_should_try_unfail_non_deterministic in
  let! _ :=
    (if try_unfail : bool then
       let! outcome := rm_store (fun e => e) (fun w => rs_unfail_non_deterministic_error w block_ptr) in
       match outcome with
       | Unfailed => rm_modify (fun r =>
           let r := rn_with_unfail r false in rn_with_backoff r (backoff_reset (rn_backoff r)))
       | Noop => rm_ret tt
       end
     else rm_ret tt) in
  match action with
  | Restart => rm_ret Restart
  | _ =>
      match in_stop_block inputs with
      | Some stop_block => rm_ret (if (stop_block <=? bp_number block_ptr)%Z then Stop else Continue)
      | None => rm_ret Continue
      end
  end.

(** [handle_process_block] after processing a block has failed *)
Definition after_failure (block_ptr : BlockPtr) (e : BlockProcessingError AnyError) : RM AnyError Action :=
  let! _ := rm_modify (fun r => rn_with_cache r cache_new) in
  let message := replace_newlines (bp_to_string e) in
  let deterministic := bp_is_deterministic e in
  let error := mkError (in_deployment inputs) message (Some block_ptr) None deterministic in
  let fail_subgraph : RM AnyError unit :=
    rm_store (WithContext "Failed to set subgraph status to `failed`") (fun w => rs_fail_subgraph w error) in
  if deterministic then
    let! _ := fail_subgraph in
    rm_lift (Err (External (message +:+ ", code: SubgraphSyncingFailure")))
  else
    let! health := rm_store (fun e => e) (fun w => (rs_health w, w)) in
    let! _ := (if bool_decide (health <> Failed) then fail_subgraph else rm_ret tt) in
    let! _ := rm_modify (fun r => rn_with_backoff r (next_attempt (rn_backoff r)).2) in
    let! _ := rm_modify (fun r => rn_with_unfail r true) in
    rm_ret Restart.

Definition skips_block (env : Environment) (block_ptr : BlockPtr) (triggers : list Trigger) : RM AnyError bool :=
  let! timer := rm_get rn_skip_ptr_updates_timer in
  let! synced := rm_get rn_synced in
  if bool_decide (triggers = []) && (Z.max 0 (env_now env - timer) <=? SKIP_PTR_UPDATES_THRESHOLD)%Z
     && negb synced then
    let! chain_head := rm_lift (env_chain_head env) in
    rm_ret (negb (close_to_chain_head block_ptr chain_head 1000))
  else rm_ret false.

Definition handle_process_block (rounds : nat) (env : Environment) (block : Block) (triggers : list Trigger)
    (cursor : option string) : RM AnyError Action :=
  let block_ptr := ch_block_ptr chain block in
  let! skip := skips_block env block_ptr triggers in
  if skip then rm_ret Continue else
  let! _ := rm_modify (fun r => rn_with_timer r (env_reset_now env)) in
  fun r =>
  match process_block rounds (env_canceled env) block triggers cursor r with
  | None => None
  | Some (Panic, r) => Some (Panic, r)
  | Some (Ok action, r) => after_block env block_ptr action r
  | Some (Err BpCanceled, r) => Some (Ok Stop, r)
  | Some (Err e, r) => after_failure block_ptr e r
  end.

Definition handle_revert (revert_to_ptr : BlockPtr) (cursor : option string) : RM AnyError Action :=
  let! head := rm_get (fun r => rs_block_ptr (rn_store r)) in
  let! subgraph_ptr := rm_lift (expect head) in
  if (bp_number subgraph_ptr <=? bp_number revert_to_ptr)%Z then rm_ret Continue else
  fun r =>
  let (x, w) := rs_revert_block_operations (rn_store r) revert_to_ptr cursor in
  let r := rn_with_store r w in
  match x with
  | Panic => Some (Panic, r)
  | Err _ => Some (Ok Restart, r)
  | Ok _ =>
      let r := rn_with_hosts r (revert_data_sources (rn_hosts r) (bp_number subgraph_ptr)) in
      Some (Ok Continue, rn_with_cache r cache_new)
  end.

Definition handle_err (env : Environment) : RM AnyError Action :=
  rm_ret (if env_canceled env then Stop else Continue).

Inductive StreamEvent :=
| ProcessBlock (block : Block) (triggers : list Trigger) (cursor : option string)
| Revert (revert_to_ptr : BlockPtr) (cursor : option string)
| StreamError
| StreamEnded.

Definition handle_stream_event (rounds : nat) (env : Environment) (event : StreamEvent) : RM AnyError Action :=
  match event with
  | ProcessBlock block triggers cursor => handle_process_block rounds env block triggers cursor
  | Revert revert_to_ptr cursor => handle_revert revert_to_ptr cursor
  | StreamError => handle_err env
  | StreamEnded => rm_lift Panic
  end.

(** ** The loops of [run] *)

Definition runner_new (store : W) (hosts : list RuntimeHost) (filter : Filter) (now ceiling : Z) : Runner :=
  mkRunner store hosts filter true false (backoff_new (from_secs (60 * 2)) ceiling) now cache_new.

(** Events from the stream as long as no restart is needed *)
Fixpoint run_stream (rounds : nat) (events : list (Environment * StreamEvent)) : RM AnyError Action :=
  match events with
  | [] => fun _ => None
  | (env, event) :: events =>
      let! action := handle_stream_event rounds env event in
      match action with
      | Continue => run_stream rounds events
      | Stop => rm_ret Stop
      | Restart => rm_ret Restart
      end
  end.

(** A stream is opened again after each restart. *)
Fixpoint run_streams (rounds : nat) (streams : list (list (Environment * StreamEvent))) : RM AnyError unit :=
  match streams with
  | [] => fun _ => None
  | events :: streams =>
      let! action := run_stream rounds events in
      match action with
      | Stop => rm_ret tt
      | _ => run_streams rounds streams
      end
  end.

Definition run (parent_ptr : BlockPtr -> result AnyError (option BlockPtr)) (rounds : nat)
    (streams : list (list (Environment * StreamEvent))) : RM AnyError unit :=
  let! head := rm_get (fun r => rs_block_ptr (rn_store r)) in
  let! _ :=
    match head with
    | Some current_ptr =>
        let! parent := rm_lift (parent_ptr current_ptr) in
        match parent with
        | Some parent_ptr =>
            let! _ := rm_store (fun e => e) (fun w => rs_unfail_deterministic_error w current_ptr parent_ptr) in
            rm_ret tt
        | None => rm_ret tt
        end
    | None => rm_ret tt
    end in
  run_streams rounds streams.

End Runner.
Arguments Runner : clear implicits.
