(* ===== verification/RunnerProps.v ===== *)
(** * Correctness of the subgraph runner

    The runner over a store that answers reads and writes blocks as a whole: a
    processed block brings the store to what its handlers have done, one
    transaction after the other, and the cache that the runner keeps from block to
    block agrees with the store after every event. *)

From S2P Require Import Prelude GraphqlAst Scalars RuntimeValue Values Names StoreTypes StoreProps.
From S2P Require Import Schema EntityValidate CacheInterface EntityCache EntityCacheProps BlockState Gas.
From S2P Require Import ProofOfIndexing HostExports SubgraphInstance HandlerProps InstanceProps.
From S2P Require Import Relational DeploymentStore Backoff Runner.

(** Entities of the proof of indexing have a digest. *)
Definition has_digest (e : Entity) : Prop := exists d, attr e "digest" = Some (VBytes d).

(** What the runner relies on: the store of deployment [sid] has contents, reads
    answer them, a written block changes them by its modifications, and a block that
    can not be written does not change them. *)
Class RunnerStoreLaws (W QErr StoredDs : Type) `{HX : !Hex} `{HW : !RunnerStore W QErr StoredDs}
    (sid : DeploymentHash) := {
  rs_ok : W -> Prop;
  rs_contents : W -> gmap EntityKey Entity;
  rs_data_sources : W -> list StoredDs;
  rs_reads w : rs_ok w -> reads_from (rs_reader w) (rs_contents w) sid;
  rs_schema w ty : rs_ok w -> is_immutable (rd_input_schema (rs_reader w)) ty = false;
  rs_poi w k e : rs_ok w -> rs_contents w !! k = Some e -> is_poi (entity_type k) = true -> has_digest e;
  rs_transact_ok w ptr cursor mods dss errors x w' :
    rs_ok w -> Forall (fun m => is_poi_mod m = true -> forall e, mod_entity m = Some e -> has_digest e) mods ->
    rs_transact_block_operations w ptr cursor mods dss errors = (x, w') ->
    x <> Panic /\ rs_ok w' /\
    (x = Ok tt -> rs_contents w' = apply_mods mods (rs_contents w) /\
                  rs_data_sources w' = rs_data_sources w ++ dss /\ rs_block_ptr w' = Some ptr) /\
    (is_err x = true -> rs_contents w' = rs_contents w /\
                        rs_data_sources w' = rs_data_sources w /\ rs_block_ptr w' = rs_block_ptr w);
  rs_revert_ok w ptr cursor x w' :
    rs_ok w -> rs_revert_block_operations w ptr cursor = (x, w') ->
    x <> Panic /\ rs_ok w' /\ (is_err x = true -> rs_contents w' = rs_contents w);
  rs_supports_ok w : rs_ok w -> rs_supports_proof_of_indexing w <> Panic;
  rs_health_ok w : rs_ok w -> rs_health w <> Panic;
  rs_is_synced_ok w : rs_ok w -> rs_is_deployment_synced w <> Panic;
  rs_fail_ok w e x w' :
    rs_ok w -> rs_fail_subgraph w e = (x, w') -> x <> Panic /\ rs_ok w' /\ rs_contents w' = rs_contents w;
  rs_synced_ok w x w' :
    rs_ok w -> rs_deployment_synced w = (x, w') -> x <> Panic /\ rs_ok w' /\ rs_contents w' = rs_contents w;
  rs_unassign_ok w x w' :
    rs_ok w -> rs_unassign_subgraph w = (x, w') ->
    x <> Panic /\ rs_ok w' /\ rs_contents w' = rs_contents w /\
    rs_data_sources w' = rs_data_sources w /\ rs_block_ptr w' = rs_block_ptr w;
  rs_unfail_ok w ptr x w' :
    rs_ok w -> rs_unfail_non_deterministic_error w ptr = (x, w') ->
    x <> Panic /\ rs_ok w' /\ rs_contents w' = rs_contents w
}.

Section RunnerProps.
Context `{HX : !Hex} `{HB : !NumBits} `{HS : !StableHash}.
Context {C : Type} `{HC : !CacheOps EntityKey (option Entity) C} `{HL : !CacheLaws EntityKey (option Entity) C}.
Context {QErr StoredDs Template Ctx : Type}.
Context {DataSource Trigger Block MappingTrigger Filter : Type}.
Context {W : Type} `{HW : !RunnerStore W QErr StoredDs} (sid : DeploymentHash).
Context `{HWL : !RunnerStoreLaws W QErr StoredDs sid}.
Context (node : Node C QErr Template).
Context (chain : Chain QErr StoredDs Template Ctx DataSource Trigger Block MappingTrigger Filter).
Context (inputs : IndexingInputs).

Local Abbreviation AnyError := (AnyError QErr).
Local Abbreviation BlockState := (BlockState C StoredDs Template Ctx).
Local Abbreviation DataSourceTemplateInfo := (DataSourceTemplateInfo Template Ctx).
Local Abbreviation RuntimeHost := (RuntimeHost QErr Template Ctx DataSource Trigger Block MappingTrigger).
Local Abbreviation cache := (EntityCache C StoredDs).
Local Abbreviation Runner := (Runner C QErr Template Ctx DataSource Trigger Block MappingTrigger Filter W).
Local Abbreviation host_ok w := (host_ok (rs_reader w) (nd_fuel node) (nd_debug_fork node) sid).
Local Abbreviation hosts_run w block := (hosts_run (nd_template_name node) (rs_reader w) (nd_fuel node)
  (nd_max_gas_per_handler node) (nd_debug_fork node) (nd_trap_to_string node) (nd_error_text node) block
  (ch_block_ptr chain block)).
Local Abbreviation hosts_fail w block := (hosts_fail (nd_template_name node) (rs_reader w) (nd_fuel node)
  (nd_max_gas_per_handler node) (nd_debug_fork node) (nd_trap_to_string node) (nd_error_text node) block
  (ch_block_ptr chain block)).

(** The hosts do not panic, whatever the store holds. *)
Definition host_good (h : RuntimeHost) : Prop := forall w, rs_ok w -> host_ok w h.

(** What the chain and the node promise *)
Record chain_ok : Prop := {
  co_sid : in_deployment inputs = sid;
  co_hash_iter : hash_iter_law (nd_hash_iter node);
  co_poi_iter m : nd_poi_iter node m ≡ₚ map_to_list m;
  co_timeout : timeouts_ok (nd_trap_to_string node) (nd_timeout node);
  co_cache_size : (0 <= nd_entity_cache_size node)%Z;
  co_cache_new : nd_cache_is_empty node cache_new = true;
  co_try_from info : ch_data_source_try_from chain info <> Panic;
  co_try_from_block info ds :
    ch_data_source_try_from chain info = Ok ds -> ch_creation_block chain ds = Some (dti_creation_block info);
  co_new_host ds : ch_new_host chain ds <> Panic;
  co_new_host_good ds h :
    ch_new_host chain ds = Ok h ->
    host_good h /\ rh_creation_block_number h = ch_creation_block chain ds;
  co_triggers block filter : ch_triggers_in_block chain block filter <> Panic
}.
Hypothesis Hchain : chain_ok.

(** ** Running triggers *)

(** The triggers of a block run one after the other. *)
Inductive triggers_run (w : W) (block : Block) (hosts : list RuntimeHost) :
    list Trigger -> EntityDb -> EntityDb -> list DataSourceTemplateInfo -> list SubgraphError -> Prop :=
| triggers_done b : triggers_run w block hosts [] b b [] []
| triggers_next trigger triggers b b1 b' infos infos' errs errs' :
    hosts_run w block trigger hosts b b1 infos errs -> triggers_run w block hosts triggers b1 b' infos' errs' ->
    triggers_run w block hosts (trigger :: triggers) b b' (infos ++ infos') (errs ++ errs').

(** The node gives up on one of the triggers, after those before it have run. *)
Inductive triggers_fail (w : W) (block : Block) (hosts : list RuntimeHost) :
    list Trigger -> EntityDb -> Trigger -> MappingError AnyError -> Prop :=
| triggers_fail_now trigger triggers b e :
    hosts_fail w block trigger hosts b e -> triggers_fail w block hosts (trigger :: triggers) b trigger e
| triggers_fail_later trigger triggers b b1 infos errs trigger' e :
    hosts_run w block trigger hosts b b1 infos errs -> triggers_fail w block hosts triggers b1 trigger' e ->
    triggers_fail w block hosts (trigger :: triggers) b trigger' e.

(** Two handlers fail deterministically on one of the triggers. *)
Inductive double_failure (w : W) (block : Block) (hosts : list RuntimeHost) : list Trigger -> EntityDb -> Prop :=
| double_failure_now trigger triggers b b1 infos errs :
    hosts_run w block trigger hosts b b1 infos errs -> 2 <= length errs ->
    double_failure w block hosts (trigger :: triggers) b
| double_failure_later trigger triggers b b1 infos errs :
    hosts_run w block trigger hosts b b1 infos errs -> double_failure w block hosts triggers b1 ->
    double_failure w block hosts (trigger :: triggers) b.

Lemma run_triggers_sim {E} (wrap : Trigger -> MappingError AnyError -> E) w hosts block region triggers b
    (s : BlockState) poi :
  rs_ok w -> Forall host_good hosts -> block_inv (rs_contents w) sid (mkTxn b None) s -> poi_ok poi ->
  match run_triggers node chain wrap w hosts block region triggers (s, poi) with
  | Ok (s', poi') => poi_ok poi' /\ exists b' infos errs,
      triggers_run w block hosts triggers b b' infos errs /\ block_effect (rs_contents w) sid s s' b' infos errs
  | Err e => exists trigger e', e = wrap trigger e' /\ triggers_fail w block hosts triggers b trigger e'
  | Panic => double_failure w block hosts triggers b
  end.
Proof.
  intros Hw Hhosts. assert (Hhosts' : Forall (host_ok w) hosts) by (eapply Forall_impl; [done|]; intros h Hh; by apply Hh).
  revert b s poi. induction triggers as [|t ts IH]; intros b s poi Hinv Hpoi; cbn [run_triggers].
  { split; [done|]. exists b, [], []. split; [constructor|by apply block_effect_refl]. }
  pose proof (process_trigger_sim (nd_template_name node) (nd_hash_iter node) (rs_reader w) (nd_fuel node)
    (nd_max_gas_per_handler node) (nd_debug_fork node) (nd_trap_to_string node) (nd_error_text node)
    (nd_timeout node) (rs_contents w) sid (co_hash_iter Hchain) (rs_reads w Hw) (co_timeout Hchain)
    hosts block (ch_block_ptr chain block) t b s poi region Hhosts' Hinv Hpoi) as Hx.
  cbn [fst snd]. destruct (process_trigger_in_runtime_hosts _ _ _ _ _ _ _ _ _ _ _ _ _ _ _ _) as [[s1 poi1]|e|];
    cbn [map_err bind_result].
  - destruct Hx as (Hpoi1 & b1 & infos & errs & Hrun & Heff).
    specialize (IH b1 s1 poi1 (be_inv _ _ _ _ _ _ _ Heff) Hpoi1).
    destruct (run_triggers _ _ _ _ _ _ _ _ _) as [[s' poi']|e|].
    + destruct IH as (? & b' & infos' & errs' & Hrun' & Heff'). split; [done|].
      exists b', (infos ++ infos'), (errs ++ errs'). split; [by econstructor|by eapply block_effect_trans].
    + destruct IH as (t' & e' & -> & Hfail). exists t', e'. split; [done|]. by eapply triggers_fail_later.
    + by eapply double_failure_later.
  - exists t, e. split; [done|]. by constructor.
  - destruct Hx as (b' & infos & errs & Hrun & Hn). by eapply double_failure_now.
Qed.

Lemma triggers_run_created w block (hosts : list RuntimeHost) triggers b b' infos errs :
  triggers_run w block hosts triggers b b' infos errs ->
  Forall (fun info => dti_creation_block info = bp_number (ch_block_ptr chain block)) infos.
Proof. induction 1; [constructor|]. apply Forall_app. split; [by eapply hosts_run_created|done]. Qed.

(** Without hosts a trigger does nothing. *)
Lemma triggers_run_no_hosts w block triggers b b' infos errs :
  triggers_run w block [] triggers b b' infos errs -> infos = [].
Proof. induction 1 as [|? ? ? ? ? ? ? ? ? Hrun _ ->]; [done|]. by inversion Hrun. Qed.

(** ** Created data sources *)

(** The hosts of a runner at block [n] *)
Record hosts_inv (n : BlockNumber) (hosts : list RuntimeHost) : Prop := {
  hi_good : Forall host_good hosts;
  hi_ordered : hosts_ordered hosts;
  hi_upto : Forall (fun h => option_leb (rh_creation_block_number h) (Some n) = true) hosts
}.

Lemma hosts_inv_snoc n hosts h :
  hosts_inv n hosts -> host_good h -> rh_creation_block_number h = Some n -> hosts_inv n (hosts ++ [h]).
Proof.
  intros [Hg Ho Hu] Hh Hn. split.
  - apply Forall_app. auto.
  - apply StronglySorted_app_2; [|done|by repeat constructor]. intros x y Hx ->%list_elem_of_singleton.
    rewrite Hn. by eapply Forall_forall in Hu.
  - apply Forall_app. split; [done|]. repeat constructor. rewrite Hn. unfold option_leb. simpl.
    by rewrite Z.ltb_irrefl.
Qed.

Lemma rn_with_hosts_same (r : Runner) : rn_with_hosts r (rn_hosts r) = r.
Proof. by destruct r. Qed.

(** Whether a host is taken for a duplicate of one that is there *)
Definition duplicate (hosts : list RuntimeHost) (h : RuntimeHost) : bool :=
  existsb (fun h' => ch_is_duplicate_of chain (rh_data_source h') (rh_data_source h)) hosts.

Definition add_host (hosts : list RuntimeHost) (h : RuntimeHost) : list RuntimeHost :=
  if duplicate hosts h then hosts else hosts ++ [h].

Definition below_limit (hosts : list RuntimeHost) : Prop :=
  forall m, nd_max_data_sources node = Some m -> length hosts < m.

(** The data sources that are asked for get a host each, except for duplicates. *)
Inductive instantiates : list RuntimeHost -> list DataSourceTemplateInfo -> list (DataSource * RuntimeHost) -> Prop :=
| instantiates_done hosts : instantiates hosts [] []
| instantiates_next hosts info infos ds h new :
    ch_data_source_try_from chain info = Ok ds -> below_limit hosts -> ch_new_host chain ds = Ok h ->
    instantiates (add_host hosts h) infos new ->
    instantiates hosts (info :: infos) (if duplicate hosts h then new else (ds, h) :: new).

(** There can not be a host for one of the data sources, or there are too many. *)
Inductive instantiation_fails : list RuntimeHost -> list DataSourceTemplateInfo -> AnyError -> Prop :=
| instantiation_bad_source hosts info infos e :
    ch_data_source_try_from chain info = Err e -> instantiation_fails hosts (info :: infos) e
| instantiation_limit hosts info infos ds :
    ch_data_source_try_from chain info = Ok ds -> ~ below_limit hosts ->
    instantiation_fails hosts (info :: infos) (External "Limit of data sources per subgraph exceeded")
| instantiation_bad_host hosts info infos ds e :
    ch_data_source_try_from chain info = Ok ds -> below_limit hosts -> ch_new_host chain ds = Err e ->
    instantiation_fails hosts (info :: infos) e
| instantiation_later hosts info infos ds h e :
    ch_data_source_try_from chain info = Ok ds -> below_limit hosts -> ch_new_host chain ds = Ok h ->
    instantiation_fails (add_host hosts h) infos e -> instantiation_fails hosts (info :: infos) e.

Lemma instantiates_hosts hosts infos new :
  instantiates hosts infos new ->
  Forall host_good new.*2 /\
  forall m, nd_max_data_sources node = Some m ->
    length (hosts ++ new.*2) <= Nat.max m (length hosts) /\ (infos <> [] -> length hosts < m).
Proof.
  induction 1 as [hosts|hosts info infos ds h new Hds Hlim Hh _ [IHg IHl]].
  { split; [constructor|]. intros m _. split; [rewrite app_nil_r; lia|done]. }
  split.
  - destruct (duplicate hosts h); [done|]. constructor; [|done]. by apply (co_new_host_good Hchain ds h).
  - intros m Hm. specialize (Hlim m Hm). destruct (IHl m Hm) as [IH _]. split; [|done].
    unfold add_host in IH. destruct (duplicate hosts h); rewrite ?fmap_cons, !length_app, ?length_cons, ?length_nil in *; lia.
Qed.

(** Adding a data source that a handler created in block [n] *)
Lemma add_dynamic_data_source_sim n hosts ds :
  hosts_inv n hosts -> ch_creation_block chain ds = Some n ->
  match add_dynamic_data_source (ch_new_host chain) (ch_is_duplicate_of chain) (ch_creation_block chain)
    (nd_max_data_sources node) hosts ds with
  | Ok (host, hosts') => below_limit hosts /\ hosts_inv n hosts' /\ exists h, ch_new_host chain ds = Ok h /\
      hosts' = add_host hosts h /\ host = (if duplicate hosts h then None else Some h)
  | Err e => (~ below_limit hosts /\ e = External "Limit of data sources per subgraph exceeded") \/
      (below_limit hosts /\ ch_new_host chain ds = Err e)
  | Panic => False
  end.
Proof.
  intros Hinv Hn. unfold add_dynamic_data_source.
  destruct (match nd_max_data_sources node with Some m => _ | None => _ end) eqn:Hmax.
  { left. split; [|done]. intros Hb. destruct (nd_max_data_sources node) as [m|] eqn:Hm; [|done].
    apply Nat.leb_le in Hmax. specialize (Hb m Hm). lia. }
  assert (Hbelow : below_limit hosts) by (intros m Hm; rewrite Hm in Hmax; by apply Nat.leb_gt in Hmax).
  assert (Hlast : option_leb (last hosts ≫= rh_creation_block_number) (ch_creation_block chain ds) = true).
  { rewrite Hn. destruct (last hosts) as [h|] eqn:Hlast; [|done]. simpl. apply last_Some_elem_of in Hlast.
    destruct Hinv as [_ _ Hu]. by eapply Forall_forall in Hu. }
  rewrite Hlast. pose proof (co_new_host Hchain ds) as Hp.
  destruct (ch_new_host chain ds) as [h|e|] eqn:Hh; [|by right|done]. cbn [bind_result].
  destruct (co_new_host_good Hchain ds h Hh) as [Hgood Hcreated]. fold (duplicate hosts h).
  assert (Hadd : hosts_inv n (add_host hosts h)).
  { unfold add_host. destruct (duplicate hosts h); [done|]. apply hosts_inv_snoc; [done|done|congruence]. }
  unfold add_host in Hadd. destruct (duplicate hosts h) eqn:Hdup; split_and!; try done; exists h;
    unfold add_host; by rewrite Hdup.
Qed.

Lemma create_dynamic_data_sources_sim n infos (r : Runner) :
  hosts_inv n (rn_hosts r) -> Forall (fun info => dti_creation_block info = n) infos ->
  exists x hosts', create_dynamic_data_sources node chain infos r = Some (x, rn_with_hosts r hosts') /\
    hosts_inv n hosts' /\
    match x with
    | Ok p => exists new, instantiates (rn_hosts r) infos new /\ p = (new.*1, new.*2) /\ hosts' = rn_hosts r ++ new.*2
    | Err e => instantiation_fails (rn_hosts r) infos e
    | Panic => False
    end.
Proof.
  intros Hinv Hinfos. revert r Hinv. induction Hinfos as [|info infos Hinfo _ IH]; intros r Hinv;
    cbn [create_dynamic_data_sources].
  { exists (Ok ([], [])), (rn_hosts r). rewrite rn_with_hosts_same. split_and!; [done..|]. exists [].
    rewrite app_nil_r. split_and!; [constructor|done..]. }
  unfold rm_bind, rm_lift.
  assert (Hfail : forall e, instantiation_fails (rn_hosts r) (info :: infos) e ->
    exists y hosts', Some (Err e, r) = Some (y, rn_with_hosts r hosts') /\ hosts_inv n hosts' /\
    match y with
    | Ok p => exists new, instantiates (rn_hosts r) (info :: infos) new /\ p = (new.*1, new.*2) /\ hosts' = rn_hosts r ++ new.*2
    | Err e => instantiation_fails (rn_hosts r) (info :: infos) e
    | Panic => False
    end).
  { intros e He. exists (Err e), (rn_hosts r). by rewrite rn_with_hosts_same. }
  pose proof (co_try_from Hchain info) as Hp1.
  destruct (ch_data_source_try_from chain info) as [ds|e|] eqn:Hds; [|by apply Hfail; constructor|done].
  pose proof (co_try_from_block Hchain info ds Hds) as Hblock. rewrite Hinfo in Hblock.
  pose proof (add_dynamic_data_source_sim n (rn_hosts r) ds Hinv Hblock) as Hadd.
  destruct (add_dynamic_data_source _ _ _ _ _ _) as [[host hosts1]|e|]; [| |done].
  2:{ apply Hfail. destruct Hadd as [[Hl ->]|[Hl He]];
      [by eapply instantiation_limit|by eapply instantiation_bad_host]. }
  destruct Hadd as (Hbelow & Hinv1 & h & Hh & -> & ->).
  destruct (IH (rn_with_hosts r (add_host (rn_hosts r) h)) Hinv1) as (x & hosts' & -> & Hinv2 & Hx).
  cbn [rn_hosts rn_with_hosts] in *.
  destruct x as [p|e|]; [| |done].
  2:{ exists (Err e), hosts'. split_and!; [done..|]. by eapply instantiation_later. }
  destruct Hx as (new & Hnew & -> & ->). eexists _, _. split; [done|]. split; [done|].
  eexists. split; [by eapply instantiates_next|]. unfold add_host.
  destruct (duplicate (rn_hosts r) h); [done|]. by rewrite <-app_assoc.
Qed.

(** One round: the data sources [infos] are instantiated, and the triggers of the
    block that match them run through their hosts, asking for [infos']. *)
Inductive round_run (w : W) (block : Block) (hosts : list RuntimeHost) (infos : list DataSourceTemplateInfo) (b : EntityDb)
    (new : list (DataSource * RuntimeHost)) (b' : EntityDb) (infos' : list DataSourceTemplateInfo)
    (errs : list SubgraphError) : Prop :=
| round_run_intro triggers :
    instantiates hosts infos new ->
    ch_triggers_in_block chain block (ch_filter_from_data_sources chain new.*1) = Ok triggers ->
    triggers_run w block new.*2 triggers b b' infos' errs ->
    round_run w block hosts infos b new b' infos' errs.

Inductive round_fails (w : W) (block : Block) (hosts : list RuntimeHost) (infos : list DataSourceTemplateInfo) (b : EntityDb) :
    AnyError -> Prop :=
| round_no_host e : instantiation_fails hosts infos e -> round_fails w block hosts infos b e
| round_no_triggers new e :
    instantiates hosts infos new ->
    ch_triggers_in_block chain block (ch_filter_from_data_sources chain new.*1) = Err e ->
    round_fails w block hosts infos b e
| round_gives_up new triggers trigger e e' :
    instantiates hosts infos new ->
    ch_triggers_in_block chain block (ch_filter_from_data_sources chain new.*1) = Ok triggers ->
    triggers_fail w block new.*2 triggers b trigger e' ->
    e' = MappingUnknown e \/ e' = MappingPossibleReorg e -> round_fails w block hosts infos b e.

Inductive round_panics (w : W) (block : Block) (hosts : list RuntimeHost) (infos : list DataSourceTemplateInfo) (b : EntityDb) : Prop :=
| round_panics_intro new triggers :
    instantiates hosts infos new ->
    ch_triggers_in_block chain block (ch_filter_from_data_sources chain new.*1) = Ok triggers ->
    double_failure w block new.*2 triggers b -> round_panics w block hosts infos b.

(** There are rounds as long as data sources are asked for. *)
Inductive rounds_run (w : W) (block : Block) : list RuntimeHost -> list DataSourceTemplateInfo -> EntityDb ->
    EntityDb -> list DataSource -> list SubgraphError -> Prop :=
| rounds_done hosts b : rounds_run w block hosts [] b b [] []
| rounds_next hosts infos b new b1 infos1 errs b' dss errs' :
    infos <> [] -> round_run w block hosts infos b new b1 infos1 errs ->
    rounds_run w block (hosts ++ new.*2) infos1 b1 b' dss errs' ->
    rounds_run w block hosts infos b b' (new.*1 ++ dss) (errs ++ errs').

Inductive rounds_fail (w : W) (block : Block) : list RuntimeHost -> list DataSourceTemplateInfo -> EntityDb ->
    AnyError -> Prop :=
| rounds_fail_now hosts infos b e :
    infos <> [] -> round_fails w block hosts infos b e -> rounds_fail w block hosts infos b e
| rounds_fail_later hosts infos b new b1 infos1 errs e :
    infos <> [] -> round_run w block hosts infos b new b1 infos1 errs ->
    rounds_fail w block (hosts ++ new.*2) infos1 b1 e -> rounds_fail w block hosts infos b e.

Inductive rounds_panic (w : W) (block : Block) : list RuntimeHost -> list DataSourceTemplateInfo -> EntityDb -> Prop :=
| rounds_panic_now hosts infos b :
    infos <> [] -> round_panics w block hosts infos b -> rounds_panic w block hosts infos b
| rounds_panic_later hosts infos b new b1 infos1 errs :
    infos <> [] -> round_run w block hosts infos b new b1 infos1 errs ->
    rounds_panic w block (hosts ++ new.*2) infos1 b1 -> rounds_panic w block hosts infos b.

Definition same_store (r r' : Runner) : Prop :=
  rn_store r' = rn_store r /\ rn_entity_lfu_cache r' = rn_entity_lfu_cache r.

(** What rounds leave behind in the block state *)
Record rounds_effect (w : W) (s s' : BlockState) (b' : EntityDb) (infos : list DataSourceTemplateInfo)
    (dss : list DataSource) (errs : list SubgraphError) : Prop := {
  re_inv : block_inv (rs_contents w) sid (mkTxn b' None) s';
  re_errors : bs_deterministic_errors s' = bs_deterministic_errors s ++ errs;
  re_created : bs_created_data_sources s' = infos;
  re_stored : ec_data_sources (bs_entity_cache s') =
    ec_data_sources (bs_entity_cache s) ++ map (ch_as_stored_dynamic_data_source chain) dss
}.

Lemma rounds_effect_trans w s1 s2 s3 b2 b3 infos infos' dss dss' errs errs' :
  rounds_effect w s1 s2 b2 infos dss errs -> rounds_effect w s2 s3 b3 infos' dss' errs' ->
  rounds_effect w s1 s3 b3 infos' (dss ++ dss') (errs ++ errs').
Proof.
  intros [_ He1 _ Hd1] [Hi He2 Hc Hd2]. split; [done|..|done|].
  - by rewrite He2, He1, app_assoc.
  - by rewrite Hd2, Hd1, map_app, app_assoc.
Qed.

(** Data sources that are only noted down *)
Lemma add_data_sources_sim S t (c : cache) (dss : list DataSource) :
  represents S c t -> keys_of sid c ->
  let c' := foldl (fun c ds => ec_add_data_source c (ch_as_stored_dynamic_data_source chain ds)) c dss in
  represents S c' t /\ keys_of sid c' /\
  ec_data_sources c' = ec_data_sources c ++ map (ch_as_stored_dynamic_data_source chain) dss.
Proof.
  revert c. induction dss as [|ds dss IH]; intros c Hr Hk; simpl; [by rewrite app_nil_r|].
  destruct (IH (ec_add_data_source c (ch_as_stored_dynamic_data_source chain ds))) as (Hr' & Hk' & Hd).
  - destruct Hr as [Hok Hco Hwf Hh Hb Hs]. by split.
  - exact Hk.
  - rewrite Hd. simpl. by rewrite <-app_assoc.
Qed.

Lemma drain_inv {E} S b (s : BlockState) :
  block_inv S sid (mkTxn b None) s ->
  exists s', bs_drain_created_data_sources (E:=E) s = Ok (bs_created_data_sources s, s') /\
    block_inv S sid (mkTxn b None) s' /\ bs_created_data_sources s' = [] /\
    bs_deterministic_errors s' = bs_deterministic_errors s /\ bs_entity_cache s' = bs_entity_cache s.
Proof.
  intros [Hr Hk Hin Hc]. unfold bs_drain_created_data_sources. rewrite Hin. simpl. eexists. split; [done|].
  by split_and!; [split|..].
Qed.

Section Rounds.
Context (block : Block) (region : string).
Local Abbreviation n := (bp_number (ch_block_ptr chain block)).

(** How a round ends *)
Definition round_result (r r' : Runner) (b : EntityDb) (s : BlockState)
    (x : result (BlockProcessingError AnyError) (BlockState * option ProofOfIndexing)) : Prop :=
  match x with
  | Ok (s', poi') => poi_ok poi' /\ exists new b' infos' errs,
      round_run (rn_store r) block (rn_hosts r) (bs_created_data_sources s) b new b' infos' errs /\
      rounds_effect (rn_store r) s s' b' infos' new.*1 errs /\ rn_hosts r' = rn_hosts r ++ new.*2
  | Err (BpUnknown e) => round_fails (rn_store r) block (rn_hosts r) (bs_created_data_sources s) b e
  | Err _ => False
  | Panic => round_panics (rn_store r) block (rn_hosts r) (bs_created_data_sources s) b
  end.

Lemma process_created_sim poi b s (r : Runner) :
  rs_ok (rn_store r) -> hosts_inv n (rn_hosts r) ->
  block_inv (rs_contents (rn_store r)) sid (mkTxn b None) s ->
  Forall (fun info => dti_creation_block info = n) (bs_created_data_sources s) -> poi_ok poi ->
  exists x r', process_created node chain poi block region s r = Some (x, r') /\
    same_store r r' /\ hosts_inv n (rn_hosts r') /\ round_result r r' b s x.
Proof.
  intros Hw Hhosts Hinv Hcr Hpoi. unfold process_created, rm_bind, rm_lift, rm_map_err, rm_get.
  destruct (drain_inv (E:=BlockProcessingError AnyError) _ b s Hinv) as (s1 & -> & Hinv1 & Hc1 & He1 & Hcache1).
  cbn [fst snd].
  destruct (create_dynamic_data_sources_sim n (bs_created_data_sources s) r Hhosts Hcr)
    as (x & hosts' & -> & Hhosts' & Hx).
  destruct x as [p|e|]; cbn [map_err]; [|eexists _, _; split_and!; [done..|]; by apply round_no_host|done].
  destruct Hx as (new & Hnew & -> & ->). cbn [fst snd].
  pose proof (co_triggers Hchain block (ch_filter_from_data_sources chain new.*1)) as Hp.
  destruct (ch_triggers_in_block chain block _) as [triggers|e|] eqn:Htr; cbn [map_err];
    [|eexists _, _; split_and!; [done..|]; by eapply round_no_triggers|done].
  unfold persist_dynamic_data_sources, rm_bind, rm_modify, rm_ret.
  cbn [rn_store rn_with_filter rn_with_hosts].
  destruct (add_data_sources_sim _ _ (bs_entity_cache s1) new.*1 (bi_rep _ _ _ _ Hinv1) (bi_keys _ _ _ _ Hinv1))
    as (Hr2 & Hk2 & Hd2).
  set (c2 := foldl _ _ _) in *.
  assert (Hinv2 : block_inv (rs_contents (rn_store r)) sid (mkTxn b None) (bs_with_cache s1 c2))
    by (destruct Hinv1; by split).
  eexists _, _. split; [done|]. split; [done|]. split; [done|].
  set (wrap := fun (_ : Trigger) (e : MappingError AnyError) => _).
  pose proof (run_triggers_sim wrap (rn_store r) new.*2 block region triggers b (bs_with_cache s1 c2) poi Hw
    (proj1 (instantiates_hosts _ _ _ Hnew)) Hinv2 Hpoi) as Hrun.
  destruct (run_triggers _ _ wrap _ _ _ _ _ _) as [[s' poi']|e|].
  - destruct Hrun as (Hpoi' & b' & infos' & errs & Hrun & [Hi He Hc Hd]). split; [done|].
    exists new, b', infos', errs. split; [by econstructor|]. split; [|done]. split; [done|..]; cbn in *.
    + by rewrite He, He1.
    + by rewrite Hc, Hc1.
    + by rewrite Hd, Hd2, Hcache1.
  - destruct Hrun as (t & e' & -> & Hfail). subst wrap. cbn. destruct e' as [e|e]; eapply round_gives_up; eauto.
  - by econstructor.
Qed.

Lemma has_created_inv {E} S b (s : BlockState) :
  block_inv S sid (mkTxn b None) s ->
  bs_has_created_data_sources (E:=E) s = Ok (match bs_created_data_sources s with [] => false | _ => true end).
Proof. intros [_ _ Hin _]. unfold bs_has_created_data_sources. by rewrite Hin. Qed.

(** How all the rounds end *)
Definition rounds_result (r : Runner) (b : EntityDb) (s : BlockState)
    (x : result (BlockProcessingError AnyError) (BlockState * option ProofOfIndexing)) : Prop :=
  match x with
  | Ok (s', poi') => poi_ok poi' /\ exists b' dss errs,
      rounds_run (rn_store r) block (rn_hosts r) (bs_created_data_sources s) b b' dss errs /\
      rounds_effect (rn_store r) s s' b' [] dss errs
  | Err (BpUnknown e) => rounds_fail (rn_store r) block (rn_hosts r) (bs_created_data_sources s) b e
  | Err _ => False
  | Panic => rounds_panic (rn_store r) block (rn_hosts r) (bs_created_data_sources s) b
  end.

Lemma process_all_created_none rounds poi b s (r : Runner) :
  block_inv (rs_contents (rn_store r)) sid (mkTxn b None) s -> bs_created_data_sources s = [] ->
  hosts_inv n (rn_hosts r) -> poi_ok poi ->
  exists x r', process_all_created node chain rounds poi block region s r = Some (x, r') /\
    same_store r r' /\ hosts_inv n (rn_hosts r') /\ rounds_result r b s x.
Proof.
  intros Hinv Hcr Hh Hpoi. exists (Ok (s, poi)), r. split.
  - destruct rounds; cbn [process_all_created]; unfold rm_bind, rm_lift;
      by rewrite (has_created_inv _ b s Hinv), Hcr.
  - split_and!; [done..|]. split; [done|]. exists b, [], []. rewrite Hcr. split; [constructor|].
    split; [done|by rewrite app_nil_r|done|by rewrite app_nil_r].
Qed.

(** The rounds after the first one *)
Lemma rounds_result_next (r r1 : Runner) b b1 s s1 new infos1 errs x :
  bs_created_data_sources s <> [] ->
  round_run (rn_store r) block (rn_hosts r) (bs_created_data_sources s) b new b1 infos1 errs ->
  rounds_effect (rn_store r) s s1 b1 infos1 new.*1 errs -> rn_store r1 = rn_store r ->
  rn_hosts r1 = rn_hosts r ++ new.*2 -> rounds_result r1 b1 s1 x -> rounds_result r b s x.
Proof.
  intros Hne Hrun Heff Hs Hh Hx. unfold rounds_result in *. rewrite (re_created _ _ _ _ _ _ _ Heff), Hh, Hs in Hx.
  destruct x as [[s' poi']|[e|e|]|]; [|by eapply rounds_fail_later|done|done|by eapply rounds_panic_later].
  destruct Hx as (Hpoi & b' & dss & errs' & Hrun' & Heff'). split; [done|].
  exists b', (new.*1 ++ dss), (errs ++ errs'). split; [by eapply rounds_next|by eapply rounds_effect_trans].
Qed.

(** With a limit on the number of data sources the rounds come to an end. *)
Lemma process_all_created_sim limit rounds poi b s (r : Runner) :
  nd_max_data_sources node = Some limit -> limit - length (rn_hosts r) < rounds ->
  rs_ok (rn_store r) -> hosts_inv n (rn_hosts r) ->
  block_inv (rs_contents (rn_store r)) sid (mkTxn b None) s ->
  Forall (fun info => dti_creation_block info = n) (bs_created_data_sources s) -> poi_ok poi ->
  exists x r', process_all_created node chain rounds poi block region s r = Some (x, r') /\
    same_store r r' /\ hosts_inv n (rn_hosts r') /\ rounds_result r b s x.
Proof.
  intros Hlimit. revert poi b s r. induction rounds as [|rounds IH]; intros poi b s r Hr Hw Hhosts Hinv Hcr Hpoi;
    [lia|].
  destruct (decide (bs_created_data_sources s = [])) as [Hnone|Hsome]; [by apply process_all_created_none|].
  cbn [process_all_created]. unfold rm_bind at 1, rm_lift. rewrite (has_created_inv _ b s Hinv).
  replace (match bs_created_data_sources s with [] => false | _ => true end) with true
    by by destruct (bs_created_data_sources s).
  unfold rm_bind.
  destruct (process_created_sim poi b s r Hw Hhosts Hinv Hcr Hpoi) as (x & r1 & -> & Hst & Hh1 & Hx).
  destruct x as [[s1 poi1]|[e|e|]|]; cbn in Hx; [| |done..|].
  2:{ eexists _, _. split_and!; [done..|]. by apply rounds_fail_now. }
  2:{ eexists _, _. split_and!; [done..|]. by apply rounds_panic_now. }
  destruct Hx as (Hpoi1 & new & b1 & infos1 & errs & Hrun & Heff & Hhosts1). cbn [fst snd].
  destruct Hst as [Hs Hc]. pose proof Heff as [Hinv1 _ Hcr1 _]. rewrite <-Hs in Hinv1.
  assert (Hnext : exists x r', process_all_created node chain rounds poi1 block region s1 r1 = Some (x, r') /\
    same_store r1 r' /\ hosts_inv n (rn_hosts r') /\ rounds_result r1 b1 s1 x).
  { destruct Hrun as [triggers Hnew _ Htr]. destruct new as [|p new].
    - apply process_all_created_none; try done. rewrite Hcr1. by eapply triggers_run_no_hosts.
    - destruct (instantiates_hosts _ _ _ Hnew) as [_ Hlim]. destruct (Hlim limit Hlimit) as [Hlen Hlt].
      specialize (Hlt Hsome). apply IH; try done; [|by rewrite Hs|rewrite Hcr1; by eapply triggers_run_created].
      rewrite Hhosts1. rewrite fmap_cons, length_app, length_cons in *. lia. }
  destruct Hnext as (x & r' & -> & [Hs2 Hc2] & Hh2 & Hres). exists x, r'. split; [done|].
  split; [by split; congruence|]. split; [done|]. by eapply rounds_result_next.
Qed.

End Rounds.
(** ** The proof of indexing *)

Definition poi_key (region : string) : EntityKey := mkKey sid POI_OBJECT region.

(** The digest that a database holds for a causality region *)
Definition db_digest (b : EntityDb) (region : string) : option Bytes :=
  match b (poi_key region) with
  | Some e => match attr e "digest" with Some (VBytes d) => Some d | _ => None end
  | None => None
  end.

(** The entities of the proof of indexing have digests. *)
Definition poi_db_ok (b : EntityDb) : Prop :=
  forall k e, b k = Some e -> is_poi (entity_type k) = true -> has_digest e.

Lemma digest_of_sim {E} o e d :
  osim (Some e) o -> (exists e', o = Some e' /\ attr e' "digest" = Some (VBytes d)) ->
  digest_of (E:=E) e = Ok d.
Proof.
  intros Hsim (e' & -> & Hd). inversion Hsim as [? ? Hattr|]; subst. specialize (Hattr "digest").
  rewrite Hd in Hattr. unfold attr in Hattr. rewrite decide_False in Hattr by done.
  unfold digest_of, entity_get. destruct (e !! "digest") as [v|] eqn:Hv; [|by inversion Hattr].
  simpl in Hattr. destruct v; inversion Hattr as [? ? Hveq|]; subst;
    apply value_equiv_inv in Hveq; by simplify_eq/=.
Qed.

Lemma attr_apply_poi region d o :
  exists e, apply_to (OpUpdate (poi_entity region d)) o = Some e /\ attr e "digest" = Some (VBytes d).
Proof.
  unfold poi_entity, entity_set. destruct o as [e|]; simpl; (eexists; split; [done|]).
  - rewrite attr_merge_nulls, lookup_insert_eq. unfold attr. by rewrite decide_False, lookup_insert_eq by done.
  - unfold attr. by rewrite decide_False, lookup_insert_eq by done.
Qed.

Lemma ec_set_poi w (c : cache) region d :
  ec_set (rs_reader w) (nd_fuel node) c (poi_key region) (poi_entity region d) =
  (Ok tt, ec_entity_op c (poi_key region) (OpUpdate (poi_entity region d))).
Proof.
  unfold ec_set, with_id, entity_get, poi_entity, entity_set.
  rewrite lookup_insert_ne, lookup_insert_eq by done. unfold check_id. rewrite decide_False by (simpl; tauto).
  done.
Qed.

Lemma update_poi_region_sim w (c : cache) b region stream :
  rs_ok w -> represents (rs_contents w) c (mkTxn b None) -> keys_of sid c -> poi_db_ok b ->
  exists c', update_poi_region node inputs w c (region, stream) = Ok c' /\
    let b' := db_write (poi_key region) (OpUpdate (poi_entity region (stream_pause stream (db_digest b region)))) b in
    represents (rs_contents w) c' (mkTxn b' None) /\ keys_of sid c' /\ ec_data_sources c' = ec_data_sources c.
Proof.
  intros Hw Hr Hk Hpoi. unfold update_poi_region. rewrite (co_sid Hchain). cbn [fst snd].
  destruct (ec_get_represents (rs_reader w) (rs_contents w) sid c _ (poi_key region) (rs_reads w Hw) Hr Hk)
    as (o & c1 & Hget & Hsim & Hr1 & Hk1 & Hd1).
  fold (poi_key region). rewrite Hget. cbn [map_err bind_result fst snd].
  assert (Hprev : match o with Some entity => map_result Some (digest_of (E:=AnyError) entity) | None => Ok None end
                  = Ok (db_digest b region)).
  { unfold tx_seen in Hsim. simpl in Hsim. specialize (Hpoi (poi_key region)). unfold db_digest in *.
    destruct o as [e|], (b (poi_key region)) as [e'|] eqn:Hb; inversion Hsim; subst; [|done].
    destruct (Hpoi e' eq_refl eq_refl) as [d Hd]. rewrite Hd.
    rewrite (digest_of_sim (E:=AnyError) (Some e') e d); [done|by constructor|]. by exists e'. }
  rewrite Hprev. cbn [bind_result]. rewrite ec_set_poi. eexists. split; [done|]. split_and!.
  - exact (represents_write _ _ _ (poi_key region) _ Hr1).
  - by apply entity_op_keys.
  - by rewrite entity_op_stored.
Qed.

(** What writing the digests of the streams [l] does to the database *)
Record poi_written (l : list (string * BlockEventStream)) (b b' : EntityDb) : Prop := {
  pw_ok : poi_db_ok b';
  pw_other k : is_poi (entity_type k) = false -> b' k = b k;
  pw_digest region stream :
    (region, stream) ∈ l -> db_digest b' region = Some (stream_pause stream (db_digest b region));
  pw_rest region : region ∉ l.*1 -> b' (poi_key region) = b (poi_key region)
}.

Definition write_digest (region : string) (d : Bytes) (b : EntityDb) : EntityDb :=
  db_write (poi_key region) (OpUpdate (poi_entity region d)) b.

Lemma write_digest_ne region d b r : r <> region -> write_digest region d b (poi_key r) = b (poi_key r).
Proof. intros Hr. unfold write_digest, db_write. rewrite decide_False; [done|]. unfold poi_key. congruence. Qed.

Lemma write_digest_eq region d b : db_digest (write_digest region d b) region = Some d.
Proof.
  unfold db_digest, write_digest, db_write. rewrite decide_True by done.
  destruct (attr_apply_poi region d (b (poi_key region))) as (e & -> & He). by rewrite He.
Qed.

Lemma write_digest_ok region d b : poi_db_ok b -> poi_db_ok (write_digest region d b).
Proof.
  intros Hok k e. unfold write_digest, db_write. case_decide as Hk; [|by apply Hok].
  destruct (attr_apply_poi region d (b k)) as (e' & -> & He). intros [= <-] _. by exists d.
Qed.

Lemma poi_written_cons region stream l b b' :
  region ∉ l.*1 ->
  poi_written l (write_digest region (stream_pause stream (db_digest b region)) b) b' ->
  poi_written ((region, stream) :: l) b b'.
Proof.
  set (d := stream_pause stream (db_digest b region)). intros Hnot [Hok' Hother Hdig Hrest].
  split; [done|..].
  - intros k Hk. rewrite Hother by done. unfold write_digest, db_write. rewrite decide_False; [done|].
    intros <-. unfold poi_key, POI_OBJECT in Hk. by vm_compute in Hk.
  - intros r st [[= -> ->]|Hin]%elem_of_cons.
    + unfold db_digest at 1. rewrite Hrest by done. apply write_digest_eq.
    + rewrite (Hdig r st Hin). do 2 f_equal. unfold db_digest. rewrite write_digest_ne; [done|].
      intros ->. apply Hnot. apply list_elem_of_fmap. by exists (region, st).
  - intros r Hr. rewrite fmap_cons, not_elem_of_cons in Hr. destruct Hr as [Hne Hr].
    rewrite Hrest by done. by apply write_digest_ne.
Qed.

Lemma update_regions_sim w l (c : cache) b :
  rs_ok w -> represents (rs_contents w) c (mkTxn b None) -> keys_of sid c -> poi_db_ok b -> NoDup l.*1 ->
  exists c' b', try_fold (update_poi_region node inputs w) c l = Ok c' /\
    represents (rs_contents w) c' (mkTxn b' None) /\ keys_of sid c' /\ ec_data_sources c' = ec_data_sources c /\
    poi_written l b b'.
Proof.
  intros Hw. revert c b. induction l as [|[region stream] l IH]; intros c b Hr Hk Hpoi Hnd.
  { exists c, b. split_and!; try done. split; try done; set_solver. }
  rewrite fmap_cons, NoDup_cons in Hnd. destruct Hnd as [Hnot Hnd].
  destruct (update_poi_region_sim w c b region stream Hw Hr Hk Hpoi) as (c1 & Hstep & Hr1 & Hk1 & Hd1).
  cbn [try_fold]. rewrite Hstep. cbn [bind_result].
  destruct (IH c1 _ Hr1 Hk1 (write_digest_ok region _ b Hpoi) Hnd) as (c' & b' & Hc' & Hr' & Hk' & Hd' & Hwritten).
  exists c', b'. split_and!; try done; [congruence|]. by apply poi_written_cons.
Qed.

(** ** The modifications of a block *)

(** The part of [process_block] that follows the handlers, up to the store: the
    modifications bring the store to the database of the block state, with the
    digests of the block's streams. *)
Record block_mods (w : W) (poi : option ProofOfIndexing) (b b' : EntityDb) (mods : list EntityModification) (c : C)
    : Prop := {
  bm_poi : match poi with
           | Some p => poi_written (nd_poi_iter node (poi_take p)) b b'
           | None => b' = b
           end;
  bm_nodup : NoDup (map mod_entity_key mods);
  bm_digests : Forall (fun m => is_poi_mod m = true -> forall e, mod_entity m = Some e -> has_digest e) mods;
  bm_contents k : osim (apply_mods mods (rs_contents w) !! k) (b' k);
  bm_cache_ok : cache_ok c;
  bm_cache : coherent (apply_mods mods (rs_contents w)) c
}.

Lemma has_digest_sim e e' : same_attrs e e' -> has_digest e' -> has_digest e.
Proof.
  intros Hattr [d Hd]. specialize (Hattr "digest"). rewrite Hd in Hattr.
  destruct (attr e "digest") as [v|] eqn:Hv; inversion Hattr as [? ? Hveq|]; subst.
  exists d. rewrite Hv. destruct v; apply value_equiv_inv in Hveq; by simplify_eq/=.
Qed.

Lemma apply_mods_other mods S k :
  (forall m, m ∈ mods -> mod_entity_key m <> k) -> apply_mods mods S !! k = S !! k.
Proof.
  unfold apply_mods. revert S. induction mods as [|m mods IH]; intros S Hk; simpl; [done|].
  rewrite IH by (intros m' Hm'; apply Hk; by right).
  assert (Hne : mod_entity_key m <> k) by (apply Hk; by left).
  destruct m; simpl in *; by rewrite ?lookup_insert_ne, ?lookup_delete_ne.
Qed.

Lemma apply_mods_elem mods S m :
  NoDup (map mod_entity_key mods) -> m ∈ mods -> apply_mods mods S !! mod_entity_key m = mod_entity m.
Proof.
  unfold apply_mods. revert S. induction mods as [|m' mods IH]; intros S Hnd Hm; [set_solver|].
  inversion_clear Hnd as [|? ? Hnot Hnd']. simpl. apply elem_of_cons in Hm as [->|Hm]; [|by apply IH].
  fold (apply_mods mods (apply_mod S m')). rewrite apply_mods_other, apply_mod_lookup; [by rewrite decide_True|].
  intros m Hm Heq. apply Hnot. rewrite <-Heq. by apply list_elem_of_fmap_2.
Qed.

(** Modifications that lead to a database with digests have digests. *)
Lemma mods_digests mods S b :
  NoDup (map mod_entity_key mods) -> (forall k, osim (apply_mods mods S !! k) (b k)) -> poi_db_ok b ->
  Forall (fun m => is_poi_mod m = true -> forall e, mod_entity m = Some e -> has_digest e) mods.
Proof.
  intros Hnd Hsim Hok. apply Forall_forall. intros m Hm Hpoi e He.
  specialize (Hsim (mod_entity_key m)). rewrite (apply_mods_elem mods S m Hnd Hm), He in Hsim.
  inversion Hsim as [? e' Hattr Heq Heq'|]; subst. eapply has_digest_sim; [done|]. by eapply Hok.
Qed.

Lemma block_modifications_sim canceled poi b (s : BlockState) (r : Runner) :
  rs_ok (rn_store r) -> nd_cache_is_empty node (rn_entity_lfu_cache r) = true ->
  block_inv (rs_contents (rn_store r)) sid (mkTxn b None) s -> poi_db_ok b ->
  exists x r', block_modifications node inputs canceled poi s r = Some (x, r') /\
    rn_store r' = rn_store r /\ rn_hosts r' = rn_hosts r /\
    match x with
    | Ok (mods, dss) => dss = ec_data_sources (bs_entity_cache s) /\
        exists b', block_mods (rn_store r) poi b b' mods (rn_entity_lfu_cache r')
    | Err BpCanceled => canceled = true /\ rn_entity_lfu_cache r' = rn_entity_lfu_cache r
    | _ => False
    end.
Proof.
  intros Hw Hempty [Hr Hk Hin Hc] Hpoi. unfold block_modifications, rm_bind, rm_lift, rm_get, rm_modify, rm_ret.
  destruct canceled; [by eexists _, _; split_and!|].
  assert (Hupd : exists c' b', match poi with
      | Some poi => map_err BpUnknown (update_proof_of_indexing node inputs (rn_store r) poi (bs_entity_cache s))
      | None => Ok (bs_entity_cache s) end = Ok c' /\
      represents (rs_contents (rn_store r)) c' (mkTxn b' None) /\ keys_of sid c' /\
      ec_data_sources c' = ec_data_sources (bs_entity_cache s) /\
      match poi with Some p => poi_written (nd_poi_iter node (poi_take p)) b b' | None => b' = b end).
  { destruct poi as [p|]; [|by eexists _, b].
    destruct (update_regions_sim (rn_store r) (nd_poi_iter node (poi_take p)) _ b Hw Hr Hk Hpoi)
      as (c' & b' & Hc' & ? & ? & ? & ?).
    { rewrite (co_poi_iter Hchain). apply NoDup_fst_map_to_list. }
    exists c', b'. unfold update_proof_of_indexing. by rewrite Hc'. }
  destruct Hupd as (c' & b' & -> & Hr' & Hk' & Hd' & Hwritten).
  pose proof Hr' as [Hok Hco Hwf Hh Hb Hs].
  destruct (as_modifications_spec (nd_hash_iter node) (rs_reader (rn_store r)) (rs_contents (rn_store r)) sid
    (nd_entity_cache_size node) c' (co_hash_iter Hchain) (rs_reads _ Hw) Hok Hco Hh (co_cache_size Hchain))
    as (mc & -> & Hnd & _ & Hmods & Hok' & Hco' & Hds).
  { intros k Hu. apply Hk'. by left. }
  { intros k _ Himm. by rewrite (rs_schema (sid:=sid) _ (entity_type k) Hw) in Himm. }
  cbn [map_err]. rewrite Hempty. eexists _, _. split; [done|]. split; [done|]. split; [done|].
  split; [congruence|]. exists b'.
  assert (Hall : forall k, osim (apply_mods (mc_modifications mc) (rs_contents (rn_store r)) !! k) (b' k))
    by (intros k; etrans; [apply Hmods|apply Hb]).
  assert (Hpoi' : poi_db_ok b') by (destruct poi; [apply Hwritten|by subst]).
  split; try done. by eapply mods_digests.
Qed.

(** ** Writing a block *)

(** The block [ptr] with modifications [mods] has been written. *)
Definition written (w w' : W) (ptr : BlockPtr) (mods : list EntityModification) (dss : list StoredDs) : Prop :=
  rs_contents w' = apply_mods mods (rs_contents w) /\ rs_data_sources w' = rs_data_sources w ++ dss /\
  rs_block_ptr w' = Some ptr.

(** Contents, data sources and head are the same. *)
Definition unchanged (w w' : W) : Prop :=
  rs_contents w' = rs_contents w /\ rs_data_sources w' = rs_data_sources w /\ rs_block_ptr w' = rs_block_ptr w.

Lemma written_unchanged w w1 w2 ptr mods dss : written w w1 ptr mods dss -> unchanged w1 w2 -> written w w2 ptr mods dss.
Proof. intros (H1 & H2 & H3) (H4 & H5 & H6). split_and!; congruence. Qed.

(** The store refuses to write the block. *)
Definition write_fails (w : W) (ptr : BlockPtr) (cursor : option string) (e : AnyError) : Prop :=
  exists mods dss errors e0 w', rs_transact_block_operations w ptr cursor mods dss errors = (Err e0, w') /\
    e = WithContext "Failed to transact block operations" e0.

(** How writing a block may end *)
Definition transacted (ptr : BlockPtr) (cursor : option string) (needs_restart : bool) (errors : list SubgraphError)
    (mods : list EntityModification) (dss : list StoredDs) (w w' : W)
    (x : result (BlockProcessingError AnyError) Action) : Prop :=
  match x with
  | Ok action => action = (if needs_restart then Restart else Continue) /\ written w w' ptr mods dss /\
      (errors <> [] -> in_non_fatal_errors inputs = true)
  | Err (BpDeterministic e) => head errors = Some e /\ in_non_fatal_errors inputs = false /\
      written w w' ptr (List.filter is_poi_mod mods) dss
  | Err BpCanceled => errors <> [] /\ in_non_fatal_errors inputs = true /\ written w w' ptr mods dss
  | Err (BpUnknown e) => (write_fails w ptr cursor e /\ unchanged w w') \/
      (errors <> [] /\ in_non_fatal_errors inputs = true /\ written w w' ptr mods dss)
  | Panic => errors <> [] /\ in_non_fatal_errors inputs = false /\ length (List.filter is_poi_mod mods) <> 1
  end.

Local Ltac ended := eexists _, _; split; [done|]; split; [done|]; split; [done|]; split; [done|].

(** Writing a block without fatal errors *)
Lemma transact_non_fatal_sim ptr cursor needs_restart errors mods dss (r : Runner) :
  rs_ok (rn_store r) ->
  Forall (fun m => is_poi_mod m = true -> forall e, mod_entity m = Some e -> has_digest e) mods ->
  (errors <> [] -> in_non_fatal_errors inputs = true) ->
  exists x r', transact_block_state node inputs ptr cursor needs_restart errors mods dss r = Some (x, r') /\
    rs_ok (rn_store r') /\ rn_hosts r' = rn_hosts r /\ rn_entity_lfu_cache r' = rn_entity_lfu_cache r /\
    transacted ptr cursor needs_restart errors mods dss (rn_store r) (rn_store r') x.
Proof.
  intros Hw Hdig Hnf. unfold transact_block_state.
  set (has_errors := match errors with [] => false | _ => true end).
  assert (Hfatal : has_errors && negb (in_non_fatal_errors inputs) = false).
  { unfold has_errors. destruct errors; [done|]. by rewrite Hnf. }
  rewrite Hfatal. unfold rm_bind, rm_lift, rm_store, rm_ret.
  destruct (rs_transact_block_operations _ _ _ _ _ _) as [x w1] eqn:Htr.
  destruct (rs_transact_ok (sid:=sid) _ _ _ _ _ _ _ _ Hw Hdig Htr) as (Hx & Hw1 & Hok & Herr).
  destruct x as [[]|e|]; [| |done].
  2:{ ended. left. split; [by eexists _, _, _, _, _|by apply Herr]. }
  specialize (Hok eq_refl). cbn [map_err].
  destruct (has_errors && negb (nd_disable_fail_fast node)) eqn:Hfast; [|by ended].
  assert (Hne : errors <> []) by by intros ->. specialize (Hnf Hne).
  pose proof (rs_is_synced_ok (sid:=sid) w1 Hw1) as Hsy. cbn [rn_store rn_with_store].
  destruct (rs_is_deployment_synced w1) as [[]|e|]; cbn [map_err negb rn_store rn_with_store];
    [by ended| |ended; by right|done].
  destruct (rs_unassign_subgraph w1) as [x w2] eqn:Hun.
  destruct (rs_unassign_ok (sid:=sid) _ _ _ Hw1 Hun) as (Hx2 & Hw2 & Hsame).
  pose proof (written_unchanged _ _ _ _ _ _ Hok Hsame) as Hok2.
  destruct x as [[]|e|]; cbn [map_err]; [by ended|ended; by right|done].
Qed.

Lemma transact_block_state_sim ptr cursor needs_restart errors mods dss (r : Runner) :
  rs_ok (rn_store r) ->
  Forall (fun m => is_poi_mod m = true -> forall e, mod_entity m = Some e -> has_digest e) mods ->
  exists x r', transact_block_state node inputs ptr cursor needs_restart errors mods dss r = Some (x, r') /\
    rs_ok (rn_store r') /\ rn_hosts r' = rn_hosts r /\ rn_entity_lfu_cache r' = rn_entity_lfu_cache r /\
    transacted ptr cursor needs_restart errors mods dss (rn_store r) (rn_store r') x.
Proof.
  intros Hw Hdig. destruct (decide (errors <> [] -> in_non_fatal_errors inputs = true)) as [Hnf|Hfatal];
    [by apply transact_non_fatal_sim|].
  assert (Hne : errors <> []) by (intros ->; apply Hfatal; done).
  assert (Hnf : in_non_fatal_errors inputs = false) by (destruct (in_non_fatal_errors inputs); [by destruct Hfatal|done]).
  destruct errors as [|e errors]; [done|]. unfold transact_block_state. rewrite Hnf. cbn [negb andb].
  unfold rm_bind, rm_lift, rm_store. case_bool_decide as Hone; [|by ended].
  destruct (rs_transact_block_operations _ _ _ _ _ _) as [x w1] eqn:Htr.
  assert (Hdig' : Forall (fun m => is_poi_mod m = true -> forall e, mod_entity m = Some e -> has_digest e)
    (List.filter is_poi_mod mods)) by by apply Forall_filter_bool.
  destruct (rs_transact_ok (sid:=sid) _ _ _ _ _ _ _ _ Hw Hdig' Htr) as (Hx & Hw1 & Hok & Herr).
  destruct x as [[]|e'|]; [| |done].
  - specialize (Hok eq_refl). by ended.
  - ended. left. split; [by eexists _, _, _, _, _|by apply Herr].
Qed.

(** ** Processing a block *)

(** Handlers leave the proof of indexing alone. *)
Lemma hosts_run_same_poi w block trigger (hosts : list RuntimeHost) b b' infos errs :
  rs_ok w -> Forall host_good hosts -> hosts_run w block trigger hosts b b' infos errs -> same_poi b b'.
Proof.
  intros Hw Hgood Hrun. induction Hrun as [b|h hosts b b' infos errs Hm _ IH|
    h hosts mt ph p b b1 b' infos infos' errs errs' Hm Hph Hp Hout _ IH];
    [done|..]; inversion_clear Hgood as [|? ? Hh Hrest]; [by apply IH|].
  destruct (ho_safe _ _ _ _ _ (Hh w Hw) mt ph p Hph Hp) as [_ Havoid].
  pose proof (handler_outcome_same_poi _ _ _ _ _ _ _ _ _ _ _ _ _ _ _ _ Hout Havoid) as Hsame.
  intros k Hk. by rewrite (IH Hrest k Hk), (Hsame k Hk).
Qed.

Lemma triggers_run_same_poi w block (hosts : list RuntimeHost) triggers b b' infos errs :
  rs_ok w -> Forall host_good hosts -> triggers_run w block hosts triggers b b' infos errs -> same_poi b b'.
Proof.
  intros Hw Hgood. induction 1 as [|t ts b b1 b' infos infos' errs errs' Hrun _ IH]; [done|].
  pose proof (hosts_run_same_poi _ _ _ _ _ _ _ _ Hw Hgood Hrun) as Hsame.
  intros k Hk. by rewrite (IH k Hk), (Hsame k Hk).
Qed.

Lemma rounds_run_same_poi w block (hosts : list RuntimeHost) infos b b' dss errs :
  rs_ok w -> rounds_run w block hosts infos b b' dss errs -> same_poi b b'.
Proof.
  intros Hw. induction 1 as [|hosts infos b new b1 infos1 errs b' dss errs' _ [triggers Hnew _ Hrun] _ IH]; [done|].
  pose proof (triggers_run_same_poi _ _ _ _ _ _ _ _ Hw (proj1 (instantiates_hosts _ _ _ Hnew)) Hrun) as Hsame.
  intros k Hk. by rewrite (IH k Hk), (Hsame k Hk).
Qed.

Lemma same_poi_db_ok b b' : same_poi b b' -> poi_db_ok b -> poi_db_ok b'.
Proof. intros Hsame Hok k e Hk Hpoi. rewrite (Hsame k Hpoi) in Hk. by eapply Hok. Qed.

Lemma poi_mods_other mods S k :
  is_poi (entity_type k) = false -> apply_mods (List.filter is_poi_mod mods) S !! k = S !! k.
Proof.
  intros Hk. apply apply_mods_other. intros m Hm <-. apply list_elem_of_In, filter_In in Hm as [_ Hm].
  unfold is_poi_mod in Hm. congruence.
Qed.

(** A runner at block [n] *)
Record runner_ok (n : BlockNumber) (r : Runner) : Prop := {
  ro_store : rs_ok (rn_store r);
  ro_cache_ok : cache_ok (rn_entity_lfu_cache r);
  ro_coherent : coherent (rs_contents (rn_store r)) (rn_entity_lfu_cache r);
  ro_hosts : hosts_inv n (rn_hosts r)
}.

Lemma bs_new_inv S (c : C) :
  cache_ok c -> coherent S c ->
  block_inv S sid (mkTxn (fun k => S !! k) None) (bs_new c : BlockState).
Proof.
  intros Hok Hco. split; simpl; try done.
  intros k [[o Ho]|[o Ho]]; simpl in Ho; by rewrite lookup_empty in Ho.
Qed.

Section Block.
Context (block : Block) (triggers : list Trigger) (cursor : option string) (canceled : bool).
Local Abbreviation ptr := (ch_block_ptr chain block).
Local Abbreviation start w := (fun k => rs_contents w !! k).

(** What the handlers of the block do with the contents of the store: those that
    match its triggers run, asking for the data sources [infos], and then those of
    the data sources created meanwhile, which are [dss]; [b] is the database they
    leave and [errs] are the deterministic failures among them. *)
Inductive block_runs (w : W) (hosts : list RuntimeHost) (b : EntityDb) (infos : list DataSourceTemplateInfo)
    (dss : list DataSource) : list SubgraphError -> Prop :=
| block_runs_intro b1 errs1 errs2 :
    triggers_run w block hosts triggers (start w) b1 infos errs1 ->
    rounds_run w block hosts infos b1 b dss errs2 -> block_runs w hosts b infos dss (errs1 ++ errs2).

(** The node gives up on a trigger of the block, or on one of the rounds. *)
Inductive block_fails (w : W) (hosts : list RuntimeHost) : AnyError -> Prop :=
| block_fails_trigger trigger e e' :
    triggers_fail w block hosts triggers (start w) trigger e' -> trigger_error chain trigger e' = MappingUnknown e ->
    block_fails w hosts e
| block_fails_round b1 infos errs e :
    triggers_run w block hosts triggers (start w) b1 infos errs -> rounds_fail w block hosts infos b1 e ->
    block_fails w hosts e.

(** A handler for one of the triggers has noticed a reorganisation of the chain. *)
Definition block_reorg (w : W) (hosts : list RuntimeHost) : Prop :=
  exists trigger e, triggers_fail w block hosts triggers (start w) trigger (MappingPossibleReorg e).

(** The store has the entities that the handlers have left and the new data
    sources, and the block is its head. *)
Record block_stored (w w' : W) (b : EntityDb) (dss : list DataSource) : Prop := {
  st_contents k : is_poi (entity_type k) = false -> osim (rs_contents w' !! k) (b k);
  st_data_sources : rs_data_sources w' = rs_data_sources w ++ map (ch_as_stored_dynamic_data_source chain) dss;
  st_block_ptr : rs_block_ptr w' = Some ptr
}.

(** A panic while processing the block: two handlers have failed on one trigger; or
    a handler has failed, errors are fatal, and the entities changed do not include
    exactly one of the proof of indexing. *)
Inductive block_panics (w : W) (hosts : list RuntimeHost) : Prop :=
| block_panics_trigger : double_failure w block hosts triggers (start w) -> block_panics w hosts
| block_panics_round b1 infos errs :
    triggers_run w block hosts triggers (start w) b1 infos errs -> rounds_panic w block hosts infos b1 ->
    block_panics w hosts
| block_panics_fatal b infos dss errs mods :
    block_runs w hosts b infos dss errs -> errs <> [] -> in_non_fatal_errors inputs = false ->
    (forall k, is_poi (entity_type k) = false -> osim (apply_mods mods (rs_contents w) !! k) (b k)) ->
    length (List.filter is_poi_mod mods) <> 1 -> block_panics w hosts.

(** How processing the block may end, with the store [w'] *)
Definition block_outcome (w : W) (hosts : list RuntimeHost) (w' : W)
    (x : result (BlockProcessingError AnyError) Action) : Prop :=
  match x with
  | Ok action =>
      (action = Restart /\ w' = w /\ block_reorg w hosts) \/
      (exists b infos dss errs, block_runs w hosts b infos dss errs /\ block_stored w w' b dss /\
         action = (if bool_decide (infos <> []) && negb (in_static_filters inputs) then Restart else Continue) /\
         (errs <> [] -> in_non_fatal_errors inputs = true))
  | Err (BpDeterministic e) =>
      exists b infos dss errs, block_runs w hosts b infos dss errs /\ head errs = Some e /\
        in_non_fatal_errors inputs = false /\ block_stored w w' (start w) dss
  | Err BpCanceled =>
      exists b infos dss errs, block_runs w hosts b infos dss errs /\
        ((canceled = true /\ w' = w) \/
         (errs <> [] /\ in_non_fatal_errors inputs = true /\ block_stored w w' b dss))
  | Err (BpUnknown e) =>
      (unchanged w w' /\ (block_fails w hosts e \/ rs_supports_proof_of_indexing w = Err e \/ write_fails w ptr cursor e)) \/
      (exists b infos dss errs, block_runs w hosts b infos dss errs /\
         errs <> [] /\ in_non_fatal_errors inputs = true /\ block_stored w w' b dss)
  | Panic => block_panics w hosts
  end.

(** The runner afterwards; it drops its cache when the block has failed. *)
Definition runner_left (r' : Runner) (x : result (BlockProcessingError AnyError) Action) : Prop :=
  match x with
  | Ok _ | Err BpCanceled => runner_ok (bp_number ptr) r'
  | Err _ => rs_ok (rn_store r') /\ hosts_inv (bp_number ptr) (rn_hosts r')
  | Panic => True
  end.

Lemma poi_new_ok (supports : bool) :
  (0 <= bp_number ptr)%Z -> poi_ok (if supports then Some (poi_new (bp_number ptr)) else None).
Proof. intros H p. destruct supports; [|done]. by intros [= <-]. Qed.

Lemma rn_with_store_same (r : Runner) : rn_with_store r (rn_store r) = r.
Proof. by destruct r. Qed.

Lemma runner_ok_new n (r : Runner) :
  rs_ok (rn_store r) -> hosts_inv n (rn_hosts r) -> rn_entity_lfu_cache r = cache_new -> runner_ok n r.
Proof.
  intros Hw Hh Hc. split; try done; rewrite Hc; [apply cache_new_ok|].
  intros k o. by rewrite cache_new_view, lookup_empty.
Qed.

Lemma block_runs_poi w (hosts : list RuntimeHost) b infos dss errs :
  rs_ok w -> Forall host_good hosts -> block_runs w hosts b infos dss errs -> poi_db_ok b.
Proof.
  intros Hw Hgood [b1 errs1 errs2 Htr Hrounds].
  apply (same_poi_db_ok b1); [by eapply rounds_run_same_poi|].
  eapply same_poi_db_ok; [by eapply triggers_run_same_poi|]. intros k e. by apply (rs_poi (sid:=sid)).
Qed.

(** The modifications of the block without those of the proof of indexing *)
Lemma block_mods_other w poi b b' mods c k :
  block_mods w poi b b' mods c -> is_poi (entity_type k) = false ->
  osim (apply_mods mods (rs_contents w) !! k) (b k).
Proof.
  intros [Hw1 _ _ Hw2 _ _] Hk. etrans; [apply Hw2|]. destruct poi as [p|]; [|by subst].
  by rewrite (pw_other _ _ _ Hw1).
Qed.

(** From the end of the handlers to the end of the block *)
Lemma finish_block_sim poi (r r1 : Runner) b infos dss s :
  let needs_restart := bool_decide (infos <> []) && negb (in_static_filters inputs) in
  rs_ok (rn_store r) -> Forall host_good (rn_hosts r) ->
  rn_store r1 = rn_store r -> rn_entity_lfu_cache r1 = cache_new -> hosts_inv (bp_number ptr) (rn_hosts r1) ->
  block_runs (rn_store r) (rn_hosts r) b infos dss (bs_deterministic_errors s) ->
  block_inv (rs_contents (rn_store r)) sid (mkTxn b None) s ->
  ec_data_sources (bs_entity_cache s) = map (ch_as_stored_dynamic_data_source chain) dss ->
  exists x r', rm_bind (block_modifications node inputs canceled poi s) (fun mods =>
      transact_block_state node inputs ptr cursor needs_restart (bs_deterministic_errors s) mods.1 mods.2) r1
    = Some (x, r') /\ block_outcome (rn_store r) (rn_hosts r) (rn_store r') x /\ runner_left r' x.
Proof.
  intros needs_restart Hw Hgood Hs1 Hc1 Hh1 Hruns Hinv Hds.
  pose proof (block_runs_poi _ _ _ _ _ _ Hw Hgood Hruns) as Hpoi.
  unfold rm_bind. rewrite <-Hs1 in Hinv, Hw.
  destruct (block_modifications_sim canceled poi b s r1 Hw) as (x & r2 & -> & Hs2 & Hh2 & Hx); [|done..|].
  { rewrite Hc1. apply (co_cache_new Hchain). }
  rewrite <-Hs2 in Hw. rewrite <-Hh2 in Hh1.
  destruct x as [[mods ds]|[e|e|]|]; [|done|done| |done].
  2:{ destruct Hx as [Hcan Hx]. eexists _, _. split; [done|]. rewrite Hc1 in Hx.
      split; [|by apply runner_ok_new]. exists b, infos, dss, (bs_deterministic_errors s). split; [done|].
      left. by rewrite Hs2, Hs1. }
  destruct Hx as [-> (b' & Hmods)]. cbn [fst snd]. pose proof Hmods as [_ _ Hdig _ Hcok Hco].
  destruct (transact_block_state_sim ptr cursor needs_restart (bs_deterministic_errors s) mods
    (ec_data_sources (bs_entity_cache s)) r2 Hw Hdig) as (x & r' & -> & Hw' & Hh' & Hc' & Hout).
  rewrite Hs2, Hs1 in *. rewrite <-Hh' in Hh1. exists x, r'. split; [done|].
  pose proof (fun k => block_mods_other _ _ _ _ _ _ k Hmods) as Hother.
  assert (Hstored : written (rn_store r) (rn_store r') ptr mods (ec_data_sources (bs_entity_cache s)) ->
    block_stored (rn_store r) (rn_store r') b dss /\ runner_ok (bp_number ptr) r').
  { intros (Hcont & Hdss & Hptr). split; [split; [|congruence|done]; intros k; rewrite Hcont; apply Hother|].
    split; [done|by rewrite Hc'|by rewrite Hcont, Hc'|done]. }
  destruct x as [action|[e|e|]|]; simpl in Hout.
  - destruct Hout as (-> & [Hst Hr']%Hstored & Hnf). split; [|done]. right. by exists b, infos, dss, (bs_deterministic_errors s).
  - split; [|done]. destruct Hout as [[Hfail Hun]|(Hne & Hnf & [Hst _]%Hstored)]; [left; auto|right].
    by exists b, infos, dss, (bs_deterministic_errors s).
  - destruct Hout as (He & Hnf & (Hcont & Hdss & Hptr)). split; [|done].
    exists b, infos, dss, (bs_deterministic_errors s). split_and!; [done..|]. split; [|congruence|done].
    intros k Hk. rewrite Hcont. by rewrite poi_mods_other.
  - destruct Hout as (Hne & Hnf & [Hst Hr']%Hstored). split; [|done].
    exists b, infos, dss, (bs_deterministic_errors s). auto.
  - destruct Hout as (Hne & Hnf & Hlen). split; [|done]. by eapply block_panics_fatal.
Qed.

Lemma trigger_error_reorg trigger e e' :
  trigger_error chain trigger e' = MappingPossibleReorg e -> exists e0, e' = MappingPossibleReorg e0.
Proof. unfold trigger_error. case_bool_decide; destruct e'; cbn; intros [= ?]; by eexists. Qed.

Lemma process_block_sim limit rounds (r : Runner) :
  nd_max_data_sources node = Some limit -> limit < rounds -> (0 <= bp_number ptr)%Z -> runner_ok (bp_number ptr) r ->
  exists x r', process_block node chain inputs rounds canceled block triggers cursor r = Some (x, r') /\
    block_outcome (rn_store r) (rn_hosts r) (rn_store r') x /\ runner_left r' x.
Proof.
  intros Hlimit Hrounds Hn [Hw Hcok Hco Hhosts]. unfold process_block, rm_bind at 1, rm_store.
  pose proof (rs_supports_ok (sid:=sid) _ Hw) as Hsup.
  destruct (rs_supports_proof_of_indexing (rn_store r)) as [supports|e|] eqn:Hpoi0; cbn [map_err]; [| |done].
  2:{ eexists _, _. split; [done|]. split; [|done]. left. split; [done|]. auto. }
  rewrite rn_with_store_same. unfold process_triggers. cbn [rn_store rn_hosts rn_with_cache].
  pose proof (poi_new_ok supports Hn) as Hpoi1. set (poi1 := if supports then _ else _) in *.
  set (region := from_network (in_network inputs)).
  pose proof (bs_new_inv (rs_contents (rn_store r)) (rn_entity_lfu_cache r) Hcok Hco) as Hinv.
  pose proof (run_triggers_sim (trigger_error chain) (rn_store r) (rn_hosts r) block region triggers _ _ poi1 Hw
    (hi_good _ _ Hhosts) Hinv Hpoi1) as Hx.
  destruct (run_triggers _ _ _ _ _ _ _ _ _) as [[s poi2]|e|].
  2:{ destruct Hx as (t & e' & -> & Hfail). destruct (trigger_error chain t e') as [e|e] eqn:He;
        (eexists _, _; split; [done|]; split; [left|]).
      - apply trigger_error_reorg in He as [e0 ->]. split_and!; [done..|]. by exists t, e0.
      - by apply runner_ok_new.
      - split; [done|]. left. by eapply block_fails_trigger.
      - done. }
  2:{ eexists _, _. split; [done|]. split; [by apply block_panics_trigger|done]. }
  destruct Hx as (Hpoi2 & b1 & infos & errs1 & Htr & [Hinv1 He1 Hc1 Hd1]). cbn in He1, Hc1, Hd1.
  set (r1 := rn_with_cache r cache_new).
  destruct (process_all_created_sim block region limit rounds poi2 b1 s r1 Hlimit) as (x & r2 & Hall & [Hs2 Hl2] & Hh2 & Hx2);
    [lia|done|done|done|rewrite Hc1; by eapply triggers_run_created|done|].
  unfold rm_bind at 1, rm_lift. rewrite (has_created_inv _ b1 s Hinv1).
  replace (match bs_created_data_sources s with [] => false | _ => true end) with (bool_decide (infos <> []))
    by (rewrite Hc1; by destruct infos).
  unfold rm_bind at 1. rewrite Hall. unfold rounds_result in Hx2. rewrite Hc1 in Hx2.
  destruct x as [[s2 poi3]|[e|e|]|]; [| |done..|].
  2:{ eexists _, _. split; [done|]. split; [|cbn; by rewrite Hs2]. left. rewrite Hs2. split; [done|]. left.
      by eapply block_fails_round. }
  2:{ eexists _, _. split; [done|]. split; [by eapply block_panics_round|done]. }
  destruct Hx2 as (Hpoi3 & b2 & dss & errs2 & Hrounds2 & [Hinv2 He2 _ Hd2]). cbn [fst snd].
  eapply finish_block_sim; try done.
  - by apply Hhosts.
  - rewrite He2, He1. by econstructor.
  - by rewrite Hd2, Hd1.
Qed.

End Block.
(** ** Events *)

Definition env_ok (env : Environment (QErr:=QErr)) : Prop :=
  env_chain_head env <> Panic /\ env_chain_head_after env <> Panic.

(** The event is handled and leaves a runner at block [n]. *)
Definition handled {E A} (n : BlockNumber) (m : option (result E A * Runner)) : Prop :=
  exists x r', m = Some (x, r') /\ x <> Panic /\ runner_ok n r'.

Lemma handled_ret {E A} n (x : result E A) r : x <> Panic -> runner_ok n r -> handled n (Some (x, r)).
Proof. intros Hx Hr. by exists x, r. Qed.

Lemma handled_bind {E A B} n (m : RM E A) (k : A -> RM E B) r :
  handled n (m r) -> (forall a r', runner_ok n r' -> handled n (k a r')) -> handled n (rm_bind m k r).
Proof.
  intros (x & r1 & Hm & Hx & Hr1) Hk. unfold rm_bind. rewrite Hm.
  destruct x; [by apply Hk|by apply handled_ret|done].
Qed.

Lemma handled_store {E A} n (wrap : AnyError -> E) (f : W -> result AnyError A * W) r :
  runner_ok n r ->
  (forall x w', f (rn_store r) = (x, w') ->
     x <> Panic /\ rs_ok w' /\ rs_contents w' = rs_contents (rn_store r)) ->
  handled n (rm_store wrap f r).
Proof.
  intros [Hw Hc Hco Hh] Hf. unfold rm_store. destruct (f (rn_store r)) as [x w'].
  destruct (Hf x w' eq_refl) as (Hx & Hw' & Hcont). apply handled_ret; [by destruct x|].
  split; try done. simpl. by rewrite Hcont.
Qed.

Lemma handled_modify {E} n (f : Runner -> Runner) r :
  rn_store (f r) = rn_store r -> rn_hosts (f r) = rn_hosts r ->
  rn_entity_lfu_cache (f r) = rn_entity_lfu_cache r -> runner_ok n r -> handled (E:=E) n (rm_modify f r).
Proof.
  intros Hs Hh Hc [? ? ? ?]. apply handled_ret; [done|]. by split; rewrite ?Hs, ?Hh, ?Hc.
Qed.

Lemma after_block_sim n env block_ptr action (r : Runner) :
  env_ok env -> runner_ok n r -> handled n (after_block inputs env block_ptr action r).
Proof.
  intros [_ Henv] Hr. unfold after_block.
  apply handled_bind; [by apply handled_ret|]. intros synced r1 Hr1.
  apply handled_bind.
  { destruct synced; [by apply handled_ret|].
    apply handled_bind; [by apply handled_ret|]. intros head r2 Hr2.
    destruct (close_to_chain_head _ _ _); [|by apply handled_ret].
    apply handled_bind; [|by intros ? ? ?; apply handled_modify].
    apply handled_store; [done|]. intros x w'. apply (rs_synced_ok (sid:=sid)). by destruct Hr2. }
  intros _ r2 Hr2. apply handled_bind; [by apply handled_ret|]. intros try_unfail r3 Hr3.
  apply handled_bind.
  { destruct try_unfail; [|by apply handled_ret].
    apply handled_bind; [|intros [] ? ?; [by apply handled_ret|by apply handled_modify]].
    apply handled_store; [done|]. intros x w'. apply (rs_unfail_ok (sid:=sid)). by destruct Hr3. }
  intros _ r4 Hr4. destruct action, (in_stop_block inputs); by apply handled_ret.
Qed.

Lemma after_failure_sim n block_ptr e (r : Runner) :
  rs_ok (rn_store r) -> hosts_inv n (rn_hosts r) -> handled n (after_failure node inputs block_ptr e r).
Proof.
  intros Hw Hh. unfold after_failure.
  apply handled_bind; [apply handled_ret; [done|by apply runner_ok_new]|]. intros _ r1 Hr1.
  assert (Hfail : forall error r2, runner_ok n r2 ->
    handled n (rm_store (E:=AnyError) (WithContext "Failed to set subgraph status to `failed`")
                 (fun w => rs_fail_subgraph w error) r2)).
  { intros error r2 Hr2. apply handled_store; [done|]. intros x w'. apply (rs_fail_ok (sid:=sid)). by destruct Hr2. }
  destruct (bp_is_deterministic e).
  { apply handled_bind; [by apply Hfail|]. intros _ r2 Hr2. by apply handled_ret. }
  apply handled_bind.
  { apply handled_store; [done|]. intros x w' [= <- <-]. split; [|by destruct Hr1].
    apply (rs_health_ok (sid:=sid)). by destruct Hr1. }
  intros health r2 Hr2. apply handled_bind; [case_bool_decide; [by apply Hfail|by apply handled_ret]|].
  intros _ r3 Hr3. apply handled_bind; [by apply handled_modify|]. intros _ r4 Hr4.
  apply handled_bind; [by apply handled_modify|]. intros _ r5 Hr5. by apply handled_ret.
Qed.

Lemma hosts_inv_mono h n hosts : (h <= n)%Z -> hosts_inv h hosts -> hosts_inv n hosts.
Proof.
  intros Hn [Hg Ho Hu]. split; [done|done|]. eapply Forall_impl; [done|]. intros x. simpl. unfold option_leb, option_ltb.
  destruct (rh_creation_block_number x) as [c|]; [|done]. rewrite !negb_true_iff, !Z.ltb_ge. lia.
Qed.

Lemma runner_ok_mono h n (r : Runner) : (h <= n)%Z -> runner_ok h r -> runner_ok n r.
Proof. intros Hn [? ? ? ?]. split; try done. by eapply hosts_inv_mono. Qed.

Lemma skips_block_sim n env block_ptr triggers (r : Runner) :
  env_ok env -> runner_ok n r -> handled n (skips_block (W:=W) (C:=C) env block_ptr triggers r).
Proof.
  intros [Henv _] Hr. unfold skips_block.
  apply handled_bind; [by apply handled_ret|]. intros timer r1 Hr1.
  apply handled_bind; [by apply handled_ret|]. intros synced r2 Hr2.
  destruct (_ && _ && _); [|by apply handled_ret].
  apply handled_bind; [by apply handled_ret|]. intros head r3 Hr3. by apply handled_ret.
Qed.

Lemma skips_block_same env block_ptr triggers (r r' : Runner) x :
  skips_block (W:=W) (C:=C) env block_ptr triggers r = Some (x, r') -> r' = r.
Proof.
  unfold skips_block, rm_bind, rm_get, rm_lift, rm_ret. destruct (_ && _ && _); [|naive_solver].
  destruct (env_chain_head env); naive_solver.
Qed.

Section Event.
Context (limit rounds : nat).
Hypothesis Hlimit : nd_max_data_sources node = Some limit.
Hypothesis Hrounds : limit < rounds.

Lemma handle_process_block_sim h env block triggers cursor (r : Runner) :
  let n := bp_number (ch_block_ptr chain block) in
  env_ok env -> (0 <= n)%Z -> (h <= n)%Z -> runner_ok h r ->
  exists x r', handle_process_block node chain inputs rounds env block triggers cursor r = Some (x, r') /\
    ((x <> Panic /\ runner_ok n r') \/ (x = Panic /\ block_panics block triggers (rn_store r) (rn_hosts r))).
Proof.
  intros n Henv Hn Hh Hr. apply (runner_ok_mono h n) in Hr; [|done]. unfold handle_process_block, rm_bind at 1.
  destruct (skips_block_sim n env (ch_block_ptr chain block) triggers r Henv Hr) as (x & r1 & Hskip & Hx & Hr1).
  rewrite Hskip. apply skips_block_same in Hskip as ->.
  destruct x as [skip|e|]; [|by eexists _, _; split; [done|left]|done].
  destruct skip; [by eexists _, _; split; [done|left]|]. unfold rm_bind, rm_modify.
  assert (Hr2 : runner_ok n (rn_with_timer r (env_reset_now env))) by by destruct Hr1.
  set (r2 := rn_with_timer r (env_reset_now env)) in *.
  destruct (process_block_sim block triggers cursor (env_canceled env) limit rounds r2 Hlimit Hrounds Hn Hr2)
    as (x & r3 & -> & Hout & Hleft).
  assert (Hdone : forall m, handled n m -> exists (x : result AnyError Action) r', m = Some (x, r') /\
    ((x <> Panic /\ runner_ok n r') \/ (x = Panic /\ block_panics block triggers (rn_store r) (rn_hosts r)))).
  { intros m (y & r' & -> & Hy & Hr'). exists y, r'. auto. }
  destruct x as [action|[e|e|]|]; cbn in Hleft.
  - by apply Hdone, after_block_sim.
  - destruct Hleft. by apply Hdone, after_failure_sim.
  - destruct Hleft. by apply Hdone, after_failure_sim.
  - eexists _, _. split; [done|]. by left.
  - eexists _, _. split; [done|]. by right.
Qed.

Lemma handle_revert_sim h ptr cursor (r : Runner) :
  runner_ok h r -> is_Some (rs_block_ptr (rn_store r)) ->
  exists x r', handle_revert ptr cursor r = Some (x, r') /\ x <> Panic /\ runner_ok h r' /\
    (x = Ok Continue -> forall head, rs_block_ptr (rn_store r) = Some head ->
       (bp_number ptr < bp_number head)%Z -> runner_ok (bp_number head - 1) r').
Proof.
  intros Hr [head Hhead]. pose proof Hr as [Hw Hc Hco Hh].
  unfold handle_revert, rm_bind, rm_get, rm_lift. rewrite Hhead. cbn [expect].
  destruct (Z.leb_spec (bp_number head) (bp_number ptr)).
  { eexists _, _. split_and!; [done..|]. intros _ head' [= <-]. lia. }
  destruct (rs_revert_block_operations (rn_store r) ptr cursor) as [x w'] eqn:Hrev.
  destruct (rs_revert_ok (sid:=sid) _ _ _ _ _ Hw Hrev) as (Hx & Hw' & Herr).
  destruct x as [[]|e|]; [| |done].
  - assert (Hhosts : hosts_inv h (revert_data_sources (rn_hosts r) (bp_number head))).
    { rewrite revert_data_sources_spec by apply Hh. destruct Hh as [Hg Ho Hu].
      split; [by apply Forall_filter_bool| |by apply Forall_filter_bool].
      unfold hosts_ordered. by apply StronglySorted_filter_bool. }
    eexists _, _. split_and!; [done|done|by apply runner_ok_new|]. intros _ head' [= <-] _.
    apply runner_ok_new; [done| |done]. simpl. destruct Hhosts as [Hg Ho _]. split; [done|done|].
    rewrite revert_data_sources_spec by apply Hh. apply Forall_forall. intros x Hin.
    apply list_elem_of_In, filter_In in Hin as [_ Hin]. unfold created_before, option_leb, option_ltb in *.
    destruct (rh_creation_block_number x); [|done]. rewrite negb_involutive in Hin. apply Z.ltb_lt in Hin.
    rewrite negb_true_iff, Z.ltb_ge. lia.
  - specialize (Herr eq_refl). eexists _, _. split_and!; [done|done| |done]. split; try done. simpl. by rewrite Herr.
Qed.



End Event.
End RunnerProps.
