(* ===== verification/RunnerRetry.v ===== *)
(** * Data sources that outlive the work they belong to

    The hosts of a runner are neither undone when the block that creates them fails
    nor compared with the store after a revert.  What follows for the next attempt
    at the block, and for the blocks after the revert. *)

From S2P Require Import Prelude GraphqlAst Scalars RuntimeValue Values Names StoreTypes StoreProps.
From S2P Require Import Schema EntityValidate CacheInterface EntityCache EntityCacheProps BlockState Gas.
From S2P Require Import ProofOfIndexing HostExports SubgraphInstance HandlerProps InstanceProps.
From S2P Require Import Relational DeploymentStore Backoff Runner RunnerProps.

Section Retry.
Context `{HX : !Hex} `{HB : !NumBits} `{HS : !StableHash}.
Context {C : Type} `{HC : !CacheOps EntityKey (option Entity) C} `{HL : !CacheLaws EntityKey (option Entity) C}.
Context {QErr StoredDs Template Ctx : Type}.
Context {DataSource Trigger Block MappingTrigger Filter : Type}.
Context {W : Type} `{HW : !RunnerStore W QErr StoredDs} (sid : DeploymentHash).
Context `{HWL : !RunnerStoreLaws W QErr StoredDs sid}.
Context (node : Node C QErr Template).
Context (chain : Chain QErr StoredDs Template Ctx DataSource Trigger Block MappingTrigger Filter).
Context (inputs : IndexingInputs).

Local Abbreviation AnyError := (AnyError QErr).
Local Abbreviation BlockState := (BlockState C StoredDs Template Ctx).
Local Abbreviation DataSourceTemplateInfo := (DataSourceTemplateInfo Template Ctx).
Local Abbreviation RuntimeHost := (RuntimeHost QErr Template Ctx DataSource Trigger Block MappingTrigger).
Local Abbreviation Runner := (Runner C QErr Template Ctx DataSource Trigger Block MappingTrigger Filter W).

(** The chain when its triggers are looked up with [lookup] *)
Definition chain_with (lookup : Block -> Filter -> result AnyError (list Trigger))
    : Chain QErr StoredDs Template Ctx DataSource Trigger Block MappingTrigger Filter :=
  mkChain _ _ _ _ _ _ _ _ _ (ch_block_ptr chain) (ch_new_host chain) (ch_is_duplicate_of chain)
    (ch_creation_block chain) (ch_data_source_try_from chain) (ch_as_stored_dynamic_data_source chain)
    (ch_filter_from_data_sources chain) (ch_filter_extend chain) (ch_error_context chain) lookup.

(** A data source is a duplicate of itself. *)
Definition duplicates_itself : Prop :=
  forall ds h, ch_new_host chain ds = Ok h -> ch_is_duplicate_of chain (rh_data_source h) (rh_data_source h) = true.

(** ** Trying again *)

(** What hosts have been made is made again, and found to be there. *)
Lemma instantiates_duplicates hosts infos new :
  duplicates_itself -> instantiates node chain hosts infos new ->
  Forall (fun info => exists ds h, ch_data_source_try_from chain info = Ok ds /\ ch_new_host chain ds = Ok h /\
            duplicate chain (hosts ++ new.*2) h = true) infos.
Proof.
  intros Hdup. induction 1 as [|hosts info infos ds h new Hds _ Hh _ IH]; [constructor|].
  unfold add_host in IH. unfold duplicate in *. destruct (existsb _ hosts) eqn:Hex.
  - constructor; [|done]. exists ds, h. by rewrite existsb_app, Hex.
  - replace (hosts ++ ((ds, h) :: new).*2) with ((hosts ++ [h]) ++ new.*2) by by rewrite <-app_assoc.
    constructor; [|done].
    exists ds, h. rewrite !existsb_app, Hex. simpl. by rewrite (Hdup ds h Hh).
Qed.

(** Data sources that are all duplicates *)
Lemma create_duplicates n infos (r : Runner) :
  chain_ok sid node chain inputs -> hosts_inv sid node n (rn_hosts r) -> below_limit node (rn_hosts r) ->
  Forall (fun info => dti_creation_block info = n) infos ->
  Forall (fun info => exists ds h, ch_data_source_try_from chain info = Ok ds /\ ch_new_host chain ds = Ok h /\
            duplicate chain (rn_hosts r) h = true) infos ->
  create_dynamic_data_sources node chain infos r = Some (Ok ([], []), r).
Proof.
  intros Hchain Hinv Hlim Hn Hdup. induction Hdup as [|info infos (ds & h & Hds & Hh & Hd) _ IH]; [done|].
  inversion_clear Hn as [|? ? Hinfo Hinfos]. cbn [create_dynamic_data_sources]. unfold rm_bind, rm_lift. rewrite Hds.
  pose proof (co_try_from_block _ _ _ _ Hchain info ds Hds) as Hblock. rewrite Hinfo in Hblock.
  pose proof (add_dynamic_data_source_sim sid node chain inputs Hchain n (rn_hosts r) ds Hinv Hblock) as Hadd.
  destruct (add_dynamic_data_source _ _ _ _ _ _) as [[host hosts']|e|]; [| |done].
  - destruct Hadd as (_ & _ & h' & Hh' & -> & ->). assert (h' = h) as -> by congruence. unfold add_host. rewrite Hd.
    rewrite rn_with_hosts_same. rewrite IH by done. done.
  - destruct Hadd as [[Hno _]|[_ He]]; [done|congruence].
Qed.

Lemma run_triggers_no_hosts {E} lookup (wrap : Trigger -> MappingError AnyError -> E) w block region triggers (s : BlockState) poi :
  poi_ok poi ->
  exists poi', run_triggers node (chain_with lookup) wrap w [] block region triggers (s, poi) = Ok (s, poi').
Proof.
  revert poi. induction triggers as [|t ts IH]; intros poi Hpoi; cbn [run_triggers]; [by eexists|].
  unfold process_trigger_in_runtime_hosts. cbn [fst snd process_hosts].
  destruct (start_handler_ok (QErr:=QErr) poi region Hpoi) as (poi1 & -> & Hpoi1). cbn [bind_result].
  destruct poi1 as [p|]; [rewrite bool_decide_true by done|]; cbn [map_err bind_result]; by apply IH.
Qed.

(** Data sources that are instantiated *)
Lemma create_instantiates n hosts infos new (r : Runner) :
  chain_ok sid node chain inputs -> instantiates node chain hosts infos new -> rn_hosts r = hosts ->
  hosts_inv sid node n hosts -> Forall (fun info => dti_creation_block info = n) infos ->
  create_dynamic_data_sources node chain infos r =
    Some (Ok (new.*1, new.*2), rn_with_hosts r (hosts ++ new.*2)).
Proof.
  intros Hchain Hnew. revert r. induction Hnew as [hosts|hosts info infos ds h new Hds Hlim Hh _ IH];
    intros r <- Hinv Hn; cbn [create_dynamic_data_sources].
  { by rewrite app_nil_r, rn_with_hosts_same. }
  inversion_clear Hn as [|? ? Hinfo Hinfos]. unfold rm_bind, rm_lift. rewrite Hds.
  pose proof (co_try_from_block _ _ _ _ Hchain info ds Hds) as Hblock. rewrite Hinfo in Hblock.
  pose proof (add_dynamic_data_source_sim sid node chain inputs Hchain n (rn_hosts r) ds Hinv Hblock) as Hadd.
  destruct (add_dynamic_data_source _ _ _ _ _ _) as [[host hosts']|e|]; [| |done].
  - destruct Hadd as (_ & Hinv' & h' & Hh' & -> & ->). assert (h' = h) as -> by congruence.
    rewrite (IH (rn_with_hosts r (add_host chain (rn_hosts r) h)) eq_refl Hinv' Hinfos).
    unfold add_host. destruct (duplicate chain (rn_hosts r) h); [done|]. by rewrite <-app_assoc.
  - destruct Hadd as [[Hno _]|[_ He]]; [done|congruence].
Qed.
End Retry.

Section Findings.
Context `{HX : !Hex} `{HB : !NumBits} `{HS : !StableHash}.
Context {C : Type} `{HC : !CacheOps EntityKey (option Entity) C} `{HL : !CacheLaws EntityKey (option Entity) C}.
Context {QErr StoredDs Template Ctx : Type}.
Context {DataSource Trigger Block MappingTrigger Filter : Type}.
Context {W : Type} `{HW : !RunnerStore W QErr StoredDs} (sid : DeploymentHash).
Context `{HWL : !RunnerStoreLaws W QErr StoredDs sid}.
Context (node : Node C QErr Template).
Context (chain : Chain QErr StoredDs Template Ctx DataSource Trigger Block MappingTrigger Filter).
Context (inputs : IndexingInputs).

Local Abbreviation Runner := (Runner C QErr Template Ctx DataSource Trigger Block MappingTrigger Filter W).


(** C37: a revert removes the hosts of the old head, whatever block it reverts to.  If
    the store reverts to a block below the head, the runner is left with exactly the
    hosts that were created before the old head, and an empty entity cache; when the
    revert is by one block these are the hosts of blocks up to the new head, but when it
    is by more, which a Firehose stream asks for when it starts on a fork, every host of
    a block between the two stays although the store has removed its data source.  From
    then on, adding a data source that is created in a block before that of the last
    host panics, as long as the limit on data sources is not reached. *)
Theorem revert_keeps_stale_hosts ptr cursor head w' (r : Runner) :
  hosts_ordered (rn_hosts r) -> rs_block_ptr (rn_store r) = Some head -> (bp_number ptr < bp_number head)%Z ->
  rs_revert_block_operations (rn_store r) ptr cursor = (Ok tt, w') ->
  exists r', handle_revert ptr cursor r = Some (Ok Continue, r') /\ rn_store r' = w' /\
    rn_entity_lfu_cache r' = cache_new /\
    (forall h, h ∈ rn_hosts r' <-> h ∈ rn_hosts r /\
       match rh_creation_block_number h with Some n => (n < bp_number head)%Z | None => True end) /\
    (forall h n ds, last (rn_hosts r') = Some h -> rh_creation_block_number h = Some n ->
       below_limit node (rn_hosts r') -> (forall m, ch_creation_block chain ds = Some m -> (m < n)%Z) ->
       add_dynamic_data_source (ch_new_host chain) (ch_is_duplicate_of chain) (ch_creation_block chain)
         (nd_max_data_sources node) (rn_hosts r') ds = Panic).
Proof.
  intros Hord Hhead Hlt Hrev. unfold handle_revert, rm_bind, rm_get, rm_lift. rewrite Hhead. cbn [expect].
  destruct (Z.leb_spec (bp_number head) (bp_number ptr)); [lia|]. rewrite Hrev.
  eexists. split; [done|]. split; [done|]. split; [done|]. cbn [rn_hosts rn_with_cache rn_with_hosts rn_with_store].
  rewrite revert_data_sources_spec by done. split.
  - intros h. rewrite list_elem_of_In, filter_In, <-list_elem_of_In. unfold created_before, option_leb, option_ltb.
    destruct (rh_creation_block_number h); cbn; rewrite ?negb_involutive, ?Z.ltb_lt; tauto.
  - intros h n ds Hlast Hn Hlim Hds. unfold add_dynamic_data_source. rewrite Hlast. cbn. rewrite Hn.
    destruct (nd_max_data_sources node) as [m|] eqn:Hm; [rewrite (proj2 (Nat.leb_gt _ _)) by by apply Hlim|];
      destruct (ch_creation_block chain ds) as [k|]; try done; unfold option_leb; cbn;
      by rewrite (proj2 (Z.ltb_lt _ _)) by by apply Hds.
Qed.

End Findings.
