(* ===== verification/RunnerExamples.v ===== *)
(** * A runner over a store in memory

    An instance of the interfaces of the runner, the witnesses of the theorems on
    handlers, blocks and events, and runs in which the runner loses a data source,
    keeps hosts of reverted blocks, or panics. *)

From S2P Require Import Prelude GraphqlAst Scalars ScalarModels RuntimeValue Values Names StoreTypes StoreProps.
From S2P Require Import Schema SchemaProps EntityValidate CacheInterface LfuCache LfuProps EntityCache EntityCacheProps.
From S2P Require Import EntityCacheExamples BlockState Gas ProofOfIndexing PoiProps PoiExamples HostExports.
From S2P Require Import SubgraphInstance HandlerProps InstanceProps Relational DeploymentStore Backoff Runner RunnerProps.
From S2P Require Import RunnerRetry.

#[local, refine] Instance example_bits : NumBits := {| num_bits z := Z.log2_up (Z.abs z + 1) |}.
Proof.
  - intros z. split; [apply Z.log2_up_nonneg|].
    enough (Z.abs z + 1 <= 2 ^ Z.log2_up (Z.abs z + 1))%Z by lia. apply Z.log2_log2_up_spec. lia.
  - intros z b Hb Hz. apply Z.log2_up_le_pow2; lia.
Defined.
#[local] Instance example_lfu_ops : CacheOps EntityKey (option Entity) lfu := lfu_ops 16.
#[local] Instance example_lfu_laws : CacheLaws EntityKey (option Entity) lfu := lfu_laws 16 ltac:(lia).

(** ** A store in memory *)

Record MemStore := mkMem {
  ms_contents : gmap EntityKey Entity;
  ms_data_sources : list string;
  ms_block_ptr : option BlockPtr;
  ms_health : SubgraphHealth
}.

Definition mod_id_ok (m : EntityModification) : bool :=
  match mod_entity m with
  | Some e => match entity_id e with
              | Ok id => bool_decide (id = key_entity_id (mod_entity_key m))
              | _ => false
              end
  | None => true
  end.

(** Reverting forgets everything: the examples do not read after a revert. *)
#[local] Instance mem_store : RunnerStore MemStore Empty_set string := {|
  rs_block_ptr := ms_block_ptr;
  rs_supports_proof_of_indexing _ := Ok true;
  rs_reader w := memory_store "QmMusic" example_schema (ms_contents w);
  rs_transact_block_operations w ptr _ mods dss errors :=
    if forallb mod_id_ok mods then
      (Ok tt, mkMem (apply_mods mods (ms_contents w)) (ms_data_sources w ++ dss) (Some ptr)
                (match errors with [] => ms_health w | _ => Unhealthy end))
    else (Err (External "bad id"), w);
  rs_revert_block_operations w ptr _ := (Ok tt, mkMem ∅ [] (Some ptr) (ms_health w));
  rs_fail_subgraph w _ := (Ok tt, mkMem (ms_contents w) (ms_data_sources w) (ms_block_ptr w) Failed);
  rs_health w := Ok (ms_health w);
  rs_is_deployment_synced _ := Ok true;
  rs_deployment_synced w := (Ok tt, w);
  rs_unassign_subgraph w := (Ok tt, w);
  rs_unfail_deterministic_error w _ _ := (Ok Noop, w);
  rs_unfail_non_deterministic_error w _ :=
    (Ok Unfailed, mkMem (ms_contents w) (ms_data_sources w) (ms_block_ptr w) Healthy)
|}.

Definition mem_ok (w : MemStore) : Prop :=
  map_Forall (fun k e => entity_id e = Ok (key_entity_id k) /\ (is_poi (entity_type k) = true -> has_digest e))
    (ms_contents w).

Lemma mem_transact_contents mods S :
  map_Forall (fun k e => entity_id e = Ok (key_entity_id k) /\ (is_poi (entity_type k) = true -> has_digest e)) S ->
  Forall (fun m => is_poi_mod m = true -> forall e, mod_entity m = Some e -> has_digest e) mods ->
  forallb mod_id_ok mods = true ->
  map_Forall (fun k e => entity_id e = Ok (key_entity_id k) /\ (is_poi (entity_type k) = true -> has_digest e))
    (apply_mods mods S).
Proof.
  unfold apply_mods. intros HS Hdig. revert S HS. induction Hdig as [|m mods Hm _ IH]; intros S HS Hid; simpl in *; [done|].
  apply andb_true_iff in Hid as [Hid1 Hid]. apply IH; [|done].
  intros k e. rewrite apply_mod_lookup. case_decide as Hk; [subst|by apply HS]. intros He.
  unfold mod_id_ok in Hid1. rewrite He in Hid1. split; [|by intros; eapply Hm].
  destruct (entity_id e); try done. by apply bool_decide_eq_true in Hid1 as ->.
Qed.

#[local, refine] Instance mem_laws : RunnerStoreLaws MemStore Empty_set string "QmMusic" := {|
  rs_ok := mem_ok; rs_contents := ms_contents; rs_data_sources := ms_data_sources
|}.
Proof.
  - intros w Hw. apply memory_store_reads. by intros k e [? _]%Hw.
  - intros w ty _. simpl. destruct (is_immutable example_schema ty) eqn:Himm; [|done].
    apply bool_decide_eq_true in Himm. by vm_compute in Himm.
  - intros w k e Hw He. by apply Hw in He as [_ ?].
  - intros w ptr cursor mods dss errors x w' Hw Hdig. simpl. destruct (forallb mod_id_ok mods) eqn:Hid;
      intros [= <- <-]; [|done]. split_and!; [done|by apply mem_transact_contents|done|done].
  - intros w ptr cursor x w' Hw [= <- <-]. split_and!; [done| |done]. apply map_Forall_empty.
  - done.
  - done.
  - done.
  - by intros w e x w' Hw [= <- <-].
  - by intros w x w' Hw [= <- <-].
  - by intros w x w' Hw [= <- <-].
  - by intros w ptr x w' Hw [= <- <-].
Defined.

(** ** A chain *)

Record Ds := mkDs { ds_name : string; ds_trigger : string; ds_created : option BlockNumber }.

Abbreviation example_program := (Program unit (AnyError Empty_set)).
Abbreviation example_runner := (Runner lfu Empty_set string unit Ds string BlockPtr string (list string) MemStore).

(** The factory asks for a pool, the pool removes a band. *)
Definition band_programs (name : string) : example_program :=
  if bool_decide (name = "factory") then
    ProgramCall (CallDataSourceCreate "pool" [] None) (fun _ => ProgramReturn)
  else if bool_decide (name = "pool") then
    ProgramCall (CallStoreGet "Band" "beatles") (fun _ =>
      ProgramCall (CallStoreRemove "Band" "beatles") (fun _ => ProgramReturn))
  else ProgramTrap UnreachableCodeReached.

Section ExampleChain.
Context (programs : string -> example_program) (rpc_up : bool).

Definition example_host (ds : Ds) : RuntimeHost Empty_set string unit Ds string BlockPtr string :=
  mkHost ds (mkExports "QmMusic" "ethereum/mainnet" ["pool"]) (ds_created ds)
    (fun trigger _ => Ok (if bool_decide (trigger = ds_trigger ds) then Some trigger else None))
    (fun mt => Ok (mkPrepared mt (Some (programs (ds_name ds))) 0)).

(** The triggers of the created data sources come from an RPC endpoint. *)
Definition example_chain : Chain Empty_set string string unit Ds string BlockPtr string (list string) :=
  mkChain _ _ _ _ _ _ _ _ _ (fun block => block) (fun ds => Ok (example_host ds))
    (fun a b => bool_decide (ds_name a = ds_name b)) ds_created
    (fun info => Ok (mkDs (dti_template info) (dti_template info) (Some (dti_creation_block info))))
    ds_name (map ds_name) (fun f dss => f ++ map ds_name dss) (fun _ => EmptyString)
    (fun _ filter => if rpc_up then Ok filter else Err (External "connection refused")).

End ExampleChain.

Definition example_node (timeout : option Z) : Node lfu Empty_set string :=
  mkNode _ _ _ _ (fun t => t) (fun m => map_to_list m) (fun m => map_to_list m) (fun c => lfu_is_empty c) 5
    CONST_MAX_GAS_PER_HANDLER None (fun _ => "wasm trap") (fun _ => "error") timeout 1000 (Some 10) true.

Definition example_inputs (non_fatal_errors : bool) : IndexingInputs :=
  mkInputs "QmMusic" "mainnet" non_fatal_errors None false.

Definition example_ptr (n : BlockNumber) : BlockPtr := {| bp_hash := []; bp_number := n |}.

Definition example_start (dss : list Ds) (programs : string -> example_program) (head : BlockNumber) : example_runner :=
  runner_new (mkMem example_contents [] (Some (example_ptr head)) Healthy) (map (example_host programs) dss)
    (map ds_name dss) 0 (from_secs 1800).

Definition example_env : Environment (QErr:=Empty_set) :=
  mkEnv 0 0 false (Ok (Some (example_ptr 5))) (Ok (Some (example_ptr 5))).

Definition factory : Ds := mkDs "factory" "factory" None.

Definition handle_example (rpc_up : bool) (n : BlockNumber) (triggers : list string)
    (programs : string -> example_program) (r : example_runner) :=
  handle_process_block (example_node None) (example_chain programs rpc_up) (example_inputs false) 11 example_env
    (example_ptr n) triggers None r.

(** What the store has after an event: the data sources and one of the entities *)
Definition outcome (x : option (result (AnyError Empty_set) Action * example_runner))
    : option (result (AnyError Empty_set) Action * list string * option Entity) :=
  match x with
  | Some (a, r) => Some (a, ms_data_sources (rn_store r), ms_contents (rn_store r) !! band_key)
  | None => None
  end.

(** The next event, unless the runner has stopped *)
Definition and_then (x : option (result (AnyError Empty_set) Action * example_runner))
    (k : example_runner -> option (result (AnyError Empty_set) Action * example_runner)) :=
  match x with Some (Ok _, r) => k r | _ => x end.

(** A data source is lost when processing the block that creates it fails after its
    host was added, here because the triggers of the block can not be fetched.  The
    block is processed again when the chain is back, but the runner still has the host,
    takes the data source for a duplicate, and neither stores it nor runs its handlers;
    without the failure both happen. *)
Example lost_data_source_run :
  let start := example_start [factory] band_programs 4 in
  let failure := handle_example false 5 ["factory"] band_programs start in
  let retry := and_then failure (handle_example true 5 ["factory"] band_programs) in
  outcome failure = Some (Ok Restart, [], Some band) /\
  outcome retry = Some (Ok Restart, [], Some band) /\
  outcome (handle_example true 5 ["factory"] band_programs start) = Some (Ok Restart, ["pool"], None).
Proof. vm_compute. split_and!; reflexivity. Qed.

(** The pool of block 3 has a host after a revert from block 5 to block 1.  When
    block 2 then creates a data source, the check that hosts are ordered by creation
    block panics. *)
Example stale_hosts_run :
  let start := example_start [factory; mkDs "pool of block 3" "pool" (Some 3%Z)] band_programs 5 in
  let reverted := handle_revert (example_ptr 1) None start in
  (map (fun h => ds_name (rh_data_source h)) ∘ rn_hosts ∘ snd) <$> reverted = Some ["factory"; "pool of block 3"] /\
  outcome (and_then reverted (handle_example true 2 ["factory"] band_programs)) = Some (Panic, [], None) /\
  outcome (and_then (handle_revert (example_ptr 1) None (example_start [factory] band_programs 5))
             (handle_example true 2 ["factory"] band_programs)) = Some (Ok Restart, ["pool"], None).
Proof. vm_compute. split_and!; reflexivity. Qed.

(** When two hosts fail deterministically on one trigger, the assertion that
    there is one new error panics, while one failing host is recorded as an
    error. *)
Theorem two_failures_panic :
  let one := [mkDs "first" "swap" None] in
  let two := [mkDs "first" "swap" None; mkDs "second" "swap" None] in
  outcome (handle_example true 5 ["swap"] band_programs (example_start two band_programs 4)) =
    Some (Panic, [], Some band) /\
  outcome (handle_example true 5 ["swap"] band_programs (example_start one band_programs 4)) =
    Some (Err (External "error in handler `swap` at block #5 (), code: SubgraphSyncingFailure"), [], Some band).
Proof. vm_compute. split_and!; reflexivity. Qed.

(** A mapping that sets the entity of the proof of indexing *)
Definition forging_programs (digest : option Bytes) (name : string) : example_program :=
  ProgramCall (CallStoreSet "Poi$" "ethereum/mainnet"
    match digest with Some d => {["digest" := VBytes d; "id" := VString "ethereum/mainnet"]}
                    | None => {["id" := VString "ethereum/mainnet"]} end) (fun _ => ProgramReturn).

Definition digest_after (x : option (result (AnyError Empty_set) Action * example_runner)) : option Value :=
  match x with
  | Some (_, r) => ms_contents (rn_store r) !! mkKey "QmMusic" "Poi$" "ethereum/mainnet" ≫= fun e => entity_get e "digest"
  | None => None
  end.

(** Nothing keeps a mapping from setting the entity that holds the proof of
    indexing: its digest then becomes the one that the block starts from, and
    without a digest the node panics at the end of the block. *)
Theorem mapping_sets_proof_of_indexing :
  let process digest := handle_example true 5 ["factory"] (forging_programs digest)
                          (example_start [factory] (forging_programs digest) 4) in
  outcome (process None) = Some (Panic, [], Some band) /\
  digest_after (process (Some [Byte.x01])) <> digest_after (process (Some [Byte.x02])).
Proof. split; [vm_compute; reflexivity|]. vm_compute. discriminate. Qed.

(** ** Witnesses *)

Lemma example_timeouts : timeouts_ok (nd_trap_to_string (example_node None)) (nd_timeout (example_node None)).
Proof. right. intros trap. by vm_compute. Qed.

Lemma band_program_safe (store : EntityReader Empty_set) name :
  program_safe store 5 None "QmMusic" (band_programs name) /\ avoids_poi (band_programs name).
Proof. unfold band_programs. by repeat case_bool_decide. Qed.

Lemma band_host_good ds : host_good "QmMusic" (example_node None) (example_host band_programs ds).
Proof.
  intros w _. split; [done| |done|].
  - intros trigger block. simpl. done.
  - intros mt ph p [= <-] [= <-]. apply band_program_safe.
Qed.

Lemma band_chain_ok rpc_up :
  chain_ok "QmMusic" (example_node None) (example_chain band_programs rpc_up) (example_inputs false).
Proof.
  split; simpl; try done.
  - apply map_to_list_law.
  - apply example_timeouts.
  - by intros info ds [= <-].
  - intros ds h [= <-]. split; [apply band_host_good|done].
  - by destruct rpc_up.
Qed.

Lemma example_contents_ok : mem_ok (mkMem example_contents [] (Some (example_ptr 4)) Healthy).
Proof.
  unfold mem_ok, example_contents. simpl. apply map_Forall_insert_2; [done|]. by apply map_Forall_singleton.
Qed.

Lemma example_start_ok : runner_ok "QmMusic" (example_node None) 5 (example_start [factory] band_programs 4).
Proof.
  apply runner_ok_new; [apply example_contents_ok| |done].
  split; [|by repeat constructor..]. constructor; [apply band_host_good|constructor].
Qed.

Lemma example_env_ok : env_ok example_env.
Proof. done. Qed.

(** The handler of the pool, run on its own *)
Definition pool_instance : InstanceCtx sum_hash lfu string string unit :=
  mkInstance (bs_new cache_new) None 0 false false false.

Definition pool_exports : HostExportsData string := mkExports "QmMusic" "ethereum/mainnet" ["pool"].

Definition pool_run :=
  invoke_handler (fun t => t) (fun m => map_to_list m) example_store 5 CONST_MAX_GAS_PER_HANDLER None
    (fun _ => "wasm trap") (fun _ => "error") None pool_exports (example_ptr 5) "handlePool"
    (Some (band_programs "pool")) pool_instance.

Lemma pool_run_ok : match pool_run with (Ok _, _) => true | _ => false end = true.
Proof. vm_compute. reflexivity. Qed.

Lemma handler_is_transaction_witness :
  exists s gas b' created errors, pool_run.1 = Ok (s, gas) /\
    handler_outcome (fun t => t) example_store 5 CONST_MAX_GAS_PER_HANDLER None (fun _ => "wasm trap") (fun _ => "error")
      pool_exports (example_ptr 5) "handlePool" (band_programs "pool") (fun k => example_contents !! k) 0
      (HandlerDone b' created errors) /\
    block_effect example_contents "QmMusic" (ic_state pool_instance) s b' created errors.
Proof.
  pose proof pool_run_ok as Hok. destruct pool_run as [x poi] eqn:Hrun.
  assert (Hclear : flags_clear pool_instance) by (split; reflexivity).
  pose proof (handler_is_transaction (fun t => t) (fun m => map_to_list m) example_store 5 CONST_MAX_GAS_PER_HANDLER None
    (fun _ => "wasm trap") (fun _ => "error") None example_contents pool_exports (example_ptr 5) "handlePool"
    (band_programs "pool") (fun k => example_contents !! k) pool_instance x poi map_to_list_law example_store_reads
    (or_intror (fun trap => eq_refl)) (proj1 (band_program_safe _ _)) (fun p Hp => ltac:(discriminate Hp)) Hclear
    (bs_new_inv "QmMusic" _ _ (cache_new_ok (C:=lfu)) (ec_new_coherent _)) Hrun) as Heff.
  destruct x as [[s gas]|e|]; [|discriminate Hok|discriminate Hok].
  destruct Heff as (b' & created & errors & Hout & Heff & _). exists s, gas, b', created, errors.
  exact (conj eq_refl (conj Hout Heff)).
Defined.

Definition example_block :=
  process_block (example_node None) (example_chain band_programs true) (example_inputs false) 11 false
    (example_ptr 5) ["factory"] None (example_start [factory] band_programs 4).

Lemma example_block_restarts :
  match example_block with Some (Ok Restart, r) => bool_decide (ms_data_sources (rn_store r) = ["pool"]) | _ => false end
  = true.
Proof. vm_compute. reflexivity. Qed.



(** The block state in which the factory has asked for a pool *)
Definition pool_asked : BlockState lfu string string unit :=
  mkState (ec_new : EntityCache lfu string) [] [mkInfo "pool" [] None 5%Z] [] false.

Lemma pool_asked_inv : block_inv example_contents "QmMusic" (mkTxn (fun k => example_contents !! k) None) pool_asked.
Proof.
  destruct (bs_new_inv (StoredDs:=string) (Template:=string) (Ctx:=unit) "QmMusic" example_contents _
    (cache_new_ok (C:=lfu)) (ec_new_coherent _)) as [Hr Hk _ _].
  by split.
Qed.


Lemma revert_keeps_stale_hosts_witness :
  let stale := mkDs "pool of block 3" "pool" (Some 3%Z) in
  exists r', handle_revert (example_ptr 1) None (example_start [factory; stale] band_programs 5) = Some (Ok Continue, r') /\
    example_host band_programs stale ∈ rn_hosts r'.
Proof.
  intros stale.
  destruct (revert_keeps_stale_hosts (example_node None) (example_chain band_programs true) (example_ptr 1) None
    (example_ptr 5) (mkMem ∅ [] (Some (example_ptr 1)) Healthy) (example_start [factory; stale] band_programs 5))
    as (r' & Hr' & _ & _ & Hin & _).
  - repeat constructor.
  - reflexivity.
  - reflexivity.
  - reflexivity.
  - exists r'. split; [exact Hr'|]. apply Hin. split; [right; left|reflexivity].
Defined.
