(* ===== verification/Float64.v ===== *)
(** * Double precision numbers

    The type [f64] of the code, with the operations that it uses, on the
    specification of binary floating-point arithmetic of the Standard Library; and
    the bounds of a number that is clamped between one and an integer. *)

From Stdlib Require Import SpecFloat.
From stdpp Require Import base numbers.
From S2P Require Import Prelude.

Definition f64 := spec_float.

Definition f64_prec : Z := 53.
Definition f64_emax : Z := 1024.

(** [x as f64] for an integer *)
Definition f64_of_int (z : Z) : f64 := binary_normalize f64_prec f64_emax z 0 false.

Definition f64_div : f64 -> f64 -> f64 := SFdiv f64_prec f64_emax.

(** [f64::max] and [f64::min] return the other argument when one is not a number. *)
Definition f64_max (x y : f64) : f64 :=
  match SFcompare x y with
  | Some Lt => y
  | Some _ => x
  | None => if x is S754_nan then y else x
  end.

Definition f64_min (x y : f64) : f64 :=
  match SFcompare x y with
  | Some Gt => y
  | Some _ => x
  | None => if x is S754_nan then y else x
  end.

Definition f64_eqb : f64 -> f64 -> bool := SFeqb.

(** [x as i32] rounds towards zero and saturates. *)
Definition f64_as_i32 (x : f64) : Z :=
  match x with
  | S754_nan | S754_zero _ => 0
  | S754_infinity s => if s then i32_min else i32_max
  | S754_finite s m e =>
      let t := Z.shiftl (Z.pos m) e in
      Z.max i32_min (Z.min i32_max (if s then - t else t))
  end%Z.

(** ** Canonical numbers *)

Local Open Scope Z_scope.

(** The mantissa has all its bits, except for subnormal numbers. *)
Definition f64_canonical (x : f64) : Prop :=
  match x with
  | S754_finite _ m e => Z.pos m < 2 ^ 53 /\ -1074 <= e /\ (-1074 < e -> 2 ^ 52 <= Z.pos m)
  | _ => True
  end.

Lemma digits2_log2 p : Z.pos (digits2_pos p) = Z.log2 (Z.pos p) + 1.
Proof.
  induction p as [p IH|p IH|]; [| |done]; cbn [digits2_pos]; rewrite Pos2Z.inj_succ, IH.
  - rewrite (Pos2Z.inj_xI p), Z.log2_succ_double; lia.
  - rewrite (Pos2Z.inj_xO p), Z.log2_double; lia.
Qed.

Lemma fexp_max e : fexp f64_prec f64_emax e = Z.max (e - 53) (-1074).
Proof. done. Qed.

Lemma shr_1_div r : 0 <= shr_m r -> shr_m (shr_1 r) = shr_m r / 2.
Proof.
  destruct r as [[|[p|p|]|p] b s]; simpl; intros H; try done; try lia.
  - rewrite (Pos2Z.inj_xI p). apply (Z.div_unique_pos _ 2 (Z.pos p) 1); lia.
  - rewrite (Pos2Z.inj_xO p), Z.mul_comm, Z.div_mul; lia.
Qed.

Lemma iter_shr_div p r : 0 <= shr_m r -> shr_m (SpecFloat.iter_pos shr_1 p r) = shr_m r / 2 ^ Z.pos p.
Proof.
  assert (Hpos : forall a b, 0 <= a -> 0 <= a / 2 ^ Z.pos b) by (intros; apply Z.div_pos; lia).
  revert r. induction p as [p IH|p IH|]; intros r H; cbn [SpecFloat.iter_pos].
  - assert (Hs : shr_m (shr_1 r) = shr_m r / 2) by by apply shr_1_div.
    assert (0 <= shr_m r / 2) by (apply Z.div_pos; lia).
    rewrite IH by (rewrite IH, Hs by lia; auto). rewrite IH, Hs by lia.
    rewrite !Z.div_div by lia. f_equal. rewrite (Pos2Z.inj_xI p), Z.pow_add_r, Z.pow_twice_r; lia.
  - rewrite IH by (rewrite IH by done; auto). rewrite IH by done.
    rewrite !Z.div_div by lia. f_equal. rewrite (Pos2Z.inj_xO p), Z.pow_twice_r; lia.
  - rewrite shr_1_div by done. done.
Qed.

Lemma shr_fexp_spec m e l r e' :
  0 <= m -> e <= fexp f64_prec f64_emax (Zdigits2 m + e) ->
  shr_fexp f64_prec f64_emax m e l = (r, e') ->
  e' = fexp f64_prec f64_emax (Zdigits2 m + e) /\ shr_m r = m / 2 ^ (e' - e).
Proof.
  intros Hm He. unfold shr_fexp, shr. set (f := fexp _ _ _) in *.
  assert (Hl : shr_m (shr_record_of_loc m l) = m) by by destruct l as [|[]].
  destruct (f - e) as [|p|p] eqn:Hp; intros [= <- <-]; [| |lia].
  - split; [lia|]. by rewrite Hl, Z.sub_diag, Z.div_1_r.
  - split; [lia|]. rewrite iter_shr_div, Hl by lia. do 2 f_equal. lia.
Qed.

Lemma Zdigits2_pos m : 0 < m -> Zdigits2 m = Z.log2 m + 1.
Proof. destruct m as [|p|p]; [lia| |lia]. intros _. apply digits2_log2. Qed.

Lemma round_nearest_even_bounds m l : m <= round_nearest_even m l <= m + 1.
Proof. destruct l as [|[]]; simpl; try lia. destruct (Z.even m); lia. Qed.

(** The quotient by a power of two has the digits that are left. *)
Lemma div_pow2_bounds m k d :
  0 < m -> 0 <= k -> Z.log2 m + 1 - k <= d -> 0 <= d -> 0 <= m / 2 ^ k < 2 ^ d.
Proof.
  intros Hm Hk Hd Hd0. split; [apply Z.div_pos; lia|]. apply Z.div_lt_upper_bound; [lia|].
  rewrite <-Z.pow_add_r by lia. pose proof (Z.log2_spec m Hm) as [_ Hlt].
  eapply Z.lt_le_trans; [done|]. apply Z.pow_le_mono_r; lia.
Qed.

Lemma div_pow2_lower m k d :
  0 < m -> 0 <= k -> 0 <= d -> d + k <= Z.log2 m -> 2 ^ d <= m / 2 ^ k.
Proof.
  intros Hm Hk Hd H. apply Z.div_le_lower_bound; [lia|]. rewrite Z.mul_comm, <-Z.pow_add_r by lia.
  pose proof (Z.log2_spec m Hm) as [Hle _]. etrans; [|done]. apply Z.pow_le_mono_r; lia.
Qed.

(** The first shift leaves a mantissa of at most 53 bits. *)
Lemma shr_fexp_bounds m e l r e' :
  0 <= m -> e <= fexp f64_prec f64_emax (Zdigits2 m + e) ->
  shr_fexp f64_prec f64_emax m e l = (r, e') ->
  -1074 <= e' /\ 0 <= shr_m r < 2 ^ 53 /\ (-1074 < e' -> 2 ^ 52 <= shr_m r).
Proof.
  intros Hm He H. apply shr_fexp_spec in H as [He' ->]; [|lia|done]. rewrite fexp_max in *.
  destruct (decide (m = 0)) as [->|Hz]; [simpl in *; rewrite Z.div_0_l by (apply Z.pow_nonzero; lia); lia|].
  rewrite Zdigits2_pos in * by lia. split_and!; [lia| | |].
  - apply Z.div_pos; [lia|]. apply Z.pow_pos_nonneg; lia.
  - apply div_pow2_bounds; lia.
  - intros. apply div_pow2_lower; lia.
Qed.

(** What rounding has before it checks for overflow is canonical. *)
Lemma round_canonical m e l r1 e1 r2 e2 :
  0 <= m -> e <= fexp f64_prec f64_emax (Zdigits2 m + e) ->
  shr_fexp f64_prec f64_emax m e l = (r1, e1) ->
  shr_fexp f64_prec f64_emax (round_nearest_even (shr_m r1) (loc_of_shr_record r1)) e1 loc_Exact = (r2, e2) ->
  0 <= shr_m r2 < 2 ^ 53 /\ -1074 <= e2 /\ (shr_m r2 = 0 \/ (-1074 < e2 -> 2 ^ 52 <= shr_m r2)).
Proof.
  intros Hm He H1 H2. apply shr_fexp_bounds in H1 as (He1 & Hup & Hlow); [|done..].
  pose proof (round_nearest_even_bounds (shr_m r1) (loc_of_shr_record r1)) as Hround.
  set (m1 := round_nearest_even _ _) in *. destruct (decide (m1 = 0)) as [Hz|Hz].
  { rewrite Hz in H2. unfold shr_fexp, shr in H2. rewrite fexp_max in H2. simpl in H2.
    destruct (_ - e1) eqn:Hk in H2; [|lia|]; injection H2 as <- <-; simpl; lia. }
  assert (Hlog : Z.log2 m1 <= 53) by (change 53 with (Z.log2 (2 ^ 53)); apply Z.log2_le_mono; lia).
  assert (Hlog52 : -1074 < e1 -> 52 <= Z.log2 m1).
  { intros H. change 52 with (Z.log2 (2 ^ 52)). apply Z.log2_le_mono. specialize (Hlow H). lia. }
  apply shr_fexp_spec in H2 as [He2 ->]; rewrite ?fexp_max, ?Zdigits2_pos in * by lia; [|lia..].
  destruct (decide (m1 = 2 ^ 53)) as [Heq|Hne].
  { assert (Hl : Z.log2 m1 = 53) by by rewrite Heq.
    assert (e2 - e1 = 1) as -> by lia. rewrite Heq. change (2 ^ 53 / 2 ^ 1) with (2 ^ 52). lia. }
  assert (Z.log2 m1 < 53) by (apply Z.log2_lt_pow2; lia).
  assert (e2 - e1 = 0) as -> by lia. rewrite Z.pow_0_r, Z.div_1_r. lia.
Qed.

Lemma binary_round_aux_canonical s m e l :
  0 <= m -> e <= fexp f64_prec f64_emax (Zdigits2 m + e) ->
  f64_canonical (binary_round_aux f64_prec f64_emax s m e l).
Proof.
  intros Hm He. unfold binary_round_aux. destruct (shr_fexp _ _ m e l) as [r1 e1] eqn:H1.
  destruct (shr_fexp _ _ (round_nearest_even _ _) e1 _) as [r2 e2] eqn:H2.
  destruct (round_canonical _ _ _ _ _ _ _ Hm He H1 H2) as (Hb & He2 & Hlow).
  destruct (shr_m r2) as [|p|p]; [done| |done]. destruct (_ <=? _); [|done].
  split_and!; [lia|done|]. destruct Hlow as [?|Hlow]; [done|apply Hlow].
Qed.

Lemma log2_quotient m1 m2 s :
  0 < m1 -> 0 < m2 -> 0 <= s -> 0 < m1 * 2 ^ s / m2 ->
  Z.log2 m1 + s - Z.log2 m2 - 1 <= Z.log2 (m1 * 2 ^ s / m2).
Proof.
  intros H1 H2 Hs Hq. pose proof (Z.log2_nonneg m1). pose proof (Z.log2_nonneg m2).
  destruct (Z.le_gt_cases (Z.log2 m1 + s) (Z.log2 m2)).
  { pose proof (Z.log2_nonneg (m1 * 2 ^ s / m2)). lia. }
  apply Z.log2_le_pow2; [done|]. apply Z.div_le_lower_bound; [done|].
  pose proof (Z.log2_spec m1 H1) as [Hm1 _]. pose proof (Z.log2_spec m2 H2) as [_ Hm2].
  trans (2 ^ (Z.succ (Z.log2 m2)) * 2 ^ (Z.log2 m1 + s - Z.log2 m2 - 1)).
  { apply Z.mul_le_mono_nonneg_r; [|lia]. apply Z.pow_nonneg. lia. }
  rewrite <-Z.pow_add_r by lia. trans (2 ^ Z.log2 m1 * 2 ^ s); [|apply Z.mul_le_mono_nonneg_r; lia].
  rewrite <-Z.pow_add_r by lia. apply Z.pow_le_mono_r; lia.
Qed.

Lemma quotient_zero m1 m2 s :
  0 < m1 -> 0 < m2 -> 0 <= s -> m1 * 2 ^ s / m2 = 0 -> Z.log2 m1 + s <= Z.log2 m2.
Proof.
  intros H1 H2 Hs Hq. apply Z.div_small_iff in Hq as [Hq|Hq]; [|lia..].
  rewrite Z.add_comm, <-Z.log2_mul_pow2 by lia. apply Z.log2_le_mono. lia.
Qed.

(** The quotient of numbers is canonical, as the division scales the dividend to
    have enough digits. *)
Lemma f64_div_canonical x y : f64_canonical (f64_div x y).
Proof.
  destruct x as [sx|sx| |sx mx ex], y as [sy|sy| |sy my ey]; try exact I.
  unfold f64_div, SFdiv, SFdiv_core_binary. set (e' := Z.min _ _). set (s := ex - ey - e').
  assert (He' : e' = Z.min (Z.max (Z.log2 (Z.pos mx) + ex - (Z.log2 (Z.pos my) + ey) - 53) (-1074)) (ex - ey)).
  { unfold e'. rewrite fexp_max, !Zdigits2_pos by done. lia. }
  clearbody e'. set (m' := match s with Z0 => _ | Z.pos _ => _ | Z.neg _ => _ end).
  assert (Hm' : m' = Z.pos mx * 2 ^ s).
  { assert (Hs : 0 <= s) by lia. unfold m'. clear -Hs.
    destruct s; [by rewrite Z.mul_1_r|by rewrite Z.shiftl_mul_pow2|lia]. }
  clearbody m'. assert (Hq : m' / Z.pos my = (Z.div_eucl m' (Z.pos my)).1) by (unfold Z.div; by destruct (Z.div_eucl _ _)).
  destruct (Z.div_eucl m' (Z.pos my)) as [q r]. simpl in Hq. subst q m'.
  apply binary_round_aux_canonical; [apply Z.div_pos; [|done]; apply Z.mul_nonneg_nonneg; [done|apply Z.pow_nonneg; lia]|].
  rewrite fexp_max. destruct (decide (Z.pos mx * 2 ^ s / Z.pos my = 0)) as [Hz|Hz].
  - rewrite Hz. apply quotient_zero in Hz; simpl; lia.
  - assert (0 <= Z.pos mx * 2 ^ s / Z.pos my).
    { apply Z.div_pos; [|done]. apply Z.mul_nonneg_nonneg; [done|apply Z.pow_nonneg; lia]. }
    rewrite Zdigits2_pos by lia. pose proof (log2_quotient (Z.pos mx) (Z.pos my) s). lia.
Qed.

(** ** Clamping *)

Definition f64_one : f64 := f64_of_int 1.

(** Integers of 31 bits are exact. *)
Lemma f64_of_int_exact u :
  1 <= u < 2 ^ 31 ->
  exists m, f64_of_int u = S754_finite false m (Z.log2 u - 52) /\ Z.pos m = u * 2 ^ (52 - Z.log2 u).
Proof.
  intros Hu. assert (Hl : 0 <= Z.log2 u < 31) by (split; [apply Z.log2_nonneg|apply Z.log2_lt_pow2; lia]).
  destruct u as [|p|p]; [lia| |lia]. unfold f64_of_int, binary_normalize, binary_round, shl_align.
  rewrite fexp_max, digits2_log2. set (l := Z.log2 (Z.pos p)) in *.
  replace (Z.max (l + 1 + 0 - 53) (-1074)) with (l - 52) by lia.
  destruct (l - 52 - 0) as [|d|d] eqn:Hd; [lia|lia|].
  assert (Hiter : Z.pos (Pos.iter xO p d) = Z.pos p * 2 ^ Z.pos d).
  { clear. revert d. apply Pos.peano_ind; [simpl; lia|]. intros d IH.
    rewrite Pos.iter_succ, Pos2Z.inj_succ, Z.pow_succ_r by lia. lia. }
  set (m := Pos.iter xO p d) in *. assert (Hlog : Z.log2 (Z.pos m) = 52).
  { rewrite Hiter, Z.log2_mul_pow2 by lia. fold l. lia. }
  exists m. split; [|rewrite Hiter; f_equal; f_equal; lia].
  assert (Hshr : shr_fexp f64_prec f64_emax (Z.pos m) (l - 52) loc_Exact = (Build_shr_record (Z.pos m) false false, l - 52)).
  { unfold shr_fexp. rewrite fexp_max, Zdigits2_pos, Hlog by done.
    replace (Z.max (52 + 1 + (l - 52) - 53) (-1074) - (l - 52)) with 0 by lia. done. }
  unfold binary_round_aux. rewrite Hshr. cbn [shr_m loc_of_shr_record round_nearest_even]. rewrite Hshr. cbn [shr_m].
  change (f64_emax - f64_prec) with 971. by destruct (Z.leb_spec (l - 52) 971); [|lia].
Qed.

(** Canonical numbers between one and [u] as integers *)
Lemma trunc_bounds m e mu u :
  Z.pos m < 2 ^ 53 -> 2 ^ 52 <= Z.pos m -> -52 <= e -> 1 <= u < 2 ^ 31 ->
  Z.pos mu = u * 2 ^ (52 - Z.log2 u) -> e < Z.log2 u - 52 \/ (e = Z.log2 u - 52 /\ Z.pos m <= Z.pos mu) ->
  1 <= Z.shiftl (Z.pos m) e <= u.
Proof.
  intros Hm1 Hm2 He Hu Hmu Hle.
  assert (Hl : 0 <= Z.log2 u < 31) by (split; [apply Z.log2_nonneg|apply Z.log2_lt_pow2; lia]).
  rewrite <-(Z.opp_involutive e), Z.shiftl_opp_r, Z.shiftr_div_pow2 by lia. split.
  - apply Z.div_le_lower_bound; [apply Z.pow_pos_nonneg; lia|]. rewrite Z.mul_1_r. etrans; [|done].
    apply Z.pow_le_mono_r; lia.
  - destruct Hle as [Hlt|[-> Hle]].
    + trans (2 ^ Z.log2 u); [|apply Z.log2_spec; lia]. apply Z.lt_le_incl, Z.div_lt_upper_bound; [apply Z.pow_pos_nonneg; lia|].
      rewrite <-Z.pow_add_r by lia. eapply Z.lt_le_trans; [done|]. apply Z.pow_le_mono_r; lia.
    + replace (- (Z.log2 u - 52)) with (52 - Z.log2 u) by lia.
      etrans; [apply Z.div_le_mono; [apply Z.pow_pos_nonneg; lia|done]|]. rewrite Hmu, Z.div_mul; [lia|].
      apply Z.pow_nonzero; lia.
Qed.

Lemma f64_as_i32_of_int u : 1 <= u < 2 ^ 31 -> f64_as_i32 (f64_of_int u) = u.
Proof.
  intros Hu. destruct (f64_of_int_exact u Hu) as (m & -> & Hm).
  assert (Hl : 0 <= Z.log2 u < 31) by (split; [apply Z.log2_nonneg|apply Z.log2_lt_pow2; lia]).
  simpl. rewrite <-(Z.opp_involutive (_ - 52)), Z.shiftl_opp_r, Z.shiftr_div_pow2 by lia.
  replace (- (Z.log2 u - 52)) with (52 - Z.log2 u) by lia. rewrite Hm, Z.div_mul by (apply Z.pow_nonzero; lia).
  unfold i32_min, i32_max. lia.
Qed.

(** A number that is clamped between one and [u] lies between them as an integer. *)
Lemma f64_clamp_bounds x u :
  f64_canonical x -> 1 <= u < 2 ^ 31 ->
  1 <= f64_as_i32 (f64_min (f64_max x f64_one) (f64_of_int u)) <= u.
Proof.
  intros Hx Hu. pose proof (f64_as_i32_of_int u Hu) as Hup. revert Hup.
  destruct (f64_of_int_exact u Hu) as (mu & -> & Hmu). intros Hup.
  assert (Hl : 0 <= Z.log2 u < 31) by (split; [apply Z.log2_nonneg|apply Z.log2_lt_pow2; lia]).
  assert (Hfin : forall m e, Z.pos m < 2 ^ 53 -> 2 ^ 52 <= Z.pos m -> -52 <= e ->
    1 <= f64_as_i32 (f64_min (S754_finite false m e) (S754_finite false mu (Z.log2 u - 52))) <= u).
  { intros m e Hm1 Hm2 He. unfold f64_min. cbn [SFcompare]. change (Pos.compare_cont Eq m mu) with (Pos.compare m mu).
    destruct (Z.compare_spec e (Z.log2 u - 52)) as [Heq|Hlt|Hgt]; [destruct (Pos.compare_spec m mu)|..]; rewrite ?Hup; try lia;
      (pose proof (trunc_bounds m e mu u Hm1 Hm2 He Hu Hmu); cbn [f64_as_i32]; unfold i32_min, i32_max; lia). }
  assert (Hone : exists m1, f64_one = S754_finite false m1 (-52) /\ Z.pos m1 = 2 ^ 52) by (eexists; split; [by vm_compute|done]).
  destruct Hone as (m1 & -> & Hm1). unfold f64_max. destruct x as [s|[]| |[] m e]; cbn [SFcompare].
  - apply Hfin; lia.
  - apply Hfin; lia.
  - unfold f64_min. cbn [SFcompare]. rewrite Hup. lia.
  - apply Hfin; lia.
  - apply Hfin; lia.
  - destruct Hx as (Hm & He & Hm2). change (Pos.compare_cont Eq m m1) with (Pos.compare m m1).
    destruct (Z.compare_spec e (-52)) as [->|Hlt|Hgt]; [destruct (Pos.compare_spec m m1)|..]; apply Hfin; lia.
Qed.
