(* ===== verification/PollingStream.v ===== *)
(** * The polling block stream

    [PollingBlockStream] of [graph/src/blockchain/polling_block_stream.rs] with the
    events and blocks of [block_stream.rs]: a state machine that compares the block
    of a subgraph with the head of the chain, and yields the blocks that the
    subgraph has to process or the block to which it has to revert.

    Blocks, triggers and filters belong to the chain, and the calls to the chain
    store and to the triggers adapter are answered by it: they are the operations of
    a [TriggersAdapter], whose first argument is the world at the moment of the
    call, since the chain can change between any two calls. *)

From Stdlib Require Import SpecFloat.
From stdpp Require Import base numbers list.
From S2P Require Import Prelude GraphqlAst Scalars RuntimeValue Values Names StoreTypes Float64.

Record BlockWithTriggers (Block Trigger : Type) := mkBwt {
  bwt_block : Block;
  trigger_data : list Trigger
}.
Arguments mkBwt {Block Trigger}.
Arguments bwt_block {Block Trigger}.
Arguments trigger_data {Block Trigger}.

Definition trigger_count {Block Trigger} (b : BlockWithTriggers Block Trigger) : nat := length (trigger_data b).

Definition FirehoseCursor := option string.

Inductive BlockStreamEvent (Block Trigger : Type) :=
| EvRevert (ptr : BlockPtr) (cursor : FirehoseCursor)
| EvProcessBlock (block : BlockWithTriggers Block Trigger) (cursor : FirehoseCursor).
Arguments EvRevert {Block Trigger}.
Arguments EvProcessBlock {Block Trigger}.

(** The head of the chain store, the triggers adapter and the pointers of a block *)
Class TriggersAdapter (World Block Trigger Filter CErr : Type) := {
  block_ptr_of : Block -> BlockPtr;
  block_parent_ptr : Block -> option BlockPtr;
  chain_head_ptr : World -> result CErr (option BlockPtr);
  ancestor_block : World -> BlockPtr -> BlockNumber -> result CErr (option Block);
  scan_triggers : World -> BlockNumber -> BlockNumber -> Filter ->
    result CErr (list (BlockWithTriggers Block Trigger));
  triggers_in_block : World -> Block -> Filter -> result CErr (BlockWithTriggers Block Trigger);
  is_on_main_chain : World -> BlockPtr -> result CErr bool;
  adapter_parent_ptr : World -> BlockPtr -> result CErr (option BlockPtr)
}.

Inductive Poll (A : Type) := PollReady (a : A) | PollPending.
Arguments PollReady {A}.
Arguments PollPending {A}.

Section PollingStream.
Context {World Block Trigger Filter CErr : Type} `{TA : TriggersAdapter World Block Trigger Filter CErr}.
Local Abbreviation Bwt := (BlockWithTriggers Block Trigger).
Local Abbreviation Event := (BlockStreamEvent Block Trigger).

Definition block_parent_hash (b : Block) : option Bytes := bp_hash <$> block_parent_ptr b.

Inductive ReconciliationStep :=
| StepRevert (to : BlockPtr)
| ProcessDescendantBlocks (blocks : list Bwt) (range_size : BlockNumber)
| StepRetry
| StepDone.

Inductive NextBlocks :=
| NextBlocksBlocks (blocks : list Bwt) (range_size : BlockNumber)
| NextBlocksRevert (to : BlockPtr)
| NextBlocksDone.

(** [PollingBlockStreamContext] without what it only hands on *)
Record StreamContext := mkCtx {
  reorg_threshold : BlockNumber;
  ctx_filter : Filter;
  start_blocks : list BlockNumber;
  previous_triggers_per_block : f64;
  previous_block_range_size : BlockNumber;
  max_block_range_size : BlockNumber;
  target_triggers_per_block_range : Z;
  current_block : option BlockPtr
}.

Definition ctx_with_current (c : StreamContext) (p : BlockPtr) : StreamContext :=
  mkCtx (reorg_threshold c) (ctx_filter c) (start_blocks c) (previous_triggers_per_block c)
    (previous_block_range_size c) (max_block_range_size c) (target_triggers_per_block_range c) (Some p).
Definition ctx_with_triggers_per_block (c : StreamContext) (x : f64) : StreamContext :=
  mkCtx (reorg_threshold c) (ctx_filter c) (start_blocks c) x
    (previous_block_range_size c) (max_block_range_size c) (target_triggers_per_block_range c) (current_block c).
Definition ctx_with_range_size (c : StreamContext) (n : BlockNumber) : StreamContext :=
  mkCtx (reorg_threshold c) (ctx_filter c) (start_blocks c) (previous_triggers_per_block c)
    n (max_block_range_size c) (target_triggers_per_block_range c) (current_block c).
Definition ctx_with_max_range_size (c : StreamContext) (n : BlockNumber) : StreamContext :=
  mkCtx (reorg_threshold c) (ctx_filter c) (start_blocks c) (previous_triggers_per_block c)
    (previous_block_range_size c) n (target_triggers_per_block_range c) (current_block c).

Definition STARTING_PREVIOUS_TRIGGERS_PER_BLOCK : f64 := f64_of_int 1000000.

(** A future keeps the context it was made with. *)
Inductive BlockStreamState :=
| BeginReconciliation
| Reconciliation (ctx : StreamContext)
| YieldingBlocks (blocks : list Bwt)
| RetryAfterDelay (secs : Z)
| Idle.

Record PollingBlockStream := mkPolling {
  stream_state : BlockStreamState;
  consecutive_err_count : Z;
  stream_ctx : StreamContext
}.

Definition polling_new (filter : Filter) (start_blocks : list BlockNumber) (reorg_threshold : BlockNumber)
    (max_block_range_size : BlockNumber) (target_triggers_per_block_range : Z) (start_block : option BlockPtr)
    : PollingBlockStream :=
  mkPolling BeginReconciliation 0
    (mkCtx reorg_threshold filter start_blocks STARTING_PREVIOUS_TRIGGERS_PER_BLOCK 1
       max_block_range_size target_triggers_per_block_range start_block).

Definition parent_ptr_of (w : World) (p : BlockPtr) : result CErr BlockPtr :=
  let? parent := adapter_parent_ptr w p in expect parent.

(** The first start block after [from] *)
Definition next_start_block (blocks : list BlockNumber) (from : BlockNumber) : BlockNumber :=
  match List.filter (fun b => (from <? b)%Z) blocks with
  | [] => BLOCK_NUMBER_MAX
  | b :: bs => foldl Z.min b bs
  end.

Definition scan_range_size (c : StreamContext) : BlockNumber :=
  let range_size_upper_limit := Z.min (max_block_range_size c) (wrap_i32 (previous_block_range_size c * 10)) in
  if f64_eqb (previous_triggers_per_block c) (S754_zero false) then range_size_upper_limit
  else f64_as_i32
         (f64_min
            (f64_max (f64_div (f64_of_int (target_triggers_per_block_range c)) (previous_triggers_per_block c))
               f64_one)
            (f64_of_int range_size_upper_limit)).

(** The blocks to scan: from the first block after the subgraph to a block before
    the next start block and before the reorg threshold *)
Definition scan_to (c : StreamContext) (head_number reorg_threshold from : BlockNumber) : BlockNumber :=
  let to_limit := Z.min (head_number - reorg_threshold) (next_start_block (start_blocks c) from - 1) in
  Z.min (wrap_i32 (from + scan_range_size c - 1)) to_limit.

(** The part of [get_next_step] beyond the reorg threshold *)
Definition step_beyond_threshold (ws : nat -> World) (c : StreamContext) (head_number reorg_threshold : BlockNumber)
    : result CErr ReconciliationStep :=
  let? is_on_main_chain :=
    match current_block c with
    | Some ptr => is_on_main_chain (ws 1%nat) ptr
    | None => Ok true
    end in
  if negb is_on_main_chain then
    let? from := expect (current_block c) in
    let? parent := parent_ptr_of (ws 2%nat) from in
    Ok (StepRevert parent)
  else
    let from := match current_block c with Some ptr => (bp_number ptr + 1)%Z | None => 0%Z end in
    let range_size := scan_range_size c in
    let to := scan_to c head_number reorg_threshold from in
    let? blocks := scan_triggers (ws 2%nat) from to (ctx_filter c) in
    Ok (ProcessDescendantBlocks blocks range_size).

(** The part of [get_next_step] within the reorg threshold *)
Definition step_within_threshold (ws : nat -> World) (c : StreamContext) (head_ptr : BlockPtr)
    : result CErr ReconciliationStep :=
  let? subgraph_ptr := expect (current_block c) in
  let offset := (bp_number head_ptr - bp_number subgraph_ptr - 1)%Z in
  let? head_ancestor_opt := ancestor_block (ws 1%nat) head_ptr offset in
  match head_ancestor_opt with
  | None => Ok StepRetry
  | Some head_ancestor =>
      if bool_decide (block_parent_hash head_ancestor = Some (bp_hash subgraph_ptr)) then
        let? block := triggers_in_block (ws 2%nat) head_ancestor (ctx_filter c) in
        Ok (ProcessDescendantBlocks [block] 1)
      else
        let? parent := parent_ptr_of (ws 2%nat) subgraph_ptr in
        Ok (StepRevert parent)
  end.

(** [ws] are the worlds that the calls of the step see, in their order. *)
Definition get_next_step (ws : nat -> World) (c : StreamContext) : result CErr ReconciliationStep :=
  let? head_ptr_opt := chain_head_ptr (ws 0%nat) in
  match head_ptr_opt with
  | None => Ok StepDone
  | Some head_ptr =>
      let reorg_threshold := Z.min (reorg_threshold c) (bp_number head_ptr) in
      match current_block c with
      | Some ptr =>
          if (bp_number head_ptr <=? bp_number ptr)%Z then Ok StepDone
          else if (reorg_threshold <? bp_number head_ptr - bp_number ptr)%Z
          then step_beyond_threshold ws c (bp_number head_ptr) reorg_threshold
          else step_within_threshold ws c head_ptr
      | None => step_beyond_threshold ws c (bp_number head_ptr) reorg_threshold
      end
  end.

(** Steps until there is something to do; a step makes up to three calls. *)
Fixpoint next_blocks (retries : nat) (ws : nat -> World) (c : StreamContext) : option (result CErr NextBlocks) :=
  match get_next_step ws c with
  | Panic => Some Panic
  | Err e => Some (Err e)
  | Ok (ProcessDescendantBlocks blocks range_size) => Some (Ok (NextBlocksBlocks blocks range_size))
  | Ok StepDone => Some (Ok NextBlocksDone)
  | Ok (StepRevert to) => Some (Ok (NextBlocksRevert to))
  | Ok StepRetry =>
      match retries with
      | O => None
      | S retries => next_blocks retries (fun i => ws (3 + i)%nat) c
      end
  end.

(** What is there when the stream is polled: the reconciliation, with the worlds
    that it has seen and the number of its retries, the delay and the updates of the
    head of the chain *)
Record PollEnv := mkPollEnv {
  pe_reconciliation : Poll (nat * (nat -> World));
  pe_delay : Poll unit;
  pe_head_updates : Poll (option unit)
}.

Inductive StreamItem :=
| ItemEvent (event : Event)
| ItemError (e : CErr)
| ItemHeadUpdatesEnded.

(** How an iteration of the loop of [poll_next] ends *)
Inductive Iteration :=
| IterContinue (s : PollingBlockStream)
| IterBreak (s : PollingBlockStream) (item : Poll StreamItem)
| IterPanic.

(** The reconciliation has found blocks. *)
Definition take_blocks (s : PollingBlockStream) (blocks : list Bwt) (block_range_size : BlockNumber)
    : PollingBlockStream :=
  let ctx := stream_ctx s in
  let ctx := if (consecutive_err_count s =? 1)%Z
             then ctx_with_max_range_size ctx
                    (Z.max (Z.quot (wrap_i32 (max_block_range_size ctx * 9)) 10) 10)
             else ctx in
  let total_triggers := Z.of_nat (list_sum (map trigger_count blocks)) in
  let ctx := ctx_with_triggers_per_block ctx (f64_div (f64_of_int total_triggers) (f64_of_int block_range_size)) in
  let ctx := ctx_with_range_size ctx block_range_size in
  mkPolling (YieldingBlocks blocks) 0 ctx.

(** The reconciliation has failed. *)
Definition take_error (s : PollingBlockStream) : PollingBlockStream :=
  let ctx := ctx_with_triggers_per_block (stream_ctx s) STARTING_PREVIOUS_TRIGGERS_PER_BLOCK in
  let count := wrap_u32 (consecutive_err_count s + 1) in
  mkPolling (RetryAfterDelay (Z.max (wrap_u32 (5 * count)) 120)) count ctx.

(** An iteration of the loop of [poll_next]; [None] when the reconciliation is not
    done after its retries. *)
Definition poll_iteration (env : PollEnv) (s : PollingBlockStream) : option Iteration :=
  let with_state st := mkPolling st (consecutive_err_count s) (stream_ctx s) in
  match stream_state s with
  | BeginReconciliation => Some (IterContinue (with_state (Reconciliation (stream_ctx s))))
  | Reconciliation ctx =>
      match pe_reconciliation env with
      | PollPending => Some (IterBreak s PollPending)
      | PollReady (retries, ws) =>
          match next_blocks retries ws ctx with
          | None => None
          | Some Panic => Some IterPanic
          | Some (Ok (NextBlocksBlocks blocks range_size)) => Some (IterContinue (take_blocks s blocks range_size))
          | Some (Ok NextBlocksDone) => Some (IterContinue (mkPolling Idle 0 (stream_ctx s)))
          | Some (Ok (NextBlocksRevert parent_ptr)) =>
              Some (IterBreak
                (mkPolling BeginReconciliation (consecutive_err_count s) (ctx_with_current (stream_ctx s) parent_ptr))
                (PollReady (ItemEvent (EvRevert parent_ptr None))))
          | Some (Err e) => Some (IterBreak (take_error s) (PollReady (ItemError e)))
          end
      end
  | YieldingBlocks [] => Some (IterContinue (with_state BeginReconciliation))
  | YieldingBlocks (next_block :: blocks) =>
      Some (IterBreak
        (mkPolling (YieldingBlocks blocks) (consecutive_err_count s)
           (ctx_with_current (stream_ctx s) (block_ptr_of (bwt_block next_block))))
        (PollReady (ItemEvent (EvProcessBlock next_block None))))
  | RetryAfterDelay _ =>
      match pe_delay env with
      | PollReady _ => Some (IterContinue (with_state BeginReconciliation))
      | PollPending => Some (IterBreak s PollPending)
      end
  | Idle =>
      match pe_head_updates env with
      | PollReady (Some _) => Some (IterContinue (with_state BeginReconciliation))
      | PollReady None => Some (IterBreak s (PollReady ItemHeadUpdatesEnded))
      | PollPending => Some (IterBreak s PollPending)
      end
  end.

(** The loop; [None] when the given environments do not lead to its end. *)
Fixpoint poll_next (envs : list PollEnv) (s : PollingBlockStream) : option (result CErr (PollingBlockStream * Poll StreamItem)) :=
  match envs with
  | [] => None
  | env :: envs =>
      match poll_iteration env s with
      | None => None
      | Some IterPanic => Some Panic
      | Some (IterBreak s item) => Some (Ok (s, item))
      | Some (IterContinue s) => poll_next envs s
      end
  end.

End PollingStream.
Arguments StreamContext : clear implicits.
Arguments PollingBlockStream : clear implicits.
Arguments StreamItem : clear implicits.
Arguments PollEnv : clear implicits.
