(* ===== verification/PollingProps.v ===== *)
(** * The polling block stream follows the chain

    Blocks form a tree, of which a part is permanent.  The stream never loses a
    block: whatever the chain does between any two calls, the blocks that a consumer
    of the stream has processed and not reverted are those on the way from the first
    block to the current one, in their order and with all their triggers, except for
    blocks without triggers.  The ranges that it scans are not empty and stay in
    their bounds, and it catches up with a chain that has come to rest. *)

From Stdlib Require Import SpecFloat.
From stdpp Require Import base numbers list.
From S2P Require Import Prelude GraphqlAst Scalars RuntimeValue Values Names StoreTypes Float64 PollingStream.

(** ** The chain *)

Fixpoint ancestor (parent : BlockPtr -> option BlockPtr) (k : nat) (p : BlockPtr) : option BlockPtr :=
  match k with
  | O => Some p
  | S k => parent p ≫= ancestor parent k
  end.

(** What is known of a chain: [parent] of a block, the blocks that exist, the first
    block, the triggers of a block that match a filter, the block that has been
    assigned a number for good, and the order of time. *)
Record ChainView (World Trigger Filter : Type) := mkView {
  cv_parent : BlockPtr -> option BlockPtr;
  cv_known : BlockPtr -> Prop;
  cv_genesis : BlockPtr;
  cv_matching : Filter -> BlockPtr -> list Trigger;
  cv_permanent : BlockNumber -> option BlockPtr;
  cv_later : World -> World -> Prop
}.
Arguments cv_parent {World Trigger Filter}.
Arguments cv_known {World Trigger Filter}.
Arguments cv_genesis {World Trigger Filter}.
Arguments cv_matching {World Trigger Filter}.
Arguments cv_permanent {World Trigger Filter}.
Arguments cv_later {World Trigger Filter}.

(** Blocks with a number up to this one can not be reorganised when the head is [h]. *)
Definition permanent_limit (threshold : BlockNumber) (h : BlockPtr) : BlockNumber :=
  (bp_number h - Z.min threshold (bp_number h))%Z.

Section Laws.
Context {World Block Trigger Filter CErr : Type} `{TA : TriggersAdapter World Block Trigger Filter CErr}.
Local Abbreviation Bwt := (BlockWithTriggers Block Trigger).

Definition bwt_ptr (b : Bwt) : BlockPtr := block_ptr_of (bwt_block b).
Definition bwt_number (b : Bwt) : BlockNumber := bp_number (bwt_ptr b).

(** The blocks of [scan_triggers]: in increasing order, on the permanent chain, with
    all their triggers, and no block with triggers is left out. *)
Record scan_result (v : ChainView World Trigger Filter) (f : Filter) (from to : BlockNumber) (bs : list Bwt) : Prop := {
  sr_some : bs <> [];
  sr_order : StronglySorted (fun b b' => (bwt_number b < bwt_number b')%Z) bs;
  sr_range b : b ∈ bs -> (from <= bwt_number b <= to)%Z;
  sr_permanent b : b ∈ bs -> cv_permanent v (bwt_number b) = Some (bwt_ptr b);
  sr_triggers b : b ∈ bs -> trigger_data b = cv_matching v f (bwt_ptr b);
  sr_complete n p : (from <= n <= to)%Z -> cv_permanent v n = Some p -> cv_matching v f p <> [] ->
    exists b, b ∈ bs /\ bwt_ptr b = p
}.

(** The documented behaviour of the adapter on such a chain, for a reorg threshold
    after which blocks are permanent *)
Record chain_laws (v : ChainView World Trigger Filter) (threshold : BlockNumber) : Prop := {
  cl_threshold : (0 <= threshold)%Z;
  cl_known_number p : cv_known v p -> (0 <= bp_number p)%Z;
  cl_known_parent p : cv_known v p ->
    match cv_parent v p with
    | Some q => cv_known v q /\ bp_number p = (bp_number q + 1)%Z
    | None => p = cv_genesis v
    end;
  cl_first p : cv_known v p -> bp_number p = 0%Z -> p = cv_genesis v;
  cl_permanent n p : cv_permanent v n = Some p -> cv_known v p /\ bp_number p = n;
  cl_permanent_parent n p : (0 <= n)%Z -> cv_permanent v (n + 1) = Some p -> cv_parent v p = cv_permanent v n;
  cl_head w : chain_head_ptr w <> Panic /\ forall h, chain_head_ptr w = Ok (Some h) -> cv_known v h;
  cl_assigned w h n : chain_head_ptr w = Ok (Some h) -> (0 <= n <= permanent_limit threshold h)%Z ->
    is_Some (cv_permanent v n);
  cl_main w w' h p : chain_head_ptr w = Ok (Some h) -> cv_later v w w' ->
    (bp_number p <= permanent_limit threshold h)%Z -> cv_known v p ->
    is_on_main_chain w' p <> Panic /\
    forall b, is_on_main_chain w' p = Ok b -> (b = true <-> cv_permanent v (bp_number p) = Some p);
  cl_scan w w' h from to f : chain_head_ptr w = Ok (Some h) -> cv_later v w w' ->
    (0 <= from <= to)%Z -> (to <= permanent_limit threshold h)%Z ->
    scan_triggers w' from to f <> Panic /\
    forall bs, scan_triggers w' from to f = Ok bs -> scan_result v f from to bs;
  cl_ancestor w h k : cv_known v h -> (0 <= k <= bp_number h)%Z ->
    ancestor_block w h k <> Panic /\
    forall b, ancestor_block w h k = Ok (Some b) ->
      ancestor (cv_parent v) (Z.to_nat k) h = Some (block_ptr_of b) /\
      block_parent_ptr b = cv_parent v (block_ptr_of b);
  cl_triggers w b f : triggers_in_block w b f <> Panic /\
    forall b', triggers_in_block w b f = Ok b' ->
      bwt_ptr b' = block_ptr_of b /\ trigger_data b' = cv_matching v f (block_ptr_of b);
  cl_parent w p : cv_known v p -> adapter_parent_ptr w p <> Panic /\
    forall q, adapter_parent_ptr w p = Ok q -> q = cv_parent v p
}.

Context (v : ChainView World Trigger Filter) (threshold : BlockNumber) (L : chain_laws v threshold).

Lemma ancestor_known k p q :
  cv_known v p -> ancestor (cv_parent v) k p = Some q -> cv_known v q /\ (bp_number q = bp_number p - Z.of_nat k)%Z.
Proof.
  revert p. induction k as [|k IH]; intros p Hp H; simpl in H.
  - injection H as <-. split; [done|lia].
  - pose proof (cl_known_parent _ _ L p Hp) as Hpar. destruct (cv_parent v p) as [r|]; [|done]. simpl in H.
    destruct Hpar as [Hr Hn]. destruct (IH r Hr H) as [Hq Hnum]. split; [done|lia].
Qed.

(** ** What has been processed *)

Section History.
(** A filter, and the first block that the subgraph is interested in *)
Context (f : Filter) (first : BlockNumber).

Definition skippable (p : BlockPtr) : Prop := (bp_number p < first)%Z \/ cv_matching v f p = [].

(** [blocks], latest first, are the blocks on the way to the block [p], except for
    blocks without triggers and blocks before the first one. *)
Inductive history : option BlockPtr -> list Bwt -> Prop :=
| history_start : history None []
| history_skip p blocks : cv_known v p -> skippable p -> history (cv_parent v p) blocks -> history (Some p) blocks
| history_block b blocks : cv_known v (bwt_ptr b) -> trigger_data b = cv_matching v f (bwt_ptr b) ->
    history (cv_parent v (bwt_ptr b)) blocks -> history (Some (bwt_ptr b)) (b :: blocks).

(** [p] is a descendant of [cur], and the blocks between them can be skipped. *)
Inductive quiet_path (cur : option BlockPtr) : BlockPtr -> Prop :=
| quiet_child p : cv_known v p -> cv_parent v p = cur -> quiet_path cur p
| quiet_step p q : cv_known v p -> cv_parent v p = Some q -> skippable q -> quiet_path cur q -> quiet_path cur p.

(** Blocks that can be processed one after the other after [cur] *)
Fixpoint leads (cur : option BlockPtr) (bs : list Bwt) : Prop :=
  match bs with
  | [] => True
  | b :: bs => quiet_path cur (bwt_ptr b) /\ trigger_data b = cv_matching v f (bwt_ptr b) /\ leads (Some (bwt_ptr b)) bs
  end.

Lemma history_known p blocks : history (Some p) blocks -> cv_known v p.
Proof. by inversion 1. Qed.

Lemma quiet_known cur p : quiet_path cur p -> cv_known v p.
Proof. by destruct 1. Qed.

Lemma quiet_history cur p blocks : history cur blocks -> quiet_path cur p -> history (cv_parent v p) blocks.
Proof.
  intros Hh. induction 1 as [p Hp <-|p q Hp Hq Hs Hquiet IH]; [done|].
  rewrite Hq. apply history_skip; [by eapply quiet_known|done|done].
Qed.

(** Processing a block that comes next *)
Lemma history_process cur blocks b bs :
  history cur blocks -> leads cur (b :: bs) ->
  history (Some (bwt_ptr b)) (b :: blocks) /\ leads (Some (bwt_ptr b)) bs.
Proof.
  intros Hh (Hq & Ht & Hl). split; [|done]. apply history_block; [by eapply quiet_known|done|].
  by eapply quiet_history.
Qed.

Lemma history_numbers p blocks :
  history (Some p) blocks -> Forall (fun b => (bwt_number b <= bp_number p)%Z) blocks.
Proof.
  intros H. remember (Some p) as cur eqn:Hcur. revert p Hcur.
  induction H as [|q blocks Hq Hs Hh IH|b blocks Hb Ht Hh IH]; intros p [= <-].
  - pose proof (cl_known_parent _ _ L q Hq) as Hpar. destruct (cv_parent v q) as [r|].
    + eapply Forall_impl; [by apply (IH r)|]. simpl. intros b Hle. lia.
    + by inversion Hh.
  - constructor; [done|]. pose proof (cl_known_parent _ _ L _ Hb) as Hpar. destruct (cv_parent v (bwt_ptr b)) as [r|].
    + eapply Forall_impl; [by apply (IH r)|]. simpl. intros b' Hle. lia.
    + by inversion Hh.
Qed.

(** Reverting to a block drops the blocks after it. *)
Definition revert_history (to : BlockPtr) (blocks : list Bwt) : list Bwt :=
  List.filter (fun b => (bwt_number b <=? bp_number to)%Z) blocks.

Lemma revert_history_id q blocks : history (Some q) blocks -> revert_history q blocks = blocks.
Proof.
  intros Hh. apply history_numbers in Hh. unfold revert_history.
  induction Hh as [|b blocks Hb _ IH]; [done|]. simpl. destruct (Z.leb_spec (bwt_number b) (bp_number q)); [by rewrite IH|lia].
Qed.

Lemma history_revert p q blocks :
  cv_parent v p = Some q -> history (Some p) blocks -> history (Some q) (revert_history q blocks).
Proof.
  intros Hq H. inversion H as [|p' blocks' Hp Hs Hh|b blocks' Hb Ht Hh]; subst; rewrite Hq in Hh.
  - by rewrite revert_history_id.
  - pose proof (cl_known_parent _ _ L _ Hb) as Hpar. rewrite Hq in Hpar. destruct Hpar as [_ Hn].
    rewrite <-(revert_history_id _ _ Hh) in Hh. unfold revert_history in *. simpl. unfold bwt_number at 1.
    by destruct (Z.leb_spec (bp_number (bwt_ptr b)) (bp_number q)); [lia|].
Qed.

(** ** The range that is scanned *)

(** The settings of a stream; [M] is the largest range it was started with, or ten. *)
Record ctx_ok (M : BlockNumber) (c : StreamContext Filter) : Prop := {
  co_filter : ctx_filter c = f;
  co_threshold : reorg_threshold c = threshold;
  co_previous : (1 <= previous_block_range_size c <= M)%Z;
  co_maximum : (1 <= max_block_range_size c <= M)%Z
}.

Context (M : BlockNumber).
Hypothesis HM : (10 <= M)%Z /\ (M * 10 <= i32_max)%Z.
Hypothesis Hmax : forall p, cv_known v p -> (bp_number p + M <= i32_max)%Z.

Lemma scan_range_size_bounds c :
  ctx_ok M c ->
  (1 <= scan_range_size c <= max_block_range_size c)%Z /\ (scan_range_size c <= previous_block_range_size c * 10)%Z.
Proof.
  intros [_ _ Hp Hm]. unfold scan_range_size. rewrite wrap_i32_id by (unfold in_i32, i32_min, i32_max in *; lia).
  destruct (f64_eqb _ _); [lia|]. unfold i32_max in HM.
  pose proof (f64_clamp_bounds (f64_div (f64_of_int (target_triggers_per_block_range c)) (previous_triggers_per_block c))
    (Z.min (max_block_range_size c) (previous_block_range_size c * 10)) (f64_div_canonical _ _)). lia.
Qed.

Lemma foldl_min_gt n b bs : (n < b)%Z -> Forall (fun x => (n < x)%Z) bs -> (n < foldl Z.min b bs)%Z.
Proof.
  intros Hb H. revert b Hb. induction H as [|x bs Hx _ IH]; intros b Hb; [done|]. simpl. apply IH. lia.
Qed.

Lemma next_start_block_gt blocks from : (from < BLOCK_NUMBER_MAX)%Z -> (from < next_start_block blocks from)%Z.
Proof.
  intros Hmaxn. unfold next_start_block. assert (Hall : Forall (fun x => (from < x)%Z) (List.filter (fun b => (from <? b)%Z) blocks)).
  { apply Forall_forall. intros x Hx. apply list_elem_of_In, filter_In in Hx as [_ Hx]. by apply Z.ltb_lt. }
  destruct Hall as [|b bs Hb Hbs]; [done|]. by apply foldl_min_gt.
Qed.

Lemma scan_to_bounds c head_number limit from :
  ctx_ok M c -> (0 <= from <= head_number - limit)%Z -> (0 <= limit)%Z -> (head_number + M <= i32_max)%Z ->
  let to := scan_to c head_number limit from in
  (from <= to)%Z /\ (to <= head_number - limit)%Z /\ (to < next_start_block (start_blocks c) from)%Z /\
  (to - from < max_block_range_size c)%Z.
Proof.
  intros Hc Hfrom Hlimit Hhead. destruct (scan_range_size_bounds c Hc) as [Hsize _]. destruct Hc as [_ _ _ Hm].
  assert (Hnext : (from < next_start_block (start_blocks c) from)%Z).
  { apply next_start_block_gt. unfold BLOCK_NUMBER_MAX, i32_max in *. lia. }
  unfold scan_to. rewrite wrap_i32_id by (unfold in_i32, i32_min, i32_max in *; lia). lia.
Qed.

(** ** A step of the reconciliation *)

(** The current block is one of the chain. *)
Definition current_known (c : StreamContext Filter) : Prop := forall p, current_block c = Some p -> cv_known v p.

Definition step_ok (c : StreamContext Filter) (r : ReconciliationStep) : Prop :=
  match r with
  | StepRevert q => exists p, current_block c = Some p /\ cv_parent v p = Some q
  | ProcessDescendantBlocks bs n => leads (current_block c) bs /\ bs <> [] /\ (1 <= n <= M)%Z
  | _ => True
  end.

Lemma permanent_quiet_path cur from n p :
  (0 <= from <= n)%Z ->
  match cur with Some q => from = (bp_number q + 1)%Z /\ cv_permanent v (bp_number q) = Some q | None => from = 0%Z end ->
  (forall i, (0 <= i <= n)%Z -> is_Some (cv_permanent v i)) ->
  (forall i q, (from <= i < n)%Z -> cv_permanent v i = Some q -> skippable q) ->
  cv_permanent v n = Some p -> quiet_path cur p.
Proof.
  intros Hn Hcur Hall Hskip. assert (Hk : exists k : nat, n = (from + Z.of_nat k)%Z) by (exists (Z.to_nat (n - from)); lia).
  destruct Hk as [k ->]. revert p Hall Hskip. induction k as [|k IH]; intros p Hall Hskip Hp.
  - rewrite Z.add_0_r in Hp. destruct (cl_permanent _ _ L _ _ Hp) as [Hk Hnum]. apply quiet_child; [done|]. destruct cur as [q|].
    + destruct Hcur as [-> Hq]. rewrite (cl_permanent_parent _ _ L (bp_number q) p); [done| |done].
      destruct (cl_permanent _ _ L _ _ Hq) as [Hq' _]. by apply (cl_known_number _ _ L).
    + subst. pose proof (cl_known_parent _ _ L _ Hk) as Hpar. destruct (cv_parent v p) as [q|]; [|done].
      destruct Hpar as [Hq Hnq]. pose proof (cl_known_number _ _ L _ Hq). lia.
  - destruct (Hall (from + Z.of_nat k)%Z) as [q Hq]; [lia|].
    replace (from + Z.of_nat (S k))%Z with (from + Z.of_nat k + 1)%Z in Hp by lia.
    destruct (cl_permanent _ _ L _ _ Hp) as [Hk _]. pose proof (cl_permanent_parent _ _ L (from + Z.of_nat k) p ltac:(lia) Hp) as Hpar.
    rewrite Hq in Hpar. eapply quiet_step; [done|done|by eapply (Hskip (from + Z.of_nat k)%Z); [lia|]|].
    apply IH; [lia| | |done].
    + intros i Hi. apply Hall. lia.
    + intros i r Hi. apply Hskip. lia.
Qed.

Definition follows (cur : option BlockPtr) (from : BlockNumber) : Prop :=
  match cur with
  | Some q => from = (bp_number q + 1)%Z /\ cv_permanent v (bp_number q) = Some q
  | None => from = 0%Z
  end.

Lemma scan_leads cur from to bs :
  follows cur from -> (0 <= from <= to)%Z -> (forall i, (0 <= i <= to)%Z -> is_Some (cv_permanent v i)) ->
  scan_result v f from to bs -> leads cur bs.
Proof.
  intros Hcur Hfrom Hall [_ Hord Hrange Hperm Htrig Hcomp]. revert cur from Hcur Hfrom Hrange Hcomp.
  induction Hord as [|b bs Hord IH Hlt]; intros cur from Hcur Hfrom Hrange Hcomp; [done|].
  pose proof (Hrange b (list_elem_of_here _ _)) as Hb. pose proof (Hperm b (list_elem_of_here _ _)) as Hpb.
  rewrite Forall_forall in Hlt. split_and!.
  - apply (permanent_quiet_path cur from (bwt_number b)); [lia|done|intros; apply Hall; lia| |done].
    intros i q Hi Hq. right. destruct (cv_matching v f q) eqn:Hm; [done|].
    destruct (Hcomp i q) as (b' & Hb' & <-); [lia|done|by rewrite Hm|].
    destruct (cl_permanent _ _ L _ _ Hq) as [_ Hn]. apply elem_of_cons in Hb' as [->|Hb'].
    + unfold bwt_number in *. lia.
    + specialize (Hlt _ Hb'). unfold bwt_number in *. lia.
  - apply Htrig. left.
  - destruct bs as [|b2 bs']; [done|]. set (bs := b2 :: bs') in *.
    assert (Hb2 : b2 ∈ bs) by left. specialize (Hlt b2 Hb2) as Hlt2.
    assert (Hr2 : (bwt_number b2 <= to)%Z) by (apply (Hrange b2); by right).
    apply (IH (fun b' H => Hperm b' (list_elem_of_further _ _ _ H)) (fun b' H => Htrig b' (list_elem_of_further _ _ _ H))
      (Some (bwt_ptr b)) (bwt_number b + 1)%Z); [done|lia| |].
    + intros b' Hb'. specialize (Hlt _ Hb'). assert (b' ∈ b :: bs) as Hin by by right. apply Hrange in Hin. lia.
    + intros n p Hn Hp Hm. destruct (Hcomp n p) as (b' & Hb' & <-); [lia|done|done|].
      destruct (cl_permanent _ _ L _ _ Hp) as [_ Hnum]. apply elem_of_cons in Hb' as [->|Hb']; [|by exists b'].
      unfold bwt_number in *. lia.
Qed.

(** Only the first block has no parent, and it is never reverted. *)
Lemma parent_ptr_of_ok w p :
  cv_known v p -> p <> cv_genesis v ->
  parent_ptr_of w p <> Panic /\ forall q, parent_ptr_of w p = Ok q -> cv_parent v p = Some q.
Proof.
  intros Hp Hg. destruct (cl_parent _ _ L w p Hp) as [Hnp Hok]. unfold parent_ptr_of.
  pose proof (cl_known_parent _ _ L p Hp) as Hpar.
  destruct (adapter_parent_ptr w p) as [q|e|]; [|done|done]. rewrite (Hok q eq_refl). simpl.
  destruct (cv_parent v p) as [r|]; [|done]. split; [done|]. by intros q' [= <-].
Qed.

Section Step.
Context (ws : nat -> World) (c : StreamContext Filter) (head : BlockPtr).
Hypothesis Hlater : forall i, cv_later v (ws 0%nat) (ws i).
Hypothesis Hc : ctx_ok M c.
Hypothesis Hcur : current_known c.
Hypothesis Hhead : chain_head_ptr (ws 0%nat) = Ok (Some head).

Lemma head_known : cv_known v head.
Proof. by eapply (cl_head _ _ L). Qed.

Lemma step_beyond_threshold_ok :
  let limit := Z.min (reorg_threshold c) (bp_number head) in
  match current_block c with Some p => (limit < bp_number head - bp_number p)%Z | None => True end ->
  step_beyond_threshold ws c (bp_number head) limit <> Panic /\
  forall r, step_beyond_threshold ws c (bp_number head) limit = Ok r -> step_ok c r.
Proof.
  intros limit Hbehind. pose proof head_known as Hkh. pose proof (cl_known_number _ _ L _ Hkh) as Hh0.
  pose proof (Hmax _ Hkh) as Hhm. pose proof (cl_threshold _ _ L) as Hthr.
  assert (Hlim : permanent_limit threshold head = (bp_number head - limit)%Z).
  { unfold permanent_limit, limit. by rewrite (co_threshold _ _ Hc). }
  assert (Hl0 : (0 <= limit <= bp_number head)%Z) by (unfold limit; rewrite (co_threshold _ _ Hc); lia).
  set (from := match current_block c with Some p => (bp_number p + 1)%Z | None => 0%Z end).
  assert (Hfrom : (0 <= from <= bp_number head - limit)%Z).
  { unfold from. destruct (current_block c) as [p|] eqn:Hp; [|lia]. pose proof (cl_known_number _ _ L _ (Hcur p Hp)). lia. }
  destruct (scan_to_bounds c (bp_number head) limit from Hc Hfrom) as (Hft & Hto & _ & _); [lia|lia|].
  assert (Hscan : follows (current_block c) from ->
    (let? bs := scan_triggers (ws 2%nat) from (scan_to c (bp_number head) limit from) (ctx_filter c) in
     Ok (ProcessDescendantBlocks bs (scan_range_size c))) <> Panic /\
    forall r, (let? bs := scan_triggers (ws 2%nat) from (scan_to c (bp_number head) limit from) (ctx_filter c) in
     Ok (ProcessDescendantBlocks bs (scan_range_size c))) = Ok r -> step_ok c r).
  { intros Hfol. destruct (cl_scan _ _ L (ws 0%nat) (ws 2%nat) head from (scan_to c (bp_number head) limit from) (ctx_filter c) Hhead (Hlater 2))
      as [Hnp Hres]; [lia|rewrite Hlim; lia|].
    destruct (scan_triggers _ _ _ _) as [bs|e|]; [|done|done]. split; [done|]. intros r [= <-].
    specialize (Hres bs eq_refl). rewrite (co_filter _ _ Hc) in Hres. destruct (scan_range_size_bounds c Hc) as [Hsize _].
    destruct Hc as [_ _ _ Hm]. split_and!; [|apply Hres|lia|lia].
    eapply scan_leads; [done| | |done]; [lia|]. intros i Hi. eapply (cl_assigned _ _ L); [done|]. rewrite Hlim. lia. }
  unfold step_beyond_threshold. destruct (current_block c) as [p|] eqn:Hp; [|by apply Hscan].
  destruct (cl_main _ _ L (ws 0%nat) (ws 1%nat) head p Hhead (Hlater 1)) as [Hnp Hmain]; [rewrite Hlim; lia|by apply Hcur|].
  destruct (is_on_main_chain (ws 1%nat) p) as [b|e|]; [|done|done]. specialize (Hmain b eq_refl). simpl.
  destruct b; simpl.
  - apply Hscan. split; [done|]. by apply Hmain.
  - assert (Hg : p <> cv_genesis v).
    { intros ->. destruct (cl_assigned _ _ L (ws 0%nat) head 0 Hhead) as [g Hg]; [rewrite Hlim; lia|].
      destruct (cl_permanent _ _ L _ _ Hg) as [Hgk Hg0]. pose proof (cl_first _ _ L g Hgk Hg0) as ->.
      rewrite Hg0 in Hmain. by apply Hmain in Hg. }
    destruct (parent_ptr_of_ok (ws 2%nat) p (Hcur p Hp) Hg) as [Hnp' Hpar].
    destruct (parent_ptr_of _ p) as [q|e|]; [|done|done]. split; [done|]. intros r [= <-]. exists p. by split; [|apply Hpar].
Qed.

(** The block that is one number after the current one on the way to the head *)
Lemma head_ancestor_parent p b :
  current_block c = Some p -> (bp_number p < bp_number head)%Z ->
  ancestor_block (ws 1%nat) head (bp_number head - bp_number p - 1) = Ok (Some b) ->
  cv_known v (block_ptr_of b) /\
  exists q, cv_parent v (block_ptr_of b) = Some q /\ block_parent_hash b = Some (bp_hash q) /\
    bp_number q = bp_number p /\ cv_known v q.
Proof.
  intros Hp Hlt Hb. pose proof head_known as Hkh. pose proof (cl_known_number _ _ L _ (Hcur p Hp)) as Hp0.
  destruct (cl_ancestor _ _ L (ws 1%nat) head (bp_number head - bp_number p - 1) Hkh) as [_ Hanc]; [lia|].
  destruct (Hanc b Hb) as [Ha Hbp]. destruct (ancestor_known _ _ _ Hkh Ha) as [Hbk Hbn]. split; [done|].
  pose proof (cl_known_parent _ _ L _ Hbk) as Hpar. unfold block_parent_hash. rewrite Hbp.
  destruct (cv_parent v (block_ptr_of b)) as [q|] eqn:Hq.
  - destruct Hpar as [Hqk Hqn]. exists q. split_and!; [done|done|lia|done].
  - exfalso. destruct (cl_assigned _ _ L (ws 0%nat) head 0 Hhead) as [g Hg].
    { unfold permanent_limit. pose proof (cl_threshold _ _ L). lia. }
    destruct (cl_permanent _ _ L _ _ Hg) as [Hgk Hg0]. pose proof (cl_first _ _ L g Hgk Hg0) as ->. rewrite <-Hpar in Hg0. lia.
Qed.

Lemma step_within_threshold_ok p :
  current_block c = Some p -> (bp_number p < bp_number head)%Z ->
  step_within_threshold ws c head <> Panic /\
  forall r, step_within_threshold ws c head = Ok r -> step_ok c r.
Proof.
  intros Hp Hlt. pose proof head_known as Hkh. pose proof (Hcur p Hp) as Hkp.
  pose proof (cl_known_number _ _ L _ Hkp) as Hp0. unfold step_within_threshold. rewrite Hp. simpl.
  destruct (cl_ancestor _ _ L (ws 1%nat) head (bp_number head - bp_number p - 1) Hkh) as [Hnp _]; [lia|].
  pose proof (head_ancestor_parent p) as Hanc.
  destruct (ancestor_block _ _ _) as [[b|]|e|]; [| |done|done]; simpl; [|split; [done|by intros r [= <-]]].
  destruct (Hanc b Hp Hlt eq_refl) as (Hkb & q & Hq & -> & Hqn & Hkq). case_bool_decide as Heq.
  - assert (q = p) as -> by (destruct p, q; simpl in *; congruence).
    destruct (cl_triggers _ _ L (ws 2%nat) b (ctx_filter c)) as [Hnt Ht].
    destruct (triggers_in_block _ _ _) as [b'|e|]; [|done|done]. split; [done|]. intros r [= <-].
    destruct (Ht b' eq_refl) as [Hptr Htr]. rewrite (co_filter _ _ Hc) in Htr. simpl. rewrite Hp.
    split_and!; [|by rewrite Hptr|done|done|lia|lia]. rewrite Hptr. by apply quiet_child.
  - assert (Hg : p <> cv_genesis v).
    { intros ->. apply Heq. destruct (cl_assigned _ _ L (ws 0%nat) head 0 Hhead) as [g Hg].
      { unfold permanent_limit. pose proof (cl_threshold _ _ L). lia. }
      destruct (cl_permanent _ _ L _ _ Hg) as [Hgk Hg0]. pose proof (cl_first _ _ L g Hgk Hg0) as ->.
      by rewrite (cl_first _ _ L q Hkq) by lia. }
    destruct (parent_ptr_of_ok (ws 2%nat) p Hkp Hg) as [Hnp' Hpar].
    destruct (parent_ptr_of _ p) as [r'|e|]; [|done|done]. split; [done|]. intros r [= <-]. exists p. by split; [|apply Hpar].
Qed.

End Step.

Lemma get_next_step_ok ws c :
  (forall i, cv_later v (ws 0%nat) (ws i)) -> ctx_ok M c -> current_known c ->
  get_next_step ws c <> Panic /\ forall r, get_next_step ws c = Ok r -> step_ok c r.
Proof.
  intros Hlater Hc Hcur. unfold get_next_step. destruct (cl_head _ _ L (ws 0%nat)) as [Hnp _].
  destruct (chain_head_ptr (ws 0%nat)) as [[head|]|e|] eqn:Hhead; [| |done|done]; simpl; [|split; [done|by intros r [= <-]]].
  pose proof (step_beyond_threshold_ok ws c head Hlater Hc Hcur Hhead) as Hbeyond. simpl in Hbeyond.
  destruct (current_block c) as [p|] eqn:Hp; [|by apply Hbeyond].
  destruct (Z.leb_spec (bp_number head) (bp_number p)); [split; [done|by intros r [= <-]]|].
  destruct (Z.ltb_spec (Z.min (reorg_threshold c) (bp_number head)) (bp_number head - bp_number p)); [by apply Hbeyond|].
  by apply (step_within_threshold_ok ws c head Hc Hcur Hhead p).
Qed.

(** The worlds that the calls see are ordered in time. *)
Definition in_order (ws : nat -> World) : Prop := forall i j, (i <= j)%nat -> cv_later v (ws i) (ws j).

Definition next_ok (c : StreamContext Filter) (r : result CErr NextBlocks) : Prop :=
  match r with
  | Ok (NextBlocksBlocks bs n) => leads (current_block c) bs /\ bs <> [] /\ (1 <= n <= M)%Z
  | Ok (NextBlocksRevert q) => exists p, current_block c = Some p /\ cv_parent v p = Some q
  | Ok NextBlocksDone => True
  | Err _ => True
  | Panic => False
  end.

Lemma next_blocks_ok retries ws c r :
  in_order ws -> ctx_ok M c -> current_known c -> next_blocks retries ws c = Some r -> next_ok c r.
Proof.
  intros Hws Hc Hcur. revert ws Hws. induction retries as [|n IH]; intros ws Hws; cbn [next_blocks];
    destruct (get_next_step_ok ws c) as [Hnp Hok]; try done; try (intros i; apply Hws; lia);
    destruct (get_next_step ws c) as [[q|bs m| |]|e|]; try done; try (intros [= <-]; try done; by apply (Hok _ eq_refl)).
  apply IH. intros i j Hij. apply Hws. lia.
Qed.

(** ** The stream *)

(** The future sees worlds in the order of time. *)
Definition poll_env_ok (env : PollEnv World) : Prop :=
  match pe_reconciliation env with PollReady (_, ws) => in_order ws | PollPending => True end.

(** What a consumer has processed after it has taken an item *)
Definition consume (item : Poll (StreamItem Block Trigger CErr)) (blocks : list Bwt) : list Bwt :=
  match item with
  | PollReady (ItemEvent (EvProcessBlock b _)) => b :: blocks
  | PollReady (ItemEvent (EvRevert to _)) => revert_history to blocks
  | _ => blocks
  end.

(** The stream and its consumer between two iterations of [poll_next] *)
Local Abbreviation Sys := (PollingBlockStream Block Trigger Filter * list Bwt)%type.

Inductive stream_step : Sys -> Sys -> Prop :=
| stream_continues env s s' blocks :
    poll_env_ok env -> poll_iteration env s = Some (IterContinue s') -> stream_step (s, blocks) (s', blocks)
| stream_breaks env s s' item blocks :
    poll_env_ok env -> poll_iteration env s = Some (IterBreak s' item) ->
    stream_step (s, blocks) (s', consume item blocks).

Record stream_inv (x : Sys) : Prop := {
  si_ctx : ctx_ok M (stream_ctx x.1);
  si_history : history (current_block (stream_ctx x.1)) x.2;
  si_state : match stream_state x.1 with
             | Reconciliation c => c = stream_ctx x.1
             | YieldingBlocks bs => leads (current_block (stream_ctx x.1)) bs
             | _ => True
             end
}.

Lemma history_current_known (c : StreamContext Filter) blocks : history (current_block c) blocks -> current_known c.
Proof. intros Hh p Hp. rewrite Hp in Hh. by eapply history_known. Qed.

Lemma take_blocks_ctx (s : PollingBlockStream Block Trigger Filter) bs n :
  ctx_ok M (stream_ctx s) -> (1 <= n <= M)%Z -> ctx_ok M (stream_ctx (take_blocks s bs n)).
Proof.
  intros [Hf Ht Hp Hm] Hn. unfold take_blocks. destruct (Z.eqb_spec (consecutive_err_count s) 1); split; simpl; try done.
  rewrite wrap_i32_id by (unfold in_i32, i32_min, i32_max in *; lia).
  pose proof (Z.quot_le_upper_bound (max_block_range_size (stream_ctx s) * 9) 10 M). lia.
Qed.

Lemma take_blocks_current (s : PollingBlockStream Block Trigger Filter) bs n :
  current_block (stream_ctx (take_blocks s bs n)) = current_block (stream_ctx s).
Proof. unfold take_blocks. by destruct (consecutive_err_count s =? 1)%Z. Qed.

Lemma poll_iteration_inv env s blocks :
  poll_env_ok env -> stream_inv (s, blocks) ->
  match poll_iteration env s with
  | Some (IterContinue s') => stream_inv (s', blocks)
  | Some (IterBreak s' item) => stream_inv (s', consume item blocks)
  | Some IterPanic => False
  | None => True
  end.
Proof.
  intros Henv [Hc Hh Hs]. simpl in *. unfold poll_iteration.
  destruct (stream_state s) as [|c|[|b bs]|secs|] eqn:Hst; [by split| |by split| | |].
  - subst c. unfold poll_env_ok in Henv. destruct (pe_reconciliation env) as [[n ws]|]; [|split; simpl; rewrite ?Hst; done].
    destruct (next_blocks n ws (stream_ctx s)) as [r|] eqn:Hr; [|done].
    apply next_blocks_ok in Hr; [|done|done|by eapply history_current_known].
    destruct r as [[bs m|q|]|e|]; simpl in Hr; [| | | |done].
    + destruct Hr as (Hl & _ & Hm). split; cbn [fst snd].
      * by apply take_blocks_ctx.
      * by rewrite take_blocks_current.
      * unfold take_blocks. simpl. by destruct (_ =? 1)%Z.
    + destruct Hr as (p & Hp & Hq). rewrite Hp in Hh. split; simpl; [|by eapply history_revert|done].
      destruct Hc; by split.
    + by split.
    + split; simpl; [by destruct Hc|done|done].
  - destruct (history_process _ _ _ _ Hh Hs) as [Hh' Hl]. split; simpl; [by destruct Hc|done|done].
  - destruct (pe_delay env); [by split|]. split; simpl; rewrite ?Hst; done.
  - destruct (pe_head_updates env) as [[]|]; [by split|..]; split; simpl; rewrite ?Hst; done.
Qed.

Lemma stream_steps_inv x y : rtc stream_step x y -> stream_inv x -> stream_inv y.
Proof.
  induction 1 as [|x y z Hstep _ IH]; [done|]. intros Hx. apply IH. clear -Hstep Hx L HM Hmax.
  destruct Hstep as [env s s' blocks Henv Hp|env s s' item blocks Henv Hp];
    pose proof (poll_iteration_inv env s blocks Henv Hx) as Hok; by rewrite Hp in Hok.
Qed.

(** C7: the stream never loses a block.  Whatever the chain does between two calls,
    after any number of polls the blocks that a consumer has processed and not
    reverted are, latest first, the blocks on the way from the first block to the
    current one, each with all its triggers; only blocks without triggers, and blocks
    before the first one of interest, may be missing.  Polling never panics: the
    first block of the chain is never reverted. *)
Theorem polling_stream_complete starts target max_range start blocks s blocks' :
  (1 <= max_range <= M)%Z -> history start blocks ->
  rtc stream_step (polling_new f starts threshold max_range target start, blocks) (s, blocks') ->
  history (current_block (stream_ctx s)) blocks' /\
  forall env, poll_env_ok env -> poll_iteration env s <> Some IterPanic.
Proof.
  intros Hr Hh Hsteps. apply stream_steps_inv in Hsteps; [|split; simpl; [split; simpl; [done..|lia|lia]|done|done]].
  split; [by apply Hsteps|]. intros env Henv Hp. pose proof (poll_iteration_inv env s blocks' Henv Hsteps) as Hok.
  by rewrite Hp in Hok.
Qed.

(** Every range that the stream asks for has at least one block and at most as
    many as the maximum and ten times the previous range, starts right after the
    current block, ends before the next start block and where blocks are permanent;
    and the settings that give these bounds are kept by every poll. *)
Theorem polling_stream_ranges starts target max_range start blocks s blocks' h :
  (1 <= max_range <= M)%Z -> history start blocks ->
  rtc stream_step (polling_new f starts threshold max_range target start, blocks) (s, blocks') ->
  cv_known v h ->
  let c := stream_ctx s in
  let limit := Z.min (reorg_threshold c) (bp_number h) in
  let from := match current_block c with Some p => (bp_number p + 1)%Z | None => 0%Z end in
  let to := scan_to c (bp_number h) limit from in
  (from <= bp_number h - limit)%Z ->
  (from <= to)%Z /\ (to <= permanent_limit threshold h)%Z /\ (to < next_start_block (start_blocks c) from)%Z /\
  (to - from < max_block_range_size c)%Z /\ (max_block_range_size c <= M)%Z /\
  (scan_range_size c <= previous_block_range_size c * 10)%Z.
Proof.
  intros Hr Hh Hsteps Hk c limit from to Hfrom.
  apply stream_steps_inv in Hsteps; [|split; simpl; [split; simpl; [done..|lia|lia]|done|done]].
  destruct Hsteps as [Hc Hh' _]. simpl in Hc, Hh'. fold c in Hc, Hh'. pose proof (cl_known_number _ _ L _ Hk) as Hh0.
  pose proof (cl_threshold _ _ L) as Hthr. assert (Hf0 : (0 <= from)%Z).
  { unfold from. destruct (current_block c) as [p|] eqn:Hp; [|done].
    pose proof (cl_known_number _ _ L p (history_known _ _ Hh')). lia. }
  assert (Hl : permanent_limit threshold h = (bp_number h - limit)%Z).
  { unfold permanent_limit, limit. by rewrite (co_threshold _ _ Hc). }
  destruct (scan_to_bounds c (bp_number h) limit from Hc) as (? & ? & ? & ?); [lia| |by apply Hmax|].
  { unfold limit. rewrite (co_threshold _ _ Hc). lia. }
  destruct (scan_range_size_bounds c Hc) as [_ Hten]. destruct Hc as [_ _ _ Hm]. rewrite Hl. split_and!; try done; lia.
Qed.

(** ** Catching up *)

Lemma ancestor_step k p q : ancestor (cv_parent v) k p = Some q -> ancestor (cv_parent v) (S k) p = cv_parent v q.
Proof.
  revert p. induction k as [|k IH]; intros p H.
  - injection H as <-. simpl. by destruct (cv_parent v p).
  - simpl in H. destruct (cv_parent v p) as [r|] eqn:Hr; [|done]. simpl in H. apply IH in H.
    cbn [ancestor]. rewrite Hr. exact H.
Qed.

(** A chain at rest: the world does not change, every call is answered, and the
    blocks within the reorg threshold of the head are in the local store. *)
Record at_rest (w : World) (head : BlockPtr) : Prop := {
  ar_later : cv_later v w w;
  ar_head : chain_head_ptr w = Ok (Some head);
  ar_permanent n : (0 <= n <= permanent_limit threshold head)%Z ->
    cv_permanent v n = ancestor (cv_parent v) (Z.to_nat (bp_number head - n)) head;
  ar_main p : cv_known v p -> is_ok (is_on_main_chain w p) = true;
  ar_scan from to : (0 <= from <= to)%Z -> (to <= permanent_limit threshold head)%Z ->
    is_ok (scan_triggers w from to f) = true;
  ar_ancestor k : (0 <= k < threshold)%Z -> (k <= bp_number head)%Z -> exists b, ancestor_block w head k = Ok (Some b);
  ar_triggers b : is_ok (triggers_in_block w b f) = true;
  ar_parent p : cv_known v p -> is_ok (adapter_parent_ptr w p) = true
}.

Lemma is_ok_inv {E A} (r : result E A) : is_ok r = true -> exists a, r = Ok a.
Proof. destruct r; [by eexists|done..]. Qed.

Section Rest.
Context (w : World) (head : BlockPtr) (Hrest : at_rest w head).

(** [p] is on the way to the head. *)
Definition on_way (p : BlockPtr) : Prop := ancestor (cv_parent v) (Z.to_nat (bp_number head - bp_number p)) head = Some p.

Definition rest_step (c : StreamContext Filter) (r : ReconciliationStep) : Prop :=
  match r with
  | StepRevert q => exists p, current_block c = Some p /\ cv_parent v p = Some q /\ ~ on_way p
  | ProcessDescendantBlocks bs _ =>
      Forall (fun b => on_way (bwt_ptr b) /\ (bwt_number b <= bp_number head)%Z /\
        match current_block c with Some p => (bp_number p < bwt_number b)%Z | None => True end) bs
  | StepRetry => False
  | StepDone => exists p, current_block c = Some p /\ (bp_number head <= bp_number p)%Z
  end.

Lemma rest_parent_ptr p :
  cv_known v p -> p <> cv_genesis v -> exists q, parent_ptr_of w p = Ok q.
Proof.
  intros Hp Hg. destruct (parent_ptr_of_ok w p Hp Hg) as [Hnp _]. pose proof (ar_parent _ _ Hrest p Hp) as Hok.
  unfold parent_ptr_of in *. destruct (adapter_parent_ptr w p) as [[q|]|e|]; try done. by exists q.
Qed.

Lemma permanent_on_way n p :
  (n <= permanent_limit threshold head)%Z -> cv_permanent v n = Some p -> on_way p /\ (bp_number p <= bp_number head)%Z.
Proof.
  intros Hn Hp. destruct (cl_permanent _ _ L _ _ Hp) as [Hk Hnum]. pose proof (cl_known_number _ _ L _ Hk).
  unfold on_way. rewrite <-Hp, Hnum. rewrite <-(ar_permanent _ _ Hrest) by lia. split; [done|].
  unfold permanent_limit in Hn. pose proof (cl_threshold _ _ L).
  pose proof (cl_known_number _ _ L head (proj2 (cl_head _ _ L w) head (ar_head _ _ Hrest))). lia.
Qed.

Lemma rest_step_beyond c :
  let limit := Z.min (reorg_threshold c) (bp_number head) in
  ctx_ok M c -> current_known c ->
  match current_block c with Some p => (limit < bp_number head - bp_number p)%Z | None => True end ->
  exists r, step_beyond_threshold (fun _ => w) c (bp_number head) limit = Ok r /\ rest_step c r.
Proof.
  intros limit Hc Hcur Hbehind. pose proof (ar_head _ _ Hrest) as Hhead. pose proof (ar_later _ _ Hrest) as Hlater.
  destruct (step_beyond_threshold_ok (fun _ => w) c head (fun _ => Hlater) Hc Hcur Hhead Hbehind) as [Hnp Hok].
  pose proof (proj2 (cl_head _ _ L w) head Hhead) as Hkh. pose proof (cl_known_number _ _ L _ Hkh) as Hh0.
  pose proof (Hmax _ Hkh) as Hhm. pose proof (cl_threshold _ _ L) as Hthr.
  assert (Hlim : permanent_limit threshold head = (bp_number head - limit)%Z).
  { unfold permanent_limit, limit. by rewrite (co_threshold _ _ Hc). }
  assert (Hl0 : (0 <= limit <= bp_number head)%Z) by (unfold limit; rewrite (co_threshold _ _ Hc); lia).
  unfold step_beyond_threshold in *. fold limit in Hnp, Hok.
  set (from := match current_block c with Some p => (bp_number p + 1)%Z | None => 0%Z end) in *.
  assert (Hfrom : (0 <= from <= bp_number head - limit)%Z).
  { unfold from. destruct (current_block c) as [p|] eqn:Hp; [|lia]. pose proof (cl_known_number _ _ L _ (Hcur p Hp)). lia. }
  destruct (scan_to_bounds c (bp_number head) limit from Hc Hfrom) as (Hft & Hto & _ & _); [lia|lia|].
  assert (Hscan : exists r, (let? bs := scan_triggers w from (scan_to c (bp_number head) limit from) (ctx_filter c) in
     Ok (ProcessDescendantBlocks bs (scan_range_size c))) = Ok r /\ rest_step c r).
  { rewrite (co_filter _ _ Hc). pose proof (ar_scan _ _ Hrest from (scan_to c (bp_number head) limit from) ltac:(lia) ltac:(lia)) as Hs.
    apply is_ok_inv in Hs as [bs Hs]. rewrite Hs.
    destruct (cl_scan _ _ L w w head from (scan_to c (bp_number head) limit from) f Hhead Hlater) as [_ Hres]; [lia|rewrite Hlim; lia|].
    eexists. split; [done|]. destruct (Hres bs Hs) as [_ _ Hr Hp _ _]. apply Forall_forall. intros b Hb. specialize (Hr b Hb).
    destruct (permanent_on_way (bwt_number b) (bwt_ptr b)) as [Hw Hle]; [rewrite Hlim; lia|by apply Hp|].
    split_and!; [done|done|]. unfold from in Hr. destruct (current_block c); lia. }
  destruct (current_block c) as [p|] eqn:Hp; [|exact Hscan].
  destruct (is_ok_inv _ (ar_main _ _ Hrest p (Hcur p Hp))) as [b Hb]. rewrite Hb in *. simpl in *.
  destruct (cl_main _ _ L w w head p Hhead Hlater) as [_ Hmain]; [rewrite Hlim; lia|by apply Hcur|].
  destruct (Hmain b Hb) as [_ Hnot]. destruct b; [exact Hscan|]. simpl in *.
  assert (Hway : ~ on_way p).
  { intros Hway. discriminate Hnot. rewrite (ar_permanent _ _ Hrest); [done|]. rewrite Hlim.
    pose proof (cl_known_number _ _ L _ (Hcur p Hp)). lia. }
  destruct (is_ok_inv _ (ar_parent _ _ Hrest p (Hcur p Hp))) as [q Hq]. unfold parent_ptr_of in *. rewrite Hq in *.
  destruct q as [q|]; [|done]. eexists. split; [done|]. destruct (Hok _ eq_refl) as (p' & Hp' & Hpar). exists p.
  assert (p' = p) as -> by congruence. done.
Qed.

Lemma rest_step_within c p :
  ctx_ok M c -> current_known c -> current_block c = Some p -> (bp_number p < bp_number head)%Z ->
  (bp_number head - bp_number p <= threshold)%Z ->
  exists r, step_within_threshold (fun _ => w) c head = Ok r /\ rest_step c r.
Proof.
  intros Hc Hcur Hp Hlt Hclose. pose proof (ar_head _ _ Hrest) as Hhead. pose proof (Hcur p Hp) as Hkp.
  pose proof (cl_known_number _ _ L _ Hkp) as Hp0. pose proof (proj2 (cl_head _ _ L w) head Hhead) as Hkh.
  destruct (step_within_threshold_ok (fun _ => w) c head Hc Hcur Hhead p Hp Hlt) as [Hnp Hok].
  destruct (ar_ancestor _ _ Hrest (bp_number head - bp_number p - 1)) as [b Hb]; [lia|lia|].
  destruct (head_ancestor_parent (fun _ => w) c head Hcur Hhead p b Hp Hlt Hb) as (Hkb & q & Hq & Hhash & Hqn & Hkq).
  destruct (cl_ancestor _ _ L w head (bp_number head - bp_number p - 1) Hkh) as [_ Hanc]; [lia|].
  destruct (Hanc b Hb) as [Ha _]. destruct (ancestor_known _ _ _ Hkh Ha) as [_ Hbn].
  unfold step_within_threshold in *. rewrite Hp in *. cbn [bind_result expect ok_or] in *. rewrite Hb in *. cbn [bind_result] in *. rewrite Hhash in *.
  case_bool_decide as Heq.
  - destruct (is_ok_inv _ (ar_triggers _ _ Hrest b)) as [b' Hb']. rewrite (co_filter _ _ Hc), Hb'.
    eexists. split; [done|]. destruct (proj2 (cl_triggers _ _ L w b f) b' Hb') as [Hptr _]. cbn [rest_step]. rewrite Hp.
    apply Forall_singleton. unfold on_way, bwt_number. rewrite Hptr. split_and!; [|lia|lia]. rewrite <-Ha. f_equal. lia.
  - destruct (is_ok_inv _ (ar_parent _ _ Hrest p Hkp)) as [r Hr]. unfold parent_ptr_of in *. rewrite Hr in *.
    destruct r as [r|]; [|done]. eexists. split; [done|]. destruct (Hok _ eq_refl) as (p' & Hp' & Hpar). exists p.
    assert (p' = p) as -> by congruence. split_and!; [done|done|]. intros Hway. apply Heq.
    apply ancestor_step in Ha. unfold on_way in Hway.
    replace (Z.to_nat (bp_number head - bp_number p)) with (S (Z.to_nat (bp_number head - bp_number p - 1))) in Hway by lia.
    congruence.
Qed.

Lemma rest_next_step c :
  ctx_ok M c -> current_known c -> exists r, get_next_step (fun _ => w) c = Ok r /\ rest_step c r.
Proof.
  intros Hc Hcur. unfold get_next_step. rewrite (ar_head _ _ Hrest). simpl.
  pose proof (rest_step_beyond c Hc Hcur) as Hbeyond. simpl in Hbeyond.
  destruct (current_block c) as [p|] eqn:Hp; [|by apply Hbeyond].
  destruct (Z.leb_spec (bp_number head) (bp_number p)); [eexists; split; [done|by exists p]|].
  destruct (Z.ltb_spec (Z.min (reorg_threshold c) (bp_number head)) (bp_number head - bp_number p)); [by apply Hbeyond|].
  rewrite (co_threshold _ _ Hc) in *. apply (rest_step_within c p); try done. lia.
Qed.

(** The stream is polled while nothing happens. *)
Definition rest_env : PollEnv World := mkPollEnv (PollReady (0%nat, fun _ => w)) (PollReady tt) PollPending.

Fixpoint poll_many (n : nat) (x : Sys) : option Sys :=
  match n with
  | O => Some x
  | S n =>
      match poll_iteration rest_env x.1 with
      | Some (IterContinue s) => poll_many n (s, x.2)
      | Some (IterBreak s item) => poll_many n (s, consume item x.2)
      | _ => None
      end
  end.

Lemma rest_env_ok : poll_env_ok rest_env.
Proof. intros i j _. apply (ar_later _ _ Hrest). Qed.

Lemma poll_many_inv n x y : stream_inv x -> poll_many n x = Some y -> stream_inv y.
Proof.
  revert x. induction n as [|n IH]; intros [s blocks] Hx; cbn [poll_many fst snd]; [by intros [= <-]|].
  pose proof (poll_iteration_inv rest_env s blocks rest_env_ok Hx) as Hok.
  destruct (poll_iteration rest_env s) as [[s'|s' item|]|]; [by apply IH|by apply IH|done|done].
Qed.

Lemma poll_many_trans n m x y z : poll_many n x = Some y -> poll_many m y = Some z -> poll_many (n + m) x = Some z.
Proof.
  revert x. induction n as [|n IH]; intros x; cbn [poll_many Nat.add]; [by intros [= <-]|].
  destruct (poll_iteration rest_env x.1) as [[s'|s' item|]|]; [by apply IH|by apply IH|done|done].
Qed.

Lemma rest_yield bs s blocks :
  stream_state s = YieldingBlocks bs ->
  exists n y, poll_many n (s, blocks) = Some y /\ stream_state y.1 = BeginReconciliation /\
    current_block (stream_ctx y.1) =
      match last bs with Some b => Some (bwt_ptr b) | None => current_block (stream_ctx s) end.
Proof.
  revert s blocks. induction bs as [|b bs IH]; intros s blocks Hs.
  - eexists 1%nat, _. cbn [poll_many fst snd]. unfold poll_iteration. rewrite Hs. by split_and!.
  - destruct (IH (mkPolling (YieldingBlocks bs) (consecutive_err_count s) (ctx_with_current (stream_ctx s) (bwt_ptr b)))
      (b :: blocks) eq_refl) as (n & y & Hy & Hst & Hcur).
    exists (S n), y. cbn [poll_many fst snd]. unfold poll_iteration at 1. rewrite Hs. split_and!; [done|done|].
    rewrite Hcur, last_cons. by destruct (last bs).
Qed.

(** A round of the stream: it is done, goes back to the parent of a block that is
    not on the way to the head, or comes to a later block on the way. *)
Definition round_ends (s : PollingBlockStream Block Trigger Filter) (y : Sys) : Prop :=
  (stream_state y.1 = Idle /\ current_block (stream_ctx y.1) = current_block (stream_ctx s) /\
   exists p, current_block (stream_ctx s) = Some p /\ (bp_number head <= bp_number p)%Z) \/
  (stream_state y.1 = BeginReconciliation /\
   exists p q, current_block (stream_ctx s) = Some p /\ cv_parent v p = Some q /\ ~ on_way p /\
     current_block (stream_ctx y.1) = Some q) \/
  (stream_state y.1 = BeginReconciliation /\
   exists q, current_block (stream_ctx y.1) = Some q /\ on_way q /\ (bp_number q <= bp_number head)%Z /\
     match current_block (stream_ctx s) with Some p => (bp_number p < bp_number q)%Z | None => True end).

Lemma rest_round s blocks :
  stream_inv (s, blocks) -> stream_state s = BeginReconciliation ->
  exists n y, poll_many n (s, blocks) = Some y /\ round_ends s y.
Proof.
  intros [Hc Hh _] Hst. simpl in Hc, Hh. pose proof (history_current_known _ _ Hh) as Hcur.
  destruct (rest_next_step (stream_ctx s) Hc Hcur) as (r & Hr & Hrs).
  destruct (get_next_step_ok (fun _ => w) (stream_ctx s) (fun _ => ar_later _ _ Hrest) Hc Hcur) as [_ Hok].
  specialize (Hok r Hr). set (s1 := mkPolling (Reconciliation (stream_ctx s)) (consecutive_err_count s) (stream_ctx s) : PollingBlockStream Block Trigger Filter).
  assert (Hs1 : poll_many 1 (s, blocks) = Some (s1, blocks)).
  { cbn [poll_many fst snd]. unfold poll_iteration. by rewrite Hst. }
  assert (Hnext : next_blocks 0 (fun _ => w) (stream_ctx s) = match r with
      | StepRevert q => Some (Ok (NextBlocksRevert q))
      | ProcessDescendantBlocks bs m => Some (Ok (NextBlocksBlocks bs m))
      | StepRetry => None
      | StepDone => Some (Ok NextBlocksDone) end).
  { cbn [next_blocks]. rewrite Hr. by destruct r. }
  destruct r as [q|bs m| |]; cbn [rest_step step_ok] in Hrs, Hok; [| |done|].
  - destruct Hrs as (p & Hp & Hpar & Hway). eexists 2%nat, _.
    split; [eapply (poll_many_trans 1 1); [done|]; cbn [poll_many fst snd]; unfold poll_iteration, s1; cbn -[next_blocks]; by rewrite Hnext|].
    right; left. split; [done|]. by exists p, q.
  - destruct Hok as (_ & Hne & _). destruct (rest_yield bs (take_blocks s1 bs m) blocks) as (n & y & Hy & Hyst & Hycur).
    { unfold take_blocks. by destruct (_ =? 1)%Z. }
    exists (1 + S n), y. split.
    + eapply poll_many_trans; [done|]. cbn [poll_many fst snd]. unfold poll_iteration, s1 at 1. cbn -[next_blocks poll_many take_blocks].
      by rewrite Hnext.
    + right; right. split; [done|]. destruct (last bs) as [b|] eqn:Hlast; [|by apply last_None in Hlast].
      exists (bwt_ptr b). split; [done|]. rewrite Forall_forall in Hrs. apply Hrs, last_Some_elem_of. done.
  - eexists 2%nat, _. split; [eapply (poll_many_trans 1 1); [done|]; cbn [poll_many fst snd]; unfold poll_iteration, s1; cbn -[next_blocks]; by rewrite Hnext|].
    left. by split_and!.
Qed.

Definition reaches_head (x : Sys) : Prop :=
  exists n y, poll_many n x = Some y /\ stream_inv y /\ stream_state y.1 = Idle /\
    current_block (stream_ctx y.1) = Some head.

Lemma reaches_head_step n x y : poll_many n x = Some y -> reaches_head y -> reaches_head x.
Proof. intros Hn (m & z & Hm & Hz). exists (n + m)%nat, z. split; [by eapply poll_many_trans|done]. Qed.

(** From a block on the way the stream only goes forward. *)
Lemma forward_reaches_head k s blocks p :
  stream_inv (s, blocks) -> stream_state s = BeginReconciliation -> current_block (stream_ctx s) = Some p ->
  on_way p -> (bp_number p <= bp_number head)%Z -> (Z.to_nat (bp_number head - bp_number p) <= k)%nat ->
  reaches_head (s, blocks).
Proof.
  revert s blocks p. induction k as [|k IH]; intros s blocks p Hinv Hst Hp Hway Hle Hk;
    destruct (rest_round s blocks Hinv Hst) as (n & [s' blocks'] & Hn & Hend);
    pose proof (poll_many_inv _ _ _ Hinv Hn) as Hinv'.
  all: destruct Hend as [(Hidle & Hcur & p' & Hp' & Hge)|[(_ & p' & q & Hp' & _ & Hno & _)|(Hb & q & Hq & Hqw & Hqle & Hlt)]];
    simpl in *; rewrite Hp in *; try (injection Hp' as <-).
  all: try (exists n, (s', blocks'); split_and!; [done|done|done|]; simpl; rewrite Hcur; unfold on_way in Hway;
            replace (bp_number head - bp_number p)%Z with 0%Z in Hway by lia; by injection Hway as ->).
  all: try done; try lia.
  eapply reaches_head_step; [done|]. apply (IH s' blocks' q); try done. lia.
Qed.

(** From any block the stream goes back until it is on the way. *)
Lemma backward_reaches_head k s blocks p :
  stream_inv (s, blocks) -> stream_state s = BeginReconciliation -> current_block (stream_ctx s) = Some p ->
  (bp_number p < bp_number head)%Z -> (Z.to_nat (bp_number p) <= k)%nat -> reaches_head (s, blocks).
Proof.
  revert s blocks p. induction k as [|k IH]; intros s blocks p Hinv Hst Hp Hlt Hk;
    destruct (rest_round s blocks Hinv Hst) as (n & [s' blocks'] & Hn & Hend);
    pose proof (poll_many_inv _ _ _ Hinv Hn) as Hinv'; (eapply reaches_head_step; [done|]).
  all: assert (Hkp : cv_known v p) by (destruct Hinv as [_ Hh _]; simpl in Hh; rewrite Hp in Hh; by eapply history_known).
  all: destruct Hend as [(_ & _ & p' & Hp' & Hge)|[(Hb & p' & q & Hp' & Hq & _ & Hcq)|(Hb & q & Hq & Hqw & Hqle & _)]];
    simpl in *; [rewrite Hp in Hp'; injection Hp' as <-; lia| |by eapply (forward_reaches_head _ s' blocks' q)].
  all: rewrite Hp in Hp'; injection Hp' as <-; pose proof (cl_known_parent _ _ L p Hkp) as Hpar; rewrite Hq in Hpar;
    destruct Hpar as [Hkq Hn1]; pose proof (cl_known_number _ _ L q Hkq).
  - lia.
  - apply (IH s' blocks' q); try done; lia.
Qed.

(** C23: when the chain has come to rest, a stream that is behind the head catches up:
    polled often enough, it reverts the blocks that are not on the way to the head,
    yields the blocks that are, and waits with the head as its current block; its
    consumer has then processed every block with triggers up to the head. *)
Theorem polling_stream_catches_up starts target max_range start blocks :
  (1 <= max_range <= M)%Z -> history start blocks ->
  match start with Some p => (bp_number p < bp_number head)%Z | None => True end ->
  exists n s blocks', poll_many n (polling_new f starts threshold max_range target start, blocks) = Some (s, blocks') /\
    stream_state s = Idle /\ current_block (stream_ctx s) = Some head /\ history (Some head) blocks'.
Proof.
  intros Hr Hh Hbehind. set (s0 := polling_new f starts threshold max_range target start).
  assert (Hinv : stream_inv (s0, blocks)) by (split; simpl; [split; simpl; [done..|lia|lia]|done|done]).
  assert (Hreach : reaches_head (s0, blocks)).
  { destruct start as [p|]; [by eapply (backward_reaches_head _ s0 blocks p)|].
    destruct (rest_round s0 blocks Hinv eq_refl) as (n & [s' blocks'] & Hn & Hend).
    pose proof (poll_many_inv _ _ _ Hinv Hn) as Hinv'. eapply reaches_head_step; [done|].
    destruct Hend as [(_ & _ & p' & Hp' & _)|[(_ & p' & q & Hp' & _)|(Hb & q & Hq & Hqw & Hqle & _)]]; [done|done|].
    by eapply (forward_reaches_head _ s' blocks' q). }
  destruct Hreach as (n & [s blocks'] & Hn & Hinv' & Hidle & Hcur). exists n, s, blocks'. split_and!; [done..|].
  destruct Hinv' as [_ Hh' _]. simpl in *. by rewrite Hcur in Hh'.
Qed.

End Rest.
End History.
End Laws.
