(* ===== verification/PollingExamples.v ===== *)
(** * A chain with a reorganisation

    A chain of six blocks, on which the block 3 is replaced while a stream follows
    it.  It meets the laws of [PollingProps.v], and the stream reverts the replaced
    block and goes on with the new ones. *)

From Stdlib Require Import Strings.Byte.
From stdpp Require Import base numbers list.
From S2P Require Import Prelude GraphqlAst Scalars RuntimeValue Values Names StoreTypes Float64.
From S2P Require Import PollingStream PollingProps.

Inductive Blk := G0 | A1 | A2 | A3 | B3 | B4.

#[export] Instance Blk_eq_dec : EqDecision Blk.
Proof. solve_decision. Defined.

Definition blks : list Blk := [G0; A1; A2; A3; B3; B4].

Definition blk_ptr (b : Blk) : BlockPtr :=
  match b with
  | G0 => mkPtr [x00] 0
  | A1 => mkPtr [x01] 1
  | A2 => mkPtr [x02] 2
  | A3 => mkPtr [x03] 3
  | B3 => mkPtr [x13] 3
  | B4 => mkPtr [x14] 4
  end.

Definition blk_parent (b : Blk) : option Blk :=
  match b with
  | G0 => None
  | A1 => Some G0
  | A2 => Some A1
  | A3 => Some A2
  | B3 => Some A2
  | B4 => Some B3
  end.

Definition blk_triggers (b : Blk) : list string :=
  match b with
  | A1 => ["transfer"]
  | A3 => ["transfer"; "mint"]
  | B3 => ["mint"]
  | _ => []
  end.

Definition find_blk (p : BlockPtr) : option Blk := List.find (fun b => bool_decide (blk_ptr b = p)) blks.

Definition blk_bwt (b : Blk) : BlockWithTriggers Blk string := mkBwt b (blk_triggers b).

(** The world before and after the reorganisation *)
Definition world_head (w : bool) : Blk := if w then B4 else A3.
Definition world_main (w : bool) : list Blk := if w then [G0; A1; A2; B3; B4] else [G0; A1; A2; A3].

Definition example_view : ChainView bool string () := mkView bool string ()
  (fun p => find_blk p ≫= fun b => blk_ptr <$> blk_parent b)
  (fun p => exists b, p = blk_ptr b)
  (blk_ptr G0)
  (fun _ p => match find_blk p with Some b => blk_triggers b | None => [] end)
  (fun n => if (n <? 0)%Z then None else blk_ptr <$> [G0; A1; A2; B3] !! Z.to_nat n)
  (fun w w' => w = true -> w' = true).

#[export] Instance example_adapter : TriggersAdapter bool Blk string () string := {|
  block_ptr_of := blk_ptr;
  block_parent_ptr b := blk_ptr <$> blk_parent b;
  chain_head_ptr w := Ok (Some (blk_ptr (world_head w)));
  ancestor_block w p k := Ok (ancestor (cv_parent example_view) (Z.to_nat k) p ≫= find_blk);
  scan_triggers w from to _ :=
    Ok (map blk_bwt (List.filter (fun b => (from <=? bp_number (blk_ptr b))%Z && (bp_number (blk_ptr b) <=? to)%Z)
                       [G0; A1; A2; B3]));
  triggers_in_block w b _ := Ok (blk_bwt b);
  is_on_main_chain w p := Ok (bool_decide (p ∈ map blk_ptr (world_main w)));
  adapter_parent_ptr w p := Ok (cv_parent example_view p)
|}.

Lemma find_blk_ptr b : find_blk (blk_ptr b) = Some b.
Proof. by destruct b. Qed.

Lemma find_blk_Some p b : find_blk p = Some b -> p = blk_ptr b.
Proof. intros H. apply find_some in H as [_ H]. by apply bool_decide_eq_true in H. Qed.

Lemma example_permanent n p :
  cv_permanent example_view n = Some p ->
  (n = 0%Z /\ p = blk_ptr G0) \/ (n = 1%Z /\ p = blk_ptr A1) \/ (n = 2%Z /\ p = blk_ptr A2) \/ (n = 3%Z /\ p = blk_ptr B3).
Proof.
  simpl. destruct (Z.ltb_spec n 0) as [|Hn]; [done|]. intros H.
  destruct (decide (n = 0 \/ n = 1 \/ n = 2 \/ n = 3)%Z) as [[->|[->|[->| ->]]]|Hne]; simpl in H;
    try (injection H as <-; by auto 10).
  rewrite lookup_ge_None_2 in H; [done|]. simpl. lia.
Qed.

Lemma example_limit (w : bool) h : chain_head_ptr w = Ok (Some h) -> permanent_limit 1 h = (if w then 3 else 2)%Z.
Proof. by intros [= <-]; destruct w. Qed.

(** The scan of the permanent blocks *)
Lemma example_scan (w : bool) from to bs :
  (0 <= from <= to)%Z -> (to <= 3)%Z -> scan_triggers w from to () = Ok bs -> scan_result example_view () from to bs.
Proof.
  intros Hf Ht H. injection H as <-.
  assert (Hcases : (from = 0 \/ from = 1 \/ from = 2 \/ from = 3)%Z /\ (to = 0 \/ to = 1 \/ to = 2 \/ to = 3)%Z) by lia.
  destruct Hcases as [[->|[->|[->| ->]]] [->|[->|[->| ->]]]]; try lia; clear.
  all: split; simpl.
  all: try done.
  all: try (repeat constructor; done).
  all: try (intros b Hb; repeat (apply elem_of_cons in Hb as [->|Hb]; [done|]); by apply elem_of_nil in Hb).
  all: intros n p Hn Hp Hm; apply example_permanent in Hp as [[-> ->]|[[-> ->]|[[-> ->]|[-> ->]]]]; try lia; try done.
  all: try (by destruct Hm).
  all: first [exists (blk_bwt A1); split; [|done]; apply list_elem_of_In; simpl; tauto
             |exists (blk_bwt B3); split; [|done]; apply list_elem_of_In; simpl; tauto].
Qed.

Lemma example_laws : chain_laws example_view 1.
Proof.
  split.
  - done.
  - intros p [[] ->]; done.
  - intros p [b ->]. simpl. rewrite find_blk_ptr. destruct b; [done|..]; (split; [|done]);
      [exists G0|exists A1|exists A2|exists A2|exists B3]; done.
  - intros p [[] ->]; done.
  - intros n p H. apply example_permanent in H as [[-> ->]|[[-> ->]|[[-> ->]|[-> ->]]]]; (split; [by eexists|done]).
  - intros n p Hn H. apply example_permanent in H as [[H ->]|[[H ->]|[[H ->]|[H ->]]]]; [lia|..];
      [assert (n = 0%Z) as -> by lia|assert (n = 1%Z) as -> by lia|assert (n = 2%Z) as -> by lia]; done.
  - intros w. split; [done|]. intros h [= <-]. by eexists.
  - intros w h n Hh Hn. rewrite (example_limit w h Hh) in Hn.
    assert (n = 0 \/ n = 1 \/ n = 2 \/ n = 3)%Z as [->|[->|[->| ->]]] by (destruct w; lia); by eexists.
  - intros w w' h p Hh Hlater Hp Hk. rewrite (example_limit w h Hh) in Hp. split; [done|].
    intros b [= <-]. rewrite bool_decide_eq_true. destruct Hk as [b ->].
    destruct w; [rewrite (Hlater eq_refl); destruct b|destruct w', b]; simpl in Hp |- *; try lia.
    all: split; intros H; try done; try (apply list_elem_of_In; simpl; tauto).
    all: apply list_elem_of_In in H; simpl in H; naive_solver.
  - intros w w' h from to [] Hh Hlater Hf Ht. rewrite (example_limit w h Hh) in Ht. split; [done|].
    intros bs Hbs. apply (example_scan w'); [done| |done]. destruct w; lia.
  - intros w h k Hk Hr. split; [done|]. intros b Hb. injection Hb as Hb.
    destruct (ancestor _ _ h) as [q|]; [|done]. simpl in Hb. apply find_blk_Some in Hb as ->.
    split; [done|]. simpl. by rewrite find_blk_ptr.
  - intros w b []. split; [done|]. intros b' [= <-]. split; [done|]. simpl. by rewrite find_blk_ptr.
  - intros w p _. split; [done|]. by intros q [= <-].
Qed.

(** ** A run *)

(** Every future is ready in world [w]; the head of the chain has been updated or not. *)
Definition example_env (w updated : bool) : PollEnv bool :=
  mkPollEnv (PollReady (0%nat, fun _ => w)) (PollReady tt) (if updated then PollReady (Some tt) else PollPending).

Fixpoint example_run (envs : list (PollEnv bool)) (x : PollingBlockStream Blk string () * list (BlockWithTriggers Blk string))
    : option (PollingBlockStream Blk string () * list (BlockWithTriggers Blk string)) :=
  match envs with
  | [] => Some x
  | env :: envs =>
      match poll_iteration env x.1 with
      | Some (IterContinue s) => example_run envs (s, x.2)
      | Some (IterBreak s item) => example_run envs (s, consume item x.2)
      | _ => None
      end
  end.

Lemma example_run_steps envs x y :
  Forall (poll_env_ok example_view) envs -> example_run envs x = Some y -> rtc (stream_step example_view) x y.
Proof.
  intros H. revert x. induction H as [|env envs Henv _ IH]; intros [s bs]; cbn [example_run fst snd]; [by intros [= <-]|].
  destruct (poll_iteration env s) as [[s'|s' item|]|] eqn:Hp; [| |done|done]; intros Hrun; (eapply rtc_l; [|by apply IH]).
  - by eapply stream_continues.
  - by eapply stream_breaks.
Qed.

Lemma polling_env_ok w updated : poll_env_ok example_view (example_env w updated).
Proof. intros i j _. exact (fun H => H). Qed.

Definition example_stream : PollingBlockStream Blk string () := polling_new () [2%Z] 1 100 10 None.

(** First the stream follows the chain to block 3, then the block is replaced. *)
Definition example_envs : list (PollEnv bool) :=
  replicate 16 (example_env false false) ++ example_env true true :: replicate 16 (example_env true false).

Definition example_after (envs : list (PollEnv bool)) : option (option BlockPtr * list Blk) :=
  (fun x => (current_block (stream_ctx x.1), map bwt_block x.2)) <$> example_run envs (example_stream, []).

Lemma example_bound p : cv_known example_view p -> (bp_number p + 100 <= i32_max)%Z.
Proof. intros [[] ->]; unfold i32_max; simpl; lia. Qed.

(** Before the reorganisation block 3 is the one with two triggers; afterwards it has
    been reverted, and the new blocks 3 and 4 have been processed. *)
Lemma polling_stream_complete_witness :
  example_after (replicate 16 (example_env false false)) = Some (Some (blk_ptr A3), [A3; A2; A1; G0]) /\
  example_after example_envs = Some (Some (blk_ptr B4), [B4; B3; A2; A1; G0]) /\
  exists s blocks, example_run example_envs (example_stream, []) = Some (s, blocks) /\
    history example_view () 0 (current_block (stream_ctx s)) blocks.
Proof.
  split; [vm_compute; reflexivity|]. split; [vm_compute; reflexivity|].
  destruct (example_run example_envs (example_stream, [])) as [[s blocks]|] eqn:Hrun;
    [|vm_compute in Hrun; discriminate Hrun].
  exists s, blocks. split; [reflexivity|].
  refine (proj1 (polling_stream_complete example_view 1 example_laws () 0 100 _ example_bound [2%Z] 10 100 None [] s blocks _ _ _)).
  - unfold i32_max. lia.
  - lia.
  - constructor.
  - apply (example_run_steps example_envs); [|exact Hrun].
    apply Forall_app. split; [|apply Forall_cons; split]; try apply Forall_replicate; apply polling_env_ok.
Defined.

Lemma polling_stream_ranges_witness :
  scan_to (stream_ctx example_stream) 4 1 0 = 0%Z /\
  (0 <= scan_to (stream_ctx example_stream) 4 1 0)%Z.
Proof.
  split; [vm_compute; reflexivity|].
  refine (proj1 (polling_stream_ranges example_view 1 example_laws () 0 100 _ example_bound [2%Z] 10 100 None []
    example_stream [] (blk_ptr B4) _ _ _ _ _)).
  - unfold i32_max. lia.
  - lia.
  - constructor.
  - apply rtc_refl.
  - by exists B4.
  - vm_compute. discriminate.
Defined.

Lemma example_at_rest : at_rest example_view 1 () true (blk_ptr B4).
Proof.
  split; try done.
  - intros n Hn. unfold permanent_limit in Hn. simpl in Hn.
    assert (n = 0 \/ n = 1 \/ n = 2 \/ n = 3)%Z as [->|[->|[->| ->]]] by lia; reflexivity.
  - intros k Hk _. assert (k = 0%Z) as -> by lia. by exists B4.
Qed.

Lemma example_history : history example_view () 0 (Some (blk_ptr A3)) [blk_bwt A3; blk_bwt A1].
Proof.
  refine (history_block example_view () 0 (blk_bwt A3) _ _ _ _); [by exists A3|reflexivity|].
  refine (history_skip example_view () 0 (blk_ptr A2) _ _ _ _); [by exists A2|by right|].
  refine (history_block example_view () 0 (blk_bwt A1) _ _ _ _); [by exists A1|reflexivity|].
  refine (history_skip example_view () 0 (blk_ptr G0) _ _ _ _); [by exists G0|by right|]. constructor.
Qed.

Lemma polling_stream_catches_up_witness :
  exists n s blocks, poll_many true n (polling_new () [] 1 100 10 (Some (blk_ptr A3)), [blk_bwt A3; blk_bwt A1]) = Some (s, blocks) /\
    stream_state s = Idle /\ current_block (stream_ctx s) = Some (blk_ptr B4) /\ history example_view () 0 (Some (blk_ptr B4)) blocks.
Proof.
  apply (polling_stream_catches_up example_view 1 example_laws () 0 100).
  - unfold i32_max. lia.
  - exact example_bound.
  - exact example_at_rest.
  - lia.
  - exact example_history.
  - reflexivity.
Defined.
