(* ===== verification/ChainStore.v ===== *)
(** * The chain store

    [ChainStore] of [store/postgres/src/chain_store.rs]: the blocks that are kept of
    a chain, its head, and cached calls of contracts, with the cache of
    [graph/src/util/timed_cache.rs] for the head.

    Blocks are rows with their hash as the primary key; a chain has a table of its
    own ([Private]) or shares one with other chains ([Shared], where rows have the name
    of the network).  Queries are functions on the rows.  The recursive queries take
    fuel, and are [None] when it does not suffice.  The content of blocks (JSON) and
    the hash function for calls are parameters. *)

From Stdlib Require Import Strings.Byte.
From stdpp Require Import base numbers list gmap countable strings.
From S2P Require Import Prelude GraphqlAst Scalars RuntimeValue Values Names StoreTypes.

#[export] Instance byte_countable : Countable byte.
Proof.
  refine {| encode b := encode (Byte.to_N b); decode p := decode p ≫= Byte.of_N |}.
  intros b. rewrite decode_encode. apply Byte.of_to_N.
Defined.

(** ** A cache that keeps entries for some time *)

Section TimedCache.
Context {K V : Type} `{Countable K}.

Record TimedCacheEntry := mkTimedCacheEntry { entry_value : V; entry_expires : Z }.

Record TimedCache := mkTimedCache { cache_ttl : Z; cache_entries : gmap K TimedCacheEntry }.

Definition timed_cache_new (ttl : Z) : TimedCache := mkTimedCache ttl ∅.

Definition timed_cache_get_at (c : TimedCache) (key : K) (now : Z) : option V :=
  match cache_entries c !! key with
  | Some e => if (now <=? entry_expires e)%Z then Some (entry_value e) else None
  | None => None
  end.

Definition timed_cache_set_at (c : TimedCache) (key : K) (value : V) (now : Z) : TimedCache :=
  mkTimedCache (cache_ttl c) (<[key := mkTimedCacheEntry value (now + cache_ttl c)%Z]> (cache_entries c)).

Definition timed_cache_clear (c : TimedCache) : TimedCache := mkTimedCache (cache_ttl c) ∅.

Definition timed_cache_find (c : TimedCache) (pred : V -> bool) : option V :=
  entry_value <$> List.find (fun e => pred (entry_value e)) (map snd (map_to_list (cache_entries c))).

End TimedCache.
Arguments TimedCacheEntry : clear implicits.
Arguments TimedCache K V {_ _}.

(** ** Tables *)

Inductive Storage := Shared | Private.

(** [json_has_block] is whether an object has a field [block], and [json_wrap_block]
    makes an object with the value in this field. *)
Class BlockJson (Json : Type) := {
  json_has_block : Json -> bool;
  json_wrap_block : Json -> Json;
  json_block : Json -> Json
}.

(** The trait [Block]; [cb_data] is [None] when the block can not be serialized. *)
Class ChainBlock (Block Json : Type) := {
  cb_ptr : Block -> BlockPtr;
  cb_parent_ptr : Block -> option BlockPtr;
  cb_data : Block -> option Json
}.

Record BlockRow (Json : Type) := mkBlockRow {
  br_number : Z;
  br_parent_hash : option Bytes;
  br_network : string;
  br_data : Json
}.
Arguments mkBlockRow {Json}.
Arguments br_number {Json}.
Arguments br_parent_hash {Json}.
Arguments br_network {Json}.
Arguments br_data {Json}.

(** A row of [ethereum_networks] *)
Record NetworkRow := mkNetwork {
  nw_head_block_hash : option Bytes;
  nw_head_block_number : option Z;
  nw_head_block_cursor : option string;
  nw_net_version : string;
  nw_genesis_block_hash : Bytes
}.

Record CallRow := mkCall { call_return_value : Bytes; call_contract : Bytes; call_block_number : Z }.

Record ChainDb (Json : Type) := mkChainDb {
  cd_blocks : gmap Bytes (BlockRow Json);
  cd_networks : gmap string NetworkRow;
  cd_calls : gmap Bytes CallRow;
  cd_call_meta : gmap Bytes Z
}.
Arguments mkChainDb {Json}.
Arguments cd_blocks {Json}.
Arguments cd_networks {Json}.
Arguments cd_calls {Json}.
Arguments cd_call_meta {Json}.

Record ChainStoreData := mkChainStore {
  cs_chain : string;
  cs_storage : Storage;
  cs_genesis_block_ptr : BlockPtr
}.

Inductive ChainError :=
| RowNotFound
| InvalidHash (bytes : Bytes)
| NullHash
| NumberOutOfRange (n : Z)
| BeforeGenesis (offset : BlockNumber) (hash : Bytes)
| SendFailed.

Definition H256_len : nat := 32.

(** [H256::from_slice] panics when the length is wrong. *)
Definition hash_as_h256 {E} (hash : Bytes) : result E Bytes :=
  assert! bool_decide (length hash = H256_len) ;; Ok hash.

Definition h256_from_bytes (bytes : Bytes) : result ChainError Bytes :=
  if bool_decide (length bytes = H256_len) then Ok bytes else Err (InvalidHash bytes).

(** [BlockPtr::from((H256, i64))] *)
Definition ptr_from_i64 {E} (hash : Bytes) (number : Z) : result E BlockPtr :=
  assert! (0 <=? number)%Z && (number <=? i32_max)%Z ;; Ok (mkPtr hash number).

Section ChainStore.
Context {Json Block : Type} `{BJ : BlockJson Json} `{CB : ChainBlock Block Json}.
Local Abbreviation Db := (ChainDb Json).
Local Abbreviation Row := (BlockRow Json).

Definition with_blocks (db : Db) (blocks : gmap Bytes Row) : Db :=
  mkChainDb blocks (cd_networks db) (cd_calls db) (cd_call_meta db).
Definition with_networks (db : Db) (networks : gmap string NetworkRow) : Db :=
  mkChainDb (cd_blocks db) networks (cd_calls db) (cd_call_meta db).

(** Rows that the queries for a chain look at *)
Definition of_chain (storage : Storage) (chain : string) (r : Row) : bool :=
  match storage with Shared => bool_decide (br_network r = chain) | Private => true end.

Definition lookup_block (storage : Storage) (chain : string) (db : Db) (hash : Bytes) : option Row :=
  match cd_blocks db !! hash with
  | Some r => if of_chain storage chain r then Some r else None
  | None => None
  end.

Definition NO_PARENT : Bytes := replicate H256_len x00.

Definition storage_upsert_block (db : Db) (chain : string) (block : Block) (overwrite : bool) : result ChainError Db :=
  let? data := expect (cb_data block) in
  let hash := bp_hash (cb_ptr block) in
  let parent_hash := match cb_parent_ptr block with Some p => bp_hash p | None => NO_PARENT end in
  let row := mkBlockRow (bp_number (cb_ptr block)) (Some parent_hash) chain data in
  match cd_blocks db !! hash, overwrite with
  | Some _, false => Ok db
  | _, _ => Ok (with_blocks db (<[hash := row]> (cd_blocks db)))
  end.

Definition storage_blocks (storage : Storage) (db : Db) (chain : string) (hashes : list Bytes) : list Json :=
  map (fun hr => if json_has_block (br_data hr.2) then json_block (br_data hr.2) else br_data hr.2)
    (List.filter (fun hr => of_chain storage chain hr.2 && bool_decide (hr.1 ∈ hashes)) (map_to_list (cd_blocks db))).

Definition storage_block_hashes_by_block_number (storage : Storage) (db : Db) (chain : string) (number : BlockNumber)
    : result ChainError (list Bytes) :=
  try_map (fun hr => h256_from_bytes hr.1)
    (List.filter (fun hr => of_chain storage chain hr.2 && (br_number hr.2 =? number)%Z) (map_to_list (cd_blocks db))).

(** The number of deleted rows, and the rows that are left *)
Definition storage_confirm_block_hash (storage : Storage) (db : Db) (chain : string) (number : BlockNumber)
    (hash : Bytes) : nat * Db :=
  let keep (hr : Bytes * Row) :=
    negb (of_chain storage chain hr.2 && (br_number hr.2 =? number)%Z && negb (bool_decide (hr.1 = hash))) in
  let blocks := filter (fun hr => keep hr = true) (cd_blocks db) in
  (size (cd_blocks db) - size blocks, with_blocks db blocks)%nat.

Definition storage_block_number (db : Db) (hash : Bytes) : result ChainError (option BlockNumber) :=
  match cd_blocks db !! hash with
  | None => Ok None
  | Some r => if (i32_min <=? br_number r)%Z && (br_number r <=? i32_max)%Z
              then Ok (Some (br_number r)) else Err (NumberOutOfRange (br_number r))
  end.

(** A row of the recursive query [chain]: hash, parent hash and whether it is the last *)
Definition ChainRow := (option Bytes * option Bytes * bool)%type.

(** The row that follows [row] *)
Definition missing_parent_step (storage : Storage) (chain : string) (first_block : Z) (genesis : Bytes) (db : Db)
    (parent_hash : option Bytes) : ChainRow :=
  match parent_hash ≫= fun h => (fun r => (h, r)) <$> lookup_block storage chain db h with
  | None => (parent_hash, None, true)
  | Some (h, b) =>
      (parent_hash, br_parent_hash b,
       bool_decide (br_parent_hash b = None) || (br_number b <=? first_block)%Z || bool_decide (h = genesis))
  end.

(** The rows from [row] on *)
Fixpoint missing_parent_rows (fuel : nat) (storage : Storage) (chain : string) (first_block : Z) (genesis : Bytes)
    (db : Db) (row : ChainRow) : option (list ChainRow) :=
  if row.2 then Some [row] else
  match fuel with
  | O => None
  | S fuel =>
      cons row <$> missing_parent_rows fuel storage chain first_block genesis db
                     (missing_parent_step storage chain first_block genesis db row.1.2)
  end.

Definition storage_missing_parent (fuel : nat) (storage : Storage) (chain : string) (first_block : Z)
    (hash genesis : Bytes) (db : Db) : option (result ChainError (option Bytes)) :=
  let rows :=
    match lookup_block storage chain db hash with
    | Some b =>
        if bool_decide (hash = genesis) then Some []
        else missing_parent_rows fuel storage chain first_block genesis db (Some hash, br_parent_hash b, false)
    | None => Some []
    end in
  match rows with
  | None => None
  | Some rows =>
      match List.filter (fun r : ChainRow => bool_decide (r.1.2 = None)) rows with
      | [] => Some (Ok None)
      | [(Some h, _, _)] => Some (let? h := h256_from_bytes h in Ok (Some h))
      | [(None, _, _)] => Some (Err NullHash)
      | _ => Some Panic
      end
  end.

(** Order of [chain_head_candidate]: the highest number, then the smallest hash *)
Fixpoint bytes_ltb (a b : Bytes) : bool :=
  match a, b with
  | [], [] => false
  | [], _ => true
  | _, [] => false
  | x :: a, y :: b =>
      if (byte_val x <? byte_val y)%Z then true
      else if (byte_val y <? byte_val x)%Z then false
      else bytes_ltb a b
  end.

Definition better_candidate (x y : Bytes * Row) : bool :=
  (br_number y.2 <? br_number x.2)%Z || ((br_number x.2 =? br_number y.2)%Z && bytes_ltb x.1 y.1).

Fixpoint first_row (l : list (Bytes * Row)) : option (Bytes * Row) :=
  match l with
  | [] => None
  | x :: l =>
      match first_row l with
      | Some y => Some (if better_candidate y x then y else x)
      | None => Some x
      end
  end.

Definition storage_chain_head_candidate (storage : Storage) (chain : string) (db : Db)
    : result ChainError (option BlockPtr) :=
  match cd_networks db !! chain with
  | None => Err RowNotFound
  | Some n =>
      let head := default (-1)%Z (nw_head_block_number n) in
      match first_row (List.filter (fun hr => of_chain storage chain hr.2 && (head <? br_number hr.2)%Z)
                         (map_to_list (cd_blocks db))) with
      | None => Ok None
      | Some (hash, r) =>
          let? hash := h256_from_bytes hash in
          let? ptr := ptr_from_i64 hash (br_number r) in
          Ok (Some ptr)
      end
  end.

(** The hash that is [offset] blocks before the block with hash [hash]; the query
    does not look at the network of a row. *)
Fixpoint ancestor_hash (db : Db) (hash : option Bytes) (offset : nat) : option (option Bytes) :=
  match offset with
  | O => Some hash
  | S offset =>
      match hash ≫= fun h => cd_blocks db !! h with
      | Some b => ancestor_hash db (br_parent_hash b) offset
      | None => None
      end
  end.

Definition storage_ancestor_block (db : Db) (block_ptr : BlockPtr) (offset : BlockNumber)
    : result ChainError (option Json) :=
  let? data :=
    (* offsets of rows start at 0 *)
    match (if (offset <? 0)%Z then None else ancestor_hash db (Some (bp_hash block_ptr)) (Z.to_nat offset)) with
    | None => Ok None
    | Some None => Err NullHash
    | Some (Some h) =>
        match cd_blocks db !! h with
        | Some b => Ok (Some (br_data b))
        | None => Err RowNotFound
        end
    end in
  Ok ((fun data => if json_has_block data then data else json_wrap_block data) <$> data).

Definition storage_delete_blocks_before (storage : Storage) (chain : string) (block : Z) (db : Db) : nat * Db :=
  let keep (hr : Bytes * Row) :=
    negb (of_chain storage chain hr.2 && (br_number hr.2 <? block)%Z && (0 <? br_number hr.2)%Z) in
  let blocks := filter (fun hr => keep hr = true) (cd_blocks db) in
  (size (cd_blocks db) - size blocks, with_blocks db blocks)%nat.

Definition storage_truncate_block_cache (db : Db) : Db := with_blocks db ∅.

(** ** The store *)

(** [ChainStore::create]; the tables of a private schema are made empty elsewhere. *)
Definition cs_create (cs : ChainStoreData) (net_version : string) (genesis_block_hash : Bytes) (db : Db) : Db :=
  match cd_networks db !! cs_chain cs with
  | Some _ => db
  | None => with_networks db (<[cs_chain cs := mkNetwork None None None net_version genesis_block_hash]> (cd_networks db))
  end.

Definition cs_drop_chain (cs : ChainStoreData) (db : Db) : Db :=
  let blocks := filter (fun hr : Bytes * Row => of_chain (cs_storage cs) (cs_chain cs) hr.2 = false) (cd_blocks db) in
  mkChainDb blocks (delete (cs_chain cs) (cd_networks db))
    (match cs_storage cs with Shared => cd_calls db | Private => ∅ end)
    (match cs_storage cs with Shared => cd_call_meta db | Private => ∅ end).

Definition cs_chain_head_block (chain : string) (db : Db) : result ChainError (option BlockNumber) :=
  match cd_networks db !! chain ≫= nw_head_block_number with
  | None => Ok None
  | Some n => if (i32_min <=? n)%Z && (n <=? i32_max)%Z then Ok (Some n) else Err (NumberOutOfRange n)
  end.

Definition cs_upsert_block (cs : ChainStoreData) (block : Block) (db : Db) : result ChainError Db :=
  storage_upsert_block db (cs_chain cs) block true.

Definition cs_upsert_light_blocks (cs : ChainStoreData) (blocks : list Block) (db : Db) : result ChainError Db :=
  try_fold (fun db block => storage_upsert_block db (cs_chain cs) block false) db blocks.

Definition set_head (chain : string) (hash : Bytes) (number : Z) (db : Db) : Db :=
  match cd_networks db !! chain with
  | Some n =>
      with_networks db (<[chain := mkNetwork (Some hash) (Some number) (nw_head_block_cursor n) (nw_net_version n)
                                     (nw_genesis_block_hash n)]> (cd_networks db))
  | None => db
  end.

Definition i32_saturating_sub (a b : Z) : Z := Z.max i32_min (Z.min i32_max (a - b)).

(** [sent] is whether the notification could be sent. *)
Definition cs_attempt_chain_head_update (fuel : nat) (cs : ChainStoreData) (ancestor_count : BlockNumber) (sent : bool)
    (db : Db) : option (result ChainError (option Bytes) * Db) :=
  match storage_chain_head_candidate (cs_storage cs) (cs_chain cs) db with
  | Panic => Some (Panic, db)
  | Err e => Some (Err e, db)
  | Ok None => Some (Ok None, db)
  | Ok (Some ptr) =>
      let first_block := Z.max 0 (i32_saturating_sub (bp_number ptr) ancestor_count) in
      match (let? hash := hash_as_h256 (E:=ChainError) (bp_hash ptr) in
             let? genesis := hash_as_h256 (bp_hash (cs_genesis_block_ptr cs)) in
             Ok (hash, genesis)) with
      | Panic => Some (Panic, db)
      | Err e => Some (Err e, db)
      | Ok (hash, genesis) =>
          match storage_missing_parent fuel (cs_storage cs) (cs_chain cs) first_block hash genesis db with
          | None => None
          | Some Panic => Some (Panic, db)
          | Some (Err e) => Some (Err e, db)
          | Some (Ok (Some missing)) => Some (Ok (Some missing), db)
          | Some (Ok None) =>
              Some (if sent then Ok None else Err SendFailed, set_head (cs_chain cs) (bp_hash ptr) (bp_number ptr) db)
          end
      end
  end.

Definition cs_chain_head_ptr (cs : ChainStoreData) (db : Db) (now : Z) (cache : TimedCache string BlockPtr)
    : result ChainError (option BlockPtr) * TimedCache string BlockPtr :=
  match cd_networks db !! cs_chain cs with
  | None => (Ok None, cache)
  | Some n =>
      match nw_head_block_hash n, nw_head_block_number n with
      | Some hash, Some number =>
          match (let? hash := hash_as_h256 (E:=ChainError) hash in ptr_from_i64 hash number) with
          | Ok head => (Ok (Some head), timed_cache_set_at cache "head" head now)
          | Err e => (Err e, cache)
          | Panic => (Panic, cache)
          end
      | None, None => (Ok None, cache)
      | _, _ => (Panic, cache)
      end
  end.

Definition cs_cached_head_ptr (cs : ChainStoreData) (db : Db) (now : Z) (cache : TimedCache string BlockPtr)
    : result ChainError (option BlockPtr) * TimedCache string BlockPtr :=
  match timed_cache_get_at cache "head" now with
  | Some head => (Ok (Some head), cache)
  | None => cs_chain_head_ptr cs db now cache
  end.

Definition cs_chain_head_cursor (cs : ChainStoreData) (db : Db) : option string :=
  cd_networks db !! cs_chain cs ≫= nw_head_block_cursor.

Definition cs_set_chain_head (cs : ChainStoreData) (block : Block) (cursor : string) (db : Db) : result ChainError Db :=
  let? db := storage_upsert_block db (cs_chain cs) block true in
  Ok match cd_networks db !! cs_chain cs with
     | Some n =>
         with_networks db
           (<[cs_chain cs := mkNetwork (Some (bp_hash (cb_ptr block))) (Some (bp_number (cb_ptr block))) (Some cursor)
                               (nw_net_version n) (nw_genesis_block_hash n)]> (cd_networks db))
     | None => db
     end.

Definition cs_ancestor_block (cs : ChainStoreData) (block_ptr : BlockPtr) (offset : BlockNumber) (db : Db)
    : result ChainError (option Json) :=
  if (offset <=? bp_number block_ptr)%Z then storage_ancestor_block db block_ptr offset
  else Err (BeforeGenesis offset (bp_hash block_ptr)).

(** SQL's [least] and [min] ignore nulls. *)
Definition sql_least (a b : option Z) : option Z :=
  match a, b with
  | Some a, Some b => Some (Z.min a b)
  | Some a, None => Some a
  | None, b => b
  end.

(** [deployments] are the numbers of the latest blocks of the deployments for this
    chain that are assigned and have not failed. *)
Definition cs_cleanup_cached_blocks (cs : ChainStoreData) (deployments : list (option Z)) (ancestor_count : BlockNumber)
    (db : Db) : option (BlockNumber * nat) * Db :=
  let head := (fun n => (n - ancestor_count)%Z) <$> (cd_networks db !! cs_chain cs ≫= nw_head_block_number) in
  let block := default (-1)%Z (sql_least (foldl sql_least None deployments) head) in
  if (0 <? block)%Z then
    let (rows, db) := storage_delete_blocks_before (cs_storage cs) (cs_chain cs) block db in
    (Some (block, rows), db)
  else (None, db).

(** ** Calls of contracts *)

(** The hash over the call, the contract and the hash of the block *)
Variable blake3 : Bytes -> Bytes.

Definition contract_call_id (contract_address encoded_call : Bytes) (block : BlockPtr) : Bytes :=
  blake3 (encoded_call ++ contract_address ++ bp_hash block).

(** The join of the call with the row for its contract; [today] is the current date. *)
Definition storage_get_call_and_access (today : Z) (id : Bytes) (db : Db) : option (Bytes * bool) :=
  match cd_calls db !! id with
  | Some c =>
      match cd_call_meta db !! call_contract c with
      | Some accessed_at => Some (call_return_value c, (accessed_at <? today)%Z)
      | None => None
      end
  | None => None
  end.

Definition with_meta (db : Db) (meta : gmap Bytes Z) : Db :=
  mkChainDb (cd_blocks db) (cd_networks db) (cd_calls db) meta.

Definition storage_update_accessed_at (today : Z) (contract_address : Bytes) (db : Db) : Db :=
  match cd_call_meta db !! contract_address with
  | Some _ => with_meta db (<[contract_address := today]> (cd_call_meta db))
  | None => db
  end.

Definition storage_set_call (storage : Storage) (today : Z) (id contract_address : Bytes) (block_number : Z)
    (return_value : Bytes) (db : Db) : Db :=
  let calls :=
    match cd_calls db !! id with
    | Some _ => cd_calls db
    | None => <[id := mkCall return_value contract_address block_number]> (cd_calls db)
    end in
  let db := mkChainDb (cd_blocks db) (cd_networks db) calls (cd_call_meta db) in
  let update_meta := match cd_call_meta db !! contract_address with Some d => (d <? today)%Z | None => true end in
  if update_meta then
    match cd_call_meta db !! contract_address, storage with
    | Some _, Private =>
        (* [excluded] is the row to insert, with the current date *)
        let excluded := today in
        if (excluded <? today)%Z then with_meta db (<[contract_address := today]> (cd_call_meta db)) else db
    | _, _ => with_meta db (<[contract_address := today]> (cd_call_meta db))
    end
  else db.

Definition cs_get_call (today : Z) (contract_address encoded_call : Bytes) (block : BlockPtr) (db : Db)
    : option Bytes * Db :=
  match storage_get_call_and_access today (contract_call_id contract_address encoded_call block) db with
  | Some (return_value, update_accessed_at) =>
      (Some return_value, if update_accessed_at then storage_update_accessed_at today contract_address db else db)
  | None => (None, db)
  end.

Definition cs_set_call (cs : ChainStoreData) (today : Z) (contract_address encoded_call : Bytes) (block : BlockPtr)
    (return_value : Bytes) (db : Db) : Db :=
  storage_set_call (cs_storage cs) today (contract_call_id contract_address encoded_call block) contract_address
    (bp_number block) return_value db.

End ChainStore.
