(* ===== verification/ChainStoreProps.v ===== *)
(** * The head of the chain store has its ancestors

    The recursive query for a missing parent is a walk along the parents of a block
    that ends.  A new head is set only when the block and its last ancestors are
    stored, and no operation of the block ingestor takes one of them away: the block
    that the stream asks for within the reorg threshold is always found. *)

From Stdlib Require Import Strings.Byte.
From stdpp Require Import base numbers list gmap countable strings.
From S2P Require Import Prelude GraphqlAst Scalars RuntimeValue Values Names StoreTypes ChainStore.

Section Props.
Context {Json Block : Type} `{BJ : BlockJson Json} `{CB : ChainBlock Block Json}.
Local Abbreviation Db := (ChainDb Json).
Local Abbreviation Row := (BlockRow Json).

Context (cs : ChainStoreData).
Local Abbreviation genesis := (bp_hash (cs_genesis_block_ptr cs)).
Local Abbreviation stored db h := (lookup_block (cs_storage cs) (cs_chain cs) db h).

(** A row for a block of this chain *)
Record row_ok (h : Bytes) (r : Row) : Prop := {
  ro_hash : length h = H256_len;
  ro_parent : exists p, br_parent_hash r = Some p /\ length p = H256_len;
  ro_number : (0 <= br_number r <= i32_max)%Z;
  ro_genesis : h = genesis <-> br_number r = 0%Z
}.

(** The table has rows of blocks, and parents have the number before. *)
Record table_ok (db : Db) : Prop := {
  to_genesis : length genesis = H256_len;
  to_row h r : stored db h = Some r -> row_ok h r;
  to_link h r p r' : stored db h = Some r -> br_parent_hash r = Some p -> stored db p = Some r' -> h <> genesis ->
    br_number r = (br_number r' + 1)%Z
}.

Lemma stored_lookup (db : Db) h r : stored db h = Some r -> cd_blocks db !! h = Some r.
Proof. unfold lookup_block. destruct (cd_blocks db !! h) as [r'|]; [|done]. by destruct (of_chain _ _ _). Qed.

(** ** Walking along the parents *)

(** The first block that is missing, starting with [p], down to the number [first] *)
Fixpoint walk (fuel : nat) (first : Z) (db : Db) (p : Bytes) : option (option Bytes) :=
  match stored db p with
  | None => Some (Some p)
  | Some b =>
      if (br_number b <=? first)%Z || bool_decide (p = genesis) then Some None else
      match fuel, br_parent_hash b with
      | S fuel, Some q => walk fuel first db q
      | _, _ => None
      end
  end.

(** [p] and its ancestors are stored, down to the number [first]. *)
Inductive complete_to (first : Z) (db : Db) : Bytes -> Prop :=
| complete_stop p b : stored db p = Some b -> (br_number b <= first)%Z \/ p = genesis -> complete_to first db p
| complete_parent p b q : stored db p = Some b -> br_parent_hash b = Some q -> complete_to first db q -> complete_to first db p.

(** [m] is the first ancestor of [p] that is not stored, at or above the number [first]. *)
Inductive missing_from (first : Z) (db : Db) (m : Bytes) : Bytes -> Prop :=
| missing_here : stored db m = None -> missing_from first db m m
| missing_parent p b q : stored db p = Some b -> (first < br_number b)%Z -> p <> genesis -> br_parent_hash b = Some q ->
    missing_from first db m q -> missing_from first db m p.

Lemma walk_complete fuel first db p : walk fuel first db p = Some None -> complete_to first db p.
Proof.
  revert p. induction fuel as [|fuel IH]; intros p; cbn [walk]; destruct (stored db p) as [b|] eqn:Hb; try done;
    destruct (Z.leb_spec (br_number b) first); simpl.
  all: try (intros _; eapply complete_stop; [done|by left]).
  all: case_bool_decide; [intros _; eapply complete_stop; [done|by right]|]; try done.
  destruct (br_parent_hash b) as [q|] eqn:Hq; [|done]. intros Hw. eapply complete_parent; [done..|]. by apply IH.
Qed.

Lemma walk_missing fuel first db p m : walk fuel first db p = Some (Some m) -> missing_from first db m p.
Proof.
  revert p. induction fuel as [|fuel IH]; intros p; cbn [walk]; destruct (stored db p) as [b|] eqn:Hb.
  2,4: by intros [= <-]; constructor.
  all: destruct (Z.leb_spec (br_number b) first); simpl; [done|]; case_bool_decide; [done|]; try done.
  destruct (br_parent_hash b) as [q|] eqn:Hq; [|done]. intros Hw. eapply missing_parent; [done..|]. by apply IH.
Qed.

Lemma walk_total fuel first db p :
  table_ok db -> (0 <= first)%Z ->
  (forall b, stored db p = Some b -> (br_number b <= first + Z.of_nat fuel)%Z) ->
  exists r, walk fuel first db p = Some r.
Proof.
  intros Ht Hf. revert p. induction fuel as [|fuel IH]; intros p Hp; cbn [walk];
    destruct (stored db p) as [b|] eqn:Hb; try by eexists.
  all: destruct (Z.leb_spec (br_number b) first); simpl; [by eexists|]; case_bool_decide as Hg; [by eexists|].
  { specialize (Hp b eq_refl). lia. }
  destruct (ro_parent _ _ (to_row _ Ht p b Hb)) as (q & Hq & _). rewrite Hq. apply IH. intros b' Hb'.
  pose proof (to_link _ Ht p b q b' Hb Hq Hb' Hg). specialize (Hp b eq_refl). lia.
Qed.

(** ** The query is the walk *)

Definition null_parents (rows : list ChainRow) : list ChainRow :=
  List.filter (fun r : ChainRow => bool_decide (r.1.2 = None)) rows.

Local Abbreviation query_step first db p := (missing_parent_step (cs_storage cs) (cs_chain cs) first genesis db p).
Local Abbreviation query_rows fuel first db row :=
  (missing_parent_rows fuel (cs_storage cs) (cs_chain cs) first genesis db row).

Lemma query_step_absent first (db : Db) p : stored db p = None -> query_step first db (Some p) = (Some p, None, true).
Proof. intros H. unfold missing_parent_step. simpl. by rewrite H. Qed.

Lemma query_step_present first (db : Db) p b q :
  stored db p = Some b -> br_parent_hash b = Some q ->
  query_step first db (Some p) = (Some p, Some q, (br_number b <=? first)%Z || bool_decide (p = genesis)).
Proof. intros H Hq. unfold missing_parent_step. simpl. rewrite H. simpl. by rewrite Hq. Qed.

Lemma query_rows_last fuel first (db : Db) x y : query_rows fuel first db (x, y, true) = Some [(x, y, true)].
Proof. by destruct fuel. Qed.

Lemma query_rows_step fuel first (db : Db) x y :
  query_rows (S fuel) first db (x, y, false) = cons (x, y, false) <$> query_rows fuel first db (query_step first db y).
Proof. done. Qed.

Lemma query_rows_walk fuel first (db : Db) x p :
  table_ok db ->
  forall r, walk fuel first db p = Some r ->
  exists rows, query_rows (S fuel) first db (x, Some p, false) = Some rows /\
    null_parents rows = match r with Some m => [(Some m, None, true)] | None => [] end.
Proof.
  intros Ht. revert x p. induction fuel as [|fuel IH]; intros x p r; cbn [walk]; rewrite query_rows_step;
    destruct (stored db p) as [b|] eqn:Hb.
  2,4: intros [= <-]; rewrite (query_step_absent _ _ _ Hb), query_rows_last; by eexists.
  all: destruct (ro_parent _ _ (to_row _ Ht p b Hb)) as (q & Hq & _); rewrite (query_step_present _ _ _ _ _ Hb Hq).
  all: destruct ((br_number b <=? first)%Z || bool_decide (p = genesis)) eqn:Hstop.
  1,3: intros [= <-]; rewrite query_rows_last; by eexists.
  - done.
  - rewrite Hq. intros Hw. destruct (IH (Some p) q r Hw) as (rows & -> & Hnull). by eexists.
Qed.

(** The query returns the block at which the walk from the parent ends. *)
Lemma missing_parent_walk fuel first db h b p r :
  table_ok db -> stored db h = Some b -> br_parent_hash b = Some p -> h <> genesis ->
  walk fuel first db p = Some r -> (forall m, r = Some m -> length m = H256_len) ->
  storage_missing_parent (S fuel) (cs_storage cs) (cs_chain cs) first h genesis db = Some (Ok r).
Proof.
  intros Ht Hb Hp Hg Hw Hlen. unfold storage_missing_parent. rewrite Hb, bool_decide_false, Hp by done.
  destruct (query_rows_walk fuel first db (Some h) p Ht r Hw) as (rows & -> & Hnull).
  fold (null_parents rows). rewrite Hnull. destruct r as [m|]; [|done].
  unfold h256_from_bytes. by rewrite bool_decide_true by by apply Hlen.
Qed.

(** A missing block is the parent of a stored one. *)
Lemma missing_length first db m p :
  table_ok db -> length p = H256_len -> missing_from first db m p -> length m = H256_len.
Proof.
  intros Ht Hp H. induction H as [|p b q Hb _ _ Hq _ IH]; [done|].
  destruct (ro_parent _ _ (to_row _ Ht p b Hb)) as (q' & Hq' & Hl). apply IH. congruence.
Qed.

(** ** The candidate for the head *)

Lemma byte_val_inj x y : byte_val x = byte_val y -> x = y.
Proof.
  unfold byte_val. intros H%N2Z.inj. pose proof (Byte.of_to_N x) as Hx. pose proof (Byte.of_to_N y) as Hy. congruence.
Qed.

Lemma bytes_ltb_asym a b : bytes_ltb a b = true -> bytes_ltb b a = false.
Proof.
  revert b. induction a as [|x a IH]; intros [|y b]; simpl; try done.
  destruct (Z.ltb_spec (byte_val x) (byte_val y)), (Z.ltb_spec (byte_val y) (byte_val x)); try done; try lia. apply IH.
Qed.

Lemma bytes_ltb_total a b : bytes_ltb a b = false -> bytes_ltb b a = false -> a = b.
Proof.
  revert b. induction a as [|x a IH]; intros [|y b]; simpl; try done.
  destruct (Z.ltb_spec (byte_val x) (byte_val y)), (Z.ltb_spec (byte_val y) (byte_val x)); try done.
  intros H1 H2. f_equal; [apply byte_val_inj; lia|by apply IH].
Qed.

Lemma bytes_ltb_trans a b c : bytes_ltb a b = true -> bytes_ltb b c = true -> bytes_ltb a c = true.
Proof.
  revert b c. induction a as [|x a IH]; intros [|y b] [|z c]; simpl; try done.
  destruct (Z.ltb_spec (byte_val x) (byte_val y)), (Z.ltb_spec (byte_val y) (byte_val x)); try done; try lia;
    destruct (Z.ltb_spec (byte_val y) (byte_val z)), (Z.ltb_spec (byte_val z) (byte_val y)); try done; try lia;
    destruct (Z.ltb_spec (byte_val x) (byte_val z)), (Z.ltb_spec (byte_val z) (byte_val x)); try done; try lia.
  apply IH.
Qed.

Lemma better_trans (x y z : Bytes * Row) :
  better_candidate x y = true -> better_candidate y z = true -> better_candidate x z = true.
Proof.
  unfold better_candidate. rewrite !orb_true_iff, !andb_true_iff, !Z.ltb_lt, !Z.eqb_eq.
  intros [?|[? ?]] [?|[? ?]]; try (left; lia). right. split; [lia|by eapply bytes_ltb_trans].
Qed.

Lemma better_total (x y : Bytes * Row) : x.1 <> y.1 -> better_candidate x y = false -> better_candidate y x = true.
Proof.
  intros Hne. unfold better_candidate. rewrite orb_false_iff, andb_false_iff, orb_true_iff, andb_true_iff, !Z.ltb_lt, Z.ltb_ge, !Z.eqb_eq, Z.eqb_neq.
  intros [Hle [Hd|Hb]]; [left; lia|]. destruct (decide (br_number x.2 = br_number y.2)) as [Heq|]; [|left; lia].
  right. split; [done|]. destruct (bytes_ltb y.1 x.1) eqn:H; [done|]. by destruct Hne; apply bytes_ltb_total.
Qed.

Lemma NoDup_fst_elem (l : list (Bytes * Row)) a y : NoDup l.*1 -> a ∈ l -> y ∈ l -> a.1 = y.1 -> a = y.
Proof.
  intros Hnd [i Ha]%list_elem_of_lookup [j Hy]%list_elem_of_lookup Heq.
  assert (i = j) as -> by (eapply NoDup_lookup; [done|rewrite list_lookup_fmap, Ha; done|rewrite list_lookup_fmap, Hy; simpl; by rewrite Heq]).
  congruence.
Qed.

Lemma first_row_None (l : list (Bytes * Row)) : first_row l = None -> l = [].
Proof. destruct l as [|x l]; [done|]. simpl. by destruct (first_row l). Qed.

Lemma first_row_Some (l : list (Bytes * Row)) x :
  NoDup l.*1 -> first_row l = Some x -> x ∈ l /\ forall y, y ∈ l -> y.1 <> x.1 -> better_candidate x y = true.
Proof.
  revert x. induction l as [|z l IH]; intros x Hnd; [done|]. cbn [first_row]. apply NoDup_cons in Hnd as [Hz Hnd].
  destruct (first_row l) as [y|] eqn:Hy.
  - intros [= <-]. destruct (IH y Hnd eq_refl) as [Hin Hbest].
    assert (Hyz : y.1 <> z.1) by (intros Heq; apply Hz; rewrite <-Heq; by apply list_elem_of_fmap_2).
    destruct (better_candidate y z) eqn:Hyb.
    + split; [by right|]. intros a [->|Ha]%elem_of_cons Hne; [done|by apply Hbest].
    + split; [by left|]. intros a [->|Ha]%elem_of_cons Hne; [done|]. pose proof (better_total y z Hyz Hyb) as Hzy.
      destruct (decide (a.1 = y.1)) as [Heq|Hay]; [|eapply better_trans; [done|by apply Hbest]].
      assert (a = y) as ->; [|done].
      by apply (NoDup_fst_elem l).
  - intros [= <-]. apply first_row_None in Hy as ->. split; [by left|]. intros a [->|Ha]%elem_of_cons; [done|].
    by apply elem_of_nil in Ha.
Qed.

Definition above (db : Db) (head : Z) : list (Bytes * Row) :=
  List.filter (fun hr : Bytes * Row => of_chain (cs_storage cs) (cs_chain cs) hr.2 && (head <? br_number hr.2)%Z) (map_to_list (cd_blocks db)).

Lemma elem_above db head h r : (h, r) ∈ above db head <-> stored db h = Some r /\ (head < br_number r)%Z.
Proof.
  unfold above. rewrite list_elem_of_In, filter_In, <-list_elem_of_In, elem_of_map_to_list. simpl.
  rewrite andb_true_iff, Z.ltb_lt. unfold lookup_block. split.
  - intros (-> & -> & Hlt). done.
  - destruct (cd_blocks db !! h) as [r'|]; [|by intros [? _]]. destruct (of_chain _ _ r') eqn:Hc; [|by intros [? _]].
    by intros [[= <-] Hlt].
Qed.

Definition head_number (n : NetworkRow) : Z := default (-1)%Z (nw_head_block_number n).

(** [h] is the best block above the head. *)
Definition best_above (db : Db) (head : Z) (h : Bytes) (b : Row) : Prop :=
  stored db h = Some b /\ (head < br_number b)%Z /\
  forall h' b', stored db h' = Some b' -> h' <> h -> better_candidate (h, b) (h', b') = true.

Lemma best_above_max db head h b h' b' :
  best_above db head h b -> stored db h' = Some b' -> (br_number b' <= br_number b)%Z.
Proof.
  intros (Hb & _ & Hbest) Hb'. destruct (decide (h' = h)) as [->|Hne]; [simplify_eq; lia|].
  specialize (Hbest h' b' Hb' Hne). unfold better_candidate in Hbest. simpl in Hbest.
  destruct (Z.ltb_spec (br_number b') (br_number b)); [lia|]. simpl in Hbest. apply andb_true_iff in Hbest as [Heq _].
  apply Z.eqb_eq in Heq. lia.
Qed.

Lemma best_above_unique db head head' h b h' b' : best_above db head h b -> best_above db head' h' b' -> h = h' /\ b = b'.
Proof.
  intros (Hb & _ & Hbest) (Hb' & _ & Hbest'). destruct (decide (h' = h)) as [->|Hne]; [split; congruence|exfalso].
  specialize (Hbest h' b' Hb' Hne). specialize (Hbest' h b Hb (not_eq_sym Hne)). unfold better_candidate in *. simpl in *.
  rewrite orb_true_iff, andb_true_iff, Z.ltb_lt, Z.eqb_eq in Hbest, Hbest'.
  destruct Hbest as [?|[? H1]], Hbest' as [?|[? H2]]; try lia. apply bytes_ltb_asym in H1. congruence.
Qed.

Lemma above_nodup db head : NoDup (above db head).*1.
Proof.
  unfold above. pose proof (NoDup_fst_map_to_list (cd_blocks db)) as Hnd. revert Hnd. generalize (map_to_list (cd_blocks db)).
  intros l. induction l as [|x l IH]; intros Hnd; [done|]. apply NoDup_cons in Hnd as [Hx Hnd]. simpl.
  destruct (_ && _); [|by apply IH]. apply NoDup_cons. split; [|by apply IH]. intros Hin. apply Hx.
  apply list_elem_of_fmap in Hin as (y & -> & Hy). apply list_elem_of_In, filter_In in Hy as [Hy _].
  apply list_elem_of_fmap_2. by apply list_elem_of_In.
Qed.

Lemma candidate_spec db nw :
  table_ok db -> cd_networks db !! cs_chain cs = Some nw ->
  (storage_chain_head_candidate (cs_storage cs) (cs_chain cs) db = Ok None /\
   forall h b, stored db h = Some b -> (br_number b <= head_number nw)%Z) \/
  (exists h b, storage_chain_head_candidate (cs_storage cs) (cs_chain cs) db = Ok (Some (mkPtr h (br_number b))) /\
   best_above db (head_number nw) h b).
Proof.
  intros Ht Hnw. unfold storage_chain_head_candidate. rewrite Hnw. fold (head_number nw). fold (above db (head_number nw)).
  destruct (first_row (above db (head_number nw))) as [[h b]|] eqn:Hf.
  - right. apply first_row_Some in Hf as [Hin Hmax]; [|apply above_nodup]. apply elem_above in Hin as [Hst Hlt]. exists h, b.
    destruct (to_row _ Ht h b Hst) as [Hlen _ Hnum _].
    unfold h256_from_bytes. rewrite bool_decide_true by done. cbn [bind_result]. unfold ptr_from_i64, i32_max in *.
    replace (0 <=? br_number b)%Z with true by lia. replace (br_number b <=? 2 ^ 31 - 1)%Z with true by lia.
    split; [done|]. split_and!; [done|done|]. intros h' b' Hst' Hne.
    destruct (Z.le_gt_cases (br_number b') (head_number nw)).
    + unfold better_candidate. simpl. by destruct (Z.ltb_spec (br_number b') (br_number b)); [|lia].
    + apply (Hmax (h', b')); [by apply elem_above|done].
  - left. split; [done|]. apply first_row_None in Hf. intros h b Hst.
    destruct (Z.le_gt_cases (br_number b) (head_number nw)) as [|Hgt]; [done|].
    assert ((h, b) ∈ above db (head_number nw)) as Hin by (by apply elem_above). rewrite Hf in Hin.
    by apply elem_of_nil in Hin.
Qed.

(** ** Setting the head *)

Definition first_block_of (n number : Z) : Z := Z.max 0 (number - n).

(** The block [h] and its [n] last ancestors are stored. *)
Definition head_complete (n : Z) (db : Db) (h : Bytes) (b : Row) : Prop :=
  h = genesis \/ exists p, br_parent_hash b = Some p /\ complete_to (first_block_of n (br_number b)) db p.

(** How an attempt to update the head ends *)
Definition attempt_result (n : Z) (sent : bool) (db : Db) (nw : NetworkRow) (r : result ChainError (option Bytes)) (db' : Db) : Prop :=
  (r = Ok None /\ db' = db /\ forall h b, stored db h = Some b -> (br_number b <= head_number nw)%Z) \/
  (exists h b, best_above db (head_number nw) h b /\
    ((exists m p, r = Ok (Some m) /\ db' = db /\ h <> genesis /\ br_parent_hash b = Some p /\
        missing_from (first_block_of n (br_number b)) db m p) \/
     (r = (if sent then Ok None else Err SendFailed) /\ db' = set_head (cs_chain cs) h (br_number b) db /\
      head_complete n db h b))).

Lemma attempt_spec fuel n sent db nw :
  table_ok db -> cd_networks db !! cs_chain cs = Some nw -> (0 <= n <= i32_max)%Z -> (n < Z.of_nat fuel)%Z ->
  exists r db', cs_attempt_chain_head_update fuel cs n sent db = Some (r, db') /\ attempt_result n sent db nw r db'.
Proof.
  intros Ht Hnw Hn Hfuel. unfold cs_attempt_chain_head_update.
  destruct (candidate_spec db nw Ht Hnw) as [[-> Hmax]|(h & b & -> & Hbest)]; [eexists _, _; split; [done|by left]|].
  destruct Hbest as (Hst & Hlt & Hmax). destruct (to_row _ Ht h b Hst) as [Hlen (p & Hp & Hplen) Hnum Hgen].
  unfold hash_as_h256. cbn [bp_hash bp_number]. rewrite !bool_decide_true by (done || apply (to_genesis _ Ht)). cbn [bind_result].
  assert (Hfirst : Z.max 0 (i32_saturating_sub (br_number b) n) = first_block_of n (br_number b)).
  { unfold i32_saturating_sub, first_block_of, i32_min, i32_max in *. lia. }
  rewrite Hfirst. destruct (decide (h = genesis)) as [->|Hg].
  { unfold storage_missing_parent. rewrite Hst, bool_decide_true by done. simpl. eexists _, _. split; [done|].
    right. exists genesis, b. split; [done|]. right. split_and!; [done|done|by left]. }
  assert (Hpos : (0 < br_number b)%Z) by (destruct (decide (br_number b = 0%Z)); [by destruct Hg; apply Hgen|lia]).
  destruct fuel as [|fuel]; [lia|].
  destruct (walk_total fuel (first_block_of n (br_number b)) db p Ht) as [r Hw]; [unfold first_block_of; lia| |].
  { intros b' Hb'. pose proof (to_link _ Ht h b p b' Hst Hp Hb' Hg). unfold first_block_of. lia. }
  assert (Hmlen : forall m, r = Some m -> length m = H256_len).
  { intros m ->. apply walk_missing in Hw. by eapply missing_length. }
  rewrite (missing_parent_walk fuel _ db h b p r Ht Hst Hp Hg Hw Hmlen).
  destruct r as [m|]; eexists _, _; (split; [done|]); right; exists h, b; (split; [done|]).
  - left. exists m, p. split_and!; [done..|]. by eapply walk_missing.
  - right. split_and!; [done..|]. right. exists p. split; [done|]. by eapply walk_complete.
Qed.

(** ** The ancestors of the head *)

Lemma complete_ancestor first db p b k :
  table_ok db -> (0 <= first)%Z -> complete_to first db p -> stored db p = Some b -> (Z.of_nat k <= br_number b - first)%Z ->
  exists h r, ancestor_hash db (Some p) k = Some (Some h) /\ stored db h = Some r /\ br_number r = (br_number b - Z.of_nat k)%Z.
Proof.
  intros Ht Hf Hc. revert b k. induction Hc as [p b0 Hb0 Hstop|p b0 q Hb0 Hq Hc IH]; intros b k Hb Hk.
  - assert (b0 = b) as -> by congruence. assert (k = 0)%nat as ->.
    { destruct Hstop as [Hstop| ->]; [lia|]. pose proof (proj1 (ro_genesis _ _ (to_row _ Ht _ b Hb)) eq_refl). lia. }
    exists p, b. split_and!; [done|done|lia].
  - assert (b0 = b) as -> by congruence. destruct k as [|k]; [exists p, b; split_and!; [done|done|lia]|].
    assert (Hg : p <> genesis).
    { intros ->. pose proof (proj1 (ro_genesis _ _ (to_row _ Ht _ b Hb)) eq_refl). lia. }
    assert (Hst : exists r, stored db q = Some r) by (destruct Hc; by eexists). destruct Hst as [r Hr].
    pose proof (to_link _ Ht p b q r Hb Hq Hr Hg) as Hlink.
    destruct (IH r k Hr) as (h & r' & Hh & Hr' & Hn); [lia|]. exists h, r'. split_and!; [|done|lia].
    cbn [ancestor_hash]. simpl. by rewrite (stored_lookup _ _ _ Hb), Hq.
Qed.

Lemma head_ancestor n db h b k :
  table_ok db -> (0 <= n)%Z -> stored db h = Some b -> head_complete n db h b ->
  (Z.of_nat k <= n)%Z -> (Z.of_nat k <= br_number b)%Z ->
  exists h' r, ancestor_hash db (Some h) k = Some (Some h') /\ stored db h' = Some r /\ br_number r = (br_number b - Z.of_nat k)%Z.
Proof.
  intros Ht Hn Hb Hc Hk Hkb. destruct k as [|k]; [exists h, b; split_and!; [done|done|lia]|].
  assert (Hg : h <> genesis).
  { intros ->. pose proof (proj1 (ro_genesis _ _ (to_row _ Ht _ b Hb)) eq_refl). lia. }
  destruct Hc as [?|(p & Hp & Hc)]; [done|].
  assert (Hst : exists r, stored db p = Some r) by (destruct Hc; by eexists). destruct Hst as [r Hr].
  pose proof (to_link _ Ht h b p r Hb Hp Hr Hg) as Hlink.
  assert (Hf0 : (0 <= first_block_of n (br_number b))%Z) by (unfold first_block_of; lia).
  destruct (complete_ancestor _ _ p r k Ht Hf0 Hc Hr) as (h' & r' & Hh & Hr' & Hnum).
  { unfold first_block_of. lia. }
  exists h', r'. split_and!; [|done|lia]. cbn [ancestor_hash]. simpl. by rewrite (stored_lookup _ _ _ Hb), Hp.
Qed.

(** ** The operations of the ingestor *)

(** The headers of the blocks of the chain: number and parent of a hash *)
Context (headers : Bytes -> option (Z * Bytes)).

Record headers_ok : Prop := {
  ho_genesis_length : length genesis = H256_len;
  ho_length h n p : headers h = Some (n, p) -> length h = H256_len /\ length p = H256_len;
  ho_number h n p : headers h = Some (n, p) -> (0 <= n <= i32_max)%Z;
  ho_genesis h n p : headers h = Some (n, p) -> h = genesis <-> n = 0%Z;
  ho_link h n p n' p' : headers h = Some (n, p) -> headers p = Some (n', p') -> h <> genesis -> n = (n' + 1)%Z
}.

(** The rows of the chain are blocks with these headers, and no other chain has them. *)
Record table_matches (db : Db) : Prop := {
  tm_row h r : stored db h = Some r -> exists p, br_parent_hash r = Some p /\ headers h = Some (br_number r, p);
  tm_own h r : cd_blocks db !! h = Some r -> is_Some (headers h) -> of_chain (cs_storage cs) (cs_chain cs) r = true
}.

Lemma table_matches_ok db : headers_ok -> table_matches db -> table_ok db.
Proof.
  intros Hh [Hrow _]. split.
  - apply Hh.
  - intros h r Hr. destruct (Hrow h r Hr) as (p & Hp & Hhd). split.
    + exact (proj1 (ho_length Hh _ _ _ Hhd)).
    + exists p. split; [done|]. exact (proj2 (ho_length Hh _ _ _ Hhd)).
    + exact (ho_number Hh _ _ _ Hhd).
    + exact (ho_genesis Hh _ _ _ Hhd).
  - intros h r p r' Hr Hp Hr' Hg. destruct (Hrow h r Hr) as (q & Hq & Hhd), (Hrow p r' Hr') as (q' & Hq' & Hhd').
    assert (q = p) as -> by congruence. exact (ho_link Hh _ _ _ _ _ Hhd Hhd' Hg).
Qed.

(** The block has its header. *)
Definition block_matches (block : Block) : Prop :=
  is_Some (cb_data block) /\
  headers (bp_hash (cb_ptr block)) =
    Some (bp_number (cb_ptr block), match cb_parent_ptr block with Some p => bp_hash p | None => NO_PARENT end).

(** The blocks of [db] are still there, with the same headers. *)
Definition extends (db db' : Db) : Prop :=
  cd_networks db' = cd_networks db /\
  forall h r, stored db h = Some r ->
    exists r', stored db' h = Some r' /\ br_number r' = br_number r /\ br_parent_hash r' = br_parent_hash r.

Lemma upsert_spec db block overwrite :
  table_matches db -> block_matches block ->
  exists db', storage_upsert_block db (cs_chain cs) block overwrite = Ok db' /\ table_matches db' /\ extends db db' /\
    is_Some (stored db' (bp_hash (cb_ptr block))) /\ forall k, k <> bp_hash (cb_ptr block) -> stored db' k = stored db k.
Proof.
  intros [Hrow Hown] [[data Hdata] Hhd]. unfold storage_upsert_block. rewrite Hdata. cbn [expect bind_result].
  set (h := bp_hash (cb_ptr block)) in *. set (ph := match cb_parent_ptr block with Some p => _ | None => _ end) in *.
  set (row := mkBlockRow _ _ _ _). assert (Hself : of_chain (cs_storage cs) (cs_chain cs) row = true).
  { unfold of_chain. destruct (cs_storage cs); [|done]. by apply bool_decide_true. }
  set (db1 := with_blocks db (<[h := row]> (cd_blocks db))).
  assert (Hst1 : forall k, stored db1 k = if decide (k = h) then Some row else stored db k).
  { intros k. unfold lookup_block, db1. simpl. destruct (decide (k = h)) as [->|Hne].
    - by rewrite lookup_insert_eq, Hself.
    - by rewrite lookup_insert_ne. }
  assert (Hnew : exists db', Ok db1 = Ok (E:=ChainError) db' /\ table_matches db' /\ extends db db' /\ is_Some (stored db' h) /\
    forall k, k <> h -> stored db' k = stored db k).
  { exists db1. split_and!; [done| |split; [done|]| |].
    - split.
      + intros k r. rewrite Hst1. destruct (decide (k = h)) as [->|]; [|by apply Hrow]. intros [= <-]. by exists ph.
      + intros k r. unfold db1. simpl. destruct (decide (k = h)) as [->|Hne].
        * rewrite lookup_insert_eq. by intros [= <-] _.
        * rewrite lookup_insert_ne by done. by apply Hown.
    - intros k r Hk. rewrite Hst1. destruct (decide (k = h)) as [->|]; [|by exists r].
      exists row. split; [done|]. destruct (Hrow h r Hk) as (q & Hq & Hhd'). rewrite Hhd in Hhd'. injection Hhd' as Hn ->. done.
    - rewrite Hst1, decide_True by done. done.
    - intros k Hk. by rewrite Hst1, decide_False. }
  destruct (cd_blocks db !! h) as [r|] eqn:Hr; [|exact Hnew]. destruct overwrite; [exact Hnew|].
  exists db. split_and!; [done|done|split; [done|by eauto]| |done]. unfold lookup_block. rewrite Hr, (Hown h r Hr) by done. done.
Qed.

Lemma complete_extends first db db' p : extends db db' -> complete_to first db p -> complete_to first db' p.
Proof.
  intros [_ Hext]. induction 1 as [p b Hb Hstop|p b q Hb Hq _ IH]; destruct (Hext p b Hb) as (b' & Hb' & Hn & Hp).
  - eapply complete_stop; [done|]. by rewrite Hn.
  - eapply complete_parent; [done| |done]. congruence.
Qed.

(** ** The invariant *)

(** [n] is the number of ancestors that are kept. *)
Context (n : Z).
Hypothesis Hheaders : headers_ok.
Hypothesis Hn : (1 <= n <= i32_max)%Z.

Definition head_inv (db : Db) (nw : NetworkRow) : Prop :=
  match nw_head_block_hash nw, nw_head_block_number nw with
  | Some h, Some num => exists b, stored db h = Some b /\ br_number b = num /\ head_complete n db h b
  | None, None => True
  | _, _ => False
  end.

Record store_inv (db : Db) : Prop := {
  sv_table : table_matches db;
  sv_head : exists nw, cd_networks db !! cs_chain cs = Some nw /\ head_inv db nw
}.

Lemma extends_inv db db' : table_matches db' -> extends db db' -> store_inv db -> store_inv db'.
Proof.
  intros Ht' Hext [_ (nw & Hnw & Hhead)]. split; [done|]. pose proof Hext as [Hnet Hblocks]. exists nw. rewrite Hnet.
  split; [done|]. unfold head_inv in *. destruct (nw_head_block_hash nw) as [h|], (nw_head_block_number nw) as [num|]; try done.
  destruct Hhead as (b & Hb & Hnum & Hc). destruct (Hblocks h b Hb) as (b' & Hb' & Hn' & Hp'). exists b'.
  split_and!; [done|congruence|]. destruct Hc as [?|(p & Hp & Hc)]; [by left|right]. exists p. split; [congruence|].
  rewrite Hn'. by eapply complete_extends.
Qed.

Lemma complete_same_blocks first db db' p : cd_blocks db' = cd_blocks db -> complete_to first db p -> complete_to first db' p.
Proof.
  intros Heq. assert (Hst : forall h, stored db' h = stored db h) by (intros h; unfold lookup_block; by rewrite Heq).
  induction 1 as [p b Hb Hstop|p b q Hb Hq _ IH]; [eapply complete_stop; [by rewrite Hst|done]|].
  eapply complete_parent; [by rewrite Hst|done|done].
Qed.

Lemma attempt_inv fuel sent db r db' :
  store_inv db -> cs_attempt_chain_head_update fuel cs n sent db = Some (r, db') -> (n < Z.of_nat fuel)%Z -> store_inv db'.
Proof.
  intros [Ht (nw & Hnw & Hhead)] Hat Hfuel. pose proof (table_matches_ok _ Hheaders Ht) as Hok.
  destruct (attempt_spec fuel n sent db nw Hok Hnw ltac:(lia) Hfuel) as (r' & db1 & Hat' & Hres).
  rewrite Hat in Hat'. injection Hat' as <- <-.
  destruct Hres as [(_ & -> & _)|(h & b & (Hb & _ & _) & [(m & p & _ & -> & _)|(_ & -> & Hc)])];
    [by split; [|eauto]|by split; [|eauto]|].
  unfold set_head. rewrite Hnw. split.
  - destruct Ht as [Hrow Hown]. split; [by apply Hrow|by apply Hown].
  - eexists. simpl. split; [apply lookup_insert_eq|]. simpl. exists b. split_and!; [done|done|].
    destruct Hc as [?|(p & Hp & Hc)]; [by left|right]. exists p. split; [done|]. by apply (complete_same_blocks _ db).
Qed.

Lemma delete_before_stored block (db : Db) h :
  stored (storage_delete_blocks_before (cs_storage cs) (cs_chain cs) block db).2 h =
  match stored db h with
  | Some r => if (br_number r <? block)%Z && (0 <? br_number r)%Z then None else Some r
  | None => None
  end.
Proof.
  unfold storage_delete_blocks_before, lookup_block. simpl.
  destruct (cd_blocks db !! h) as [r|] eqn:Hr.
  - destruct (of_chain (cs_storage cs) (cs_chain cs) r) eqn:Hc.
    + destruct ((br_number r <? block)%Z && (0 <? br_number r)%Z) eqn:Hd.
      * rewrite map_lookup_filter_None_2; [done|]. right. intros r' Hr'. simplify_eq. simpl. rewrite Hc. simpl. by rewrite Hd.
      * rewrite (map_lookup_filter_Some_2 _ _ _ r); [by rewrite Hc|done|]. simpl. rewrite Hc. simpl. by rewrite Hd.
    + rewrite (map_lookup_filter_Some_2 _ _ _ r); [by rewrite Hc|done|]. simpl. by rewrite Hc.
  - by rewrite map_lookup_filter_None_2; [|left].
Qed.

Lemma complete_kept first block (db : Db) db' p b :
  table_ok db -> (0 <= first)%Z -> (block <= first)%Z ->
  db' = (storage_delete_blocks_before (cs_storage cs) (cs_chain cs) block db).2 ->
  complete_to first db p -> stored db p = Some b -> (first <= br_number b)%Z -> complete_to first db' p.
Proof.
  intros Ht Hf Hblock -> Hc. revert b.
  assert (Hkeep : forall q r, stored db q = Some r -> (first <= br_number r)%Z ->
    stored (storage_delete_blocks_before (cs_storage cs) (cs_chain cs) block db).2 q = Some r).
  { intros q r Hq Hge. rewrite delete_before_stored, Hq. by destruct (Z.ltb_spec (br_number r) block); [lia|]. }
  induction Hc as [p b0 Hb0 Hstop|p b0 q Hb0 Hq Hc IH]; intros b Hb Hge; assert (b0 = b) as -> by congruence.
  - eapply complete_stop; [by apply Hkeep|done].
  - destruct (decide (p = genesis)) as [Hg|Hg]; [eapply complete_stop; [by apply Hkeep|by right]|].
    assert (Hst : exists r, stored db q = Some r) by (destruct Hc; by eexists). destruct Hst as [r Hr].
    pose proof (to_link _ Ht p b q r Hb Hq Hr Hg) as Hlink.
    destruct (decide (br_number b = first)) as [Heq|Hne]; [eapply complete_stop; [by apply Hkeep|left; lia]|].
    eapply complete_parent; [by apply Hkeep|done|]. apply (IH r); [done|lia].
Qed.

Lemma cleanup_block (db : Db) deployments r db' :
  cs_cleanup_cached_blocks cs deployments n db = (r, db') ->
  db' = db \/ exists block, db' = (storage_delete_blocks_before (cs_storage cs) (cs_chain cs) block db).2 /\ (0 < block)%Z /\
    forall nw num, cd_networks db !! cs_chain cs = Some nw -> nw_head_block_number nw = Some num -> (block <= num - n)%Z.
Proof.
  unfold cs_cleanup_cached_blocks. set (block := default _ _).
  destruct (Z.ltb_spec 0 block) as [Hpos|]; [|intros [= _ <-]; by left].
  destruct (storage_delete_blocks_before _ _ block db) as [rows db1] eqn:Hd. intros [= _ <-]. right. exists block.
  rewrite Hd. split_and!; [done|done|]. intros nw num Hnw Hnum. unfold block. rewrite Hnw. cbn [mbind option_bind].
  rewrite Hnum. simpl. destruct (foldl sql_least None deployments) as [d|]; simpl; lia.
Qed.

Lemma cleanup_inv db deployments r db' :
  store_inv db -> cs_cleanup_cached_blocks cs deployments n db = (r, db') -> store_inv db'.
Proof.
  intros [Ht (nw & Hnw & Hhead)] Hcl. pose proof (table_matches_ok _ Hheaders Ht) as Hok.
  destruct (cleanup_block _ _ _ _ Hcl) as [->|(block & Hdb' & Hpos & Hle)]; [by split; [|eauto]|].
  assert (Hst : forall h r, stored db' h = Some r -> stored db h = Some r).
  { intros h r0. rewrite Hdb', delete_before_stored. destruct (stored db h) as [r'|]; [|done]. by destruct (_ && _). }
  split.
  - destruct Ht as [Hrow Hown]. split; [intros h r0 Hr; by apply Hrow, Hst|].
    intros h r0 Hr. apply (Hown h). rewrite Hdb' in Hr. simpl in Hr. by apply map_lookup_filter_Some in Hr as [? _].
  - exists nw. split; [by rewrite Hdb'|]. unfold head_inv in *.
    destruct (nw_head_block_hash nw) as [h|], (nw_head_block_number nw) as [num|] eqn:Hnum; try done.
    destruct Hhead as (b & Hb & Hbn & Hc). specialize (Hle nw num Hnw Hnum). exists b.
    pose proof (ro_number _ _ (to_row _ Hok h b Hb)) as Hrange.
    split_and!; [rewrite Hdb', delete_before_stored, Hb; by destruct (Z.ltb_spec (br_number b) block); [lia|]|done|].
    destruct (decide (h = genesis)) as [Hg|Hg]; [by left|].
    destruct Hc as [?|(p & Hp & Hc)]; [done|right]. exists p. split; [done|].
    assert (Hst' : exists r, stored db p = Some r) by (destruct Hc; by eexists). destruct Hst' as [r0 Hr].
    pose proof (to_link _ Hok h b p r0 Hb Hp Hr Hg) as Hlink. pose proof (ro_number _ _ (to_row _ Hok p r0 Hr)).
    eapply complete_kept; [exact Hok| | |exact Hdb'|exact Hc|exact Hr|]; unfold first_block_of; lia.
Qed.

(** What the block ingestor and the loading of blocks do with the store *)
Inductive store_step : Db -> Db -> Prop :=
| step_upsert block overwrite db db' :
    block_matches block -> storage_upsert_block db (cs_chain cs) block overwrite = Ok db' -> store_step db db'
| step_attempt fuel sent r db db' :
    (n < Z.of_nat fuel)%Z -> cs_attempt_chain_head_update fuel cs n sent db = Some (r, db') -> store_step db db'
| step_cleanup deployments r db db' :
    cs_cleanup_cached_blocks cs deployments n db = (r, db') -> store_step db db'.

Lemma store_steps_inv db db' : rtc store_step db db' -> store_inv db -> store_inv db'.
Proof.
  induction 1 as [|db db1 db' Hstep _ IH]; [done|]. intros Hinv. apply IH. clear IH.
  destruct Hstep as [block overwrite db db1 Hb Hup|fuel sent r db db1 Hf Hat|deployments r db db1 Hcl].
  - destruct (upsert_spec db block overwrite (sv_table _ Hinv) Hb) as (db2 & Hup' & Ht & Hext & _ & _).
    rewrite Hup in Hup'. injection Hup' as <-. by eapply extends_inv.
  - by eapply attempt_inv.
  - by eapply cleanup_inv.
Qed.

Definition empty_store (net_version : string) : Db := cs_create cs net_version genesis (mkChainDb ∅ ∅ ∅ ∅).

Lemma empty_store_inv net_version : store_inv (empty_store net_version).
Proof.
  split.
  - assert (Hnone : cd_blocks (empty_store net_version) = ∅) by (unfold empty_store, cs_create; cbn [cd_networks]; by rewrite lookup_empty).
    split; intros h r; unfold lookup_block; by rewrite Hnone, lookup_empty.
  - eexists. unfold empty_store, cs_create. cbn [cd_networks]. rewrite lookup_empty. simpl.
    split; [apply lookup_insert_eq|done].
Qed.

(** C12: the chain store keeps the ancestors of its head.  After any sequence of blocks
    that are stored, attempts to update the head and clean-ups, reading the head does
    not fail, and for every number up to the number of ancestors that are kept the
    block that many blocks before the head is found. *)
Theorem chain_head_has_ancestors net_version db now cache :
  rtc store_step (empty_store net_version) db ->
  exists head cache', cs_chain_head_ptr cs db now cache = (Ok head, cache') /\
    forall ptr k, head = Some ptr -> (0 <= k <= n)%Z -> (k <= bp_number ptr)%Z ->
    exists h r, stored db h = Some r /\ br_number r = (bp_number ptr - k)%Z /\
      cs_ancestor_block cs ptr k db =
        Ok (Some (if json_has_block (br_data r) then br_data r else json_wrap_block (br_data r))).
Proof.
  intros Hsteps. apply store_steps_inv in Hsteps; [|apply empty_store_inv]. destruct Hsteps as [Ht (nw & Hnw & Hhead)].
  pose proof (table_matches_ok _ Hheaders Ht) as Hok. unfold cs_chain_head_ptr. rewrite Hnw. unfold head_inv in Hhead.
  destruct (nw_head_block_hash nw) as [h|], (nw_head_block_number nw) as [num|]; [|done|done|by eexists _, _].
  destruct Hhead as (b & Hb & Hnum & Hc). destruct (to_row _ Hok h b Hb) as [Hlen _ Hrange _].
  unfold hash_as_h256. rewrite bool_decide_true by done. cbn [bind_result]. unfold ptr_from_i64, i32_max in *.
  replace (0 <=? num)%Z with true by lia. replace (num <=? 2 ^ 31 - 1)%Z with true by lia. simpl.
  eexists _, _. split; [done|]. intros ptr k [= <-] Hk Hkn. simpl in *.
  destruct (head_ancestor n db h b (Z.to_nat k) Hok) as (h' & r & Hanc & Hr & Hrn); [lia|done|done|lia|lia|].
  exists h', r. split_and!; [done|lia|]. unfold cs_ancestor_block. simpl.
  destruct (Z.leb_spec k num); [|lia]. unfold storage_ancestor_block. destruct (Z.ltb_spec k 0); [lia|]. simpl. rewrite Hanc, (stored_lookup _ _ _ Hr). simpl.
  by destruct (json_has_block (br_data r)).
Qed.

End Props.
