(* ===== verification/Ingestor.v ===== *)
(** * The block ingestor

    [BlockIngestor] of [chain/ethereum/src/ingestor.rs]: it asks the Ethereum node for
    its latest block and stores it together with the ancestors that are missing.  The
    calls to the node are parameters, which may answer differently each time.  A poll
    ends after at most as many steps as ancestors are kept, and then the head of the
    store is at least the block that the node had. *)

From Stdlib Require Import Strings.Byte.
From stdpp Require Import base numbers list gmap countable strings.
From S2P Require Import Prelude GraphqlAst Scalars RuntimeValue Values Names StoreTypes ChainStore ChainStoreProps.

Inductive IngestorError (E : Type) :=
| BlockUnavailable (hash : Bytes)
| ReceiptUnavailable (block_hash tx_hash : Bytes)
| IngestorUnknown (e : E)
| IngestorStore (e : ChainError).
Arguments BlockUnavailable {E}.
Arguments ReceiptUnavailable {E}.
Arguments IngestorUnknown {E}.
Arguments IngestorStore {E}.

(** The calls to the Ethereum node *)
Record EthNode (LightBlock Block E : Type) := mkEthNode {
  en_latest_block : result (IngestorError E) BlockPtr;
  en_block_by_hash : Bytes -> result (IngestorError E) (option LightBlock);
  en_load_full_block : LightBlock -> result (IngestorError E) Block
}.
Arguments en_latest_block {LightBlock Block E}.
Arguments en_block_by_hash {LightBlock Block E}.
Arguments en_load_full_block {LightBlock Block E}.

Section Ingestor.
Context {Json LightBlock Block E : Type} `{BJ : BlockJson Json} `{CB : ChainBlock Block Json}.
Local Abbreviation Db := (ChainDb Json).
Local Abbreviation Node := (EthNode LightBlock Block E).
Context (cs : ChainStoreData) (ancestor_count : BlockNumber).

(** [node] is the node as this call sees it, [sent] whether the notification of a new
    head can be sent. *)
Definition ingest_block (fuel : nat) (node : Node) (sent : bool) (block_hash : Bytes) (db : Db)
    : option (result (IngestorError E) (option Bytes) * Db) :=
  match (let? block_hash := hash_as_h256 (E:=IngestorError E) block_hash in
         let? block := en_block_by_hash node block_hash in
         let? block := match block with Some b => Ok b | None => Err (BlockUnavailable block_hash) end in
         let? ethereum_block := en_load_full_block node block in
         map_err IngestorStore (cs_upsert_block cs ethereum_block db)) with
  | Panic => Some (Panic, db)
  | Err e => Some (Err e, db)
  | Ok db =>
      match cs_attempt_chain_head_update fuel cs ancestor_count sent db with
      | None => None
      | Some (r, db) => Some (map_err IngestorStore r, db)
      end
  end.

(** [while let Some(hash) = missing_block_hash]; the node may answer differently in
    each round. *)
Fixpoint ingest_missing (rounds fuel : nat) (nodes : nat -> Node) (sent : bool) (missing : option Bytes) (db : Db)
    : option (result (IngestorError E) unit * Db) :=
  match missing with
  | None => Some (Ok tt, db)
  | Some hash =>
      match rounds with
      | O => None
      | S rounds =>
          match ingest_block fuel (nodes 0%nat) sent hash db with
          | None => None
          | Some (Panic, db) => Some (Panic, db)
          | Some (Err e, db) => Some (Err e, db)
          | Some (Ok missing, db) => ingest_missing rounds fuel (fun i => nodes (S i)) sent missing db
          end
      end
  end.

Definition do_poll (rounds fuel : nat) (nodes : nat -> Node) (sent : bool) (now : Z) (cache : TimedCache string BlockPtr)
    (db : Db) : option (result (IngestorError E) unit * Db * TimedCache string BlockPtr) :=
  let (head, cache) := cs_chain_head_ptr cs db now cache in
  match (let? head_block_ptr_opt := map_err IngestorStore head in
         let? latest_block := en_latest_block (nodes 0%nat) in
         Ok (head_block_ptr_opt, latest_block)) with
  | Panic => Some (Panic, db, cache)
  | Err e => Some (Err e, db, cache)
  | Ok (head_block_ptr_opt, latest_block) =>
      if bool_decide (head_block_ptr_opt = Some latest_block) then Some (Ok tt, db, cache) else
      match ingest_block fuel (nodes 0%nat) sent (bp_hash latest_block) db with
      | None => None
      | Some (Panic, db) => Some (Panic, db, cache)
      | Some (Err e, db) => Some (Err e, db, cache)
      | Some (Ok missing, db) =>
          (fun end_ => (end_, cache)) <$> ingest_missing rounds fuel (fun i => nodes (S i)) sent missing db
      end
  end.

Definition cleanup_cached_blocks (deployments : list (option Z)) (db : Db) : Db :=
  (cs_cleanup_cached_blocks cs deployments ancestor_count db).2.

(** A round of [into_polling_stream]: errors of the poll are logged only. *)
Definition polling_round (rounds fuel : nat) (nodes : nat -> Node) (sent : bool) (now : Z)
    (cache : TimedCache string BlockPtr) (cleanup_blocks : bool) (deployments : list (option Z)) (db : Db)
    : option (result (IngestorError E) (Db * TimedCache string BlockPtr)) :=
  match do_poll rounds fuel nodes sent now cache db with
  | None => None
  | Some (Panic, _, _) => Some Panic
  | Some (_, db, cache) => Some (Ok (if cleanup_blocks then cleanup_cached_blocks deployments db else db, cache))
  end.

(** ** A poll ends *)

Context (headers : Bytes -> option (Z * Bytes)).
Local Abbreviation genesis := (bp_hash (cs_genesis_block_ptr cs)).
Local Abbreviation stored db h := (lookup_block (cs_storage cs) (cs_chain cs) db h).
Hypothesis Hheaders : headers_ok cs headers.
Hypothesis Hn : (1 <= ancestor_count <= i32_max)%Z.
(** Parents of blocks are blocks. *)
Hypothesis Hparents : forall h n p, headers h = Some (n, p) -> h <> genesis -> is_Some (headers p).

(** The node knows the blocks of the chain. *)
Definition node_answers (node : Node) : Prop :=
  forall h, is_Some (headers h) ->
    exists l b, en_block_by_hash node h = Ok (Some l) /\ en_load_full_block node l = Ok b /\
      bp_hash (cb_ptr b) = h /\ block_matches headers b.

Definition header_number (h : Bytes) : Z := match headers h with Some (n, _) => n | None => 0%Z end.

Lemma stored_header (db : Db) h r :
  table_matches cs headers db -> stored db h = Some r ->
  is_Some (headers h) /\ header_number h = br_number r /\ exists p, br_parent_hash r = Some p /\ headers h = Some (br_number r, p).
Proof.
  intros [Hrow _] Hr. destruct (Hrow h r Hr) as (p & Hp & Hh). unfold header_number. rewrite Hh.
  split_and!; [done|done|by exists p].
Qed.

Lemma header_parent (db : Db) h r p :
  table_matches cs headers db -> stored db h = Some r -> br_parent_hash r = Some p -> h <> genesis ->
  is_Some (headers p) /\ (header_number p = br_number r - 1)%Z.
Proof.
  intros Ht Hr Hp Hg. destruct (stored_header db h r Ht Hr) as (_ & _ & p' & Hp' & Hh). assert (p' = p) as -> by congruence.
  destruct (Hparents h _ p Hh Hg) as [[n' q] Hq]. split; [done|]. unfold header_number. rewrite Hq.
  pose proof (ho_link _ _ Hheaders _ _ _ _ _ Hh Hq Hg). lia.
Qed.

(** The missing block is one of the chain, between the first block and the start. *)
Lemma missing_bounds first (db : Db) m p :
  table_matches cs headers db -> is_Some (headers p) -> (first <= header_number p)%Z ->
  missing_from cs first db m p ->
  is_Some (headers m) /\ stored db m = None /\ (first <= header_number m <= header_number p)%Z.
Proof.
  intros Ht Hp Hf H. induction H as [H|p b q Hb Hlt Hg Hq Hm IH]; [split_and!; [done|done|lia|lia]|].
  destruct (header_parent db p b q Ht Hb Hq Hg) as [Hhq Hnq].
  destruct (stored_header db p b Ht Hb) as (_ & Hnp & _).
  destruct IH as (? & ? & ?); [done|lia|]. split_and!; [done|done|lia|lia].
Qed.

(** When the missing block has been stored, the next one that is missing is older. *)
Lemma missing_older first (db db' : Db) m m' p :
  table_matches cs headers db -> table_matches cs headers db' -> extends cs db db' -> is_Some (stored db' m) ->
  is_Some (headers p) -> (first <= header_number p)%Z ->
  missing_from cs first db m p -> missing_from cs first db' m' p -> (header_number m' < header_number m)%Z.
Proof.
  intros Ht Ht' [_ Hext] [r Hr] Hp Hf H. induction H as [H|p b q Hb Hlt Hg Hq Hm IH]; intros H'.
  - inversion H' as [Hnone|p b q Hb Hlt Hg Hq Hm']; subst; [congruence|].
    destruct (header_parent db' m b q Ht' Hb Hq Hg) as [Hhq Hnq]. destruct (stored_header db' m b Ht' Hb) as (_ & Hnm & _).
    destruct (missing_bounds first db' m' q Ht' Hhq) as (_ & _ & Hb'); [lia|done|]. lia.
  - destruct (Hext p b Hb) as (b' & Hb' & Hn' & Hp'). destruct (header_parent db p b q Ht Hb Hq Hg) as [Hhq Hnq].
    inversion H' as [Hnone|p0 b0 q0 Hb0 Hlt0 Hg0 Hq0 Hm0]; subst; [congruence|].
    assert (b0 = b') as -> by congruence. assert (q0 = q) as -> by congruence. apply IH; [done|lia|done].
Qed.

Local Abbreviation store_inv := (ChainStoreProps.store_inv cs headers ancestor_count).

(** Storing a block of the chain, and what the attempt to update the head finds *)
Lemma ingest_block_spec fuel node db hash nw :
  store_inv db -> node_answers node -> is_Some (headers hash) -> (ancestor_count < Z.of_nat fuel)%Z ->
  cd_networks db !! cs_chain cs = Some nw ->
  exists r db1 db2, ingest_block fuel node true hash db = Some (map_err IngestorStore r, db2) /\
    store_inv db1 /\ extends cs db db1 /\ is_Some (stored db1 hash) /\
    (forall k, k <> hash -> stored db1 k = stored db k) /\
    attempt_result cs ancestor_count true db1 nw r db2 /\ store_inv db2.
Proof.
  intros Hinv Hnode Hhash Hfuel Hnw. destruct (Hnode hash Hhash) as (l & b & Hl & Hb & Hbh & Hmatch).
  destruct (upsert_spec cs headers db b true (sv_table _ _ _ _ Hinv) Hmatch) as (db1 & Hup & Ht1 & Hext & Hst & Hsame).
  rewrite Hbh in Hst, Hsame. assert (Hinv1 : store_inv db1) by by eapply extends_inv.
  assert (Hnw1 : cd_networks db1 !! cs_chain cs = Some nw) by by rewrite (proj1 Hext).
  destruct (attempt_spec cs fuel ancestor_count true db1 nw (table_matches_ok _ _ _ Hheaders Ht1) Hnw1) as (r & db2 & Hat & Hres);
    [lia|done|].
  exists r, db1, db2. split_and!; try done; [|by eapply attempt_inv].
  unfold ingest_block, hash_as_h256, cs_upsert_block. destruct Hhash as [[n p] Hhash].
  rewrite bool_decide_true by exact (proj1 (ho_length _ _ Hheaders _ _ _ Hhash)). cbn [bind_result].
  rewrite Hl. cbn [bind_result]. rewrite Hb. cbn [bind_result]. rewrite Hup. cbn [map_err]. by rewrite Hat.
Qed.

(** The head of the store *)
Definition head_is (db : Db) (h : Bytes) (num : Z) : Prop :=
  exists nw, cd_networks db !! cs_chain cs = Some nw /\ nw_head_block_hash nw = Some h /\ nw_head_block_number nw = Some num.

Lemma set_head_is db nw h num : cd_networks db !! cs_chain cs = Some nw -> head_is (set_head (cs_chain cs) h num db) h num.
Proof. intros Hnw. unfold set_head. rewrite Hnw. eexists. simpl. split; [apply lookup_insert_eq|done]. Qed.

(** The loop that loads missing blocks ends, and the candidate becomes the head. *)
Lemma ingest_missing_spec k fuel nodes db nw h b p m :
  (forall i, node_answers (nodes i)) -> (ancestor_count < Z.of_nat fuel)%Z -> store_inv db ->
  cd_networks db !! cs_chain cs = Some nw -> best_above cs db (head_number nw) h b -> h <> genesis ->
  br_parent_hash b = Some p -> missing_from cs (first_block_of ancestor_count (br_number b)) db m p ->
  (header_number m - first_block_of ancestor_count (br_number b) < Z.of_nat k)%Z ->
  exists db', ingest_missing k fuel nodes true (Some m) db = Some (Ok tt, db') /\ store_inv db' /\
    head_is db' h (br_number b).
Proof.
  intros Hnodes Hfuel. revert nodes Hnodes db b m. induction k as [|k IH];
    intros nodes Hnodes db b m Hinv Hnw Hbest Hg Hp Hm Hk.
  all: pose proof (sv_table _ _ _ _ Hinv) as Ht; pose proof Hbest as (Hb & Habove & Hall).
  all: destruct (header_parent db h b p Ht Hb Hp Hg) as [Hhp Hnp].
  all: destruct (stored_header db h b Ht Hb) as ([hd Hhd] & Hhn & _).
  all: pose proof (ro_number _ _ _ (to_row _ _ (table_matches_ok _ _ _ Hheaders Ht) h b Hb)) as Hrange.
  all: assert (Hpos : (0 < br_number b)%Z) by
    (destruct (decide (br_number b = 0%Z)) as [Hz|]; [|lia];
     destruct Hg; by apply (ro_genesis _ _ _ (to_row _ _ (table_matches_ok _ _ _ Hheaders Ht) h b Hb))).
  all: destruct (missing_bounds (first_block_of ancestor_count (br_number b)) db m p Ht Hhp ltac:(unfold first_block_of; lia) Hm) as (Hhm & Hnone & Hmb).
  { lia. }
  destruct (ingest_block_spec fuel (nodes 0%nat) db m nw Hinv (Hnodes 0%nat) Hhm Hfuel Hnw)
    as (r & db1 & db2 & Hing & Hinv1 & Hext & Hst & Hsame & Hres & Hinv2).
  pose proof (sv_table _ _ _ _ Hinv1) as Ht1. cbn [ingest_missing]. rewrite Hing.
  assert (Hmh : m <> h) by (intros ->; congruence).
  assert (Hb1 : stored db1 h = Some b) by by rewrite Hsame.
  assert (Hbest1 : best_above cs db1 (head_number nw) h b).
  { split_and!; [done|done|]. intros h' b' Hb' Hne. destruct (decide (h' = m)) as [->|Hnm]; [|apply Hall; [by rewrite <-Hsame|done]].
    destruct (stored_header db1 m b' Ht1 Hb') as (_ & Hnum & _). unfold better_candidate. simpl.
    by destruct (Z.ltb_spec (br_number b') (br_number b)); [|lia]. }
  assert (Hnw1 : cd_networks db1 !! cs_chain cs = Some nw) by by rewrite (proj1 Hext).
  destruct Hres as [(_ & _ & Hmax)|(h2 & b2 & Hbest2 & Hcase)].
  { specialize (Hmax h b Hb1). lia. }
  destruct (best_above_unique _ _ _ _ _ _ _ _ Hbest1 Hbest2) as [<- <-].
  destruct Hcase as [(m' & p' & -> & -> & _ & Hp' & Hm')|(-> & -> & Hc)]; cbn [map_err].
  - assert (p' = p) as -> by congruence.
    pose proof (missing_older (first_block_of ancestor_count (br_number b)) db db1 m m' p Ht Ht1 Hext Hst Hhp ltac:(unfold first_block_of; lia) Hm Hm').
    apply (IH (fun i => nodes (S i)) (fun i => Hnodes (S i))); try done. lia.
  - destruct k; cbn [ingest_missing]; (eexists; split_and!; [done|done|by eapply set_head_is]).
Qed.

(** C22: a poll of the block ingestor ends and catches up with the node.  When the node
    knows the blocks of the chain and the notification can be sent, it needs at most
    one round per ancestor that is kept, does not fail, and leaves a store whose head
    is at least the latest block of the node and has all its ancestors. *)
Theorem ingestor_poll_catches_up rounds fuel nodes now cache db latest :
  store_inv db -> (forall i, node_answers (nodes i)) -> en_latest_block (nodes 0%nat) = Ok latest ->
  (exists p, headers (bp_hash latest) = Some (bp_number latest, p)) ->
  (ancestor_count < Z.of_nat fuel)%Z -> (ancestor_count <= Z.of_nat rounds)%Z ->
  exists db' cache' h num, do_poll rounds fuel nodes true now cache db = Some (Ok tt, db', cache') /\ store_inv db' /\
    head_is db' h num /\ (bp_number latest <= num)%Z.
Proof.
  intros Hinv Hnodes Hlatest [lp Hlh] Hfuel Hrounds. pose proof Hinv as [Ht (nw & Hnw & Hhead)].
  assert (Hptr : exists head cache', cs_chain_head_ptr cs db now cache = (Ok head, cache') /\
    forall ptr, head = Some ptr -> head_is db (bp_hash ptr) (bp_number ptr)).
  { unfold cs_chain_head_ptr. rewrite Hnw. unfold head_inv in Hhead.
    destruct (nw_head_block_hash nw) as [h|] eqn:Hh, (nw_head_block_number nw) as [num|] eqn:Hnum; [|done|done|by do 2 eexists].
    destruct Hhead as (b & Hb & Hbn & _). destruct (to_row _ _ (table_matches_ok _ _ _ Hheaders Ht) h b Hb) as [Hlen _ Hrange _].
    unfold hash_as_h256. rewrite bool_decide_true by done. cbn [bind_result]. unfold ptr_from_i64, i32_max in *.
    replace (0 <=? num)%Z with true by lia. replace (num <=? 2 ^ 31 - 1)%Z with true by lia. simpl.
    do 2 eexists. split; [done|]. intros ptr [= <-]. by exists nw. }
  destruct Hptr as (head & cache' & Hp & Hhd). unfold do_poll. rewrite Hp. cbn [map_err bind_result]. rewrite Hlatest. cbn [bind_result].
  case_bool_decide as Heq; [exists db, cache', (bp_hash latest), (bp_number latest); split_and!; [done|done|by apply Hhd|done]|].
  destruct (ingest_block_spec fuel (nodes 0%nat) db (bp_hash latest) nw Hinv (Hnodes 0%nat)) as
    (r & db1 & db2 & -> & Hinv1 & Hext & [rl Hrl] & Hsame & Hres & Hinv2); [by eexists|done|done|].
  pose proof (sv_table _ _ _ _ Hinv1) as Ht1. destruct (stored_header db1 _ rl Ht1 Hrl) as (_ & Hln & _).
  unfold header_number in Hln. rewrite Hlh in Hln.
  assert (Hnw1 : cd_networks db1 !! cs_chain cs = Some nw) by by rewrite (proj1 Hext).
  destruct Hres as [(-> & -> & Hmax)|(h & b & Hbest & [(m & p & -> & -> & Hg & Hpp & Hm)|(-> & -> & Hc)])]; cbn [map_err].
  - specialize (Hmax _ rl Hrl). unfold head_number in Hmax.
    destruct (ho_number _ _ Hheaders _ _ _ Hlh) as [Hl0 _]. pose proof Hinv1 as [_ (nw' & Hnw' & Hhead')].
    assert (nw' = nw) as -> by congruence. unfold head_inv in Hhead'.
    destruct (nw_head_block_number nw) as [num|] eqn:Hnum; simpl in Hmax; [|lia].
    destruct (nw_head_block_hash nw) as [h|] eqn:Hh; [|done].
    exists db1, cache', h, num. split_and!; [by destruct rounds|done|by exists nw|lia].
  - pose proof (best_above_max cs _ _ _ _ _ _ Hbest Hrl). pose proof Hbest as (Hb & _ & _).
    destruct (header_parent db1 h b p Ht1 Hb Hpp Hg) as [Hhp Hnp].
    pose proof (ro_number _ _ _ (to_row _ _ (table_matches_ok _ _ _ Hheaders Ht1) h b Hb)) as Hrange.
    assert (Hpos : (0 < br_number b)%Z).
    { destruct (decide (br_number b = 0%Z)) as [Hz|]; [|lia]. destruct Hg.
      by apply (ro_genesis _ _ _ (to_row _ _ (table_matches_ok _ _ _ Hheaders Ht1) h b Hb)). }
    destruct (missing_bounds (first_block_of ancestor_count (br_number b)) db1 m p Ht1 Hhp ltac:(unfold first_block_of; lia) Hm) as (_ & _ & Hmb).
    destruct (ingest_missing_spec rounds fuel (fun i => nodes (S i)) db1 nw h b p m) as (db' & Hend & Hinv' & Hhd'); try done.
    { unfold first_block_of in *. lia. }
    exists db', cache', h, (br_number b). split_and!; [by rewrite Hend|done|done|lia].
  - pose proof (best_above_max cs _ _ _ _ _ _ Hbest Hrl).
    exists (set_head (cs_chain cs) h (br_number b) db1), cache', h, (br_number b).
    split_and!; [by destruct rounds|done|by eapply set_head_is|lia].
Qed.

End Ingestor.
