(* ===== verification/ChainStoreExamples.v ===== *)
(** * A chain store at work

    A chain of four blocks for the laws of [ChainStoreProps.v] and [Ingestor.v], and
    two runs in which the chain store departs from its documentation. *)

From Stdlib Require Import Strings.Byte.
From stdpp Require Import base numbers list gmap countable strings.
From S2P Require Import Prelude GraphqlAst Scalars RuntimeValue Values Names StoreTypes.
From S2P Require Import ChainStore ChainStoreProps Ingestor.

#[export] Instance string_json : BlockJson string := {|
  json_has_block s := bool_decide (s = "wrapped");
  json_wrap_block _ := "wrapped";
  json_block s := s
|}.

(** The block with a number, whose hash is made of it *)
Definition hash_of (b : byte) : Bytes := replicate 32 b.

Inductive ExBlock := Ex0 | Ex1 | Ex2 | Ex3.

Definition ex_hash (b : ExBlock) : Bytes :=
  hash_of match b with Ex0 => x10 | Ex1 => x11 | Ex2 => x12 | Ex3 => x13 end.
Definition ex_number (b : ExBlock) : Z := match b with Ex0 => 0 | Ex1 => 1 | Ex2 => 2 | Ex3 => 3 end.
Definition ex_parent (b : ExBlock) : option ExBlock :=
  match b with Ex0 => None | Ex1 => Some Ex0 | Ex2 => Some Ex1 | Ex3 => Some Ex2 end.
Definition ex_ptr (b : ExBlock) : BlockPtr := mkPtr (ex_hash b) (ex_number b).

#[export] Instance ex_chain_block : ChainBlock ExBlock string := {|
  cb_ptr := ex_ptr;
  cb_parent_ptr b := ex_ptr <$> ex_parent b;
  cb_data b := Some "data"
|}.

Definition ex_store : ChainStoreData := mkChainStore "mainnet" Private (ex_ptr Ex0).

Definition ex_find (h : Bytes) : option ExBlock :=
  List.find (fun b => bool_decide (ex_hash b = h)) [Ex0; Ex1; Ex2; Ex3].

Definition ex_headers (h : Bytes) : option (Z * Bytes) :=
  (fun b => (ex_number b, match ex_parent b with Some p => ex_hash p | None => NO_PARENT end)) <$> ex_find h.

Lemma ex_headers_Some h n p :
  ex_headers h = Some (n, p) ->
  exists b, h = ex_hash b /\ n = ex_number b /\ p = match ex_parent b with Some p => ex_hash p | None => NO_PARENT end.
Proof.
  unfold ex_headers. destruct (ex_find h) as [b|] eqn:Hb; [|done]. intros [= <- <-].
  apply find_some in Hb as [_ Hb]. apply bool_decide_eq_true in Hb. by exists b.
Qed.

Lemma ex_headers_ok : headers_ok ex_store ex_headers.
Proof.
  split.
  - reflexivity.
  - intros h n p (b & -> & -> & ->)%ex_headers_Some. by destruct b.
  - intros h n p (b & -> & -> & ->)%ex_headers_Some. unfold i32_max. destruct b; simpl; lia.
  - intros h n p (b & -> & -> & ->)%ex_headers_Some. by destruct b.
  - intros h n p n' p' (b & -> & -> & ->)%ex_headers_Some (b' & Hb & -> & ->)%ex_headers_Some Hg.
    destruct b, b'; try discriminate Hb; try reflexivity; by destruct Hg.
Qed.

Lemma ex_block_matches b : block_matches ex_headers b.
Proof. split; [by eexists|]. by destruct b. Qed.

(** The latest block is stored first, and its parents as they are asked for. *)
Definition ex_node : EthNode ExBlock ExBlock string :=
  mkEthNode _ _ _ (Ok (ex_ptr Ex3)) (fun h => Ok (ex_find h)) Ok.

Definition ex_empty : ChainDb string := empty_store ex_store "1".
Definition ex_cache : TimedCache string BlockPtr := timed_cache_new 5.

Definition ex_polled : option (result (IngestorError string) unit * ChainDb string * TimedCache string BlockPtr) :=
  do_poll ex_store 2 5 10 (fun _ => ex_node) true 0 ex_cache ex_empty.

Definition ex_outcome (x : option (result (IngestorError string) unit * ChainDb string * TimedCache string BlockPtr))
    : option (list Z * result ChainError (option BlockPtr)) :=
  (fun y => (map (fun hr => br_number hr.2) (map_to_list (cd_blocks y.1.2)), (cs_chain_head_ptr ex_store y.1.2 0 ex_cache).1)) <$> x.

Lemma ex_node_answers : node_answers ex_headers ex_node.
Proof.
  intros h [[n p] Hh]. destruct (ex_headers_Some h n p Hh) as (b & -> & _ & _). exists b, b.
  split_and!; [by destruct b|done|done|apply ex_block_matches].
Qed.

Lemma ingestor_poll_catches_up_witness :
  exists db' cache' h num, ex_polled = Some (Ok tt, db', cache') /\ ChainStoreProps.store_inv ex_store ex_headers 2 db' /\
    head_is ex_store db' h num /\ (3 <= num)%Z.
Proof.
  apply (ingestor_poll_catches_up ex_store 2 ex_headers ex_headers_ok) with (latest := ex_ptr Ex3).
  - unfold i32_max. lia.
  - intros h n p (b & -> & _ & ->)%ex_headers_Some Hg. destruct b; [by destruct Hg|by eexists..].
  - apply empty_store_inv.
  - intros _. exact ex_node_answers.
  - reflexivity.
  - exists (ex_hash Ex2). reflexivity.
  - lia.
  - lia.
Defined.

(** Three blocks are stored before block 3 becomes the head. *)
Lemma ex_polled_blocks :
  option_map (fun x => (length x.1, x.2)) (ex_outcome ex_polled) = Some (3%nat, Ok (Some (ex_ptr Ex3))).
Proof. vm_compute. reflexivity. Qed.

Definition ex_upsert (b : ExBlock) (db : ChainDb string) : ChainDb string :=
  match cs_upsert_block ex_store b db with Ok db => db | _ => db end.

Definition ex_db3 : ChainDb string := ex_upsert Ex1 (ex_upsert Ex2 (ex_upsert Ex3 ex_empty)).

Definition ex_headed : ChainDb string :=
  match cs_attempt_chain_head_update 10 ex_store 2 true ex_db3 with Some (_, db) => db | None => ex_db3 end.

Lemma ex_headed_steps : rtc (store_step ex_store ex_headers 2) ex_empty ex_headed.
Proof.
  eapply rtc_l; [apply (step_upsert _ _ _ Ex3 true); [apply ex_block_matches|reflexivity]|].
  eapply rtc_l; [apply (step_upsert _ _ _ Ex2 true); [apply ex_block_matches|reflexivity]|].
  eapply rtc_l; [apply (step_upsert _ _ _ Ex1 true); [apply ex_block_matches|reflexivity]|].
  eapply rtc_l; [apply (step_attempt _ _ _ 10 true (Ok None)); [lia|vm_compute; reflexivity]|].
  apply rtc_refl.
Qed.

Lemma chain_head_has_ancestors_witness :
  exists head cache', cs_chain_head_ptr ex_store ex_headed 0 ex_cache = (Ok head, cache') /\
    forall ptr k, head = Some ptr -> (0 <= k <= 2)%Z -> (k <= bp_number ptr)%Z ->
    exists h r, lookup_block Private "mainnet" ex_headed h = Some r /\ br_number r = (bp_number ptr - k)%Z /\
      cs_ancestor_block ex_store ptr k ex_headed =
        Ok (Some (if json_has_block (br_data r) then br_data r else json_wrap_block (br_data r))).
Proof.
  apply (chain_head_has_ancestors ex_store ex_headers 2 ex_headers_ok) with (net_version := "1").
  - unfold i32_max. lia.
  - exact ex_headed_steps.
Defined.

(** ** Departures *)

(** One step further back *)
Lemma ancestor_hash_step {Json} (db : ChainDb Json) start m k child b :
  m = S k -> ancestor_hash db start k = Some (Some child) -> cd_blocks db !! child = Some b ->
  ancestor_hash db start m = Some (br_parent_hash b).
Proof.
  intros -> Hk Hb. revert start Hk. induction k as [|k IH]; intros start Hk.
  - injection Hk as ->. simpl. by rewrite Hb.
  - cbn [ancestor_hash] in Hk |- *. destruct (start ≫= _) as [r|]; [|done]. exact (IH _ Hk).
Qed.

(** An ancestor that is not stored is an error, not [None] as the trait documents,
    when its child is stored. *)
Theorem missing_ancestor_is_error {Json} `{BlockJson Json} (cs : ChainStoreData) (db : ChainDb Json) ptr k child b parent :
  (0 <= k < bp_number ptr)%Z -> ancestor_hash db (Some (bp_hash ptr)) (Z.to_nat k) = Some (Some child) ->
  cd_blocks db !! child = Some b -> br_parent_hash b = Some parent -> cd_blocks db !! parent = None ->
  cs_ancestor_block cs ptr (k + 1) db = Err RowNotFound.
Proof.
  intros Hk Hc Hb Hp Hnone. unfold cs_ancestor_block, storage_ancestor_block.
  destruct (Z.leb_spec (k + 1) (bp_number ptr)); [|lia]. destruct (Z.ltb_spec (k + 1) 0); [lia|].
  rewrite (ancestor_hash_step db (Some (bp_hash ptr)) (Z.to_nat (k + 1)) (Z.to_nat k) child b) by (done || lia).
  by rewrite Hp, Hnone.
Qed.

Lemma missing_ancestor_is_error_witness :
  cs_ancestor_block ex_store (ex_ptr Ex3) (1 + 1) (ex_upsert Ex2 (ex_upsert Ex3 ex_empty)) = Err RowNotFound.
Proof.
  apply (missing_ancestor_is_error ex_store (ex_upsert Ex2 (ex_upsert Ex3 ex_empty)) (ex_ptr Ex3) 1 (ex_hash Ex2)
           (mkBlockRow 2 (Some (ex_hash Ex1)) "mainnet" "data") (ex_hash Ex1)).
  - simpl. lia.
  - reflexivity.
  - reflexivity.
  - reflexivity.
  - reflexivity.
Defined.

(** A call that is set again in a private schema does not renew the date of the last
    access to its contract, although the query is meant to, while in the shared schema
    it does: the condition of the update looks at the row to be inserted. *)
Theorem set_call_keeps_old_access {Json} (blake3 : Bytes -> Bytes) (cs : ChainStoreData) (today d : Z)
    contract call block value (db : ChainDb Json) :
  cd_call_meta db !! contract = Some d -> (d < today)%Z ->
  cd_call_meta (cs_set_call blake3 cs today contract call block value db) !! contract =
    Some match cs_storage cs with Private => d | Shared => today end.
Proof.
  intros Hd Hlt. unfold cs_set_call, storage_set_call. cbn [cd_call_meta]. rewrite Hd.
  destruct (Z.ltb_spec d today); [|lia]. destruct (cs_storage cs); simpl.
  - apply lookup_insert_eq.
  - by rewrite Z.ltb_irrefl.
Qed.

Lemma set_call_keeps_old_access_witness :
  let db := mkChainDb (Json:=string) ∅ ∅ ∅ {[ [x01] := 5%Z ]} in
  cd_call_meta (cs_set_call (fun b => b) ex_store 7 [x01] [x02] (ex_ptr Ex3) [x03] db) !! [x01] = Some 5%Z.
Proof. apply (set_call_keeps_old_access (fun b => b) ex_store 7 5); [reflexivity|lia]. Defined.
