(* ===== verification/EthTypes.v ===== *)
(** * Ethereum blocks, calls and triggers

    [graph/src/components/ethereum/types.rs] and the triggers of
    [chain/ethereum/src/trigger.rs] with the order in which a block's triggers are
    processed.  The structures of the [web3] crate have the fields that are used;
    addresses and hashes are bytes, and fields that are missing for data that is not
    mined yet are options. *)

From Stdlib Require Import Strings.Byte.
From stdpp Require Import base numbers list gmap countable strings.
From S2P Require Import Prelude GraphqlAst Scalars RuntimeValue Values Names StoreTypes ChainStore.

(** ** Structures of the web3 crate *)

Record EthTransaction := mkEthTransaction {
  tx_hash : Bytes;
  tx_block_hash : option Bytes;
  tx_block_number : option Z;
  tx_transaction_index : option Z;
  tx_from : option Bytes
}.

Record EthLog := mkEthLog {
  log_address : Bytes;
  log_topics : list Bytes;
  log_data : Bytes;
  log_block_hash : option Bytes;
  log_block_number : option Z;
  log_transaction_hash : option Bytes;
  log_transaction_index : option Z;
  log_index : option Z
}.

Record EthReceipt := mkEthReceipt {
  rc_transaction_hash : Bytes;
  rc_block_hash : option Bytes;
  rc_status : option Z;
  rc_logs : list EthLog
}.

Record LightEthereumBlock := mkLightBlock {
  lb_hash : option Bytes;
  lb_number : option Z;
  lb_parent_hash : Bytes;
  lb_transactions : list EthTransaction
}.

Inductive TraceAction :=
| ActionCall (from to : Bytes) (value : Z) (input : Bytes)
| ActionOther.

Inductive TraceResult :=
| ResCall (output : Bytes) (gas_used : Z)
| ResOther.

Record EthTrace := mkEthTrace {
  tr_action : TraceAction;
  tr_result : option TraceResult;
  tr_error : option string;
  tr_transaction_position : option Z;
  tr_transaction_hash : option Bytes;
  tr_block_number : Z;
  tr_block_hash : Bytes
}.

#[export] Instance EthTransaction_eq_dec : EqDecision EthTransaction.
Proof. solve_decision. Defined.
#[export] Instance EthLog_eq_dec : EqDecision EthLog.
Proof. solve_decision. Defined.
#[export] Instance EthReceipt_eq_dec : EqDecision EthReceipt.
Proof. solve_decision. Defined.

(** ** Blocks *)

(** [BlockPtr::from((H256, u64))] *)
Definition ptr_from_u64 {E} (hash : Bytes) (number : Z) : result E BlockPtr :=
  assert! (number <=? i32_max)%Z ;; Ok (mkPtr hash number).

Definition light_number {E} (b : LightEthereumBlock) : result E BlockNumber :=
  let? number := expect (lb_number b) in
  assert! (number <=? i32_max)%Z ;; Ok number.

Definition light_block_ptr {E} (b : LightEthereumBlock) : result E BlockPtr :=
  let? hash := expect (lb_hash b) in
  let? number := expect (lb_number b) in
  ptr_from_u64 hash number.

Definition light_parent_ptr {E} (b : LightEthereumBlock) : result E (option BlockPtr) :=
  let? n := light_number b in
  Ok (if (n =? 0)%Z then None else Some (mkPtr (lb_parent_hash b) (n - 1))).

Definition find_transaction (b : LightEthereumBlock) (hash : option Bytes) : option EthTransaction :=
  hash ≫= fun hash => List.find (fun tx => bool_decide (tx_hash tx = hash)) (lb_transactions b).

Definition transaction_for_log (b : LightEthereumBlock) (log : EthLog) : option EthTransaction :=
  find_transaction b (log_transaction_hash log).

Record EthereumCall := mkEthereumCall {
  call_from : Bytes;
  call_to : Bytes;
  call_value : Z;
  call_gas_used : Z;
  call_input : Bytes;
  call_output : Bytes;
  call_number : BlockNumber;
  call_block_hash : Bytes;
  call_transaction_hash : option Bytes;
  call_transaction_index : Z
}.

#[export] Instance EthereumCall_eq_dec : EqDecision EthereumCall.
Proof. solve_decision. Defined.

Definition transaction_for_call (b : LightEthereumBlock) (call : EthereumCall) : option EthTransaction :=
  find_transaction b (call_transaction_hash call).

(** Calls are the traces of successful calls with at least a selector as their input. *)
Definition try_from_trace (trace : EthTrace) : option EthereumCall :=
  match tr_error trace with
  | Some _ => None
  | None =>
      match tr_action trace with
      | ActionCall from to value input =>
          if (4 <=? length input)%nat then
            match tr_result trace with
            | Some (ResCall output gas_used) =>
                (fun transaction_index =>
                   mkEthereumCall from to value gas_used input output (wrap_i32 (tr_block_number trace))
                     (tr_block_hash trace) (tr_transaction_hash trace) transaction_index)
                  <$> tr_transaction_position trace
            | _ => None
            end
          else None
      | ActionOther => None
      end
  end.

Record EthereumBlock := mkEthereumBlock {
  eb_block : LightEthereumBlock;
  eb_transaction_receipts : list EthReceipt
}.

Record EthereumBlockWithCalls := mkBlockWithCalls {
  bc_ethereum_block : EthereumBlock;
  bc_calls : option (list EthereumCall)
}.

(** A receipt without a status (before EIP-658) counts as success. *)
Definition evaluate_transaction_status (status : option Z) : bool :=
  match status with Some s => negb (s =? 0)%Z | None => true end.

Inductive EthError :=
| NoTransactionForCall
| NoReceiptForCall
| EthOther (msg : string).

Definition transaction_for_call_succeeded (b : EthereumBlockWithCalls) (call : EthereumCall) : result EthError bool :=
  let? hash := ok_or NoTransactionForCall (call_transaction_hash call) in
  let? receipt := ok_or NoReceiptForCall
    (List.find (fun r => bool_decide (rc_transaction_hash r = hash)) (eb_transaction_receipts (bc_ethereum_block b))) in
  Ok (evaluate_transaction_status (rc_status receipt)).

Inductive BlockFinality :=
| Final (b : LightEthereumBlock)
| NonFinal (b : EthereumBlockWithCalls).

Definition finality_light_block (b : BlockFinality) : LightEthereumBlock :=
  match b with Final b => b | NonFinal b => eb_block (bc_ethereum_block b) end.

(** ** Triggers *)

Inductive EthereumBlockTriggerType :=
| Every
| WithCallTo (address : Bytes).

Inductive EthereumTrigger :=
| TriggerBlock (ptr : BlockPtr) (kind : EthereumBlockTriggerType)
| TriggerCall (call : EthereumCall)
| TriggerLog (log : EthLog) (receipt : option EthReceipt).

#[export] Instance EthereumBlockTriggerType_eq_dec : EqDecision EthereumBlockTriggerType.
Proof. solve_decision. Defined.
#[export] Instance EthereumTrigger_eq_dec : EqDecision EthereumTrigger.
Proof. solve_decision. Defined.

(** [PartialEq for EthereumTrigger]: two logs are equal when they have the same place. *)
Definition trigger_eq (a b : EthereumTrigger) : bool :=
  match a, b with
  | TriggerBlock p k, TriggerBlock p' k' => bool_decide (p = p') && bool_decide (k = k')
  | TriggerCall c, TriggerCall c' => bool_decide (c = c')
  | TriggerLog l r, TriggerLog l' r' =>
      bool_decide (log_transaction_hash l = log_transaction_hash l') && bool_decide (log_index l = log_index l')
      && bool_decide (r = r')
  | _, _ => false
  end.

Definition trigger_block_number {E} (t : EthereumTrigger) : result E BlockNumber :=
  match t with
  | TriggerBlock p _ => Ok (bp_number p)
  | TriggerCall c => Ok (call_number c)
  | TriggerLog l _ =>
      let? n := expect (log_block_number l) in
      assert! (n <=? i32_max)%Z ;; Ok n
  end.

Definition trigger_block_hash {E} (t : EthereumTrigger) : result E Bytes :=
  match t with
  | TriggerBlock p _ => hash_as_h256 (bp_hash p)
  | TriggerCall c => Ok (call_block_hash c)
  | TriggerLog l _ => expect (log_block_hash l)
  end.

Definition option_cmp (a b : option Z) : comparison :=
  match a, b with
  | None, None => Eq
  | None, Some _ => Lt
  | Some _, None => Gt
  | Some a, Some b => (a ?= b)%Z
  end.

(** [Ord for EthereumTrigger]; it panics when the index of a log's transaction is not
    known. *)
Definition trigger_cmp {E} (a b : EthereumTrigger) : result E comparison :=
  match a, b with
  | TriggerBlock _ _, TriggerBlock _ _ => Ok Eq
  | TriggerBlock _ _, _ => Ok Gt
  | _, TriggerBlock _ _ => Ok Lt
  | TriggerCall a, TriggerCall b => Ok (call_transaction_index a ?= call_transaction_index b)%Z
  | TriggerLog a _, TriggerLog b _ => Ok (option_cmp (log_index a) (log_index b))
  | TriggerCall a, TriggerLog b _ =>
      let? index := expect (log_transaction_index b) in
      Ok (if (call_transaction_index a =? index)%Z then Gt else (call_transaction_index a ?= index)%Z)
  | TriggerLog a _, TriggerCall b =>
      let? index := expect (log_transaction_index a) in
      Ok (if (index =? call_transaction_index b)%Z then Lt else (index ?= call_transaction_index b)%Z)
  end.

(** Whether a stable sort leaves [a] before [b] *)
Definition trigger_leb (a b : EthereumTrigger) : bool :=
  match trigger_cmp (E:=unit) a b with Ok Gt => false | _ => true end.

(** [BlockWithTriggers::new]: the order of the triggers of mined blocks, where a
    comparison does not panic *)
Definition sort_triggers (triggers : list EthereumTrigger) : list EthereumTrigger := sort_by trigger_leb triggers.

(** ** The order of triggers *)

(** What holds of the triggers of a mined block: logs have their indices, and are
    numbered in the order of their transactions. *)
Definition indexed (t : EthereumTrigger) : Prop :=
  match t with
  | TriggerLog l _ => is_Some (log_transaction_index l) /\ is_Some (log_index l)
  | _ => True
  end.

Definition logs_in_order (a b : EthereumTrigger) : Prop :=
  match a, b with
  | TriggerLog l _, TriggerLog l' _ =>
      forall i i' n n', log_transaction_index l = Some i -> log_transaction_index l' = Some i' ->
        log_index l = Some n -> log_index l' = Some n' -> (i < i')%Z -> (n < n')%Z
  | _, _ => True
  end.

Definition mined (triggers : list EthereumTrigger) : Prop :=
  Forall indexed triggers /\ forall a b, a ∈ triggers -> b ∈ triggers -> logs_in_order a b.

(** What a mapping can rely on when [a] comes before [b] *)
Definition comes_before (a b : EthereumTrigger) : Prop :=
  match a, b with
  | TriggerBlock _ _, TriggerBlock _ _ => True
  | TriggerBlock _ _, _ => False
  | _, TriggerBlock _ _ => True
  | TriggerCall c, TriggerCall c' => (call_transaction_index c <= call_transaction_index c')%Z
  | TriggerLog l _, TriggerLog l' _ =>
      forall n n', log_index l = Some n -> log_index l' = Some n' -> (n <= n')%Z
  | TriggerLog l _, TriggerCall c => forall i, log_transaction_index l = Some i -> (i <= call_transaction_index c)%Z
  | TriggerCall c, TriggerLog l _ => forall i, log_transaction_index l = Some i -> (call_transaction_index c < i)%Z
  end.

(** Sorting by an order that is total and transitive on the elements of a list *)
Lemma sort_by_strongly {A} (leb : A -> A -> bool) (l : list A) :
  (forall a b, a ∈ l -> b ∈ l -> leb a b = false -> leb b a = true) ->
  (forall a b c, a ∈ l -> b ∈ l -> c ∈ l -> leb a b = true -> leb b c = true -> leb a c = true) ->
  StronglySorted (fun a b => leb a b = true) (sort_by leb l).
Proof.
  induction l as [|x l IH]; intros Htot Htrans; simpl; [constructor|]. fold (sort_by leb l).
  assert (Hs : StronglySorted (fun a b => leb a b = true) (sort_by leb l)).
  { apply IH; [intros a b Ha Hb; apply Htot; by right|intros a b c Ha Hb Hc; apply Htrans; by right]. }
  assert (Hin : forall y, y ∈ sort_by leb l -> y ∈ x :: l) by (intros y Hy; right; by rewrite sort_by_perm in Hy).
  clear IH. induction Hs as [|y s Hs IH Hy]; simpl; [repeat constructor|].
  assert (Hiny : y ∈ x :: l) by (apply Hin; by left). destruct (leb x y) eqn:Hxy.
  - constructor; [by constructor|]. constructor; [done|]. rewrite Forall_forall in Hy |- *. intros z Hz.
    apply (Htrans x y z); [by left|done|apply Hin; by right|done|by apply Hy].
  - constructor; [apply IH; intros z Hz; apply Hin; by right|].
    rewrite sort_insert_perm. constructor; [|done]. apply Htot; [by left|done|done].
Qed.

Lemma trigger_cmp_mined a b : indexed a -> indexed b -> exists c, trigger_cmp (E:=unit) a b = Ok c.
Proof.
  intros Ha Hb. destruct a as [p k|c|l r], b as [p' k'|c'|l' r']; simpl; try by eexists.
  - destruct Hb as [[i ->] _]. by eexists.
  - destruct Ha as [[i ->] _]. by eexists.
Qed.

Lemma trigger_leb_spec a b : indexed a -> indexed b -> trigger_leb a b = true <-> comes_before a b.
Proof.
  intros Ha Hb. unfold trigger_leb. destruct a as [p k|c|l r], b as [p' k'|c'|l' r']; simpl; try done.
  - by destruct (Z.compare_spec (call_transaction_index c) (call_transaction_index c')); split; try done; lia.
  - destruct Hb as [[i Hi] _]. rewrite Hi. simpl. split.
    + intros H i' [= <-]. destruct (Z.eqb_spec (call_transaction_index c) i); [done|].
      by destruct (Z.compare_spec (call_transaction_index c) i).
    + intros H. specialize (H i eq_refl). destruct (Z.eqb_spec (call_transaction_index c) i); [lia|].
      by destruct (Z.compare_spec (call_transaction_index c) i); [..|lia].
  - destruct Ha as [[i Hi] _]. rewrite Hi. simpl. split.
    + intros H i' [= <-]. destruct (Z.eqb_spec i (call_transaction_index c')); [lia|].
      by destruct (Z.compare_spec i (call_transaction_index c')); [lia|lia|].
    + intros H. specialize (H i eq_refl). destruct (Z.eqb_spec i (call_transaction_index c')); [done|].
      by destruct (Z.compare_spec i (call_transaction_index c')); [..|lia].
  - destruct Ha as [_ [n Hn]], Hb as [_ [n' Hn']]. rewrite Hn, Hn'. simpl. split.
    + intros H m m' [= <-] [= <-]. by destruct (Z.compare_spec n n'); [lia|lia|].
    + intros H. specialize (H n n' eq_refl eq_refl). by destruct (Z.compare_spec n n'); [..|lia].
Qed.

Lemma comes_before_total a b : indexed a -> indexed b -> ~ comes_before a b -> comes_before b a.
Proof.
  intros Ha Hb. destruct a as [p k|c|l r], b as [p' k'|c'|l' r']; simpl in *; try done; [lia|..].
  - destruct Hb as [[i ->] _]. intros H i' [= <-]. apply Z.le_ngt. intros Hlt. apply H. by intros ? [= <-].
  - destruct Ha as [[i ->] _]. intros H i' [= <-]. apply Z.lt_nge. intros Hle. apply H. by intros ? [= <-].
  - destruct Ha as [_ [n ->]], Hb as [_ [n' ->]]. intros H m m' [= <-] [= <-]. apply Z.le_ngt. intros Hlt. apply H.
    intros ? ? [= <-] [= <-]. lia.
Qed.

(** Facts about logs at their indices *)
Ltac use_indices :=
  repeat match goal with
         | H : is_Some _ /\ is_Some _ |- _ => destruct H as [[? ?] [? ?]]
         end;
  repeat match goal with
         | H : forall i i' n n', log_transaction_index ?l = Some i -> log_transaction_index ?l' = Some i' -> _,
           E : log_transaction_index ?l = Some ?i, E' : log_transaction_index ?l' = Some ?i',
           F : log_index ?l = Some ?n, F' : log_index ?l' = Some ?n' |- _ => specialize (H i i' n n' E E' F F')
         | H : forall n n', log_index ?l = Some n -> log_index ?l' = Some n' -> _,
           F : log_index ?l = Some ?n, F' : log_index ?l' = Some ?n' |- _ => specialize (H n n' F F')
         | H : forall i, log_transaction_index ?l = Some i -> _, E : log_transaction_index ?l = Some ?i |- _ =>
             specialize (H i E)
         end;
  intros; simplify_eq; try lia.

Lemma comes_before_trans a b c :
  indexed a -> indexed b -> indexed c ->
  logs_in_order a c -> logs_in_order c a -> logs_in_order a b -> logs_in_order b a -> logs_in_order b c -> logs_in_order c b ->
  comes_before a b -> comes_before b c -> comes_before a c.
Proof.
  intros Ha Hb Hc Hac Hca Hab Hba Hbc Hcb H H'.
  destruct a as [p k|x|l r], b as [p' k'|x'|l' r'], c as [p'' k''|x''|l'' r'']; simpl in *; try done; use_indices.
Qed.

Definition is_block_trigger (t : EthereumTrigger) : bool := match t with TriggerBlock _ _ => true | _ => false end.

Lemma sort_insert_blocks x l :
  List.filter is_block_trigger (sort_insert trigger_leb x l) = List.filter is_block_trigger (x :: l).
Proof.
  induction l as [|y l IH]; [done|]. cbn [sort_insert]. destruct (trigger_leb x y) eqn:Hxy; [done|].
  simpl in IH |- *. rewrite IH. by destruct x, y.
Qed.

Lemma sort_triggers_blocks l : List.filter is_block_trigger (sort_triggers l) = List.filter is_block_trigger l.
Proof.
  induction l as [|x l IH]; [done|]. unfold sort_triggers. simpl. fold (sort_by trigger_leb l). fold (sort_triggers l).
  rewrite sort_insert_blocks. simpl. by rewrite IH.
Qed.

(** C30: the triggers of a block are processed in order: sorting them keeps every trigger,
    no comparison panics, and afterwards block triggers come last, calls are in the
    order of their transactions and logs in the order of their indices, with the logs of
    a transaction before its calls; block triggers keep their order. *)
Theorem triggers_sorted triggers :
  mined triggers ->
  (forall a b, a ∈ triggers -> b ∈ triggers -> trigger_cmp (E:=unit) a b <> Panic) /\
  sort_triggers triggers ≡ₚ triggers /\ StronglySorted comes_before (sort_triggers triggers) /\
  List.filter is_block_trigger (sort_triggers triggers) = List.filter is_block_trigger triggers.
Proof.
  intros [Hind Hord]. rewrite Forall_forall in Hind. split_and!; [| | |apply sort_triggers_blocks].
  - intros a b Ha Hb. by destruct (trigger_cmp_mined a b (Hind a Ha) (Hind b Hb)) as [c ->].
  - apply sort_by_perm.
  - assert (Hs : StronglySorted (fun a b => trigger_leb a b = true) (sort_triggers triggers)).
    { apply sort_by_strongly.
      - intros a b Ha Hb Hf. apply trigger_leb_spec; [by apply Hind..|]. apply comes_before_total; [by apply Hind..|].
        rewrite <-trigger_leb_spec by by apply Hind. congruence.
      - intros a b c Ha Hb Hc. rewrite !trigger_leb_spec by by apply Hind.
        apply comes_before_trans; by (apply Hind || apply Hord). }
    assert (Hin : Forall indexed (sort_triggers triggers)) by (unfold sort_triggers; rewrite sort_by_perm; by apply Forall_forall).
    clear Hord. induction Hs as [|x l Hs IH Hx]; constructor; apply Forall_cons in Hin as [Hix Hin]; [by apply IH|].
    rewrite Forall_forall in Hx, Hin |- *. intros y Hy. apply trigger_leb_spec; auto.
Qed.
