(* ===== verification/EthDataSource.v ===== *)
(** * Data sources of Ethereum subgraphs

    [chain/ethereum/src/data_source.rs]: the handlers of a data source, which handler
    processes a trigger and with which decoded parameters, the validation of a data
    source, and how data sources are made from templates and stored.

    The hash function, the codec of the Ethereum ABI and the JSON text of a context are
    parameters. *)

From Stdlib Require Import Strings.Byte.
From stdpp Require Import base numbers list gmap countable strings pretty.
From S2P Require Import Prelude GraphqlAst Scalars RuntimeValue Values Names StoreTypes.
From S2P Require Import Schema BlockRange Relational DeploymentStore ChainStore EthTypes.

(** ** The ABI of a contract *)

Inductive ParamType :=
| PAddress
| PBytes
| PInt (size : N)
| PUint (size : N)
| PBool
| PString
| PArray (inner : ParamType)
| PFixedBytes (size : N)
| PFixedArray (inner : ParamType) (size : N)
| PTuple (components : list ParamType).

Record EventParam := mkEventParam { ep_name : string; ep_kind : ParamType; ep_indexed : bool }.
Record AbiEvent := mkAbiEvent { ev_name : string; ev_inputs : list EventParam }.

Inductive StateMutability := Payable | NonPayable | Pure | View.

Record AbiParam := mkAbiParam { ap_name : string; ap_kind : ParamType }.
Record AbiFunction := mkAbiFunction {
  fn_name : string;
  fn_inputs : list AbiParam;
  fn_outputs : list AbiParam;
  fn_state_mutability : StateMutability
}.

(** The events and functions in the order in which the contract lists them *)
Record MappingABI := mkMappingABI {
  abi_name : string;
  abi_events : list AbiEvent;
  abi_functions : list AbiFunction
}.

(** The codec of the [ethabi] crate; [None] stands for a failure. *)
Class AbiCodec (Token : Type) := {
  parse_log : AbiEvent -> list Bytes -> Bytes -> option (list (string * Token));
  decode_input : AbiFunction -> Bytes -> option (list Token);
  decode_output : AbiFunction -> Bytes -> option (list Token);
  param_type_display : ParamType -> string
}.

Class Keccak := {
  keccak256 : Bytes -> Bytes;
  keccak256_length b : length (keccak256 b) = 32%nat
}.

Class ContextJson := {
  context_to_string : Entity -> string;
  context_from_str : string -> option Entity
}.

(** [str::replace] with the empty string *)
Fixpoint str_remove_fuel (fuel : nat) (pat s : string) : string :=
  match fuel, s with
  | S fuel, String c rest =>
      if String.prefix pat s then str_remove_fuel fuel pat (drop_str (String.length pat) s)
      else String c (str_remove_fuel fuel pat rest)
  | _, _ => s
  end.
Definition str_remove (pat s : string) : string := str_remove_fuel (String.length s) pat s.

Definition string_bytes (s : string) : Bytes := map Ascii.byte_of_ascii (chars s).

(** ** Mappings *)

Inductive BlockHandlerFilter := CallFilter.

#[export] Instance BlockHandlerFilter_eq_dec : EqDecision BlockHandlerFilter.
Proof. solve_decision. Defined.

Record MappingBlockHandler := mkBlockHandler { bh_handler : string; bh_filter : option BlockHandlerFilter }.
Record MappingCallHandler := mkCallHandler { ch_function : string; ch_handler : string }.
Record MappingEventHandler := mkEventHandler {
  eh_event : string;
  eh_topic0 : option Bytes;
  eh_handler : string;
  eh_receipt : bool
}.

Definition Version := (Z * Z * Z)%type.

Definition version_ltb (a b : Version) : bool :=
  let '(a1, a2, a3) := a in let '(b1, b2, b3) := b in
  ((a1 <? b1) || ((a1 =? b1) && ((a2 <? b2) || ((a2 =? b2) && (a3 <? b3)))))%Z.

Record Mapping := mkMapping {
  mp_kind : string;
  mp_api_version : Version;
  mp_abis : list MappingABI;
  mp_block_handlers : list MappingBlockHandler;
  mp_call_handlers : list MappingCallHandler;
  mp_event_handlers : list MappingEventHandler
}.

Definition has_call_handler (m : Mapping) : bool := negb (bool_decide (mp_call_handlers m = [])).

Definition is_call_filter (h : MappingBlockHandler) : bool := bool_decide (bh_filter h = Some CallFilter).

Definition has_block_handler_with_call_filter (m : Mapping) : bool := existsb is_call_filter (mp_block_handlers m).

Record DataSource := mkDataSource {
  ds_kind : string;
  ds_network : option string;
  ds_name : string;
  ds_source : Source;
  ds_mapping : Mapping;
  ds_context : option Entity;
  ds_creation_block : option BlockNumber;
  ds_contract_abi : MappingABI
}.

Record DataSourceTemplate := mkTemplate {
  tp_kind : string;
  tp_network : option string;
  tp_name : string;
  tp_abi : string;
  tp_mapping : Mapping
}.

Inductive DataSourceError :=
| AbiNotFound (name : string)
| NoTopics
| InputTooShort
| EventNotFound (event contract name : string)
| MultipleHandlers (event : string)
| NoTransactionForEvent
| FunctionNotFound (function contract name : string)
| InputCountMismatch
| OutputDecoding
| OutputCountMismatch
| NoTransactionForCallTrigger
| TemplateNotFound (name : string)
| InvalidContext
| AddressMissing (template : string)
| InvalidAddress (template : string)
| InvalidKind (kind : string)
| SourceAddressRequired
| DuplicatedBlockHandlers
| ReceiptsNotSupported.

Definition find_abi (m : Mapping) (name : string) : result DataSourceError MappingABI :=
  ok_or (AbiNotFound name) (List.find (fun abi => bool_decide (abi_name abi = name)) (mp_abis m)).

(** ** Signatures of events *)

Fixpoint event_param_type_signature (kind : ParamType) : string :=
  match kind with
  | PAddress => "address"
  | PBytes => "bytes"
  | PInt size => "int" +:+ pretty size
  | PUint size => "uint" +:+ pretty size
  | PBool => "bool"
  | PString => "string"
  | PArray inner => event_param_type_signature inner +:+ "[]"
  | PFixedBytes size => "bytes" +:+ pretty size
  | PFixedArray inner size => event_param_type_signature inner +:+ "[" +:+ pretty size +:+ "]"
  | PTuple components => "(" +:+ join "," (map event_param_type_signature components) +:+ ")"
  end.

Definition event_signature (e : AbiEvent) : string :=
  ev_name e +:+ "(" +:+
  join "," (map (fun input => (if ep_indexed input then "indexed " else "") +:+ event_param_type_signature (ep_kind input))
              (ev_inputs e)) +:+ ")".

Definition ambiguous_event_signature (e : AbiEvent) : string :=
  ev_name e +:+ "(" +:+ join "," (map (fun input => event_param_type_signature (ep_kind input)) (ev_inputs e)) +:+ ")".

(** The event with the signature, or the only one of its name when the signature is
    the one without [indexed] *)
Definition contract_event_with_signature (abi : MappingABI) (signature : string) : option AbiEvent :=
  match List.find (fun e => bool_decide (event_signature e = signature)) (abi_events abi) with
  | Some e => Some e
  | None =>
      let parens := default 0%nat (String.index 0 "(" signature) in
      let event_name := String.substring 0 parens signature in
      match List.filter (fun e => bool_decide (ev_name e = event_name)) (abi_events abi) with
      | [e] => if bool_decide (ambiguous_event_signature e = signature) then Some e else None
      | _ => None
      end
  end.

Section DataSource.
Context {Token : Type} `{!AbiCodec Token} `{!Keccak} `{!ContextJson}.

Definition is_callable (f : AbiFunction) : bool :=
  match fn_state_mutability f with Payable | NonPayable => true | Pure | View => false end.

Definition function_signature (f : AbiFunction) : string :=
  fn_name f +:+ "(" +:+ join "," (map (fun input => param_type_display (ap_kind input)) (fn_inputs f)) +:+ ")".

Definition contract_function_with_signature (abi : MappingABI) (target_signature : string) : option AbiFunction :=
  List.find (fun f => bool_decide (target_signature = function_signature f)) (List.filter is_callable (abi_functions abi)).

(** ** Handlers *)

Definition string_to_h256 (s : string) : Bytes := keccak256 (string_bytes (str_remove " " s)).

Definition topic0 (h : MappingEventHandler) : Bytes :=
  match eh_topic0 h with Some t => t | None => string_to_h256 (str_remove "indexed " (eh_event h)) end.

(** The first four bytes of the hash of a function's signature *)
Definition selector (function : string) : Bytes := take 4 (keccak256 (string_bytes function)).

Definition handlers_for_log (ds : DataSource) (log : EthLog) : result DataSourceError (list MappingEventHandler) :=
  let? sig := ok_or NoTopics (head (log_topics log)) in
  Ok (List.filter (fun h => bool_decide (sig = topic0 h)) (mp_event_handlers (ds_mapping ds))).

Definition handler_for_call (ds : DataSource) (call : EthereumCall) : result DataSourceError (option MappingCallHandler) :=
  if (4 <=? length (call_input call))%nat then
    Ok (List.find (fun h => bool_decide (take 4 (call_input call) = selector (ch_function h)))
          (mp_call_handlers (ds_mapping ds)))
  else Err InputTooShort.

Definition handler_for_block (ds : DataSource) (kind : EthereumBlockTriggerType) : option MappingBlockHandler :=
  match kind with
  | Every => List.find (fun h => bool_decide (bh_filter h = None)) (mp_block_handlers (ds_mapping ds))
  | WithCallTo _ => List.find is_call_filter (mp_block_handlers (ds_mapping ds))
  end.

Definition matches_trigger_address (ds : DataSource) (trigger : EthereumTrigger) : bool :=
  match src_address (ds_source ds) with
  | None => true
  | Some ds_address =>
      match trigger with
      | TriggerBlock _ (WithCallTo address) => bool_decide (ds_address = address)
      | TriggerCall call => bool_decide (ds_address = call_to call)
      | TriggerLog log _ => bool_decide (ds_address = log_address log)
      | TriggerBlock _ Every => true
      end
  end.

Inductive MappingTrigger :=
| MappingLog (block : LightEthereumBlock) (transaction : EthTransaction) (log : EthLog)
    (params : list (string * Token)) (receipt : option EthReceipt)
| MappingCall (block : LightEthereumBlock) (transaction : EthTransaction) (call : EthereumCall)
    (inputs outputs : list (string * Token))
| MappingBlock (block : LightEthereumBlock).

Record TriggerWithHandler := mkTriggerWithHandler { th_trigger : MappingTrigger; th_handler : string }.

(** The handlers with the decoded parameters of the log; those whose event can not
    decode it are left out. *)
Definition matching_handlers (ds : DataSource) (log : EthLog)
    : result DataSourceError (list (MappingEventHandler * list (string * Token))) :=
  let? potential := handlers_for_log ds log in
  let? valid := try_map (fun h =>
      let? abi := ok_or (EventNotFound (eh_event h) (abi_name (ds_contract_abi ds)) (ds_name ds))
                    (contract_event_with_signature (ds_contract_abi ds) (eh_event h)) in
      Ok (h, abi)) potential in
  Ok (omap (fun ha => (fun params => (ha.1, params)) <$> parse_log ha.2 (log_topics log) (log_data log)) valid).

Definition dummy_transaction (block : LightEthereumBlock) (log : EthLog) : result DataSourceError EthTransaction :=
  let? hash := expect (log_transaction_hash log) in
  Ok (mkEthTransaction hash (lb_hash block) (lb_number block) (log_transaction_index log) (Some (replicate 20 x00))).

Definition decode_log (ds : DataSource) (log : EthLog) (receipt : option EthReceipt) (block : LightEthereumBlock)
    : result DataSourceError (option TriggerWithHandler) :=
  let? handlers := matching_handlers ds log in
  match rev handlers with
  | [] => Ok None
  | (h, params) :: rest =>
      match rest with
      | _ :: _ => Err (MultipleHandlers (eh_event h))
      | [] =>
          let? transaction :=
            (if bool_decide (log_transaction_hash log = lb_hash block) then dummy_transaction block log
             else ok_or NoTransactionForEvent (transaction_for_log block log)) in
          Ok (Some (mkTriggerWithHandler (MappingLog block transaction log params receipt) (eh_handler h)))
      end
  end.

Definition name_params (params : list AbiParam) (tokens : list Token) : list (string * Token) :=
  zip_with (fun p token => (ap_name p, token)) params tokens.

Definition decode_call (ds : DataSource) (call : EthereumCall) (block : LightEthereumBlock)
    : result DataSourceError (option TriggerWithHandler) :=
  let? handler := handler_for_call ds call in
  match handler with
  | None => Ok None
  | Some handler =>
      let? f := ok_or (FunctionNotFound (ch_function handler) (abi_name (ds_contract_abi ds)) (ds_name ds))
                  (contract_function_with_signature (ds_contract_abi ds) (ch_function handler)) in
      match decode_input f (drop 4 (call_input call)) with
      | None => Ok None
      | Some tokens =>
          if bool_decide (length tokens = length (fn_inputs f)) then
            let? outputs := ok_or OutputDecoding (decode_output f (call_output call)) in
            if bool_decide (length outputs = length (fn_outputs f)) then
              let? transaction := ok_or NoTransactionForCallTrigger (transaction_for_call block call) in
              Ok (Some (mkTriggerWithHandler
                          (MappingCall block transaction call (name_params (fn_inputs f) tokens)
                             (name_params (fn_outputs f) outputs)) (ch_handler handler)))
            else Err OutputCountMismatch
          else Err InputCountMismatch
      end
  end.

Definition match_and_decode (ds : DataSource) (trigger : EthereumTrigger) (block : LightEthereumBlock)
    : result DataSourceError (option TriggerWithHandler) :=
  if negb (matches_trigger_address ds trigger) then Ok None else
  let? number := light_number block in
  if (number <? src_start_block (ds_source ds))%Z then Ok None else
  match trigger with
  | TriggerBlock _ kind =>
      Ok ((fun h => mkTriggerWithHandler (MappingBlock block) (bh_handler h)) <$> handler_for_block ds kind)
  | TriggerLog log receipt => decode_log ds log receipt block
  | TriggerCall call => decode_call ds call block
  end.

(** ** Validation *)

Definition ETHEREUM_KINDS : list string := ["ethereum/contract"; "ethereum"].

Definition ds_validate (ds : DataSource) : list DataSourceError :=
  let m := ds_mapping ds in
  (if bool_decide (ds_kind ds ∈ ETHEREUM_KINDS) then [] else [InvalidKind (ds_kind ds)]) ++
  (if bool_decide (src_address (ds_source ds) = None)
      && (negb (bool_decide (mp_call_handlers m = [])) || negb (bool_decide (mp_block_handlers m = [])))
   then [SourceAddressRequired] else []) ++
  (let non_filtered := length (List.filter (fun h => bool_decide (bh_filter h = None)) (mp_block_handlers m)) in
   let call_filtered := length (List.filter (fun h => negb (bool_decide (bh_filter h = None))) (mp_block_handlers m)) in
   if (1 <? non_filtered)%nat || (1 <? call_filtered)%nat then [DuplicatedBlockHandlers] else []) ++
  (if version_ltb (mp_api_version m) (0, 0, 7)%Z && existsb eh_receipt (mp_event_handlers m)
   then [ReceiptsNotSupported] else []).

(** ** Making data sources *)

Definition ds_from_manifest (kind : string) (network : option string) (name : string) (source : Source) (mapping : Mapping)
    (context : option Entity) : result DataSourceError DataSource :=
  let? abi := find_abi mapping (src_abi source) in
  Ok (mkDataSource kind network name source mapping context None abi).

Definition as_stored_dynamic_data_source (ds : DataSource) : StoredDynamicDataSource :=
  mkDds (ds_name ds) (ds_source ds) (context_to_string <$> ds_context ds) (ds_creation_block ds).

Definition from_stored_dynamic_data_source (templates : gmap string DataSourceTemplate) (stored : StoredDynamicDataSource)
    : result DataSourceError DataSource :=
  let? template := ok_or (TemplateNotFound (dds_name stored)) (templates !! dds_name stored) in
  let? context := match dds_context stored with
                  | None => Ok None
                  | Some s => let? c := ok_or InvalidContext (context_from_str s) in Ok (Some c)
                  end in
  let? abi := find_abi (tp_mapping template) (tp_abi template) in
  Ok (mkDataSource (tp_kind template) (tp_network template) (dds_name stored) (dds_source stored) (tp_mapping template)
        context (dds_creation_block stored) abi).

(** [address_from_str] is [Address::from_str]. *)
Definition from_template (address_from_str : string -> option Bytes) (template : DataSourceTemplate) (params : list string)
    (context : option Entity) (creation_block : BlockNumber) : result DataSourceError DataSource :=
  let? param := ok_or (AddressMissing (tp_name template)) (head params) in
  let? address := ok_or (InvalidAddress (tp_name template)) (address_from_str (trim_start_matches "0x" param)) in
  let? abi := find_abi (tp_mapping template) (tp_abi template) in
  Ok (mkDataSource (tp_kind template) (tp_network template) (tp_name template)
        (mkSource (Some address) (tp_abi template) 0) (tp_mapping template) context (Some creation_block) abi).

(** A data source that is made from a template survives being stored: reading back
    what was stored of it with the templates of the subgraph gives the same data source,
    when its context is read back from its JSON text. *)
Theorem dynamic_data_source_roundtrip address_from_str templates template params context creation_block ds :
  from_template address_from_str template params context creation_block = Ok ds ->
  templates !! tp_name template = Some template ->
  (forall c, context = Some c -> context_from_str (context_to_string c) = Some c) ->
  from_stored_dynamic_data_source templates (as_stored_dynamic_data_source ds) = Ok ds.
Proof.
  unfold from_template. intros Hds Ht Hctx. destruct (head params) as [param|]; [|done]. simpl in Hds.
  destruct (address_from_str (trim_start_matches "0x" param)) as [address|]; [|done]. simpl in Hds.
  destruct (find_abi (tp_mapping template) (tp_abi template)) as [abi|e|] eqn:Habi; simplify_eq/=.
  unfold from_stored_dynamic_data_source, as_stored_dynamic_data_source. simpl. rewrite Ht. simpl.
  destruct context as [c|]; simpl; [rewrite (Hctx c eq_refl); simpl|]; by rewrite Habi.
Qed.

(** ** What makes a trigger match *)

(** A trigger that is not ignored is for an address and a handler of the data source. *)
Definition handles (ds : DataSource) (trigger : EthereumTrigger) : Prop :=
  matches_trigger_address ds trigger = true /\
  match trigger with
  | TriggerLog log _ =>
      exists sig h, head (log_topics log) = Some sig /\ h ∈ mp_event_handlers (ds_mapping ds) /\ topic0 h = sig
  | TriggerCall call =>
      (4 <= length (call_input call))%nat /\
      exists h, h ∈ mp_call_handlers (ds_mapping ds) /\ selector (ch_function h) = take 4 (call_input call)
  | TriggerBlock _ Every => exists h, h ∈ mp_block_handlers (ds_mapping ds) /\ bh_filter h = None
  | TriggerBlock _ (WithCallTo _) => exists h, h ∈ mp_block_handlers (ds_mapping ds) /\ bh_filter h = Some CallFilter
  end.

Lemma decoded_is_handled ds trigger block m : match_and_decode ds trigger block = Ok (Some m) -> handles ds trigger.
Proof.
  unfold match_and_decode, handles. destruct (matches_trigger_address ds trigger); [|done]. simpl.
  destruct (light_number block) as [n|e|]; [|done|done]. simpl. destruct (n <? _)%Z; [done|]. intros Hm. split; [done|].
  destruct trigger as [p [|a]|call|log r].
  - simpl in Hm. destruct (List.find _ _) as [h|] eqn:Hf; [|done]. apply find_some in Hf as [Hin Hf].
    exists h. split; [by apply list_elem_of_In|]. by apply bool_decide_eq_true in Hf.
  - simpl in Hm. destruct (List.find _ _) as [h|] eqn:Hf; [|done]. apply find_some in Hf as [Hin Hf].
    exists h. split; [by apply list_elem_of_In|]. by apply bool_decide_eq_true in Hf.
  - unfold decode_call, handler_for_call in Hm. destruct (Nat.leb_spec 4 (length (call_input call))); [|done]. simpl in Hm.
    split; [done|]. destruct (List.find _ _) as [h|] eqn:Hf; [|done]. apply find_some in Hf as [Hin Hf].
    exists h. split; [by apply list_elem_of_In|]. by apply bool_decide_eq_true in Hf.
  - unfold decode_log, matching_handlers, handlers_for_log in Hm. destruct (head (log_topics log)) as [sig|] eqn:Hsig; [|done].
    simpl in Hm. destruct (List.filter _ _) as [|h l] eqn:Hf; [done|].
    assert (Hh : In h (h :: l)) by by left. rewrite <-Hf in Hh. apply filter_In in Hh as [Hin Hh].
    apply bool_decide_eq_true in Hh. exists sig, h. split_and!; [done|by apply list_elem_of_In|done].
Qed.

End DataSource.
