(* ===== verification/EthFilters.v ===== *)
(** * Trigger filters of Ethereum subgraphs

    [chain/ethereum/src/adapter.rs]: which logs, calls and blocks the data sources of a
    subgraph are interested in, and the queries for an Ethereum node that find the logs.

    The graph of contracts and events is a [GraphMap] of the [petgraph] crate, behind a
    class with its documented behaviour. *)

From Stdlib Require Import Strings.Byte.
From stdpp Require Import base numbers list gmap countable strings.
From S2P Require Import Prelude GraphqlAst Scalars RuntimeValue Values Names StoreTypes.
From S2P Require Import Schema BlockRange Relational DeploymentStore ChainStore EthTypes EthDataSource.

(** ** The graph of contracts and events *)

Inductive LogFilterNode :=
| Contract (address : Bytes)
| Event (signature : Bytes).

#[export] Instance LogFilterNode_eq_dec : EqDecision LogFilterNode.
Proof. solve_decision. Defined.

Definition Edge := (LogFilterNode * LogFilterNode * bool)%type.

(** Whether an edge joins two nodes; edges have no direction. *)
Definition joins (a b : LogFilterNode) (e : Edge) : bool :=
  let '(s, t, _) := e in
  (bool_decide (s = a) && bool_decide (t = b)) || (bool_decide (t = a) && bool_decide (s = b)).

(** Whether an edge has a node at one of its ends *)
Definition touches (n : LogFilterNode) (e : Edge) : bool :=
  let '(s, t, _) := e in bool_decide (s = n) || bool_decide (t = n).

(** The undirected [GraphMap]: adding an edge that exists replaces its weight, removing a
    node removes its edges. *)
Class GraphMap (G : Type) := {
  gm_new : G;
  gm_add_edge : G -> LogFilterNode -> LogFilterNode -> bool -> G;
  gm_all_edges : G -> list Edge;
  gm_edge_count : G -> nat;
  gm_nodes : G -> list LogFilterNode;
  gm_neighbors : G -> LogFilterNode -> list LogFilterNode;
  gm_remove_node : G -> LogFilterNode -> G
}.

Class GraphMapLaws (G : Type) `{!GraphMap G} := {
  gm_new_edges : gm_all_edges gm_new = [];
  gm_edge_count_all g : gm_edge_count g = length (gm_all_edges g);
  gm_add_edge_all g a b w :
    exists e, joins a b e = true /\ e.2 = w /\
      gm_all_edges (gm_add_edge g a b w) ≡ₚ e :: List.filter (fun e => negb (joins a b e)) (gm_all_edges g);
  gm_nodes_all g n e : e ∈ gm_all_edges g -> touches n e = true -> n ∈ gm_nodes g;
  gm_neighbors_nodup g a : NoDup (gm_neighbors g a);
  gm_neighbors_all g a b : b ∈ gm_neighbors g a <-> exists e, e ∈ gm_all_edges g /\ joins a b e = true;
  gm_remove_node_all g n :
    gm_all_edges (gm_remove_node g n) ≡ₚ List.filter (fun e => negb (touches n e)) (gm_all_edges g)
}.

(** ** Filters for logs *)

Record EthGetLogsFilter := mkGetLogsFilter { gl_contracts : list Bytes; gl_event_signatures : list Bytes }.

Definition from_contract (address : Bytes) : EthGetLogsFilter := mkGetLogsFilter [address] [].
Definition from_event (event : Bytes) : EthGetLogsFilter := mkGetLogsFilter [] [event].

(** [Iterator::max_by_key]: the last of the elements with the largest key *)
Fixpoint max_by_key {A} (key : A -> nat) (l : list A) : option A :=
  match l with
  | [] => None
  | x :: l =>
      match max_by_key key l with
      | Some y => Some (if (key x <=? key y)%nat then y else x)
      | None => Some x
      end
  end.

Section Filters.
Context {G : Type} `{!GraphMap G} {Token : Type} `{!AbiCodec Token} `{!Keccak} `{!ContextJson}.

Record EthereumLogFilter := mkLogFilter {
  lf_graph : G;
  lf_wildcard_events : gmap Bytes bool
}.

Definition log_filter_default : EthereumLogFilter := mkLogFilter gm_new ∅.

Definition log_matches (f : EthereumLogFilter) (log : EthLog) : bool :=
  match head (log_topics log) with
  | None => false
  | Some sig =>
      let contract := Contract (log_address log) in
      let event := Event sig in
      existsb (fun '(s, t, _) => (bool_decide (s = contract) && bool_decide (t = event))
                                 || (bool_decide (t = contract) && bool_decide (s = event)))
        (gm_all_edges (lf_graph f))
      || bool_decide (is_Some (lf_wildcard_events f !! sig))
  end.

Definition requires_transaction_receipt (f : EthereumLogFilter) (event_signature : Bytes) (contract_address : option Bytes)
    : bool :=
  match lf_wildcard_events f !! event_signature with
  | Some true => true
  | _ =>
      match contract_address with
      | Some address =>
          let contract := Contract address in
          let event := Event event_signature in
          existsb (fun '(s, t, r) => (r && (bool_decide (s = contract) && bool_decide (t = event)))
                                     || (bool_decide (t = contract) && bool_decide (s = event)))
            (gm_all_edges (lf_graph f))
      | None => false
      end
  end.

Definition log_filter_add (address : option Bytes) (f : EthereumLogFilter) (h : MappingEventHandler) : EthereumLogFilter :=
  match address with
  | Some contract =>
      mkLogFilter (gm_add_edge (lf_graph f) (Contract contract) (Event (topic0 h)) (eh_receipt h)) (lf_wildcard_events f)
  | None => mkLogFilter (lf_graph f) (<[topic0 h := eh_receipt h]> (lf_wildcard_events f))
  end.

Definition log_filter_from_data_sources (dss : list DataSource) : EthereumLogFilter :=
  foldl (fun f ds => foldl (log_filter_add (src_address (ds_source ds))) f (mp_event_handlers (ds_mapping ds)))
    log_filter_default dss.

Definition log_filter_from_mapping (m : Mapping) : EthereumLogFilter :=
  foldl (log_filter_add None) log_filter_default (mp_event_handlers m).

Definition log_filter_is_empty (f : EthereumLogFilter) : bool :=
  (gm_edge_count (lf_graph f) =? 0)%nat && bool_decide (lf_wildcard_events f = ∅).

(** [HashMap::extend] replaces existing values: the union prefers the other map. *)
Definition log_filter_extend (f other : EthereumLogFilter) : EthereumLogFilter :=
  if log_filter_is_empty other then f else
  mkLogFilter (foldl (fun g '(s, t, e) => gm_add_edge g s t e) (lf_graph f) (gm_all_edges (lf_graph other)))
    (lf_wildcard_events other ∪ lf_wildcard_events f).

(** The sanity checks of [push_filter] *)
Definition push_filter (filters : list EthGetLogsFilter) (f : EthGetLogsFilter) : result unit (list EthGetLogsFilter) :=
  assert! (0 <? length (gl_contracts f))%nat && (0 <? length (gl_event_signatures f))%nat ;;
  assert! (length (gl_contracts f) =? 1)%nat || (length (gl_event_signatures f) =? 1)%nat ;;
  Ok (filters ++ [f]).

(** One neighbour of the vertex; a filter that has as many contracts as a query may have
    is pushed, and a new one begun. *)
Definition add_neighbor (max_contracts : nat) (st : EthGetLogsFilter * list EthGetLogsFilter) (neighbor : LogFilterNode)
    : result unit (EthGetLogsFilter * list EthGetLogsFilter) :=
  let (f, filters) := st in
  match neighbor with
  | Contract address =>
      let? (f, filters) :=
        (if (length (gl_contracts f) =? max_contracts)%nat then
           let? event := expect (head (gl_event_signatures f)) in
           let? filters := push_filter filters f in
           Ok (from_event event, filters)
         else Ok (f, filters)) in
      Ok (mkGetLogsFilter (gl_contracts f ++ [address]) (gl_event_signatures f), filters)
  | Event event_sig => Ok (mkGetLogsFilter (gl_contracts f) (gl_event_signatures f ++ [event_sig]), filters)
  end.

(** The body of the loop: the filters for the vertex with the most neighbours *)
Definition cover_vertex (max_contracts : nat) (g : G) (filters : list EthGetLogsFilter)
    : result unit (G * list EthGetLogsFilter) :=
  let? max_vertex := expect (max_by_key (fun n => length (gm_neighbors g n)) (gm_nodes g)) in
  let f := match max_vertex with Contract address => from_contract address | Event sig => from_event sig end in
  let? (f, filters) := try_fold (add_neighbor max_contracts) (f, filters) (gm_neighbors g max_vertex) in
  let? filters := push_filter filters f in
  Ok (gm_remove_node g max_vertex, filters).

(** [while g.edge_count() > 0]; [None] is that the fuel was not enough. *)
Fixpoint cover_graph (fuel max_contracts : nat) (g : G) (filters : list EthGetLogsFilter)
    : option (result unit (list EthGetLogsFilter)) :=
  if (0 <? gm_edge_count g)%nat then
    match fuel with
    | O => None
    | S fuel =>
        match cover_vertex max_contracts g filters with
        | Ok (g, filters) => cover_graph fuel max_contracts g filters
        | Err e => Some (Err e)
        | Panic => Some Panic
        end
    end
  else Some (Ok filters).

(** [max_contracts] is [ENV_VARS.get_logs_max_contracts]. *)
Definition eth_get_logs_filters (fuel max_contracts : nat) (f : EthereumLogFilter)
    : option (result unit (list EthGetLogsFilter)) :=
  cover_graph fuel max_contracts (lf_graph f) (map (fun ew => from_event ew.1) (map_to_list (lf_wildcard_events f))).

(** ** Filters for calls *)

(** For each address the first block of interest and the selectors, and selectors for
    all addresses *)
Record EthereumCallFilter := mkCallFilter {
  cf_contracts : gmap Bytes (BlockNumber * gset Bytes);
  cf_wildcard_signatures : gset Bytes
}.

Definition call_filter_default : EthereumCallFilter := mkCallFilter ∅ ∅.

Definition call_matches (f : EthereumCallFilter) (call : EthereumCall) : bool :=
  if (length (call_input call) <? 4)%nat then false else
  if negb ((length (call_input call) - 4) mod 32 =? 0)%nat then false else
  let call_signature := take 4 (call_input call) in
  match cf_contracts f !! call_to call with
  | Some (_, sigs) =>
      if bool_decide (sigs = ∅) then true
      else bool_decide (call_signature ∈ sigs) || bool_decide (call_signature ∈ cf_wildcard_signatures f)
  | None => bool_decide (call_signature ∈ cf_wildcard_signatures f)
  end.

Definition call_filter_from_mapping (m : Mapping) : EthereumCallFilter :=
  mkCallFilter ∅ (list_to_set (map (fun h => selector (ch_function h)) (mp_call_handlers m))).

(** [FromIterator for EthereumCallFilter] *)
Definition call_filter_add (lookup : gmap Bytes (BlockNumber * gset Bytes)) (x : BlockNumber * Bytes * Bytes)
    : gmap Bytes (BlockNumber * gset Bytes) :=
  let '(start_block, address, function_signature) := x in
  let (block, sigs) := default (start_block, ∅) (lookup !! address) in
  <[address := (if (start_block <? block)%Z then start_block else block, {[function_signature]} ∪ sigs)]> lookup.

Definition call_filter_from_iter (l : list (BlockNumber * Bytes * Bytes)) : EthereumCallFilter :=
  mkCallFilter (foldl call_filter_add ∅ l) ∅.

Definition call_filter_entries (ds : DataSource) : list (BlockNumber * Bytes * Bytes) :=
  match src_address (ds_source ds) with
  | Some address =>
      map (fun h => (src_start_block (ds_source ds), address, selector (ch_function h))) (mp_call_handlers (ds_mapping ds))
  | None => []
  end.

Definition call_filter_from_data_sources (dss : list DataSource) : EthereumCallFilter :=
  call_filter_from_iter (concat (map call_filter_entries dss)).

Definition call_filter_is_empty (f : EthereumCallFilter) : bool :=
  bool_decide (cf_contracts f = ∅) && bool_decide (cf_wildcard_signatures f = ∅).

Definition call_filter_extend_entry (m : gmap Bytes (BlockNumber * gset Bytes)) (x : Bytes * (BlockNumber * gset Bytes))
    : gmap Bytes (BlockNumber * gset Bytes) :=
  let '(address, (proposed_start_block, new_sigs)) := x in
  match m !! address with
  | Some (existing_start_block, existing_sigs) =>
      <[address := (Z.min proposed_start_block existing_start_block, existing_sigs ∪ new_sigs)]> m
  | None => <[address := (proposed_start_block, new_sigs)]> m
  end.

Definition call_filter_extend (f other : EthereumCallFilter) : EthereumCallFilter :=
  if call_filter_is_empty other then f else
  mkCallFilter (foldl call_filter_extend_entry (cf_contracts f) (map_to_list (cf_contracts other)))
    (cf_wildcard_signatures f ∪ cf_wildcard_signatures other).

(** ** Filters for blocks *)

Record EthereumBlockFilter := mkBlockFilter {
  bf_contract_addresses : gset (BlockNumber * Bytes);
  bf_trigger_every_block : bool
}.

Definition block_filter_default : EthereumBlockFilter := mkBlockFilter ∅ false.

Definition block_filter_from_mapping (m : Mapping) : EthereumBlockFilter :=
  mkBlockFilter ∅ (negb (bool_decide (mp_block_handlers m = []))).

Definition block_filter_is_empty (f : EthereumBlockFilter) : bool :=
  if bf_trigger_every_block f then false else bool_decide (bf_contract_addresses f = ∅).

Definition find_contract_address (s : gset (BlockNumber * Bytes)) (candidate : Bytes) : option (BlockNumber * Bytes) :=
  List.find (fun x => bool_decide (candidate = x.2)) (elements s).

Definition block_filter_extend_entry (s : gset (BlockNumber * Bytes)) (other : BlockNumber * Bytes)
    : gset (BlockNumber * Bytes) :=
  match find_contract_address s other.2 with
  | Some current => if (other.1 <? current.1)%Z then {[other]} ∪ (s ∖ {[current]}) else s
  | None => {[other]} ∪ s
  end.

Definition block_filter_extend (f other : EthereumBlockFilter) : EthereumBlockFilter :=
  if block_filter_is_empty other then f else
  mkBlockFilter (foldl block_filter_extend_entry (bf_contract_addresses f) (elements (bf_contract_addresses other)))
    (bf_trigger_every_block f || bf_trigger_every_block other).

Definition block_filter_of (ds : DataSource) (address : Bytes) : EthereumBlockFilter :=
  mkBlockFilter
    (if has_block_handler_with_call_filter (ds_mapping ds) then {[(src_start_block (ds_source ds), address)]} else ∅)
    (existsb (fun h => bool_decide (bh_filter h = None)) (mp_block_handlers (ds_mapping ds))).

Definition block_filter_from_data_sources (dss : list DataSource) : EthereumBlockFilter :=
  foldl (fun f ds => match src_address (ds_source ds) with
                     | Some address => block_filter_extend f (block_filter_of ds address)
                     | None => f
                     end) block_filter_default dss.

Definition block_requires_traces (f : EthereumBlockFilter) : bool := negb (bool_decide (bf_contract_addresses f = ∅)).

(** [From<&EthereumBlockFilter> for EthereumCallFilter]: all calls to the addresses *)
Definition call_filter_from_block_filter (f : EthereumBlockFilter) : EthereumCallFilter :=
  mkCallFilter (foldl (fun m x => <[x.2 := (x.1, ∅)]> m) ∅ (elements (bf_contract_addresses f))) ∅.

(** ** Filters for triggers *)

Record TriggerFilter := mkTriggerFilter {
  tf_log : EthereumLogFilter;
  tf_call : EthereumCallFilter;
  tf_block : EthereumBlockFilter
}.

Definition trigger_filter_default : TriggerFilter :=
  mkTriggerFilter log_filter_default call_filter_default block_filter_default.

Definition requires_traces (f : TriggerFilter) : bool :=
  negb (call_filter_is_empty (tf_call f)) || block_requires_traces (tf_block f).

Definition trigger_filter_extend (f : TriggerFilter) (dss : list DataSource) : TriggerFilter :=
  mkTriggerFilter (log_filter_extend (tf_log f) (log_filter_from_data_sources dss))
    (call_filter_extend (tf_call f) (call_filter_from_data_sources dss))
    (block_filter_extend (tf_block f) (block_filter_from_data_sources dss)).

Definition trigger_filter_extend_with_template (f : TriggerFilter) (templates : list DataSourceTemplate) : TriggerFilter :=
  foldl (fun f t =>
      mkTriggerFilter (log_filter_extend (tf_log f) (log_filter_from_mapping (tp_mapping t)))
        (call_filter_extend (tf_call f) (call_filter_from_mapping (tp_mapping t)))
        (block_filter_extend (tf_block f) (block_filter_from_mapping (tp_mapping t)))) f templates.

(** ** Filters for a firehose *)

Record CallToFilter := mkCallToFilter { ct_addresses : list Bytes; ct_signatures : list Bytes }.
Record LogFilter := mkFirehoseLogFilter { fl_addresses : list Bytes; fl_event_signatures : list Bytes }.

(** A filter before it is encoded *)
Inductive FirehoseFilter :=
| MultiCallToFilter (filters : list CallToFilter)
| MultiLogFilter (filters : list LogFilter).

Definition call_filter_into (f : EthereumCallFilter) : list CallToFilter :=
  if call_filter_is_empty f then [] else
  map (fun x => mkCallToFilter [x.1] (elements x.2.2)) (map_to_list (cf_contracts f)) ++
  (if bool_decide (cf_wildcard_signatures f = ∅) then [] else [mkCallToFilter [] (elements (cf_wildcard_signatures f))]).

Fixpoint dedup {A} `{EqDecision A} (l : list A) : list A :=
  match l with
  | x :: (y :: _) as l' => if decide (x = y) then dedup l' else x :: dedup l'
  | l => l
  end.

Definition block_filter_into (f : EthereumBlockFilter) : list CallToFilter :=
  map (fun address => mkCallToFilter [address] [])
    (dedup (sort_by (fun a b => negb (bytes_ltb b a)) (map snd (elements (bf_contract_addresses f))))).

Definition log_filter_into (fuel max_contracts : nat) (f : EthereumLogFilter) : option (result unit (list LogFilter)) :=
  map_result (map (fun x => mkFirehoseLogFilter (gl_contracts x) (gl_event_signatures x)))
    <$> eth_get_logs_filters fuel max_contracts f.

Definition to_firehose_filter (fuel max_contracts : nat) (f : TriggerFilter) : option (result unit (list FirehoseFilter)) :=
  if bf_trigger_every_block (tf_block f) then Some (Ok []) else
  let call_filters := call_filter_into (tf_call f) ++ block_filter_into (tf_block f) in
  map_result (fun log_filters =>
      (if bool_decide (call_filters = []) then [] else [MultiCallToFilter call_filters]) ++
      (if bool_decide (log_filters = []) then [] else [MultiLogFilter log_filters]))
    <$> log_filter_into fuel max_contracts (tf_log f).

End Filters.

Arguments EthereumLogFilter : clear implicits.
Arguments TriggerFilter : clear implicits.
