(* ===== verification/EthFilterProps.v ===== *)
(** * Properties of the trigger filters

    The queries for logs ask for exactly the logs that the filter matches, in a loop that
    ends; and the filter of a subgraph matches every log, call and block that one of its
    data sources handles. *)

From Stdlib Require Import Strings.Byte.
From stdpp Require Import base numbers list gmap countable strings.
From S2P Require Import Prelude GraphqlAst Scalars RuntimeValue Values Names StoreTypes.
From S2P Require Import Schema BlockRange Relational DeploymentStore ChainStore EthTypes EthDataSource EthFilters.

(** ** Lists *)

Lemma max_by_key_elem {A} (key : A -> nat) l y : max_by_key key l = Some y -> y ∈ l.
Proof.
  revert y. induction l as [|w l IH]; intros y; simpl; [done|]. destruct (max_by_key key l) as [v|]; intros [= <-]; [|by left].
  destruct (key w <=? key v)%nat; [right; by apply IH|by left].
Qed.

Lemma max_by_key_Some {A} (key : A -> nat) l x :
  x ∈ l -> exists y, max_by_key key l = Some y /\ (key x <= key y)%nat.
Proof.
  induction l as [|z l IH]; intros Hx; [by apply not_elem_of_nil in Hx|]. simpl.
  apply elem_of_cons in Hx as [->|Hx].
  - destruct (max_by_key key l) as [y|]; [|by exists z]. eexists. split; [done|]. destruct (Nat.leb_spec (key z) (key y)); lia.
  - destruct (IH Hx) as (y & -> & Hle). eexists. split; [done|]. destruct (Nat.leb_spec (key z) (key y)); lia.
Qed.

Lemma filter_length_lt {A} (p : A -> bool) l x :
  x ∈ l -> p x = false -> (length (List.filter p l) < length l)%nat.
Proof.
  intros Hx Hp. induction l as [|y l IH]; [by apply not_elem_of_nil in Hx|]. simpl.
  pose proof (filter_length_le p l). apply elem_of_cons in Hx as [<-|Hx]; [rewrite Hp; lia|].
  specialize (IH Hx). destruct (p y); simpl; lia.
Qed.

(** ** The graph *)

Section Graph.
Context {G : Type} `{!GraphMap G} `{!GraphMapLaws G}.

(** Whether the graph has an edge between a contract and an event *)
Definition has_pair (g : G) (contract event : Bytes) : bool :=
  existsb (joins (Contract contract) (Event event)) (gm_all_edges g).

(** Every edge joins a contract and an event. *)
Definition bipartite (g : G) : Prop :=
  forall e, e ∈ gm_all_edges g -> exists c s, joins (Contract c) (Event s) e = true.

Lemma joins_sym a b e : joins a b e = joins b a e.
Proof.
  destruct e as [[s t] w]. unfold joins. destruct (bool_decide (s = a)), (bool_decide (t = b)), (bool_decide (t = a)), (bool_decide (s = b)); done.
Qed.

Lemma joins_ends a b e : joins a b e = true -> exists w, e = (a, b, w) \/ e = (b, a, w).
Proof.
  destruct e as [[s t] w]. unfold joins. rewrite orb_true_iff, !andb_true_iff, !bool_decide_eq_true. simpl.
  intros [[-> ->]|[-> ->]]; exists w; auto.
Qed.

Lemma joins_touches a b n e : joins a b e = true -> touches n e = bool_decide (a = n) || bool_decide (b = n).
Proof. intros (w & [-> | ->])%joins_ends; unfold touches; simpl; [done|apply orb_comm]. Qed.

Lemma has_pair_neighbor g c s : has_pair g c s = true <-> Event s ∈ gm_neighbors g (Contract c).
Proof.
  unfold has_pair. rewrite existsb_exists, gm_neighbors_all. split; intros (e & He & Hj); exists e;
    (split; [by apply list_elem_of_In|done]).
Qed.

Lemma has_pair_neighbor_r g c s : has_pair g c s = true <-> Contract c ∈ gm_neighbors g (Event s).
Proof.
  unfold has_pair. rewrite existsb_exists, gm_neighbors_all. split; intros (e & He & Hj); exists e;
    (split; [by apply list_elem_of_In|by rewrite joins_sym]).
Qed.

Lemma contract_neighbors g c :
  bipartite g -> exists sigs, gm_neighbors g (Contract c) = map Event sigs /\ NoDup sigs /\
    forall s, s ∈ sigs <-> has_pair g c s = true.
Proof.
  intros Hb.
  assert (exists sigs, gm_neighbors g (Contract c) = map Event sigs) as [sigs Hs].
  { assert (Hall : Forall (fun n => exists s, n = Event s) (gm_neighbors g (Contract c))).
    { apply Forall_forall. intros n (e & He & Hj)%gm_neighbors_all. destruct (Hb e He) as (c' & s' & Hj').
      apply joins_ends in Hj as (w & [-> | ->]); apply joins_ends in Hj' as (w' & [|]); simplify_eq/=; by eexists. }
    induction Hall as [|n l [s ->] _ [sigs IH]]; [by exists []|]. exists (s :: sigs). by rewrite IH. }
  exists sigs. split; [done|]. pose proof (gm_neighbors_nodup g (Contract c)) as Hnd. rewrite Hs in Hnd.
  split; [by apply NoDup_fmap_1 in Hnd|]. intros s. rewrite has_pair_neighbor, Hs. split; intros Hin.
  - by apply (list_elem_of_fmap_2 Event).
  - apply list_elem_of_fmap in Hin as (s' & [= ->] & Hin). done.
Qed.

Lemma event_neighbors g s :
  bipartite g -> exists contracts, gm_neighbors g (Event s) = map Contract contracts /\ NoDup contracts /\
    forall c, c ∈ contracts <-> has_pair g c s = true.
Proof.
  intros Hb.
  assert (exists contracts, gm_neighbors g (Event s) = map Contract contracts) as [cs Hs].
  { assert (Hall : Forall (fun n => exists c, n = Contract c) (gm_neighbors g (Event s))).
    { apply Forall_forall. intros n (e & He & Hj)%gm_neighbors_all. destruct (Hb e He) as (c' & s' & Hj').
      apply joins_ends in Hj as (w & [-> | ->]); apply joins_ends in Hj' as (w' & [|]); simplify_eq/=; by eexists. }
    induction Hall as [|n l [c ->] _ [cs IH]]; [by exists []|]. exists (c :: cs). by rewrite IH. }
  exists cs. split; [done|]. pose proof (gm_neighbors_nodup g (Event s)) as Hnd. rewrite Hs in Hnd.
  split; [by apply NoDup_fmap_1 in Hnd|]. intros c. rewrite has_pair_neighbor_r, Hs. split; intros Hin.
  - by apply (list_elem_of_fmap_2 Contract).
  - apply list_elem_of_fmap in Hin as (c' & [= ->] & Hin). done.
Qed.

Lemma remove_node_bipartite g n : bipartite g -> bipartite (gm_remove_node g n).
Proof.
  intros Hb e He. apply Hb. rewrite (gm_remove_node_all g n) in He. by apply list_elem_of_In, filter_In, proj1, list_elem_of_In in He.
Qed.

Lemma remove_node_pair g n c s :
  has_pair (gm_remove_node g n) c s = has_pair g c s && negb (bool_decide (Contract c = n) || bool_decide (Event s = n)).
Proof.
  apply eq_true_iff_eq. unfold has_pair. rewrite andb_true_iff, !existsb_exists. split.
  - intros (e & He & Hj). apply list_elem_of_In in He. rewrite (gm_remove_node_all g n) in He.
    apply list_elem_of_In, filter_In in He as [He Ht]. rewrite (joins_touches _ _ _ _ Hj) in Ht. split; [by exists e|done].
  - intros [(e & He & Hj) Ht]. exists e. split; [|done]. apply list_elem_of_In. rewrite (gm_remove_node_all g n).
    apply list_elem_of_In, filter_In. split; [done|]. by rewrite (joins_touches _ _ _ _ Hj).
Qed.

End Graph.

(** ** Covering the graph with queries *)

(** Whether a query asks for an event of a contract *)
Definition asks (c s : Bytes) (f : EthGetLogsFilter) : bool :=
  bool_decide (c ∈ gl_contracts f) && bool_decide (s ∈ gl_event_signatures f).

Definition times (c s : Bytes) (fs : list EthGetLogsFilter) : nat := length (List.filter (asks c s) fs).

Lemma times_app c s fs fs' : times c s (fs ++ fs') = (times c s fs + times c s fs')%nat.
Proof. unfold times. by rewrite List.filter_app, length_app. Qed.

Lemma times_single c s f : times c s [f] = if asks c s f then 1%nat else 0%nat.
Proof. unfold times. cbn [List.filter]. by destruct (asks c s f). Qed.

(** The shape of the queries that the loop makes *)
Definition query_ok (max : nat) (f : EthGetLogsFilter) : Prop :=
  gl_contracts f <> [] /\ gl_event_signatures f <> [] /\ (length (gl_contracts f) <= max)%nat.

Lemma push_filter_ok filters f :
  gl_contracts f <> [] -> gl_event_signatures f <> [] ->
  length (gl_contracts f) = 1%nat \/ length (gl_event_signatures f) = 1%nat ->
  push_filter filters f = Ok (filters ++ [f]).
Proof.
  intros Hc Hs H1. unfold push_filter. destruct (gl_contracts f) as [|c cs], (gl_event_signatures f) as [|s ss]; try done.
  simpl in H1 |- *. destruct H1 as [[= ->]|[= ->]]; simpl; [done|]. by rewrite orb_true_r.
Qed.

Lemma fold_events max sigs f filters :
  try_fold (add_neighbor max) (f, filters) (map Event sigs) =
    Ok (mkGetLogsFilter (gl_contracts f) (gl_event_signatures f ++ sigs), filters).
Proof.
  revert f. induction sigs as [|s sigs IH]; intros [cs ss]; simpl; [by rewrite app_nil_r|].
  rewrite IH. simpl. by rewrite <-app_assoc.
Qed.

Lemma fold_contracts max e contracts f filters :
  (1 <= max)%nat -> gl_event_signatures f = [e] -> (length (gl_contracts f) <= max)%nat ->
  exists f' fs, try_fold (add_neighbor max) (f, filters) (map Contract contracts) = Ok (f', filters ++ fs) /\
    gl_event_signatures f' = [e] /\ (length (gl_contracts f') <= max)%nat /\
    Forall (fun x => query_ok max x /\ gl_event_signatures x = [e]) fs /\
    concat (map gl_contracts fs) ++ gl_contracts f' = gl_contracts f ++ contracts /\
    (gl_contracts f' = [] -> gl_contracts f = [] /\ contracts = []).
Proof.
  intros Hmax. revert f filters. induction contracts as [|c contracts IH]; intros f filters He Hlen.
  { exists f, []. simpl. rewrite !app_nil_r. split_and!; auto. }
  cbn [map try_fold]. unfold add_neighbor at 2. destruct (Nat.eqb_spec (length (gl_contracts f)) max) as [Heq|Hne].
  - assert (Hf : gl_contracts f <> []) by (destruct (gl_contracts f); simpl in *; [lia|done]).
    rewrite He. cbn [head expect bind_result].
    rewrite push_filter_ok by (rewrite ?He; done || by right). cbn [bind_result from_event gl_contracts gl_event_signatures app].
    destruct (IH (mkGetLogsFilter [c] [e]) (filters ++ [f])) as (f' & fs & Hfold & He' & Hlen' & Hall & Hcat & Hnil);
      [done|simpl; lia|].
    exists f', (f :: fs). rewrite Hfold, <-app_assoc. split_and!; try done.
    + constructor; [|done]. unfold query_ok. rewrite He. auto.
    + simpl. by rewrite <-app_assoc, Hcat.
    + intros H. by destruct (Hnil H).
  - cbn [bind_result].
    destruct (IH (mkGetLogsFilter (gl_contracts f ++ [c]) (gl_event_signatures f)) filters)
      as (f' & fs & Hfold & He' & Hlen' & Hall & Hcat & Hnil); [done|simpl; rewrite length_app; simpl; lia|].
    exists f', fs. split_and!; try done.
    + rewrite Hcat. simpl. by rewrite <-app_assoc.
    + intros H. destruct (Hnil H) as [Happ _]. simpl in Happ. by destruct (gl_contracts f).
Qed.

(** Queries for one event whose contracts are all different *)
Lemma times_one_event e c s fs :
  Forall (fun x => gl_event_signatures x = [e]) fs -> NoDup (concat (map gl_contracts fs)) ->
  times c s fs = if bool_decide (s = e) && bool_decide (c ∈ concat (map gl_contracts fs)) then 1%nat else 0%nat.
Proof.
  unfold times. induction 1 as [|x fs Hx _ IH]; [intros; simpl; by rewrite andb_false_r|]. simpl.
  intros (_ & Hdis & Hnd)%NoDup_app. specialize (IH Hnd). unfold asks at 1. rewrite Hx.
  rewrite (bool_decide_ext (s ∈ [e]) (s = e)) by set_solver. destruct (decide (s = e)) as [->|Hs].
  2:{ rewrite (bool_decide_false (s = e)) in * by done. rewrite andb_false_r. simpl in *. done. }
  rewrite (bool_decide_true (e = e)) in * by done. rewrite andb_true_r. simpl in *.
  destruct (decide (c ∈ gl_contracts x)) as [Hc|Hc].
  - rewrite bool_decide_true by done. simpl. rewrite IH, bool_decide_false by (by apply Hdis).
    rewrite bool_decide_true; [done|]. apply elem_of_app. by left.
  - rewrite (bool_decide_false (c ∈ gl_contracts x)) by done. rewrite IH. f_equal.
    erewrite bool_decide_ext; [done|]. rewrite elem_of_app. naive_solver.
Qed.

Section Cover.
Context {G : Type} `{!GraphMap G} `{!GraphMapLaws G}.
Context (max : nat) (Hmax : (1 <= max)%nat).

Definition at_vertex (v : LogFilterNode) (c s : Bytes) : bool := bool_decide (Contract c = v) || bool_decide (Event s = v).

(** A step of the loop asks once for the pairs of a vertex that has neighbours. *)
Lemma cover_vertex_spec (g : G) filters :
  bipartite g -> (0 < gm_edge_count g)%nat ->
  exists v fs, cover_vertex max g filters = Ok (gm_remove_node g v, filters ++ fs) /\ Forall (query_ok max) fs /\
    (exists e, e ∈ gm_all_edges g /\ touches v e = true) /\
    forall c s, times c s fs = if has_pair g c s && at_vertex v c s then 1%nat else 0%nat.
Proof.
  intros Hb Hpos. rewrite gm_edge_count_all in Hpos.
  assert (exists e0, e0 ∈ gm_all_edges g) as [e0 He0].
  { destruct (gm_all_edges g) as [|e0 es]; [simpl in Hpos; lia|]. exists e0. by left. }
  destruct (Hb e0 He0) as (c0 & s0 & Hj0).
  assert (Hn0 : Contract c0 ∈ gm_nodes g).
  { apply (gm_nodes_all g _ e0); [done|]. rewrite (joins_touches _ _ _ _ Hj0). by rewrite bool_decide_true. }
  destruct (max_by_key_Some (fun n => length (gm_neighbors g n)) _ _ Hn0) as (v & Hv & Hle). simpl in Hle.
  assert (Hne : gm_neighbors g v <> []).
  { intros Hnil. rewrite Hnil in Hle. simpl in Hle.
    assert (Hin : Event s0 ∈ gm_neighbors g (Contract c0)) by (apply gm_neighbors_all; by exists e0).
    destruct (gm_neighbors g (Contract c0)); [by apply not_elem_of_nil in Hin|simpl in Hle; lia]. }
  assert (Htouch : exists e, e ∈ gm_all_edges g /\ touches v e = true).
  { destruct (gm_neighbors g v) as [|n l] eqn:Hl; [done|].
    destruct (proj1 (gm_neighbors_all g v n)) as (e & He & Hj); [rewrite Hl; by left|].
    exists e. split; [done|]. rewrite (joins_touches _ _ _ _ Hj). by rewrite bool_decide_true. }
  exists v. unfold cover_vertex. rewrite Hv. cbn [expect bind_result]. destruct v as [c1|s1].
  - destruct (contract_neighbors g c1 Hb) as (sigs & Hs & Hnd & Hsigs). rewrite Hs in *.
    assert (Hsne : sigs <> []) by by destruct sigs.
    rewrite fold_events. cbn [bind_result from_contract gl_contracts gl_event_signatures app].
    rewrite push_filter_ok by (done || by left). cbn [bind_result].
    exists [mkGetLogsFilter [c1] sigs]. split_and!; [done|repeat constructor; done|done|].
    intros c s. rewrite times_single. unfold asks, at_vertex. cbn [gl_contracts gl_event_signatures].
    rewrite (bool_decide_false (Event s = Contract c1)), orb_false_r by done.
    rewrite (bool_decide_ext (Contract c = Contract c1) (c = c1)) by naive_solver.
    rewrite (bool_decide_ext (c ∈ [c1]) (c = c1)) by set_solver.
    destruct (decide (c = c1)) as [->|]; [|rewrite (bool_decide_false (c = c1)), andb_false_r by done; done].
    rewrite bool_decide_true, andb_true_r by done. simpl. specialize (Hsigs s).
    case_bool_decide as Hin; destruct (has_pair g c1 s); naive_solver.
  - destruct (event_neighbors g s1 Hb) as (cs & Hs & Hnd & Hcs). rewrite Hs in *.
    assert (Hcne : cs <> []) by by destruct cs.
    destruct (fold_contracts max s1 cs (from_event s1) filters Hmax eq_refl) as (f' & fs & Hfold & He' & Hlen' & Hall & Hcat & Hnil);
      [simpl; lia|]. rewrite Hfold. cbn [bind_result].
    assert (Hf' : gl_contracts f' <> []) by (intros H; by destruct (Hnil H)).
    rewrite push_filter_ok by (rewrite ?He'; done || by right). cbn [bind_result]. simpl in Hcat.
    exists (fs ++ [f']). rewrite app_assoc. split_and!; [done| |done|].
    { apply Forall_app. split; [eapply Forall_impl; [exact Hall|naive_solver]|]. repeat constructor; [done|by rewrite He'|done]. }
    intros c s. assert (Hcat' : concat (map gl_contracts (fs ++ [f'])) = cs) by (rewrite map_app, concat_app; simpl; by rewrite app_nil_r).
    rewrite (times_one_event s1), Hcat'.
    + unfold at_vertex. rewrite (bool_decide_false (Contract c = Event s1)) by done. simpl.
      rewrite (bool_decide_ext (Event s = Event s1) (s = s1)) by naive_solver. rewrite andb_comm.
      destruct (decide (s = s1)) as [->|]; [|rewrite (bool_decide_false (s = s1)), !andb_false_r by done; done].
      rewrite (bool_decide_true (s1 = s1)), !andb_true_r by done. specialize (Hcs c).
      case_bool_decide; destruct (has_pair g c s1); naive_solver.
    + apply Forall_app. split; [eapply Forall_impl; [exact Hall|naive_solver]|by repeat constructor].
    + by rewrite Hcat'.
Qed.

Lemma cover_graph_spec fuel (g : G) filters :
  bipartite g -> (gm_edge_count g <= fuel)%nat ->
  exists fs, cover_graph fuel max g filters = Some (Ok (filters ++ fs)) /\ Forall (query_ok max) fs /\
    forall c s, times c s fs = if has_pair g c s then 1%nat else 0%nat.
Proof.
  revert g filters. induction fuel as [|fuel IH]; intros g filters Hb Hfuel; cbn [cover_graph];
    destruct (Nat.ltb_spec 0 (gm_edge_count g)) as [Hpos|Hz]; [lia| | |].
  2: { destruct (cover_vertex_spec g filters Hb Hpos) as (v & fs & -> & Hok & (e & He & Ht) & Htimes).
       destruct (IH (gm_remove_node g v) (filters ++ fs)) as (fs' & Hcov & Hok' & Htimes').
       { by apply remove_node_bipartite. }
       { rewrite gm_edge_count_all in Hfuel |- *. rewrite (gm_remove_node_all g v).
         pose proof (filter_length_lt (fun e => negb (touches v e)) (gm_all_edges g) e He) as Hlt.
         specialize (Hlt ltac:(cbn beta; by rewrite Ht)). lia. }
       exists (fs ++ fs'). rewrite Hcov, app_assoc. split_and!; [done|by apply Forall_app|].
       intros c s. rewrite times_app, Htimes, Htimes', remove_node_pair. unfold at_vertex.
       by destruct (has_pair g c s), (bool_decide (Contract c = v) || bool_decide (Event s = v)). }
  all: exists []; rewrite app_nil_r; split_and!; [done|done|]; intros c s; rewrite gm_edge_count_all in Hz;
    unfold has_pair; destruct (gm_all_edges g); simpl in *; [done|lia].
Qed.

End Cover.

(** ** What filters match *)

Section Matches.
Context {G : Type} `{GM : !GraphMap G} `{GL : !GraphMapLaws G} {Token : Type} `{AC : !AbiCodec Token} `{KC : !Keccak} `{CJ : !ContextJson}.
Local Abbreviation LogFilter := (EthereumLogFilter G).

Lemma existsb_iff {A} (p : A -> bool) l b : (b = true <-> exists x, x ∈ l /\ p x = true) -> existsb p l = b.
Proof.
  intros H. apply eq_true_iff_eq. rewrite existsb_exists, H. split; intros (x & Hx & Hp); exists x;
    (split; [by apply list_elem_of_In|done]).
Qed.

Lemma add_edge_pair (g : G) a b w c s :
  has_pair (gm_add_edge g a b w) c s = joins (Contract c) (Event s) (a, b, w) || has_pair g c s.
Proof.
  destruct (gm_add_edge_all g a b w) as (e & Hj & _ & Hperm).
  assert (Hsame : joins (Contract c) (Event s) e = joins (Contract c) (Event s) (a, b, w)).
  { apply joins_ends in Hj as (w' & [-> | ->]); unfold joins; [done|]. apply orb_comm. }
  apply existsb_iff. rewrite orb_true_iff, <-Hsame. split.
  - intros [H|(e' & He' & Hj')%existsb_exists]; [exists e; by rewrite Hperm; split; [left|]|].
    destruct (joins a b e') eqn:Hab.
    + exists e. split; [rewrite Hperm; by left|]. rewrite Hsame.
      apply joins_ends in Hab as (w' & [-> | ->]); [done|]. unfold joins in Hj' |- *. by rewrite orb_comm.
    + exists e'. split; [|done]. rewrite Hperm. right. apply list_elem_of_In, filter_In. by rewrite Hab.
  - intros (e' & He' & Hj'). rewrite Hperm in He'. apply elem_of_cons in He' as [->|He']; [by left|]. right.
    apply existsb_exists. exists e'. apply list_elem_of_In, filter_In in He' as [He' _]. done.
Qed.

Lemma add_edge_bipartite (g : G) a b w c s :
  joins (Contract c) (Event s) (a, b, w) = true -> bipartite g -> bipartite (gm_add_edge g a b w).
Proof.
  intros Hj Hb e He. destruct (gm_add_edge_all g a b w) as (e0 & Hj0 & _ & Hperm). rewrite Hperm in He.
  apply elem_of_cons in He as [->|He].
  - exists c, s. apply joins_ends in Hj as (w' & [|]); apply joins_ends in Hj0 as (w0 & [-> | ->]); simplify_eq/=;
      unfold joins; by rewrite !bool_decide_true, ?orb_true_r by done.
  - apply Hb. by apply list_elem_of_In, filter_In, proj1, list_elem_of_In in He.
Qed.

Lemma add_edges_pair (edges : list Edge) (g : G) c s :
  has_pair (foldl (fun g '(a, b, w) => gm_add_edge g a b w) g edges) c s =
    has_pair g c s || existsb (joins (Contract c) (Event s)) edges.
Proof.
  revert g. induction edges as [|[[a b] w] edges IH]; intros g; [simpl; by rewrite orb_false_r|].
  cbn [foldl existsb]. rewrite IH, add_edge_pair.
  by destruct (has_pair g c s), (joins (Contract c) (Event s) (a, b, w)).
Qed.

Lemma add_edges_bipartite (edges : list Edge) (g : G) :
  bipartite g -> (forall e, e ∈ edges -> exists c s, joins (Contract c) (Event s) e = true) ->
  bipartite (foldl (fun g '(a, b, w) => gm_add_edge g a b w) g edges).
Proof.
  revert g. induction edges as [|[[a b] w] edges IH]; intros g Hb He; [done|]. cbn [foldl]. apply IH.
  - destruct (He (a, b, w)) as (c & s & Hj); [by left|]. by eapply add_edge_bipartite.
  - intros e Hin. apply He. by right.
Qed.

(** Whether a filter wants an event of a contract *)
Definition wants_log (f : LogFilter) (c s : Bytes) : bool :=
  has_pair (lf_graph f) c s || bool_decide (is_Some (lf_wildcard_events f !! s)).

Lemma log_matches_wants (f : LogFilter) log :
  log_matches f log = match head (log_topics log) with Some s => wants_log f (log_address log) s | None => false end.
Proof.
  unfold log_matches, wants_log, has_pair. destruct (head (log_topics log)) as [s|]; [|done]. f_equal.
Qed.

Lemma wants_log_empty (f : LogFilter) c s : log_filter_is_empty f = true -> wants_log f c s = false.
Proof.
  unfold log_filter_is_empty, wants_log, has_pair. rewrite andb_true_iff, bool_decide_eq_true, gm_edge_count_all.
  intros [Hz%Nat.eqb_eq ->]. destruct (gm_all_edges (lf_graph f)); [|done]. simpl. rewrite lookup_empty. by apply bool_decide_false.
Qed.

Lemma wants_log_extend (f other : LogFilter) c s :
  wants_log (log_filter_extend f other) c s = wants_log f c s || wants_log other c s.
Proof.
  unfold log_filter_extend. destruct (log_filter_is_empty other) eqn:He; [by rewrite (wants_log_empty _ _ _ He), orb_false_r|].
  unfold wants_log. cbn [lf_graph lf_wildcard_events]. rewrite add_edges_pair. fold (has_pair (lf_graph other) c s).
  rewrite (bool_decide_ext (is_Some ((lf_wildcard_events other ∪ lf_wildcard_events f) !! s))
             (is_Some (lf_wildcard_events f !! s) \/ is_Some (lf_wildcard_events other !! s)));
    [|rewrite lookup_union_is_Some; naive_solver].
  rewrite bool_decide_or.
  destruct (has_pair (lf_graph f) c s), (has_pair (lf_graph other) c s), (bool_decide (is_Some (lf_wildcard_events f !! s))); done.
Qed.

Lemma log_extend_bipartite (f other : LogFilter) :
  bipartite (lf_graph f) -> bipartite (lf_graph other) -> bipartite (lf_graph (log_filter_extend f other)).
Proof. intros Hf Ho. unfold log_filter_extend. destruct (log_filter_is_empty other); [done|]. by apply add_edges_bipartite. Qed.

Lemma new_bipartite : bipartite (gm_new : G).
Proof. intros e. by rewrite gm_new_edges, elem_of_nil. Qed.

(** Adding the handlers of a data source *)
Lemma log_filter_add_spec address (f : LogFilter) h :
  (bipartite (lf_graph f) -> bipartite (lf_graph (log_filter_add address f h))) /\
  forall c s, wants_log (log_filter_add address f h) c s =
    wants_log f c s || (bool_decide (topic0 h = s) && match address with Some a => bool_decide (a = c) | None => true end).
Proof.
  destruct address as [a|]; simpl; (split; [|intros c s; unfold wants_log; simpl]).
  - apply (add_edge_bipartite _ _ _ _ a (topic0 h)). unfold joins. apply orb_true_iff. left. by rewrite !bool_decide_true.
  - rewrite add_edge_pair. unfold joins.
    rewrite (bool_decide_false (Event (topic0 h) = Contract c)), (bool_decide_ext (Contract a = Contract c) (a = c)),
      (bool_decide_ext (Event (topic0 h) = Event s) (topic0 h = s)) by naive_solver.
    destruct (bool_decide (a = c)), (bool_decide (topic0 h = s)), (has_pair (lf_graph f) c s),
      (bool_decide (is_Some (lf_wildcard_events f !! s))); done.
  - done.
  - rewrite andb_true_r, (bool_decide_ext (is_Some (<[topic0 h:=eh_receipt h]> (lf_wildcard_events f) !! s))
      (is_Some (lf_wildcard_events f !! s) \/ topic0 h = s)) by (rewrite lookup_insert_is_Some'; naive_solver).
    by rewrite bool_decide_or, orb_assoc.
Qed.

Lemma log_filter_handlers address (f : LogFilter) hs :
  (bipartite (lf_graph f) -> bipartite (lf_graph (foldl (log_filter_add address) f hs))) /\
  forall c s, wants_log (foldl (log_filter_add address) f hs) c s = true <->
    wants_log f c s = true \/ exists h, h ∈ hs /\ topic0 h = s /\ (address = None \/ address = Some c).
Proof.
  revert f. induction hs as [|h hs IH]; intros f; simpl.
  { split; [done|]. intros c s. split; [auto|]. intros [|(h & Hh & _)]; [done|by apply not_elem_of_nil in Hh]. }
  destruct (log_filter_add_spec address f h) as [Hb Hw]. destruct (IH (log_filter_add address f h)) as [Hb' Hw'].
  split; [auto|]. intros c s. rewrite Hw', Hw, orb_true_iff, andb_true_iff, bool_decide_eq_true.
  assert (Ha : (match address with Some a => bool_decide (a = c) | None => true end) = true <-> address = None \/ address = Some c).
  { destruct address; [rewrite bool_decide_eq_true|]; naive_solver. }
  rewrite Ha. split.
  - intros [[Hf|[Ht Hok]]|(h' & Hin & Hrest)]; [by left|right; exists h; split_and!; [by left|done..]|].
    right. exists h'. split; [by right|done].
  - intros [Hf|(h' & [->|Hin]%elem_of_cons & Ht & Hok)]; [by left; left|by left; right|]. right. by exists h'.
Qed.

Lemma wants_log_default c s : wants_log (log_filter_default : LogFilter) c s = false.
Proof. apply wants_log_empty. unfold log_filter_is_empty, log_filter_default. simpl. by rewrite gm_edge_count_all, gm_new_edges. Qed.

(** The filter for data sources wants exactly the events of their handlers. *)
Lemma log_filter_data_sources dss :
  bipartite (lf_graph (log_filter_from_data_sources dss : LogFilter)) /\
  forall c s, wants_log (log_filter_from_data_sources dss : LogFilter) c s = true <->
    exists ds h, ds ∈ dss /\ h ∈ mp_event_handlers (ds_mapping ds) /\ topic0 h = s /\
      (src_address (ds_source ds) = None \/ src_address (ds_source ds) = Some c).
Proof.
  unfold log_filter_from_data_sources.
  assert (Hgen : forall f : LogFilter, bipartite (lf_graph f) ->
    let f' := foldl (fun f ds => foldl (log_filter_add (src_address (ds_source ds))) f (mp_event_handlers (ds_mapping ds))) f dss in
    bipartite (lf_graph f') /\ forall c s, wants_log f' c s = true <-> wants_log f c s = true \/
      exists ds h, ds ∈ dss /\ h ∈ mp_event_handlers (ds_mapping ds) /\ topic0 h = s /\
        (src_address (ds_source ds) = None \/ src_address (ds_source ds) = Some c)).
  { induction dss as [|ds dss IH]; intros f Hf; simpl.
    { split; [done|]. intros c s. split; [auto|]. intros [|(ds & h & Hds & _)]; [done|by apply not_elem_of_nil in Hds]. }
    destruct (log_filter_handlers (src_address (ds_source ds)) f (mp_event_handlers (ds_mapping ds))) as [Hb Hw].
    destruct (IH _ (Hb Hf)) as [Hb' Hw']. split; [done|]. intros c s. rewrite Hw', Hw. split.
    - intros [[Hwf|(h & Hh & Ht & Ha)]|(ds' & h & Hin & Hrest)]; [by left|right..].
      + exists ds, h. split_and!; [by left|done..].
      + exists ds', h. split; [by right|done].
    - intros [Hwf|(ds' & h & [->|Hin]%elem_of_cons & Hh & Ht & Ha)]; [by left; left|left; right; by exists h|right; by exists ds', h]. }
  destruct (Hgen log_filter_default new_bipartite) as [Hb Hw]. split; [done|]. intros c s. rewrite Hw, wants_log_default.
  split; [by intros [|]|auto].
Qed.

Lemma log_filter_mapping m :
  bipartite (lf_graph (log_filter_from_mapping m : LogFilter)) /\
  forall c s, wants_log (log_filter_from_mapping m : LogFilter) c s = true <->
    exists h, h ∈ mp_event_handlers m /\ topic0 h = s.
Proof.
  unfold log_filter_from_mapping. destruct (log_filter_handlers None (log_filter_default : LogFilter) (mp_event_handlers m)) as [Hb Hw].
  split; [apply Hb, new_bipartite|]. intros c s. rewrite Hw, wants_log_default.
  split; [intros [|(h & Hh & Ht & _)]; [done|by exists h]|]. intros (h & Hh & Ht). right. exists h. auto.
Qed.

(** ** Filters for calls and blocks *)

(** Sets of selectors of contracts are not empty: an empty one would match all calls. *)
Definition call_filter_ok (f : EthereumCallFilter) : Prop :=
  forall a b sigs, cf_contracts f !! a = Some (b, sigs) -> sigs <> ∅.

(** Whether calls of a function of a contract are listed *)
Definition lists_call (m : gmap Bytes (BlockNumber * gset Bytes)) (a sig : Bytes) : Prop :=
  exists b sigs, m !! a = Some (b, sigs) /\ sig ∈ sigs.

(** The input of a call has a selector and then words of 32 bytes. *)
Definition aligned_input (input : Bytes) : Prop := (4 <= length input)%nat /\ ((length input - 4) mod 32 = 0)%nat.

Lemma call_matches_spec f call :
  call_filter_ok f ->
  call_matches f call = true <->
    aligned_input (call_input call) /\
    (lists_call (cf_contracts f) (call_to call) (take 4 (call_input call)) \/ take 4 (call_input call) ∈ cf_wildcard_signatures f).
Proof.
  intros Hok. unfold call_matches, aligned_input, lists_call.
  destruct (Nat.ltb_spec (length (call_input call)) 4) as [Hlt|Hge]; [split; [done|lia]|].
  destruct (Nat.eqb_spec ((length (call_input call) - 4) mod 32) 0) as [Hm|Hm]; simpl; [|split; [done|naive_solver]].
  destruct (cf_contracts f !! call_to call) as [[b sigs]|] eqn:Hl.
  - rewrite (bool_decide_false (sigs = ∅)) by by eapply Hok. rewrite orb_true_iff, !bool_decide_eq_true. split.
    + intros [Hs|Hw]; (split; [done|]); [left; by exists b, sigs|by right].
    + intros (_ & [(b' & sigs' & [= <- <-] & Hs)|Hw]); auto.
  - rewrite bool_decide_eq_true. split; [auto|]. intros (_ & [(b' & sigs' & ? & _)|Hw]); done.
Qed.

Lemma call_filter_add_spec m x a sig :
  lists_call (call_filter_add m x) a sig <-> lists_call m a sig \/ (x.1.2 = a /\ x.2 = sig).
Proof.
  destruct x as [[start address] fsig]. unfold lists_call, call_filter_add. simpl.
  destruct (default (start, ∅) (m !! address)) as [b sigs] eqn:Hd. destruct (decide (address = a)) as [->|Hne].
  - rewrite lookup_insert_eq. destruct (m !! a) as [[b' sigs']|] eqn:Hl; simpl in Hd; simplify_eq; split.
    + intros (? & ? & [= <- <-] & [->%elem_of_singleton|Hs]%elem_of_union); [by right|left; by do 2 eexists].
    + intros [(? & ? & [= <- <-] & Hs)|[_ ->]]; do 2 eexists; (split; [done|set_solver]).
    + intros (? & ? & [= <- <-] & [->%elem_of_singleton|Hs]%elem_of_union); [by right|set_solver].
    + intros [(? & ? & ? & Hs)|[_ ->]]; [done|]. do 2 eexists; (split; [done|set_solver]).
  - rewrite lookup_insert_ne by done. split; [auto|]. by intros [|[]].
Qed.

Lemma call_filter_add_ok m x :
  call_filter_ok (mkCallFilter m ∅) -> call_filter_ok (mkCallFilter (call_filter_add m x) ∅).
Proof.
  destruct x as [[start address] fsig]. unfold call_filter_ok, call_filter_add. simpl. intros Hok a b sigs.
  destruct (default (start, ∅) (m !! address)) as [b' sigs'].
  destruct (decide (address = a)) as [->|Hne]; [rewrite lookup_insert_eq; intros [= _ <-]; set_solver|].
  rewrite lookup_insert_ne by done. apply Hok.
Qed.

Lemma call_filter_from_iter_spec l :
  call_filter_ok (call_filter_from_iter l) /\
  forall a sig, lists_call (cf_contracts (call_filter_from_iter l)) a sig <-> exists b, (b, a, sig) ∈ l.
Proof.
  unfold call_filter_from_iter. simpl.
  assert (Hgen : forall m, call_filter_ok (mkCallFilter m ∅) ->
    call_filter_ok (mkCallFilter (foldl call_filter_add m l) ∅) /\
    forall a sig, lists_call (foldl call_filter_add m l) a sig <-> lists_call m a sig \/ exists b, (b, a, sig) ∈ l).
  { induction l as [|[[b0 a0] s0] l IH]; intros m Hm; simpl.
    { split; [done|]. intros a sig. split; [auto|]. intros [|[b Hb]]; [done|by apply not_elem_of_nil in Hb]. }
    destruct (IH (call_filter_add m (b0, a0, s0)) (call_filter_add_ok _ _ Hm)) as [Hok Hl]. split; [done|].
    intros a sig. rewrite Hl, call_filter_add_spec. simpl. split.
    - intros [[|[-> ->]]|[b Hb]]; [by left|right; exists b0; by left|right; exists b; by right].
    - intros [|[b [[= -> -> ->]|Hb]%elem_of_cons]]; [by left; left|left; by right|right; by exists b]. }
  destruct (Hgen ∅) as [Hok Hl]; [intros a b sigs; simpl; by rewrite lookup_empty|]. split; [done|].
  intros a sig. rewrite Hl. split; [|auto]. intros [(b & sigs & Hb & _)|]; [by rewrite lookup_empty in Hb|done].
Qed.

Lemma call_filter_data_sources dss :
  call_filter_ok (call_filter_from_data_sources dss) /\
  forall a sig, lists_call (cf_contracts (call_filter_from_data_sources dss)) a sig <->
    exists ds h, ds ∈ dss /\ src_address (ds_source ds) = Some a /\
      h ∈ mp_call_handlers (ds_mapping ds) /\ selector (ch_function h) = sig.
Proof.
  unfold call_filter_from_data_sources. destruct (call_filter_from_iter_spec (concat (map call_filter_entries dss))) as [Hok Hl].
  split; [done|]. intros a sig. rewrite Hl. clear Hok Hl. split.
  - intros (b & Hb). apply list_elem_of_In, in_concat in Hb as (l & Hds & Hin).
    apply in_map_iff in Hds as (ds & <- & Hds). apply list_elem_of_In in Hds, Hin.
    unfold call_filter_entries in Hin. destruct (src_address (ds_source ds)) as [a'|] eqn:Ha; [|by apply not_elem_of_nil in Hin].
    apply list_elem_of_fmap in Hin as (h & [= -> -> ->] & Hh). by exists ds, h.
  - intros (ds & h & Hds & Ha & Hh & <-). exists (src_start_block (ds_source ds)). apply list_elem_of_In, in_concat.
    exists (call_filter_entries ds). split; [by apply in_map, list_elem_of_In|]. apply list_elem_of_In.
    unfold call_filter_entries. rewrite Ha.
    by apply (list_elem_of_fmap_2 (fun h => (src_start_block (ds_source ds), a, selector (ch_function h)))).
Qed.

Lemma call_extend_entry_spec m x a sig :
  lists_call (call_filter_extend_entry m x) a sig <-> lists_call m a sig \/ (x.1 = a /\ sig ∈ x.2.2).
Proof.
  destruct x as [address [b sigs]]. unfold lists_call, call_filter_extend_entry. simpl.
  destruct (decide (address = a)) as [->|Hne].
  - destruct (m !! a) as [[b' sigs']|] eqn:Hl; rewrite lookup_insert_eq; split.
    + intros (? & ? & [= <- <-] & [Hs|Hs]%elem_of_union); [left; by do 2 eexists|by right].
    + intros [(? & ? & [= <- <-] & Hs)|[_ Hs]]; do 2 eexists; (split; [done|set_solver]).
    + intros (? & ? & [= <- <-] & Hs). by right.
    + intros [(? & ? & ? & Hs)|[_ Hs]]; [done|]. by do 2 eexists.
  - assert (Hs : match m !! address with
                 | Some (b', sigs') => <[address := (Z.min b b', sigs' ∪ sigs)]> m
                 | None => <[address := (b, sigs)]> m
                 end !! a = m !! a) by (destruct (m !! address) as [[]|]; by rewrite lookup_insert_ne).
    rewrite Hs. split; [auto|]. by intros [|[]].
Qed.

Lemma call_extend_entry_ok m x :
  x.2.2 <> ∅ -> call_filter_ok (mkCallFilter m ∅) -> call_filter_ok (mkCallFilter (call_filter_extend_entry m x) ∅).
Proof.
  destruct x as [address [b sigs]]. unfold call_filter_ok, call_filter_extend_entry. simpl. intros Hne Hok a b' sigs' Hl.
  destruct (m !! address) as [[b0 sigs0]|] eqn:Hm; (destruct (decide (address = a)) as [->|Hna];
    [rewrite lookup_insert_eq in Hl; injection Hl as <- <-; try done; specialize (Hok _ _ _ Hm); set_solver
    |rewrite lookup_insert_ne in Hl by done; by eapply Hok]).
Qed.

Lemma call_extend_spec f other :
  call_filter_ok f -> call_filter_ok other ->
  call_filter_ok (call_filter_extend f other) /\
  (forall a sig, lists_call (cf_contracts (call_filter_extend f other)) a sig <->
    lists_call (cf_contracts f) a sig \/ lists_call (cf_contracts other) a sig) /\
  cf_wildcard_signatures (call_filter_extend f other) = cf_wildcard_signatures f ∪ cf_wildcard_signatures other.
Proof.
  intros Hf Ho. unfold call_filter_extend. destruct (call_filter_is_empty other) eqn:He.
  { unfold call_filter_is_empty in He. rewrite andb_true_iff, !bool_decide_eq_true in He. destruct He as [-> ->].
    split_and!; [done| |by rewrite union_empty_r_L]. intros a sig. split; [auto|].
    intros [|(b & sigs & Hb & _)]; [done|by rewrite lookup_empty in Hb]. }
  clear He. simpl.
  assert (Hgen : forall l m, Forall (fun x : Bytes * (BlockNumber * gset Bytes) => x.2.2 <> ∅) l -> call_filter_ok (mkCallFilter m ∅) ->
    call_filter_ok (mkCallFilter (foldl call_filter_extend_entry m l) ∅) /\
    forall a sig, lists_call (foldl call_filter_extend_entry m l) a sig <->
      lists_call m a sig \/ exists b sigs, (a, (b, sigs)) ∈ l /\ sig ∈ sigs).
  { induction l as [|[a0 [b0 s0]] l IH]; intros m Hall Hm; simpl.
    { split; [done|]. intros a sig. split; [auto|]. intros [|(b & sigs & Hb & _)]; [done|by apply not_elem_of_nil in Hb]. }
    apply Forall_cons in Hall as [H0 Hall].
    destruct (IH _ Hall (call_extend_entry_ok m (a0, (b0, s0)) H0 Hm)) as [Hok Hl]. split; [done|].
    intros a sig. rewrite Hl, call_extend_entry_spec. simpl. split.
    - intros [[|[-> Hs]]|(b & sigs & Hb & Hs)]; [by left|right; exists b0, s0; split; [by left|done]|right; exists b, sigs; split; [by right|done]].
    - intros [|(b & sigs & [[= -> -> ->]|Hb]%elem_of_cons & Hs)]; [by left; left|left; by right|right; by exists b, sigs]. }
  destruct (Hgen (map_to_list (cf_contracts other)) (cf_contracts f)) as [Hok Hl].
  { apply Forall_forall. intros [a [b sigs]] Hin%elem_of_map_to_list. by eapply Ho. }
  { intros a b sigs. apply Hf. }
  split_and!; [exact Hok| |done]. intros a sig. rewrite Hl. unfold lists_call. by setoid_rewrite elem_of_map_to_list.
Qed.

(** Whether a set has a contract *)
Definition lists_contract (s : gset (BlockNumber * Bytes)) (a : Bytes) : Prop := exists n, (n, a) ∈ s.

Lemma block_extend_entry_spec s x a :
  lists_contract (block_filter_extend_entry s x) a <-> lists_contract s a \/ x.2 = a.
Proof.
  unfold lists_contract, block_filter_extend_entry, find_contract_address. destruct x as [n a0]. simpl.
  destruct (List.find _ _) as [[n1 a1]|] eqn:Hf.
  - apply find_some in Hf as [Hin%list_elem_of_In%elem_of_elements Ha]. apply bool_decide_eq_true in Ha. simpl in Ha. subst a1.
    simpl. destruct (Z.ltb_spec n n1).
    + split; [intros (m & Hm); destruct (decide (a0 = a)); [auto|left; exists m; set_solver]|].
      intros [(m & Hm)| <-]; [|exists n; set_solver]. destruct (decide (a0 = a)) as [->|]; [exists n; set_solver|].
      exists m. set_solver.
    + split; [auto|]. intros [|<-]; [done|]. by exists n1.
  - split; [intros (m & [[= -> ->]%elem_of_singleton|Hm]%elem_of_union); [by right|left; by exists m]|].
    intros [(m & Hm)| <-]; [exists m; set_solver|exists n; set_solver].
Qed.

Lemma block_extend_spec f other :
  (forall a, lists_contract (bf_contract_addresses (block_filter_extend f other)) a <->
    lists_contract (bf_contract_addresses f) a \/ lists_contract (bf_contract_addresses other) a) /\
  bf_trigger_every_block (block_filter_extend f other) = bf_trigger_every_block f || bf_trigger_every_block other.
Proof.
  unfold block_filter_extend, block_filter_is_empty. destruct (bf_trigger_every_block other) eqn:Hev.
  2: case_bool_decide as He.
  2: { rewrite He, orb_false_r. split; [|done]. intros a. split; [auto|]. intros [|[n Hn]]; [done|set_solver]. }
  all: split; [|done]; intros a; simpl.
  all: assert (Hgen : forall l s, lists_contract (foldl block_filter_extend_entry s l) a <-> lists_contract s a \/ exists n, (n, a) ∈ l)
    by (induction l as [|[n0 a0] l IH]; intros s; simpl;
        [split; [auto|]; intros [|[n Hn]]; [done|by apply not_elem_of_nil in Hn]
        |rewrite IH, block_extend_entry_spec; simpl; setoid_rewrite elem_of_cons; split;
         [intros [[|<-]|[n Hn]]; [by left|right; exists n0; by left|right; exists n; by right]
         |intros [|[n [[= -> ->]|Hn]]]; [by left; left|left; by right|right; by exists n]]]).
  all: rewrite Hgen; unfold lists_contract; by setoid_rewrite elem_of_elements.
Qed.

Lemma block_filter_of_spec ds address :
  (forall a, lists_contract (bf_contract_addresses (block_filter_of ds address)) a <->
    address = a /\ exists h, h ∈ mp_block_handlers (ds_mapping ds) /\ bh_filter h = Some CallFilter) /\
  (bf_trigger_every_block (block_filter_of ds address) = true <->
    exists h, h ∈ mp_block_handlers (ds_mapping ds) /\ bh_filter h = None).
Proof.
  split.
  - intros a. unfold block_filter_of, lists_contract, has_block_handler_with_call_filter. simpl.
    destruct (existsb is_call_filter (mp_block_handlers (ds_mapping ds))) eqn:Hh.
    + apply existsb_exists in Hh as (h & Hin & Hc). unfold is_call_filter in Hc. apply bool_decide_eq_true in Hc.
      split; [intros (n & [= _ <-]%elem_of_singleton); split; [done|]; exists h; by rewrite list_elem_of_In|].
      intros [<- _]. eexists. by apply elem_of_singleton.
    + split; [intros (n & Hn); set_solver|]. intros [_ (h & Hin & Hc)]. exfalso. apply not_true_iff_false in Hh. apply Hh.
      apply existsb_exists. exists h. split; [by apply list_elem_of_In|]. unfold is_call_filter. by apply bool_decide_eq_true.
  - unfold block_filter_of. simpl. rewrite existsb_exists. setoid_rewrite bool_decide_eq_true. by setoid_rewrite list_elem_of_In.
Qed.

(** A data source with an address and a block handler with the filter *)
Definition has_block_handler (filter : option BlockHandlerFilter) (ds : DataSource) : Prop :=
  exists h, h ∈ mp_block_handlers (ds_mapping ds) /\ bh_filter h = filter.

Lemma block_filter_data_sources dss :
  (forall a, lists_contract (bf_contract_addresses (block_filter_from_data_sources dss)) a <->
    exists ds, ds ∈ dss /\ src_address (ds_source ds) = Some a /\ has_block_handler (Some CallFilter) ds) /\
  (bf_trigger_every_block (block_filter_from_data_sources dss) = true <->
    exists ds, ds ∈ dss /\ is_Some (src_address (ds_source ds)) /\ has_block_handler None ds).
Proof.
  unfold block_filter_from_data_sources.
  assert (Hgen : forall f, let f' := foldl (fun f ds => match src_address (ds_source ds) with
                     | Some address => block_filter_extend f (block_filter_of ds address)
                     | None => f
                     end) f dss in
    (forall a, lists_contract (bf_contract_addresses f') a <-> lists_contract (bf_contract_addresses f) a \/
      exists ds, ds ∈ dss /\ src_address (ds_source ds) = Some a /\ has_block_handler (Some CallFilter) ds) /\
    (bf_trigger_every_block f' = true <-> bf_trigger_every_block f = true \/
      exists ds, ds ∈ dss /\ is_Some (src_address (ds_source ds)) /\ has_block_handler None ds)).
  { induction dss as [|ds dss IH]; intros f; cbn [foldl].
    { split; [intros a|]; (split; [auto|]); (intros [|(ds & Hds & _)]; [done|by apply not_elem_of_nil in Hds]). }
    destruct (src_address (ds_source ds)) as [address|] eqn:Ha.
    - destruct (IH (block_filter_extend f (block_filter_of ds address))) as [Hl He].
      destruct (block_extend_spec f (block_filter_of ds address)) as [Hl1 He1].
      destruct (block_filter_of_spec ds address) as [Hl2 He2]. split.
      + intros a. rewrite Hl, Hl1, Hl2. split.
        * intros [[|[<- Hh]]|(ds' & Hin & Hrest)]; [by left|right; exists ds; split_and!; [by left|done..]|right; exists ds'; split; [by right|done]].
        * intros [|(ds' & [->|Hin]%elem_of_cons & Ha' & Hh)]; [by left; left| |right; by exists ds'].
          left. right. split; [congruence|done].
      + rewrite He, He1, orb_true_iff, He2. split.
        * intros [[|Hh]|(ds' & Hin & Hrest)]; [by left|right; exists ds; split_and!; [by left|by eexists|done]|right; exists ds'; split; [by right|done]].
        * intros [|(ds' & [->|Hin]%elem_of_cons & Ha' & Hh)]; [by left; left|by left; right|right; by exists ds'].
    - destruct (IH f) as [Hl He]. split; [intros a; rewrite Hl|rewrite He]; split.
      + intros [|(ds' & Hin & Hrest)]; [by left|right; exists ds'; split; [by right|done]].
      + intros [|(ds' & [->|Hin]%elem_of_cons & Ha' & Hh)]; [by left|congruence|right; by exists ds'].
      + intros [|(ds' & Hin & Hrest)]; [by left|right; exists ds'; split; [by right|done]].
      + intros [|(ds' & [->|Hin]%elem_of_cons & [x Ha'] & Hh)]; [by left|congruence|right; by exists ds']. }
  destruct (Hgen block_filter_default) as [Hl He]. split; [intros a; rewrite Hl|rewrite He]; (split; [|auto]).
  - intros [[n Hn]|]; [set_solver|done].
  - by intros [|].
Qed.

(** The filter for calls that stands for a block filter matches all calls to its contracts. *)
Lemma block_calls_match f call :
  call_matches (call_filter_from_block_filter f) call = true <->
    aligned_input (call_input call) /\ lists_contract (bf_contract_addresses f) (call_to call).
Proof.
  assert (Hl : forall a, match cf_contracts (call_filter_from_block_filter f) !! a with
      | Some (_, sigs) => sigs = ∅ /\ lists_contract (bf_contract_addresses f) a
      | None => ~ lists_contract (bf_contract_addresses f) a
      end).
  { intros a. unfold call_filter_from_block_filter, lists_contract. cbn [cf_contracts].
    assert (Hgen : forall l (m : gmap Bytes (BlockNumber * gset Bytes)),
      foldl (fun m x => <[x.2 := (x.1, ∅)]> m) m l !! a = m !! a /\ (forall n, (n, a) ∉ l) \/
      exists n, foldl (fun (m : gmap Bytes (BlockNumber * gset Bytes)) x => <[x.2 := (x.1, ∅)]> m) m l !! a = Some (n, ∅) /\ (n, a) ∈ l).
    { induction l as [|[n0 a0] l IH]; intros m; simpl; [left; split; [done|]; intros n; apply not_elem_of_nil|].
      destruct (IH (<[a0 := (n0, ∅)]> m)) as [[-> Hno]|(n & -> & Hn)]; [|right; exists n; split; [done|by right]].
      destruct (decide (a0 = a)) as [->|Hne]; [right; exists n0; rewrite lookup_insert_eq; split; [done|by left]|].
      left. rewrite lookup_insert_ne by done. split; [done|]. intros n [[= _ ->]|Hn]%elem_of_cons; [done|by eapply Hno]. }
    destruct (Hgen (elements (bf_contract_addresses f)) ∅) as [[-> Hno]|(n & -> & Hn)].
    - rewrite lookup_empty. intros [n Hn]. by eapply Hno, elem_of_elements.
    - split; [done|]. exists n. by apply elem_of_elements. }
  specialize (Hl (call_to call)). unfold call_matches, aligned_input.
  destruct (Nat.ltb_spec (length (call_input call)) 4) as [Hlt|Hge]; [split; [done|lia]|].
  destruct (Nat.eqb_spec ((length (call_input call) - 4) mod 32) 0) as [Hm|Hm]; simpl negb; cbv iota; [|split; [done|by intros [[]]]].
  destruct (cf_contracts _ !! call_to call) as [[b sigs]|].
  - destruct Hl as [-> Hl]. rewrite (bool_decide_true (∅ = ∅)) by done. split; auto.
  - split; [|by intros [_ ?]]. intros Hw%bool_decide_eq_true. simpl in Hw. set_solver.
Qed.

End Matches.
