(* ===== verification/EthAdapter.v ===== *)
(** * Finding triggers on an Ethereum node

    [chain/ethereum/src/ethereum_adapter.rs] and the [TriggersAdapter] of
    [chain/ethereum/src/chain.rs]: the triggers of a range of final blocks, which are
    found with queries for logs and traces, and those of a block that is at hand with its
    receipts.

    The JSON-RPC calls, with their retries, are a record of functions, and so are the
    blocks and receipts in the chain store; they give the same answers throughout a scan.
    Loops take fuel, and are [None] when it does not suffice.  The futures that are run
    together are run one after the other. *)

From Stdlib Require Import Strings.Byte.
From stdpp Require Import base numbers list gmap countable strings.
From S2P Require Import Prelude GraphqlAst Scalars RuntimeValue Values Names StoreTypes.
From S2P Require Import Schema BlockRange Relational DeploymentStore ChainStore Float64 PollingStream.
From S2P Require Import EthTypes EthDataSource EthFilters.

(** An answer to [eth_getLogs]; providers have errors for requests that are too heavy. *)
Inductive LogsAnswer :=
| Logs (logs : list EthLog)
| TooManyLogs (e : string)
| LogsFailed (e : string).

Inductive AdapterError :=
| RpcError (e : string)
| NoTraces (number : BlockNumber) (hash : Bytes)
| UnexpectedTraces (number : BlockNumber) (hash : Bytes)
| BlockNotFound (number : BlockNumber)
| NoTriggersForBlock (ptr : BlockPtr)
| BlockBeforeRange (first from : BlockNumber)
| BlockAfterRange (last to : BlockNumber)
| NoTransactionHash
| TransactionsNotFound
| ReceiptNotFound (hash : Bytes)
| StatusNotInspected
| ReceiptBlockMismatch (block : Bytes)
| ReceiptMissing (block tx : Bytes)
| OtherReceipt
| DuplicateReceipt
| ReceiptsIncomplete
| NodeMissesBlock (number : BlockNumber)
| CallError (e : EthError).

Record EthRpc := mkEthRpc {
  rpc_logs : BlockNumber -> BlockNumber -> EthGetLogsFilter -> LogsAnswer;
  rpc_traces : BlockNumber -> BlockNumber -> list Bytes -> result AdapterError (list EthTrace);
  rpc_block_hash : BlockNumber -> result AdapterError (option Bytes);
  rpc_block_ptr : BlockNumber -> result AdapterError BlockPtr;
  rpc_block : Bytes -> result AdapterError LightEthereumBlock;
  rpc_receipt : Bytes -> result AdapterError (option EthReceipt)
}.

(** What a chain store has of the chain; an error of the cache of blocks is no block. *)
Record BlockCache := mkBlockCache {
  bk_blocks : list Bytes -> list LightEthereumBlock;
  bk_receipts : Bytes -> result AdapterError (list (Bytes * option Z))
}.

(** Settings from the environment *)
Record AdapterEnv := mkAdapterEnv {
  env_max_event_only_range : Z;
  env_trace_stream_step_size : Z;
  env_get_logs_max_contracts : nat
}.

Section Adapter.
Context {G : Type} `{GM : !GraphMap G} {Token : Type} `{AC : !AbiCodec Token} `{KC : !Keccak} `{CJ : !ContextJson}.
Local Abbreviation TFilter := (TriggerFilter G).
Context (rpc : EthRpc) (store : BlockCache) (env : AdapterEnv).

(** ** Logs and calls in a range *)

(** The body of [log_stream]: the range of a request is divided by ten when it is too heavy. *)
Fixpoint log_stream_from (fuel : nat) (to start step : Z) (f : EthGetLogsFilter) : option (result AdapterError (list EthLog)) :=
  if (to <? start)%Z then Some (Ok []) else
  match fuel with
  | O => None
  | S fuel =>
      let end_ := Z.min (start + step) to in
      match rpc_logs rpc start end_ f with
      | TooManyLogs e => if (0 <? step)%Z then log_stream_from fuel to start (step / 10) f else Some (Err (RpcError e))
      | LogsFailed e => Some (Err (RpcError e))
      | Logs logs => let* rest := log_stream_from fuel to (end_ + 1) step f in Some (Ok (logs ++ rest))
      end
  end.

Definition log_stream (fuel : nat) (from to : BlockNumber) (f : EthGetLogsFilter) : option (result AdapterError (list EthLog)) :=
  if (to <? from)%Z then Some Panic else
  let step := if bool_decide (gl_contracts f = []) then Z.min (to - from) (env_max_event_only_range env - 1) else (to - from)%Z in
  log_stream_from fuel to from step f.

Fixpoint log_streams (fuel : nat) (from to : BlockNumber) (fs : list EthGetLogsFilter)
    : option (result AdapterError (list EthLog)) :=
  match fs with
  | [] => Some (Ok [])
  | f :: fs =>
      let* logs := log_stream fuel from to f in
      let* rest := log_streams fuel from to fs in
      Some (Ok (logs ++ rest))
  end.

Definition logs_in_block_range (fuel : nat) (from to : BlockNumber) (log_filter : EthereumLogFilter G)
    : option (result AdapterError (list EthLog)) :=
  match eth_get_logs_filters fuel (env_get_logs_max_contracts env) log_filter with
  | None => None
  | Some (Ok fs) => log_streams fuel from to fs
  | Some _ => Some Panic
  end.

Fixpoint trace_stream_from (fuel : nat) (to start : Z) (addresses : list Bytes) : option (result AdapterError (list EthTrace)) :=
  if (to <? start)%Z then Some (Ok []) else
  match fuel with
  | O => None
  | S fuel =>
      let end_ := Z.min (start + env_trace_stream_step_size env - 1) to in
      let* traces := Some (rpc_traces rpc start end_ addresses) in
      let* rest := trace_stream_from fuel to (end_ + 1) addresses in
      Some (Ok (traces ++ rest))
  end.

Definition trace_stream (fuel : nat) (from to : BlockNumber) (addresses : list Bytes)
    : option (result AdapterError (list EthTrace)) :=
  if (to <? from)%Z then Some Panic else trace_stream_from fuel to from addresses.

Definition calls_in_block_range (fuel : nat) (from to : BlockNumber) (call_filter : EthereumCallFilter)
    : option (result AdapterError (list EthereumCall)) :=
  let addresses := map fst (List.filter (fun x => (x.2.1 <=? to)%Z) (map_to_list (cf_contracts call_filter))) in
  if bool_decide (addresses = []) then Some (Ok []) else
  let* traces := trace_stream fuel from to addresses in
  Some (Ok (List.filter (call_matches call_filter) (omap try_from_trace traces))).

Definition calls_in_block (fuel : nat) (block_number : BlockNumber) (block_hash : Bytes)
    : option (result AdapterError (list EthereumCall)) :=
  let* traces := trace_stream fuel block_number block_number [] in
  match traces with
  | [] => Some (Err (NoTraces block_number block_hash))
  | t :: _ =>
      if bool_decide (tr_block_hash t = block_hash) then Some (Ok (omap try_from_trace traces))
      else Some (Err (UnexpectedTraces block_number block_hash))
  end.

(** [from..=to] *)
Definition block_range (from to : BlockNumber) : list Z := seqZ from (to - from + 1).

Definition block_range_to_ptrs (from to : BlockNumber) : result AdapterError (list BlockPtr) :=
  try_map (rpc_block_ptr rpc) (block_range from to).

Definition adapter_is_on_main_chain (ptr : BlockPtr) : result AdapterError bool :=
  let? hash := rpc_block_hash rpc (bp_number ptr) in
  let? hash := ok_or (NodeMissesBlock (bp_number ptr)) hash in
  let? h256 := hash_as_h256 (bp_hash ptr) in
  Ok (bool_decide (hash = h256)).

(** [load_blocks]: the blocks, and those that were not in the chain store and are written
    to it *)
Definition load_blocks (hashes : gset Bytes) : result AdapterError (list LightEthereumBlock * list LightEthereumBlock) :=
  let block_hashes := elements hashes in
  let blocks := bk_blocks store block_hashes in
  let missing := List.filter (fun h => negb (existsb (fun b => bool_decide (lb_hash b = Some h)) blocks)) block_hashes in
  let? new_blocks := try_map (rpc_block rpc) missing in
  Ok (sort_by (fun a b => option_leb (lb_number a) (lb_number b)) (blocks ++ new_blocks), new_blocks).

(** ** Logs with their receipts *)

Definition resolve_transaction_receipt (receipt : option EthReceipt) (transaction_hash block_hash : Bytes)
    : result AdapterError EthReceipt :=
  match receipt with
  | Some r => if bool_decide (rc_block_hash r = Some block_hash) then Ok r else Err (ReceiptBlockMismatch block_hash)
  | None => Err (ReceiptMissing block_hash transaction_hash)
  end.

Definition fetch_transaction_receipt (block_hash transaction_hash : Bytes) : result AdapterError EthReceipt :=
  let? receipt := rpc_receipt rpc transaction_hash in
  resolve_transaction_receipt receipt transaction_hash block_hash.

(** Each receipt must be one that was asked for. *)
Definition add_receipt (st : gset Bytes * gmap Bytes EthReceipt) (r : EthReceipt)
    : result AdapterError (gset Bytes * gmap Bytes EthReceipt) :=
  let (unique, receipts) := st in
  if bool_decide (rc_transaction_hash r ∈ unique) then
    match receipts !! rc_transaction_hash r with
    | Some _ => Err DuplicateReceipt
    | None => Ok (unique ∖ {[rc_transaction_hash r]}, <[rc_transaction_hash r := r]> receipts)
    end
  else Err OtherReceipt.

Definition get_transaction_receipts_for_transaction_hashes (hashes_by_block : gmap Bytes (gset Bytes))
    : result AdapterError (gmap Bytes EthReceipt) :=
  if bool_decide (hashes_by_block = ∅) then Ok ∅ else
  let requests := concat (map (fun x => map (pair x.1) (elements x.2)) (map_to_list hashes_by_block)) in
  let unique : gset Bytes := list_to_set (map snd requests) in
  let? receipts := try_map (fun x => fetch_transaction_receipt x.1 x.2) requests in
  let? (unique, receipts_by_hash) := try_fold add_receipt (unique, ∅) receipts in
  if bool_decide (unique = ∅) then Ok receipts_by_hash else Err ReceiptsIncomplete.

(** The log's block and transaction when a handler needs the receipt *)
Definition needs_receipt (log_filter : EthereumLogFilter G) (receipts : bool) (log : EthLog) : option (Bytes * Bytes) :=
  if receipts && match head (log_topics log) with
                 | Some signature => requires_transaction_receipt log_filter signature (Some (log_address log))
                 | None => false
                 end
  then match log_block_hash log, log_transaction_hash log with
       | Some block, Some txn => Some (block, txn)
       | _, _ => None
       end
  else None.

(** [receipts] is whether the API version is at least 0.0.7. *)
Definition get_logs_and_transactions (fuel : nat) (from to : BlockNumber) (log_filter : EthereumLogFilter G) (receipts : bool)
    : option (result AdapterError (list EthereumTrigger)) :=
  let* logs := logs_in_block_range fuel from to log_filter in
  let hashes_by_block :=
    foldl (fun (acc : gmap Bytes (gset Bytes)) x => <[x.1 := {[x.2]} ∪ default ∅ (acc !! x.1)]> acc) ∅
      (omap (needs_receipt log_filter receipts) logs) in
  let* by_hash := Some (get_transaction_receipts_for_transaction_hashes hashes_by_block) in
  Some (Ok (map (fun log => TriggerLog log (log_transaction_hash log ≫= fun txn => by_hash !! txn)) logs)).

(** ** Triggers of a block at hand *)

Definition get_calls (fuel : nat) (requires_traces : bool) (block : BlockFinality) : option (result AdapterError BlockFinality) :=
  match block with
  | Final _ => Some (Ok block)
  | NonFinal b =>
      match bc_calls b with
      | Some _ => Some (Ok block)
      | None =>
          let e := bc_ethereum_block b in
          let* calls :=
            (if negb requires_traces || bool_decide (eb_transaction_receipts e = []) then Some (Ok [])
             else
               let* number := Some (light_number (eb_block e)) in
               let* hash := Some (expect (lb_hash (eb_block e))) in
               calls_in_block fuel number hash) in
          Some (Ok (NonFinal (mkBlockWithCalls e (Some calls))))
      end
  end.

Definition parse_log_triggers (log_filter : EthereumLogFilter G) (block : EthereumBlock) : list EthereumTrigger :=
  if log_filter_is_empty log_filter then [] else
  concat (map (fun receipt =>
      map (fun log => TriggerLog log (Some receipt)) (List.filter (log_matches log_filter) (rc_logs receipt)))
    (eb_transaction_receipts block)).

(** [filter_map_ok(|some_trigger| some_trigger)] *)
Definition collect_some (l : list (option EthereumTrigger)) : list EthereumTrigger := omap (fun t => t) l.

Definition parse_call_triggers (call_filter : EthereumCallFilter) (block : EthereumBlockWithCalls)
    : result EthError (list EthereumTrigger) :=
  if call_filter_is_empty call_filter then Ok [] else
  match bc_calls block with
  | Some calls =>
      let? triggers := try_map (fun call =>
          let? succeeded := transaction_for_call_succeeded block call in
          Ok (if succeeded : bool then Some (TriggerCall call) else None)) (List.filter (call_matches call_filter) calls) in
      Ok (collect_some triggers)
  | None => Ok []
  end.

Definition parse_block_triggers (block_filter : EthereumBlockFilter) (block : EthereumBlockWithCalls)
    : result EthError (list EthereumTrigger) :=
  if block_filter_is_empty block_filter then Ok [] else
  let? ptr := light_block_ptr (eb_block (bc_ethereum_block block)) in
  let call_filter := call_filter_from_block_filter block_filter in
  let triggers :=
    match bc_calls block with
    | Some calls =>
        map (fun call => TriggerBlock ptr (WithCallTo (call_to call))) (List.filter (call_matches call_filter) calls)
    | None => []
    end in
  Ok (triggers ++ if bf_trigger_every_block block_filter then [TriggerBlock ptr Every] else []).

(** The triggers of a block that is not final, in the order in which they are processed *)
Definition triggers_of_block (f : TFilter) (block : EthereumBlockWithCalls) : result EthError (list EthereumTrigger) :=
  let logs := parse_log_triggers (tf_log f) (bc_ethereum_block block) in
  let? calls := parse_call_triggers (tf_call f) block in
  let? blocks := parse_block_triggers (tf_block f) block in
  Ok (sort_triggers (logs ++ calls ++ blocks)).

(** ** Calls of failed transactions *)

Local Abbreviation EthBlock := (BlockWithTriggers BlockFinality EthereumTrigger).

(** The status of each transaction, from the store where it has the receipt *)
Definition transaction_statuses (transactions : list EthTransaction) (stored : gmap Bytes (option Z))
    : result AdapterError (list (Bytes * option Z)) :=
  let '(_, with_receipt, without) :=
    foldl (fun (st : gmap Bytes (option Z) * list (Bytes * option Z) * list Bytes) tx =>
        let '(receipts, with_receipt, without) := st in
        match receipts !! tx_hash tx with
        | Some status => (delete (tx_hash tx) receipts, with_receipt ++ [(tx_hash tx, status)], without)
        | None => (receipts, with_receipt, without ++ [tx_hash tx])
        end) (stored, [], []) transactions in
  let? fetched := try_map (fun hash =>
      let? receipt := rpc_receipt rpc hash in
      let? receipt := ok_or (ReceiptNotFound hash) receipt in
      Ok (hash, rc_status receipt)) without in
  Ok (with_receipt ++ fetched).

Definition filter_call_triggers_from_unsuccessful_transactions (block : EthBlock) : result AdapterError EthBlock :=
  if bool_decide (trigger_data block = []) then Ok block else
  let calls := omap (fun t => match t with TriggerCall c => Some c | _ => None end) (trigger_data block) in
  let? hashes := ok_or NoTransactionHash (mapM call_transaction_hash calls) in
  let transaction_hashes : gset Bytes := list_to_set hashes in
  if bool_decide (transaction_hashes = ∅) then Ok block else
  match bwt_block block with
  | NonFinal _ => Panic
  | Final b =>
      let transactions := List.filter (fun tx => bool_decide (tx_hash tx ∈ transaction_hashes)) (lb_transactions b) in
      if negb (length transactions =? size transaction_hashes)%nat then Err TransactionsNotFound else
      let? ptr := light_block_ptr b in
      let? hash := hash_as_h256 (bp_hash ptr) in
      let? receipts := bk_receipts store hash in
      let? statuses := transaction_statuses transactions (collect_map receipts) in
      let success : gmap Bytes bool := collect_map (map (fun x => (x.1, evaluate_transaction_status x.2)) statuses) in
      if negb (forallb (fun h => bool_decide (is_Some (success !! h))) (elements transaction_hashes)) then Err StatusNotInspected else
      Ok (mkBwt (bwt_block block)
            (List.filter (fun t => match t with
                                   | TriggerCall c => default false (call_transaction_hash c ≫= fun h => success !! h)
                                   | _ => true
                                   end) (trigger_data block)))
  end.

(** ** Triggers of a range of final blocks *)

(** The triggers of a range, from the three kinds of scans.  Triggers of different kinds
    are never equal in the order of triggers, so it does not matter which scan ends first. *)
Definition scan_range (fuel : nat) (from to : BlockNumber) (f : TFilter) (receipts : bool)
    : option (result AdapterError (list EthereumTrigger)) :=
  let* logs := (if log_filter_is_empty (tf_log f) then Some (Ok [])
                else get_logs_and_transactions fuel from to (tf_log f) receipts) in
  let* calls := (if call_filter_is_empty (tf_call f) then Some (Ok [])
                 else let* calls := calls_in_block_range fuel from to (tf_call f) in Some (Ok (map TriggerCall calls))) in
  let* blocks :=
    (if bf_trigger_every_block (tf_block f) then
       let* ptrs := Some (block_range_to_ptrs from to) in
       Some (Ok (map (fun ptr => TriggerBlock ptr Every) ptrs))
     else if bool_decide (bf_contract_addresses (tf_block f) = ∅) then Some (Ok [])
     else
       let* calls := calls_in_block_range fuel from to (call_filter_from_block_filter (tf_block f)) in
       Some (Ok (map (fun call => TriggerBlock (mkPtr (call_block_hash call) (call_number call)) (WithCallTo (call_to call))) calls))) in
  Some (Ok (logs ++ calls ++ blocks)).

Definition push_trigger (m : gmap Z (list EthereumTrigger)) (t : EthereumTrigger)
    : result AdapterError (gmap Z (list EthereumTrigger)) :=
  let? n := trigger_block_number t in
  Ok (<[n := default [] (m !! n) ++ [t]]> m).

(** A loaded block takes the triggers with its number. *)
Definition take_triggers (st : gmap Z (list EthereumTrigger) * list EthBlock) (block : LightEthereumBlock)
    : result AdapterError (gmap Z (list EthereumTrigger) * list EthBlock) :=
  let (by_block, blocks) := st in
  let? n := light_number block in
  match by_block !! n with
  | Some triggers => Ok (delete n by_block, blocks ++ [mkBwt (Final block) (sort_triggers triggers)])
  | None => let? ptr := light_block_ptr block in Err (NoTriggersForBlock ptr)
  end.

Definition finality_ptr (b : BlockFinality) : result AdapterError BlockPtr := light_block_ptr (finality_light_block b).

(** The number of a block as a key for sorting *)
Definition block_key (b : EthBlock) : Z := default 0%Z (lb_number (finality_light_block (bwt_block b))).

(** [receipts] and [check_status] are whether the API version is at least 0.0.7 and 0.0.5.
    The second list are the blocks that are written to the chain store. *)
Definition blocks_with_triggers (fuel : nat) (from to : BlockNumber) (f : TFilter) (receipts check_status : bool)
    : option (result AdapterError (list EthBlock * list LightEthereumBlock)) :=
  let* triggers := scan_range fuel from to f receipts in
  Some (
    let? to_hash := rpc_block_hash rpc to in
    let? to_hash := ok_or (BlockNotFound to) to_hash in
    let? hashes := try_map trigger_block_hash triggers in
    let? by_block := try_fold push_trigger ∅ triggers in
    let block_hashes : gset Bytes := {[to_hash]} ∪ list_to_set hashes in
    let by_block := match by_block !! to with Some _ => by_block | None => <[to := []]> by_block end in
    let? (loaded, new_blocks) := load_blocks block_hashes in
    let? (_, blocks) := try_fold take_triggers (by_block, []) loaded in
    let? blocks := (if check_status then try_map filter_call_triggers_from_unsuccessful_transactions blocks else Ok blocks) in
    let blocks := sort_by (fun a b => (block_key a <=? block_key b)%Z) blocks in
    let? first := expect (head blocks) in
    let? last := expect (last blocks) in
    if (block_key first <? from)%Z then Err (BlockBeforeRange (block_key first) from) else
    if (to <? block_key last)%Z then Err (BlockAfterRange (block_key last) to) else
    Ok (blocks, new_blocks)).

(** [TriggersAdapter::triggers_in_block] *)
Definition eth_triggers_in_block (fuel : nat) (block : BlockFinality) (f : TFilter) (receipts check_status : bool)
    : option (result AdapterError (EthBlock * list LightEthereumBlock)) :=
  let* block := get_calls fuel (requires_traces f) block in
  match block with
  | Final b =>
      let* number := Some (light_number b) in
      let* (blocks, new_blocks) := blocks_with_triggers fuel number number f receipts check_status in
      match blocks with
      | [b] => Some (Ok (b, new_blocks))
      | _ => Some Panic
      end
  | NonFinal b =>
      Some (map_err CallError (map_result (fun triggers => (mkBwt block triggers, [])) (triggers_of_block f b)))
  end.

End Adapter.
