(* ===== verification/EthTriggerProps.v ===== *)
(** * Triggers are complete

    The filter that is built from the data sources and templates of a subgraph wants
    exactly what these handle.  So the triggers of a block are those that one of its data
    sources processes, and the queries for logs fetch the logs that are wanted. *)

From Stdlib Require Import Strings.Byte.
From stdpp Require Import base numbers list gmap countable strings.
From S2P Require Import Prelude GraphqlAst Scalars RuntimeValue Values Names StoreTypes.
From S2P Require Import Schema BlockRange Relational DeploymentStore ChainStore Float64 PollingStream.
From S2P Require Import EthTypes EthDataSource EthFilters EthFilterProps EthAdapter.

Section Triggers.
Context {G : Type} `{GM : !GraphMap G} `{GL : !GraphMapLaws G} {Token : Type} `{AC : !AbiCodec Token}.
Context `{KC : !Keccak} `{CJ : !ContextJson}.
Local Abbreviation TFilter := (TriggerFilter G).

(** ** Filters of subgraphs *)

Inductive built : TFilter -> list DataSource -> list DataSourceTemplate -> Prop :=
| built_default : built trigger_filter_default [] []
| built_extend f dss ts dss' : built f dss ts -> built (trigger_filter_extend f dss') (dss ++ dss') ts
| built_templates f dss ts ts' : built f dss ts -> built (trigger_filter_extend_with_template f ts') dss (ts ++ ts').

Definition ds_event (dss : list DataSource) (c s : Bytes) : Prop :=
  exists ds h, ds ∈ dss /\ h ∈ mp_event_handlers (ds_mapping ds) /\ topic0 h = s /\
    (src_address (ds_source ds) = None \/ src_address (ds_source ds) = Some c).
Definition tp_event (ts : list DataSourceTemplate) (s : Bytes) : Prop :=
  exists t h, t ∈ ts /\ h ∈ mp_event_handlers (tp_mapping t) /\ topic0 h = s.
Definition ds_call (dss : list DataSource) (a sig : Bytes) : Prop :=
  exists ds h, ds ∈ dss /\ src_address (ds_source ds) = Some a /\
    h ∈ mp_call_handlers (ds_mapping ds) /\ selector (ch_function h) = sig.
Definition tp_call (ts : list DataSourceTemplate) (sig : Bytes) : Prop :=
  exists t h, t ∈ ts /\ h ∈ mp_call_handlers (tp_mapping t) /\ selector (ch_function h) = sig.
Definition ds_called (dss : list DataSource) (a : Bytes) : Prop :=
  exists ds, ds ∈ dss /\ src_address (ds_source ds) = Some a /\ has_block_handler (Some CallFilter) ds.
Definition ds_every (dss : list DataSource) : Prop :=
  exists ds, ds ∈ dss /\ is_Some (src_address (ds_source ds)) /\ has_block_handler None ds.
Definition tp_every (ts : list DataSourceTemplate) : Prop := exists t, t ∈ ts /\ mp_block_handlers (tp_mapping t) <> [].

(** What the filter wants *)
Record filter_inv (f : TFilter) (dss : list DataSource) (ts : list DataSourceTemplate) : Prop := {
  fi_bipartite : bipartite (lf_graph (tf_log f));
  fi_log c s : wants_log (tf_log f) c s = true <-> ds_event dss c s \/ tp_event ts s;
  fi_call_ok : call_filter_ok (tf_call f);
  fi_call a sig : lists_call (cf_contracts (tf_call f)) a sig <-> ds_call dss a sig;
  fi_wildcard sig : sig ∈ cf_wildcard_signatures (tf_call f) <-> tp_call ts sig;
  fi_called a : lists_contract (bf_contract_addresses (tf_block f)) a <-> ds_called dss a;
  fi_every : bf_trigger_every_block (tf_block f) = true <-> ds_every dss \/ tp_every ts
}.

Lemma exists_app {A} (P : A -> Prop) (l l' : list A) :
  (exists x, x ∈ l ++ l' /\ P x) <-> (exists x, x ∈ l /\ P x) \/ exists x, x ∈ l' /\ P x.
Proof.
  split.
  - intros (x & [Hx|Hx]%elem_of_app & HP); [left|right]; by exists x.
  - intros [(x & Hx & HP)|(x & Hx & HP)]; exists x; (split; [apply elem_of_app; auto|done]).
Qed.

Lemma exists2_app {A B} (P : A -> B -> Prop) (l l' : list A) :
  (exists x y, x ∈ l ++ l' /\ P x y) <-> (exists x y, x ∈ l /\ P x y) \/ exists x y, x ∈ l' /\ P x y.
Proof.
  split.
  - intros (x & y & [Hx|Hx]%elem_of_app & HP); [left|right]; by exists x, y.
  - intros [(x & y & Hx & HP)|(x & y & Hx & HP)]; exists x, y; (split; [apply elem_of_app; auto|done]).
Qed.

Lemma exists2_single {A B} (P : A -> B -> Prop) (a : A) : (exists x y, x ∈ [a] /\ P x y) <-> exists y, P a y.
Proof.
  split; [intros (x & y & ->%list_elem_of_singleton & HP); by exists y|].
  intros (y & HP). exists a, y. split; [by apply list_elem_of_singleton|done].
Qed.

Lemma default_inv : filter_inv trigger_filter_default [] [].
Proof.
  split; simpl.
  - apply new_bipartite.
  - intros c s. rewrite wants_log_default. split; [done|].
    intros [(? & ? & H%not_elem_of_nil & _)|(? & ? & H%not_elem_of_nil & _)]; done.
  - intros a b sigs. simpl. by rewrite lookup_empty.
  - intros a sig. split; [intros (b & sigs & Hb & _); by rewrite lookup_empty in Hb|].
    intros (? & ? & H%not_elem_of_nil & _); done.
  - intros sig. split; [set_solver|]. intros (? & ? & H%not_elem_of_nil & _); done.
  - intros a. split; [intros [n Hn]; set_solver|]. intros (? & H%not_elem_of_nil & _); done.
  - split; [done|]. intros [(? & H%not_elem_of_nil & _)|(? & H%not_elem_of_nil & _)]; done.
Qed.

Lemma extend_inv f dss ts dss' : filter_inv f dss ts -> filter_inv (trigger_filter_extend f dss') (dss ++ dss') ts.
Proof.
  intros [Hb Hlog Hok Hcall Hw Hcalled Hev].
  destruct (log_filter_data_sources (G:=G) dss') as [Hb' Hlog'].
  destruct (call_filter_data_sources dss') as [Hok' Hcall'].
  destruct (block_filter_data_sources dss') as [Hcalled' Hev'].
  destruct (call_extend_spec (tf_call f) (call_filter_from_data_sources dss') Hok Hok') as (Hok2 & Hcall2 & Hw2).
  destruct (block_extend_spec (tf_block f) (block_filter_from_data_sources dss')) as [Hcalled2 Hev2].
  split; simpl.
  - by apply log_extend_bipartite.
  - intros c s. rewrite wants_log_extend, orb_true_iff, Hlog, Hlog'. unfold ds_event. rewrite exists2_app. tauto.
  - done.
  - intros a sig. rewrite Hcall2, Hcall, Hcall'. unfold ds_call. by rewrite exists2_app.
  - intros sig. rewrite Hw2. simpl. rewrite elem_of_union, Hw. set_solver.
  - intros a. rewrite Hcalled2, Hcalled, Hcalled'. unfold ds_called. by rewrite exists_app.
  - rewrite Hev2, orb_true_iff, Hev, Hev'. unfold ds_every. rewrite exists_app. tauto.
Qed.

Lemma template_inv f dss ts t :
  filter_inv f dss ts -> filter_inv (trigger_filter_extend_with_template f [t]) dss (ts ++ [t]).
Proof.
  intros [Hb Hlog Hok Hcall Hw Hcalled Hev].
  destruct (log_filter_mapping (G:=G) (tp_mapping t)) as [Hb' Hlog'].
  assert (Hok' : call_filter_ok (call_filter_from_mapping (tp_mapping t))) by (intros a b sigs; simpl; by rewrite lookup_empty).
  destruct (call_extend_spec (tf_call f) _ Hok Hok') as (Hok2 & Hcall2 & Hw2).
  destruct (block_extend_spec (tf_block f) (block_filter_from_mapping (tp_mapping t))) as [Hcalled2 Hev2].
  split; simpl.
  - by apply log_extend_bipartite.
  - intros c s. rewrite wants_log_extend, orb_true_iff, Hlog, Hlog'. unfold tp_event.
    rewrite exists2_app, exists2_single. tauto.
  - done.
  - intros a sig. rewrite Hcall2, Hcall. split; [|auto]. intros [|(b & sigs & Hx & _)]; [done|]. simpl in Hx. by rewrite lookup_empty in Hx.
  - intros sig. rewrite Hw2. simpl. rewrite elem_of_union, Hw, elem_of_list_to_set, list_elem_of_fmap. unfold tp_call.
    rewrite exists2_app, exists2_single.
    assert (Hswap : (exists h, sig = selector (ch_function h) /\ h ∈ mp_call_handlers (tp_mapping t)) <->
      exists h, h ∈ mp_call_handlers (tp_mapping t) /\ selector (ch_function h) = sig)
      by (split; intros (h & Hh1 & Hh2); by exists h).
    by rewrite Hswap.
  - intros a. rewrite Hcalled2, Hcalled. simpl. split; [|auto]. intros [|[n Hn]]; [done|set_solver].
  - rewrite Hev2, orb_true_iff, Hev. simpl. rewrite negb_true_iff, bool_decide_eq_false. unfold tp_every. rewrite exists_app.
    assert (Hone : (exists x, x ∈ [t] /\ mp_block_handlers (tp_mapping x) <> []) <-> mp_block_handlers (tp_mapping t) <> []).
    { split; [by intros (x & ->%list_elem_of_singleton & Hx)|]. intros Hx. exists t. split; [by apply list_elem_of_singleton|done]. }
    rewrite Hone. tauto.
Qed.

Lemma built_inv f dss ts : built f dss ts -> filter_inv f dss ts.
Proof.
  induction 1 as [|f dss ts dss' _ IH|f dss ts ts' _ IH]; [apply default_inv|by apply extend_inv|].
  revert f ts IH. induction ts' as [|t ts' IHt]; intros f ts IH; [by rewrite app_nil_r|].
  replace (ts ++ t :: ts') with ((ts ++ [t]) ++ ts') by by rewrite <-app_assoc.
  apply (IHt (trigger_filter_extend_with_template f [t])). by apply template_inv.
Qed.

(** ** Queries for logs *)

(** The logs that [eth_getLogs] returns: an empty list stands for anything. *)
Definition query_selects (log : EthLog) (q : EthGetLogsFilter) : bool :=
  (bool_decide (gl_contracts q = []) || bool_decide (log_address log ∈ gl_contracts q)) &&
  (bool_decide (gl_event_signatures q = []) ||
   match head (log_topics log) with Some s => bool_decide (s ∈ gl_event_signatures q) | None => false end).

Lemma query_ok_selects max log q :
  query_ok max q ->
  query_selects log q = match head (log_topics log) with Some s => asks (log_address log) s q | None => false end.
Proof.
  intros (Hc & Hs & _). unfold query_selects, asks. rewrite (bool_decide_false (gl_contracts q = [])), (bool_decide_false (gl_event_signatures q = [])) by done. simpl.
  destruct (head (log_topics log)); [done|]. by rewrite andb_false_r.
Qed.

Lemma event_selects log e :
  query_selects log (from_event e) = match head (log_topics log) with Some s => bool_decide (s = e) | None => false end.
Proof.
  unfold query_selects. simpl. destruct (head (log_topics log)) as [s|]; [|done].
  apply bool_decide_ext. by rewrite list_elem_of_singleton.
Qed.

Lemma count_keys (l : list (Bytes * bool)) s :
  NoDup l.*1 -> length (List.filter (fun x => bool_decide (s = x.1)) l) = if bool_decide (s ∈ l.*1) then 1%nat else 0%nat.
Proof.
  induction l as [|[k w] l IH]; [done|]. rewrite fmap_cons, NoDup_cons. intros [Hk Hnd]. cbn [List.filter fst].
  specialize (IH Hnd). destruct (decide (s = k)) as [->|Hne].
  - rewrite (bool_decide_true (k = k)) by done. simpl. rewrite IH, bool_decide_false by done.
    rewrite bool_decide_true; [done|]. by left.
  - rewrite (bool_decide_false (s = k)), IH by done. erewrite bool_decide_ext; [done|].
    rewrite elem_of_cons. simpl. naive_solver.
Qed.

Lemma wildcard_queries (m : gmap Bytes bool) log s :
  head (log_topics log) = Some s ->
  length (List.filter (query_selects log) (map (fun ew => from_event ew.1) (map_to_list m))) =
    if bool_decide (is_Some (m !! s)) then 1%nat else 0%nat.
Proof.
  intros Hs. assert (Hf : forall l : list (Bytes * bool),
    length (List.filter (query_selects log) (map (fun ew => from_event ew.1) l)) =
    length (List.filter (fun x => bool_decide (s = x.1)) l)).
  { induction l as [|x l IH]; [done|]. cbn [map List.filter]. rewrite event_selects, Hs.
    destruct (bool_decide (s = x.1)); simpl; by rewrite IH. }
  rewrite Hf, count_keys by apply NoDup_fst_map_to_list. erewrite bool_decide_ext; [done|].
  rewrite list_elem_of_fmap. split.
  - intros ([k w] & -> & Hin%elem_of_map_to_list). by eexists.
  - intros [w Hw]. exists (s, w). split; [done|]. by apply elem_of_map_to_list.
Qed.

(** How many queries return a log *)
Definition times_queried (f : EthereumLogFilter G) (log : EthLog) : nat :=
  match head (log_topics log) with
  | Some s => ((if has_pair (lf_graph f) (log_address log) s then 1 else 0) +
               (if bool_decide (is_Some (lf_wildcard_events f !! s)) then 1 else 0))%nat
  | None => 0%nat
  end.

Lemma queries_count f dss ts fuel max :
  built f dss ts -> (1 <= max)%nat -> (gm_edge_count (lf_graph (tf_log f)) <= fuel)%nat ->
  exists qs, eth_get_logs_filters fuel max (tf_log f) = Some (Ok qs) /\
    Forall (fun q => gl_event_signatures q <> [] /\ (length (gl_contracts q) <= max)%nat) qs /\
    forall log, length (List.filter (query_selects log) qs) = times_queried (tf_log f) log.
Proof.
  intros Hbuilt Hmax Hfuel. pose proof (fi_bipartite _ _ _ (built_inv _ _ _ Hbuilt)) as Hb.
  set (wild := map (fun ew : Bytes * bool => from_event ew.1) (map_to_list (lf_wildcard_events (tf_log f)))).
  destruct (cover_graph_spec max Hmax fuel (lf_graph (tf_log f)) wild Hb Hfuel) as (fs & Hcov & Hok & Htimes).
  exists (wild ++ fs). split; [exact Hcov|]. split.
  { apply Forall_app. split; [|eapply Forall_impl; [exact Hok|by intros q (_ & ? & ?)]].
    apply Forall_fmap, Forall_forall. intros [e w] _. simpl. split; [done|lia]. }
  intros log. unfold times_queried. rewrite List.filter_app, length_app. destruct (head (log_topics log)) as [s|] eqn:Hs.
  - unfold wild. rewrite (wildcard_queries _ _ s Hs), <-Htimes, Nat.add_comm. f_equal. unfold times. clear -Hok Hs.
    induction Hok as [|q fs Hq _ IH]; [done|]. cbn [List.filter]. rewrite (query_ok_selects max log q Hq), Hs.
    destruct (asks (log_address log) s q); simpl; rewrite IH; done.
  - rewrite (filter_none _ wild), (filter_none _ fs); [done| |].
    + intros q Hq. rewrite Forall_forall in Hok. by rewrite (query_ok_selects max log q (Hok q Hq)), Hs.
    + intros q Hq. apply list_elem_of_fmap in Hq as ([e w] & -> & _). by rewrite event_selects, Hs.
Qed.

Lemma queried_matches (f : EthereumLogFilter G) qs log :
  length (List.filter (query_selects log) qs) = times_queried f log -> existsb (query_selects log) qs = log_matches f log.
Proof.
  intros Hcount. assert (Hex : existsb (query_selects log) qs = (0 <? length (List.filter (query_selects log) qs))%nat).
  { clear. induction qs as [|q l IH]; [done|]. simpl. by destruct (query_selects log q). }
  rewrite Hex, Hcount, log_matches_wants. unfold wants_log, times_queried. destruct (head (log_topics log)) as [s|]; [|done].
  by destruct (has_pair _ _ s), (bool_decide _).
Qed.

(** C21: the queries for logs are exact.  For every filter of a subgraph, making the
    queries ends without failing an assertion, every query names events and at most as
    many contracts as allowed, and a log is returned by some query exactly when the filter
    matches it: by one query for its contract and event, and by one more when all
    contracts are wanted for the event. *)
Theorem log_queries_exact f dss ts fuel max :
  built f dss ts -> (1 <= max)%nat -> (gm_edge_count (lf_graph (tf_log f)) <= fuel)%nat ->
  exists qs, eth_get_logs_filters fuel max (tf_log f) = Some (Ok qs) /\
    Forall (fun q => gl_event_signatures q <> [] /\ (length (gl_contracts q) <= max)%nat) qs /\
    forall log, existsb (query_selects log) qs = log_matches (tf_log f) log /\
      length (List.filter (query_selects log) qs) = times_queried (tf_log f) log.
Proof.
  intros Hbuilt Hmax Hfuel. destruct (queries_count _ _ _ _ _ Hbuilt Hmax Hfuel) as (qs & Hqs & Hshape & Hcount).
  exists qs. split_and!; [done..|]. intros log. split; [by apply queried_matches|done].
Qed.

(** ** Triggers of a block *)

(** What happens in a block that a data source could process.  Calls count only if their
    input has a selector and then a whole number of words, which [call_matches] demands
    before anything is decoded. *)
Inductive occurs (b : EthereumBlockWithCalls) (calls : list EthereumCall) : EthereumTrigger -> Prop :=
| occurs_log r l :
    r ∈ eb_transaction_receipts (bc_ethereum_block b) -> l ∈ rc_logs r -> occurs b calls (TriggerLog l (Some r))
| occurs_call c :
    c ∈ calls -> aligned_input (call_input c) -> transaction_for_call_succeeded b c = Ok true ->
    occurs b calls (TriggerCall c)
| occurs_every ptr :
    light_block_ptr (E:=EthError) (eb_block (bc_ethereum_block b)) = Ok ptr -> occurs b calls (TriggerBlock ptr Every)
| occurs_call_to c ptr :
    c ∈ calls -> aligned_input (call_input c) ->
    light_block_ptr (E:=EthError) (eb_block (bc_ethereum_block b)) = Ok ptr ->
    occurs b calls (TriggerBlock ptr (WithCallTo (call_to c))).

(** What the filter wants *)
Definition wanted (f : TFilter) (t : EthereumTrigger) : Prop :=
  match t with
  | TriggerLog l _ => log_matches (tf_log f) l = true
  | TriggerCall c => call_matches (tf_call f) c = true
  | TriggerBlock _ Every => bf_trigger_every_block (tf_block f) = true
  | TriggerBlock _ (WithCallTo a) => lists_contract (bf_contract_addresses (tf_block f)) a
  end.

(** Data sources with handlers for calls or blocks have an address. *)
Definition has_address (ds : DataSource) : Prop :=
  is_Some (src_address (ds_source ds)) \/ (mp_call_handlers (ds_mapping ds) = [] /\ mp_block_handlers (ds_mapping ds) = []).

Lemma validated_has_address ds : ds_validate ds = [] -> has_address ds.
Proof.
  unfold ds_validate, has_address. intros (_ & (H & _)%app_eq_nil)%app_eq_nil.
  destruct (src_address (ds_source ds)) as [a|]; [by left; eexists|]. right.
  rewrite (bool_decide_true (None = None)) in H by done. simpl in H.
  do 2 case_bool_decide; simpl in H; done.
Qed.

(** A template has a handler for a trigger at some address. *)
Definition template_handles (tp : DataSourceTemplate) (t : EthereumTrigger) : Prop :=
  match t with
  | TriggerLog l _ => exists h, h ∈ mp_event_handlers (tp_mapping tp) /\ head (log_topics l) = Some (topic0 h)
  | TriggerCall c => exists h, h ∈ mp_call_handlers (tp_mapping tp) /\ selector (ch_function h) = take 4 (call_input c)
  | TriggerBlock _ Every => mp_block_handlers (tp_mapping tp) <> []
  | TriggerBlock _ (WithCallTo _) => False
  end.

(** The input of a call is aligned. *)
Definition aligned_call (t : EthereumTrigger) : Prop :=
  match t with TriggerCall c => aligned_input (call_input c) | _ => True end.

(** What a data source processes is wanted. *)
Lemma decoded_is_wanted f dss ts ds t block m :
  filter_inv f dss ts -> has_address ds -> ds ∈ dss -> aligned_call t ->
  match_and_decode ds t block = Ok (Some m) -> wanted f t.
Proof.
  intros Hinv Haddr Hds Hal Hm. pose proof (decoded_is_handled _ _ _ _ Hm) as [Ha Hh]. unfold wanted.
  destruct t as [p [|a]|c|l r].
  - apply (fi_every _ _ _ Hinv). left. destruct Hh as (h & Hin & Hf). exists ds. split_and!; [done| |by exists h].
    destruct Haddr as [|[_ Hno]]; [done|]. rewrite Hno in Hin. by apply not_elem_of_nil in Hin.
  - apply (fi_called _ _ _ Hinv). destruct Hh as (h & Hin & Hf). exists ds. split_and!; [done| |by exists h].
    destruct Haddr as [[a' Ha']|[_ Hno]]; [|rewrite Hno in Hin; by apply not_elem_of_nil in Hin].
    unfold matches_trigger_address in Ha. rewrite Ha' in Ha |- *. by apply bool_decide_eq_true in Ha as ->.
  - apply call_matches_spec; [apply Hinv|]. split; [done|]. left.
    apply (fi_call _ _ _ Hinv). destruct Hh as (_ & h & Hin & Hs). exists ds, h. split_and!; try done.
    destruct Haddr as [[a' Ha']|[Hno _]]; [|rewrite Hno in Hin; by apply not_elem_of_nil in Hin].
    unfold matches_trigger_address in Ha. rewrite Ha' in Ha |- *. by apply bool_decide_eq_true in Ha as ->.
  - rewrite log_matches_wants. destruct Hh as (s & h & -> & Hin & Ht). apply (fi_log _ _ _ Hinv). left. exists ds, h.
    split_and!; try done. unfold matches_trigger_address in Ha. destruct (src_address (ds_source ds)) as [a|]; [|by left].
    right. by apply bool_decide_eq_true in Ha as ->.
Qed.

(** What is wanted has a handler. *)
Lemma wanted_is_handled f dss ts t :
  filter_inv f dss ts -> wanted f t -> (exists ds, ds ∈ dss /\ handles ds t) \/ exists tp, tp ∈ ts /\ template_handles tp t.
Proof.
  intros Hinv Hw. unfold handles. destruct t as [p [|a]|c|l r]; simpl in Hw.
  - apply (fi_every _ _ _ Hinv) in Hw as [(ds & Hds & Ha & h & Hin & Hf)|(tp & Htp & Hne)]; [left|right; by exists tp].
    exists ds. split; [done|]. split; [|by exists h]. unfold matches_trigger_address. by destruct (src_address (ds_source ds)).
  - apply (fi_called _ _ _ Hinv) in Hw as (ds & Hds & Ha & h & Hin & Hf). left. exists ds. split; [done|].
    split; [|by exists h]. unfold matches_trigger_address. rewrite Ha. by apply bool_decide_eq_true.
  - apply call_matches_spec in Hw as [[Hlen _] [Hl|Hwild]]; [| |apply Hinv].
    + apply (fi_call _ _ _ Hinv) in Hl as (ds & h & Hds & Ha & Hin & Hs). left. exists ds. split; [done|].
      split; [unfold matches_trigger_address; rewrite Ha; by apply bool_decide_eq_true|]. split; [done|by exists h].
    + apply (fi_wildcard _ _ _ Hinv) in Hwild as (tp & h & Htp & Hin & Hs). right. exists tp. split; [done|by exists h].
  - rewrite log_matches_wants in Hw. destruct (head (log_topics l)) as [s|] eqn:Hs; [|done].
    apply (fi_log _ _ _ Hinv) in Hw as [(ds & h & Hds & Hin & Ht & Ha)|(tp & h & Htp & Hin & Ht)].
    + left. exists ds. split; [done|]. split; [|by exists s, h]. unfold matches_trigger_address.
      destruct Ha as [-> | ->]; [done|by apply bool_decide_eq_true].
    + right. exists tp. split; [done|]. exists h. split; [done|congruence].
Qed.

Lemma parse_logs_spec (f : TFilter) b t :
  t ∈ parse_log_triggers (tf_log f) (bc_ethereum_block b) <->
    exists r l, t = TriggerLog l (Some r) /\ r ∈ eb_transaction_receipts (bc_ethereum_block b) /\ l ∈ rc_logs r /\
      log_matches (tf_log f) l = true.
Proof.
  unfold parse_log_triggers. destruct (log_filter_is_empty (tf_log f)) eqn:He.
  { split; [by intros ?%not_elem_of_nil|]. intros (r & l & _ & _ & _ & Hm). rewrite log_matches_wants in Hm.
    destruct (head (log_topics l)) as [s|]; [|done]. by rewrite (wants_log_empty _ _ _ He) in Hm. }
  rewrite list_elem_of_In, in_concat. split.
  - intros (x & (r & <- & Hr)%in_map_iff & (l & <- & (Hl & Hm)%filter_In)%in_map_iff). exists r, l.
    rewrite !list_elem_of_In. done.
  - intros (r & l & -> & Hr & Hl & Hm). eexists. split; [apply in_map_iff; exists r; split; [done|by apply list_elem_of_In]|].
    apply in_map_iff. exists l. split; [done|]. apply filter_In. by rewrite <-list_elem_of_In.
Qed.

Lemma parse_calls_spec (f : TFilter) b calls :
  bc_calls b = Some calls -> (forall c, c ∈ calls -> exists ok, transaction_for_call_succeeded b c = Ok ok) ->
  exists ts, parse_call_triggers (tf_call f) b = Ok ts /\
    forall t, t ∈ ts <-> exists c, t = TriggerCall c /\ c ∈ calls /\ transaction_for_call_succeeded b c = Ok true /\
      call_matches (tf_call f) c = true.
Proof.
  intros Hcalls Hok. unfold parse_call_triggers. destruct (call_filter_is_empty (tf_call f)) eqn:He.
  { exists []. split; [done|]. intros t. split; [by intros ?%not_elem_of_nil|]. intros (c & _ & _ & _ & Hm).
    unfold call_filter_is_empty in He. rewrite andb_true_iff, !bool_decide_eq_true in He. destruct He as [H1 H2].
    unfold call_matches in Hm. rewrite H1, H2, lookup_empty in Hm. destruct (_ <? _)%nat; [done|].
    destruct (negb _); [done|]. apply bool_decide_eq_true in Hm. set_solver. }
  clear He. rewrite Hcalls.
  assert (Hgen : exists os, try_map (fun call =>
      let? succeeded := transaction_for_call_succeeded b call in
      Ok (if succeeded : bool then Some (TriggerCall call) else None)) (List.filter (call_matches (tf_call f)) calls) = Ok os /\
    forall t, t ∈ collect_some os <-> exists c, t = TriggerCall c /\ c ∈ calls /\ transaction_for_call_succeeded b c = Ok true /\
      call_matches (tf_call f) c = true).
  { clear Hcalls. induction calls as [|c calls IH].
    { exists []. split; [done|]. intros t. split; [by intros ?%not_elem_of_nil|]. by intros (c & _ & ?%not_elem_of_nil & _). }
    destruct IH as (os & Hos & Hin); [intros c' Hc'; apply Hok; by right|].
    destruct (Hok c) as [ok Hc]; [by left|]. cbn [List.filter]. destruct (call_matches (tf_call f) c) eqn:Hm.
    - exists ((if ok then Some (TriggerCall c) else None) :: os). cbn [try_map]. rewrite Hc. cbn [bind_result]. rewrite Hos.
      split; [done|]. intros t. unfold collect_some in *. destruct ok; simpl.
      + rewrite elem_of_cons, Hin. split.
        * intros [->|(c' & -> & Hc' & Hrest)]; [exists c; split_and!; [done|by left|done|done]|exists c'; split_and!; [done|by right|apply Hrest..]].
        * intros (c' & -> & [->|Hc']%elem_of_cons & Hrest); [by left|right; by exists c'].
      + rewrite Hin. split; [intros (c' & -> & Hc' & Hrest); exists c'; split_and!; [done|by right|apply Hrest..]|].
        intros (c' & -> & [->|Hc']%elem_of_cons & Hs & Hm'); [congruence|by exists c'].
    - exists os. split; [done|]. intros t. rewrite Hin.
      split; [intros (c' & -> & Hc' & Hrest); exists c'; split_and!; [done|by right|apply Hrest..]|].
      intros (c' & -> & [->|Hc']%elem_of_cons & Hs & Hm'); [congruence|by exists c']. }
  destruct Hgen as (os & Hos & Hin). exists (collect_some os). by rewrite Hos.
Qed.

Lemma parse_blocks_spec (f : TFilter) b calls ptr :
  bc_calls b = Some calls -> light_block_ptr (E:=EthError) (eb_block (bc_ethereum_block b)) = Ok ptr ->
  exists ts, parse_block_triggers (tf_block f) b = Ok ts /\
    forall t, t ∈ ts <-> (t = TriggerBlock ptr Every /\ bf_trigger_every_block (tf_block f) = true) \/
      exists c, t = TriggerBlock ptr (WithCallTo (call_to c)) /\ c ∈ calls /\ aligned_input (call_input c) /\
        lists_contract (bf_contract_addresses (tf_block f)) (call_to c).
Proof.
  intros Hcalls Hptr. unfold parse_block_triggers. destruct (block_filter_is_empty (tf_block f)) eqn:He.
  { exists []. split; [done|]. intros t. split; [by intros ?%not_elem_of_nil|]. unfold block_filter_is_empty in He.
    destruct (bf_trigger_every_block (tf_block f)); [done|]. apply bool_decide_eq_true in He. rewrite He.
    intros [[_ ?]|(c & _ & _ & _ & [n Hn])]; [done|set_solver]. }
  rewrite Hptr, Hcalls. cbn [bind_result]. eexists. split; [done|]. intros t. rewrite elem_of_app, list_elem_of_In, in_map_iff.
  assert (Hev : t ∈ (if bf_trigger_every_block (tf_block f) then [TriggerBlock ptr Every] else []) <->
    t = TriggerBlock ptr Every /\ bf_trigger_every_block (tf_block f) = true).
  { destruct (bf_trigger_every_block (tf_block f)); [rewrite list_elem_of_singleton; tauto|].
    split; [by intros ?%not_elem_of_nil|by intros []]. }
  rewrite Hev. split.
  - intros [(c & <- & (Hc & Hm)%filter_In)|H']; [right|by left]. apply block_calls_match in Hm as [Hal Hl].
    exists c. by rewrite list_elem_of_In.
  - intros [H'|(c & -> & Hc & Hal & Hl)]; [by right|left]. exists c. split; [done|]. apply filter_In.
    split; [by apply list_elem_of_In|]. by apply block_calls_match.
Qed.

(** C11: a block has the right triggers.  For every filter that is built from data sources
    and templates, where data sources with handlers for calls or blocks have an address,
    parsing a block with its receipts and calls does not fail; every log, successful call
    whose input is a selector and a whole number of words, and block that one of the data
    sources processes is among the triggers; and every trigger is such a log, call or block
    and has a handler in a data source or a template. *)
Theorem block_triggers_exact f dss ts b calls ptr :
  built f dss ts -> Forall has_address dss -> bc_calls b = Some calls ->
  (forall c, c ∈ calls -> exists ok, transaction_for_call_succeeded b c = Ok ok) ->
  light_block_ptr (E:=EthError) (eb_block (bc_ethereum_block b)) = Ok ptr ->
  exists triggers, triggers_of_block f b = Ok triggers /\
    (forall ds t m, ds ∈ dss -> occurs b calls t -> match_and_decode ds t (eb_block (bc_ethereum_block b)) = Ok (Some m) ->
      t ∈ triggers) /\
    (forall t, t ∈ triggers -> occurs b calls t /\
      ((exists ds, ds ∈ dss /\ handles ds t) \/ exists tp, tp ∈ ts /\ template_handles tp t)).
Proof.
  intros Hbuilt Haddr Hcalls Hok Hptr. pose proof (built_inv _ _ _ Hbuilt) as Hinv. rewrite Forall_forall in Haddr.
  destruct (parse_calls_spec f b calls Hcalls Hok) as (tc & Htc & Hincall).
  destruct (parse_blocks_spec f b calls ptr Hcalls Hptr) as (tb & Htb & Hinblock).
  unfold triggers_of_block. rewrite Htc, Htb. cbn [bind_result]. eexists. split; [done|].
  assert (Hiff : forall t, t ∈ sort_triggers (parse_log_triggers (tf_log f) (bc_ethereum_block b) ++ tc ++ tb) <->
    occurs b calls t /\ wanted f t).
  { intros t. unfold sort_triggers. rewrite sort_by_perm, !elem_of_app, parse_logs_spec, Hincall, Hinblock. split.
    - intros [(r & l & -> & Hr & Hl & Hm)|[(c & -> & Hc & Hs & Hm)|[[-> He]|(c & -> & Hc & Hal & Hl)]]].
      2:{ split; [|done]. constructor; [done| |done]. by apply call_matches_spec in Hm as [Hal _]; [|apply Hinv]. }
      all: split; [by constructor|done].
    - intros [[r l Hr Hl|c Hc _ Hs|p Hp|c p Hc Hal Hp] Hw]; simpl in Hw.
      + left. by exists r, l.
      + right. left. by exists c.
      + right. right. left. split; [congruence|done].
      + right. right. right. exists c. split_and!; [congruence|done..]. }
  split.
  - intros ds t m Hds Hocc Hm. apply Hiff. split; [done|]. eapply decoded_is_wanted; [done|by apply Haddr|done| |done].
    by destruct Hocc.
  - intros t [Hocc Hw]%Hiff. split; [done|]. by eapply wanted_is_handled.
Qed.

End Triggers.
