(* ===== verification/EthStarts.v ===== *)
(** * First blocks of interest

    A filter keeps for each contract the first block at which one of its data sources
    wants calls.  The scan of final blocks leaves out contracts that start after the range,
    and misses nothing by that. *)

From Stdlib Require Import Strings.Byte.
From stdpp Require Import base numbers list gmap countable strings.
From S2P Require Import Prelude GraphqlAst Scalars RuntimeValue Values Names StoreTypes.
From S2P Require Import Schema BlockRange Relational DeploymentStore ChainStore Float64 PollingStream.
From S2P Require Import EthTypes EthDataSource EthFilters EthFilterProps EthAdapter EthTriggerProps.

Section Starts.
Context {G : Type} `{GM : !GraphMap G} `{GL : !GraphMapLaws G} {Token : Type} `{AC : !AbiCodec Token}.
Context `{KC : !Keccak} `{CJ : !ContextJson}.
Local Abbreviation TFilter := (TriggerFilter G).

(** The contract is of interest from the block on. *)
Definition call_start (m : gmap Bytes (BlockNumber * gset Bytes)) (a : Bytes) (n : BlockNumber) : Prop :=
  exists b sigs, m !! a = Some (b, sigs) /\ (b <= n)%Z.

Definition block_start (s : gset (BlockNumber * Bytes)) (a : Bytes) (n : BlockNumber) : Prop :=
  exists b, (b, a) ∈ s /\ (b <= n)%Z.

Definition one_per_address (s : gset (BlockNumber * Bytes)) : Prop :=
  forall n n' a, (n, a) ∈ s -> (n', a) ∈ s -> n = n'.

Lemma call_add_start m x a n :
  call_start m a n \/ (x.1.2 = a /\ (x.1.1 <= n)%Z) -> call_start (call_filter_add m x) a n.
Proof.
  destruct x as [[start address] sig]. unfold call_start, call_filter_add. simpl.
  destruct (default (start, ∅) (m !! address)) as [b sigs] eqn:Hd.
  destruct (decide (address = a)) as [->|Hne].
  - rewrite lookup_insert_eq. intros H. do 2 eexists. split; [done|].
    destruct H as [(b' & sigs' & Hm & Hle)|[_ Hle]].
    + rewrite Hm in Hd. simpl in Hd. simplify_eq. destruct (Z.ltb_spec start b); lia.
    + destruct (Z.ltb_spec start b); lia.
  - rewrite lookup_insert_ne by done. intros [|[]]; done.
Qed.

Lemma call_from_iter_start l b a sig : (b, a, sig) ∈ l -> call_start (cf_contracts (call_filter_from_iter l)) a b.
Proof.
  unfold call_filter_from_iter. simpl. intros Hin.
  assert (Hgen : forall m, call_start m a b \/ (b, a, sig) ∈ l -> call_start (foldl call_filter_add m l) a b).
  { clear Hin. induction l as [|x l IH]; intros m [H|H]; simpl; [done|by apply not_elem_of_nil in H|..].
    - apply IH. left. apply call_add_start. by left.
    - apply IH. apply elem_of_cons in H as [<-|H]; [|by right]. left. apply call_add_start. right. simpl. split; [done|lia]. }
  apply Hgen. by right.
Qed.

Lemma call_extend_start f other a n :
  call_start (cf_contracts f) a n \/ call_start (cf_contracts other) a n ->
  call_start (cf_contracts (call_filter_extend f other)) a n.
Proof.
  unfold call_filter_extend. destruct (call_filter_is_empty other) eqn:He.
  { unfold call_filter_is_empty in He. rewrite andb_true_iff, !bool_decide_eq_true in He. destruct He as [-> _].
    intros [|(b & sigs & Hb & _)]; [done|by rewrite lookup_empty in Hb]. }
  clear He. simpl. intros H.
  assert (Hgen : forall l m, call_start m a n \/ (exists b sigs, (a, (b, sigs)) ∈ l /\ (b <= n)%Z) ->
    call_start (foldl call_filter_extend_entry m l) a n).
  { clear H. induction l as [|[a0 [b0 s0]] l IH]; intros m; simpl.
    { intros [|(b & sigs & Hb & _)]; [done|by apply not_elem_of_nil in Hb]. }
    assert (Hentry : call_start m a n \/ (a0 = a /\ (b0 <= n)%Z) -> call_start (call_filter_extend_entry m (a0, (b0, s0))) a n).
    { unfold call_start, call_filter_extend_entry. intros H. destruct (decide (a0 = a)) as [->|Hne].
      - destruct (m !! a) as [[b1 s1]|] eqn:Hm; rewrite lookup_insert_eq; do 2 eexists; (split; [done|]);
          destruct H as [(b & sigs & [= <- <-] & Hle)|[_ Hle]] || destruct H as [(b & sigs & ? & Hle)|[_ Hle]]; done || lia.
      - destruct H as [(b & sigs & Hb & Hle)|[]]; [|done]. exists b, sigs. split; [|done].
        destruct (m !! a0) as [[]|]; by rewrite lookup_insert_ne. }
    intros [H|(b & sigs & [[= <- <- <-]|Hin]%elem_of_cons & Hle)]; apply IH.
    - left. apply Hentry. by left.
    - left. apply Hentry. by right.
    - right. by exists b, sigs. }
  apply Hgen. destruct H as [|(b & sigs & Hb & Hle)]; [by left|right]. exists b, sigs. split; [|done]. by apply elem_of_map_to_list.
Qed.

Lemma block_entry_start s x a n :
  block_start s a n \/ (x.2 = a /\ (x.1 <= n)%Z) -> block_start (block_filter_extend_entry s x) a n.
Proof.
  unfold block_start, block_filter_extend_entry, find_contract_address. destruct x as [n0 a0]. simpl. intros H.
  destruct (List.find _ _) as [[n1 a1]|] eqn:Hf.
  - apply find_some in Hf as [Hin%list_elem_of_In%elem_of_elements Ha]. apply bool_decide_eq_true in Ha. simpl in Ha. subst a1.
    simpl. destruct (Z.ltb_spec n0 n1).
    + destruct H as [(b & Hb & Hle)|[<- Hle]]; [|exists n0; split; [set_solver|done]].
      destruct (decide ((b, a) = (n1, a0))) as [[= -> ->]|Hne]; [exists n0; split; [set_solver|lia]|].
      exists b. split; [set_solver|done].
    + destruct H as [|[<- Hle]]; [done|]. exists n1. split; [done|lia].
  - destruct H as [(b & Hb & Hle)|[<- Hle]]; [exists b|exists n0]; (split; [set_solver|done]).
Qed.

Lemma block_entry_one s x : one_per_address s -> one_per_address (block_filter_extend_entry s x).
Proof.
  unfold one_per_address, block_filter_extend_entry, find_contract_address. destruct x as [n0 a0]. simpl. intros Hone.
  destruct (List.find _ _) as [[n1 a1]|] eqn:Hf.
  - apply find_some in Hf as [Hin%list_elem_of_In%elem_of_elements Ha]. apply bool_decide_eq_true in Ha. simpl in Ha. subst a1.
    simpl. destruct (Z.ltb_spec n0 n1); [|done]. intros n n' a Hn Hn'.
    assert (Hother : forall m, (m, a) ∈ s ∖ {[(n1, a0)]} -> a <> a0).
    { intros m [Hm Hm']%elem_of_difference ->. apply Hm', elem_of_singleton. f_equal. by eapply Hone. }
    apply elem_of_union in Hn as [Hn|Hn]; apply elem_of_union in Hn' as [Hn'|Hn']; rewrite ?elem_of_singleton in *; simplify_eq.
    + done.
    + by destruct (Hother n').
    + by destruct (Hother n).
    + apply elem_of_difference in Hn as [Hn _], Hn' as [Hn' _]. by apply (Hone n n' a).
  - intros n n' a Hn Hn'. assert (Hnone : forall m, (m, a0) ∉ s).
    { intros m Hm. pose proof (find_none _ _ Hf (m, a0)) as Hno. simpl in Hno. rewrite bool_decide_true in Hno by done.
      by discriminate Hno; apply list_elem_of_In, elem_of_elements. }
    apply elem_of_union in Hn as [Hn|Hn]; apply elem_of_union in Hn' as [Hn'|Hn']; rewrite ?elem_of_singleton in *; simplify_eq.
    + done.
    + by destruct (Hnone n').
    + by destruct (Hnone n).
    + by eapply Hone.
Qed.

Lemma block_extend_start f other a n :
  block_start (bf_contract_addresses f) a n \/ block_start (bf_contract_addresses other) a n ->
  block_start (bf_contract_addresses (block_filter_extend f other)) a n.
Proof.
  unfold block_filter_extend. destruct (block_filter_is_empty other) eqn:He.
  { unfold block_filter_is_empty in He. destruct (bf_trigger_every_block other); [done|]. apply bool_decide_eq_true in He as ->.
    intros [|(b & Hb & _)]; [done|set_solver]. }
  clear He. simpl. intros H.
  assert (Hgen : forall l s, block_start s a n \/ (exists b, (b, a) ∈ l /\ (b <= n)%Z) ->
    block_start (foldl block_filter_extend_entry s l) a n).
  { clear H. induction l as [|x l IH]; intros s; simpl.
    { intros [|(b & Hb & _)]; [done|by apply not_elem_of_nil in Hb]. }
    intros [H|(b & [<-|Hin]%elem_of_cons & Hle)]; apply IH.
    - left. apply block_entry_start. by left.
    - left. apply block_entry_start. by right.
    - right. by exists b. }
  apply Hgen. destruct H as [|(b & Hb & Hle)]; [by left|right]. exists b. split; [|done]. by apply elem_of_elements.
Qed.

Lemma block_extend_one f other :
  one_per_address (bf_contract_addresses f) -> one_per_address (bf_contract_addresses (block_filter_extend f other)).
Proof.
  intros Hone. unfold block_filter_extend. destruct (block_filter_is_empty other); [done|]. simpl.
  generalize (elements (bf_contract_addresses other)). intros l. revert Hone. generalize (bf_contract_addresses f).
  induction l as [|x l IH]; intros s Hs; simpl; [done|]. by apply IH, block_entry_one.
Qed.

Lemma block_sources_start dss ds a :
  ds ∈ dss -> src_address (ds_source ds) = Some a -> has_block_handler (Some CallFilter) ds ->
  block_start (bf_contract_addresses (block_filter_from_data_sources dss)) a (src_start_block (ds_source ds)).
Proof.
  intros Hin Ha Hh. unfold block_filter_from_data_sources.
  set (step := fun f ds => match src_address (ds_source ds) with
                     | Some address => block_filter_extend f (block_filter_of ds address)
                     | None => f
                     end).
  assert (Hgen : forall f, block_start (bf_contract_addresses f) a (src_start_block (ds_source ds)) \/ ds ∈ dss ->
    block_start (bf_contract_addresses (foldl step f dss)) a (src_start_block (ds_source ds))).
  { clear Hin. induction dss as [|d dss IH]; intros f [H|H]; simpl; [done|by apply not_elem_of_nil in H|..].
    - apply IH. left. unfold step. destruct (src_address (ds_source d)); [|done]. apply block_extend_start. by left.
    - apply IH. apply elem_of_cons in H as [<-|H]; [|by right]. left. unfold step. rewrite Ha. apply block_extend_start. right.
      unfold block_filter_of. simpl. destruct Hh as (h & Hin & Hf).
      assert (Hc : has_block_handler_with_call_filter (ds_mapping ds) = true).
      { apply existsb_exists. exists h. split; [by apply list_elem_of_In|]. unfold is_call_filter. by apply bool_decide_eq_true. }
      rewrite Hc. exists (src_start_block (ds_source ds)). split; [by apply elem_of_singleton|lia]. }
  apply Hgen. by right.
Qed.

(** The data sources are of interest from their start blocks on. *)
Record starts_inv (f : TFilter) (dss : list DataSource) : Prop := {
  si_call ds a h : ds ∈ dss -> src_address (ds_source ds) = Some a -> h ∈ mp_call_handlers (ds_mapping ds) ->
    call_start (cf_contracts (tf_call f)) a (src_start_block (ds_source ds));
  si_block ds a : ds ∈ dss -> src_address (ds_source ds) = Some a -> has_block_handler (Some CallFilter) ds ->
    block_start (bf_contract_addresses (tf_block f)) a (src_start_block (ds_source ds));
  si_one : one_per_address (bf_contract_addresses (tf_block f))
}.

Lemma built_starts f dss ts : built f dss ts -> starts_inv f dss.
Proof.
  induction 1 as [|f dss ts dss' _ [Hc Hb Ho]|f dss ts ts' _ IH].
  - split; [by intros ds a h ?%not_elem_of_nil|by intros ds a ?%not_elem_of_nil|]. intros n n' a. simpl. set_solver.
  - split; simpl.
    + intros ds a h [Hds|Hds]%elem_of_app Ha Hh; apply call_extend_start; [left; by eapply Hc|right].
      apply (call_from_iter_start _ _ _ (selector (ch_function h))). apply list_elem_of_In, in_concat.
      eexists. split; [apply in_map; by apply list_elem_of_In|]. unfold call_filter_entries. rewrite Ha.
      apply in_map_iff. exists h. split; [done|by apply list_elem_of_In].
    + intros ds a [Hds|Hds]%elem_of_app Ha Hh; apply block_extend_start; [left; by apply Hb|right; by apply block_sources_start].
    + by apply block_extend_one.
  - revert f IH. induction ts' as [|t ts' IHt]; intros f [Hc Hb Ho]; [done|]. apply IHt. split; simpl.
    + intros ds a h Hds Ha Hh. apply call_extend_start. left. by eapply Hc.
    + intros ds a Hds Ha Hh. apply block_extend_start. left. by apply Hb.
    + by apply block_extend_one.
Qed.

Lemma decoded_after_start ds t block m n :
  match_and_decode ds t block = Ok (Some m) -> lb_number block = Some n -> (src_start_block (ds_source ds) <= n)%Z.
Proof.
  unfold match_and_decode. destruct (matches_trigger_address ds t); [|done]. unfold light_number. intros Hm Hn.
  rewrite Hn in Hm. simpl in Hm. destruct (n <=? i32_max)%Z; [|done]. simpl in Hm. destruct (Z.ltb_spec n (src_start_block (ds_source ds))); [done|lia].
Qed.

(** The block filter as a filter for calls has the start blocks. *)
Lemma block_calls_start f a n :
  one_per_address (bf_contract_addresses f) -> block_start (bf_contract_addresses f) a n ->
  call_start (cf_contracts (call_filter_from_block_filter f)) a n.
Proof.
  intros Hone (b & Hb & Hle). unfold call_start, call_filter_from_block_filter. simpl.
  assert (Hgen : forall l (m : gmap Bytes (BlockNumber * gset Bytes)), (forall x, x ∈ l -> x ∈ bf_contract_addresses f) ->
    (m !! a = Some (b, ∅) \/ (b, a) ∈ l) -> foldl (fun m x => <[x.2 := (x.1, ∅)]> m) m l !! a = Some (b, ∅)).
  { induction l as [|[n0 a0] l IH]; intros m Hl H; simpl; [destruct H as [|H]; [done|by apply not_elem_of_nil in H]|].
    apply IH; [intros x Hx; apply Hl; by right|]. destruct (decide (a0 = a)) as [->|Hne].
    - left. rewrite lookup_insert_eq. do 2 f_equal. by apply (Hone n0 b a); [apply Hl; left|].
    - rewrite lookup_insert_ne by done. destruct H as [|[[= -> ->]|]%elem_of_cons]; [by left|done|by right]. }
  exists b, ∅. split; [|done]. apply Hgen; [intros x; by rewrite elem_of_elements|]. right. by apply elem_of_elements.
Qed.

End Starts.
