(* ===== verification/EthStreams.v ===== *)
(** * Streams of logs and calls

    A node that has the blocks of a range and answers truly, though it may refuse requests
    for more than one block as too heavy.  The streams of the adapter then end with what
    the blocks of the range have, and the receipts of logs are found. *)

From Stdlib Require Import Strings.Byte.
From stdpp Require Import base numbers list gmap countable strings.
From S2P Require Import Prelude GraphqlAst Scalars RuntimeValue Values Names StoreTypes.
From S2P Require Import Schema BlockRange Relational DeploymentStore ChainStore Float64 PollingStream.
From S2P Require Import EthTypes EthDataSource EthFilters EthFilterProps EthAdapter EthTriggerProps EthStarts.

(** ** Chains and nodes *)

Record FinalChain := mkFinalChain {
  fc_hash : Z -> Bytes;
  fc_block : Z -> EthereumBlock;
  fc_calls : Z -> list EthereumCall
}.

Definition fc_light (c : FinalChain) (n : Z) : LightEthereumBlock := eb_block (fc_block c n).
Definition fc_receipts (c : FinalChain) (n : Z) : list EthReceipt := eb_transaction_receipts (fc_block c n).
Definition fc_logs (c : FinalChain) (n : Z) : list EthLog := concat (map rc_logs (fc_receipts c n)).
Definition fc_with_calls (c : FinalChain) (n : Z) : EthereumBlockWithCalls :=
  mkBlockWithCalls (fc_block c n) (Some (fc_calls c n)).

(** The blocks [from..=to] of a chain *)
Record chain_ok (c : FinalChain) (from to : Z) : Prop := {
  ck_range : (0 <= from <= to)%Z /\ (to <= i32_max)%Z;
  ck_number n : (from <= n <= to)%Z -> lb_number (fc_light c n) = Some n;
  ck_hash n : (from <= n <= to)%Z -> lb_hash (fc_light c n) = Some (fc_hash c n);
  ck_hash_length n : (from <= n <= to)%Z -> length (fc_hash c n) = 32%nat;
  ck_hash_inj n m : (from <= n <= to)%Z -> (from <= m <= to)%Z -> fc_hash c n = fc_hash c m -> n = m;
  (** a receipt for each transaction, and each transaction once *)
  ck_transactions n : (from <= n <= to)%Z -> map tx_hash (lb_transactions (fc_light c n)) = map rc_transaction_hash (fc_receipts c n);
  ck_transactions_once n : (from <= n <= to)%Z -> NoDup (map rc_transaction_hash (fc_receipts c n));
  ck_transaction_block n m r r' : (from <= n <= to)%Z -> (from <= m <= to)%Z -> r ∈ fc_receipts c n -> r' ∈ fc_receipts c m ->
    rc_transaction_hash r = rc_transaction_hash r' -> n = m;
  ck_receipt n r : (from <= n <= to)%Z -> r ∈ fc_receipts c n -> rc_block_hash r = Some (fc_hash c n);
  ck_log n r l : (from <= n <= to)%Z -> r ∈ fc_receipts c n -> l ∈ rc_logs r ->
    log_block_number l = Some n /\ log_block_hash l = Some (fc_hash c n) /\ log_transaction_hash l = Some (rc_transaction_hash r);
  ck_call n call : (from <= n <= to)%Z -> call ∈ fc_calls c n ->
    call_number call = n /\ call_block_hash call = fc_hash c n /\
    exists r, r ∈ fc_receipts c n /\ call_transaction_hash call = Some (rc_transaction_hash r)
}.

(** The answers of a node about these blocks, and what the chain store has of them *)
Record node_ok (c : FinalChain) (from to : Z) (rpc : EthRpc) (store : BlockCache) : Prop := {
  nk_logs s e q : (from <= s <= e)%Z -> (e <= to)%Z ->
    rpc_logs rpc s e q = Logs (concat (map (fun n => List.filter (fun l => query_selects l q) (fc_logs c n)) (block_range s e))) \/
    ((s < e)%Z /\ exists msg, rpc_logs rpc s e q = TooManyLogs msg);
  nk_traces s e addresses : (from <= s <= e)%Z -> (e <= to)%Z -> addresses <> [] ->
    exists traces, rpc_traces rpc s e addresses = Ok traces /\
      omap try_from_trace traces =
        concat (map (fun n => List.filter (fun call => bool_decide (call_to call ∈ addresses)) (fc_calls c n)) (block_range s e));
  nk_block_hash n : (from <= n <= to)%Z -> rpc_block_hash rpc n = Ok (Some (fc_hash c n));
  nk_block_ptr n : (from <= n <= to)%Z -> rpc_block_ptr rpc n = Ok (mkPtr (fc_hash c n) n);
  nk_block n : (from <= n <= to)%Z -> rpc_block rpc (fc_hash c n) = Ok (fc_light c n);
  nk_receipt n r : (from <= n <= to)%Z -> r ∈ fc_receipts c n -> rpc_receipt rpc (rc_transaction_hash r) = Ok (Some r);
  nk_stored hashes : exists ns, bk_blocks store hashes = map (fc_light c) ns /\ NoDup ns /\
    forall n, n ∈ ns -> (from <= n <= to)%Z /\ fc_hash c n ∈ hashes;
  nk_stored_receipts n : (from <= n <= to)%Z -> exists stored, bk_receipts store (fc_hash c n) = Ok stored /\
    forall h status r, (h, status) ∈ stored -> r ∈ fc_receipts c n -> rc_transaction_hash r = h -> status = rc_status r
}.

Record env_ok (env : AdapterEnv) : Prop := {
  ek_event_range : (1 <= env_max_event_only_range env)%Z;
  ek_trace_step : (1 <= env_trace_stream_step_size env)%Z;
  ek_contracts : (1 <= env_get_logs_max_contracts env)%nat
}.

Lemma block_range_split s e to : (s <= e + 1)%Z -> (e <= to)%Z -> block_range s to = block_range s e ++ block_range (e + 1) to.
Proof.
  intros Hs He. unfold block_range. replace (to - s + 1)%Z with ((e - s + 1) + (to - (e + 1) + 1))%Z by lia.
  rewrite seqZ_app by lia. do 2 f_equal. lia.
Qed.

Lemma elem_of_block_range s e n : n ∈ block_range s e <-> (s <= n <= e)%Z.
Proof. unfold block_range. rewrite elem_of_seqZ. lia. Qed.

Lemma block_range_empty s e : (e < s)%Z -> block_range s e = [].
Proof. intros H. unfold block_range. apply seqZ_nil. lia. Qed.

Lemma elem_of_concat_range {A} (f : Z -> list A) s e x :
  x ∈ concat (map f (block_range s e)) <-> exists n, (s <= n <= e)%Z /\ x ∈ f n.
Proof.
  rewrite list_elem_of_In, in_concat. split.
  - intros (l & (n & <- & Hn)%in_map_iff & Hx). exists n. rewrite <-elem_of_block_range, !list_elem_of_In. done.
  - intros (n & Hn & Hx). exists (f n). rewrite <-!list_elem_of_In. split; [|done]. apply list_elem_of_In, in_map, list_elem_of_In.
    by apply elem_of_block_range.
Qed.

Section Streams.
Context {G : Type} `{GM : !GraphMap G} `{GL : !GraphMapLaws G} {Token : Type} `{AC : !AbiCodec Token}.
Context `{KC : !Keccak} `{CJ : !ContextJson}.
Context (rpc : EthRpc) (store : BlockCache) (env : AdapterEnv) (c : FinalChain) (from to : BlockNumber).
Context (Hchain : chain_ok c from to) (Hnode : node_ok c from to rpc store) (Henv : env_ok env).
Local Abbreviation TFilter := (TriggerFilter G).

Lemma log_stream_from_spec q fuel start step :
  (from <= start)%Z -> (0 <= step)%Z -> (Z.max 0 (to - start + 1) + step <= Z.of_nat fuel)%Z ->
  log_stream_from rpc fuel to start step q =
    Some (Ok (concat (map (fun n => List.filter (fun l => query_selects l q) (fc_logs c n)) (block_range start to)))).
Proof.
  revert start step. induction fuel as [|fuel IH]; intros start step Hstart Hstep Hfuel; cbn [log_stream_from];
    destruct (Z.ltb_spec to start) as [Hlt|Hge]; try (by rewrite block_range_empty by lia); [lia|].
  set (e := Z.min (start + step) to). assert (He : (start <= e <= to)%Z) by lia.
  destruct (nk_logs _ _ _ _ _ Hnode start e q) as [->|(Hse & msg & ->)]; [lia..| |].
  - rewrite IH by lia. cbn [bind_fuel]. rewrite (block_range_split start e to) by lia. by rewrite map_app, concat_app.
  - destruct (Z.ltb_spec 0 step) as [Hpos|]; [|lia]. apply IH; [done| |].
    + apply Z.div_pos; lia.
    + pose proof (Z.div_lt step 10). lia.
Qed.

Lemma trace_stream_from_spec addresses fuel start :
  addresses <> [] -> (from <= start)%Z -> (Z.max 0 (to - start + 1) <= Z.of_nat fuel)%Z ->
  exists traces, trace_stream_from rpc env fuel to start addresses = Some (Ok traces) /\
    omap try_from_trace traces =
      concat (map (fun n => List.filter (fun call => bool_decide (call_to call ∈ addresses)) (fc_calls c n)) (block_range start to)).
Proof.
  intros Hne. pose proof (ek_trace_step _ Henv) as Hstep.
  revert start. induction fuel as [|fuel IH]; intros start Hstart Hfuel; cbn [trace_stream_from];
    destruct (Z.ltb_spec to start) as [Hlt|Hge]; try (exists []; by rewrite block_range_empty by lia); [lia|].
  set (e := Z.min (start + env_trace_stream_step_size env - 1) to). assert (He : (start <= e <= to)%Z) by lia.
  destruct (nk_traces _ _ _ _ _ Hnode start e addresses) as (ts & -> & Hts); [lia|lia|done|]. cbn [bind_fuel].
  destruct (IH (e + 1)%Z) as (rest & -> & Hrest); [lia..|]. cbn [bind_fuel]. exists (ts ++ rest). split; [done|].
  rewrite omap_app, Hts, Hrest, (block_range_split start e to) by lia. by rewrite map_app, concat_app.
Qed.

(** ** Logs of a range *)

Lemma logs_in_range_spec (f : TFilter) dss tps fuel :
  built f dss tps -> (gm_edge_count (lf_graph (tf_log f)) <= fuel)%nat -> (2 * (to - from) + 1 <= Z.of_nat fuel)%Z ->
  exists logs, logs_in_block_range rpc env fuel from to (tf_log f) = Some (Ok logs) /\
    forall l, l ∈ logs <-> exists n, (from <= n <= to)%Z /\ l ∈ fc_logs c n /\ log_matches (tf_log f) l = true.
Proof.
  intros Hbuilt Hedges Hfuel. unfold logs_in_block_range.
  destruct (queries_count f dss tps fuel (env_get_logs_max_contracts env) Hbuilt (ek_contracts _ Henv) Hedges) as (qs & -> & _ & Hcount).
  assert (Hqs : forall l, existsb (query_selects l) qs = log_matches (tf_log f) l) by (intros l; apply queried_matches, Hcount).
  destruct (ck_range _ _ _ Hchain) as [Hr _]. pose proof (ek_event_range _ Henv) as Hmax.
  exists (concat (map (fun q => concat (map (fun n => List.filter (fun l => query_selects l q) (fc_logs c n)) (block_range from to))) qs)).
  split.
  - clear Hqs Hcount. induction qs as [|q qs IH]; [done|]. cbn [log_streams map concat]. unfold log_stream at 1.
    destruct (Z.ltb_spec to from); [lia|]. rewrite log_stream_from_spec; [|lia|case_bool_decide; lia|case_bool_decide; lia].
    cbn [bind_fuel]. by rewrite IH.
  - intros l. rewrite list_elem_of_In, in_concat. split.
    + intros (x & (q & <- & Hq)%in_map_iff & Hx%list_elem_of_In). apply elem_of_concat_range in Hx as (n & Hn & Hx).
      apply list_elem_of_In, filter_In in Hx as [Hl Hsel]. exists n. split; [done|]. split; [by apply list_elem_of_In|].
      rewrite <-(Hqs l). apply existsb_exists. by exists q.
    + intros (n & Hn & Hl & Hm). rewrite <-(Hqs l), existsb_exists in Hm. destruct Hm as (q & Hq & Hsel).
      eexists. split; [apply in_map, Hq|]. apply list_elem_of_In, elem_of_concat_range. exists n. split; [done|].
      apply list_elem_of_In, filter_In. by rewrite <-list_elem_of_In.
Qed.

Lemma elem_of_fc_logs n l : l ∈ fc_logs c n <-> exists r, r ∈ fc_receipts c n /\ l ∈ rc_logs r.
Proof.
  unfold fc_logs. rewrite list_elem_of_In, in_concat. split.
  - intros (x & (r & <- & Hr)%in_map_iff & Hx). exists r. by rewrite !list_elem_of_In.
  - intros (r & Hr & Hl). exists (rc_logs r). split; [apply in_map|]; by apply list_elem_of_In.
Qed.

(** ** Calls of a range *)

Lemma calls_in_range_spec cf fuel :
  (to - from + 1 <= Z.of_nat fuel)%Z ->
  exists calls, calls_in_block_range rpc env fuel from to cf = Some (Ok calls) /\
    forall call, call ∈ calls <-> (exists n, (from <= n <= to)%Z /\ call ∈ fc_calls c n) /\
      call_start (cf_contracts cf) (call_to call) to /\ call_matches cf call = true.
Proof.
  intros Hfuel. unfold calls_in_block_range.
  set (addresses := map fst (List.filter (fun x : Bytes * (BlockNumber * gset Bytes) => (x.2.1 <=? to)%Z) (map_to_list (cf_contracts cf)))).
  assert (Haddr : forall a, a ∈ addresses <-> call_start (cf_contracts cf) a to).
  { intros a. unfold addresses, call_start. rewrite list_elem_of_In, in_map_iff. split.
    - intros ([a' [b sigs]] & <- & [Hin Hb]%filter_In). exists b, sigs. simpl in *.
      split; [by apply elem_of_map_to_list, list_elem_of_In|lia].
    - intros (b & sigs & Hm & Hb). exists (a, (b, sigs)). split; [done|]. apply filter_In.
      split; [by apply list_elem_of_In, elem_of_map_to_list|]. simpl. lia. }
  clearbody addresses. destruct (ck_range _ _ _ Hchain) as [Hr _]. case_bool_decide as Hnil.
  - exists []. split; [done|]. intros call. split; [by intros ?%not_elem_of_nil|]. intros (_ & Hs & _).
    apply Haddr in Hs. subst addresses. by apply not_elem_of_nil in Hs.
  - unfold trace_stream. destruct (Z.ltb_spec to from); [lia|].
    destruct (trace_stream_from_spec addresses fuel from Hnil) as (ts & -> & Hts); [lia..|]. cbn [bind_fuel].
    eexists. split; [done|]. rewrite Hts. intros call. rewrite list_elem_of_In, filter_In, <-list_elem_of_In, elem_of_concat_range, <-Haddr.
    split.
    + intros [(n & Hn & Hc) Hm]. apply list_elem_of_In, filter_In in Hc as [Hc Ha]. apply bool_decide_eq_true in Ha.
      split; [|done]. exists n. by rewrite list_elem_of_In.
    + intros [(n & Hn & Hc) [Ha Hm]]. split; [|done]. exists n. split; [done|]. apply list_elem_of_In, filter_In.
      split; [by apply list_elem_of_In|]. by apply bool_decide_eq_true.
Qed.

(** ** Receipts of logs *)

Lemma group_hashes (xs : list (Bytes * Bytes)) (m : gmap Bytes (gset Bytes)) b t :
  (exists s, foldl (fun (acc : gmap Bytes (gset Bytes)) x => <[x.1 := {[x.2]} ∪ default ∅ (acc !! x.1)]> acc) m xs !! b = Some s /\ t ∈ s)
    <-> (exists s, m !! b = Some s /\ t ∈ s) \/ (b, t) ∈ xs.
Proof.
  revert m. induction xs as [|[b0 t0] xs IH]; intros m; cbn [foldl fst snd].
  { split; [auto|]. intros [|H%not_elem_of_nil]; done. }
  rewrite IH, elem_of_cons. destruct (decide (b0 = b)) as [->|Hne].
  - rewrite lookup_insert_eq. split.
    + intros [(s & [= <-] & Ht)|]; [|by right; right]. apply elem_of_union in Ht as [->%elem_of_singleton|Ht]; [by right; left|].
      left. destruct (m !! b) as [s|]; [by exists s|set_solver].
    + intros [(s & -> & Ht)|[[= ->]|]]; [left|left|by right]; (eexists; split; [done|]; simpl; set_solver).
  - rewrite lookup_insert_ne by done. split; [intros [|]; auto|]. intros [|[[= -> ->]|]]; [by left|done|by right].
Qed.

Definition receipt_requests (m : gmap Bytes (gset Bytes)) : list (Bytes * Bytes) :=
  concat (map (fun x => map (pair x.1) (elements x.2)) (map_to_list m)).

Lemma elem_of_requests m b t : (b, t) ∈ receipt_requests m <-> exists s, m !! b = Some s /\ t ∈ s.
Proof.
  unfold receipt_requests. rewrite list_elem_of_In, in_concat. split.
  - intros (x & ([b0 s] & <- & Hin)%in_map_iff & (t0 & [= -> ->] & Ht)%in_map_iff). exists s.
    split; [by apply elem_of_map_to_list, list_elem_of_In|]. by apply elem_of_elements, list_elem_of_In.
  - intros (s & Hm & Ht). eexists. split; [apply in_map, list_elem_of_In, elem_of_map_to_list, Hm|]. simpl. apply in_map.
    by apply list_elem_of_In, elem_of_elements.
Qed.

Lemma requests_NoDup m : NoDup (receipt_requests m).
Proof.
  unfold receipt_requests. assert (Hgen : forall l : list (Bytes * gset Bytes), NoDup l.*1 ->
    NoDup (concat (map (fun x => map (pair x.1) (elements x.2)) l))).
  { induction l as [|[b s] l IH]; [intros _; apply NoDup_nil_2|]. rewrite fmap_cons, NoDup_cons. intros [Hb Hnd].
    cbn [map concat fst snd]. apply NoDup_app. split_and!.
    - apply (NoDup_fmap_2 (pair b)), NoDup_elements.
    - intros [b' t] Hin Hin'. apply list_elem_of_fmap in Hin as (t' & [= -> ->] & _). apply Hb.
      apply list_elem_of_In, in_concat in Hin' as (x & ([b' s'] & <- & Hin)%in_map_iff & (t'' & [= -> ->] & _)%in_map_iff).
      apply list_elem_of_fmap. exists (b, s'). split; [done|by apply list_elem_of_In].
    - by apply IH. }
  apply Hgen, NoDup_fst_map_to_list.
Qed.

Lemma add_receipts_spec (rs : list EthReceipt) (unique : gset Bytes) (m : gmap Bytes EthReceipt) :
  NoDup (map rc_transaction_hash rs) -> (forall r, r ∈ rs -> rc_transaction_hash r ∈ unique /\ m !! rc_transaction_hash r = None) ->
  exists m', try_fold add_receipt (unique, m) rs = Ok (unique ∖ list_to_set (map rc_transaction_hash rs), m') /\
    forall h r, m' !! h = Some r <-> m !! h = Some r \/ (r ∈ rs /\ rc_transaction_hash r = h).
Proof.
  revert unique m. induction rs as [|r rs IH]; intros unique m Hnd Hok.
  { exists m. cbn. split; [do 2 f_equal; set_solver|]. intros h r. split; [auto|]. by intros [|[?%not_elem_of_nil _]]. }
  apply NoDup_cons in Hnd as [Hr Hnd]. destruct (Hok r) as [Hu Hm]; [by left|]. cbn [try_fold].
  assert (Hadd : add_receipt (unique, m) r = Ok (unique ∖ {[rc_transaction_hash r]}, <[rc_transaction_hash r := r]> m))
    by (simpl; by rewrite bool_decide_true, Hm).
  rewrite Hadd. cbn [bind_result]. clear Hadd.
  assert (Hne : forall r', r' ∈ rs -> rc_transaction_hash r' <> rc_transaction_hash r).
  { intros r' Hr' Heq. apply Hr. rewrite <-Heq. by apply list_elem_of_fmap_2. }
  destruct (IH (unique ∖ {[rc_transaction_hash r]}) (<[rc_transaction_hash r := r]> m) Hnd) as (m' & -> & Hl).
  { intros r' Hr'. pose proof (Hne r' Hr'). destruct (Hok r') as [Hu' Hm']; [by right|]. split; [set_solver|]. by rewrite lookup_insert_ne. }
  exists m'. split; [do 2 f_equal; cbn [map list_to_set]; set_solver|]. intros h r0. rewrite Hl, elem_of_cons.
  destruct (decide (rc_transaction_hash r = h)) as [<-|Hneq].
  - rewrite lookup_insert_eq, Hm. split.
    + intros [[= ->]|[Hin Heq]]; [auto|]. by destruct (Hne r0 Hin).
    + intros [|[[->|Hin] Heq]]; [done|by left|by right].
  - rewrite lookup_insert_ne by done. split; [intros [|[]]; auto|]. intros [|[[->|Hin] Heq]]; [by left|done|by right].
Qed.

(** A receipt of the block *)
Definition receipt_of (block : Bytes) (r : EthReceipt) : Prop :=
  exists n, (from <= n <= to)%Z /\ block = fc_hash c n /\ r ∈ fc_receipts c n.

Lemma receipt_of_unique b b' r r' :
  receipt_of b r -> receipt_of b' r' -> rc_transaction_hash r = rc_transaction_hash r' -> b = b' /\ r = r'.
Proof.
  intros (n & Hn & -> & Hr) (n' & Hn' & -> & Hr') Heq.
  pose proof (ck_transaction_block _ _ _ Hchain _ _ _ _ Hn Hn' Hr Hr' Heq) as <-. split; [done|].
  pose proof (ck_transactions_once _ _ _ Hchain n Hn) as Hnd. clear -Hnd Hr Hr' Heq.
  induction (fc_receipts c n) as [|x l IH]; [by apply not_elem_of_nil in Hr|]. apply NoDup_cons in Hnd as [Hx Hnd].
  assert (Hin : forall y, y ∈ l -> rc_transaction_hash y <> rc_transaction_hash x).
  { intros y Hy Hyx. apply Hx. rewrite <-Hyx. by apply list_elem_of_fmap_2. }
  apply elem_of_cons in Hr as [->|Hr]; apply elem_of_cons in Hr' as [->|Hr']; [done|..].
  - by destruct (Hin r').
  - by destruct (Hin r).
  - by apply IH.
Qed.

Lemma fetch_receipt_spec b r :
  receipt_of b r -> fetch_transaction_receipt rpc b (rc_transaction_hash r) = Ok r.
Proof.
  intros (n & Hn & -> & Hr). unfold fetch_transaction_receipt. rewrite (nk_receipt _ _ _ _ _ Hnode n r Hn Hr). cbn.
  by rewrite bool_decide_true by by eapply ck_receipt.
Qed.

Lemma get_receipts_spec (m : gmap Bytes (gset Bytes)) :
  (forall b t s, m !! b = Some s -> t ∈ s -> exists r, receipt_of b r /\ rc_transaction_hash r = t) ->
  exists by_hash, get_transaction_receipts_for_transaction_hashes rpc m = Ok by_hash /\
    forall h r, by_hash !! h = Some r <->
      exists b s, m !! b = Some s /\ h ∈ s /\ receipt_of b r /\ rc_transaction_hash r = h.
Proof.
  intros Hm. unfold get_transaction_receipts_for_transaction_hashes. case_bool_decide as Hempty.
  { exists ∅. split; [done|]. intros h r. rewrite lookup_empty. split; [done|]. intros (b & s & Hb & _). by rewrite Hempty, lookup_empty in Hb. }
  fold (receipt_requests m).
  assert (Hreq : forall b t, (b, t) ∈ receipt_requests m -> exists r, receipt_of b r /\ rc_transaction_hash r = t).
  { intros b t (s & Hb & Ht)%elem_of_requests. by eapply Hm. }
  assert (Hrs : exists rs, try_map (fun x => fetch_transaction_receipt rpc x.1 x.2) (receipt_requests m) = Ok rs /\
    Forall2 (fun x r => receipt_of x.1 r /\ rc_transaction_hash r = x.2) (receipt_requests m) rs).
  { induction (receipt_requests m) as [|[b t] l IH]; [by exists []|]. destruct (Hreq b t) as (r & Hr & <-); [by left|].
    destruct IH as (rs & Hrs & Hf); [intros b' t' Hin; apply Hreq; by right|]. exists (r :: rs). cbn [try_map fst snd].
    rewrite (fetch_receipt_spec b r Hr). cbn [bind_result]. rewrite Hrs. split; [done|]. by constructor. }
  destruct Hrs as (rs & -> & Hf). cbn [bind_result].
  assert (Hmap : map rc_transaction_hash rs = map snd (receipt_requests m)).
  { clear -Hf. induction Hf as [|x r l rs [_ Hx] _ IH]; [done|]. cbn [map]. by rewrite Hx, IH. }
  destruct (add_receipts_spec rs (list_to_set (map snd (receipt_requests m))) ∅) as (by_hash & -> & Hl).
  { rewrite Hmap. apply (NoDup_fmap_2_strong snd); [|apply requests_NoDup]. intros [b t] [b' t'] Hx Hx' [= ->].
    destruct (Hreq _ _ Hx) as (r & Hr & Ht), (Hreq _ _ Hx') as (r' & Hr' & Ht').
    destruct (receipt_of_unique _ _ _ _ Hr Hr'); [congruence|]. by subst. }
  { intros r Hr. rewrite lookup_empty, <-Hmap. split; [|done]. apply elem_of_list_to_set. by apply list_elem_of_fmap_2. }
  cbn [bind_result]. rewrite bool_decide_true by (rewrite Hmap; set_solver). exists by_hash. split; [done|]. intros h r. rewrite Hl, lookup_empty. split.
  - intros [|[Hr Ht]]; [done|]. destruct (forall2_elem_r _ _ _ Hf _ Hr) as ([b t] & Hx & Hof & Ht'). simpl in *.
    apply elem_of_requests in Hx as (s & Hb & Hs). exists b, s. split_and!; [done|congruence|done..].
  - intros (b & s & Hb & Hs & Hof & Ht). right. split; [|done].
    destruct (forall2_elem_l _ _ _ Hf _ (proj2 (elem_of_requests m b h) (ex_intro _ s (conj Hb Hs)))) as (r' & Hr' & Hof' & Ht').
    simpl in *. destruct (receipt_of_unique _ _ _ _ Hof Hof') as [_ ->]; [congruence|done].
Qed.

(** Whether a handler for the log wants its receipt *)
Definition wants_receipt (f : EthereumLogFilter G) (receipts : bool) (log : EthLog) : bool :=
  receipts && match head (log_topics log) with
              | Some signature => requires_transaction_receipt f signature (Some (log_address log))
              | None => false
              end.

(** A log comes with its receipt where that is wanted. *)
Definition attached (f : EthereumLogFilter G) (receipts : bool) (log : EthLog) (r : EthReceipt) (o : option EthReceipt) : Prop :=
  o = Some r \/ (o = None /\ wants_receipt f receipts log = false).

Lemma get_logs_spec (f : TFilter) dss tps fuel receipts :
  built f dss tps -> (gm_edge_count (lf_graph (tf_log f)) <= fuel)%nat -> (2 * (to - from) + 1 <= Z.of_nat fuel)%Z ->
  exists ts, get_logs_and_transactions rpc env fuel from to (tf_log f) receipts = Some (Ok ts) /\
    (forall t, t ∈ ts -> exists n r l o, t = TriggerLog l o /\ (from <= n <= to)%Z /\ r ∈ fc_receipts c n /\ l ∈ rc_logs r /\
      log_matches (tf_log f) l = true /\ attached (tf_log f) receipts l r o) /\
    (forall n r l, (from <= n <= to)%Z -> r ∈ fc_receipts c n -> l ∈ rc_logs r -> log_matches (tf_log f) l = true ->
      exists o, TriggerLog l o ∈ ts /\ attached (tf_log f) receipts l r o).
Proof.
  intros Hbuilt Hedges Hfuel. unfold get_logs_and_transactions.
  destruct (logs_in_range_spec f dss tps fuel Hbuilt Hedges Hfuel) as (logs & -> & Hlogs). cbn [bind_fuel].
  set (xs := omap (needs_receipt (tf_log f) receipts) logs).
  match goal with |- context [get_transaction_receipts_for_transaction_hashes rpc ?m] => set (hashes := m) end.
  assert (Hgroup : forall b t, (exists s, hashes !! b = Some s /\ t ∈ s) <-> (b, t) ∈ xs).
  { intros b t. unfold hashes. rewrite group_hashes. split; [|by right]. intros [(s & Hs & _)|]; [by rewrite lookup_empty in Hs|done]. }
  clearbody hashes.
  assert (Hxs : forall l n r, l ∈ logs -> (from <= n <= to)%Z -> r ∈ fc_receipts c n -> l ∈ rc_logs r ->
    needs_receipt (tf_log f) receipts l =
      if wants_receipt (tf_log f) receipts l then Some (fc_hash c n, rc_transaction_hash r) else None).
  { intros l n r _ Hn Hr Hl. destruct (ck_log _ _ _ Hchain n r l Hn Hr Hl) as (_ & Hb & Ht). unfold needs_receipt. fold (wants_receipt (tf_log f) receipts l).
    by rewrite Hb, Ht. }
  destruct (get_receipts_spec hashes) as (by_hash & -> & Hby).
  { intros b t s Hb Ht. assert (Hin : (b, t) ∈ xs) by (apply Hgroup; by exists s).
    apply list_elem_of_omap in Hin as (l & Hl & Hneed). pose proof Hl as (n & Hn & (r & Hr & Hlr)%elem_of_fc_logs & _)%Hlogs.
    rewrite (Hxs l n r) in Hneed by done. destruct (wants_receipt _ _ _); [|done]. injection Hneed as <- <-.
    exists r. split; [|done]. by exists n. }
  cbn [bind_fuel].
  assert (Hatt : forall l n r, l ∈ logs -> (from <= n <= to)%Z -> r ∈ fc_receipts c n -> l ∈ rc_logs r ->
    attached (tf_log f) receipts l r (log_transaction_hash l ≫= fun txn => by_hash !! txn)).
  { intros l n r Hl Hn Hr Hlr. destruct (ck_log _ _ _ Hchain n r l Hn Hr Hlr) as (_ & _ & ->). simpl. unfold attached.
    assert (Hof : receipt_of (fc_hash c n) r) by by exists n.
    destruct (by_hash !! rc_transaction_hash r) as [r'|] eqn:Hr'.
    - left. apply Hby in Hr' as (b & s & _ & _ & Hof' & Heq). by destruct (receipt_of_unique _ _ _ _ Hof' Hof Heq) as [_ ->].
    - right. split; [done|]. destruct (wants_receipt (tf_log f) receipts l) eqn:Hw; [|done].
      assert (Hin : (fc_hash c n, rc_transaction_hash r) ∈ xs) by (apply list_elem_of_omap; exists l; by rewrite (Hxs l n r), Hw).
      apply Hgroup in Hin as (s & Hs & Ht). assert (Hsome : by_hash !! rc_transaction_hash r = Some r) by (apply Hby; by exists (fc_hash c n), s).
      congruence. }
  eexists. split; [done|]. split.
  - intros t (l & <- & Hl%list_elem_of_In)%list_elem_of_In%in_map_iff.
    pose proof Hl as (n & Hn & (r & Hr & Hlr)%elem_of_fc_logs & Hm)%Hlogs. exists n, r, l. eexists. do 5 (split; [done|]). by eapply Hatt.
  - intros n r l Hn Hr Hlr Hm. assert (Hl : l ∈ logs) by (apply Hlogs; exists n; split; [done|]; split; [apply elem_of_fc_logs; by exists r|done]).
    eexists. split; [apply list_elem_of_In, in_map_iff; exists l; split; [done|by apply list_elem_of_In]|]. by eapply Hatt.
Qed.

End Streams.
