(* ===== verification/EthScanProps.v ===== *)
(** * Scanning final blocks

    What a scan of a range of final blocks finds on a node that has these blocks: every
    trigger that a data source processes, in a block of the result, and nothing that does
    not happen in the block. *)

From Stdlib Require Import Strings.Byte.
From stdpp Require Import base numbers list gmap countable strings.
From S2P Require Import Prelude GraphqlAst Scalars RuntimeValue Values Names StoreTypes.
From S2P Require Import Schema BlockRange Relational DeploymentStore ChainStore Float64 PollingStream.
From S2P Require Import EthTypes EthDataSource EthFilters EthFilterProps EthAdapter EthTriggerProps EthStarts EthStreams.

Section Scan.
Context {G : Type} `{GM : !GraphMap G} `{GL : !GraphMapLaws G} {Token : Type} `{AC : !AbiCodec Token}.
Context `{KC : !Keccak} `{CJ : !ContextJson}.
Context (rpc : EthRpc) (store : BlockCache) (env : AdapterEnv) (c : FinalChain) (from to : BlockNumber).
Context (Hchain : chain_ok c from to) (Hnode : node_ok c from to rpc store) (Henv : env_ok env).
Local Abbreviation TFilter := (TriggerFilter G).

Definition fc_ptr (n : Z) : BlockPtr := mkPtr (fc_hash c n) n.

(** What happens in a block, also in transactions that failed; calls have whole words as
    their input *)
Inductive happens (n : Z) : EthereumTrigger -> Prop :=
| happens_log r l : r ∈ fc_receipts c n -> l ∈ rc_logs r -> happens n (TriggerLog l (Some r))
| happens_call call : call ∈ fc_calls c n -> aligned_input (call_input call) -> happens n (TriggerCall call)
| happens_every : happens n (TriggerBlock (fc_ptr n) Every)
| happens_call_to call :
    call ∈ fc_calls c n -> aligned_input (call_input call) -> happens n (TriggerBlock (fc_ptr n) (WithCallTo (call_to call))).

(** The trigger that a scan makes of it *)
Definition scanned_as (f : TFilter) (receipts : bool) (t t' : EthereumTrigger) : Prop :=
  match t, t' with
  | TriggerLog l (Some r), TriggerLog l' o => l = l' /\ attached (tf_log f) receipts l r o
  | TriggerLog _ None, _ => False
  | _, _ => t = t'
  end.

(** What is of interest in the range *)
Definition in_scope (f : TFilter) (t : EthereumTrigger) : Prop :=
  match t with
  | TriggerCall call => call_start (cf_contracts (tf_call f)) (call_to call) to
  | TriggerBlock _ (WithCallTo a) =>
      bf_trigger_every_block (tf_block f) = false /\ block_start (bf_contract_addresses (tf_block f)) a to
  | _ => True
  end.

Lemma scan_calls_spec (f : TFilter) fuel :
  (to - from + 1 <= Z.of_nat fuel)%Z ->
  exists ts, (if call_filter_is_empty (tf_call f) then Some (Ok [])
              else let* calls := calls_in_block_range rpc env fuel from to (tf_call f) in Some (Ok (map TriggerCall calls))) = Some (Ok ts) /\
    forall t, t ∈ ts <-> exists n call, t = TriggerCall call /\ (from <= n <= to)%Z /\ call ∈ fc_calls c n /\
      call_start (cf_contracts (tf_call f)) (call_to call) to /\ call_matches (tf_call f) call = true.
Proof.
  intros Hfuel. destruct (call_filter_is_empty (tf_call f)) eqn:He.
  - exists []. split; [done|]. intros t. split; [by intros ?%not_elem_of_nil|]. intros (n & call & _ & _ & _ & (b & sigs & Hb & _) & _).
    unfold call_filter_is_empty in He. rewrite andb_true_iff, !bool_decide_eq_true in He. destruct He as [He _]. by rewrite He, lookup_empty in Hb.
  - destruct (calls_in_range_spec rpc store env c from to Hchain Hnode Henv (tf_call f) fuel Hfuel) as (calls & -> & Hcalls).
    cbn [bind_fuel]. eexists. split; [done|]. intros t. rewrite list_elem_of_In, in_map_iff. split.
    + intros (call & <- & ((n & Hn & Hc) & Hs & Hm)%list_elem_of_In%Hcalls). by exists n, call.
    + intros (n & call & -> & Hn & Hc & Hs & Hm). exists call. split; [done|]. apply list_elem_of_In, Hcalls.
      split; [by exists n|done].
Qed.

Lemma block_ptrs_spec : block_range_to_ptrs rpc from to = Ok (map fc_ptr (block_range from to)).
Proof.
  unfold block_range_to_ptrs. assert (Hin : forall n, n ∈ block_range from to -> (from <= n <= to)%Z) by (intros n; by rewrite elem_of_block_range).
  induction (block_range from to) as [|n l IH]; [done|]. cbn [try_map map]. rewrite (nk_block_ptr _ _ _ _ _ Hnode n) by (apply Hin; by left).
  cbn [bind_result]. rewrite IH by (intros m Hm; apply Hin; by right). done.
Qed.

Definition scan_blocks (f : TFilter) (fuel : nat) : option (result AdapterError (list EthereumTrigger)) :=
  if bf_trigger_every_block (tf_block f) then
    let* ptrs := Some (block_range_to_ptrs rpc from to) in
    Some (Ok (map (fun ptr => TriggerBlock ptr Every) ptrs))
  else if bool_decide (bf_contract_addresses (tf_block f) = ∅) then Some (Ok [])
  else
    let* calls := calls_in_block_range rpc env fuel from to (call_filter_from_block_filter (tf_block f)) in
    Some (Ok (map (fun call => TriggerBlock (mkPtr (call_block_hash call) (call_number call)) (WithCallTo (call_to call))) calls)).

Lemma scan_blocks_spec (f : TFilter) fuel :
  one_per_address (bf_contract_addresses (tf_block f)) -> (to - from + 1 <= Z.of_nat fuel)%Z ->
  exists ts, scan_blocks f fuel = Some (Ok ts) /\
    (forall t, t ∈ ts -> exists n kind, t = TriggerBlock (fc_ptr n) kind /\ (from <= n <= to)%Z /\ happens n t /\ wanted f t) /\
    (forall n kind, (from <= n <= to)%Z -> happens n (TriggerBlock (fc_ptr n) kind) -> wanted f (TriggerBlock (fc_ptr n) kind) ->
      in_scope f (TriggerBlock (fc_ptr n) kind) -> TriggerBlock (fc_ptr n) kind ∈ ts) /\
    (bf_trigger_every_block (tf_block f) = true -> forall p a, TriggerBlock p (WithCallTo a) ∉ ts).
Proof.
  intros Hone Hfuel. unfold scan_blocks. destruct (bf_trigger_every_block (tf_block f)) eqn:Hev.
  - rewrite block_ptrs_spec. cbn [bind_fuel]. eexists. split; [done|]. split_and!.
    + intros t (p & <- & (n & <- & Hn%list_elem_of_In%elem_of_block_range)%in_map_iff)%list_elem_of_In%in_map_iff.
      exists n, Every. split; [done|]. split; [done|]. split; [constructor|done].
    + intros n kind Hn Ht _ Hscope. destruct kind as [|a]; [|destruct Hscope; congruence].
      apply list_elem_of_In, in_map_iff. eexists. split; [done|]. apply in_map, list_elem_of_In. by apply elem_of_block_range.
    + by intros _ p a (p' & Hp & _)%list_elem_of_In%in_map_iff.
  - case_bool_decide as Hempty.
    { exists []. split; [done|]. split; [by intros t ?%not_elem_of_nil|]. split; [|done]. intros n [|a] Hn _ Hw _; simpl in Hw; [congruence|].
      destruct Hw as [m Hm]. set_solver. }
    destruct (calls_in_range_spec rpc store env c from to Hchain Hnode Henv (call_filter_from_block_filter (tf_block f)) fuel Hfuel) as (calls & -> & Hcalls).
    cbn [bind_fuel]. eexists. split; [done|]. split_and!; [| |done].
    + intros t (call & <- & ((n & Hn & Hc) & _ & Hm)%list_elem_of_In%Hcalls)%list_elem_of_In%in_map_iff.
      apply block_calls_match in Hm as [Hal Hlist]. destruct (ck_call _ _ _ Hchain n call Hn Hc) as (-> & -> & _).
      exists n, (WithCallTo (call_to call)). split; [done|]. split; [done|]. split; [by constructor|done].
    + intros n kind Hn Ht Hw Hscope. inversion Ht as [| | |call Hc Hal Heq]; subst; [simpl in Hw; congruence|].
      destruct (ck_call _ _ _ Hchain n call Hn Hc) as (Hnum & Hhash & _).
      apply list_elem_of_In, in_map_iff. exists call. rewrite Hnum, Hhash. split; [done|]. apply list_elem_of_In, Hcalls.
      split; [by exists n|]. split; [apply block_calls_start; [done|apply Hscope]|]. by apply block_calls_match.
Qed.

(** The logs, calls and blocks of the range that the filter wants are found. *)
Lemma scan_range_spec (f : TFilter) dss tps fuel receipts :
  built f dss tps -> (gm_edge_count (lf_graph (tf_log f)) <= fuel)%nat -> (2 * (to - from) + 1 <= Z.of_nat fuel)%Z ->
  exists ts, scan_range rpc env fuel from to f receipts = Some (Ok ts) /\
    (forall t', t' ∈ ts -> exists n t, (from <= n <= to)%Z /\ happens n t /\ wanted f t /\ scanned_as f receipts t t') /\
    (forall n t, (from <= n <= to)%Z -> happens n t -> wanted f t -> in_scope f t -> exists t', t' ∈ ts /\ scanned_as f receipts t t') /\
    (bf_trigger_every_block (tf_block f) = true -> forall p a, TriggerBlock p (WithCallTo a) ∉ ts).
Proof.
  intros Hbuilt Hedges Hfuel. pose proof (built_starts _ _ _ Hbuilt) as Hst. destruct (ck_range _ _ _ Hchain) as [Hr _].
  unfold scan_range. fold (scan_blocks f fuel).
  assert (Hlogs : exists ts, (if log_filter_is_empty (tf_log f) then Some (Ok []) else get_logs_and_transactions rpc env fuel from to (tf_log f) receipts) = Some (Ok ts) /\
    (forall t, t ∈ ts -> exists n r l o, t = TriggerLog l o /\ (from <= n <= to)%Z /\ r ∈ fc_receipts c n /\ l ∈ rc_logs r /\
      log_matches (tf_log f) l = true /\ attached (tf_log f) receipts l r o) /\
    (forall n r l, (from <= n <= to)%Z -> r ∈ fc_receipts c n -> l ∈ rc_logs r -> log_matches (tf_log f) l = true ->
      exists o, TriggerLog l o ∈ ts /\ attached (tf_log f) receipts l r o)).
  { destruct (log_filter_is_empty (tf_log f)) eqn:He; [|by eapply get_logs_spec].
    exists []. split; [done|]. split; [by intros t ?%not_elem_of_nil|]. intros n r l _ _ _ Hm. rewrite log_matches_wants in Hm.
    destruct (head (log_topics l)) as [s|]; [|done]. by rewrite (wants_log_empty _ _ _ He) in Hm. }
  destruct Hlogs as (logs & -> & Hl1 & Hl2). cbn [bind_fuel].
  destruct (scan_calls_spec f fuel) as (calls & -> & Hcalls); [lia|]. cbn [bind_fuel].
  destruct (scan_blocks_spec f fuel) as (blocks & -> & Hb1 & Hb2 & Hb3); [apply Hst|lia|]. cbn [bind_fuel].
  exists (logs ++ calls ++ blocks). split; [done|]. split_and!.
  - intros t' [Ht|[Ht|Ht]%elem_of_app]%elem_of_app.
    + apply Hl1 in Ht as (n & r & l & o & -> & Hn & Hrc & Hl & Hm & Hatt). exists n, (TriggerLog l (Some r)).
      split; [done|]. split; [by constructor|]. split; [done|]. by split.
    + apply Hcalls in Ht as (n & call & -> & Hn & Hc & _ & Hm). exists n, (TriggerCall call).
      assert (Hal : aligned_input (call_input call)) by by apply call_matches_spec in Hm as [? _]; [|apply (built_inv _ _ _ Hbuilt)].
      split; [done|]. split; [by constructor|]. by split.
    + apply Hb1 in Ht as (n & kind & -> & Hn & Hh & Hw). exists n, (TriggerBlock (fc_ptr n) kind). done.
  - intros n t Hn Hh Hw Hscope. destruct Hh as [r l Hrc Hl|call Hc Hal| |call Hc Hal].
    + destruct (Hl2 n r l Hn Hrc Hl Hw) as (o & Ho & Hatt). exists (TriggerLog l o). split; [by apply elem_of_app; left|by split].
    + exists (TriggerCall call). split; [|done]. apply elem_of_app. right. apply elem_of_app. left. apply Hcalls. by exists n, call.
    + eexists. split; [|done]. do 2 (apply elem_of_app; right). apply Hb2; [done|constructor|done..].
    + eexists. split; [|done]. do 2 (apply elem_of_app; right). apply Hb2; [done|by constructor|done..].
  - intros Hev p a [Ht|[Ht|Ht]%elem_of_app]%elem_of_app; [by apply Hl1 in Ht as (? & ? & ? & ? & ? & _)| |by eapply Hb3].
    by apply Hcalls in Ht as (? & ? & ? & _).
Qed.

(** ** Calls of failed transactions *)

Lemma receipt_unique n r r' :
  (from <= n <= to)%Z -> r ∈ fc_receipts c n -> r' ∈ fc_receipts c n -> rc_transaction_hash r = rc_transaction_hash r' -> r = r'.
Proof.
  intros Hn Hr Hr' Heq. eapply (receipt_of_unique c from to Hchain (fc_hash c n) (fc_hash c n)); [by exists n..|done].
Qed.

Lemma call_success n call :
  (from <= n <= to)%Z -> call ∈ fc_calls c n ->
  exists r, r ∈ fc_receipts c n /\ call_transaction_hash call = Some (rc_transaction_hash r) /\
    transaction_for_call_succeeded (fc_with_calls c n) call = Ok (evaluate_transaction_status (rc_status r)).
Proof.
  intros Hn Hc. destruct (ck_call _ _ _ Hchain n call Hn Hc) as (_ & _ & r & Hr & Ht). exists r. split_and!; [done..|].
  unfold transaction_for_call_succeeded. rewrite Ht. cbn [ok_or bind_result]. simpl. fold (fc_receipts c n).
  destruct (List.find _ _) as [r'|] eqn:Hf.
  - apply find_some in Hf as [Hin Heq]. apply bool_decide_eq_true in Heq. apply list_elem_of_In in Hin.
    by rewrite (receipt_unique n r' r).
  - pose proof (find_none _ _ Hf r) as Hno. simpl in Hno. rewrite bool_decide_true in Hno by done.
    by discriminate Hno; apply list_elem_of_In.
Qed.

Definition right_statuses (n : Z) (sts : list (Bytes * option Z)) : Prop :=
  forall h status r, (h, status) ∈ sts -> r ∈ fc_receipts c n -> rc_transaction_hash r = h -> status = rc_status r.

Lemma split_statuses (txs : list EthTransaction) (stored : gmap Bytes (option Z)) w wo :
  exists stored' w1 wo1,
    foldl (fun (st : gmap Bytes (option Z) * list (Bytes * option Z) * list Bytes) tx =>
        let '(receipts, with_receipt, without) := st in
        match receipts !! tx_hash tx with
        | Some status => (delete (tx_hash tx) receipts, with_receipt ++ [(tx_hash tx, status)], without)
        | None => (receipts, with_receipt, without ++ [tx_hash tx])
        end) (stored, w, wo) txs = (stored', w ++ w1, wo ++ wo1) /\
    (forall h, h ∈ map tx_hash txs <-> h ∈ w1.*1 \/ h ∈ wo1) /\ (forall h s, (h, s) ∈ w1 -> stored !! h = Some s).
Proof.
  revert stored w wo. induction txs as [|tx txs IH]; intros stored w wo; cbn [foldl].
  { exists stored, [], []. rewrite !app_nil_r. split; [done|]. split; [intros h; rewrite fmap_nil; simpl; set_solver|by intros h s ?%not_elem_of_nil]. }
  destruct (stored !! tx_hash tx) as [status|] eqn:Hs.
  - destruct (IH (delete (tx_hash tx) stored) (w ++ [(tx_hash tx, status)]) wo) as (stored' & w1 & wo1 & -> & Hin & Hok).
    exists stored', ((tx_hash tx, status) :: w1), wo1. split; [by rewrite <-app_assoc|]. split.
    + intros h. cbn [map]. rewrite elem_of_cons, Hin, fmap_cons, elem_of_cons. tauto.
    + intros h s [[= -> ->]|Hw]%elem_of_cons; [done|]. apply Hok in Hw. by apply lookup_delete_Some in Hw as [_ Hw].
  - destruct (IH stored w (wo ++ [tx_hash tx])) as (stored' & w1 & wo1 & -> & Hin & Hok).
    exists stored', w1, (tx_hash tx :: wo1). split; [by rewrite <-app_assoc|]. split; [|done].
    intros h. cbn [map]. rewrite !elem_of_cons, Hin. tauto.
Qed.

Lemma statuses_spec n txs stored :
  (from <= n <= to)%Z -> (forall tx, tx ∈ txs -> tx_hash tx ∈ map rc_transaction_hash (fc_receipts c n)) ->
  (forall h s, stored !! h = Some s -> forall r, r ∈ fc_receipts c n -> rc_transaction_hash r = h -> s = rc_status r) ->
  exists sts, transaction_statuses rpc txs stored = Ok sts /\ (forall h, h ∈ map tx_hash txs <-> h ∈ sts.*1) /\ right_statuses n sts.
Proof.
  intros Hn Htx Hstored. unfold transaction_statuses.
  destruct (split_statuses txs stored [] []) as (stored' & w1 & wo1 & -> & Hin & Hok). cbn [app].
  assert (Hfetch : exists sts, try_map (fun hash =>
      let? receipt := rpc_receipt rpc hash in
      let? receipt := ok_or (ReceiptNotFound hash) receipt in
      Ok (hash, rc_status receipt)) wo1 = Ok sts /\ sts.*1 = wo1 /\ right_statuses n sts).
  { assert (Hwo : forall h, h ∈ wo1 -> h ∈ map rc_transaction_hash (fc_receipts c n)).
    { intros h Hh. assert (Hm : h ∈ map tx_hash txs) by (apply Hin; by right).
      apply list_elem_of_fmap in Hm as (tx & -> & Htx'). by apply Htx. }
    clear Hin. induction wo1 as [|h wo1 IH]; [exists []; split_and!; [done..|]; by intros h s r ?%not_elem_of_nil|].
    destruct IH as (sts & Hsts & Hfst & Hright); [intros h' Hh'; apply Hwo; by right|].
    destruct (proj1 (list_elem_of_fmap _ _ _) (Hwo h (list_elem_of_here _ _))) as (r & -> & Hr).
    exists ((rc_transaction_hash r, rc_status r) :: sts). cbn [try_map]. rewrite (nk_receipt _ _ _ _ _ Hnode n r Hn Hr).
    cbn [bind_result ok_or]. rewrite Hsts. split; [done|]. split; [by rewrite fmap_cons, Hfst|].
    intros h s r' [[= -> ->]|Hs]%elem_of_cons Hr' Heq; [by rewrite (receipt_unique n r' r)|by eapply Hright]. }
  destruct Hfetch as (sts & -> & Hfst & Hright). cbn [bind_result]. exists (w1 ++ sts). split; [done|]. split.
  - intros h. by rewrite Hin, fmap_app, elem_of_app, Hfst.
  - intros h s r [Hs|Hs]%elem_of_app Hr Heq; [|by eapply Hright]. eapply Hstored; [by apply Hok|done|done].
Qed.

(** Whether the transaction of a trigger counts *)
Definition succeeds (n : Z) (t : EthereumTrigger) : bool :=
  match t with
  | TriggerCall call => match transaction_for_call_succeeded (fc_with_calls c n) call with Ok b => b | _ => false end
  | _ => true
  end.

Lemma transactions_found (n : Z) (hashes : gset Bytes) :
  (from <= n <= to)%Z -> (forall h, h ∈ hashes -> h ∈ map rc_transaction_hash (fc_receipts c n)) ->
  let txs := List.filter (fun tx => bool_decide (tx_hash tx ∈ hashes)) (lb_transactions (fc_light c n)) in
  length txs = size hashes /\ (forall h, h ∈ map tx_hash txs <-> h ∈ hashes).
Proof.
  intros Hn Hh txs. rewrite <-(ck_transactions _ _ _ Hchain n Hn) in Hh. pose proof (ck_transactions_once _ _ _ Hchain n Hn) as Hnd.
  rewrite <-(ck_transactions _ _ _ Hchain n Hn) in Hnd.
  assert (Hel : forall h, h ∈ map tx_hash txs <-> h ∈ hashes).
  { intros h. unfold txs. rewrite list_elem_of_In, in_map_iff. split.
    - intros (tx & <- & [_ Hin]%filter_In). by apply bool_decide_eq_true in Hin.
    - intros Hin. pose proof (Hh h Hin) as (tx & Heq & Htx)%list_elem_of_fmap. exists tx. split; [done|]. apply filter_In.
      split; [by apply list_elem_of_In|]. apply bool_decide_eq_true. by rewrite <-Heq. }
  split; [|done]. rewrite <-(length_map tx_hash txs). unfold size, set_size. simpl. apply Permutation_length, NoDup_Permutation.
  - unfold txs. clear -Hnd. induction (lb_transactions (fc_light c n)) as [|tx l IH]; [apply NoDup_nil_2|]. cbn [List.filter].
    apply NoDup_cons in Hnd as [Hx Hnd]. case_bool_decide; [|by apply IH]. cbn [map]. apply NoDup_cons. split; [|by apply IH].
    intros (tx' & Heq & Htx')%list_elem_of_fmap. apply Hx, list_elem_of_fmap. exists tx'. split; [done|].
    apply list_elem_of_In, filter_In, proj1, list_elem_of_In in Htx'. done.
  - apply NoDup_elements.
  - intros h. by rewrite Hel, elem_of_elements.
Qed.

Lemma light_ptr {E} n : (from <= n <= to)%Z -> light_block_ptr (E:=E) (fc_light c n) = Ok (fc_ptr n).
Proof.
  intros Hn. unfold light_block_ptr, ptr_from_u64. rewrite (ck_hash _ _ _ Hchain n Hn), (ck_number _ _ _ Hchain n Hn). simpl.
  destruct (ck_range _ _ _ Hchain) as [_ Hmax]. destruct (Z.leb_spec n i32_max); [done|lia].
Qed.

Lemma hash_h256 {E} n : (from <= n <= to)%Z -> hash_as_h256 (E:=E) (fc_hash c n) = Ok (fc_hash c n).
Proof. intros Hn. unfold hash_as_h256. by rewrite bool_decide_true by by rewrite (ck_hash_length _ _ _ Hchain n Hn). Qed.

Lemma calls_hashes n (calls : list EthereumCall) :
  (from <= n <= to)%Z -> (forall call, call ∈ calls -> call ∈ fc_calls c n) ->
  exists hashes, mapM call_transaction_hash calls = Some hashes /\
    (forall h, h ∈ hashes <-> exists call, call ∈ calls /\ call_transaction_hash call = Some h) /\
    (forall h, h ∈ hashes -> h ∈ map rc_transaction_hash (fc_receipts c n)).
Proof.
  intros Hn. induction calls as [|call calls IH]; intros Hin.
  { exists []. split_and!; [done| |by intros h ?%not_elem_of_nil]. intros h. split; [by intros ?%not_elem_of_nil|].
    by intros (call & ?%not_elem_of_nil & _). }
  destruct IH as (hashes & Hm & Hiff & Hrc); [intros x Hx; apply Hin; by right|].
  destruct (call_success n call Hn) as (r & Hr & Ht & _); [apply Hin; by left|]. exists (rc_transaction_hash r :: hashes).
  split; [simpl; by rewrite Ht, Hm|]. split.
  - intros h. rewrite elem_of_cons, Hiff. split.
    + intros [->|(x & Hx & Hh)]; [exists call; split; [by left|done]|exists x; split; [by right|done]].
    + intros (x & [->|Hx]%elem_of_cons & Hh); [left; congruence|right; by exists x].
  - intros h [->|Hh]%elem_of_cons; [by apply list_elem_of_fmap_2|by apply Hrc].
Qed.

Lemma success_lookup n sts r :
  right_statuses n sts -> r ∈ fc_receipts c n -> rc_transaction_hash r ∈ sts.*1 ->
  (collect_map (map (fun x => (x.1, evaluate_transaction_status x.2)) sts) : gmap Bytes bool) !! rc_transaction_hash r =
    Some (evaluate_transaction_status (rc_status r)).
Proof.
  intros Hright Hr ([h s] & Heq & Hin)%list_elem_of_fmap. simpl in Heq. set (success := collect_map _).
  destruct (success !! rc_transaction_hash r) as [b|] eqn:Hb.
  - apply collect_map_Some, list_elem_of_fmap in Hb as ([h' s'] & [= Hh' ->] & Hin'). by rewrite (Hright h' s' r Hin' Hr Hh').
  - exfalso. apply eq_None_not_Some in Hb. apply Hb, collect_map_is_Some. exists (evaluate_transaction_status s).
    apply list_elem_of_fmap. exists (h, s). by subst h.
Qed.

Lemma filter_calls_spec n (ts : list EthereumTrigger) :
  (from <= n <= to)%Z -> (forall call, TriggerCall call ∈ ts -> call ∈ fc_calls c n) ->
  filter_call_triggers_from_unsuccessful_transactions rpc store (mkBwt (Final (fc_light c n)) ts) =
    Ok (mkBwt (Final (fc_light c n)) (List.filter (succeeds n) ts)).
Proof.
  intros Hn Hts. unfold filter_call_triggers_from_unsuccessful_transactions. cbn [trigger_data bwt_block].
  case_bool_decide as Hnil; [by rewrite Hnil|].
  set (calls := omap (fun t => match t with TriggerCall c0 => Some c0 | _ => None end) ts).
  assert (Hcalls : forall call, call ∈ calls <-> TriggerCall call ∈ ts).
  { intros call. unfold calls. rewrite list_elem_of_omap. split.
    - intros (t & Ht & Heq). destruct t; [done| |done]. by injection Heq as ->.
    - intros H. by exists (TriggerCall call). }
  destruct (calls_hashes n calls Hn) as (hashes & -> & Hiff & Hrc); [intros call ?%Hcalls; by apply Hts|]. cbn [ok_or bind_result].
  case_bool_decide as Hno.
  { do 2 f_equal. rewrite (filter_same _ (fun _ => true)); [by rewrite filter_all|]. intros t Ht. destruct t as [|call|]; [done| |done].
    assert (Hc : call ∈ calls) by by apply Hcalls. destruct (call_success n call Hn (Hts _ Ht)) as (r & _ & Hh & _).
    assert (Hin : rc_transaction_hash r ∈ hashes) by (apply Hiff; by exists call). set_solver. }
  destruct (transactions_found n (list_to_set hashes) Hn) as [Hlen Hel]; [intros h Hh%elem_of_list_to_set; by apply Hrc|].
  cbv zeta in Hlen, Hel. rewrite Hlen, Nat.eqb_refl. cbn [negb]. rewrite light_ptr by done. cbn [bind_result fc_ptr bp_hash].
  rewrite hash_h256 by done. cbn [bind_result].
  destruct (nk_stored_receipts _ _ _ _ _ Hnode n Hn) as (stored & -> & Hstored). cbn [bind_result].
  match goal with |- context [transaction_statuses rpc ?t _] => set (txs := t) in * end.
  destruct (statuses_spec n txs (collect_map stored) Hn) as (sts & -> & Hsts & Hright).
  { intros tx Htx. apply Hrc, (elem_of_list_to_set (C:=gset Bytes)), Hel. by apply list_elem_of_fmap_2. }
  { intros h s Hs r Hr Heq. apply collect_map_Some in Hs. by eapply Hstored. }
  cbn [bind_result]. set (success := collect_map _).
  assert (Hsuccess : forall r, r ∈ fc_receipts c n -> rc_transaction_hash r ∈ hashes ->
    success !! rc_transaction_hash r = Some (evaluate_transaction_status (rc_status r))).
  { intros r Hr Hh. apply (success_lookup n); [done..|]. apply Hsts, Hel. by apply elem_of_list_to_set. }
  rewrite (proj2 (forallb_forall _ _)).
  - cbn [negb]. do 2 f_equal. apply filter_same. intros t Ht. destruct t as [|call|]; [done| |done]. cbn [succeeds].
    destruct (call_success n call Hn (Hts _ Ht)) as (r & Hr & Hh & ->). rewrite Hh. cbn. rewrite Hsuccess; [done..|].
    apply Hiff. exists call. split; [by apply Hcalls|done].
  - intros h Hh%list_elem_of_In%elem_of_elements%elem_of_list_to_set. apply bool_decide_eq_true.
    pose proof (Hrc h Hh) as (r & -> & Hr)%list_elem_of_fmap. rewrite Hsuccess by done. by eexists.
Qed.

(** ** Loading the blocks of triggers *)

(** The trigger is in block [n]. *)
Definition placed (n : Z) (t : EthereumTrigger) : Prop :=
  trigger_block_number (E:=AdapterError) t = Ok n /\ trigger_block_hash (E:=AdapterError) t = Ok (fc_hash c n).

Lemma scanned_placed (f : TFilter) receipts n t t' :
  (from <= n <= to)%Z -> happens n t -> scanned_as f receipts t t' -> placed n t'.
Proof.
  intros Hn Hh Hs. unfold placed. destruct Hh as [r l Hr Hl|call Hc| |call Hc Hal]; simpl in Hs.
  - destruct t' as [| |l' o]; [done..|]. destruct Hs as [<- _]. destruct (ck_log _ _ _ Hchain n r l Hn Hr Hl) as (Hb & Hh & _). simpl.
    rewrite Hb, Hh. simpl. destruct (ck_range _ _ _ Hchain) as [_ Hmax]. destruct (Z.leb_spec n i32_max); [done|lia].
  - subst t'. destruct (ck_call _ _ _ Hchain n call Hn Hc) as (Hb & Hh & _). simpl. by rewrite Hb, Hh.
  - subst t'. simpl. by rewrite hash_h256.
  - subst t'. simpl. by rewrite hash_h256.
Qed.

Definition in_block (n : Z) (t : EthereumTrigger) : bool :=
  match trigger_block_number (E:=AdapterError) t with Ok m => (m =? n)%Z | _ => false end.

Lemma placed_in_block n m t : placed n t -> in_block m t = (n =? m)%Z.
Proof. intros [H _]. unfold in_block. by rewrite H. Qed.

Section Loading.
Context (ts : list EthereumTrigger) (Hplaced : forall t, t ∈ ts -> exists n, (from <= n <= to)%Z /\ placed n t).

Lemma trigger_hashes_spec :
  exists hs, try_map (E:=AdapterError) trigger_block_hash ts = Ok hs /\
    forall h, h ∈ hs <-> exists n t, (from <= n <= to)%Z /\ t ∈ ts /\ placed n t /\ h = fc_hash c n.
Proof.
  induction ts as [|t l IH].
  { exists []. split; [done|]. intros h. split; [by intros ?%not_elem_of_nil|]. by intros (n & t & _ & ?%not_elem_of_nil & _). }
  destruct IH as (hs & Hhs & Hiff); [intros t' Ht'; apply Hplaced; by right|].
  destruct (Hplaced t) as (n & Hn & Hp); [by left|]. pose proof Hp as [_ Hh]. exists (fc_hash c n :: hs). cbn [try_map]. rewrite Hh. cbn [bind_result]. rewrite Hhs.
  split; [done|]. intros h. rewrite elem_of_cons, Hiff. split.
  - intros [->|(m & t' & Hm & Ht' & Hrest)]; [exists n, t; split; [done|]; split; [by left|done]|].
    exists m, t'. split; [done|]. split; [by right|done].
  - intros (m & t' & Hm & [->|Ht']%elem_of_cons & Hp' & ->); [left|right; by exists m, t'].
    destruct Hp' as [Hp' _], Hp as [Hp _]. congruence.
Qed.

Lemma push_triggers_spec (m : gmap Z (list EthereumTrigger)) :
  exists m', try_fold push_trigger m ts = Ok m' /\
    forall n, m' !! n = if bool_decide (List.filter (in_block n) ts = []) then m !! n
                        else Some (default [] (m !! n) ++ List.filter (in_block n) ts).
Proof.
  revert m. induction ts as [|t l IH]; intros m; [by exists m|].
  destruct (Hplaced t) as (n & Hn & Hp); [by left|]. cbn [try_fold].
  assert (Hpush : push_trigger m t = Ok (<[n := default [] (m !! n) ++ [t]]> m)) by (unfold push_trigger; by rewrite (proj1 Hp)).
  rewrite Hpush. cbn [bind_result].
  destruct (IH (fun t' Ht' => Hplaced t' (list_elem_of_further _ _ _ Ht')) (<[n := default [] (m !! n) ++ [t]]> m)) as (m' & -> & Hm').
  exists m'. split; [done|]. intros k. rewrite Hm'. cbn [List.filter]. rewrite (placed_in_block n k t Hp). destruct (decide (n = k)) as [->|Hne].
  - rewrite Z.eqb_refl, lookup_insert_eq. rewrite (bool_decide_false (t :: _ = [])) by done.
    case_bool_decide as Hnil; [by rewrite Hnil|]. simpl. by rewrite <-app_assoc.
  - rewrite (proj2 (Z.eqb_neq n k)) by done. by rewrite lookup_insert_ne.
Qed.

End Loading.

Lemma load_blocks_spec (hashes : gset Bytes) :
  (forall h, h ∈ hashes -> exists n, (from <= n <= to)%Z /\ h = fc_hash c n) ->
  exists ks new, load_blocks rpc store hashes = Ok (map (fc_light c) ks, new) /\ NoDup ks /\
    forall k, k ∈ ks <-> (from <= k <= to)%Z /\ fc_hash c k ∈ hashes.
Proof.
  intros Hh. unfold load_blocks. destruct (nk_stored _ _ _ _ _ Hnode (elements hashes)) as (ns & -> & Hnd & Hns).
  set (missing := List.filter _ (elements hashes)).
  assert (Hmiss : forall h, h ∈ missing <-> h ∈ hashes /\ forall n, n ∈ ns -> fc_hash c n <> h).
  { intros h. unfold missing. rewrite list_elem_of_In, filter_In, <-list_elem_of_In, elem_of_elements, negb_true_iff, existsb_false_forall.
    rewrite Forall_fmap, Forall_forall. apply and_iff_compat_l. split.
    - intros H n Hin Heq. specialize (H n Hin). simpl in H. apply bool_decide_eq_false in H. apply H. rewrite (ck_hash _ _ _ Hchain) by by apply Hns. by f_equal.
    - intros H n Hin. simpl. apply bool_decide_eq_false. rewrite (ck_hash _ _ _ Hchain) by by apply Hns. intros [= Heq]. by apply (H n). }
  assert (Hmnd : NoDup missing) by (unfold missing; apply NoDup_ListNoDup, List.NoDup_filter, NoDup_ListNoDup, NoDup_elements).
  assert (Hms : exists ms, try_map (rpc_block rpc) missing = Ok (map (fc_light c) ms) /\ map (fc_hash c) ms = missing /\
    forall m, m ∈ ms -> (from <= m <= to)%Z).
  { assert (Hin : forall h, h ∈ missing -> exists n, (from <= n <= to)%Z /\ h = fc_hash c n) by (intros h [Hx _]%Hmiss; by apply Hh).
    clearbody missing. clear -Hin Hnode. induction missing as [|h l IH]; [exists []; split_and!; [done..|by intros m ?%not_elem_of_nil]|].
    destruct IH as (ms & Hms & Hmap & Hr); [intros h' Hh'; apply Hin; by right|]. destruct (Hin h) as (n & Hn & ->); [by left|].
    exists (n :: ms). cbn [try_map map]. rewrite (nk_block _ _ _ _ _ Hnode n Hn). cbn [bind_result]. rewrite Hms, Hmap. split_and!; [done..|].
    intros m [->|Hm]%elem_of_cons; [done|by apply Hr]. }
  destruct Hms as (ms & -> & Hmap & Hmr). cbn [bind_result]. rewrite <-map_app.
  match goal with |- context [sort_by ?leb ?l] => destruct (Permutation_map_inv (fc_light c) (ns ++ ms) (sort_by_perm leb l)) as (ks & -> & Hperm) end.
  exists ks. eexists. split; [done|]. split.
  - rewrite <-Hperm. apply NoDup_app. split_and!; [done| |by rewrite <-Hmap in Hmnd; eapply NoDup_fmap_1].
    intros n Hn Hm. assert (Hin : fc_hash c n ∈ missing) by (rewrite <-Hmap; by apply list_elem_of_fmap_2).
    apply Hmiss in Hin as [_ Hin]. by apply (Hin n).
  - intros k. rewrite <-Hperm, elem_of_app. split.
    + intros [Hk|Hk]; [by destruct (Hns k Hk) as [? ?%elem_of_elements]|]. split; [by apply Hmr|].
      apply Hmiss. rewrite <-Hmap. by apply list_elem_of_fmap_2.
    + intros [Hk Hin]. destruct (decide (k ∈ ns)) as [|Hno]; [by left|right].
      assert (Hm : fc_hash c k ∈ missing).
      { apply Hmiss. split; [done|]. intros n Hn Heq. apply Hno. by rewrite <-(ck_hash_inj _ _ _ Hchain n k (proj1 (Hns n Hn)) Hk Heq). }
      rewrite <-Hmap in Hm. apply list_elem_of_fmap in Hm as (m & Heq & Hm).
      by rewrite (ck_hash_inj _ _ _ Hchain k m Hk (Hmr m Hm) Heq).
Qed.

Definition scanned_block (ts : list EthereumTrigger) (k : Z) : BlockWithTriggers BlockFinality EthereumTrigger :=
  mkBwt (Final (fc_light c k)) (sort_triggers ts).

Lemma take_triggers_spec (T : Z -> list EthereumTrigger) ks m bs :
  NoDup ks -> (forall k, k ∈ ks -> (from <= k <= to)%Z /\ m !! k = Some (T k)) ->
  exists m', try_fold take_triggers (m, bs) (map (fc_light c) ks) = Ok (m', bs ++ map (fun k => scanned_block (T k) k) ks).
Proof.
  revert m bs. induction ks as [|k ks IH]; intros m bs Hnd Hk; cbn [map try_fold]; [exists m; by rewrite app_nil_r|].
  apply NoDup_cons in Hnd as [Hnot Hnd]. destruct (Hk k) as [Hr Hm]; [by left|].
  assert (Htake : take_triggers (m, bs) (fc_light c k) = Ok (delete k m, bs ++ [scanned_block (T k) k])).
  { simpl. unfold light_number. rewrite (ck_number _ _ _ Hchain k Hr). cbn [expect bind_result].
    destruct (ck_range _ _ _ Hchain) as [_ Hmax]. destruct (Z.leb_spec k i32_max); [|lia]. simpl. by rewrite Hm. }
  rewrite Htake. cbn [bind_result]. destruct (IH (delete k m) (bs ++ [scanned_block (T k) k]) Hnd) as (m' & ->).
  - intros k' Hk'. destruct (Hk k') as [Hr' Hm']; [by right|]. split; [done|]. rewrite lookup_delete_ne; [done|by intros ->].
  - exists m'. by rewrite <-app_assoc.
Qed.

(** ** The blocks of a scan *)

Definition final_block (check_status : bool) (ts : list EthereumTrigger) (k : Z) : BlockWithTriggers BlockFinality EthereumTrigger :=
  let triggers := sort_triggers (List.filter (in_block k) ts) in
  mkBwt (Final (fc_light c k)) (if check_status then List.filter (succeeds k) triggers else triggers).

Lemma sorted_blocks (B : Z -> BlockWithTriggers BlockFinality EthereumTrigger) ks :
  (forall k, k ∈ ks -> block_key (B k) = k) -> NoDup ks ->
  exists ks', sort_by (fun a b => (block_key a <=? block_key b)%Z) (map B ks) = map B ks' /\ StronglySorted Z.lt ks' /\
    forall k, k ∈ ks' <-> k ∈ ks.
Proof.
  intros Hkey Hnd. pose proof (sort_by_strongly (fun a b => (block_key a <=? block_key b)%Z) (map B ks)) as Hs.
  match type of Hs with context [sort_by ?leb ?l] => destruct (Permutation_map_inv B ks (sort_by_perm leb l)) as (ks' & Heq & Hperm) end.
  rewrite Heq in Hs |- *. exists ks'. split; [done|]. split; [|intros k; by rewrite Hperm].
  rewrite Hperm in Hnd. assert (Hkey' : forall k, k ∈ ks' -> block_key (B k) = k) by (intros k Hk; apply Hkey; by rewrite Hperm).
  specialize (Hs ltac:(intros; lia) ltac:(intros; lia)). clear -Hs Hnd Hkey'.
  induction ks' as [|k ks' IH]; [constructor|]. apply NoDup_cons in Hnd as [Hk Hnd]. cbn [map] in Hs. apply StronglySorted_inv in Hs as [Hs Hle].
  constructor; [apply IH; [done|done|intros k' Hk'; apply Hkey'; by right]|]. apply Forall_forall. intros k' Hk'.
  rewrite Forall_fmap, Forall_forall in Hle. specialize (Hle k' Hk'). simpl in Hle.
  rewrite (Hkey' k), (Hkey' k') in Hle by (by left) || (by right). assert (k <> k') by by intros ->. lia.
Qed.

Lemma final_block_key check_status ts k : (from <= k <= to)%Z -> block_key (final_block check_status ts k) = k.
Proof. intros Hk. unfold block_key. simpl. by rewrite (ck_number _ _ _ Hchain k Hk). Qed.

(** The checks at the end pass: there is a block, and all are in the range. *)
Lemma in_range_ok check_status ts ks (new : list LightEthereumBlock) :
  (forall k, k ∈ ks -> (from <= k <= to)%Z) -> to ∈ ks ->
  (let blocks := map (final_block check_status ts) ks in
   let? first := expect (head blocks) in
   let? last := expect (last blocks) in
   if (block_key first <? from)%Z then Err (BlockBeforeRange (block_key first) from) else
   if (to <? block_key last)%Z then Err (BlockAfterRange (block_key last) to) else
   Ok (blocks, new)) = Ok (map (final_block check_status ts) ks, new).
Proof.
  intros Hks Hto. destruct ks as [|k ks]; [by apply not_elem_of_nil in Hto|]. cbv zeta. cbn [map head expect bind_result].
  change (final_block check_status ts k :: map (final_block check_status ts) ks) with (map (final_block check_status ts) (k :: ks)).
  destruct (last (k :: ks)) as [l|] eqn:Hl; [|by apply last_None in Hl]. rewrite fmap_last, Hl. cbn [fmap option_fmap option_map expect bind_result].
  assert (Hlk : (from <= l <= to)%Z) by (apply Hks; by apply last_Some_elem_of). assert (Hk : (from <= k <= to)%Z) by (apply Hks; by left).
  rewrite !final_block_key by done. destruct (Z.ltb_spec k from); [lia|]. destruct (Z.ltb_spec to l); [lia|]. done.
Qed.

Section Blocks.
Context (ts : list EthereumTrigger) (Hplaced : forall t, t ∈ ts -> exists n, (from <= n <= to)%Z /\ placed n t).
Context (Hcalls : forall call, TriggerCall call ∈ ts -> exists n, (from <= n <= to)%Z /\ call ∈ fc_calls c n).

Lemma check_blocks (check_status : bool) ks :
  (forall k, k ∈ ks -> (from <= k <= to)%Z) ->
  (if check_status then try_map (filter_call_triggers_from_unsuccessful_transactions rpc store) (map (fun k => scanned_block (List.filter (in_block k) ts) k) ks)
   else Ok (map (fun k => scanned_block (List.filter (in_block k) ts) k) ks)) = Ok (map (final_block check_status ts) ks).
Proof.
  intros Hks. destruct check_status; [|done]. induction ks as [|k ks IH]; [done|]. cbn [map try_map].
  assert (Hk : (from <= k <= to)%Z) by (apply Hks; by left). 
  assert (Hf : filter_call_triggers_from_unsuccessful_transactions rpc store (scanned_block (List.filter (in_block k) ts) k) =
    Ok (final_block true ts k)); [apply (filter_calls_spec k _ Hk)|].
  - intros call Hc. unfold sort_triggers in Hc. rewrite sort_by_perm in Hc. apply list_elem_of_In, filter_In in Hc as [Hc Hin].
    apply list_elem_of_In in Hc. destruct (Hcalls call Hc) as (n & Hn & Hcn). destruct (ck_call _ _ _ Hchain n call Hn Hcn) as (Hnum & _).
    unfold in_block in Hin. simpl in Hin. assert (n = k) as <- by lia. done.
  - rewrite Hf. cbn [bind_result]. rewrite IH; [done|]. intros k' Hk'. apply Hks. by right.
Qed.

(** The triggers by block, with an entry for the last block *)
Lemma by_block_lookup (m : gmap Z (list EthereumTrigger)) k :
  (forall n, m !! n = if bool_decide (List.filter (in_block n) ts = []) then None else Some (List.filter (in_block n) ts)) ->
  k = to \/ (exists t, t ∈ ts /\ placed k t) ->
  (match m !! to with Some _ => m | None => <[to := []]> m end) !! k = Some (List.filter (in_block k) ts).
Proof.
  intros Hm Hk. destruct (decide (k = to)) as [->|Hne].
  - rewrite (Hm to). case_bool_decide as Hnil; [rewrite lookup_insert_eq; by rewrite Hnil|]. rewrite (Hm to). by rewrite bool_decide_false.
  - destruct Hk as [|(t & Ht & Hp)]; [done|].
    assert (Hsome : m !! k = Some (List.filter (in_block k) ts)).
    { rewrite (Hm k). rewrite bool_decide_false; [done|]. intros Hnil.
      assert (Hin : t ∈ List.filter (in_block k) ts); [|rewrite Hnil in Hin; by apply not_elem_of_nil in Hin].
      apply list_elem_of_In, filter_In. split; [by apply list_elem_of_In|]. rewrite (placed_in_block k k t Hp). lia. }
    destruct (m !! to); [done|]. by rewrite lookup_insert_ne.
Qed.

Lemma blocks_of_triggers (f : TFilter) fuel receipts check_status :
  scan_range rpc env fuel from to f receipts = Some (Ok ts) ->
  exists ks new, blocks_with_triggers rpc store env fuel from to f receipts check_status =
      Some (Ok (map (final_block check_status ts) ks, new)) /\
    StronglySorted Z.lt ks /\ forall k, k ∈ ks <-> (from <= k <= to)%Z /\ (k = to \/ exists t, t ∈ ts /\ placed k t).
Proof.
  intros Hscan. unfold blocks_with_triggers. rewrite Hscan. cbn [bind_fuel]. destruct (ck_range _ _ _ Hchain) as [Hr _].
  assert (Hto : (from <= to <= to)%Z) by lia. rewrite (nk_block_hash _ _ _ _ _ Hnode to Hto). cbn [bind_result ok_or].
  destruct (trigger_hashes_spec ts Hplaced) as (hs & -> & Hhs). cbn [bind_result].
  destruct (push_triggers_spec ts Hplaced ∅) as (m & -> & Hm). cbn [bind_result].
  assert (Hhash : forall k, (from <= k <= to)%Z ->
    fc_hash c k ∈ ({[fc_hash c to]} ∪ list_to_set hs : gset Bytes) <-> k = to \/ exists t, t ∈ ts /\ placed k t).
  { intros k Hk. rewrite elem_of_union, elem_of_singleton, elem_of_list_to_set, Hhs. split.
    - intros [Heq|(n & t & Hn & Ht & Hp & Heq)]; [left; by apply (ck_hash_inj _ _ _ Hchain)|right].
      rewrite (ck_hash_inj _ _ _ Hchain k n Hk Hn Heq). by exists t.
    - intros [->|(t & Ht & Hp)]; [by left|right; by exists k, t]. }
  destruct (load_blocks_spec ({[fc_hash c to]} ∪ list_to_set hs)) as (ks & new & -> & Hnd & Hks).
  { intros h [->%elem_of_singleton|Hh%elem_of_list_to_set]%elem_of_union; [by exists to|].
    apply Hhs in Hh as (n & t & Hn & _ & _ & ->). by exists n. }
  cbn [bind_result]. match goal with |- context [try_fold take_triggers (?m0, []) _] => destruct (take_triggers_spec (fun k => List.filter (in_block k) ts) ks m0 []) as (m' & ->) end.
  { done. }
  { intros k Hk. apply Hks in Hk as [Hk Hin]. split; [done|]. apply by_block_lookup; [|by apply Hhash].
    intros n. rewrite Hm, lookup_empty. done. }
  cbn [bind_result app]. rewrite check_blocks by (intros k Hk; by apply Hks). cbn [bind_result].
  destruct (sorted_blocks (final_block check_status ts) ks) as (ks' & -> & Hsort & Hks'); [intros k Hk; apply final_block_key; by apply Hks|done|].
  assert (Hin : forall k, k ∈ ks' <-> (from <= k <= to)%Z /\ (k = to \/ exists t, t ∈ ts /\ placed k t)).
  { intros k. rewrite Hks', Hks. split; intros [Hk Hx]; (split; [done|]); by apply Hhash. }
  exists ks', new. split; [|done]. f_equal. apply in_range_ok; [intros k Hk; by apply Hin|]. apply Hin. split; [done|by left].
Qed.

End Blocks.

(** ** Scans are complete *)

Lemma occurs_happens n t :
  (from <= n <= to)%Z -> occurs (fc_with_calls c n) (fc_calls c n) t <-> happens n t /\ succeeds n t = true.
Proof.
  intros Hn. split.
  - intros [r l Hr Hl|call Hc Hal Hok|ptr Hp|call ptr Hc Hal Hp]; simpl.
    + split; [by constructor|done].
    + split; [by constructor|]. by rewrite Hok.
    + change (light_block_ptr (E:=EthError) (fc_light c n) = Ok ptr) in Hp. rewrite light_ptr in Hp by done. injection Hp as <-. split; [constructor|done].
    + change (light_block_ptr (E:=EthError) (fc_light c n) = Ok ptr) in Hp. rewrite light_ptr in Hp by done. injection Hp as <-. split; [by constructor|done].
  - intros [[r l Hr Hl|call Hc Hal| |call Hc Hal] Hok]; simpl in Hok.
    + by constructor.
    + constructor; [done..|]. by destruct (transaction_for_call_succeeded _ _) as [[]| |].
    + constructor. apply (light_ptr (E:=EthError) n Hn).
    + constructor; [done..|]. apply (light_ptr (E:=EthError) n Hn).
Qed.

Lemma scanned_succeeds (f : TFilter) receipts n t t' : scanned_as f receipts t t' -> succeeds n t' = succeeds n t.
Proof. unfold scanned_as. destruct t as [| |l [r|]], t' as [| |l' o]; intros H; simplify_eq; done. Qed.

(** What a data source processes is of interest in the range. *)
Lemma decoded_in_scope (f : TFilter) dss tps ds t m n :
  built f dss tps -> has_address ds -> ds ∈ dss ->
  bf_trigger_every_block (tf_block f) = false \/ bf_contract_addresses (tf_block f) = ∅ ->
  (from <= n <= to)%Z -> aligned_call t -> match_and_decode ds t (fc_light c n) = Ok (Some m) -> in_scope f t.
Proof.
  intros Hbuilt Haddr Hds Hmix Hn Hal Hm. destruct (built_starts _ _ _ Hbuilt) as [Hcall Hblock _].
  pose proof (decoded_after_start _ _ _ _ _ Hm (ck_number _ _ _ Hchain n Hn)) as Hstart.
  pose proof (decoded_is_wanted _ _ _ _ _ _ _ (built_inv _ _ _ Hbuilt) Haddr Hds Hal Hm) as Hw.
  pose proof (decoded_is_handled _ _ _ _ Hm) as [Ha Hh]. destruct t as [p [|a]|call|l r]; simpl; [done| | |done].
  - split; [destruct Hmix as [|Hno]; [done|]; destruct Hw as [b Hb]; rewrite Hno in Hb; set_solver|].
    destruct Hh as (h & Hin & Hf). destruct Haddr as [[a' Ha']|[_ Hno]]; [|rewrite Hno in Hin; by apply not_elem_of_nil in Hin].
    unfold matches_trigger_address in Ha. rewrite Ha' in Ha. apply bool_decide_eq_true in Ha as <-.
    destruct (Hblock ds a') as (b & Hb & Hle); [done|done|by exists h|]. exists b. split; [done|lia].
  - destruct Hh as (_ & h & Hin & _). destruct Haddr as [[a' Ha']|[Hno _]]; [|rewrite Hno in Hin; by apply not_elem_of_nil in Hin].
    unfold matches_trigger_address in Ha. rewrite Ha' in Ha. apply bool_decide_eq_true in Ha as <-.
    destruct (Hcall ds a' h) as (b & sigs & Hb & Hle); [done..|]. exists b, sigs. split; [done|lia].
Qed.

Lemma elem_of_final_block check_status ts k t n :
  placed n t -> t ∈ trigger_data (final_block check_status ts k) <-> t ∈ ts /\ n = k /\ (check_status = true -> succeeds k t = true).
Proof.
  intros Hp. assert (Hs : t ∈ sort_triggers (List.filter (in_block k) ts) <-> t ∈ ts /\ n = k).
  { unfold sort_triggers. rewrite sort_by_perm, list_elem_of_In, filter_In, <-list_elem_of_In, (placed_in_block n k t Hp), Z.eqb_eq. done. }
  unfold final_block. cbn [trigger_data]. destruct check_status.
  - rewrite list_elem_of_In, filter_In, <-list_elem_of_In, Hs. naive_solver.
  - rewrite Hs. naive_solver.
Qed.

Lemma final_block_triggers check_status ts k t : t ∈ trigger_data (final_block check_status ts k) -> t ∈ ts.
Proof.
  assert (Hs : t ∈ sort_triggers (List.filter (in_block k) ts) -> t ∈ ts).
  { unfold sort_triggers. rewrite sort_by_perm, list_elem_of_In, filter_In, <-list_elem_of_In. by intros []. }
  unfold final_block. cbn [trigger_data]. destruct check_status; [|done]. rewrite list_elem_of_In, filter_In, <-list_elem_of_In.
  intros [H _]. by apply Hs.
Qed.

(** C8: a scan of final blocks is complete, as long as the filter does not ask both for
    every block and for the blocks with calls of a contract.  For a range of blocks of a
    chain, a node that answers truly about them (requests for the logs of several blocks may
    be refused as too heavy), and a filter built from data sources and templates,
    [blocks_with_triggers] succeeds with a given amount of fuel.  It returns blocks of the
    range in ascending order, with the last block of the range among them.  Every log,
    successful call whose input is a selector and a whole number of words, and block of the
    range that one of the data sources processes is a trigger of its block, a log with its
    receipt where the filter asks for it; and every trigger happened in its block and has a
    handler, and with the check of transactions calls are of successful ones.  The range
    ends at a block below 2^31. *)
Theorem scan_complete f dss tps fuel receipts check_status :
  built f dss tps -> Forall has_address dss ->
  bf_trigger_every_block (tf_block f) = false \/ bf_contract_addresses (tf_block f) = ∅ ->
  (gm_edge_count (lf_graph (tf_log f)) <= fuel)%nat -> (2 * (to - from) + 1 <= Z.of_nat fuel)%Z ->
  exists ks blocks new, blocks_with_triggers rpc store env fuel from to f receipts check_status = Some (Ok (blocks, new)) /\
    map bwt_block blocks = map (fun k => Final (fc_light c k)) ks /\ StronglySorted Z.lt ks /\
    (forall k, k ∈ ks -> (from <= k <= to)%Z) /\ to ∈ ks /\
    (forall n ds t m, (from <= n <= to)%Z -> ds ∈ dss -> occurs (fc_with_calls c n) (fc_calls c n) t ->
      match_and_decode ds t (fc_light c n) = Ok (Some m) ->
      exists b t', b ∈ blocks /\ bwt_block b = Final (fc_light c n) /\ t' ∈ trigger_data b /\ scanned_as f receipts t t') /\
    (forall b t', b ∈ blocks -> t' ∈ trigger_data b ->
      exists n t, (from <= n <= to)%Z /\ bwt_block b = Final (fc_light c n) /\ happens n t /\ scanned_as f receipts t t' /\
        (check_status = true -> occurs (fc_with_calls c n) (fc_calls c n) t) /\
        ((exists ds, ds ∈ dss /\ handles ds t) \/ exists tp, tp ∈ tps /\ template_handles tp t)).
Proof.
  intros Hbuilt Haddr Hmix Hedges Hfuel.
  destruct (scan_range_spec f dss tps fuel receipts Hbuilt Hedges Hfuel) as (ts & Hscan & Hsound & Hcomplete & _).
  assert (Hplaced : forall t, t ∈ ts -> exists n, (from <= n <= to)%Z /\ placed n t).
  { intros t' (n & t & Hn & Hh & _ & Hs)%Hsound. exists n. split; [done|]. by eapply scanned_placed. }
  assert (Hcalls : forall call, TriggerCall call ∈ ts -> exists n, (from <= n <= to)%Z /\ call ∈ fc_calls c n).
  { intros call (n & t & Hn & Hh & _ & Hs)%Hsound. exists n. split; [done|]. by destruct Hh; simplify_eq/=. }
  destruct (blocks_of_triggers ts Hplaced Hcalls f fuel receipts check_status Hscan) as (ks & new & Hb & Hsort & Hks).
  destruct (ck_range _ _ _ Hchain) as [Hr _].
  exists ks. do 2 eexists. split; [exact Hb|]. split; [by rewrite map_map|]. split; [done|]. split; [intros k Hk; by apply Hks|].
  split; [apply Hks; split; [lia|by left]|]. split.
  - intros n ds t m Hn Hds [Hh Hok]%occurs_happens Hm; [|done]. rewrite Forall_forall in Haddr.
    assert (Hal : aligned_call t) by by destruct Hh.
    destruct (Hcomplete n t Hn Hh) as (t' & Ht' & Hs).
    + eapply decoded_is_wanted; [by eapply built_inv|by apply Haddr|done..].
    + eapply decoded_in_scope; [done|by apply Haddr|done..].
    + pose proof (scanned_placed _ _ _ _ _ Hn Hh Hs) as Hp. exists (final_block check_status ts n), t'.
      split; [apply list_elem_of_fmap_2, Hks; split; [done|right; by exists t']|]. split; [done|]. split; [|done].
      apply (elem_of_final_block _ _ _ _ n Hp). split_and!; [done..|]. intros _. by rewrite (scanned_succeeds _ _ _ _ _ Hs).
  - intros b t' (k & -> & Hk)%list_elem_of_fmap Ht'.
    pose proof (final_block_triggers _ _ _ _ Ht') as Hin.
    destruct (Hsound t' Hin) as (n & t & Hn & Hh & Hw & Hs). pose proof (scanned_placed _ _ _ _ _ Hn Hh Hs) as Hp.
    apply (elem_of_final_block _ _ _ _ n Hp) in Ht' as (_ & <- & Hok). exists n, t. do 4 (split; [done|]). split.
    + intros Hc. apply occurs_happens; [done|]. split; [done|]. rewrite <-(scanned_succeeds _ _ _ _ _ Hs). by apply Hok.
    + eapply wanted_is_handled; [by eapply built_inv|done].
Qed.


End Scan.
