(* ===== verification/EthExamples.v ===== *)
(** * Filters and triggers at work

    Instances for the graph of contracts and events, the hash function and the ABI, with
    which the theorems on triggers are applied to a small subgraph, and runs in which
    triggers are lost or repeated. *)

From Stdlib Require Import Strings.Byte.
From stdpp Require Import base numbers list gmap countable strings.
From S2P Require Import Prelude GraphqlAst Scalars RuntimeValue Values Names StoreTypes.
From S2P Require Import Schema BlockRange Relational DeploymentStore ChainStore Float64 PollingStream.
From S2P Require Import EthTypes EthDataSource EthFilters EthFilterProps EthAdapter EthTriggerProps.

(** ** A graph as the list of its edges *)

Definition ListGraph := list Edge.

Definition other_end (a : LogFilterNode) (e : Edge) : option LogFilterNode :=
  let '(s, t, _) := e in if decide (s = a) then Some t else if decide (t = a) then Some s else None.

#[export] Instance list_graph : GraphMap ListGraph := {|
  gm_new := [];
  gm_add_edge g a b w := (a, b, w) :: List.filter (fun e => negb (joins a b e)) g;
  gm_all_edges g := g;
  gm_edge_count g := length g;
  gm_nodes g := concat (map (fun '(s, t, _) => [s; t]) g);
  gm_neighbors g a := remove_dups (omap (other_end a) g);
  gm_remove_node g n := List.filter (fun e => negb (touches n e)) g
|}.

Lemma other_end_joins a b e : other_end a e = Some b <-> joins a b e = true.
Proof.
  destruct e as [[s t] w]. unfold other_end, joins. rewrite orb_true_iff, !andb_true_iff, !bool_decide_eq_true.
  destruct (decide (s = a)) as [->|], (decide (t = a)) as [->|]; naive_solver.
Qed.

#[export] Instance list_graph_laws : GraphMapLaws ListGraph.
Proof.
  split; simpl.
  - done.
  - done.
  - intros g a b w. exists (a, b, w). split; [|done]. apply orb_true_iff. left. by rewrite !bool_decide_true.
  - intros g n e He Ht. apply list_elem_of_In, in_concat. destruct e as [[s t] w]. exists [s; t].
    split; [apply in_map_iff; exists (s, t, w); split; [done|by apply list_elem_of_In]|]. unfold touches in Ht.
    rewrite orb_true_iff, !bool_decide_eq_true in Ht. destruct Ht as [->| ->]; simpl; auto.
  - intros g a. apply NoDup_remove_dups.
  - intros g a b. rewrite elem_of_remove_dups, list_elem_of_omap. by setoid_rewrite other_end_joins.
  - done.
Qed.

(** ** Hashes and the ABI *)

Definition pad_hash (b : Bytes) : Bytes := take 32 (b ++ replicate 32 x00).

Lemma pad_hash_length b : length (pad_hash b) = 32%nat.
Proof. unfold pad_hash. rewrite length_take, length_app, length_replicate. lia. Qed.

#[export] Instance pad_keccak : Keccak := {| keccak256 := pad_hash; keccak256_length := pad_hash_length |}.

#[export] Instance unit_codec : AbiCodec unit := {|
  parse_log _ _ _ := Some [];
  decode_input f data := if (length data mod 32 =? 0)%nat then Some (replicate (length (fn_inputs f)) tt) else None;
  decode_output f _ := Some (replicate (length (fn_outputs f)) tt);
  param_type_display := event_param_type_signature
|}.

#[export] Instance empty_context : ContextJson := {| context_to_string _ := ""; context_from_str _ := Some ∅ |}.

(** ** A subgraph *)

(** Contract 1 has handlers for an event, a function and blocks in which it is called;
    contract 2 for all blocks. *)
Definition ex_address (b : byte) : Bytes := replicate 20 b.

Definition ex_event : AbiEvent := mkAbiEvent "Set" [mkEventParam "x" (PUint 256) false].
Definition ex_function : AbiFunction := mkAbiFunction "set" [mkAbiParam "x" (PUint 256)] [] NonPayable.
Definition ex_abi : MappingABI := mkMappingABI "C" [ex_event] [ex_function].

Definition ex_mapping (blocks : list MappingBlockHandler) (calls : list MappingCallHandler) (events : list MappingEventHandler)
    : Mapping := mkMapping "ethereum/events" (0, 0, 7)%Z [ex_abi] blocks calls events.

Definition ex_ds (address : option Bytes) (m : Mapping) : DataSource :=
  mkDataSource "ethereum" None "C" (mkSource address "C" 0) m None None ex_abi.

Definition set_event (receipt : bool) : MappingEventHandler := mkEventHandler "Set(uint256)" None "handleSet" receipt.

Definition ds_one : DataSource :=
  ex_ds (Some (ex_address x01))
    (ex_mapping [mkBlockHandler "handleCalled" (Some CallFilter)] [mkCallHandler "set(uint256)" "handleCall"] [set_event false]).
Definition ds_two : DataSource := ex_ds (Some (ex_address x02)) (ex_mapping [mkBlockHandler "handleBlock" None] [] []).

Definition ex_filter : TriggerFilter ListGraph := trigger_filter_extend trigger_filter_default [ds_one; ds_two].

Lemma ex_built : built ex_filter [ds_one; ds_two] [].
Proof. apply (built_extend _ [] [] [ds_one; ds_two]), built_default. Qed.

(** A block with a transaction that calls contract 1 twice and logs the event *)
Definition ex_tx : Bytes := replicate 32 x77.
Definition ex_block_hash : Bytes := replicate 32 x55.

Definition ex_log : EthLog :=
  mkEthLog (ex_address x01) [topic0 (set_event false)] [] (Some ex_block_hash) (Some 7%Z) (Some ex_tx) (Some 0%Z) (Some 0%Z).
Definition ex_receipt : EthReceipt := mkEthReceipt ex_tx (Some ex_block_hash) (Some 1%Z) [ex_log].
Definition ex_input : Bytes := selector "set(uint256)" ++ replicate 32 x00.
Definition ex_call : EthereumCall :=
  mkEthereumCall (ex_address x09) (ex_address x01) 0 0 ex_input [] 7 ex_block_hash (Some ex_tx) 0.
Definition ex_light : LightEthereumBlock :=
  mkLightBlock (Some ex_block_hash) (Some 7%Z) (replicate 32 x54)
    [mkEthTransaction ex_tx (Some ex_block_hash) (Some 7%Z) (Some 0%Z) (Some (ex_address x09))].
Definition ex_block : EthereumBlockWithCalls := mkBlockWithCalls (mkEthereumBlock ex_light [ex_receipt]) (Some [ex_call; ex_call]).
Definition ex_block_ptr : BlockPtr := mkPtr ex_block_hash 7.

(** The log comes first, then the calls, and then the triggers for the block: one for
    each of the two calls. *)
Lemma ex_block_triggers :
  triggers_of_block ex_filter ex_block =
    Ok [TriggerLog ex_log (Some ex_receipt); TriggerCall ex_call; TriggerCall ex_call;
        TriggerBlock ex_block_ptr (WithCallTo (ex_address x01)); TriggerBlock ex_block_ptr (WithCallTo (ex_address x01));
        TriggerBlock ex_block_ptr Every].
Proof. vm_compute. reflexivity. Qed.

Lemma block_triggers_exact_witness :
  exists triggers, triggers_of_block ex_filter ex_block = Ok triggers /\
    (forall ds t m, ds ∈ [ds_one; ds_two] -> occurs ex_block [ex_call; ex_call] t ->
      match_and_decode ds t ex_light = Ok (Some m) -> t ∈ triggers) /\
    (forall t, t ∈ triggers -> occurs ex_block [ex_call; ex_call] t /\
      ((exists ds, ds ∈ [ds_one; ds_two] /\ handles ds t) \/ exists tp, tp ∈ @nil DataSourceTemplate /\ template_handles tp t)).
Proof.
  apply (block_triggers_exact ex_filter [ds_one; ds_two] [] ex_block [ex_call; ex_call] ex_block_ptr).
  - exact ex_built.
  - apply Forall_cons. split; [left; by eexists|]. apply Forall_cons. split; [left; by eexists|apply Forall_nil_2].
  - reflexivity.
  - intros c Hc. exists true. repeat (apply elem_of_cons in Hc as [->|Hc]; [vm_compute; reflexivity|]). by apply not_elem_of_nil in Hc.
  - reflexivity.
Defined.

Lemma log_queries_exact_witness :
  exists qs, eth_get_logs_filters 1 2000 (tf_log ex_filter) = Some (Ok qs) /\
    Forall (fun q => gl_event_signatures q <> [] /\ (length (gl_contracts q) <= 2000)%nat) qs /\
    forall log, existsb (query_selects log) qs = log_matches (tf_log ex_filter) log /\
      length (List.filter (query_selects log) qs) = times_queried (tf_log ex_filter) log.
Proof.
  apply (log_queries_exact ex_filter [ds_one; ds_two] []).
  - exact ex_built.
  - lia.
  - vm_compute. lia.
Defined.

Lemma triggers_sorted_witness :
  let triggers := [TriggerBlock ex_block_ptr Every; TriggerCall ex_call; TriggerLog ex_log None] in
  (forall a b, a ∈ triggers -> b ∈ triggers -> trigger_cmp (E:=unit) a b <> Panic) /\
  sort_triggers triggers ≡ₚ triggers /\ StronglySorted comes_before (sort_triggers triggers) /\
  List.filter is_block_trigger (sort_triggers triggers) = List.filter is_block_trigger triggers.
Proof.
  intros triggers. apply (triggers_sorted triggers). split.
  - repeat constructor; by eexists.
  - intros a b Ha Hb. repeat (apply elem_of_cons in Ha as [->|Ha]; [|]); [..|by apply not_elem_of_nil in Ha];
      repeat (apply elem_of_cons in Hb as [->|Hb]; [|]); try by apply not_elem_of_nil in Hb. all: simpl; try done.
    intros i i' n n' [= <-] [= <-]. lia.
Defined.

Definition ex_template : DataSourceTemplate := mkTemplate "ethereum" None "T" "C" (ds_mapping ds_one).

Lemma dynamic_data_source_roundtrip_witness :
  exists ds, from_template (fun _ => Some (ex_address x03)) ex_template ["0x03"] None 9 = Ok ds /\
    from_stored_dynamic_data_source {[ "T" := ex_template ]} (as_stored_dynamic_data_source ds) = Ok ds.
Proof.
  eexists. split; [vm_compute; reflexivity|].
  apply (dynamic_data_source_roundtrip (fun _ => Some (ex_address x03)) {[ "T" := ex_template ]} ex_template ["0x03"] None 9).
  - vm_compute. reflexivity.
  - reflexivity.
  - done.
Defined.

(** ** Departures *)

(** A node that has the block, with traces of the two calls *)
Definition ex_trace : EthTrace :=
  mkEthTrace (ActionCall (ex_address x09) (ex_address x01) 0 ex_input) (Some (ResCall [] 0)) None (Some 0%Z) (Some ex_tx) 7
    ex_block_hash.

Definition ex_rpc : EthRpc := {|
  rpc_logs _ _ q := Logs (if query_selects ex_log q then [ex_log] else []);
  rpc_traces _ _ _ := Ok [ex_trace; ex_trace];
  rpc_block_hash _ := Ok (Some ex_block_hash);
  rpc_block_ptr _ := Ok ex_block_ptr;
  rpc_block _ := Ok ex_light;
  rpc_receipt _ := Ok (Some ex_receipt)
|}.
Definition ex_bk : BlockCache := {| bk_blocks _ := []; bk_receipts _ := Ok [] |}.
Definition ex_env : AdapterEnv := mkAdapterEnv 2000 50 2000.

Definition scanned (f : TriggerFilter ListGraph) : option (result AdapterError (list EthereumTrigger)) :=
  match blocks_with_triggers ex_rpc ex_bk ex_env 10 7 7 f true true with
  | Some (Ok (blocks, _)) => Some (Ok (concat (map trigger_data blocks)))
  | Some (Err e) => Some (Err e)
  | Some Panic => Some Panic
  | None => None
  end.

(** A scan of final blocks loses triggers that the block itself has.  With a handler
    for every block and one for blocks in which a contract is called, in two data
    sources, the scan does not look for the calls, while parsing the block finds them;
    the data source would process the trigger. *)
Example called_block_missed :
  let t := TriggerBlock ex_block_ptr (WithCallTo (ex_address x01)) in
  scanned ex_filter =
    Some (Ok [TriggerLog ex_log None; TriggerCall ex_call; TriggerCall ex_call; TriggerBlock ex_block_ptr Every]) /\
  (exists triggers, triggers_of_block ex_filter ex_block = Ok triggers /\ t ∈ triggers) /\
  (exists m, match_and_decode ds_one t ex_light = Ok (Some m)).
Proof.
  split_and!; [vm_compute; reflexivity| |by eexists].
  eexists. split; [exact ex_block_triggers|]. apply list_elem_of_In. simpl. tauto.
Qed.

(** The need for a receipt is forgotten: when two data sources without an address handle
    the same event, the filter keeps the flag of the one that was added last, so that
    the first handler gets no receipt. *)
Lemma receipt_flag_overwritten {G} `{GraphMapLaws G} `{Keccak} (address : Bytes) (h h' : MappingEventHandler) :
  topic0 h = topic0 h' -> eh_receipt h = true -> eh_receipt h' = false ->
  requires_transaction_receipt (log_filter_add (G:=G) None (log_filter_add None log_filter_default h) h') (topic0 h) (Some address)
    = false.
Proof.
  intros Ht Hr Hr'. unfold requires_transaction_receipt. simpl. rewrite Ht, lookup_insert_eq, Hr'. by rewrite gm_new_edges.
Qed.

(** A log that is wanted of its contract and of all contracts is fetched by two queries,
    and becomes two triggers. *)
Lemma log_fetched_twice :
  scanned (trigger_filter_extend trigger_filter_default
             [ex_ds (Some (ex_address x01)) (ex_mapping [] [] [set_event false]); ex_ds None (ex_mapping [] [] [set_event false])]) =
    Some (Ok [TriggerLog ex_log None; TriggerLog ex_log None]).
Proof. vm_compute. reflexivity. Qed.
