(* ===== verification/EthScanExamples.v ===== *)
(** * A scan at work

    A node that answers truly about a chain, but refuses all requests for logs of more
    than one block, and the scan of two blocks on it. *)

From Stdlib Require Import Strings.Byte.
From stdpp Require Import base numbers list gmap countable strings.
From S2P Require Import Prelude GraphqlAst Scalars RuntimeValue Values Names StoreTypes.
From S2P Require Import Schema BlockRange Relational DeploymentStore ChainStore Float64 PollingStream.
From S2P Require Import EthTypes EthDataSource EthFilters EthFilterProps EthAdapter EthTriggerProps EthStarts EthStreams EthScanProps.
From S2P Require Import EthExamples.

(** ** A node for a chain *)

Definition trace_of (call : EthereumCall) : EthTrace :=
  mkEthTrace (ActionCall (call_from call) (call_to call) (call_value call) (call_input call))
    (Some (ResCall (call_output call) (call_gas_used call))) None (Some (call_transaction_index call))
    (call_transaction_hash call) (call_number call) (call_block_hash call).

Definition chain_rpc (c : FinalChain) (from to : Z) : EthRpc := {|
  rpc_logs s e q :=
    if (s <? e)%Z then TooManyLogs "query returned more than 10000 results"
    else Logs (concat (map (fun n => List.filter (fun l => query_selects l q) (fc_logs c n)) (block_range s e)));
  rpc_traces s e addresses :=
    Ok (map trace_of
          (concat (map (fun n => List.filter (fun call => bool_decide (call_to call ∈ addresses)) (fc_calls c n)) (block_range s e))));
  rpc_block_hash n := Ok (Some (fc_hash c n));
  rpc_block_ptr n := Ok (mkPtr (fc_hash c n) n);
  rpc_block h := let? n := ok_or (RpcError "no block") (List.find (fun n => bool_decide (fc_hash c n = h)) (block_range from to)) in
                 Ok (fc_light c n);
  rpc_receipt h := Ok (List.find (fun r => bool_decide (rc_transaction_hash r = h)) (concat (map (fc_receipts c) (block_range from to))))
|}.

Lemma try_from_trace_of call :
  (4 <= length (call_input call))%nat -> in_i32 (call_number call) -> try_from_trace (trace_of call) = Some call.
Proof.
  intros Hlen Hn. unfold try_from_trace. cbn -[Nat.leb wrap_i32]. rewrite (proj2 (Nat.leb_le _ _) Hlen), wrap_i32_id by done.
  by destruct call.
Qed.

(** The node meets what the scan relies on. *)
Lemma chain_rpc_ok c from to :
  chain_ok c from to -> (forall n call, (from <= n <= to)%Z -> call ∈ fc_calls c n -> (4 <= length (call_input call))%nat) ->
  node_ok c from to (chain_rpc c from to) ex_bk.
Proof.
  intros Hchain Hinput. destruct (ck_range _ _ _ Hchain) as [Hr Hmax]. split.
  - intros s e q Hs He. simpl. destruct (Z.ltb_spec s e); [right; split; [done|by eexists]|by left].
  - intros s e addresses Hs He _. eexists. split; [done|]. set (l := concat _).
    assert (Hl : forall call, call ∈ l -> try_from_trace (trace_of call) = Some call).
    { intros call (n & Hn & Hc)%elem_of_concat_range. apply list_elem_of_In, filter_In, proj1, list_elem_of_In in Hc.
      assert (Hn' : (from <= n <= to)%Z) by lia. apply try_from_trace_of; [by eapply Hinput|].
      destruct (ck_call _ _ _ Hchain n call Hn' Hc) as (-> & _). unfold in_i32, i32_max, i32_min in *. lia. }
    clearbody l. induction l as [|call l IH]; [done|]. cbn [map omap list_omap]. rewrite (Hl call) by by left.
    f_equal. apply IH. intros x Hx. apply Hl. by right.
  - done.
  - done.
  - intros n Hn. simpl. destruct (List.find _ _) as [m|] eqn:Hf.
    + apply find_some in Hf as [Hm Heq]. apply bool_decide_eq_true in Heq. apply list_elem_of_In, elem_of_block_range in Hm.
      simpl. by rewrite (ck_hash_inj _ _ _ Hchain m n Hm Hn Heq).
    + pose proof (find_none _ _ Hf n) as Hno. simpl in Hno. rewrite bool_decide_true in Hno by done.
      by discriminate Hno; apply list_elem_of_In, elem_of_block_range.
  - intros n r Hn Hrc. simpl. destruct (List.find _ _) as [r'|] eqn:Hf.
    + apply find_some in Hf as [Hin Heq]. apply bool_decide_eq_true in Heq. apply list_elem_of_In, elem_of_concat_range in Hin as (m & Hm & Hr').
      pose proof (ck_transaction_block _ _ _ Hchain m n r' r Hm Hn Hr' Hrc Heq) as ->.
      by rewrite (receipt_unique c from to Hchain n r' r).
    + pose proof (find_none _ _ Hf r) as Hno. simpl in Hno. rewrite bool_decide_true in Hno by done.
      by discriminate Hno; apply list_elem_of_In, elem_of_concat_range; exists n.
  - intros hashes. exists []. split; [done|]. split; [apply NoDup_nil_2|by intros n ?%not_elem_of_nil].
  - intros n Hn. exists []. split; [done|]. by intros h status r ?%not_elem_of_nil.
Qed.

(** ** Two blocks *)

(** The block of the examples, and an empty block after it *)
Definition next_hash : Bytes := replicate 32 x56.
Definition two_blocks : FinalChain := {|
  fc_hash n := if (n =? 7)%Z then ex_block_hash else next_hash;
  fc_block n := if (n =? 7)%Z then bc_ethereum_block ex_block
                else mkEthereumBlock (mkLightBlock (Some next_hash) (Some n) ex_block_hash []) [];
  fc_calls n := if (n =? 7)%Z then [ex_call; ex_call] else []
|}.

Lemma two_blocks_ok : chain_ok two_blocks 7 8.
Proof.
  assert (Hcase : forall n, (7 <= n <= 8)%Z -> n = 7%Z \/ n = 8%Z) by lia.
  split.
  - unfold i32_max. lia.
  - intros n [->| ->]%Hcase; done.
  - intros n [->| ->]%Hcase; done.
  - intros n [->| ->]%Hcase; done.
  - intros n m [->| ->]%Hcase [->| ->]%Hcase; done.
  - intros n [->| ->]%Hcase; done.
  - intros n [->| ->]%Hcase; repeat constructor. by intros ?%not_elem_of_nil.
  - intros n m r r' [->| ->]%Hcase [->| ->]%Hcase Hr Hr' _; try done; by apply not_elem_of_nil in Hr || apply not_elem_of_nil in Hr'.
  - intros n r [->| ->]%Hcase Hr; [by apply list_elem_of_singleton in Hr as ->|by apply not_elem_of_nil in Hr].
  - intros n r l [->| ->]%Hcase Hr Hl; [|by apply not_elem_of_nil in Hr]. apply list_elem_of_singleton in Hr as ->.
    by apply list_elem_of_singleton in Hl as ->.
  - intros n call [->| ->]%Hcase Hc; [|by apply not_elem_of_nil in Hc]. assert (call = ex_call) as -> by (cbn in Hc; set_solver).
    split_and!; [done..|]. exists ex_receipt. split; [by left|done].
Qed.

Lemma two_blocks_node : node_ok two_blocks 7 8 (chain_rpc two_blocks 7 8) ex_bk.
Proof.
  apply chain_rpc_ok; [exact two_blocks_ok|]. intros n call Hn Hc. cbn in Hc. destruct (n =? 7)%Z; [|by apply not_elem_of_nil in Hc].
  assert (call = ex_call) as -> by set_solver. vm_compute. lia.
Qed.

Definition one_filter : TriggerFilter ListGraph := trigger_filter_extend trigger_filter_default [ds_one].

Lemma one_built : built one_filter [ds_one] [].
Proof. apply (built_extend _ [] [] [ds_one]), built_default. Qed.

Lemma scan_complete_witness :
  exists ks blocks new,
    blocks_with_triggers (chain_rpc two_blocks 7 8) ex_bk ex_env 10 7 8 one_filter true true = Some (Ok (blocks, new)) /\
    map bwt_block blocks = map (fun k => Final (fc_light two_blocks k)) ks /\ StronglySorted Z.lt ks /\
    (forall k, k ∈ ks -> (7 <= k <= 8)%Z) /\ 8%Z ∈ ks /\
    (forall n ds t m, (7 <= n <= 8)%Z -> ds ∈ [ds_one] -> occurs (fc_with_calls two_blocks n) (fc_calls two_blocks n) t ->
      match_and_decode ds t (fc_light two_blocks n) = Ok (Some m) ->
      exists b t', b ∈ blocks /\ bwt_block b = Final (fc_light two_blocks n) /\ t' ∈ trigger_data b /\ scanned_as one_filter true t t') /\
    (forall b t', b ∈ blocks -> t' ∈ trigger_data b ->
      exists n t, (7 <= n <= 8)%Z /\ bwt_block b = Final (fc_light two_blocks n) /\ happens two_blocks n t /\ scanned_as one_filter true t t' /\
        (true = true -> occurs (fc_with_calls two_blocks n) (fc_calls two_blocks n) t) /\
        ((exists ds, ds ∈ [ds_one] /\ handles ds t) \/ exists tp, tp ∈ @nil DataSourceTemplate /\ template_handles tp t)).
Proof.
  apply (scan_complete (chain_rpc two_blocks 7 8) ex_bk ex_env two_blocks 7 8 two_blocks_ok two_blocks_node).
  - split; simpl; lia.
  - exact one_built.
  - apply Forall_cons. split; [left; by eexists|apply Forall_nil_2].
  - left. reflexivity.
  - vm_compute. lia.
  - simpl. lia.
Defined.

(** What the scan finds: the triggers of the first block, and the empty last block *)
Lemma two_blocks_scan :
  blocks_with_triggers (chain_rpc two_blocks 7 8) ex_bk ex_env 10 7 8 one_filter true true =
    Some (Ok ([mkBwt (Final ex_light)
                 [TriggerLog ex_log None; TriggerCall ex_call; TriggerCall ex_call;
                  TriggerBlock ex_block_ptr (WithCallTo (ex_address x01)); TriggerBlock ex_block_ptr (WithCallTo (ex_address x01))];
               mkBwt (Final (fc_light two_blocks 8)) []],
              [fc_light two_blocks 8; ex_light])).
Proof. vm_compute. reflexivity. Qed.

