(* ===== verification/Writable.v ===== *)
(** * The writer of a subgraph

    [store/postgres/src/writable.rs].  [SyncStore] passes calls on to the
    deployment store ([VersionedStore]) and repeats them while the database can
    not be reached.  [Queue] keeps requests in a bounded queue from which a
    background task executes them, and answers reads from the queued requests
    and the store.  [WritableStore] is what the rest of the node uses.

    When the database can be reached is not up to the program: [available n]
    says whether it can at the [n]-th attempt of a call, and [fuel] bounds the
    attempts that are looked at; [None] is a call that has not returned by
    then. *)

From S2P Require Import Prelude GraphqlAst Scalars RuntimeValue Values StoreTypes Schema BlockRange.
From S2P Require Import Relational DeploymentStore BoundedQueue VersionedStore Backoff.

(** ** Writing synchronously *)

Section SyncStore.
Context {D : Type} `{!VersionedStore D}.
(** [site.deployment], [ENV_VARS.store.disable_subscription_notifications], and
    whether an event can be sent *)
Context (site : DeploymentHash) (disable_notifications : bool) (can_send : StoreEvent -> bool).
Context (fuel : nat) (available : Z -> bool).

(** The deployment and the events that were sent *)
Record SyncStore := mkSync { ss_deployment : D; ss_events : list StoreEvent }.

Fixpoint retry_loop {A} (fuel : nat) (backoff : ExponentialBackoff) (f : result StoreError A)
    : option (result StoreError A) :=
  match fuel with
  | O => None
  | S fuel =>
      match (if available (bo_attempt backoff) then f else Err DatabaseUnavailable) with
      | Ok v => Some (Ok v)
      | Err DatabaseUnavailable => retry_loop fuel (next_attempt backoff).2 f
      | Err e => Some (Err e)
      | Panic => Some Panic
      end
  end.

Definition retry {A} (f : result StoreError A) : option (result StoreError A) :=
  retry_loop fuel (backoff_new BACKOFF_BASE BACKOFF_CEIL) f.

Definition try_send_store_event (s : SyncStore) (event : StoreEvent) : SyncStore :=
  if negb disable_notifications
  then if can_send event then mkSync (ss_deployment s) (ss_events s ++ [event]) else s
  else s.

Definition same_subgraph (mods : list EntityModification) (id : DeploymentHash) : bool :=
  forallb (fun md => bool_decide (subgraph_id (mod_entity_key md) = id)) mods.

Definition sync_transact_block_operations (s : SyncStore) (block_ptr_to : BlockPtr)
    (firehose_cursor : option string) (mods : list EntityModification)
    (data_sources : list StoredDynamicDataSource) (deterministic_errors : list SubgraphError)
    : option (result StoreError SyncStore) :=
  if negb (same_subgraph mods site) then Some Panic
  else retry (
    let? r := vs_transact (ss_deployment s) block_ptr_to firehose_cursor mods data_sources
                deterministic_errors in
    Ok (try_send_store_event (mkSync r.1 (ss_events s)) r.2)).

Definition sync_revert_block_operations (s : SyncStore) (block_ptr_to : BlockPtr)
    (firehose_cursor : option string) : option (result StoreError SyncStore) :=
  retry (let? r := vs_revert (ss_deployment s) block_ptr_to firehose_cursor in
         Ok (try_send_store_event (mkSync r.1 (ss_events s)) r.2)).

Definition sync_get (s : SyncStore) (key : EntityKey) (block : BlockNumber)
    : option (result StoreError (option Entity)) :=
  retry (vs_get (ss_deployment s) key block).

Definition sync_get_many (s : SyncStore) (ids_for_type : gmap EntityType (list string))
    (block : BlockNumber) : option (result StoreError (gmap EntityType (list Entity))) :=
  retry (vs_get_many (ss_deployment s) ids_for_type block).

Definition sync_load_dynamic_data_sources (s : SyncStore) (block : BlockNumber)
    : option (result StoreError (list StoredDynamicDataSource)) :=
  retry (vs_load (ss_deployment s) block).

End SyncStore.
Arguments SyncStore : clear implicits.

(** ** Requests *)

Inductive Request :=
| ReqWrite (block_ptr : BlockPtr) (firehose_cursor : option string) (mods : list EntityModification)
    (data_sources : list StoredDynamicDataSource) (deterministic_errors : list SubgraphError)
| ReqRevertTo (block_ptr : BlockPtr) (firehose_cursor : option string).

Definition request_ptr (r : Request) : BlockPtr :=
  match r with ReqWrite ptr _ _ _ _ | ReqRevertTo ptr _ => ptr end.

Definition request_cursor (r : Request) : option string :=
  match r with ReqWrite _ cursor _ _ _ | ReqRevertTo _ cursor => cursor end.

(** ** Which queued requests are visible *)

Record BlockTracker := mkTracker { bt_revert : BlockNumber; bt_block : BlockNumber }.

Definition tracker_new : BlockTracker := mkTracker BLOCK_NUMBER_MAX BLOCK_NUMBER_MAX.

Definition tracker_update (t : BlockTracker) (req : Request) : BlockTracker :=
  match req with
  | ReqWrite block_ptr _ _ _ _ =>
      mkTracker (bt_revert t) (Z.min (bt_block t) (wrap_i32 (bp_number block_ptr - 1)))
  | ReqRevertTo block_ptr _ =>
      mkTracker (Z.min (bt_revert t) (bp_number block_ptr)) (Z.min (bt_block t) (bp_number block_ptr))
  end.

Definition query_block (t : BlockTracker) : BlockNumber := bt_block t.

Definition tracker_visible (t : BlockTracker) (block_ptr : BlockPtr) : bool :=
  (bp_number block_ptr <=? bt_revert t)%Z.

(** ** Reading through the queue *)

(** [ids.iter().position(..)] and [Vec::swap_remove] *)
Definition id_position (id : string) (ids : list string) : option nat :=
  fst <$> list_find (fun x => x = id) ids.

Definition swap_remove {A} (idx : nat) (l : list A) : list A :=
  match last l with
  | None => l
  | Some x => <[idx := x]> (removelast l)
  end.

Inductive QueueOp := QWrite (e : Entity) | QRemove.

Definition mod_op (m : EntityModification) : QueueOp :=
  match m with
  | ModInsert _ data | ModOverwrite _ data => QWrite data
  | ModRemove _ => QRemove
  end.

Section QueueReads.
Context {Sem : Type} {D : Type} `{!VersionedStore D} (fuel : nat) (available : Z -> bool).
Local Abbreviation RequestQueue := (BoundedQueue Sem Request).

Definition get_step (key : EntityKey) (tracker : BlockTracker) (req : Request)
    : BlockTracker * option QueueOp :=
  let tracker := tracker_update tracker req in
  (tracker,
   match req with
   | ReqWrite block_ptr _ mods _ _ =>
       if tracker_visible tracker block_ptr
       then mod_op <$> List.find (fun emod => bool_decide (mod_entity_key emod = key)) mods
       else None
   | ReqRevertTo _ _ => None
   end).

Definition queue_get (queue : RequestQueue) (s : SyncStore D) (key : EntityKey)
    : option (result StoreError (option Entity)) :=
  let '(tracker, op) := bq_find_map queue (get_step key) tracker_new in
  match op with
  | Some (QWrite entity) => Some (Ok (Some entity))
  | Some QRemove => Some (Ok None)
  | None => sync_get fuel available s key (query_block tracker)
  end.

Definition take_mod (st : gmap EntityType (list string) * gmap EntityType (list Entity))
    (emod : EntityModification) : gmap EntityType (list string) * gmap EntityType (list Entity) :=
  let '(ids_for_type, m) := st in
  let key := mod_entity_key emod in
  match ids_for_type !! entity_type key with
  | None => st
  | Some ids =>
      match id_position (key_entity_id key) ids with
      | None => st
      | Some idx =>
          let m := match mod_entity emod with
                   | Some entity => push_group m (entity_type key) entity
                   | None => m
                   end in
          let ids := swap_remove idx ids in
          (match ids with
           | [] => delete (entity_type key) ids_for_type
           | _ => <[entity_type key := ids]> ids_for_type
           end, m)
      end
  end.

Definition get_many_step
    (st : BlockTracker * (gmap EntityType (list string) * gmap EntityType (list Entity))) (req : Request)
    : BlockTracker * (gmap EntityType (list string) * gmap EntityType (list Entity)) :=
  let tracker := tracker_update st.1 req in
  (tracker,
   match req with
   | ReqWrite block_ptr _ mods _ _ =>
       if tracker_visible tracker block_ptr then foldl take_mod st.2 mods else st.2
   | ReqRevertTo _ _ => st.2
   end).

Definition append_entities (m : gmap EntityType (list Entity)) (p : EntityType * list Entity) :=
  <[p.1 := default [] (m !! p.1) ++ p.2]> m.

Definition queue_get_many (queue : RequestQueue) (s : SyncStore D)
    (ids_for_type : gmap EntityType (list string))
    : option (result StoreError (gmap EntityType (list Entity))) :=
  let '(tracker, (ids_for_type, m)) := bq_fold queue (tracker_new, (ids_for_type, ∅)) get_many_step in
  if bool_decide (ids_for_type = ∅) then Some (Ok m)
  else
    r ← sync_get_many fuel available s ids_for_type (query_block tracker);
    Some (let? store_map := r in
          Ok (if bool_decide (store_map = ∅) then m
              else if bool_decide (m = ∅) then store_map
              else foldl append_entities m (btree_iter store_map))).

Definition dds_step (st : BlockTracker * list StoredDynamicDataSource) (req : Request)
    : BlockTracker * list StoredDynamicDataSource :=
  let tracker := tracker_update st.1 req in
  (tracker,
   match req with
   | ReqWrite block_ptr _ _ data_sources _ =>
       if tracker_visible tracker block_ptr then st.2 ++ data_sources else st.2
   | ReqRevertTo _ _ => st.2
   end).

Definition queue_load_dynamic_data_sources (queue : RequestQueue) (s : SyncStore D)
    : option (result StoreError (list StoredDynamicDataSource)) :=
  let '(tracker, queue_dds) := bq_fold queue (tracker_new, []) dds_step in
  let queue_dds := sort_by (fun a b => option_leb (dds_creation_block a) (dds_creation_block b)) queue_dds in
  r ← sync_load_dynamic_data_sources fuel available s (query_block tracker);
  Some (let? dds := r in Ok (dds ++ queue_dds)).

End QueueReads.

(** ** The queue and its background writer *)

Section Queue.
Context {Sem : Type} `{!Semaphore Sem} {D : Type} `{!VersionedStore D}.
Context (site : DeploymentHash) (disable_notifications : bool) (can_send : StoreEvent -> bool).

Definition execute (fuel : nat) (available : Z -> bool) (s : SyncStore D) (req : Request)
    : option (result StoreError (SyncStore D)) :=
  match req with
  | ReqWrite block_ptr_to firehose_cursor mods data_sources deterministic_errors =>
      sync_transact_block_operations site disable_notifications can_send fuel available s
        block_ptr_to firehose_cursor mods data_sources deterministic_errors
  | ReqRevertTo block_ptr firehose_cursor =>
      sync_revert_block_operations disable_notifications can_send fuel available s
        block_ptr firehose_cursor
  end.

Record Queue := mkWQueue {
  wq_queue : BoundedQueue Sem Request;
  wq_write_err : option StoreError;
  wq_poisoned : bool
}.

Definition queue_start (capacity : nat) : Queue := mkWQueue (with_capacity capacity) None false.

(** The error is taken out. *)
Definition check_err (q : Queue) : result StoreError unit * Queue :=
  match wq_write_err q with
  | Some err => (Err err, mkWQueue (wq_queue q) None (wq_poisoned q))
  | None => (if wq_poisoned q then Err Poisoned else Ok (), q)
  end.

Definition record_err {E} (q : Queue) (e : StoreError) : result E Queue :=
  let? cleared := bq_clear (wq_queue q) in
  Ok (mkWQueue cleared (Some e) true).

Definition with_requests (q : Queue) (requests : BoundedQueue Sem Request) : Queue :=
  mkWQueue requests (wq_write_err q) (wq_poisoned q).

(** [push] and [flush] when nothing else runs; [None] waits *)
Definition queue_push (q : Queue) (req : Request) : option (result StoreError unit * Queue) :=
  match check_err q with
  | (Ok _, q) => requests ← bq_push (wq_queue q) req; Some (Ok (), with_requests q requests)
  | (r, q) => Some (r, q)
  end.

Definition queue_flush (q : Queue) : option (result StoreError unit * Queue) :=
  requests ← bq_wait_empty (wq_queue q); Some (check_err (with_requests q requests)).

(** ** The shim that bypasses the queue *)

Inductive Writer := WriterSync | WriterAsync (q : Queue).

Definition writer_new (capacity : nat) : Writer :=
  match capacity with 0 => WriterSync | _ => WriterAsync (queue_start capacity) end.

(** What a call leaves behind: its result, the store and the writer. *)
Definition Outcome : Type := result StoreError unit * (SyncStore D * Writer).

Definition sync_outcome (s : SyncStore D) (r : result StoreError (SyncStore D)) : Outcome :=
  match r with
  | Ok s' => (Ok (), (s', WriterSync))
  | Err e => (Err e, (s, WriterSync))
  | Panic => (Panic, (s, WriterSync))
  end.

Definition queue_outcome (s : SyncStore D) (r : result StoreError unit * Queue) : Outcome :=
  (r.1, (s, WriterAsync r.2)).

Definition writer_write fuel available (s : SyncStore D) (w : Writer) (block_ptr_to : BlockPtr)
    (firehose_cursor : option string) (mods : list EntityModification)
    (data_sources : list StoredDynamicDataSource) (deterministic_errors : list SubgraphError)
    : option Outcome :=
  match w with
  | WriterSync =>
      sync_outcome s <$>
        sync_transact_block_operations site disable_notifications can_send fuel available s
          block_ptr_to firehose_cursor mods data_sources deterministic_errors
  | WriterAsync q =>
      queue_outcome s <$>
        queue_push q (ReqWrite block_ptr_to firehose_cursor mods data_sources deterministic_errors)
  end.

Definition writer_revert fuel available (s : SyncStore D) (w : Writer) (block_ptr_to : BlockPtr)
    (firehose_cursor : option string) : option Outcome :=
  match w with
  | WriterSync =>
      sync_outcome s <$>
        sync_revert_block_operations disable_notifications can_send fuel available s
          block_ptr_to firehose_cursor
  | WriterAsync q => queue_outcome s <$> queue_push q (ReqRevertTo block_ptr_to firehose_cursor)
  end.

Definition writer_flush (s : SyncStore D) (w : Writer) : option Outcome :=
  match w with
  | WriterSync => Some (Ok (), (s, WriterSync))
  | WriterAsync q => queue_outcome s <$> queue_flush q
  end.

Definition writer_get fuel available (s : SyncStore D) (w : Writer) (key : EntityKey)
    : option (result StoreError (option Entity)) :=
  match w with
  | WriterSync => sync_get fuel available s key BLOCK_NUMBER_MAX
  | WriterAsync q => queue_get fuel available (wq_queue q) s key
  end.

Definition writer_get_many fuel available (s : SyncStore D) (w : Writer)
    (ids_for_type : gmap EntityType (list string))
    : option (result StoreError (gmap EntityType (list Entity))) :=
  match w with
  | WriterSync => sync_get_many fuel available s ids_for_type BLOCK_NUMBER_MAX
  | WriterAsync q => queue_get_many fuel available (wq_queue q) s ids_for_type
  end.

Definition writer_load_dynamic_data_sources fuel available (s : SyncStore D) (w : Writer)
    : option (result StoreError (list StoredDynamicDataSource)) :=
  match w with
  | WriterSync => sync_load_dynamic_data_sources fuel available s BLOCK_NUMBER_MAX
  | WriterAsync q => queue_load_dynamic_data_sources fuel available (wq_queue q) s
  end.

(** ** The writable store *)

Record WritableStore := mkWritable {
  ws_store : SyncStore D;
  ws_block_ptr : option BlockPtr;
  ws_block_cursor : option string;
  ws_writer : Writer
}.

Definition writable_new (store : SyncStore D) (write_queue_size : nat) : WritableStore :=
  mkWritable store (vs_block_ptr (ss_deployment store)) (vs_block_cursor (ss_deployment store))
    (writer_new write_queue_size).

Definition writable_transact_block_operations fuel available (w : WritableStore)
    (block_ptr_to : BlockPtr) (firehose_cursor : option string) (mods : list EntityModification)
    (data_sources : list StoredDynamicDataSource) (deterministic_errors : list SubgraphError)
    : option (result StoreError unit * WritableStore) :=
  r ← writer_write fuel available (ws_store w) (ws_writer w) block_ptr_to firehose_cursor mods
        data_sources deterministic_errors;
  Some (match r with
        | (Ok _, (s, wr)) => (Ok (), mkWritable s (Some block_ptr_to) firehose_cursor wr)
        | (e, (s, wr)) => (e, mkWritable s (ws_block_ptr w) (ws_block_cursor w) wr)
        end).

Definition writable_revert_block_operations fuel available (w : WritableStore)
    (block_ptr_to : BlockPtr) (firehose_cursor : option string)
    : option (result StoreError unit * WritableStore) :=
  r ← writer_revert fuel available (ws_store w) (ws_writer w) block_ptr_to firehose_cursor;
  Some (r.1, mkWritable r.2.1 (Some block_ptr_to) firehose_cursor r.2.2).

Definition writable_flush (w : WritableStore) : option (result StoreError unit * WritableStore) :=
  r ← writer_flush (ws_store w) (ws_writer w);
  Some (r.1, mkWritable r.2.1 (ws_block_ptr w) (ws_block_cursor w) r.2.2).

(** ** The front and the background writer together

    Where the loop of [start_writer] stands *)
Inductive WriterPc := WPeek | WExecute (req : Request) | WPop | WStopped.

(** The store, the queue, the writer, the request that a call of the front has
    checked and is about to push, the block pointer and cursor in memory, and,
    to state what happens, the requests that were pushed and those that were
    executed. *)
Record WSys := mkWSys {
  y_store : SyncStore D;
  y_queue : Queue;
  y_writer : WriterPc;
  y_front : option Request;
  y_block_ptr : option BlockPtr;
  y_block_cursor : option string;
  y_pushed : list Request;
  y_done : list Request
}.

Definition wsys_init (s : SyncStore D) (capacity : nat) : WSys :=
  mkWSys s (queue_start capacity) WPeek None (vs_block_ptr (ss_deployment s))
    (vs_block_cursor (ss_deployment s)) [] [].

(** [revert_block_operations] sets the pointers before it calls the writer,
    [transact_block_operations] after it. *)
Definition set_before (req : Request) (ptr : option BlockPtr) : option BlockPtr :=
  match req with ReqRevertTo to _ => Some to | _ => ptr end.
Definition cursor_before (req : Request) (cursor : option string) : option string :=
  match req with ReqRevertTo _ c => c | _ => cursor end.

Inductive front_step : WSys -> WSys -> Prop :=
| front_refused s q q' w req ptr cursor pushed done e :
    check_err q = (Err e, q') ->
    front_step (mkWSys s q w None ptr cursor pushed done)
      (mkWSys s q' w None (set_before req ptr) (cursor_before req cursor) pushed done)
| front_checked s q q' w req ptr cursor pushed done :
    check_err q = (Ok (), q') ->
    front_step (mkWSys s q w None ptr cursor pushed done)
      (mkWSys s q' w (Some req) (set_before req ptr) (cursor_before req cursor) pushed done)
| front_pushed s q w req ptr cursor pushed done requests :
    bq_push (wq_queue q) req = Some requests ->
    front_step (mkWSys s q w (Some req) ptr cursor pushed done)
      (mkWSys s (with_requests q requests) w None (Some (request_ptr req)) (request_cursor req)
         (pushed ++ [req]) done)
| front_flush s q w ptr cursor pushed done r q' :
    queue_flush q = Some (r, q') ->
    front_step (mkWSys s q w None ptr cursor pushed done) (mkWSys s q' w None ptr cursor pushed done).

Inductive writer_step : WSys -> WSys -> Prop :=
| writer_peek s q front ptr cursor pushed done req requests :
    bq_peek (E:=StoreError) (wq_queue q) = Some (Ok (req, requests)) ->
    writer_step (mkWSys s q WPeek front ptr cursor pushed done)
      (mkWSys s (with_requests q requests) (WExecute req) front ptr cursor pushed done)
| writer_executed s q front ptr cursor pushed done req fuel available s' :
    execute fuel available s req = Some (Ok s') ->
    writer_step (mkWSys s q (WExecute req) front ptr cursor pushed done)
      (mkWSys s' q WPop front ptr cursor pushed (done ++ [req]))
| writer_failed s q front ptr cursor pushed done req fuel available e q' :
    execute fuel available s req = Some (Err e) -> record_err (E:=StoreError) q e = Ok q' ->
    writer_step (mkWSys s q (WExecute req) front ptr cursor pushed done)
      (mkWSys s q' WStopped front ptr cursor pushed done)
| writer_panicked s q front ptr cursor pushed done req fuel available q' :
    execute fuel available s req = Some Panic -> record_err (E:=StoreError) q WriterPanic = Ok q' ->
    writer_step (mkWSys s q (WExecute req) front ptr cursor pushed done)
      (mkWSys s q' WStopped front ptr cursor pushed done)
| writer_popped s q front ptr cursor pushed done req requests :
    bq_pop (E:=StoreError) (wq_queue q) = Some (Ok (req, requests)) ->
    writer_step (mkWSys s q WPop front ptr cursor pushed done)
      (mkWSys s (with_requests q requests) WPeek front ptr cursor pushed done).

Definition wsys_step (y y' : WSys) : Prop := front_step y y' \/ writer_step y y'.

End Queue.
Arguments Queue : clear implicits.
Arguments WSys : clear implicits.
Arguments Writer : clear implicits.
Arguments WritableStore : clear implicits.
