(* ===== verification/WritableReads.v ===== *)
(** * Reading through the write queue

    Reads see the state that the store will have once all queued requests have
    been executed, however many of them have been executed when the store is
    asked. *)

From S2P Require Import Prelude GraphqlAst Scalars RuntimeValue Values StoreTypes Schema BlockRange.
From S2P Require Import Relational DeploymentStore BoundedQueue VersionedStore Backoff Writable.

(** ** Repeating calls *)

(** The database can be reached at one of the attempts. *)
Definition reaches (fuel : nat) (available : Z -> bool) : Prop :=
  exists n, (0 <= n < Z.of_nat fuel)%Z /\ (n < u64_mod)%Z /\ available n = true.

Lemma retry_loop_returns {A} available fuel b (f : result StoreError A) n :
  (0 <= bo_attempt b <= n)%Z -> (n < bo_attempt b + Z.of_nat fuel)%Z -> (n < u64_mod)%Z ->
  available n = true -> f <> Err DatabaseUnavailable -> retry_loop available fuel b f = Some f.
Proof.
  intros Hb Hn Hu Ha Hf. revert b Hb Hn. induction fuel as [|fuel IH]; intros b Hb Hn; [lia|]. cbn [retry_loop].
  destruct (available (bo_attempt b)) eqn:Hav; [by destruct f as [|[]|]|].
  apply IH; simpl.
  - assert (bo_attempt b <> n) by congruence. rewrite wrap_u64_id; [lia|]. unfold u64_mod in *. lia.
  - assert (bo_attempt b <> n) by congruence. rewrite wrap_u64_id; [lia|]. unfold u64_mod in *. lia.
Qed.

Lemma retry_returns {A} fuel available (f : result StoreError A) :
  reaches fuel available -> f <> Err DatabaseUnavailable -> retry fuel available f = Some f.
Proof.
  intros (n & Hn & Hu & Ha) Hf. unfold retry. eapply retry_loop_returns; [|..|done|done]; simpl; lia.
Qed.

Lemma retry_loop_result {A} available fuel b (f : result StoreError A) r :
  retry_loop available fuel b f = Some r -> r = f /\ f <> Err DatabaseUnavailable.
Proof.
  revert b. induction fuel as [|fuel IH]; intros b; [done|]. cbn [retry_loop].
  destruct (available (bo_attempt b)); [|by intros ?%IH].
  destruct f as [v|e|]; [by intros [= <-]|destruct e; first [by intros [= <-]|by intros [_ []]%IH]|by intros [= <-]].
Qed.

(** ** Requests that are executed *)

Section Reads.
Context {D : Type} `{!VersionedStore D, !VersionedStoreLaws D}.
Implicit Types (d : D) (h b : Z) (key k : EntityKey) (r : Request) (rs : list Request) (t : BlockTracker).

Definition executed d r d' : Prop :=
  match r with
  | ReqWrite ptr cursor mods dss errors =>
      exists ev, vs_transact d ptr cursor mods dss errors = Ok (d', ev)
  | ReqRevertTo ptr cursor => exists ev, vs_revert d ptr cursor = Ok (d', ev)
  end.

Inductive runs : D -> list Request -> D -> Prop :=
| runs_nil d : runs d [] d
| runs_cons d d1 d' r rs : executed d r d1 -> runs d1 rs d' -> runs d (r :: rs) d'.

Lemma runs_app d rs1 rs2 d' : runs d (rs1 ++ rs2) d' <-> exists d1, runs d rs1 d1 /\ runs d1 rs2 d'.
Proof.
  split.
  - revert d. induction rs1 as [|r rs1 IH]; intros d Hr; [exists d; split; [constructor|done]|].
    inversion Hr as [|? d2 ? ? ? He Hr']; subst. destruct (IH d2 Hr') as (d1 & ? & ?).
    exists d1. split; [by econstructor|done].
  - intros (d1 & H1 & H2). induction H1; [done|]. by econstructor; [|apply IHruns].
Qed.

(** Requests that make sense: modifications that fit together in a block, and
    data sources of that block. *)
Definition request_ok r : Prop :=
  match r with
  | ReqWrite ptr _ mods dss _ =>
      (0 <= bp_number ptr < BLOCK_NUMBER_MAX)%Z /\ vs_batch mods /\ Forall dds_ok dss /\
      Forall (fun ds => dds_creation_block ds = Some (bp_number ptr)) dss
  | ReqRevertTo ptr _ => (0 <= bp_number ptr)%Z
  end.

Definition request_mods r : list EntityModification :=
  match r with ReqWrite _ _ mods _ _ => mods | ReqRevertTo _ _ => [] end.

(** The tracker when the requests have been looked at, newest first. *)
Definition track t rs : BlockTracker := foldl tracker_update t (reverse rs).

Lemma track_cons t r rs : track t (r :: rs) = tracker_update (track t rs) r.
Proof. unfold track. by rewrite reverse_cons, foldl_app. Qed.

Lemma track_app t rs1 rs2 : track t (rs1 ++ rs2) = track (track t rs2) rs1.
Proof. unfold track. by rewrite reverse_app, foldl_app. Qed.

Lemma update_write t ptr cursor mods dss errors :
  (0 <= bp_number ptr < BLOCK_NUMBER_MAX)%Z ->
  tracker_update t (ReqWrite ptr cursor mods dss errors)
    = mkTracker (bt_revert t) (Z.min (bt_block t) (bp_number ptr - 1)).
Proof.
  intros Hp. simpl. rewrite wrap_i32_id; [done|]. unfold in_i32, i32_min. unfold BLOCK_NUMBER_MAX in Hp. lia.
Qed.

(** Executing a request changes nothing up to the block that the tracker keeps. *)
Lemma executed_before h d r d' t b k :
  vs_inv h d -> request_ok r -> executed d r d' -> (b <= bt_block (tracker_update t r))%Z ->
  (b <= BLOCK_NUMBER_MAX)%Z ->
  vs_get d' k b = vs_get d k b /\
  List.filter (fun p => (p.1 <=? b)%Z) (vs_dds d') = List.filter (fun p => (p.1 <=? b)%Z) (vs_dds d) /\
  exists h', vs_inv h' d'.
Proof.
  intros Hinv Hok He Hb Hm. destruct r as [ptr cursor mods dss errors|ptr cursor].
  - destruct Hok as (Hp & Hbatch & Hdss & _). rewrite update_write in Hb by done. simpl in Hb. destruct He as [ev He].
    destruct (vs_transact_ok h d ptr cursor mods dss errors d' ev) as (Hi & _ & _ & Hbef & _ & _ & Hdds); [done..|].
    split_and!; [apply Hbef; lia| |by eexists]. rewrite Hdds, List.filter_app.
    rewrite (filter_none _ (map _ dss)); [by rewrite app_nil_r|].
    intros p (ds & -> & _)%list_elem_of_fmap. simpl. apply Z.leb_gt. lia.
  - destruct He as [ev He]. simpl in Hb.
    destruct (vs_revert_ok h d ptr cursor d' ev) as (Hi & _ & _ & Hget & Hdds); [done..|].
    split_and!; [rewrite Hget by done; by rewrite Z.min_l by lia| |by eexists].
    rewrite Hdds, filter_filter. apply filter_same. intros p _.
    destruct (Z.leb_spec p.1 b), (Z.leb_spec p.1 (bp_number ptr)); simpl; done || lia.
Qed.

Lemma runs_before h d rs d' t b k :
  vs_inv h d -> Forall request_ok rs -> runs d rs d' -> (b <= bt_block (track t rs))%Z ->
  (b <= BLOCK_NUMBER_MAX)%Z ->
  vs_get d' k b = vs_get d k b /\
  List.filter (fun p => (p.1 <=? b)%Z) (vs_dds d') = List.filter (fun p => (p.1 <=? b)%Z) (vs_dds d) /\
  exists h', vs_inv h' d'.
Proof.
  intros Hinv Hok Hr Hb Hm. revert h Hinv Hb. induction Hr as [d|d d1 d' r rs He Hr IH]; intros h Hinv Hb.
  { split_and!; [done..|by exists h]. }
  apply Forall_cons in Hok as [Hr0 Hok]. rewrite track_cons in Hb.
  destruct (executed_before h d r d1 (track t rs) b k) as (Hget & Hdds & h1 & Hinv1); [done..|].
  destruct (IH Hok h1 Hinv1) as (Hget' & Hdds' & Hinv').
  - destruct r as [ptr ? ? ? ?|ptr ?]; simpl in Hb; lia.
  - split_and!; [congruence..|done].
Qed.

(** What the tracker knows of requests that are executed from block [h] on: the
    head never falls below [bt_revert], or below [h]. *)
Record tracks h t : Prop := {
  tr_revert : (bt_block t <= bt_revert t)%Z;
  tr_max : (bt_revert t <= BLOCK_NUMBER_MAX)%Z;
  tr_head : (Z.min h (bt_revert t) <= bt_block t)%Z
}.

(** One request more, an older one. *)
Lemma executed_tracks h d r d' t :
  vs_inv h d -> request_ok r -> executed d r d' ->
  (forall h', vs_inv h' d' -> tracks h' t) ->
  vs_inv (bp_number (request_ptr r)) d' /\ tracks (bp_number (request_ptr r)) t /\
  tracks h (tracker_update t r).
Proof.
  intros Hinv Hok He Htr. destruct r as [ptr cursor mods dss errors|ptr cursor]; cbn [request_ptr].
  - destruct Hok as (Hp & Hbatch & Hdss & _). destruct He as [ev He].
    destruct (vs_transact_ok h d ptr cursor mods dss errors d' ev) as (Hi & Hlt & _); [done..|].
    destruct (Htr _ Hi) as [H1 H2 H3]. split_and!; [done|by split|]. rewrite update_write by done.
    split; simpl; lia.
  - destruct He as [ev He].
    destruct (vs_revert_ok h d ptr cursor d' ev) as (Hi & Hlt & _); [done..|].
    destruct (Htr _ Hi) as [H1 H2 H3]. split_and!; [done|by split|]. split; simpl; lia.
Qed.

Lemma runs_tracks h d rs d' :
  vs_inv h d -> Forall request_ok rs -> runs d rs d' -> tracks h (track tracker_new rs).
Proof.
  intros Hinv Hok Hr. revert h Hinv. induction Hr as [d|d d1 d' r rs He Hr IH]; intros h Hinv.
  { pose proof (vs_inv_max h d Hinv). split; simpl; lia. }
  apply Forall_cons in Hok as [Hr0 Hok]. rewrite track_cons.
  apply (executed_tracks h d r d1); [done..|]. intros h'. by apply IH.
Qed.

Lemma runs_inv h d rs d' :
  vs_inv h d -> Forall request_ok rs -> runs d rs d' -> exists h', vs_inv h' d'.
Proof.
  intros Hinv Hok Hr. revert h Hinv. induction Hr as [d|d d1 d' r rs He Hr IH]; intros h Hinv; [by exists h|].
  apply Forall_cons in Hok as [Hr0 Hok]. destruct r as [ptr cursor mods dss errors|ptr cursor].
  - destruct Hr0 as (Hp & Hbatch & Hdss & _). destruct He as [ev He].
    destruct (vs_transact_ok h d ptr cursor mods dss errors d1 ev) as (Hi & _); [done..|by eapply IH].
  - destruct He as [ev He]. destruct (vs_revert_ok h d ptr cursor d1 ev) as (Hi & _); [done..|by eapply IH].
Qed.

(** ** Looking for an entity *)

(** No other spelling of the id of [key] is in the queue. *)
Definition canonical key rs : Prop :=
  forall r m, r ∈ rs -> m ∈ request_mods r -> vs_same key (mod_entity_key m) -> key = mod_entity_key m.

Definition find_mod key (mods : list EntityModification) : option EntityModification :=
  List.find (fun emod => bool_decide (mod_entity_key emod = key)) mods.

Lemma find_mod_some key mods m : find_mod key mods = Some m -> m ∈ mods /\ mod_entity_key m = key.
Proof. intros [Hin Hk]%List.find_some. apply bool_decide_eq_true in Hk. by rewrite list_elem_of_In. Qed.

Lemma find_mod_none key mods m : find_mod key mods = None -> m ∈ mods -> mod_entity_key m <> key.
Proof.
  intros Hn Hin%list_elem_of_In. pose proof (List.find_none _ _ Hn m Hin) as Hk.
  by apply bool_decide_eq_false in Hk.
Qed.

Lemma find_map_st_app {T S B} (f : S -> T -> S * option B) s l1 l2 :
  find_map_st f s (l1 ++ l2) =
    match find_map_st f s l1 with
    | (s', Some x) => (s', Some x)
    | (s', None) => find_map_st f s' l2
    end.
Proof.
  revert s. induction l1 as [|x l1 IH]; intros s; simpl; [done|].
  destruct (f s x) as [s' [y|]]; [done|apply IH].
Qed.

Definition scan key rs : BlockTracker * option QueueOp := find_map_st (get_step key) tracker_new (reverse rs).

Lemma scan_cons key r rs :
  scan key (r :: rs) =
    match scan key rs with (t, Some op) => (t, Some op) | (t, None) => get_step key t r end.
Proof.
  unfold scan. rewrite reverse_cons, find_map_st_app. destruct (find_map_st _ _ _) as [t [op|]]; [done|].
  cbn [find_map_st]. by destruct (get_step key t r) as [t' [op|]].
Qed.

(** What is found in a request, and what the state before it has to do with the
    state after it. *)
Lemma executed_get h d r d' t key :
  vs_inv h d -> request_ok r -> executed d r d' -> canonical key [r] ->
  (forall h', vs_inv h' d' -> tracks h' t) ->
  match get_step key t r with
  | (t', Some op) =>
      exists m, m ∈ request_mods r /\ mod_entity_key m = key /\ op = mod_op m /\
        vs_get d' key (bt_block t) = Ok (vs_view m)
  | (t', None) => t' = tracker_update t r /\ vs_get d' key (bt_block t) = vs_get d key (bt_block t')
  end.
Proof.
  intros Hinv Hok He Hcan Htr. destruct (executed_tracks h d r d' t) as (Hi & [T1 T2 T3] & _); [done..|].
  destruct r as [ptr cursor mods dss errors|ptr cursor]; unfold get_step; cbn [request_ptr request_mods] in *.
  - destruct Hok as (Hp & Hbatch & Hdss & _). rewrite update_write by done. destruct He as [ev He].
    destruct (vs_transact_ok h d ptr cursor mods dss errors d' ev)
      as (_ & Hlt & _ & Hbef & Hview & Hother & _); [done..|].
    unfold tracker_visible. cbn [bt_revert]. destruct (Z.leb_spec (bp_number ptr) (bt_revert t)) as [Hv|Hv].
    + fold (find_mod key mods). destruct (find_mod key mods) as [m|] eqn:Hf; simpl.
      * apply find_mod_some in Hf as [Hin Hk]. exists m. split_and!; [done..|]. subst key. apply Hview; [done|lia].
      * split; [done|]. rewrite Hother; [|intros m Hin Hs|lia].
        -- rewrite (vs_get_after h d key (bt_block t)), (vs_get_after h d key (Z.min _ _)); [done|done|lia|done|lia].
        -- apply (find_mod_none key mods m Hf Hin). symmetry. eapply Hcan; [by left|done|done].
    + split; [done|]. simpl. rewrite Z.min_l by lia. apply Hbef. lia.
  - split; [done|]. destruct He as [ev He]. simpl.
    destruct (vs_revert_ok h d ptr cursor d' ev) as (_ & _ & _ & Hget & _); [done..|]. apply Hget. lia.
Qed.

Lemma scan_spec h d rs d' key :
  vs_inv h d -> Forall request_ok rs -> runs d rs d' -> canonical key rs ->
  match scan key rs with
  | (t, Some op) =>
      exists m r, r ∈ rs /\ m ∈ request_mods r /\ mod_entity_key m = key /\ op = mod_op m /\
        vs_get d' key BLOCK_NUMBER_MAX = Ok (vs_view m)
  | (t, None) => t = track tracker_new rs /\ vs_get d' key BLOCK_NUMBER_MAX = vs_get d key (bt_block t)
  end.
Proof.
  intros Hinv Hok Hr. revert h Hinv. induction Hr as [d|d d1 d' r rs He Hr IH]; intros h Hinv Hcan; [done|].
  apply Forall_cons in Hok as [Hr0 Hok]. rewrite scan_cons, track_cons.
  assert (Hcan' : canonical key rs) by (intros r' m Hr'; apply Hcan; by right).
  assert (Hcan0 : canonical key [r]).
  { intros r' m Hr'%list_elem_of_singleton. subst. apply Hcan. by left. }
  assert (Htr : forall h', vs_inv h' d1 -> tracks h' (track tracker_new rs)) by (intros h' Hh; by eapply runs_tracks).
  destruct (executed_tracks h d r d1 _ Hinv Hr0 He Htr) as (Hi & _ & _).
  specialize (IH Hok _ Hi Hcan'). destruct (scan key rs) as [t [op|]].
  - destruct IH as (m & r' & Hin & Hrest). exists m, r'. split; [by right|done].
  - destruct IH as [-> Hlast]. pose proof (executed_get h d r d1 _ key Hinv Hr0 He Hcan0 Htr) as Hg.
    destruct (get_step key (track tracker_new rs) r) as [t' [op|]].
    + destruct Hg as (m & Hin & Hk & Hop & Hv). exists m, r. split_and!; [by left|done..|]. by rewrite Hlast.
    + destruct Hg as [-> Hg]. split; [done|]. by rewrite Hlast.
Qed.

(** ** The queue while its requests are executed *)

Context {Sem : Type}.
Implicit Types (queue : BoundedQueue Sem Request) (s : SyncStore D).

(** Some requests of the queue, as it was when it was looked at, have been
    executed when the store is asked, the others will be; [d'] is the state in
    the end. *)
Definition in_flight queue s h d d' : Prop :=
  vs_inv h d /\ Forall request_ok (bq_queue queue) /\
  exists done todo, bq_queue queue = done ++ todo /\
    runs d done (ss_deployment s) /\ runs (ss_deployment s) todo d'.

Lemma in_flight_all queue s h d d' :
  in_flight queue s h d d' ->
  runs d (bq_queue queue) d' /\ tracks h (track tracker_new (bq_queue queue)) /\
  (exists h', vs_inv h' (ss_deployment s)) /\
  forall b k, (b <= bt_block (track tracker_new (bq_queue queue)))%Z ->
    vs_get (ss_deployment s) k b = vs_get d k b /\
    List.filter (fun p => (p.1 <=? b)%Z) (vs_dds (ss_deployment s))
      = List.filter (fun p => (p.1 <=? b)%Z) (vs_dds d).
Proof.
  intros (Hinv & Hok & done & todo & Hq & Hdone & Htodo). rewrite Hq in Hok |- *.
  assert (Hall : runs d (done ++ todo) d') by (apply runs_app; eauto).
  pose proof (runs_tracks h d _ d' Hinv Hok Hall) as Htr. apply Forall_app in Hok as [Hok _].
  split_and!; [done..|by eapply runs_inv|]. intros b k Hb. destruct Htr as [T1 T2 T3].
  rewrite track_app in *. destruct (runs_before h d done (ss_deployment s) _ b k Hinv Hok Hdone Hb) as (? & ? & _);
    [lia|done].
Qed.

(** C14: A read through the queue returns what the store will return once the
    queued requests have been executed.  Either no queued modification of the
    entity is going to last, and the answer is exactly that of the store; or the
    answer is the data of the modification that lasts, as it was handed to the
    queue, and the store will return the same entity with each attribute as it
    is read back, and with [__typename] set: the same data but for [__typename]
    if the attributes are read back as they are written.  It does not matter how
    many of the requests have been executed when the store is asked.  The queue
    compares ids as strings, so that this is for a key of which no other
    spelling (the same bytes, written differently) is queued. *)
Theorem queue_get_correct queue s h d d' fuel available key :
  in_flight queue s h d d' -> canonical key (bq_queue queue) -> reaches fuel available ->
  vs_get d' key BLOCK_NUMBER_MAX <> Err DatabaseUnavailable ->
  (exists m r, r ∈ bq_queue queue /\ m ∈ request_mods r /\ mod_entity_key m = key /\
     queue_get fuel available queue s key = Some (Ok (mod_entity m)) /\
     vs_get d' key BLOCK_NUMBER_MAX = Ok (vs_view m) /\
     (vs_kept m ->
      vs_view m = <["__typename" := VString (entity_type key)]> <$> mod_entity m)) \/
  queue_get fuel available queue s key = Some (vs_get d' key BLOCK_NUMBER_MAX).
Proof.
  intros Hfl Hcan Hre Hdb. destruct (in_flight_all queue s h d d' Hfl) as (Hruns & _ & _ & Hbef).
  destruct Hfl as (Hinv & Hok & _). pose proof (scan_spec h d _ d' key Hinv Hok Hruns Hcan) as Hscan.
  unfold queue_get, bq_find_map. fold (scan key (bq_queue queue)).
  destruct (scan key (bq_queue queue)) as [t [op|]].
  - destruct Hscan as (m & r & Hr & Hin & Hk & -> & Hv). left. exists m, r. split_and!; try done.
    + by destruct m.
    + intros Hkept. rewrite <- Hk. by apply view_kept.
  - destruct Hscan as [-> Hlast]. right. rewrite Hlast in Hdb |- *.
    destruct (Hbef (bt_block (track tracker_new (bq_queue queue))) key ltac:(lia)) as [Hget _].
    unfold sync_get, query_block. rewrite Hget. by apply retry_returns.
Qed.

(** ** Dynamic data sources *)

Definition dds_leb (a b : StoredDynamicDataSource) : bool :=
  option_leb (dds_creation_block a) (dds_creation_block b).

Definition scan_dds rs : BlockTracker * list StoredDynamicDataSource :=
  foldl dds_step (tracker_new, []) (reverse rs).

Lemma scan_dds_cons r rs : scan_dds (r :: rs) = dds_step (scan_dds rs) r.
Proof. unfold scan_dds. by rewrite reverse_cons, foldl_app. Qed.

(** Data sources of one block are in order already. *)
Lemma sort_one_block n dss :
  Forall (fun ds => dds_creation_block ds = Some n) dss -> sort_by dds_leb dss = dss.
Proof.
  intros Hn. apply sort_by_sorted. induction Hn as [|ds dss Hds Hn IH]; constructor; [done|].
  eapply Forall_impl; [exact Hn|]. simpl. intros ds' Hds'. unfold dds_leb, option_leb. rewrite Hds, Hds'. simpl.
  by rewrite Z.ltb_irrefl.
Qed.

Lemma sort_older_block n dds dss :
  Forall (fun ds => dds_creation_block ds = Some n) dss ->
  Forall (fun ds => exists m, dds_creation_block ds = Some m /\ (n < m)%Z) dds ->
  sort_by dds_leb (dds ++ dss) = dss ++ sort_by dds_leb dds.
Proof.
  intros Hn Hnew. rewrite sort_by_swap; [by rewrite (sort_one_block n dss)|].
  intros x y Hx Hy. rewrite Forall_forall in Hn, Hnew. destruct (Hnew x Hx) as (m & Hm & Hlt).
  unfold dds_leb, option_leb. rewrite Hm, (Hn y Hy). simpl. by rewrite (proj2 (Z.ltb_lt n m)).
Qed.

Lemma dds_up_to h d b :
  vs_inv h d -> (h <= b)%Z -> List.filter (fun p => (p.1 <=? b)%Z) (vs_dds d) = vs_dds d.
Proof.
  intros Hinv Hb. rewrite (filter_same _ (fun _ => true)); [apply filter_all|]. intros p Hp.
  pose proof (vs_dds_head h d Hinv) as Hh. rewrite Forall_forall in Hh. specialize (Hh p Hp). simpl in Hh.
  apply Z.leb_le. lia.
Qed.

Lemma created_at_same n dss :
  Forall (fun ds => dds_creation_block ds = Some n) dss ->
  map snd (map (fun ds => (n, created_at n ds)) dss) = dss.
Proof.
  induction 1 as [|ds dss Hds _ IH]; simpl; [done|]. rewrite IH. f_equal. destruct ds. simpl in *. by subst.
Qed.

(** The data sources after the requests: those of the store up to the block of
    the tracker, then the visible ones of the queue. *)
Lemma scan_dds_spec h d rs d' :
  vs_inv h d -> Forall request_ok rs -> runs d rs d' ->
  (scan_dds rs).1 = track tracker_new rs /\
  Forall (fun ds => exists n, dds_creation_block ds = Some n /\ (bt_block (track tracker_new rs) < n)%Z)
    (scan_dds rs).2 /\
  map snd (vs_dds d') =
    map snd (List.filter (fun p => (p.1 <=? bt_block (track tracker_new rs))%Z) (vs_dds d))
      ++ sort_by dds_leb (scan_dds rs).2.
Proof.
  intros Hinv Hok Hr. revert h Hinv. induction Hr as [d|d d1 d' r rs He Hr IH]; intros h Hinv.
  { split_and!; [done|constructor|]. simpl. pose proof (vs_inv_max h d Hinv).
    by rewrite app_nil_r, (dds_up_to h) by (done || lia). }
  apply Forall_cons in Hok as [Hr0 Hok]. rewrite scan_dds_cons, track_cons.
  assert (Htr : forall h', vs_inv h' d1 -> tracks h' (track tracker_new rs)) by (intros h' Hh; by eapply runs_tracks).
  destruct (executed_tracks h d r d1 _ Hinv Hr0 He Htr) as (Hi & [T1 T2 T3] & _).
  destruct (IH Hok _ Hi) as (IH1 & IH2 & IH3). unfold dds_step. rewrite IH1, IH3.
  set (t := track tracker_new rs) in *. destruct (scan_dds rs) as [t0 dds]. simpl in IH1. subst t0.
  destruct r as [ptr cursor mods dss errors|ptr cursor]; cbn [request_ptr fst snd] in *.
  - destruct Hr0 as (Hp & Hbatch & Hdss & Hcre). rewrite update_write by done. destruct He as [ev He].
    destruct (vs_transact_ok h d ptr cursor mods dss errors d1 ev) as (_ & Hlt & _ & _ & _ & _ & Hdds); [done..|].
    unfold tracker_visible. cbn [bt_revert bt_block]. rewrite Hdds, List.filter_app, map_app.
    destruct (Z.leb_spec (bp_number ptr) (bt_revert t)) as [Hv|Hv].
    + split_and!; [done|..].
      * apply Forall_app. split; (eapply Forall_impl; [eassumption|]).
        -- intros ds (n & ? & ?). exists n. split; [done|lia].
        -- simpl. intros ds Hds. exists (bp_number ptr). split; [done|lia].
      * rewrite (sort_older_block (bp_number ptr)); [|done|].
        2:{ eapply Forall_impl; [exact IH2|]. intros ds (n & ? & ?). exists n. split; [done|lia]. }
        rewrite app_assoc. f_equal. f_equal.
        -- rewrite !(dds_up_to h) by (done || lia). done.
        -- rewrite (filter_same _ (fun _ => true)), filter_all; [by apply created_at_same|].
           intros p (ds & -> & _)%list_elem_of_fmap. simpl. apply Z.leb_le. lia.
    + rewrite Z.min_l by lia. split_and!; [done..|]. f_equal.
      rewrite (filter_none _ (map _ dss)); [by rewrite app_nil_r|].
      intros p (ds & -> & _)%list_elem_of_fmap. simpl. apply Z.leb_gt. lia.
  - destruct He as [ev He]. destruct (vs_revert_ok h d ptr cursor d1 ev) as (_ & _ & _ & _ & Hdds); [done..|].
    cbn [tracker_update bt_block]. split_and!; [done|..].
    + eapply Forall_impl; [exact IH2|]. intros ds (n & ? & ?). exists n. split; [done|lia].
    + rewrite Hdds, filter_filter. f_equal. f_equal. apply filter_same. intros p _.
      destruct (Z.leb_spec p.1 (bp_number ptr)), (Z.leb_spec p.1 (bt_block t)),
        (Z.leb_spec p.1 (Z.min (bt_block t) (bp_number ptr))); simpl; done || lia.
Qed.

(** C25: The data sources that are loaded through the queue are those, in their
    order, that the store will load once the queued requests have been
    executed. *)
Theorem queue_load_correct queue s h d d' fuel available :
  in_flight queue s h d d' -> reaches fuel available ->
  exists dds, queue_load_dynamic_data_sources fuel available queue s = Some (Ok dds) /\
    vs_load d' BLOCK_NUMBER_MAX = Ok dds.
Proof.
  intros Hfl Hre. destruct (in_flight_all queue s h d d' Hfl) as (Hruns & _ & (hs & Hs) & Hbef).
  destruct Hfl as (Hinv & Hok & _). destruct (runs_inv h d _ d' Hinv Hok Hruns) as (h' & Hinv').
  destruct (scan_dds_spec h d _ d' Hinv Hok Hruns) as (Ht & _ & Hdds).
  exists (map snd (vs_dds d')). split.
  - unfold queue_load_dynamic_data_sources, bq_fold. fold (scan_dds (bq_queue queue)).
    destruct (scan_dds (bq_queue queue)) as [t dds]. simpl in Ht, Hdds. subst t.
    unfold sync_load_dynamic_data_sources, query_block. rewrite (vs_load_ok hs) by done.
    rewrite retry_returns by done. simpl. rewrite Hdds.
    destruct (Hbef (bt_block (track tracker_new (bq_queue queue))) (mkKey EmptyString EmptyString EmptyString) ltac:(lia))
      as [_ ->]. done.
  - pose proof (vs_inv_max h' d' Hinv'). by rewrite (vs_load_ok h'), (dds_up_to h') by (done || lia).
Qed.

End Reads.
