(* ===== verification/WritableMany.v ===== *)
(** * Reading many entities through the write queue

    [queue_get_many] returns, for each type, the entities that [queue_get]
    returns for the ids one by one. *)

From S2P Require Import Prelude GraphqlAst Scalars RuntimeValue Values StoreTypes Schema BlockRange.
From S2P Require Import Relational DeploymentStore BoundedQueue VersionedStore Backoff Writable WritableReads.

(** ** Lists *)

Lemma swap_remove_perm {A} idx (l : list A) x :
  l !! idx = Some x -> x :: swap_remove idx l ≡ₚ l.
Proof.
  intros Hx. unfold swap_remove. destruct l as [|y l _] using rev_ind; [done|].
  rewrite last_snoc, removelast_last. destruct (decide (idx = length l)) as [->|Hne].
  - rewrite list_lookup_middle in Hx by done. injection Hx as ->.
    rewrite list_insert_ge by lia. apply Permutation_cons_append.
  - assert (Hlt : idx < length l).
    { apply lookup_lt_Some in Hx. rewrite length_app in Hx. simpl in Hx. lia. }
    rewrite lookup_app_l in Hx by done.
    rewrite insert_take_drop by done. rewrite <- (take_drop_middle l idx x Hx) at 3.
    rewrite <- !Permutation_middle, app_nil_r. apply perm_swap.
Qed.

Lemma id_position_some id ids idx : id_position id ids = Some idx -> ids !! idx = Some id.
Proof.
  unfold id_position. destruct (list_find _ ids) as [[i x]|] eqn:Hf; [|done]. intros [= <-].
  apply list_find_Some in Hf as (Hi & -> & _). done.
Qed.

Lemma id_position_none id ids : id_position id ids = None -> id ∉ ids.
Proof.
  unfold id_position. destruct (list_find _ ids) eqn:Hf; [done|]. intros _ Hin.
  apply list_find_None in Hf. rewrite Forall_forall in Hf. by apply (Hf id Hin).
Qed.

Section Partition.
Context {A B C : Type}.
Implicit Types (W : A -> option B) (L : list A).

Definition missing W L : list A := filter (fun x => W x = None) L.

Lemma missing_ext W W' L : (forall x, x ∈ L -> W x = W' x) -> missing W L = missing W' L.
Proof.
  unfold missing. induction L as [|x L IH]; intros He; [done|]. rewrite !filter_cons.
  rewrite IH by (intros; apply He; by right). rewrite (He x) by (by left). done.
Qed.

Lemma omap_ext_in {D} (f g : A -> option D) L : (forall x, x ∈ L -> f x = g x) -> omap f L = omap g L.
Proof.
  induction L as [|x L IH]; intros He; [done|]. cbn [omap list_omap].
  rewrite He by (by left). by rewrite IH by (intros; apply He; by right).
Qed.

Lemma nothing_found W L (f : B -> option C) :
  (forall x, W x = None) -> missing W L = L /\ omap (fun x => W x ≫= f) L = [].
Proof.
  intros Hn. induction L as [|x L [IH1 IH2]]; [done|]. unfold missing in *. rewrite filter_cons.
  rewrite decide_True by done. cbn [omap list_omap]. rewrite Hn, IH1. done.
Qed.

(** One element more is found. *)
Lemma missing_found W W' L x y (f : option B -> option C) :
  NoDup L -> x ∈ L -> W x = None -> W' x = Some y -> f None = None -> (forall z, z <> x -> W z = W' z) ->
  x :: missing W' L ≡ₚ missing W L /\
  omap (fun z => f (W' z)) L ≡ₚ omap (fun z => f (W z)) L ++ option_list (f (Some y)).
Proof.
  intros Hnd Hin Hx Hx' Hf Ho. apply elem_of_Permutation in Hin as [L' HL].
  rewrite HL in Hnd. apply NoDup_cons in Hnd as [Hnot _].
  assert (Heq : forall z, z ∈ L' -> W z = W' z) by (intros z Hz; apply Ho; congruence).
  split.
  - unfold missing. rewrite HL, !filter_cons. rewrite decide_False by congruence. rewrite decide_True by done.
    constructor. apply Permutation_refl'. symmetry. by apply missing_ext.
  - rewrite HL. cbn [omap list_omap]. rewrite Hx, Hx', Hf.
    rewrite (omap_ext_in (fun z => f (W' z)) (fun z => f (W z)) L') by (intros z Hz; by rewrite Heq).
    destruct (f (Some y)); simpl; [|by rewrite app_nil_r]. apply Permutation_cons_append.
Qed.

(** Elements are found, or looked for elsewhere. *)
Lemma omap_split W L (f : B -> option C) (g a : A -> option C) :
  (forall x, x ∈ L -> a x = match W x with Some y => f y | None => g x end) ->
  omap a L ≡ₚ omap (fun x => W x ≫= f) L ++ omap g (missing W L).
Proof.
  induction L as [|x L IH]; intros Ha; [done|]. cbn [omap list_omap]. unfold missing. rewrite filter_cons.
  rewrite (Ha x) by (by left). specialize (IH ltac:(intros; apply Ha; by right)).
  destruct (W x) as [y|]; simpl.
  - fold (missing W L). destruct (f y); [|done]. by rewrite IH.
  - fold (missing W L).
    destruct (g x); [|done]. rewrite IH. by rewrite Permutation_middle.
Qed.
End Partition.

(** ** Looking for many entities in the queue *)

Section Many.
Context (sid : DeploymentHash).
Implicit Types (ids : gmap EntityType (list string)) (m : gmap EntityType (list Entity))
  (emod : EntityModification) (ty : EntityType) (id : string) (W : EntityKey -> option QueueOp).

Definition op_entity (op : QueueOp) : option Entity :=
  match op with QWrite e => Some e | QRemove => None end.

Lemma op_entity_mod emod : op_entity (mod_op emod) = mod_entity emod.
Proof. by destruct emod. Qed.

(** For the entities of [ids0], [W] is what has been found: the others are still
    to be looked for. *)
Record taken ids0 W (st : gmap EntityType (list string) * gmap EntityType (list Entity)) : Prop := {
  tk_ids ty : default [] (st.1 !! ty) ≡ₚ missing (fun id => W (mkKey sid ty id)) (default [] (ids0 !! ty));
  tk_map ty : default [] (st.2 !! ty)
    ≡ₚ omap (fun id => W (mkKey sid ty id) ≫= op_entity) (default [] (ids0 !! ty));
  tk_nonempty ty : st.1 !! ty <> Some []
}.

Definition found_in emod W (k : EntityKey) : option QueueOp :=
  match W k with
  | Some op => Some op
  | None => if bool_decide (mod_entity_key emod = k) then Some (mod_op emod) else None
  end.

Lemma found_in_other emod W k : mod_entity_key emod <> k -> found_in emod W k = W k.
Proof. intros Hk. unfold found_in. destruct (W k); [done|]. by rewrite bool_decide_false. Qed.

Lemma taken_ext ids0 W W' st :
  taken ids0 W st ->
  (forall ty id, id ∈ default [] (ids0 !! ty) -> W (mkKey sid ty id) = W' (mkKey sid ty id)) ->
  taken ids0 W' st.
Proof.
  intros [H1 H2 H3] He. split; [intros ty..|done].
  - rewrite H1. apply Permutation_refl'. apply missing_ext. intros. by apply He.
  - rewrite H2. apply Permutation_refl', omap_ext_in. intros. by rewrite He.
Qed.

(** An entity that was found already, or is not looked for *)
Lemma taken_old ids0 W st emod :
  taken ids0 W st -> subgraph_id (mod_entity_key emod) = sid ->
  key_entity_id (mod_entity_key emod) ∉ default [] (st.1 !! entity_type (mod_entity_key emod)) ->
  taken ids0 (found_in emod W) st.
Proof.
  intros Htk Hsid Hnot. eapply taken_ext; [done|]. intros ty id Hin. unfold found_in.
  destruct (W (mkKey sid ty id)) eqn:Hw; [done|]. case_bool_decide as Hk; [|done].
  exfalso. apply Hnot. rewrite Hk. simpl. rewrite (tk_ids _ _ _ Htk). by apply list_elem_of_filter.
Qed.

Lemma take_mod_spec ids0 W st emod :
  (forall ty, NoDup (default [] (ids0 !! ty))) -> subgraph_id (mod_entity_key emod) = sid ->
  taken ids0 W st -> taken ids0 (found_in emod W) (take_mod st emod).
Proof.
  intros Hnd Hsid Htk. destruct st as [ids m]. unfold take_mod.
  destruct (mod_entity_key emod) as [sid' ty id] eqn:Hkey. cbn [entity_type key_entity_id subgraph_id] in *. subst sid'.
  destruct (ids !! ty) as [l|] eqn:Hl.
  2:{ apply taken_old; [done|by rewrite Hkey|]. rewrite Hkey. simpl. rewrite Hl. apply not_elem_of_nil. }
  destruct (id_position id l) as [idx|] eqn:Hpos.
  2:{ apply taken_old; [done|by rewrite Hkey|]. rewrite Hkey. simpl. rewrite Hl. by apply id_position_none. }
  apply id_position_some in Hpos. pose proof (swap_remove_perm idx l id Hpos) as Hswap.
  destruct Htk as [H1 H2 H3]. cbn [fst snd] in *.
  pose proof (H1 ty) as Hty. rewrite Hl in Hty. simpl in Hty.
  assert (Hin : id ∈ missing (fun id => W (mkKey sid ty id)) (default [] (ids0 !! ty))).
  { rewrite <- Hty. by eapply list_elem_of_lookup_2. }
  apply list_elem_of_filter in Hin as [Hw Hin].
  destruct (missing_found (fun id => W (mkKey sid ty id)) (fun id => found_in emod W (mkKey sid ty id))
    (default [] (ids0 !! ty)) id (mod_op emod) (fun o => o ≫= op_entity)) as [Hmiss Hom]; [done..| |done| |].
  { unfold found_in. rewrite Hw, Hkey. by rewrite bool_decide_true. }
  { intros z Hz. symmetry. apply found_in_other. rewrite Hkey. congruence. }
  rewrite <- Hty, <- Hswap in Hmiss. apply Permutation_cons_inv in Hmiss.
  simpl in Hom. rewrite op_entity_mod in Hom.
  assert (Hother : forall ty' id', ty' <> ty -> W (mkKey sid ty' id') = found_in emod W (mkKey sid ty' id')).
  { intros ty' id' Hne. symmetry. apply found_in_other. rewrite Hkey. congruence. }
  split; intros ty'; cbn [fst snd]; destruct (decide (ty' = ty)) as [->|Hne].
  - rewrite Hmiss. destruct (swap_remove idx l) eqn:Hs; by rewrite ?lookup_delete_eq, ?lookup_insert_eq.
  - assert (Hsame : (match swap_remove idx l with [] => delete ty ids | _ => <[ty := swap_remove idx l]> ids end) !! ty'
      = ids !! ty') by (destruct (swap_remove idx l); by rewrite ?lookup_delete_ne, ?lookup_insert_ne).
    rewrite Hsame, H1. apply Permutation_refl', missing_ext. intros. by apply Hother.
  - rewrite Hom, <- H2. unfold push_group. destruct (mod_entity emod); simpl; [by rewrite lookup_insert_eq|].
    by rewrite app_nil_r.
  - assert (Hsame : (match mod_entity emod with Some e => push_group m ty e | None => m end) !! ty' = m !! ty')
      by (unfold push_group; destruct (mod_entity emod); by rewrite ?lookup_insert_ne).
    rewrite Hsame, H2. apply Permutation_refl', omap_ext_in. intros. by rewrite Hother.
  - destruct (swap_remove idx l) eqn:Hs; by rewrite ?lookup_delete_eq, ?lookup_insert_eq.
  - destruct (swap_remove idx l); rewrite ?lookup_delete_ne, ?lookup_insert_ne by done; apply H3.
Qed.

Lemma take_mods_spec ids0 W st mods :
  (forall ty, NoDup (default [] (ids0 !! ty))) ->
  Forall (fun emod => subgraph_id (mod_entity_key emod) = sid) mods -> taken ids0 W st ->
  taken ids0 (fun k => match W k with Some op => Some op | None => mod_op <$> find_mod k mods end)
    (foldl take_mod st mods).
Proof.
  intros Hnd Hsid. revert W st. induction Hsid as [|emod mods Hm Hsid IH]; intros W st Htk; simpl.
  - eapply taken_ext; [done|]. intros ty id _. by destruct (W _).
  - eapply taken_ext; [apply IH; by apply take_mod_spec|]. intros ty id _. cbn beta. unfold found_in.
    destruct (W (mkKey sid ty id)) eqn:Hw; [done|]. unfold find_mod at 2. cbn [List.find].
    by case_bool_decide.
Qed.

Definition scan_many ids rs : BlockTracker * (gmap EntityType (list string) * gmap EntityType (list Entity)) :=
  foldl get_many_step (tracker_new, (ids, ∅)) (reverse rs).

Lemma scan_many_cons ids r rs : scan_many ids (r :: rs) = get_many_step (scan_many ids rs) r.
Proof. unfold scan_many. by rewrite reverse_cons, foldl_app. Qed.

Lemma scan_none_track key rs t : scan key rs = (t, None) -> t = track tracker_new rs.
Proof.
  revert t. induction rs as [|r rs IH]; intros t; [by intros [= <-]|]. rewrite scan_cons, track_cons.
  destruct (scan key rs) as [t' [op|]]; [done|]. rewrite (IH t' eq_refl). unfold get_step. by intros [= <- _].
Qed.

(** What is found for the entities one by one is what is found for all of them. *)
Lemma scan_many_spec ids0 rs :
  (forall ty, NoDup (default [] (ids0 !! ty))) -> (forall ty, ids0 !! ty <> Some []) ->
  Forall (fun r => Forall (fun emod => subgraph_id (mod_entity_key emod) = sid) (request_mods r)) rs ->
  (scan_many ids0 rs).1 = track tracker_new rs /\
  taken ids0 (fun k => (scan k rs).2) (scan_many ids0 rs).2.
Proof.
  intros Hnd Hne. induction 1 as [|r rs Hr Hrs [IH1 IH2]].
  { split; [done|]. change (scan_many ids0 []).2 with (ids0, ∅ : gmap EntityType (list Entity)).
    split; cbn [fst snd]; [intros ty..|done];
      destruct (nothing_found (fun id => (scan (mkKey sid ty id) []).2) (default [] (ids0 !! ty)) op_entity)
        as [Hmiss Hom]; [done|by rewrite Hmiss|done|by rewrite Hom, lookup_empty]. }
  rewrite scan_many_cons, track_cons. unfold get_many_step. rewrite IH1. split; [done|].
  destruct r as [ptr cursor mods dss errors|ptr cursor]; cbn [request_mods snd] in *.
  - destruct (tracker_visible _ ptr) eqn:Hv.
    + eapply taken_ext; [by apply take_mods_spec|]. intros ty id _. rewrite scan_cons.
      destruct (scan (mkKey sid ty id) rs) as [t [op|]] eqn:Hs; [done|]. apply scan_none_track in Hs as ->.
      unfold get_step. cbn [fst snd]. by rewrite Hv.
    + eapply taken_ext; [done|]. intros ty id _. rewrite scan_cons.
      destruct (scan (mkKey sid ty id) rs) as [t [op|]] eqn:Hs; [done|]. apply scan_none_track in Hs as ->.
      unfold get_step. cbn [fst snd]. by rewrite Hv.
  - eapply taken_ext; [done|]. intros ty id _. rewrite scan_cons.
    by destruct (scan (mkKey sid ty id) rs) as [t [op|]].
Qed.

(** ** Adding what the store has *)

Lemma append_all_spec l (m : gmap EntityType (list Entity)) :
  NoDup l.*1 ->
  (forall ty, ty ∉ l.*1 -> foldl append_entities m l !! ty = m !! ty) /\
  (forall ty es, (ty, es) ∈ l -> default [] (foldl append_entities m l !! ty) = default [] (m !! ty) ++ es).
Proof.
  revert m. induction l as [|[ty es] l IH]; intros m Hnd; [split; [done|by intros ? ? ?%not_elem_of_nil]|].
  cbn [fmap list_fmap fst] in *. apply NoDup_cons in Hnd as [Hnot Hnd].
  destruct (IH (append_entities m (ty, es)) Hnd) as [IH1 IH2]. cbn [foldl]. split.
  - intros ty' Hty. rewrite not_elem_of_cons in Hty. destruct Hty as [Hne Hty]. rewrite IH1 by done.
    unfold append_entities. by rewrite lookup_insert_ne.
  - intros ty' es'. rewrite elem_of_cons. intros [[= -> ->]|Hin].
    + rewrite IH1 by done. unfold append_entities. by rewrite lookup_insert_eq.
    + rewrite (IH2 ty' es') by done. unfold append_entities. rewrite lookup_insert_ne; [done|].
      simpl. intros ->. apply Hnot. by apply (list_elem_of_fmap_2 fst _ (ty', es')).
Qed.

Lemma combine_spec (m r : gmap EntityType (list Entity)) ty :
  default [] ((if bool_decide (r = ∅) then m else if bool_decide (m = ∅) then r
               else foldl append_entities m (btree_iter r)) !! ty)
  = default [] (m !! ty) ++ default [] (r !! ty).
Proof.
  case_bool_decide as Hr; [subst; by rewrite lookup_empty, app_nil_r|].
  case_bool_decide as Hm; [subst; by rewrite lookup_empty|].
  destruct (append_all_spec (btree_iter r) m) as [Hother Hin].
  { rewrite btree_iter_perm. apply NoDup_fst_map_to_list. }
  destruct (r !! ty) as [es|] eqn:Hty; simpl.
  - by rewrite (Hin ty es) by by apply elem_of_btree_iter.
  - rewrite Hother; [by rewrite app_nil_r|]. intros ([ty' es] & -> & Hx%elem_of_btree_iter)%list_elem_of_fmap.
    simpl in Hty. congruence.
Qed.

(** ** Correctness *)

Context {D : Type} `{!VersionedStore D, !VersionedStoreLaws D} {Sem : Type}.
Implicit Types (queue : BoundedQueue Sem Request) (s : SyncStore D) (d : D).

(** Different entities that are all known to the store. *)
Definition wanted queue (d' : D) ids : Prop :=
  forall ty l, ids !! ty = Some l ->
    l <> [] /\ NoDup l /\
    (forall id id', id ∈ l -> id' ∈ l -> vs_same (mkKey sid ty id) (mkKey sid ty id') -> id = id') /\
    forall id, id ∈ l -> canonical (mkKey sid ty id) (bq_queue queue) /\
      exists o, vs_get d' (mkKey sid ty id) BLOCK_NUMBER_MAX = Ok o.

Definition answer (r : option (result StoreError (option Entity))) : option Entity :=
  match r with Some (Ok o) => o | _ => None end.

(** The answer for one entity, by what is found for it in the queue. *)
Lemma queue_get_scan queue s h d d' fuel available ids ty id :
  in_flight queue s h d d' -> reaches fuel available -> wanted queue d' ids ->
  id ∈ default [] (ids !! ty) ->
  answer (queue_get fuel available queue s (mkKey sid ty id)) =
    match (scan (mkKey sid ty id) (bq_queue queue)).2 with
    | Some op => op_entity op
    | None => match vs_get (ss_deployment s) (mkKey sid ty id)
                      (bt_block (track tracker_new (bq_queue queue))) with Ok o => o | _ => None end
    end /\
  ((scan (mkKey sid ty id) (bq_queue queue)).2 = None ->
   exists o, vs_get (ss_deployment s) (mkKey sid ty id)
     (bt_block (track tracker_new (bq_queue queue))) = Ok o).
Proof.
  intros Hfl Hre Hwant Hin. destruct (ids !! ty) as [l|] eqn:Hl; [|by apply not_elem_of_nil in Hin].
  destruct (Hwant ty l Hl) as (_ & _ & _ & Hw). destruct (Hw id Hin) as [Hcan [o Ho]].
  destruct (in_flight_all queue s h d d' Hfl) as (Hruns & _ & _ & Hbef).
  destruct Hfl as (Hinv & Hok & _). pose proof (scan_spec h d _ d' _ Hinv Hok Hruns Hcan) as Hscan.
  unfold queue_get, bq_find_map. fold (scan (mkKey sid ty id) (bq_queue queue)).
  destruct (scan (mkKey sid ty id) (bq_queue queue)) as [t [op|]]; simpl.
  - split; [by destruct op|done].
  - destruct Hscan as [-> Hlast]. rewrite Ho in Hlast.
    destruct (Hbef (bt_block (track tracker_new (bq_queue queue))) (mkKey sid ty id) ltac:(lia)) as [Hget _].
    unfold sync_get, query_block. rewrite Hget, <- Hlast, retry_returns by done. split; [done|by exists o].
Qed.

(** C24: Reading many entities through the queue returns, for each type, exactly the
    entities that reading them one by one returns, in some order.  This is for
    different entities that the store can read, of which no other spelling of
    the id (the same bytes, written differently) is queued ([wanted]), and for a
    queue of one subgraph. *)
Theorem queue_get_many_correct queue s h d d' fuel available ids :
  in_flight queue s h d d' -> reaches fuel available -> wanted queue d' ids ->
  Forall (fun r => Forall (fun emod => subgraph_id (mod_entity_key emod) = sid) (request_mods r))
    (bq_queue queue) ->
  exists r, queue_get_many fuel available queue s ids = Some (Ok r) /\
    forall ty, default [] (r !! ty) ≡ₚ
      omap (fun id => answer (queue_get fuel available queue s (mkKey sid ty id)))
        (default [] (ids !! ty)).
Proof.
  intros Hfl Hre Hwant Hsite.
  pose proof (fun ty id => queue_get_scan queue s h d d' fuel available ids ty id Hfl Hre Hwant) as Hone.
  assert (Hnd : forall ty, NoDup (default [] (ids !! ty))).
  { intros ty. destruct (ids !! ty) as [l|] eqn:Hl; [by apply (Hwant ty l Hl)|constructor]. }
  destruct (scan_many_spec ids (bq_queue queue)) as [Ht Htk]; [done|by intros ty []%Hwant|done|].
  destruct (in_flight_all queue s h d d' Hfl) as (_ & _ & (hs & Hs) & _).
  unfold queue_get_many, bq_fold. fold (scan_many ids (bq_queue queue)).
  destruct (scan_many ids (bq_queue queue)) as [t [rest m]]. cbn [fst snd] in *. subst t.
  destruct Htk as [Hids Hmap Hne]. cbn [fst snd] in *.
  set (W := fun ty id => (scan (mkKey sid ty id) (bq_queue queue)).2) in *.
  set (B := bt_block (track tracker_new (bq_queue queue))) in *.
  assert (Hrest : forall ty l id, rest !! ty = Some l -> id ∈ l -> id ∈ default [] (ids !! ty) /\ W ty id = None).
  { intros ty l id Hl Hin. specialize (Hids ty). rewrite Hl in Hids. simpl in Hids. rewrite Hids in Hin.
    by apply list_elem_of_filter in Hin as [? ?]. }
  destruct (vs_get_many_ok hs (ss_deployment s) rest B sid Hs) as (r & Hr & Hperm).
  { intros ty l Hl ->. by apply (Hne ty). }
  { intros ty l id Hl Hin. destruct (Hrest ty l id Hl Hin) as [Hin' Hw]. by apply (Hone ty id). }
  { intros ty l Hl. split.
    - specialize (Hids ty). rewrite Hl in Hids. simpl in Hids. rewrite Hids. by apply NoDup_filter.
    - intros id id' Hi Hi'. destruct (Hrest ty l id Hl Hi) as [Hin _], (Hrest ty l id' Hl Hi') as [Hin' _].
      destruct (ids !! ty) as [l0|] eqn:Hl0; [|by apply not_elem_of_nil in Hin].
      by apply (Hwant ty l0 Hl0). }
  assert (Hall : forall ty, default [] (m !! ty) ++ default [] (r !! ty) ≡ₚ
      omap (fun id => answer (queue_get fuel available queue s (mkKey sid ty id))) (default [] (ids !! ty))).
  { intros ty. rewrite Hperm, Hids, Hmap. symmetry. apply omap_split. intros id Hin. by apply (Hone ty id). }
  case_bool_decide as Hempty.
  - exists m. split; [done|]. intros ty. rewrite <- Hall, Hperm, Hempty, lookup_empty. simpl. by rewrite app_nil_r.
  - unfold sync_get_many, query_block. fold B. rewrite Hr, retry_returns by done. simpl. eexists. split; [done|].
    intros ty. by rewrite combine_spec.
Qed.

End Many.
