(* ===== verification/WritableSystem.v ===== *)
(** * The front and the background writer together

    Whatever the order in which calls of the front and actions of the background
    writer happen, requests are executed in the order in which they were pushed,
    each once, and none after one has failed; if none fails, the queue gets
    empty. *)

From S2P Require Import Prelude GraphqlAst Scalars RuntimeValue Values StoreTypes Schema BlockRange.
From S2P Require Import Relational DeploymentStore BoundedQueue VersionedStore Backoff Writable WritableReads.

(** ** The queue under the actions of the writer *)

Section QueueActions.
Context {Sem : Type} `{!Semaphore Sem, !SemaphoreLaws Sem} {T : Type}.
Implicit Types (q : BoundedQueue Sem T).

Lemma bq_peek_inv {E} q x q' :
  bq_ok q -> bq_peek (E:=E) q = Some (Ok (x, q')) ->
  bq_ok q' /\ bq_queue q' = bq_queue q /\ bq_capacity q' = bq_capacity q /\
  exists items, bq_queue q = x :: items.
Proof.
  intros Hok Hp. destruct (bq_queue q) as [|y items] eqn:Hq.
  - unfold bq_peek in Hp. by rewrite acquire_pop_none in Hp.
  - destruct (bq_peek_spec (E:=E) q y items Hok Hq) as (q1 & H1 & Hok1 & Hq1 & Hc1).
    rewrite H1 in Hp. injection Hp as -> ->. rewrite Hq in Hq1. split_and!; try done. by exists items.
Qed.

Lemma bq_pop_inv {E} q x q' :
  bq_ok q -> bq_pop (E:=E) q = Some (Ok (x, q')) ->
  bq_ok q' /\ bq_queue q = x :: bq_queue q' /\ bq_capacity q' = bq_capacity q.
Proof.
  intros Hok Hp. destruct (bq_queue q) as [|y items] eqn:Hq.
  - unfold bq_pop in Hp. by rewrite acquire_pop_none in Hp.
  - destruct (bq_pop_spec (E:=E) q y items Hok Hq) as (q1 & H1 & Hok1 & Hq1 & Hc1).
    rewrite H1 in Hp. injection Hp as -> ->. split_and!; try done. by rewrite Hq1.
Qed.

Lemma bq_wait_empty_inv q q' :
  bq_ok q -> bq_wait_empty q = Some q' ->
  bq_ok q' /\ bq_queue q' = bq_queue q /\ bq_capacity q' = bq_capacity q.
Proof.
  intros [Hpop Hpush]. unfold bq_wait_empty. destruct (acquire_push _ q) as [q1|] eqn:Ha; [|done].
  apply acquire_push_inv in Ha as (sem & -> & Hs). simpl. intros [= <-]. split_and!; [|done..].
  split; simpl; [done|]. rewrite add_permits_permits. lia.
Qed.
End QueueActions.

Section System.
Context {Sem : Type} `{!Semaphore Sem, !SemaphoreLaws Sem} {D : Type} `{!VersionedStore D}.
Context (site : DeploymentHash) (disable_notifications : bool) (can_send : StoreEvent -> bool).
Implicit Types (s : SyncStore D) (q : Queue Sem) (y : WSys Sem D) (r : Request) (rs : list Request).
Local Abbreviation execute := (execute site disable_notifications can_send).
Local Abbreviation writer_step := (writer_step site disable_notifications can_send).
Local Abbreviation wsys_step := (wsys_step site disable_notifications can_send).

Definition executes s r s' : Prop :=
  exists fuel available, execute fuel available s r = Some (Ok s').

Inductive sync_runs : SyncStore D -> list Request -> SyncStore D -> Prop :=
| sync_nil s : sync_runs s [] s
| sync_cons s s1 s' r rs : executes s r s1 -> sync_runs s1 rs s' -> sync_runs s (r :: rs) s'.

Lemma sync_runs_snoc s rs s1 r s' :
  sync_runs s rs s1 -> executes s1 r s' -> sync_runs s (rs ++ [r]) s'.
Proof.
  induction 1 as [s|s s2 s1 r' rs He Hr IH]; intros Hex; simpl.
  - econstructor; [done|constructor].
  - econstructor; [done|by apply IH].
Qed.

(** Attempts that fail leave no trace: the deployment changes as in one call. *)
Lemma executes_once s r s' : executes s r s' -> executed (ss_deployment s) r (ss_deployment s').
Proof.
  intros (fuel & available & He). destruct r as [ptr cursor mods dss errors|ptr cursor]; simpl in He.
  - unfold sync_transact_block_operations in He. destruct (negb _); [done|].
    apply retry_loop_result in He as [He _]. symmetry in He. simpl.
    destruct (vs_transact _ _ _ _ _ _) as [[d ev]| |]; simpl in He; [|done..]. injection He as <-. exists ev.
    unfold try_send_store_event. by destruct disable_notifications, (can_send ev).
  - unfold sync_revert_block_operations in He. apply retry_loop_result in He as [He _]. symmetry in He. simpl.
    destruct (vs_revert _ _ _) as [[d ev]| |]; simpl in He; [|done..]. injection He as <-. exists ev.
    unfold try_send_store_event. by destruct disable_notifications, (can_send ev).
Qed.

Lemma sync_runs_once s rs s' : sync_runs s rs s' -> runs (ss_deployment s) rs (ss_deployment s').
Proof.
  induction 1 as [s|s s1 s' r rs He Hr IH]; [constructor|]. econstructor; [by apply executes_once|done].
Qed.

(** ** The invariant *)

(** The requests of the queue that have not been executed *)
Definition pending y : list Request :=
  match y_writer y with
  | WPop => tail (bq_queue (wq_queue (y_queue y)))
  | _ => bq_queue (wq_queue (y_queue y))
  end.

Definition ptr_after (ptr : option BlockPtr) rs : option BlockPtr :=
  match last rs with Some r => Some (request_ptr r) | None => ptr end.

(** Where the writer stands fits the front of the queue. *)
Definition writer_fits y : Prop :=
  match y_writer y with
  | WPeek => True
  | WExecute r => exists rs, bq_queue (wq_queue (y_queue y)) = r :: rs
  | WPop => bq_queue (wq_queue (y_queue y)) <> []
  | WStopped => False
  end.

Record sys_ok s0 capacity y : Prop := {
  so_bq : bq_ok (wq_queue (y_queue y));
  so_capacity : bq_capacity (wq_queue (y_queue y)) = capacity;
  so_store : sync_runs s0 (y_done y) (y_store y);
  so_err : wq_poisoned (y_queue y) = false -> wq_write_err (y_queue y) = None;
  so_stopped : wq_poisoned (y_queue y) = true ->
    y_writer y = WStopped /\ y_done y `prefix_of` y_pushed y;
  so_running : wq_poisoned (y_queue y) = false ->
    writer_fits y /\ y_pushed y = y_done y ++ pending y /\
    y_block_ptr y = match y_front y with
                    | Some r => set_before r (ptr_after (vs_block_ptr (ss_deployment s0)) (y_pushed y))
                    | None => ptr_after (vs_block_ptr (ss_deployment s0)) (y_pushed y)
                    end
}.

Lemma sys_init_ok s0 capacity : sys_ok s0 capacity (wsys_init s0 capacity).
Proof. split; simpl; try done. - apply with_capacity_ok. - constructor. Qed.

Lemma check_err_cases q res q' :
  check_err q = (res, q') ->
  wq_queue q' = wq_queue q /\ wq_poisoned q' = wq_poisoned q /\
  (wq_write_err q = None -> wq_write_err q' = None /\ res = if wq_poisoned q then Err Poisoned else Ok ()) /\
  (wq_poisoned q = true -> res <> Ok ()).
Proof.
  unfold check_err. destruct (wq_write_err q) as [e|] eqn:He.
  - intros [= <- <-]. split_and!; done.
  - intros [= <- <-]. split_and!; try done. by destruct (wq_poisoned q).
Qed.

Lemma front_step_ok s0 capacity y y' : sys_ok s0 capacity y -> front_step y y' -> sys_ok s0 capacity y'.
Proof.
  intros [Hbq Hcap Hst Herr Hstop Hrun] Hstep.
  destruct Hstep as [s q q' w req ptr cursor pushed done e Hc|s q q' w req ptr cursor pushed done Hc
    |s q w req ptr cursor pushed done requests Hp|s q w ptr cursor pushed done res q' Hf]; simpl in *.
  - destruct (check_err_cases _ _ _ Hc) as (Hq & Hpo & He & _).
    split; unfold writer_fits, pending in *; simpl in *; rewrite ?Hq, ?Hpo; try done.
    + intros Hnp. by apply He, Herr.
    + intros Hnp. destruct (He (Herr Hnp)) as [_ Hbad]. by rewrite Hnp in Hbad.
  - destruct (check_err_cases _ _ _ Hc) as (Hq & Hpo & He & Hno).
    split; unfold writer_fits, pending in *; simpl in *; rewrite ?Hq, ?Hpo; try done.
    + intros Hnp. by apply He, Herr.
    + intros Hnp. destruct (Hrun Hnp) as (? & ? & ->). done.
  - destruct (bq_push_spec _ _ _ Hbq Hp) as (Hbq' & Hq' & Hc').
    split; unfold writer_fits, pending in *; simpl in *; rewrite ?Hq', ?Hc'; try done.
    + intros Hpo. destruct (Hstop Hpo) as [-> Hpre]. split; [done|]. by apply prefix_app_r.
    + intros Hnp. destruct (Hrun Hnp) as (Hfit & Hpush & _). unfold ptr_after. rewrite last_snoc, Hpush.
      split_and!; [|by destruct w, (bq_queue (wq_queue q)); rewrite <- ?app_assoc|done].
      destruct w; [done|destruct Hfit as [rs ->]; by eexists|by destruct (bq_queue (wq_queue q))|done].
  - unfold queue_flush in Hf. destruct (bq_wait_empty (wq_queue q)) as [requests|] eqn:Hw; [|done]. simpl in Hf.
    injection Hf as Hc. destruct (check_err_cases _ _ _ Hc) as (Hq & Hpo & He & _). simpl in *.
    destruct (bq_wait_empty_inv _ _ Hbq Hw) as (Hbq' & Hq' & Hc').
    split; unfold writer_fits, pending in *; simpl in *; rewrite ?Hq, ?Hpo, ?Hq', ?Hc'; try done.
    intros Hnp. by apply He, Herr.
Qed.

Lemma record_err_spec q e q' :
  bq_ok (wq_queue q) -> record_err (E:=StoreError) q e = Ok q' ->
  bq_ok (wq_queue q') /\ bq_capacity (wq_queue q') = bq_capacity (wq_queue q) /\ wq_poisoned q' = true.
Proof.
  intros Hok. unfold record_err. destruct (bq_clear_spec (E:=StoreError) (wq_queue q) Hok) as (c & -> & Hc & _ & Hcap).
  simpl. by intros [= <-].
Qed.

Lemma writer_step_ok s0 capacity y y' : sys_ok s0 capacity y -> writer_step y y' -> sys_ok s0 capacity y'.
Proof.
  intros [Hbq Hcap Hst Herr Hstop Hrun] Hstep.
  assert (Hnp : y_writer y <> WStopped -> wq_poisoned (y_queue y) = false).
  { intros Hw. destruct (wq_poisoned (y_queue y)); [|done]. by destruct (Hstop eq_refl). }
  destruct Hstep as [s q front ptr cursor pushed done req requests Hp
    |s q front ptr cursor pushed done req fuel available s' He
    |s q front ptr cursor pushed done req fuel available e q' He Hr
    |s q front ptr cursor pushed done req fuel available q' He Hr
    |s q front ptr cursor pushed done req requests Hp];
    unfold writer_fits, pending in *; simpl in *; specialize (Hnp ltac:(done));
    destruct (Hrun Hnp) as (Hfit & Hpush & Hptr).
  - destruct (bq_peek_inv _ _ _ Hbq Hp) as (Hbq' & Hq' & Hc' & items & Hq).
    split; unfold writer_fits, pending; simpl; rewrite ?Hq', ?Hc'; try done.
    + by rewrite Hnp.
    + intros _. split_and!; [by exists items|done..].
  - destruct Hfit as [rs Hq]. split; unfold writer_fits, pending; simpl; try done.
    + eapply sync_runs_snoc; [done|]. by exists fuel, available.
    + by rewrite Hnp.
    + intros _. rewrite Hq in Hpush |- *. split_and!; [done|by rewrite <- app_assoc|done].
  - destruct (record_err_spec _ _ _ Hbq Hr) as (Hbq' & Hc' & Hpo).
    split; simpl; rewrite ?Hc', ?Hpo; try done. intros _. split; [done|]. rewrite Hpush. by apply prefix_app_r.
  - destruct (record_err_spec _ _ _ Hbq Hr) as (Hbq' & Hc' & Hpo).
    split; simpl; rewrite ?Hc', ?Hpo; try done. intros _. split; [done|]. rewrite Hpush. by apply prefix_app_r.
  - destruct (bq_pop_inv _ _ _ Hbq Hp) as (Hbq' & Hq & Hc').
    split; unfold writer_fits, pending; simpl; rewrite ?Hc'; try done.
    + by rewrite Hnp.
    + intros _. split_and!; [done|by rewrite Hq in Hpush|done].
Qed.

Lemma wsys_step_ok s0 capacity y y' : sys_ok s0 capacity y -> rtc wsys_step y y' -> sys_ok s0 capacity y'.
Proof.
  intros Hok Hr. induction Hr as [|y1 y2 y3 [Hf|Hw] _ IH]; [done|..]; apply IH.
  - by eapply front_step_ok.
  - by eapply writer_step_ok.
Qed.

(** ** After an error *)

Lemma poisoned_step y y' :
  wq_poisoned (y_queue y) = true -> y_writer y = WStopped -> wsys_step y y' ->
  wq_poisoned (y_queue y') = true /\ y_writer y' = WStopped /\ y_store y' = y_store y /\ y_done y' = y_done y.
Proof.
  intros Hp Hw [Hstep|Hstep]; [|destruct Hstep; done].
  destruct Hstep as [s q q' w req ptr cursor pushed done e Hc|s q q' w req ptr cursor pushed done Hc
    |s q w req ptr cursor pushed done requests Hpush|s q w ptr cursor pushed done res q' Hf]; simpl in *.
  - destruct (check_err_cases _ _ _ Hc) as (_ & Hpo & _). split_and!; try done. by rewrite Hpo.
  - destruct (check_err_cases _ _ _ Hc) as (_ & _ & _ & Hno). by destruct (Hno Hp).
  - done.
  - unfold queue_flush in Hf. destruct (bq_wait_empty (wq_queue q)) as [requests|]; [|done]. simpl in Hf.
    injection Hf as Hc. destruct (check_err_cases _ _ _ Hc) as (_ & Hpo & _). simpl in Hpo.
    split_and!; try done. by rewrite Hpo.
Qed.

Lemma poisoned_forever y y' :
  wq_poisoned (y_queue y) = true -> y_writer y = WStopped -> rtc wsys_step y y' ->
  wq_poisoned (y_queue y') = true /\ y_store y' = y_store y /\ y_done y' = y_done y.
Proof.
  intros Hp Hw Hr. induction Hr as [|y1 y2 y3 Hstep _ IH]; [done|].
  destruct (poisoned_step y1 y2) as (Hp2 & Hw2 & Hs2 & Hd2); [done..|].
  destruct (IH Hp2 Hw2) as (? & ? & ?). split_and!; [done|congruence..].
Qed.

(** C19: In whatever order calls of the front and actions of the background writer
    happen: the store is what executing a prefix of the pushed requests, in
    order and each once, makes of the initial store; the queue respects its
    capacity; as long as no request has failed, nothing is lost, and the block
    pointer in memory is that of the last pushed request; once a request has
    failed, nothing is ever written again. *)
Theorem writer_system_safe s0 capacity y :
  rtc wsys_step (wsys_init s0 capacity) y ->
  sync_runs s0 (y_done y) (y_store y) /\ y_done y `prefix_of` y_pushed y /\
  bq_len (wq_queue (y_queue y)) <= capacity /\
  (wq_poisoned (y_queue y) = false ->
     y_pushed y = y_done y ++ pending y /\
     (y_front y = None -> y_block_ptr y = ptr_after (vs_block_ptr (ss_deployment s0)) (y_pushed y))) /\
  (wq_poisoned (y_queue y) = true -> forall y', rtc wsys_step y y' ->
     wq_poisoned (y_queue y') = true /\ y_store y' = y_store y /\ y_done y' = y_done y).
Proof.
  intros Hr. destruct (wsys_step_ok s0 capacity _ y (sys_init_ok s0 capacity) Hr) as [Hbq Hcap Hst Herr Hstop Hrun].
  split_and!; [done|..].
  - destruct (wq_poisoned (y_queue y)); [by apply Hstop|]. destruct (Hrun eq_refl) as (_ & -> & _).
    by apply prefix_app_r.
  - destruct Hbq as [_ Hpush]. unfold bq_len. lia.
  - intros Hnp. destruct (Hrun Hnp) as (_ & Hpush & Hptr). split; [done|]. intros Hf. by rewrite Hf in Hptr.
  - intros Hp y' Hr'. apply poisoned_forever; [done|by apply Hstop|done].
Qed.

(** ** The queue gets empty *)

(** The writer takes the request at the front of the queue through a round of
    its loop. *)
Lemma writer_finishes s0 capacity y r s' :
  sys_ok s0 capacity y -> y_writer y = WExecute r -> executes (y_store y) r s' ->
  exists y', rtc writer_step y y' /\ y_writer y' = WPeek /\ y_store y' = s' /\
    y_front y' = y_front y /\ y_pushed y' = y_pushed y /\ wq_poisoned (y_queue y') = wq_poisoned (y_queue y) /\
    bq_queue (wq_queue (y_queue y')) = tail (bq_queue (wq_queue (y_queue y))).
Proof.
  intros [Hbq _ _ _ Hstop Hrun] Hw (fuel & available & He).
  assert (Hnp : wq_poisoned (y_queue y) = false).
  { destruct (wq_poisoned (y_queue y)); [|done]. destruct (Hstop eq_refl) as [Hs _]. congruence. }
  destruct (Hrun Hnp) as (Hfit & _). unfold writer_fits in Hfit. rewrite Hw in Hfit. destruct Hfit as [rs Hq].
  destruct (bq_pop_spec (E:=StoreError) _ r rs Hbq Hq) as (requests & Hpop & _ & Hqr & _).
  destruct y as [s q w front ptr cursor pushed done]. simpl in *. subst w.
  exists (mkWSys s' (with_requests q requests) WPeek front ptr cursor pushed (done ++ [r])).
  split_and!; simpl; try done; [|by rewrite Hqr, Hq].
  eapply rtc_l; [by eapply writer_executed|]. eapply rtc_l; [by eapply writer_popped|]. apply rtc_refl.
Qed.

Lemma writer_steps_ok s0 capacity y y' : sys_ok s0 capacity y -> rtc writer_step y y' -> sys_ok s0 capacity y'.
Proof. intros Hok Hr. induction Hr as [|y1 y2 y3 Hw _ IH]; [done|]. apply IH. by eapply writer_step_ok. Qed.

Lemma writer_drains_queue s0 capacity rs sn y :
  sys_ok s0 capacity y -> wq_poisoned (y_queue y) = false -> y_writer y = WPeek ->
  bq_queue (wq_queue (y_queue y)) = rs -> sync_runs (y_store y) rs sn ->
  exists y', rtc writer_step y y' /\ y_writer y' = WPeek /\ y_store y' = sn /\ y_front y' = y_front y /\
    y_pushed y' = y_pushed y /\ wq_poisoned (y_queue y') = false /\ bq_queue (wq_queue (y_queue y')) = [].
Proof.
  revert y. induction rs as [|r rs IH]; intros y Hok Hnp Hw Hq Hrs.
  { inversion Hrs; subst. exists y. split_and!; try done. }
  inversion Hrs as [|? s1 ? ? ? He Hrs']; subst.
  destruct (bq_peek_spec (E:=StoreError) _ r rs (so_bq _ _ _ Hok) Hq) as (requests & Hpeek & _ & Hqr & _).
  destruct y as [s q w front ptr cursor pushed done]. simpl in *. subst w.
  set (y1 := mkWSys s (with_requests q requests) (WExecute r) front ptr cursor pushed done).
  assert (Hstep : writer_step (mkWSys s q WPeek front ptr cursor pushed done) y1) by by apply writer_peek.
  pose proof (writer_step_ok _ _ _ _ Hok Hstep) as Hok1.
  destruct (writer_finishes s0 capacity y1 r s1) as (y2 & Hr2 & Hw2 & Hs2 & Hf2 & Hp2 & Hn2 & Hq2); [done..|].
  destruct (IH y2) as (y3 & Hr3 & Hw3 & Hs3 & Hf3 & Hp3 & Hn3 & Hq3).
  - by eapply writer_steps_ok.
  - by rewrite Hn2.
  - done.
  - by rewrite Hq2; simpl; rewrite Hqr, Hq.
  - by rewrite Hs2.
  - exists y3. split_and!; try done; [|by rewrite Hf3, Hf2|by rewrite Hp3, Hp2]. eapply rtc_l; [done|]. by etrans.
Qed.

(** The next time the writer is about to look at the queue *)
Lemma writer_to_peek s0 capacity y sn :
  sys_ok s0 capacity y -> wq_poisoned (y_queue y) = false -> sync_runs (y_store y) (pending y) sn ->
  exists y', rtc writer_step y y' /\ y_writer y' = WPeek /\ wq_poisoned (y_queue y') = false /\
    y_front y' = y_front y /\ y_pushed y' = y_pushed y /\ sync_runs (y_store y') (pending y') sn.
Proof.
  intros Hok Hnp Hrs. destruct (so_running _ _ _ Hok Hnp) as (Hfit & _). unfold writer_fits, pending in *.
  destruct (y_writer y) as [|r| |] eqn:Hw; [| | |done].
  - exists y. rewrite Hw. split_and!; done.
  - destruct Hfit as [rs Hq]. rewrite Hq in Hrs. inversion Hrs as [|? s1 ? ? ? He Hrs']; subst.
    destruct (writer_finishes s0 capacity y r s1) as (y2 & Hr2 & Hw2 & Hs2 & Hf2 & Hp2 & Hn2 & Hq2); [done..|].
    exists y2. rewrite Hw2, Hq2, Hq, Hs2. split_and!; done || congruence.
  - destruct (bq_queue (wq_queue (y_queue y))) as [|r rs] eqn:Hq; [done|].
    destruct (bq_pop_spec (E:=StoreError) _ r rs (so_bq _ _ _ Hok) Hq) as (requests & Hpop & _ & Hqr & _).
    destruct y as [s q w front ptr cursor pushed done]. simpl in *. subst w.
    exists (mkWSys s (with_requests q requests) WPeek front ptr cursor pushed done). simpl. rewrite Hqr.
    split_and!; try done. apply rtc_once. by eapply writer_popped.
Qed.

(** C20: As long as no request has failed, and if the pending ones can be executed,
    the background writer alone empties the queue: it executes every request
    that was pushed, and a [flush] then returns successfully. *)
Theorem writer_empties_queue s0 capacity y sn :
  rtc wsys_step (wsys_init s0 capacity) y -> 0 < capacity -> (Z.of_nat capacity < u32_mod)%Z ->
  wq_poisoned (y_queue y) = false -> sync_runs (y_store y) (pending y) sn ->
  exists y' q, rtc writer_step y y' /\ y_store y' = sn /\ y_done y' = y_pushed y /\
    y_front y' = y_front y /\ bq_len (wq_queue (y_queue y')) = 0 /\
    queue_flush (y_queue y') = Some (Ok (), q).
Proof.
  intros Hr Hpos Hu Hnp Hrs.
  pose proof (wsys_step_ok s0 capacity _ y (sys_init_ok s0 capacity) Hr) as Hok.
  destruct (writer_to_peek s0 capacity y sn) as (y1 & Hr1 & Hw1 & Hn1 & Hf1 & Hp1 & Hrs1); [done..|].
  pose proof (writer_steps_ok _ _ _ _ Hok Hr1) as Hok1. unfold pending in Hrs1. rewrite Hw1 in Hrs1.
  destruct (writer_drains_queue s0 capacity _ sn y1 Hok1 Hn1 Hw1 eq_refl Hrs1)
    as (y2 & Hr2 & Hw2 & Hs2 & Hf2 & Hp2 & Hn2 & Hq2).
  pose proof (writer_steps_ok _ _ _ _ Hok1 Hr2) as Hok2. destruct (so_running _ _ _ Hok2 Hn2) as (_ & Hall & _).
  unfold pending in Hall. rewrite Hw2, Hq2, app_nil_r in Hall.
  pose proof (so_capacity _ _ _ Hok2) as Hcap.
  pose proof (bq_wait_empty_spec _ (so_bq _ _ _ Hok2) ltac:(lia) ltac:(rewrite Hcap; done)) as Hflush.
  destruct (bq_wait_empty (wq_queue (y_queue y2))) as [requests|] eqn:Hwait; [|done].
  eexists y2, _. split_and!; [by etrans|done|congruence|congruence|unfold bq_len; by rewrite Hq2|].
  unfold queue_flush. rewrite Hwait. simpl. unfold check_err. simpl.
  by rewrite (so_err _ _ _ Hok2 Hn2), Hn2.
Qed.

End System.
