(* ===== verification/WritableExamples.v ===== *)
(** * The writer over a deployment with two tables

    Witnesses for the theorems about the write queue, and a run in which
    [flush] never returns. *)

From S2P Require Import Prelude GraphqlAst Scalars ScalarModels RuntimeValue Values StoreTypes Schema.
From S2P Require Import SchemaProps BlockRange Relational VersionProps RowProps RevertProps LayoutProps DeploymentStore.
From S2P Require Import DeploymentProps DeploymentExamples BoundedQueue VersionedStore DeploymentVersions Backoff.
From S2P Require Import Writable WritableReads WritableMany WritableSystem.

#[export] Instance music_store : VersionedStore deployment :=
  deployment_store music_site example_schema music_layout plain_hash 1.

#[export] Instance music_store_laws : VersionedStoreLaws deployment :=
  deployment_store_laws music_site example_schema music_layout music_layout_ok plain_hash 1.

Definition request2 : Request := ReqWrite (mkPtr [] 2) (Some "cursor") mods2 [data_source] [].

Definition queue2 : BoundedQueue nat Request := mkQueue 5 [request2] 4 1.

Definition store1 : SyncStore deployment := mkSync deployment1 [].

Lemma deployment1_at : vs_inv 1 deployment1.
Proof. split_and!; [apply deployment1_inv|done|constructor|constructor]. Qed.

Lemma request2_ok : request_ok request2.
Proof.
  split_and!; [done|done|split| |].
  - apply mods2_batch.
  - constructor; [apply music_readable|]. constructor; [exact I|]. constructor; [apply music_readable|constructor].
  - constructor; [|constructor]. by intros a [= <-].
  - by constructor.
Qed.

Lemma request2_executed : executed deployment1 request2 deployment2.
Proof. exists (store_event_from_mods 1 mods2). exact transact2_ok. Qed.

(** The request has not been executed when the store is asked. *)
Lemma request2_in_flight : in_flight queue2 store1 1 deployment1 deployment2.
Proof.
  split_and!; [apply deployment1_at|constructor; [apply request2_ok|constructor]|].
  exists [], [request2]. split_and!; [done|constructor|].
  econstructor; [apply request2_executed|constructor].
Qed.

Lemma music_bind_id ty t id :
  music_layout !! ty = Some t -> bind_id (SV:=Value) t id = Ok (VString id).
Proof. intros Ht. unfold bind_id, primary_key. rewrite (music_table ty t Ht). done. Qed.

Lemma music_same k k' :
  vs_same k k' -> entity_type k = entity_type k' /\ key_entity_id k = key_entity_id k'.
Proof.
  intros [Hty [Hid|(t & v & Ht & Hv & Hv')]]; [done|]. split; [done|].
  rewrite (music_bind_id _ t) in Hv, Hv' by done. congruence.
Qed.

Lemma music_canonical ty id : canonical (key_of ty id) [request2].
Proof.
  intros r m ->%list_elem_of_singleton Hin [Hty Hid]%music_same.
  assert (subgraph_id (mod_entity_key m) = music_site).
  { pose proof (ba_site _ _ _ mods2_batch) as Hs. rewrite Forall_forall in Hs. by apply Hs. }
  destruct (mod_entity_key m). simpl in *. by subst.
Qed.

Definition at_once (n : Z) : bool := true.

Lemma reaches_at_once : reaches 1 at_once.
Proof. exists 0%Z. split_and!; done. Qed.

Lemma beatles_found :
  vs_get deployment2 (key_of "Band" "beatles") BLOCK_NUMBER_MAX <> Err DatabaseUnavailable.
Proof.
  intros He. apply (f_equal (fun r => match r with Err DatabaseUnavailable => true | _ => false end)) in He.
  vm_compute in He. discriminate.
Qed.

Lemma queue_get_correct_witness :
  (exists m r, r ∈ bq_queue queue2 /\ m ∈ request_mods r /\ mod_entity_key m = key_of "Band" "beatles" /\
     queue_get 1 at_once queue2 store1 (key_of "Band" "beatles") = Some (Ok (mod_entity m)) /\
     vs_get deployment2 (key_of "Band" "beatles") BLOCK_NUMBER_MAX = Ok (vs_view m) /\
     (vs_kept m ->
      vs_view m = <["__typename" := VString "Band"]> <$> mod_entity m)) \/
  queue_get 1 at_once queue2 store1 (key_of "Band" "beatles")
    = Some (vs_get deployment2 (key_of "Band" "beatles") BLOCK_NUMBER_MAX).
Proof.
  apply (queue_get_correct queue2 store1 1 deployment1 deployment2 1 at_once (key_of "Band" "beatles")).
  - exact request2_in_flight.
  - apply music_canonical.
  - exact reaches_at_once.
  - exact beatles_found.
Defined.

Lemma queue_load_correct_witness :
  exists dds, queue_load_dynamic_data_sources 1 at_once queue2 store1 = Some (Ok dds) /\
    vs_load deployment2 BLOCK_NUMBER_MAX = Ok dds.
Proof.
  apply (queue_load_correct queue2 store1 1 deployment1 deployment2 1 at_once);
    [exact request2_in_flight|exact reaches_at_once].
Defined.

Definition wanted_ids : gmap EntityType (list string) := {["Band" := ["kinks"; "who"]; "Transfer" := ["1"]]}.

Definition is_ok {E A} (r : result E A) : bool := match r with Ok _ => true | _ => false end.

Lemma is_ok_exists {E A} (r : result E A) : is_ok r = true -> exists x, r = Ok x.
Proof. destruct r; [by eexists|done..]. Qed.

Lemma ids_wanted : wanted music_site queue2 deployment2 wanted_ids.
Proof.
  intros ty l Hl.
  assert (Hsame : forall id id', vs_same (mkKey music_site ty id) (mkKey music_site ty id') -> id = id')
    by (intros id id' [_ ?]%music_same; done).
  unfold wanted_ids in Hl. apply lookup_insert_Some in Hl as [[<- <-]|[_ Hl]].
  - split_and!; [done|by apply (bool_decide_unpack _)|by intros id id' _ _ ?%Hsame|].
    intros id Hin. split; [apply music_canonical|].
    apply elem_of_cons in Hin as [Heq|Heq%list_elem_of_singleton]; subst id; apply is_ok_exists; by vm_compute.
  - apply lookup_singleton_Some in Hl as [<- <-].
    split_and!; [done|by apply (bool_decide_unpack _)|by intros id id' _ _ ?%Hsame|].
    intros id ->%list_elem_of_singleton. split; [apply music_canonical|]. apply is_ok_exists. by vm_compute.
Qed.

Lemma queue_get_many_correct_witness :
  exists r, queue_get_many 1 at_once queue2 store1 wanted_ids = Some (Ok r) /\
    forall ty, default [] (r !! ty) ≡ₚ
      omap (fun id => answer (queue_get 1 at_once queue2 store1 (mkKey music_site ty id)))
        (default [] (wanted_ids !! ty)).
Proof.
  apply (queue_get_many_correct music_site queue2 store1 1 deployment1 deployment2 1 at_once wanted_ids).
  - exact request2_in_flight.
  - exact reaches_at_once.
  - exact ids_wanted.
  - constructor; [|constructor]. apply (ba_site _ _ _ mods2_batch).
Defined.

(** ** Pushing and writing the request *)

Definition always (e : StoreEvent) : bool := true.

Definition sys2 : WSys nat deployment :=
  mkWSys store1 (mkWQueue queue2 None false) WPeek None (Some (mkPtr [] 2)) (Some "cursor") [request2] [].

Lemma sys2_reached : rtc (wsys_step music_site false always) (wsys_init store1 5) sys2.
Proof.
  eapply rtc_l; [left; apply (front_checked _ _ (queue_start 5) WPeek request2); reflexivity|].
  eapply rtc_l; [left; apply (front_pushed _ (queue_start 5) WPeek request2 _ _ _ _ queue2); reflexivity|].
  apply rtc_refl.
Qed.

Lemma writer_system_safe_witness :
  y_pushed sys2 = y_done sys2 ++ pending sys2 /\ bq_len (wq_queue (y_queue sys2)) <= 5.
Proof.
  destruct (writer_system_safe music_site false always store1 5 sys2 sys2_reached) as (_ & _ & Hlen & Hrun & _).
  split; [by apply Hrun|exact Hlen].
Defined.

Definition store2 : SyncStore deployment := mkSync deployment2 [store_event_from_mods 1 mods2].

Lemma request2_executes : executes music_site false always store1 request2 store2.
Proof.
  exists 1, at_once. unfold execute, request2, sync_transact_block_operations.
  assert (Ht : vs_transact (ss_deployment store1) (mkPtr [] 2) (Some "cursor") mods2 [data_source] []
    = Ok (deployment2, store_event_from_mods 1 mods2)) by exact transact2_ok.
  rewrite Ht. reflexivity.
Qed.

Lemma writer_empties_queue_witness :
  exists y' q, rtc (writer_step music_site false always) sys2 y' /\ y_store y' = store2 /\
    queue_flush (y_queue y') = Some (Ok (), q).
Proof.
  destruct (writer_empties_queue music_site false always store1 5 sys2 store2 sys2_reached
    ltac:(lia) ltac:(done) eq_refl) as (y' & q & Hr & Hs & _ & _ & _ & Hf).
  - econstructor; [exact request2_executes|constructor].
  - exists y', q. split_and!; [exact Hr|exact Hs|exact Hf].
Defined.

(** ** A flush that never returns *)

Section FlushHangs.
Context {D : Type} `{!VersionedStore D} (s0 : SyncStore D) (ptr1 ptr2 : BlockPtr).

(** A request that the writer can not execute: it is for another deployment. *)
Definition foreign_request : Request :=
  ReqWrite ptr1 None [ModRemove (mkKey "QmOther" "Band" "who")] [] [].
Definition late_request : Request := ReqRevertTo ptr2 None.

(** The queue holds a request that nobody will ever take out. *)
Definition stuck (y : WSys nat D) : Prop :=
  y_writer y = WStopped /\ y_front y = None /\ wq_poisoned (y_queue y) = true /\
  wq_queue (y_queue y) = mkQueue 1 [late_request] 0 1.

Lemma stuck_step y y' : stuck y -> wsys_step music_site false always y y' -> stuck y'.
Proof.
  intros (Hw & Hf & Hp & Hq) [Hstep|Hstep]; [|by destruct Hstep].
  destruct Hstep as [s q q' w req ptr cursor pushed done e Hc|s q q' w req ptr cursor pushed done Hc
    |s q w req ptr cursor pushed done requests Hpush|s q w ptr cursor pushed done res q' Hfl]; simpl in *.
  - destruct (check_err_cases _ _ _ Hc) as (Hq' & Hp' & _). unfold stuck. simpl. by rewrite Hq', Hp'.
  - destruct (check_err_cases _ _ _ Hc) as (_ & _ & _ & Hno). by destruct (Hno Hp).
  - done.
  - unfold queue_flush in Hfl. by rewrite Hq in Hfl.
Qed.

(** C39: There is a run after which [flush] never returns: a call passes the check
    for errors and waits for a place in the queue, the writer fails, clears the
    queue and stops, and then the call puts its request into the queue, where it
    stays.  [wait_empty] waits for it forever, also when the error has been
    reported. *)
Theorem flush_can_hang :
  exists y, rtc (wsys_step music_site false always) (wsys_init s0 1) y /\ y_front y = None /\
    wq_poisoned (y_queue y) = true /\
    forall y', rtc (wsys_step music_site false always) y y' -> queue_flush (y_queue y') = None.
Proof.
  exists (mkWSys s0 (mkWQueue (mkQueue 1 [late_request] 0 1) (Some WriterPanic) true) WStopped None
    (Some ptr2) None [foreign_request; late_request] []).
  split_and!; [|done|done|].
  - eapply rtc_l; [left; apply (front_checked _ _ (queue_start 1) WPeek foreign_request); reflexivity|].
    eapply rtc_l.
    { left. apply (front_pushed _ (queue_start 1) WPeek foreign_request _ _ _ _
        (mkQueue 1 [foreign_request] 0 1)). reflexivity. }
    eapply rtc_l.
    { right. eapply writer_peek. reflexivity. }
    eapply rtc_l; [left; eapply front_checked with (req := late_request); reflexivity|].
    eapply rtc_l.
    { right. eapply writer_panicked with (fuel := 1) (available := at_once); reflexivity. }
    eapply rtc_l.
    { left. eapply front_pushed. reflexivity. }
    apply rtc_refl.
  - intros y' Hr.
    assert (Hst : stuck y').
    { revert Hr. apply rtc_ind_r; [done|]. intros y1 y2 _ Hstep Hst. by eapply stuck_step. }
    destruct Hst as (_ & _ & _ & Hq). unfold queue_flush. by rewrite Hq.
Qed.

End FlushHangs.
